(* ===== verification/_CoqProject ===== *)
-Q . S2P
Prelude.v
GoStr.v
Wire.v
Config.v
ClientHello.v
Valkey.v
Limiter.v
StreamCap.v
Pacing.v
Router.v
RouteLock.v
Caplog.v
Edge.v
Bridge.v
Ban.v
Attest.v
Enroll.v
DialBack.v
PhoneConn.v
GoTime.v
Spool.v
SpoolSafe.v
GoFloat.v
Acme.v
ServeConfig.v
AcmeTransport.v
AcmeBudget.v
AcmeChain.v
Issuance.v
Challenges.v
Reserved.v
Renewal.v
Fleet.v
FleetRace.v
Mesh.v
ServerLoop.v
Names.v
EnrollHTTP.v
Refresh.v
Client.v
LegoOrder.v
CrashGuard.v
RefusedList.v
RefusedReport.v
RefusedApps.v
TunnelCA.v
PlainHTTP.v
LogSinks.v
S3Store.v
Admin.v
Recorder.v
Labels.v
Lifecycle.v
IssueHTTP.v
AcmeWire.v
AdminActions.v
ClientConn.v
ConnEvents.v
EdgeListen.v
Soak.v
Redact.v
AttemptTimer.v
SpoolLock.v
