(* ===== verification/Prelude.v ===== *)
(** * tunneld: a verification development

    tunneld lets a phone behind NAT serve a public TLS name.  A phone enrolls
    (hardware attestation, a claimed name, an identity certificate), keeps a
    control connection to one node of a fleet, and gets a public certificate
    for [<name>.<tunnel-domain>].  A public client connects to any node; the edge
    reads the ClientHello without terminating TLS, finds the node and connection
    that hold the phone in Valkey, asks the phone to dial back and splices the
    two sockets, within limits that all nodes share through Valkey.

    The development is a shallow embedding of the Go packages under
    [src/internal] and [src/client], of the report job under
    [src/infra/refused-apps] and of the load generator under
    [src/support/soak-client]: pure functions are Rocq functions, calls to Valkey go
    through a state monad over an abstract server, goroutines that share state
    are step relations or schedules of events, and Go errors are values.

    ** Files

    - [Prelude]: results, machine integers, bytes, sums over maps, runs of a
      step relation, tactics and the hint database [tunneld].
    - [GoStr]: the parts of [strings], [strconv] and [encoding/hex] the code
      uses, on byte strings.  Case mapping and white space beyond ASCII are the
      class [UnicodeCase].
    - [Wire] ([wire/frame.go], [phoneconn/stream.go]): control frames.
    - [Config] ([config/size.go]): size and bitrate flags, with int64 overflow.
    - [ClientHello] ([edge/clienthello.go]): the TLS hello parser with Go's
      slice panics as an outcome, and JA4.
    - [Valkey]: what the code relies on of the server.  [ValkeyServer] and
      [ValkeyLaws] state the documented effect of each command on its key;
      [mem_server] is a server that satisfies them.  [ValkeyClient] is the
      client: a world with two clocks, commands of other clients before each of
      ours, connection failures with the command lost or only its reply, and
      context cancellation.  A world whose script is empty is [quiet].
    - [Limiter] ([limit/*.go] but for [acme_budget.go]): fixed windows, stream
      slots, traffic charges, CA cooldowns, issuance gating.
    - [StreamCap], [Pacing]: the stream cap and the traffic windows when any
      number of calls interleave command by command.
    - [Router] ([router/*.go]): routes, their lock, heartbeats, self-healing,
      traffic counters and the node registry.
    - [RouteLock]: binds, self-heals and unbinds of one tunnel, interleaved.
    - [Caplog] ([caplog/caplog.go]): the deduplicating refusal log.
    - [Edge] ([edge/accept.go], [edge/edge.go]): admission, peeking and dispatch
      of a public connection.  [StreamLimiter] is the interface to the limiter,
      and [limiter_streams] the proof that [Limiter] provides it.
    - [Bridge] ([edge/bridge.go]): a tunnel connection from its route lookup to
      its close.  [EdgeDeps] is the interface to the router, the limiter, the
      phone and the other nodes; [node_deps] builds it from [Router] and
      [Limiter].
    - [Ban] ([ban/*.go]): ban files, the country table and the reloading watcher.
    - [Attest] ([attest/keydescription.go], [verify.go], [signers.go]): what an
      accepted Android key attestation proves.
    - [Enroll] ([enroll/enroll.go], [nonce.go]): nonces, name claims, enrollment
      and issuance over the limiter, the verifier and a name store.
    - [DialBack] ([phoneconn/dialback.go]): the rendezvous between a public
      connection that waits and the phone that dials back, interleaved.
    - [PhoneConn] ([phoneconn/manager.go], [listener.go]): control connections,
      from the request to their teardown, and the manager's table interleaved.
    - [GoTime]: civil dates and the time format of the connection log.
    - [Spool] ([store/spool.go]): the connection-log spool over a directory whose
      calls may fail; [SpoolSafe] interleaves its goroutines, crashes and
      restarts.
    - [GoFloat]: Go's float64 as the Standard Library's binary64.
    - [Acme] ([acme/budget.go], [track.go], [issuer.go]): accounts, budgets, errors,
      backoff and the track of one order.
    - [ServeConfig] ([config/config.go], [rate.go], [redis.go],
      [logging/logging.go]): flags, their validation, rates, durations, log sinks.
    - [AcmeTransport] ([acme/transport.go]): pacing and paying for each HTTP
      request of an order, and reading its answer.
    - [AcmeBudget] ([limit/acme_budget.go]): token buckets and orders in flight in
      Valkey.
    - [AcmeChain] ([acme/chain.go]): the spillover over accounts and certificate
      authorities, against the interface [ChainDeps] with laws [ChainLaws].
    - [Issuance]: the chain over [Limiter], [AcmeBudget] and [Router], which
      discharge its laws.
    - [Challenges] ([acme/challenge_store.go], [challenge_http.go],
      [challenge_providers.go]): pending ACME challenges, the order lock and the
      shared certificate in Valkey, and the http-01 handler.
    - [Reserved] ([server/reserved.go]): the certificates of the service's own
      hosts, over a disk and a process that may fail at every call; [SelfDeps] is
      the interface to the lock, the store and the chain.
    - [Renewal] ([acme/lazy.go], parts of [chain.go] and [lego_client.go]): when a
      certificate is due, and the client that is built once, interleaved.
    - [Fleet]: [Reserved] over [Challenges] and [Valkey] (the instance
      [valkey_self] of [SelfDeps]); [FleetRace]: the runs of [issue] on all nodes,
      interleaved, with failing commands, expiring locks and dying nodes.
    - [Mesh] ([mesh/*.go], the cluster operations of [server/serve.go]): pools and
      their reaper, the listener and its dispatch, opening on the owner, freeing
      a slot elsewhere, telling all nodes.
    - [ServerLoop] ([server/drain.go], [schedulers.go]): the drain, the rotation of
      the mesh certificate, the heartbeat and the renewal watcher.
    - [Names] ([ca/name.go], [validNameFunc] of [server/serve.go]): generated names.
    - [EnrollHTTP] ([enroll/http.go]): the enrollment handler over [Enroll].
    - [Refresh] ([attest/refreshers.go]): the lists the verifier reads, composed
      with [Attest].
    - [Client] ([src/client]): the reference phone, its retries, its frame loop and
      its moves between nodes.
    - [LegoOrder] ([acme/lego_client.go]): an order and its caller interleaved, the
      classes of its errors, the checks of the chain.
    - [CrashGuard] ([report/report.go]): the handler every HTTP listener is wrapped
      in, its writer and the scope of its reports.
    - [RefusedList], [RefusedReport], [RefusedApps] ([infra/refused-apps]): the list
      of refused attempts, the text of the daily report, and the job that sends,
      saves and publishes it.
    - [TunnelCA] ([ca/ca.go], [e2e.go], [verify.go]): the internal certificate
      authority, composed with the phone and mesh listeners.
    - [PlainHTTP] ([server/acmehttp.go]): the listener of the http-01 port,
      interleaved, as a refinement of the ceiling of [Edge].
    - [LogSinks] ([logging/handlers.go], [report/tee.go]): log sinks, the reports of
      their failures, and error records as events.
    - [S3Store] ([store/s3.go], [rejected.go]): the name registry and the evidence
      over plain S3; the instance [s3_names] of [NameStore].
    - [Admin] ([admin/tunnels.go]): the admin view of tunnels.
    - [Recorder] ([metrics/recorder.go], [metrics.go], [acme_budget.go],
      [observ/recorder.go]): counts, traffic counters with interleaved flushes, and
      the labels they may carry; [Labels] proves that the components keep to them.
    - [Lifecycle] ([server/server.go]): the life of the process, from its flags to
      the end of its shutdown, with the goroutines that report meanwhile.
    - [IssueHTTP] ([phoneconn/listener.go], [issueFunc] of [server/serve.go]):
      POST /api/v1/issue from the listener to [Enroll], and the count a drain waits
      for, interleaved.
    - [AcmeWire] ([server/acmewire.go], [NewChain] of [acme/lazy.go]): account keys on
      disk and the chain built from the flags.
    - [AdminActions] ([server/server.go], [metrics/server.go]): the internal port over
      [Mesh], [Admin] and [Router].
    - [ClientConn] ([client/control.go], [datastream.go]): one control connection of
      the phone with its watchdog, interleaved, and its dial-backs.
    - [ConnEvents] ([store/event.go], [writeEvent] of [phoneconn/manager.go],
      [edgeLogSink] of [server/serve.go]): the events of the connection log, read off
      the traces of [Bridge], and what a handler knows of its TLS client.
    - [EdgeListen] ([edge/accept.go], [Wait] of [edge/edge.go]): the accept loop with
      its counters and the listeners of the service's own hosts, interleaved.
    - [Redact] ([config/redis.go]): secrets of URLs in error messages.
    - [AttemptTimer] ([acme/chain.go]): the timer beside an order, interleaved, the
      chain's defaults and the certificates the service orders for itself.
    - [SpoolLock] ([lockDir] of [store/spool.go]): the lock of a spool directory.
    - [Soak] ([support/soak-client/soak/soak.go]): the load generator's flags,
      recorder, percentiles and pauses.

    ** How state and operations correspond

    A Go method that talks to Valkey is a function [world S -> result * world S]
    of the same name, one [call] or [pipeline] per command it sends, with every
    branch and early return of the code.  The edge's methods run over a state
    that holds the environment, the table of live streams and the list of
    events they report.  The goroutines of a splice are the events of a
    schedule; a schedule is any list of events, so a theorem about all schedules
    is one about all interleavings.  The step relations of [StreamCap],
    [Pacing], [RouteLock] and [Edge] (the ceiling) send the very commands the
    sequential definitions send ([acquire_cmds], [charge_cmds], [read_cmd],
    [admit_add] and [admit_ok]); those of [DialBack], [PhoneConn] and [SpoolSafe]
    take the locked parts of the methods as their steps.  The chain and the
    transport record what they reserve, pay, send and report in a trace, over an
    environment that answers as it likes.  In [Reserved] every system call may
    fail, write a part, or be the last thing the process does; in [Client] the
    answers, streams and interrupted waits are scripts.

    ** What the theorems show

    The tunnel path: a connection is disposed of once
    ([handleTunnel_refuses_or_serves], [handleConn_one_disposition]); a splice
    forwards bytes in order and counts them, but for the part of a write that
    failed, which is sent and not counted ([splice_forwards_in_order]), ends
    ([closed_splice_finishes]) and gives its slot back once
    ([run_stream_releases_once]); the hello parser never panics
    ([parseClientHello_never_panics]), reads from a typed hello what a description
    of its own says ([parseClientHello_encoded]) and yields a stable JA4
    ([JA4_stable_under_reordering]); peeked bytes are replayed
    ([peek_replays_everything]).

    Shared limits under concurrency: streams, traffic windows and client
    connections stay within their caps in every interleaving
    ([open_streams_within_cap], [charges_within_window_cap],
    [connections_within_ceiling]).  A call to Valkey that fails lets its caller
    through: what was admitted unchecked is counted apart, and is all that can
    exceed a cap.

    Routes and phones: mutual exclusion and ownership of routes
    ([one_attempt_in_section], [route_lost_only_by_owner]), as long as no section
    outlives its lock ([stalled_unbind_takes_route]); one live control
    connection per name, shutdown, reports and identity
    ([one_live_connection_per_name], [CloseAll_reaches_everyone],
    [sessions_reported_once], [control_only_for_valid_identity]); dial-backs are
    given to one waiter and never leak ([given_to_one_waiter],
    [connection_used_or_closed]).  Between nodes: connections in use are not
    reaped ([pool_in_use_kept]), a node acts only on acceptable requests
    ([mesh_acts_only_when_acceptable]) and an OPEN through the mesh is one on the
    owner ([open_reaches_owner]); slots, broadcasts, drains, the mesh certificate
    and heartbeats ([remote_slot_idlest_first], [drain_waits_for_broadcasts],
    [drain_in_order], [drain_ends], [mesh_cert_never_lapses],
    [heartbeat_keeps_node_listed]).  On the phone: frames are served in order
    ([frames_served_in_order]), moves are followed and end ([moves_followed]), an
    enrollment is not repeated blindly ([enrollment_posts_once]), nonces are not
    reused ([renewal_spends_each_nonce_once]).

    Trust: what an accepted attestation proves ([Verify_accepts_only]), also of
    the published lists ([accepted_not_on_published_list]); an enrollment answer
    is true and refusals have no effect ([enrolled_phone_can_continue],
    [refused_before_effect]); generated names pass the check of names
    ([generated_name_valid]), and so does a reserved label of the same length
    ([reserved_label_passes]);
    an order is placed only once it was admitted, and in an undisturbed world it is
    counted and its lock released whatever its outcome
    ([Issue_counts_certificates]); nonces are single use
    ([nonce_is_single_use]); a CSR names only its tunnel
    ([csrMatchesTunnel_exact]); the certificates of phones and nodes do not mix
    ([roles_kept_apart]); the name registry reads back what it stored
    ([s3_names_laws]) and an outage is not an unknown name
    ([GetName_not_found]); bans are never lost to a torn read
    ([torn_read_never_committed]).

    Issuance: reservations are settled one for one ([reservations_settled]), a
    certificate is never discarded ([certificate_never_discarded]), accounts are
    tried once and in order ([accounts_tried_once_in_order]); a reservation is
    decided by every bucket ([ReserveACME_decides]) and a commit spends it
    ([CommitACME_spends]); requests are paid before they are sent
    ([request_paid_before_sent]) and an order that may exist is never refunded
    ([lost_order_counts_as_created]); the limiter implements the chain's
    interface ([chain_over_limiter]).  Own hosts: a certificate is never lost
    ([served_certificate_kept]), its file survives crashes
    ([cache_survives_crash]), orders are placed under the lock
    ([orders_only_under_lock]), lives return ([life_returns]), and one order
    serves the fleet: undisturbed nodes one after another ([fleet_orders_once]), and
    all at once with at most one further order for each thing that went wrong
    ([one_order_for_all]).  Challenges are answered on any node
    ([http_challenge_answered], [alpn_first_order_wins], [LockSelf_exclusive]);
    dates and clients ([renewal_date_uniform], [client_built_once]); the result of
    an order is delivered or logged ([order_result_reported_once]), and a chain
    without complaint is one ([chainIssue_none]); an attempt gets its time, and its
    grace once the order is being finalized ([attempt_gets_its_time]).

    Logs, codecs and flags: written lines survive crashes and failures, events
    are accounted for, the byte counter is exact and a shutdown without failures
    uploads everything but the files an earlier failure left under way ([written_lines_survive], [every_event_accounted],
    [spooled_bytes_exact], [drain_uploads_everything]), in a directory that one
    process uses at a time ([directory_used_by_one]); refusals are all
    reported ([every_hit_reported]); frames round-trip
    ([encode_decode_roundtrip]); flags that pass validation start
    ([validated_flags_start]); traffic counts are conserved by flushes, and
    what a failed save had added already is counted twice ([traffic_conserved]); and reports carry known labels
    ([reports_carry_known_labels]); a crash of a handler is reported and
    answered cleanly or cut off ([crash_contained]), and captured once
    ([crash_captured_once]); failures of sinks are all told
    ([sink_failures_all_told]); the plain HTTP port settles its slots
    ([plain_http_slots_settled]); secrets of URLs do not reach messages
    ([secrets_redacted]); a public connection is logged as it was
    ([public_connection_logged]); the admin view shows the live tunnels
    ([Stats_live_only]).

    The process: a stopped process leaves no socket and no goroutine, and what its
    last flushes could not save is all that is lost
    ([stopped_process_leaves_nothing]); a drain that saw no issuance cuts none off
    ([no_issue_after_idle_drain]); phones get certificates only for their own name
    ([certificates_only_for_own_name]); ACME accounts survive a restart
    ([accounts_survive_restart]), but a torn key file stops the next start
    ([torn_key_stops_next_start]); an admin terminate reaches every node
    ([terminate_reaches_every_node]); a control connection of the phone is closed
    once ([control_connection_closed_once]); the edge's wait covers every connection
    that was counted ([edge_waits_for_handlers]) and can miss one that was not
    ([wait_misses_uncounted]), which is why the theorem on the stopped process speaks
    of waits that are complete.  The load generator's rows account for its totals
    ([rows_account_for_totals]).

    The refused-apps report: attempts are filed after they were reported and not
    reported again ([attempts_filed_after_report]); every new attempt is in one
    row of one message, within the limits ([report_tells_every_attempt]); the
    dashboard's rows count the attempts on file ([dashboard_rows_spec]) and its
    file is replaced whole ([writeTextfile_whole]); a message is not sent again
    once accepted ([Send_retries]); refusals are stored where it looks, in time
    order ([evidence_listed], [RejectedKey_order]).

    ** Bounds and fuel

    Loops that Go bounds by a constant keep it ([lockAttempts], [slotRetries],
    the three reload attempts, the eight name draws).  Loops over input take the
    length of the input as fuel, and the theorems show that it is enough (the
    hello parser returns on every input; an ASN.1 element takes at least its
    header, [ASN1Laws]).  A retry loop that ends by its context runs as long as
    the fuel given, a parameter of the definition.  The polling of the order lock
    has fuel for more polls than fit into its deadline ([life_returns]), and a
    client's moves have fuel for every connection the script opens
    ([moves_followed]).  Integers that can overflow
    in Go are wrapped ([wrap64]); durations and instants are nanoseconds in [Z].

    The waiting loop of the transport has no bound in the code: its fuel is a
    parameter, and its theorems hold for a request that is still waiting too.

    ** What is not modelled

    TLS, HTTP, x509, ASN.1 decoding, JSON, SHA-256, net/netip parsing, regular
    expressions over URLs and the printing of floats are parameters.  Logs, crash
    reports and metrics series appear only as reported events; a recovered panic is
    an outcome where the code acts on it.  The time zone, the Unicode category of
    format characters and PEM are parameters of the report.  The registration of
    accounts with the lego library, the S3, Sentry and Prometheus clients and TLS
    configurations are not modelled; nor are the command lines and the test harness. *)
From Stdlib Require Import ZArith Lia Strings.Byte.
From stdpp Require Export base numbers list gmap strings fin_maps.
#[global] Open Scope Z_scope.

(** ** Results of fallible Go functions

    A Go function that returns [(A, error)] returns [Ok a] or [Err e] here.
    The values a Go function returns beside a non-nil error are dropped unless
    a caller reads them; then the definition returns the whole tuple. *)
Inductive result (E A : Type) : Type :=
| Ok (a : A)
| Err (e : E).
Arguments Ok {E A} a.
Arguments Err {E A} e.

Definition is_ok {E A} (r : result E A) : bool :=
  match r with Ok _ => true | Err _ => false end.

(** ** Machine integers

    [wrap64 z] is the Go [int64] (and [int], [time.Duration]) with the bits of
    [z]; [uint16], [uint32] and [byte] conversions reduce modulo their width. *)
Definition wrap64 (z : Z) : Z := (z + 2 ^ 63) `mod` 2 ^ 64 - 2 ^ 63.
Definition max_int64 : Z := 2 ^ 63 - 1.
Definition min_int64 : Z := - 2 ^ 63.
Definition to_uint32 (z : Z) : Z := z `mod` 2 ^ 32.

Lemma wrap64_id (z : Z) : min_int64 ≤ z ≤ max_int64 → wrap64 z = z.
Proof.
  unfold wrap64, min_int64, max_int64; intros H.
  rewrite Z.mod_small; lia.
Qed.

Lemma wrap64_range (z : Z) : min_int64 ≤ wrap64 z ≤ max_int64.
Proof.
  unfold wrap64, min_int64, max_int64.
  pose proof (Z.mod_pos_bound (z + 2 ^ 63) (2 ^ 64)); lia.
Qed.

(** ** Time

    Instants are Unix nanoseconds and durations are nanoseconds, both [Z]. *)
Definition nanosecond : Z := 1.
Definition millisecond : Z := 1000000.
Definition second : Z := 1000000000.
Definition minute : Z := 60 * second.
Definition hour : Z := 60 * minute.

(** Linear arithmetic with the quotients and remainders of the fields. *)
Ltac divmod := Z.to_euclidean_division_equations; lia.

(** ** Bytes *)
Abbreviation bytes := (list byte).

#[export] Instance byte_eq_decision : EqDecision byte.
Proof. intros x y; exact (Byte.byte_eq_dec x y). Defined.

Definition bZ (b : byte) : Z := Z.of_N (Byte.to_N b).

(** The byte with the low eight bits of [z] (Go's conversion [byte(z)]). *)
Definition Zb (z : Z) : byte :=
  match Byte.of_N (Z.to_N (z `mod` 256)) with Some b => b | None => x00 end.

Lemma bZ_range (b : byte) : 0 ≤ bZ b < 256.
Proof. destruct b; vm_compute; split; congruence. Qed.

Lemma Zb_bZ (b : byte) : Zb (bZ b) = b.
Proof. by destruct b. Qed.

Lemma bZ_Zb (z : Z) : bZ (Zb z) = z `mod` 256.
Proof.
  unfold bZ, Zb.
  pose proof (Z.mod_pos_bound z 256 ltac:(lia)) as Hr.
  destruct (Byte.of_N (Z.to_N (z `mod` 256))) as [b|] eqn:E.
  - apply Byte.to_of_N in E. rewrite E. lia.
  - apply Byte.of_N_None_iff in E. lia.
Qed.

Lemma bZ_inj (a b : byte) : bZ a = bZ b → a = b.
Proof. intros H. by rewrite <- (Zb_bZ a), <- (Zb_bZ b), H. Qed.

(** Big-endian fields, as [encoding/binary] and the TLS code read them. *)
Definition be16 (a b : byte) : Z := bZ a * 256 + bZ b.
Definition be32 (a b c d : byte) : Z :=
  ((bZ a * 256 + bZ b) * 256 + bZ c) * 256 + bZ d.
Definition put_be16 (z : Z) : bytes := [Zb (z / 256); Zb z].
Definition put_be32 (z : Z) : bytes :=
  [Zb (z / 2 ^ 24); Zb (z / 2 ^ 16); Zb (z / 2 ^ 8); Zb z].

Lemma be16_range (a b : byte) : 0 ≤ be16 a b < 65536.
Proof.
  unfold be16. pose proof (bZ_range a); pose proof (bZ_range b); lia.
Qed.

Lemma be16_put (z : Z) :
  0 ≤ z < 65536 → be16 (Zb (z / 256)) (Zb z) = z.
Proof. intros H. unfold be16. rewrite !bZ_Zb. divmod. Qed.

Lemma be32_range (a b c d : byte) : 0 ≤ be32 a b c d < 2 ^ 32.
Proof.
  unfold be32. pose proof (bZ_range a); pose proof (bZ_range b);
  pose proof (bZ_range c); pose proof (bZ_range d); lia.
Qed.

Lemma be32_put (z : Z) :
  0 ≤ z < 2 ^ 32 →
  be32 (Zb (z / 2 ^ 24)) (Zb (z / 2 ^ 16)) (Zb (z / 2 ^ 8)) (Zb z) = z.
Proof. intros H. unfold be32. rewrite !bZ_Zb. divmod. Qed.

Lemma put_be32_be32 (a b c d : byte) : put_be32 (be32 a b c d) = [a; b; c; d].
Proof.
  unfold put_be32, be32.
  pose proof (bZ_range a); pose proof (bZ_range b);
  pose proof (bZ_range c); pose proof (bZ_range d).
  repeat f_equal; apply bZ_inj; rewrite bZ_Zb; divmod.
Qed.

(** [len x] is Go's [len], an [int]. *)
Abbreviation len l := (Z.of_nat (length l)).

(** ** Automation

    [tunneld] is the development's hint database; [len_simpl] normalises the
    lengths of lists that are built from appended pieces. *)
Create HintDb tunneld.
#[export] Hint Resolve bZ_range be16_range be32_range wrap64_range : tunneld.

Ltac len_simpl :=
  repeat (rewrite ?length_app, ?length_cons, ?length_take, ?length_drop, ?length_fmap in *; simpl in *).

(** Decide every boolean comparison on [Z] that guards a branch of the goal. *)
Ltac zcase :=
  repeat match goal with
  | |- context [?a <? ?b] => destruct (Z.ltb_spec a b); try lia
  | |- context [?a <=? ?b] => destruct (Z.leb_spec a b); try lia
  | |- context [?a =? ?b] => destruct (Z.eqb_spec a b); try lia
  end.

(** Turn boolean comparisons in hypotheses into propositions. *)
Ltac zbool :=
  repeat match goal with
  | H : (_ && _)%bool = true |- _ => apply andb_prop in H as [? ?]
  | H : (_ || _)%bool = false |- _ => apply orb_false_elim in H as [? ?]
  | H : negb _ = true |- _ => apply negb_true_iff in H
  | H : negb _ = false |- _ => apply negb_false_iff in H
  | H : (_ <? _) = true |- _ => apply Z.ltb_lt in H
  | H : (_ <? _) = false |- _ => apply Z.ltb_ge in H
  | H : (_ <=? _) = true |- _ => apply Z.leb_le in H
  | H : (_ <=? _) = false |- _ => apply Z.leb_gt in H
  | H : (_ =? _) = true |- _ => apply Z.eqb_eq in H
  | H : (_ =? _) = false |- _ => apply Z.eqb_neq in H
  | H : bool_decide _ = true |- _ => apply bool_decide_eq_true_1 in H
  | H : bool_decide _ = false |- _ => apply bool_decide_eq_false_1 in H
  end.

(** ** Lists *)
Lemma take_drop_app_length {A} (l k : list A) :
  take (length l) (l ++ k) = l ∧ drop (length l) (l ++ k) = k.
Proof. by rewrite take_app_length, drop_app_length. Qed.

(** ** Sums and counts over the values of a map *)
Section counting.
Context {K A : Type} `{Countable K}.
Implicit Types (f g : A → Z) (P Q : A → bool) (m : gmap K A).

Definition sum_of f m : Z := map_fold (λ _ a n, f a + n) 0 m.

Lemma sum_of_fresh f m k a : m !! k = None → sum_of f (<[k := a]> m) = f a + sum_of f m.
Proof.
  intros Hk. unfold sum_of. rewrite (map_fold_insert_L (λ _ a n, f a + n)); [done| |done].
  intros; lia.
Qed.

Lemma sum_of_insert f m k a :
  sum_of f (<[k := a]> m) = sum_of f m + f a - match m !! k with Some a' => f a' | None => 0 end.
Proof.
  destruct (m !! k) as [a'|] eqn:E; [|rewrite sum_of_fresh by done; lia].
  rewrite <- insert_delete_eq, sum_of_fresh by apply lookup_delete_eq.
  rewrite <- (insert_delete_id m k a' E) at 2. rewrite sum_of_fresh by apply lookup_delete_eq. lia.
Qed.

Lemma sum_of_delete f m k a : m !! k = Some a → sum_of f (delete k m) = sum_of f m - f a.
Proof.
  intros Hk. rewrite <- (insert_delete_id m k a Hk) at 2.
  rewrite sum_of_fresh by (by rewrite lookup_delete, decide_True). lia.
Qed.

Lemma sum_of_mono f g m : (∀ k a, m !! k = Some a → f a ≤ g a) → sum_of f m ≤ sum_of g m.
Proof.
  intros Hfg. induction m as [|k a m Hk _ IH] using map_first_key_ind; [done|].
  rewrite !sum_of_fresh by done.
  pose proof (Hfg k a (lookup_insert_eq _ _ _)). enough (sum_of f m ≤ sum_of g m) by lia.
  apply IH. intros k' a' Hk'. apply (Hfg k'). rewrite lookup_insert_ne; [done|]. intros ->. congruence.
Qed.

Lemma sum_of_add f g m : sum_of (λ a, f a + g a) m = sum_of f m + sum_of g m.
Proof.
  induction m as [|k a m Hk _ IH] using map_first_key_ind; [done|]. rewrite !sum_of_fresh by done. lia.
Qed.

Lemma sum_of_nonneg f m : (∀ k a, m !! k = Some a → 0 ≤ f a) → 0 ≤ sum_of f m.
Proof.
  intros Hf. transitivity (sum_of (λ _, 0) m); [|by apply sum_of_mono].
  clear Hf. induction m as [|k a m Hk _ IH] using map_first_key_ind; [done|]. rewrite sum_of_fresh by done. lia.
Qed.

Lemma sum_of_part f m k a : (∀ k a, m !! k = Some a → 0 ≤ f a) → m !! k = Some a → f a ≤ sum_of f m.
Proof.
  intros Hf Hk. pose proof (sum_of_delete f m k a Hk). enough (0 ≤ sum_of f (delete k m)) by lia.
  apply sum_of_nonneg. intros k' a' [_ Hk']%lookup_delete_Some. by apply (Hf k').
Qed.

Definition b2z (b : bool) : Z := if b then 1 else 0.
Definition count_if P m : Z := sum_of (λ a, b2z (P a)) m.

Lemma count_if_insert P m k a :
  count_if P (<[k := a]> m) =
    count_if P m + b2z (P a) - match m !! k with Some a' => b2z (P a') | None => 0 end.
Proof. apply sum_of_insert. Qed.

Lemma count_if_mono P Q m : (∀ a, P a = true → Q a = true) → count_if P m ≤ count_if Q m.
Proof.
  intros HPQ. apply sum_of_mono. intros _ a _. specialize (HPQ a). unfold b2z.
  destruct (P a), (Q a); try lia; by specialize (HPQ eq_refl).
Qed.

Lemma count_if_ext P Q m : (∀ k a, m !! k = Some a → P a = Q a) → count_if P m = count_if Q m.
Proof. intros HPQ. apply Z.le_antisymm; apply sum_of_mono; intros k a Hk; by rewrite (HPQ k a Hk). Qed.

Lemma count_if_nonneg P m : 0 ≤ count_if P m.
Proof. apply sum_of_nonneg. intros _ a _. by destruct (P a). Qed.

Lemma count_if_zero P m : (∀ k a, m !! k = Some a → P a = false) → count_if P m = 0.
Proof.
  intros HP. apply Z.le_antisymm; [|apply count_if_nonneg]. rewrite (count_if_ext P (λ _, false) m HP).
  unfold count_if. clear HP. induction m as [|k a m Hk _ IH] using map_first_key_ind; [done|]. by rewrite sum_of_fresh.
Qed.

Lemma count_if_pos P m k a : m !! k = Some a → P a = true → 1 ≤ count_if P m.
Proof.
  intros Hk Ha. transitivity (b2z (P a)); [by rewrite Ha|].
  apply (sum_of_part (λ a, b2z (P a)) m k a); [|done]. intros _ a' _. by destruct (P a').
Qed.
End counting.

(** ** Reachability: finite runs of a step relation *)
Section reachability.
Context {S : Type} (step : S → S → Prop).

Inductive run : S → S → Prop :=
| run_refl s : run s s
| run_step s1 s2 s3 : step s1 s2 → run s2 s3 → run s1 s3.

Lemma run_one s1 s2 : step s1 s2 → run s1 s2.
Proof. intros H; eapply run_step; [exact H | apply run_refl]. Qed.

(** A step, and the state it leads to computed. *)
Lemma run_to s1 s2 s2' s3 : step s1 s2 → s2 = s2' → run s2' s3 → run s1 s3.
Proof. intros Hs <-. by apply run_step. Qed.

Lemma run_trans s1 s2 s3 : run s1 s2 → run s2 s3 → run s1 s3.
Proof. induction 1; eauto using run_step. Qed.

Lemma run_invariant (I : S → Prop) :
  (∀ s s', I s → step s s' → I s') → ∀ s s', run s s' → I s → I s'.
Proof. intros Hpres s s' Hr; induction Hr; eauto. Qed.
End reachability.
#[export] Hint Resolve run_refl run_one : tunneld.
Ltac computes := vm_compute; reflexivity.
Ltac step_to tac := eapply run_to; [tac|computes|].
