(* ===== verification/GoStr.v ===== *)
(** * Go strings

    The functions of Go's [strings], [strconv], [encoding/hex] and [fmt] the
    modelled packages call.  A Go string is a byte sequence: a Rocq [string],
    whose characters are bytes.  White space is Unicode white space, recognised
    by its UTF-8 encoding; letter case is ASCII case, and Unicode case mapping
    (the tables of package [unicode]) for a string with a non-ASCII byte is
    the class [UnicodeCase]. *)
From Stdlib Require Import ZArith Lia Strings.Byte Ascii String.
From S2P Require Import Prelude.
Local Open Scope string_scope.
Local Open Scope list_scope.
Local Open Scope Z_scope.
#[global] Arguments String.append !s1 s2 : simpl nomatch.

(** ** Bytes and characters *)
Definition cZ (c : ascii) : Z := Z.of_N (N_of_ascii c).
Definition Zc (z : Z) : ascii := ascii_of_N (Z.to_N (z `mod` 256)).

Lemma cZ_range (c : ascii) : 0 ≤ cZ c < 256.
Proof. destruct c as [[] [] [] [] [] [] [] []]; vm_compute; split; congruence. Qed.

(** [string(b)] for a byte slice and [[]byte(s)] for a string. *)
Definition str_of_bytes (b : bytes) : string := string_of_list_byte b.
Definition bytes_of_str (s : string) : bytes := list_byte_of_string s.

Lemma str_of_bytes_of_str (s : string) : str_of_bytes (bytes_of_str s) = s.
Proof. apply string_of_list_byte_of_string. Qed.

Lemma bytes_of_str_of_bytes (b : bytes) : bytes_of_str (str_of_bytes b) = b.
Proof. apply list_byte_of_string_of_list_byte. Qed.

Lemma str_of_bytes_inj (a b : bytes) : str_of_bytes a = str_of_bytes b → a = b.
Proof. intros H. by rewrite <- (bytes_of_str_of_bytes a), H, bytes_of_str_of_bytes. Qed.

(** ** Letter case *)
Definition is_ascii_byte (c : ascii) : bool := cZ c <? 128.

Fixpoint str_forall (p : ascii → bool) (s : string) : bool :=
  match s with
  | "" => true
  | String c s' => p c && str_forall p s'
  end.

Fixpoint str_map (f : ascii → ascii) (s : string) : string :=
  match s with
  | "" => ""
  | String c s' => String (f c) (str_map f s')
  end.

Definition lower_byte (c : ascii) : ascii :=
  if (65 <=? cZ c) && (cZ c <=? 90) then Zc (cZ c + 32) else c.
Definition upper_byte (c : ascii) : ascii :=
  if (97 <=? cZ c) && (cZ c <=? 122) then Zc (cZ c - 32) else c.

(** [strings.ToLower] and [strings.ToUpper] of a string that is not ASCII. *)
Class UnicodeCase := {
  unicode_lower : string → string;
  unicode_upper : string → string
}.

Section unicode.
Context `{UnicodeCase}.

Definition ToLower (s : string) : string :=
  if str_forall is_ascii_byte s then str_map lower_byte s else unicode_lower s.
Definition ToUpper (s : string) : string :=
  if str_forall is_ascii_byte s then str_map upper_byte s else unicode_upper s.
End unicode.

(** The mapping that leaves every other letter alone, for concrete inputs. *)
Definition ascii_only_case : UnicodeCase :=
  {| unicode_lower := str_map lower_byte; unicode_upper := str_map upper_byte |}.

(** ** Affixes *)
Fixpoint HasPrefix (s p : string) : bool :=
  match p, s with
  | "", _ => true
  | String a p', String b s' => Ascii.eqb a b && HasPrefix s' p'
  | String _ _, "" => false
  end.

Fixpoint str_drop (n : nat) (s : string) : string :=
  match n, s with
  | O, _ => s
  | S n', String _ s' => str_drop n' s'
  | S _, "" => ""
  end.

Fixpoint str_take (n : nat) (s : string) : string :=
  match n, s with
  | O, _ => ""
  | S n', String c s' => String c (str_take n' s')
  | S _, "" => ""
  end.

(** [strings.HasSuffix]: the last [len(suffix)] bytes are the suffix. *)
Definition HasSuffix (s suf : string) : bool :=
  (String.length suf <=? String.length s)%nat &&
  String.eqb (str_drop (String.length s - String.length suf) s) suf.

Definition TrimSuffix (s suf : string) : string :=
  if HasSuffix s suf then str_take (String.length s - String.length suf) s else s.

Lemma str_take_drop (n : nat) (s : string) : str_take n s +:+ str_drop n s = s.
Proof. revert s; induction n as [|n IH]; intros [|c s]; simpl; auto. by rewrite IH. Qed.

Lemma str_drop_app (a b : string) : str_drop (String.length a) (a +:+ b) = b.
Proof. induction a; simpl; auto. Qed.

Lemma str_take_app (a b : string) : str_take (String.length a) (a +:+ b) = a.
Proof. induction a as [|c a IH]; simpl; [by destruct b|]. by rewrite IH. Qed.

Lemma HasPrefix_app (p b : string) : HasPrefix (p +:+ b) p = true.
Proof. induction p as [|c p IH]; simpl; [by destruct b|]. by rewrite Ascii.eqb_refl. Qed.

Lemma str_length_app (a b : string) :
  String.length (a +:+ b) = (String.length a + String.length b)%nat.
Proof. induction a; simpl; auto. Qed.

Lemma str_app_assoc (a b c : string) : (a +:+ b) +:+ c = a +:+ b +:+ c.
Proof. induction a as [|x a IH]; simpl; auto. by rewrite IH. Qed.

Lemma str_app_inv_l (a b c : string) : a +:+ b = a +:+ c → b = c.
Proof. induction a; simpl; [auto | intros [=]; auto]. Qed.

Lemma str_app_inv_r (a b c : string) : a +:+ c = b +:+ c → a = b.
Proof.
  revert b. induction a as [|x a IH]; intros [|y b] He; simpl in He; auto.
  - apply (f_equal String.length) in He. simpl in He. rewrite str_length_app in He. lia.
  - apply (f_equal String.length) in He. simpl in He. rewrite str_length_app in He. lia.
  - injection He as -> He. f_equal. auto.
Qed.

Lemma str_app_nil_r (a : string) : a +:+ "" = a.
Proof. induction a as [|x a IH]; simpl; auto. by rewrite IH. Qed.

Lemma HasSuffix_spec (s suf : string) :
  HasSuffix s suf = true ↔ ∃ p, s = p +:+ suf.
Proof.
  unfold HasSuffix. split.
  - intros [Hl He]%andb_prop. apply String.eqb_eq in He.
    exists (str_take (String.length s - String.length suf) s).
    rewrite <- He at 2. by rewrite str_take_drop.
  - intros [p ->]. rewrite str_length_app.
    apply andb_true_intro; split; [apply Nat.leb_le; lia|].
    apply String.eqb_eq. rewrite Nat.add_sub. apply str_drop_app.
Qed.

Lemma HasSuffix_app (p suf : string) : HasSuffix (p +:+ suf) suf = true.
Proof. apply HasSuffix_spec; eauto. Qed.

Lemma TrimSuffix_app (p suf : string) : TrimSuffix (p +:+ suf) suf = p.
Proof.
  unfold TrimSuffix. rewrite HasSuffix_app, str_length_app, Nat.add_sub.
  apply str_take_app.
Qed.

(** ** Searching *)
Fixpoint IndexByte (s : string) (c : ascii) : option nat :=
  match s with
  | "" => None
  | String d s' => if Ascii.eqb d c then Some O else S <$> IndexByte s' c
  end.

Definition ContainsByte (s : string) (c : ascii) : bool :=
  match IndexByte s c with Some _ => true | None => false end.

(** [strings.Contains]. *)
Fixpoint Contains (s sub : string) : bool :=
  HasPrefix s sub ||
  match s with
  | "" => false
  | String _ s' => Contains s' sub
  end.

(** [strings.Cut] with a one-byte separator. *)
Definition CutByte (s : string) (c : ascii) : string * string * bool :=
  match IndexByte s c with
  | Some i => (str_take i s, str_drop (S i) s, true)
  | None => (s, "", false)
  end.

(** [strings.Split(s, c)] with a one-byte separator. *)
Fixpoint SplitByte (s : string) (c : ascii) : list string :=
  match s with
  | "" => [""]
  | String d s' =>
      if Ascii.eqb d c then "" :: SplitByte s' c
      else match SplitByte s' c with
           | w :: ws => String d w :: ws
           | [] => [String d ""]
           end
  end.

Fixpoint Join (l : list string) (sep : string) : string :=
  match l with
  | [] => ""
  | [s] => s
  | s :: l' => s +:+ sep +:+ Join l' sep
  end.

Lemma SplitByte_nonempty s c : SplitByte s c ≠ [].
Proof. destruct s as [|d s]; simpl; [done|]. case_match; [done|]. by case_match. Qed.

Lemma Join_SplitByte s c : Join (SplitByte s c) (String c "") = s.
Proof.
  induction s as [|d s IH]; simpl; [done|].
  pose proof (SplitByte_nonempty s c).
  destruct (Ascii.eqb_spec d c) as [->|Hne].
  - destruct (SplitByte s c) eqn:E; [done|]. by rewrite <- IH.
  - destruct (SplitByte s c) as [|w [|w' ws]] eqn:E; [done| |]; simpl in *; by rewrite <- IH.
Qed.

(** ** White space

    [space_width s] is the number of bytes of the white-space rune at the head
    of [s], 0 when the head is not one.  The UTF-8 encodings of the non-ASCII
    white-space runes of [unicode.IsSpace] are listed; none of their bytes
    after the first can start another one, so scanning byte by byte finds the
    same runes as decoding. *)
Definition is_ascii_space (z : Z) : bool :=
  (z =? 32) || ((9 <=? z) && (z <=? 13)).

Definition space_width (l : list Z) : nat :=
  match l with
  | a :: b :: c :: _ =>
      if is_ascii_space a then 1%nat
      else if (a =? 194) && ((b =? 133) || (b =? 160)) then 2%nat
      else if (a =? 225) && (b =? 154) && (c =? 128) then 3%nat
      else if (a =? 226) && (b =? 128) &&
              (((128 <=? c) && (c <=? 138)) || (c =? 168) || (c =? 169) || (c =? 175)) then 3%nat
      else if (a =? 226) && (b =? 129) && (c =? 159) then 3%nat
      else if (a =? 227) && (b =? 128) && (c =? 128) then 3%nat
      else 0%nat
  | [a; b] =>
      if is_ascii_space a then 1%nat
      else if (a =? 194) && ((b =? 133) || (b =? 160)) then 2%nat
      else 0%nat
  | [a] => if is_ascii_space a then 1%nat else 0%nat
  | [] => 0%nat
  end.

Fixpoint str_codes (s : string) : list Z :=
  match s with "" => [] | String c s' => cZ c :: str_codes s' end.

Fixpoint str_rev_acc (s acc : string) : string :=
  match s with "" => acc | String c s' => str_rev_acc s' (String c acc) end.

(** [strings.TrimLeftFunc(s, unicode.IsSpace)]; the fuel is the length. *)
Fixpoint trim_left_fuel (fuel : nat) (s : string) : string :=
  match fuel with
  | O => s
  | S f => match space_width (str_codes s) with
           | O => s
           | S n => trim_left_fuel f (str_drop (S n) s)
           end
  end.
Definition TrimLeftSpace (s : string) : string := trim_left_fuel (String.length s) s.

(** Does [s] end with a white-space rune?  How many bytes does it take? *)
Definition last_space_width (s : string) : nat :=
  let n := String.length s in
  let ends k := Nat.eqb (space_width (str_codes (str_drop (n - k) s))) k in
  if (1 <=? n)%nat && ends 1%nat then 1%nat
  else if (2 <=? n)%nat && ends 2%nat then 2%nat
  else if (3 <=? n)%nat && ends 3%nat then 3%nat
  else 0%nat.

Fixpoint trim_right_fuel (fuel : nat) (s : string) : string :=
  match fuel with
  | O => s
  | S f => match last_space_width s with
           | O => s
           | S n => trim_right_fuel f (str_take (String.length s - S n) s)
           end
  end.
Definition TrimRightSpace (s : string) : string := trim_right_fuel (String.length s) s.

(** [strings.TrimSpace]. *)
Definition TrimSpace (s : string) : string := TrimRightSpace (TrimLeftSpace s).

(** [strings.Fields]: the maximal runs without white space.  [cur] is the field
    being read, reversed. *)
Fixpoint fields_fuel (fuel : nat) (s cur : string) : list string :=
  let flush rest := if String.eqb cur "" then rest else str_rev_acc cur "" :: rest in
  match fuel with
  | O => flush []
  | S f =>
      match s with
      | "" => flush []
      | String c s' =>
          match space_width (str_codes s) with
          | O => fields_fuel f s' (String c cur)
          | S n => flush (fields_fuel f (str_drop (S n) s) "")
          end
      end
  end.
Definition Fields (s : string) : list string := fields_fuel (S (String.length s)) s "".

(** ** Numbers *)
Definition digit_val (c : ascii) : option Z :=
  if (48 <=? cZ c) && (cZ c <=? 57) then Some (cZ c - 48) else None.

(** The digits of [s] onto [acc]; [None] when a byte is not a digit. *)
Fixpoint parse_digits (s : string) (acc : Z) : option Z :=
  match s with
  | "" => Some acc
  | String c s' => d ← digit_val c; parse_digits s' (acc * 10 + d)
  end.

Inductive num_error := ErrSyntax | ErrRange.

(** [strconv.ParseInt(s, 10, 64)]; the sign is optional, the digits are not. *)
Definition ParseInt (s : string) : result num_error Z :=
  let '(neg, body) :=
    match s with
    | String c s' =>
        if Ascii.eqb c "-"%char then (true, s')
        else if Ascii.eqb c "+"%char then (false, s') else (false, s)
    | "" => (false, s)
    end in
  match body with
  | "" => Err ErrSyntax
  | _ => match parse_digits body 0 with
         | None => Err ErrSyntax
         | Some n =>
             if neg then (if n <=? 2 ^ 63 then Ok (- n) else Err ErrRange)
             else (if n <=? 2 ^ 63 - 1 then Ok n else Err ErrRange)
         end
  end.

Definition digit_char (d : Z) : ascii := Zc (48 + d).

Fixpoint format_pos (fuel : nat) (n : Z) (acc : string) : string :=
  match fuel with
  | O => acc
  | S f => let acc' := String (digit_char (n `mod` 10)) acc in
           if n <? 10 then acc' else format_pos f (n / 10) acc'
  end.

(** [strconv.FormatInt(n, 10)] and [strconv.Itoa]; 20 digits hold every int64,
    the fuel follows the size of [n] so that the function is total on [Z]. *)
Definition FormatInt (n : Z) : string :=
  let fuel := S (Z.to_nat (Z.log2 (Z.abs n) + 1)) in
  if n <? 0 then String "-"%char (format_pos fuel (- n) "") else format_pos fuel n "".

Definition hex_digit (d : Z) : ascii := Zc (if d <? 10 then 48 + d else 87 + d).

(** [hex.EncodeToString]. *)
Fixpoint hex_encode (b : bytes) : string :=
  match b with
  | [] => ""
  | x :: b' => String (hex_digit (bZ x / 16)) (String (hex_digit (bZ x `mod` 16)) (hex_encode b'))
  end.

(** [fmt.Sprintf("%04x", v)] for a [uint16]. *)
Definition hex4 (v : Z) : string :=
  String (hex_digit ((v / 4096) `mod` 16)) (String (hex_digit ((v / 256) `mod` 16))
  (String (hex_digit ((v / 16) `mod` 16)) (String (hex_digit (v `mod` 16)) ""))).

(** [fmt.Sprintf("%02d", n)] for [0 <= n <= 99]. *)
Definition dec2 (n : Z) : string :=
  String (digit_char (n / 10)) (String (digit_char (n `mod` 10)) "").

(** ** Lemmas on plain strings

    A plain string has printable ASCII bytes only: no white space to trim. *)
Definition plain_byte (c : ascii) : bool := (33 <=? cZ c) && (cZ c <=? 126).
Definition plain (s : string) : bool := str_forall plain_byte s.
Definition not_upper (c : ascii) : bool := negb ((65 <=? cZ c) && (cZ c <=? 90)).

Lemma str_forall_app p a b :
  str_forall p (a +:+ b) = str_forall p a && str_forall p b.
Proof. induction a as [|c a IH]; simpl; [done|]. by rewrite IH, andb_assoc. Qed.

Lemma str_forall_impl (p q : ascii → bool) s :
  (∀ c, p c = true → q c = true) → str_forall p s = true → str_forall q s = true.
Proof.
  intros Hpq. induction s as [|c s IH]; simpl; [done|].
  intros [Hc Hs]%andb_prop. apply andb_true_intro; auto.
Qed.

Lemma str_forall_drop p n s : str_forall p s = true → str_forall p (str_drop n s) = true.
Proof.
  revert s; induction n as [|n IH]; intros [|c s]; simpl; auto.
  intros [_ Hs]%andb_prop; auto.
Qed.

Lemma plain_space_width s : plain s = true → space_width (str_codes s) = 0%nat.
Proof.
  unfold plain, plain_byte.
  destruct s as [|a [|b [|c s]]]; simpl; try done; unfold is_ascii_space;
    intros H; zbool; zcase; done.
Qed.

Lemma plain_last_space_width s : plain s = true → last_space_width s = 0%nat.
Proof.
  intros Hp. unfold last_space_width.
  by rewrite !plain_space_width, !andb_false_r by by apply str_forall_drop.
Qed.

Lemma TrimSpace_plain s : plain s = true → TrimSpace s = s.
Proof.
  intros Hp. unfold TrimSpace, TrimLeftSpace.
  assert (trim_left_fuel (String.length s) s = s) as ->.
  { destruct (String.length s); simpl; [done|]. by rewrite plain_space_width. }
  unfold TrimRightSpace. destruct (String.length s) eqn:E; simpl; [done|].
  by rewrite plain_last_space_width.
Qed.

Lemma str_map_id (f : ascii → ascii) (p : ascii → bool) s :
  (∀ c, p c = true → f c = c) → str_forall p s = true → str_map f s = s.
Proof.
  intros Hf. induction s as [|c s IH]; simpl; [done|].
  intros [Hc Hs]%andb_prop. by rewrite Hf, IH.
Qed.

Lemma plain_ascii s : plain s = true → str_forall is_ascii_byte s = true.
Proof.
  apply str_forall_impl. intros c H. unfold plain_byte, is_ascii_byte in *.
  zbool. by apply Z.ltb_lt; lia.
Qed.

Lemma lower_byte_id c : not_upper c = true → lower_byte c = c.
Proof. unfold not_upper, lower_byte. intros H. apply negb_true_iff in H. by rewrite H. Qed.

Section unicode_lemmas.
Context `{UnicodeCase}.

Lemma ToLower_plain s : plain s = true → str_forall not_upper s = true → ToLower s = s.
Proof.
  intros Hp Hu. unfold ToLower. rewrite plain_ascii by done.
  eapply str_map_id; [apply lower_byte_id | done].
Qed.
End unicode_lemmas.

(** ** Decimal round trip *)
Definition is_digit (c : ascii) : bool := bool_decide (is_Some (digit_val c)).

Lemma digit_char_val d : 0 ≤ d < 10 →
  digit_val (digit_char d) = Some d ∧ plain_byte (digit_char d) = true ∧
  not_upper (digit_char d) = true ∧
  digit_char d ≠ "-"%char ∧ digit_char d ≠ "+"%char.
Proof.
  intros Hd.
  assert (d = 0 ∨ d = 1 ∨ d = 2 ∨ d = 3 ∨ d = 4 ∨ d = 5 ∨ d = 6 ∨ d = 7 ∨ d = 8 ∨ d = 9)
    as Hc by lia.
  repeat destruct Hc as [->|Hc]; subst; vm_compute; repeat split; congruence.
Qed.

Lemma log2_div10 n : 10 ≤ n → Z.log2 (n / 10) + 1 ≤ Z.log2 n.
Proof.
  intros Hn. assert (n / 10 ≤ n / 2) by (apply Z.div_le_compat_l; lia).
  assert (Z.log2 (n / 10) ≤ Z.log2 (n / 2)) by (apply Z.log2_le_mono; lia).
  assert (Z.log2 (n / 2) = Z.log2 n - 1); [|lia].
  replace (n / 2) with (Z.shiftr n 1) by (by rewrite Z.shiftr_div_pow2).
  rewrite Z.log2_shiftr by lia. pose proof (Z.log2_le_mono 2 n ltac:(lia)).
  change (Z.log2 2) with 1 in *. lia.
Qed.

Lemma format_pos_spec fuel n acc :
  0 ≤ n → Z.log2 n < Z.of_nat fuel →
  ∃ ds, format_pos fuel n acc = ds +:+ acc ∧ ds ≠ "" ∧
        str_forall is_digit ds = true ∧
        plain ds = true ∧ str_forall not_upper ds = true ∧
        (∀ k a, parse_digits (ds +:+ k) a = parse_digits k (a * 10 ^ Z.of_nat (String.length ds) + n)).
Proof.
  revert n acc. induction fuel as [|fuel IH]; intros n acc Hn Hf.
  { pose proof (Z.log2_nonneg n); lia. }
  assert (0 ≤ n `mod` 10 < 10) as Hm by (apply Z.mod_pos_bound; lia).
  destruct (digit_char_val (n `mod` 10) Hm) as (Hd & Hp & Hu & _ & _).
  simpl. destruct (Z.ltb_spec n 10) as [Hlt|Hge].
  - exists (String (digit_char (n `mod` 10)) ""). simpl. unfold plain; simpl.
    unfold is_digit at 1. rewrite Hp, Hu, bool_decide_eq_true_2 by (rewrite Hd; eauto).
    repeat split; auto. intros k a. rewrite Hd. simpl. f_equal.
    rewrite Z.mod_small by lia. change (10 ^ 1) with 10. lia.
  - pose proof (log2_div10 n Hge).
    destruct (IH (n / 10) (String (digit_char (n `mod` 10)) acc)) as (ds & Hds & _ & Hall & Hpl & Hup & Hpd).
    { apply Z.div_pos; lia. }
    { lia. }
    exists (ds +:+ String (digit_char (n `mod` 10)) "").
    rewrite Hds, str_app_assoc. simpl. split; [done|].
    split; [by destruct ds|].
    unfold plain in *. rewrite !str_forall_app, Hall, Hpl, Hup. simpl.
    unfold is_digit at 1. rewrite Hp, Hu, bool_decide_eq_true_2 by (rewrite Hd; eauto).
    repeat split; auto. intros k a. rewrite str_app_assoc. simpl.
    rewrite Hpd. simpl. rewrite Hd. simpl. f_equal.
    rewrite str_length_app. simpl. rewrite Nat2Z.inj_add, Z.pow_add_r by lia.
    change (10 ^ Z.of_nat 1) with 10.
    pose proof (Z.div_mod n 10 ltac:(lia)). nia.
Qed.

Lemma FormatInt_nonneg n : 0 ≤ n →
  FormatInt n ≠ "" ∧ plain (FormatInt n) = true ∧ str_forall not_upper (FormatInt n) = true ∧
  str_forall is_digit (FormatInt n) = true ∧
  parse_digits (FormatInt n) 0 = Some n.
Proof.
  intros Hn. unfold FormatInt. destruct (Z.ltb_spec n 0); [lia|].
  rewrite Z.abs_eq by done.
  destruct (format_pos_spec (S (Z.to_nat (Z.log2 n + 1))) n "") as (ds & -> & Hne & Hall & Hpl & Hup & Hpd).
  { done. }
  { pose proof (Z.log2_nonneg n). lia. }
  rewrite str_app_nil_r. repeat split; auto.
  specialize (Hpd "" 0). rewrite str_app_nil_r in Hpd. rewrite Hpd. simpl. f_equal.
Qed.

Lemma digits_no_sign s c k :
  str_forall is_digit s = true → s = String c k →
  Ascii.eqb c "-"%char = false ∧ Ascii.eqb c "+"%char = false.
Proof.
  intros H ->. unfold is_digit in H. simpl in H. zbool.
  split; apply Ascii.eqb_neq; intros ->; by apply is_Some_None in H.
Qed.

(** [ParseInt] of a formatted non-negative number. *)
Lemma ParseInt_FormatInt n : 0 ≤ n ≤ max_int64 → ParseInt (FormatInt n) = Ok n.
Proof.
  intros [Hn Hmax]. destruct (FormatInt_nonneg n Hn) as (Hne & _ & _ & Hall & Hpd).
  unfold ParseInt, max_int64 in *. destruct (FormatInt n) as [|c k] eqn:E; [done|].
  destruct (digits_no_sign _ c k Hall eq_refl) as [-> ->].
  rewrite Hpd. destruct (Z.leb_spec n (2 ^ 63 - 1)); [done|lia].
Qed.

Lemma parse_digits_nonneg s acc n : 0 ≤ acc → parse_digits s acc = Some n → 0 ≤ n.
Proof.
  revert acc. induction s as [|c s IH]; simpl; intros acc Ha; [congruence|].
  unfold digit_val. destruct (Z.leb_spec 48 (cZ c)); simpl; [|done].
  destruct (Z.leb_spec (cZ c) 57); simpl; [|done]. apply IH. lia.
Qed.

Lemma ParseInt_range s n : ParseInt s = Ok n → min_int64 ≤ n ≤ max_int64.
Proof.
  unfold ParseInt, min_int64, max_int64.
  destruct (match s with "" => _ | String _ _ => _ end) as [neg body].
  destruct body as [|c body]; [done|].
  destruct (parse_digits (String c body) 0) as [m|] eqn:Hd; [|done].
  apply parse_digits_nonneg in Hd; [|done].
  destruct neg; zcase; intros [= <-]; lia.
Qed.

Lemma eqb_empty s : s ≠ "" → String.eqb s "" = false.
Proof. intros. by apply String.eqb_neq. Qed.

(** A suffix without digits, looked for after a run of digits, is a suffix of
    what follows the digits. *)
Lemma HasSuffix_after_digits d u v :
  str_forall is_digit d = true → str_forall (λ c, negb (is_digit c)) v = true →
  HasSuffix (d +:+ u) v = HasSuffix u v.
Proof.
  intros Hd Hv.
  assert (∀ p, d +:+ u = p +:+ v → ∃ q, u = q +:+ v) as Hsplit.
  { revert Hd. induction d as [|c d IH]; simpl; intros Hd p Hp; [eauto|].
    apply andb_prop in Hd as [Hc Hd]. destruct p as [|c' p]; simpl in Hp; simplify_eq.
    - simpl in Hv. by rewrite Hc in Hv.
    - eauto. }
  destruct (HasSuffix u v) eqn:Eu.
  - apply HasSuffix_spec in Eu as [q ->]. rewrite <- str_app_assoc. apply HasSuffix_app.
  - destruct (HasSuffix (d +:+ u) v) eqn:Ed; [|done].
    apply HasSuffix_spec in Ed as [p [q ->]%Hsplit]. by rewrite HasSuffix_app in Eu.
Qed.
