(* ===== verification/Wire.v ===== *)
(** * The control-stream codec

    [internal/wire/frame.go] (frame layout, [EncodeControl], [DecodeControl],
    the retry waits) and the stream reader [readControlFrame] of
    [internal/phoneconn/stream.go].  A frame is
    [type:1][payloadLen:4 big-endian][payload]; the payload is the JSON the
    standard library makes of a Go value, so [EncodeControl] takes the
    marshaller as an argument. *)
From Stdlib Require Import ZArith Lia Strings.Byte.
From S2P Require Import Prelude.

Module Wire.

(** The control types, [iota + 1] upwards; a frame carries any byte. *)
Definition CtrlOpen : byte := x01.
Definition CtrlPing : byte := x02.
Definition CtrlPong : byte := x03.
Definition CtrlRenewNudge : byte := x04.
Definition CtrlMove : byte := x05.

Definition maxControlPayload : Z := Z.shiftl 1 20.
Definition ChunkSize : Z := 16 * 1024.

Inductive wire_error :=
| ErrControlTooLarge
| ErrControlMalformed
| ErrMarshal.

(** [payload] is [None] for Go's [nil]; [marshal] is [json.Marshal]. *)
Definition EncodeControl {P : Type} (marshal : P → option bytes)
    (t : byte) (payload : option P) : result wire_error bytes :=
  match (match payload with None => Some [] | Some p => marshal p end) with
  | None => Err ErrMarshal
  | Some body =>
      if maxControlPayload <? len body then Err ErrControlTooLarge
      else Ok (t :: put_be32 (to_uint32 (len body)) ++ body)
  end.

Definition DecodeControl (data : bytes) : result wire_error (byte * bytes) :=
  match data with
  | t :: a :: b :: c :: d :: body =>
      let n := be32 a b c d in
      if (maxControlPayload <? n) || negb (n =? len data - 5) then Err ErrControlMalformed
      else Ok (t, body)
  | _ => Err ErrControlMalformed
  end.

(** ** Reading frames off the stream

    The reader is the bytes the peer sends before it closes its side.
    [io.ReadFull] of [n] bytes takes them all, or fails at the end of the
    stream. *)
Inductive read_error :=
| ReadEOF
| ReadTooLarge.

Definition ReadFull (r : bytes) (n : nat) : option (bytes * bytes) :=
  if (n <=? length r)%nat then Some (take n r, drop n r) else None.

Definition readControlFrame (r : bytes) : result read_error (bytes * bytes) :=
  match ReadFull r 5 with
  | None => Err ReadEOF
  | Some (hdr, r') =>
      match hdr with
      | [t; a; b; c; d] =>
          let n := be32 a b c d in
          if Z.shiftl 1 20 <? n then Err ReadTooLarge
          else match ReadFull r' (Z.to_nat n) with
               | None => Err ReadEOF
               | Some (payload, rest) => Ok (hdr ++ payload, rest)
               end
      | _ => Err ReadEOF
      end
  end.

(** The frames a reading loop takes off the stream, and what stopped it. *)
Fixpoint read_frames (fuel : nat) (r : bytes) : list bytes * read_error :=
  match fuel with
  | O => ([], ReadEOF)
  | S f => match readControlFrame r with
           | Err e => ([], e)
           | Ok (frame, rest) =>
               let '(fs, e) := read_frames f rest in (frame :: fs, e)
           end
  end.

(** ** Retry waits *)
Definition MaxControlPingInterval : Z := 30 * second.
Definition ControlSilenceTimeout : Z := 3 * MaxControlPingInterval.
Definition IssueRetryWait (retry : Z) : Z := wrap64 (wrap64 (wrap64 (retry + 1) * 5) * second).

(** ** Lemmas *)
Section codec.
Context {P : Type} (marshal : P → option bytes).

Lemma maxControlPayload_val : maxControlPayload = 1048576.
Proof. reflexivity. Qed.

Lemma encode_shape t p f :
  EncodeControl marshal t p = Ok f →
  ∃ body, f = t :: put_be32 (len body) ++ body ∧ len body ≤ maxControlPayload ∧
          match p with None => body = [] | Some x => marshal x = Some body end.
Proof.
  unfold EncodeControl. intros H.
  destruct (match p with None => Some [] | Some x => marshal x end) as [body|] eqn:E; [|done].
  rewrite maxControlPayload_val in *.
  destruct (Z.ltb_spec 1048576 (len body)); [done|]. injection H as <-.
  exists body. unfold to_uint32. rewrite Z.mod_small by lia.
  split; [done|]. split; [lia|]. destruct p; congruence.
Qed.

Lemma frame_be32 (n : Z) : 0 ≤ n < 2 ^ 32 →
  ∃ a b c d, put_be32 n = [a; b; c; d] ∧ be32 a b c d = n.
Proof. intros Hn. unfold put_be32. do 4 eexists. split; [done|]. by apply be32_put. Qed.

Lemma read_frame_prefix t body rest :
  len body ≤ maxControlPayload →
  readControlFrame (t :: put_be32 (len body) ++ body ++ rest) =
    Ok (t :: put_be32 (len body) ++ body, rest).
Proof.
  rewrite maxControlPayload_val. intros Hb.
  destruct (frame_be32 (len body)) as (a & b & c & d & Hp & Hv); [lia|].
  rewrite Hp. unfold readControlFrame, ReadFull. simpl.
  rewrite Hv. change (Z.shiftl 1 20) with 1048576.
  destruct (Z.ltb_spec 1048576 (len body)); [lia|].
  rewrite Nat2Z.id, drop_0, (proj2 (Nat.leb_le (length body) (length (body ++ rest))))
    by (rewrite length_app; lia).
  by rewrite take_app_length, drop_app_length.
Qed.

Lemma decode_frame t body :
  len body ≤ maxControlPayload →
  DecodeControl (t :: put_be32 (len body) ++ body) = Ok (t, body).
Proof.
  rewrite maxControlPayload_val. intros Hlen.
  destruct (frame_be32 (len body)) as (a & b & c & d & Hq & Hv); [lia|].
  rewrite Hq. simpl. rewrite Hv, maxControlPayload_val.
  destruct (Z.ltb_spec 1048576 (len body)); [lia|]. simpl.
  destruct (Z.eqb_spec (len body) (Z.of_nat (S (S (S (S (S (length body)))))) - 5)); [done|lia].
Qed.

(** Whatever frame [EncodeControl] produces, [DecodeControl] gives back the type and the
    marshalled payload, empty for none. *)
Lemma encode_decode_roundtrip t p f :
  EncodeControl marshal t p = Ok f →
  ∃ body, DecodeControl f = Ok (t, body) ∧
          match p with None => body = [] | Some x => marshal x = Some body end.
Proof.
  intros (body & -> & Hlen & Hp)%encode_shape. exists body. split; [|done].
  by apply decode_frame.
Qed.
End codec.

(** A frame that decodes is byte for byte the encoding of what it decodes to. *)
Lemma decode_encode_canonical data t body :
  DecodeControl data = Ok (t, body) →
  EncodeControl (λ b : bytes, Some b) t (Some body) = Ok data.
Proof.
  destruct data as [|t0 [|a [|b [|c [|d body0]]]]]; try done.
  unfold DecodeControl. rewrite maxControlPayload_val.
  destruct (Z.ltb_spec 1048576 (be32 a b c d)) as [|Hle]; [done|]. simpl length.
  destruct (Z.eqb_spec (be32 a b c d) (Z.of_nat (S (S (S (S (S (length body0)))))) - 5)) as [He|]; [|done].
  intros [= <- <-].
  assert (be32 a b c d = len body0) as Hv by lia.
  unfold EncodeControl. rewrite maxControlPayload_val.
  destruct (Z.ltb_spec 1048576 (len body0)); [lia|].
  unfold to_uint32. rewrite Z.mod_small by lia.
  by rewrite <- Hv, put_be32_be32.
Qed.

(** The frames of a well-formed stream come back one by one. *)
Definition is_frame (f : bytes) : Prop :=
  ∃ t body, f = t :: put_be32 (len body) ++ body ∧ len body ≤ maxControlPayload.

(** Framing is self-delimiting: reading a sequence of frames gives exactly those frames,
    and then the error of what follows. *)
Lemma read_frames_concat (fs : list bytes) (tail : bytes) (e : read_error) :
  Forall is_frame fs →
  readControlFrame tail = Err e →
  read_frames (S (length fs)) (concat fs ++ tail) = (fs, e).
Proof.
  intros Hfs Ht. induction Hfs as [|f fs (t & body & -> & Hb) Hfs IH].
  - simpl. by rewrite Ht.
  - change (concat ((t :: put_be32 (len body) ++ body) :: fs) ++ tail)
      with (((t :: put_be32 (len body) ++ body) ++ concat fs) ++ tail).
    rewrite <- (app_assoc (t :: put_be32 (len body) ++ body)).
    rewrite <- app_comm_cons, <- (app_assoc (put_be32 (len body))).
    change (length ((t :: put_be32 (len body) ++ body) :: fs)) with (S (length fs)).
    remember (S (length fs)) as n eqn:En. cbn [read_frames].
    rewrite read_frame_prefix by done. subst n. by rewrite IH.
Qed.

(** A frame the reader returns is one the decoder accepts. *)
Lemma read_frame_shape r frame rest :
  readControlFrame r = Ok (frame, rest) →
  is_frame frame ∧ r = frame ++ rest.
Proof.
  unfold readControlFrame, ReadFull. intros H.
  destruct r as [|t [|a [|b [|c [|d r]]]]]; try done. simpl in H.
  change (Z.shiftl 1 20) with 1048576 in H.
  destruct (Z.ltb_spec 1048576 (be32 a b c d)); [done|].
  destruct (Nat.leb_spec (Z.to_nat (be32 a b c d)) (length (drop 0 r))) as [Hl|]; [|done].
  injection H as <- <-. rewrite drop_0 in *.
  pose proof (be32_range a b c d).
  assert (len (take (Z.to_nat (be32 a b c d)) r) = be32 a b c d) as Hlen
    by (rewrite length_take; lia).
  split.
  - exists t, (take (Z.to_nat (be32 a b c d)) r). rewrite Hlen, put_be32_be32. split; [done|].
    rewrite maxControlPayload_val; lia.
  - simpl. by rewrite take_drop.
Qed.

(** A frame the reader returns is a prefix of the stream and decodes. *)
Lemma readControlFrame_decodes r frame rest :
  readControlFrame r = Ok (frame, rest) →
  r = frame ++ rest ∧ is_ok (DecodeControl frame) = true.
Proof.
  intros [(t & body & -> & Hb) ->]%read_frame_shape. split; [done|].
  by rewrite decode_frame.
Qed.

(** ** Witnesses *)
Definition ping_frame : bytes := [x02; x00; x00; x00; x02; x7b; x7d].

Lemma encode_decode_roundtrip_witness :
  ∃ body, DecodeControl ping_frame = Ok (CtrlPing, body) ∧ Some [x7b; x7d] = Some body.
Proof. by apply (encode_decode_roundtrip (λ b : bytes, Some b) CtrlPing (Some [x7b; x7d]) ping_frame). Defined.

Lemma decode_encode_canonical_witness :
  EncodeControl (λ b : bytes, Some b) CtrlPing (Some [x7b; x7d]) = Ok ping_frame.
Proof. by apply (decode_encode_canonical ping_frame CtrlPing [x7b; x7d]). Defined.

Lemma read_frames_concat_witness :
  read_frames 3 (concat [ping_frame; ping_frame] ++ [x01; x00]) = ([ping_frame; ping_frame], ReadEOF).
Proof.
  assert (is_frame ping_frame) by (exists CtrlPing, [x7b; x7d]; by vm_compute).
  apply (read_frames_concat [ping_frame; ping_frame] [x01; x00] ReadEOF); [by repeat constructor|done].
Defined.
End Wire.
