(* ===== verification/Config.v ===== *)
(** * Size and bitrate flags

    [internal/config/size.go]: [ParseByteSize] (binary units, bytes) and
    [ParseBitrate] (decimal units, bits, returned as bytes per second). *)
From Stdlib Require Import ZArith Lia Ascii String.
From S2P Require Import Prelude GoStr.
Local Open Scope string_scope.
Local Open Scope list_scope.
Local Open Scope Z_scope.

Module Config.
Section parsers.
Context `{UnicodeCase}.

Inductive size_error :=
| EmptySize
| BadNumber (e : num_error)
| NegativeSize
| OverflowSize
| MissingSuffix.

Definition ParseByteSize (s : string) : result size_error Z :=
  let t := TrimSpace (ToLower s) in
  if String.eqb t "" then Err EmptySize
  else
    let '(mult, t) :=
      if HasSuffix t "gb" then (1024 * 1024 * 1024, TrimSuffix t "gb")
      else if HasSuffix t "mb" then (1024 * 1024, TrimSuffix t "mb")
      else if HasSuffix t "kb" then (1024, TrimSuffix t "kb")
      else if HasSuffix t "b" then (1, TrimSuffix t "b")
      else (1, t) in
    let t := TrimSpace t in
    match ParseInt t with
    | Err e => Err (BadNumber e)
    | Ok n =>
        if n <? 0 then Err NegativeSize
        else if (1 <? mult) && (max_int64 / mult <? n) then Err OverflowSize
        else Ok (wrap64 (n * mult))
    end.

Definition ParseBitrate (s : string) : result size_error Z :=
  let t := TrimSpace (ToLower s) in
  if String.eqb t "" then Err EmptySize
  else
    match
      (if HasSuffix t "gbit" then Some (1000000000, TrimSuffix t "gbit")
       else if HasSuffix t "mbit" then Some (1000000, TrimSuffix t "mbit")
       else if HasSuffix t "kbit" then Some (1000, TrimSuffix t "kbit")
       else if HasSuffix t "bit" then Some (1, TrimSuffix t "bit")
       else None) with
    | None => Err MissingSuffix
    | Some (bitsMult, t) =>
        let t := TrimSpace t in
        match ParseInt t with
        | Err e => Err (BadNumber e)
        | Ok n =>
            if n <? 0 then Err NegativeSize
            else if (1 <? bitsMult) && (max_int64 / bitsMult <? n) then Err OverflowSize
            else Ok (Z.quot (wrap64 (n * bitsMult)) 8)
        end
    end.

(** ** Units *)
Definition byte_unit (u : string) : option Z :=
  match u with
  | "gb" => Some (1024 * 1024 * 1024)
  | "mb" => Some (1024 * 1024)
  | "kb" => Some 1024
  | "b" | "" => Some 1
  | _ => None
  end.

Definition bit_unit (u : string) : option Z :=
  match u with
  | "gbit" => Some 1000000000
  | "mbit" => Some 1000000
  | "kbit" => Some 1000
  | "bit" => Some 1
  | _ => None
  end.

(** ** Lemmas *)
Lemma number_unit_plain n u : 0 ≤ n → plain u = true → str_forall not_upper u = true →
  TrimSpace (ToLower (FormatInt n +:+ u)) = FormatInt n +:+ u ∧
  FormatInt n +:+ u ≠ "".
Proof.
  intros Hn Hu Hl. destruct (FormatInt_nonneg n Hn) as (Hne & Hp & Hup & _ & _).
  unfold plain in *.
  rewrite ToLower_plain, TrimSpace_plain;
    unfold plain; rewrite ?str_forall_app, ?Hp, ?Hu, ?Hup, ?Hl; auto.
  split; [done|]. by destruct (FormatInt n).
Qed.

Lemma mult_fits n m : 0 ≤ n → 1 ≤ m →
  ((1 <? m) && (max_int64 / m <? n) = false) → n ≤ max_int64 →
  wrap64 (n * m) = n * m.
Proof.
  intros Hn Hm Hb Hmax. apply wrap64_id. unfold min_int64, max_int64 in *.
  assert (n * m ≤ 2 ^ 63 - 1); [|nia].
  destruct (Z.ltb_spec 1 m); simpl in Hb; [|nia].
  apply Z.ltb_ge in Hb. pose proof (Z.mul_div_le (2 ^ 63 - 1) m ltac:(lia)). nia.
Qed.

Lemma mult_overflows n m : 0 ≤ n ≤ max_int64 → 1 ≤ m →
  (1 <? m) && (max_int64 / m <? n) = negb (n * m <=? max_int64).
Proof.
  unfold max_int64. intros Hn Hm.
  destruct (Z.ltb_spec 1 m); simpl.
  - pose proof (Z.div_mod (2 ^ 63 - 1) m ltac:(lia)).
    pose proof (Z.mod_pos_bound (2 ^ 63 - 1) m ltac:(lia)).
    destruct (Z.ltb_spec ((2 ^ 63 - 1) / m) n), (Z.leb_spec (n * m) (2 ^ 63 - 1)); simpl; nia.
  - destruct (Z.leb_spec (n * m) (2 ^ 63 - 1)); simpl; nia.
Qed.

(** The suffix switch picks the unit and leaves the digits. *)
Ltac pick_unit n :=
  let Hd := fresh in
  destruct (FormatInt_nonneg n) as (_ & _ & _ & Hd & _); [lia|];
  repeat (rewrite (HasSuffix_after_digits _ _ _ Hd) by done; simpl);
  rewrite ?TrimSuffix_app, ?str_app_nil_r; done.

Lemma byte_suffix_switch n u mult : 0 ≤ n → byte_unit u = Some mult →
  let t := FormatInt n +:+ u in
  (if HasSuffix t "gb" then (1024 * 1024 * 1024, TrimSuffix t "gb")
   else if HasSuffix t "mb" then (1024 * 1024, TrimSuffix t "mb")
   else if HasSuffix t "kb" then (1024, TrimSuffix t "kb")
   else if HasSuffix t "b" then (1, TrimSuffix t "b")
   else (1, t)) = (mult, FormatInt n).
Proof.
  intros Hn Hu. unfold byte_unit in Hu. repeat case_match; simplify_eq; cbv zeta; pick_unit n.
Qed.

Lemma bit_suffix_switch n u mult : 0 ≤ n → bit_unit u = Some mult →
  let t := FormatInt n +:+ u in
  (if HasSuffix t "gbit" then Some (1000000000, TrimSuffix t "gbit")
   else if HasSuffix t "mbit" then Some (1000000, TrimSuffix t "mbit")
   else if HasSuffix t "kbit" then Some (1000, TrimSuffix t "kbit")
   else if HasSuffix t "bit" then Some (1, TrimSuffix t "bit")
   else None) = Some (mult, FormatInt n).
Proof.
  intros Hn Hu. unfold bit_unit in Hu. repeat case_match; simplify_eq; cbv zeta; pick_unit n.
Qed.

Lemma unit_shape u mult : byte_unit u = Some mult ∨ bit_unit u = Some mult →
  1 ≤ mult ∧ plain u = true ∧ str_forall not_upper u = true.
Proof.
  unfold byte_unit, bit_unit. intros [Hu|Hu]; repeat case_match; simplify_eq; by vm_compute.
Qed.

(** A non-negative decimal number followed by a unit parses to the number of bytes, or
    to the overflow error exactly when that does not fit an int64. *)
Lemma ParseByteSize_units n u mult :
  0 ≤ n ≤ max_int64 → byte_unit u = Some mult →
  ParseByteSize (FormatInt n +:+ u) =
    if n * mult <=? max_int64 then Ok (n * mult) else Err OverflowSize.
Proof.
  intros Hn Hu. destruct (unit_shape u mult) as (Hm & Hp & Hl); [by left|].
  destruct (number_unit_plain n u) as [Ht Hne]; [lia|done|done|].
  destruct (FormatInt_nonneg n) as (_ & Hpl & _); [lia|].
  unfold ParseByteSize. rewrite Ht, eqb_empty, (byte_suffix_switch n u mult) by (done || lia).
  rewrite TrimSpace_plain, ParseInt_FormatInt, mult_overflows by done.
  destruct (Z.ltb_spec n 0); [lia|].
  destruct (Z.leb_spec (n * mult) max_int64); [|done].
  simpl. f_equal. apply wrap64_id. unfold min_int64. nia.
Qed.

(** A number followed by bit, kbit, mbit or gbit parses to bytes per second, rounded
    down, or overflows exactly when the bits do. *)
Lemma ParseBitrate_units n u mult :
  0 ≤ n ≤ max_int64 → bit_unit u = Some mult →
  ParseBitrate (FormatInt n +:+ u) =
    if n * mult <=? max_int64 then Ok (n * mult / 8) else Err OverflowSize.
Proof.
  intros Hn Hu. destruct (unit_shape u mult) as (Hm & Hp & Hl); [by right|].
  destruct (number_unit_plain n u) as [Ht Hne]; [lia|done|done|].
  destruct (FormatInt_nonneg n) as (_ & Hpl & _); [lia|].
  unfold ParseBitrate. rewrite Ht, eqb_empty, (bit_suffix_switch n u mult) by (done || lia).
  rewrite TrimSpace_plain, ParseInt_FormatInt, mult_overflows by done.
  destruct (Z.ltb_spec n 0); [lia|].
  destruct (Z.leb_spec (n * mult) max_int64); [|done].
  simpl. f_equal. rewrite wrap64_id by (unfold min_int64; nia).
  apply Z.quot_div_nonneg; nia.
Qed.

(** A size that parses is a non-negative int64, the product of the number written and
    its unit. *)
Lemma ParseByteSize_bounds s v :
  ParseByteSize s = Ok v →
  ∃ n mult t, ParseInt t = Ok n ∧ 0 ≤ n ∧ 1 ≤ mult ∧ v = n * mult ∧ 0 ≤ v ≤ max_int64.
Proof.
  unfold ParseByteSize. case_match; [done|].
  destruct (if HasSuffix _ "gb" then _ else _) as [mult t] eqn:Es.
  assert (1 ≤ mult) as Hm by (repeat case_match; simplify_eq; lia).
  destruct (ParseInt (TrimSpace t)) as [n|e] eqn:En; [|done].
  apply ParseInt_range in En as Hr.
  destruct (Z.ltb_spec n 0); [done|].
  destruct ((1 <? mult) && (max_int64 / mult <? n)) eqn:Ho; [done|].
  intros [= <-]. exists n, mult, (TrimSpace t).
  rewrite mult_fits by (done || lia). repeat split; auto; [nia|].
  rewrite mult_overflows in Ho by lia. zbool. done.
Qed.
End parsers.

(** ** Witnesses *)
Lemma ParseByteSize_units_witness :
  0 ≤ 16 ≤ max_int64 ∧
  @ParseByteSize ascii_only_case (FormatInt 16 +:+ "kb") =
    if 16 * 1024 <=? max_int64 then Ok (16 * 1024) else Err OverflowSize.
Proof.
  split; [by vm_compute|].
  apply (@ParseByteSize_units ascii_only_case 16 "kb" 1024); by vm_compute.
Defined.

Lemma ParseBitrate_units_witness :
  @ParseBitrate ascii_only_case (FormatInt 300 +:+ "kbit") =
    if 300 * 1000 <=? max_int64 then Ok (300 * 1000 / 8) else Err OverflowSize.
Proof.
  apply (@ParseBitrate_units ascii_only_case 300 "kbit" 1000); by vm_compute.
Defined.

Lemma ParseByteSize_bounds_witness :
  ∃ n mult t, ParseInt t = Ok n ∧ 0 ≤ n ∧ 1 ≤ mult ∧ 10485760 = n * mult ∧ 0 ≤ 10485760 ≤ max_int64.
Proof. apply (@ParseByteSize_bounds ascii_only_case "10MB" 10485760). by vm_compute. Defined.
End Config.
