(* ===== verification/ClientHello.v ===== *)
(** * The ClientHello peek

    [internal/edge/clienthello.go]: the TLS ClientHello parser of the public
    edge, the fields it routes on (SNI, ALPN, version) and the JA4 fingerprint.
    Go's slicing and indexing panic out of range: every such operation is an
    [outcome] here, and [Panic] is what the program must never reach.
    SHA-256 is the parameter of [computeJA4]. *)
From Stdlib Require Import ZArith Lia Strings.Byte Ascii String Sorting.Permutation.
From stdpp Require Import sorting.
From S2P Require Import Prelude GoStr.
Local Open Scope string_scope.
Local Open Scope list_scope.
Local Open Scope Z_scope.

Module ClientHello.

Inductive outcome (A : Type) : Type :=
| Ret (a : A)
| Bad            (* errBadClientHello *)
| Panic.         (* a Go run-time panic *)
Arguments Ret {A} a.
Arguments Bad {A}.
Arguments Panic {A}.

Definition obind {A B} (c : outcome A) (k : A → outcome B) : outcome B :=
  match c with Ret a => k a | Bad => Bad | Panic => Panic end.
Notation "'do' x <- c ;; k" := (obind c (λ x, k))
  (at level 100, x name, c at next level, right associativity).
Notation "'guard' b ;; k" := (if b then k else Bad)
  (at level 100, b at next level, right associativity).

(** [b[i]], [b[n:]] and [b[:n]]. *)
Definition at_ (b : bytes) (i : Z) : outcome Z :=
  if i <? 0 then Panic
  else match b !! Z.to_nat i with Some x => Ret (bZ x) | None => Panic end.
Definition from_ (b : bytes) (n : Z) : outcome bytes :=
  if (0 <=? n) && (n <=? len b) then Ret (drop (Z.to_nat n) b) else Panic.
Definition upto_ (b : bytes) (n : Z) : outcome bytes :=
  if (0 <=? n) && (n <=? len b) then Ret (take (Z.to_nat n) b) else Panic.

(** [uint16(b[i])<<8 | uint16(b[i+1])], also as an [int]. *)
Definition u16_at (b : bytes) (i : Z) : outcome Z :=
  do hi <- at_ b i ;; do lo <- at_ b (i + 1) ;; Ret (Z.lor (Z.shiftl hi 8) lo).

Record ClientHelloInfo := {
  SNI : string;
  ALPN : string;
  TLSVersion : string;
  JA4 : string
}.

Definition isGREASE (v : Z) : bool :=
  (Z.land v 0x0f0f =? 0x0a0a) && (Z.shiftr v 8 =? Z.land v 0xff).

Definition isAlnum (b : Z) : bool :=
  ((48 <=? b) && (b <=? 57)) || ((65 <=? b) && (b <=? 90)) || ((97 <=? b) && (b <=? 122)).

(** ** Extension bodies *)
Fixpoint parseSNI_loop (fuel : nat) (l : bytes) : outcome string :=
  match fuel with
  | O => Ret ""
  | S f =>
      if 3 <=? len l then
        do nlen <- u16_at l 1 ;;
        do t <- at_ l 0 ;;
        if (t =? 0) && (3 + nlen <=? len l) then
          do r <- upto_ l (3 + nlen) ;; do name <- from_ r 3 ;; Ret (str_of_bytes name)
        else if len l <? 3 + nlen then Ret ""
        else do l' <- from_ l (3 + nlen) ;; parseSNI_loop f l'
      else Ret ""
  end.

Definition parseSNI (data : bytes) : outcome string :=
  if len data <? 2 then Ret ""
  else do l <- from_ data 2 ;; parseSNI_loop (S (length l)) l.

Definition parseFirstALPN (data : bytes) : outcome string :=
  if len data <? 3 then Ret ""
  else
    do l <- from_ data 2 ;;
    if len l <? 1 then Ret ""
    else
      do n <- at_ l 0 ;;
      if len l <? 1 + n then Ret ""
      else do r <- upto_ l (1 + n) ;; do name <- from_ r 1 ;; Ret (str_of_bytes name).

(** The loop [for i := 0; i+1 < l; i += 2] over [body]. *)
Fixpoint u16s_below (fuel : nat) (body : bytes) (i l : Z) : outcome (list Z) :=
  match fuel with
  | O => Ret []
  | S f =>
      if i + 1 <? l then
        do v <- u16_at body i ;; do rest <- u16s_below f body (i + 2) l ;; Ret (v :: rest)
      else Ret []
  end.

Definition parseUint16List (data : bytes) : outcome (list Z) :=
  if len data <? 2 then Ret []
  else
    do l <- u16_at data 0 ;;
    do body <- from_ data 2 ;;
    if len body <? l then Ret [] else u16s_below (S (Z.to_nat l)) body 0 l.

Definition parseSupportedVersionsMax (data : bytes) : outcome Z :=
  if len data <? 1 then Ret 0
  else
    do l <- at_ data 0 ;;
    do body <- from_ data 1 ;;
    if len body <? l then Ret 0
    else
      do vs <- u16s_below (S (Z.to_nat l)) body 0 l ;;
      Ret (fold_left (λ maxv v, if isGREASE v then maxv else if maxv <? v then v else maxv) vs 0).

Definition pickVersion (legacy supported : Z) : Z :=
  if supported =? 0 then legacy else supported.

Definition versionString (v : Z) : string :=
  if v =? 0x0304 then "1.3"
  else if v =? 0x0303 then "1.2"
  else if v =? 0x0302 then "1.1"
  else if v =? 0x0301 then "1.0"
  else "0x" +:+ hex4 v.

(** ** JA4 *)
Definition hexList (vs : list Z) : list string := map hex4 vs.

(** [sort.Strings] sorts by byte-wise lexicographic order. *)
Fixpoint str_leb (a b : string) : bool :=
  match a, b with
  | "", _ => true
  | String _ _, "" => false
  | String x a', String y b' =>
      if cZ x <? cZ y then true else if cZ y <? cZ x then false else str_leb a' b'
  end.
Definition str_le (a b : string) : Prop := str_leb a b = true.
#[export] Instance str_le_dec : RelDecision str_le.
Proof. intros a b; unfold str_le; apply _. Defined.

Definition sortedHex (vs : list Z) : list string := merge_sort str_le (hexList vs).

Section ja4.
(** [hex.EncodeToString(sha256.Sum256(s))]. *)
Variable sha256_hex : string → string.

Definition sha12 (s : string) : string :=
  if String.eqb s "" then "000000000000" else str_take 12 (sha256_hex s).

Definition minExt (ext : list Z) : Z := Z.min (len ext) 99.

Definition ja4_alpn (alpn : string) : string :=
  match alpn with
  | "" => "00"
  | String first _ =>
      let last := str_drop (String.length alpn - 1) alpn in
      match last with
      | String l _ =>
          if isAlnum (cZ first) && isAlnum (cZ l) then String first (String l "")
          else
            let h := hex_encode (bytes_of_str alpn) in
            str_take 1 h +:+ str_drop (String.length h - 1) h
      | "" => ""
      end
  end.

Definition computeJA4 (info : ClientHelloInfo) (ciphers extIDs sigAlgs : list Z) : string :=
  let ver :=
    if String.eqb (TLSVersion info) "1.2" then "12"
    else if String.eqb (TLSVersion info) "1.1" then "11"
    else if String.eqb (TLSVersion info) "1.0" then "10"
    else "13" in
  let sniFlag := if String.eqb (SNI info) "" then "i" else "d" in
  let alpn := ja4_alpn (ALPN info) in
  let a := "t" +:+ ver +:+ sniFlag +:+ dec2 (Z.min (len ciphers) 99)
               +:+ dec2 (minExt extIDs) +:+ alpn in
  let b := sha12 (Join (sortedHex ciphers) ",") in
  let filtered := List.filter (λ e, negb ((e =? 0x0000) || (e =? 0x0010))) extIDs in
  let sortedE := sortedHex filtered in
  let extPart := Join sortedE "," in
  let extPart :=
    match sigAlgs with
    | [] => extPart
    | _ => extPart +:+ "_" +:+ Join (hexList sigAlgs) ","
    end in
  let c := sha12 extPart in
  a +:+ "_" +:+ b +:+ "_" +:+ c.

(** ** The parser *)
Record ext_acc := {
  x_info : ClientHelloInfo;
  x_ids : list Z;
  x_sigs : list Z;
  x_vermax : Z
}.

Definition set_sni (s : string) (i : ClientHelloInfo) : ClientHelloInfo :=
  {| SNI := s; ALPN := ALPN i; TLSVersion := TLSVersion i; JA4 := JA4 i |}.
Definition set_alpn (s : string) (i : ClientHelloInfo) : ClientHelloInfo :=
  {| SNI := SNI i; ALPN := s; TLSVersion := TLSVersion i; JA4 := JA4 i |}.

(** One turn of the extension loop's [switch], after the id is recorded. *)
Definition read_ext (etype : Z) (data : bytes) (x : ext_acc) : outcome ext_acc :=
  let x := if isGREASE etype then x
           else {| x_info := x_info x; x_ids := x_ids x ++ [etype];
                   x_sigs := x_sigs x; x_vermax := x_vermax x |} in
  if etype =? 0x0000 then
    do s <- parseSNI data ;;
    Ret {| x_info := set_sni s (x_info x); x_ids := x_ids x; x_sigs := x_sigs x; x_vermax := x_vermax x |}
  else if etype =? 0x0010 then
    do s <- parseFirstALPN data ;;
    Ret {| x_info := set_alpn s (x_info x); x_ids := x_ids x; x_sigs := x_sigs x; x_vermax := x_vermax x |}
  else if etype =? 0x000d then
    do l <- parseUint16List data ;;
    Ret {| x_info := x_info x; x_ids := x_ids x; x_sigs := l; x_vermax := x_vermax x |}
  else if etype =? 0x002b then
    do v <- parseSupportedVersionsMax data ;;
    Ret {| x_info := x_info x; x_ids := x_ids x; x_sigs := x_sigs x; x_vermax := v |}
  else Ret x.

(** [for len(ext) >= 4 { ... }]; every turn takes at least four bytes. *)
Fixpoint ext_loop (fuel : nat) (ext : bytes) (x : ext_acc) : outcome ext_acc :=
  match fuel with
  | O => Ret x
  | S f =>
      if 4 <=? len ext then
        do etype <- u16_at ext 0 ;;
        do elen <- u16_at ext 2 ;;
        do ext <- from_ ext 4 ;;
        if len ext <? elen then Ret x
        else
          do data <- upto_ ext elen ;;
          do ext <- from_ ext elen ;;
          do x <- read_ext etype data x ;;
          ext_loop f ext x
      else Ret x
  end.

Fixpoint cipher_loop (fuel : nat) (b : bytes) (i csLen : Z) : outcome (list Z) :=
  match fuel with
  | O => Ret []
  | S f =>
      if i <? csLen then
        do v <- u16_at b i ;;
        do rest <- cipher_loop f b (i + 2) csLen ;;
        Ret (if isGREASE v then rest else v :: rest)
      else Ret []
  end.

Definition empty_info : ClientHelloInfo := {| SNI := ""; ALPN := ""; TLSVersion := ""; JA4 := "" |}.
Definition empty_acc : ext_acc := {| x_info := empty_info; x_ids := []; x_sigs := []; x_vermax := 0 |}.

Definition parseClientHello (record : bytes) : outcome ClientHelloInfo :=
  guard 5 <=? len record ;;
  do t <- at_ record 0 ;;
  guard t =? 0x16 ;;
  do hs <- from_ record 5 ;;
  guard 4 <=? len hs ;;
  do ht <- at_ hs 0 ;;
  guard ht =? 0x01 ;;
  do b <- from_ hs 4 ;;
  guard 34 <=? len b ;;
  do legacyVer <- u16_at b 0 ;;
  do b <- from_ b 34 ;;
  guard 1 <=? len b ;;
  do sidLen <- at_ b 0 ;;
  do b <- from_ b 1 ;;
  guard sidLen <=? len b ;;
  do b <- from_ b sidLen ;;
  guard 2 <=? len b ;;
  do csLen <- u16_at b 0 ;;
  do b <- from_ b 2 ;;
  guard (csLen <=? len b) && (Z.rem csLen 2 =? 0) ;;
  do ciphers <- cipher_loop (S (Z.to_nat csLen)) b 0 csLen ;;
  do b <- from_ b csLen ;;
  guard 1 <=? len b ;;
  do compLen <- at_ b 0 ;;
  do b <- from_ b 1 ;;
  guard compLen <=? len b ;;
  do b <- from_ b compLen ;;
  do x <- (if 2 <=? len b then
             do extTotal <- u16_at b 0 ;;
             do b <- from_ b 2 ;;
             guard extTotal <=? len b ;;
             do ext <- upto_ b extTotal ;;
             ext_loop (S (length ext)) ext empty_acc
           else Ret empty_acc) ;;
  let info := {| SNI := SNI (x_info x); ALPN := ALPN (x_info x);
                 TLSVersion := versionString (pickVersion legacyVer (x_vermax x)); JA4 := "" |} in
  Ret {| SNI := SNI info; ALPN := ALPN info; TLSVersion := TLSVersion info;
         JA4 := computeJA4 info ciphers (x_ids x) (x_sigs x) |}.
End ja4.

(** ** Slices in range *)
Lemma at_ok b i : 0 ≤ i < len b → ∃ v, at_ b i = Ret v ∧ 0 ≤ v < 256.
Proof.
  intros Hi. unfold at_. destruct (Z.ltb_spec i 0); [lia|].
  destruct (lookup_lt_is_Some_2 b (Z.to_nat i)) as [x ->]; [lia|].
  exists (bZ x). split; [done|]. apply bZ_range.
Qed.

Lemma from_ok b n : 0 ≤ n ≤ len b → from_ b n = Ret (drop (Z.to_nat n) b).
Proof. intros Hn. unfold from_. zcase. done. Qed.

Lemma upto_ok b n : 0 ≤ n ≤ len b → upto_ b n = Ret (take (Z.to_nat n) b).
Proof. intros Hn. unfold upto_. zcase. done. Qed.

Lemma lor_bytes hi lo : 0 ≤ hi < 256 → 0 ≤ lo < 256 → Z.lor (Z.shiftl hi 8) lo = hi * 256 + lo.
Proof.
  intros Hh Hl. rewrite Z.shiftl_mul_pow2 by lia. change (2 ^ 8) with 256.
  rewrite <- Z.add_lor_land.
  replace (Z.land (hi * 256) lo) with 0; [lia|].
  apply Z.bits_inj'. intros n Hn. rewrite Z.bits_0, Z.land_spec.
  change 256 with (2 ^ 8). rewrite <- Z.shiftl_mul_pow2 by lia.
  destruct (Z.ltb_spec n 8).
  - by rewrite Z.shiftl_spec_low.
  - rewrite (Z.bits_above_log2 lo n); [by rewrite andb_false_r|lia|].
    destruct (Z.eq_dec lo 0) as [->|]; [simpl; lia|].
    assert (Z.log2 lo < 8) by (apply Z.log2_lt_pow2; lia). lia.
Qed.

Lemma u16_ok b i : 0 ≤ i → i + 2 ≤ len b → ∃ v, u16_at b i = Ret v ∧ 0 ≤ v < 65536.
Proof.
  intros Hi Hl. unfold u16_at.
  destruct (at_ok b i) as (h & -> & Hh); [lia|]. simpl.
  destruct (at_ok b (i + 1)) as (l & -> & Hl'); [lia|]. simpl.
  eexists; split; [done|]. rewrite lor_bytes by done. lia.
Qed.

(** [returns o] : the code neither fails nor panics; [safe o] : no panic. *)
Definition returns {A} (o : outcome A) : Prop := ∃ a, o = Ret a.
Definition safe {A} (o : outcome A) : Prop := o ≠ Panic.

Lemma returns_bind {A B} (o : outcome A) (k : A → outcome B) :
  returns o → (∀ a, o = Ret a → returns (k a)) → returns (obind o k).
Proof. intros [a ->] Hk. simpl. eauto. Qed.

Lemma safe_bind {A B} (o : outcome A) (k : A → outcome B) :
  safe o → (∀ a, o = Ret a → safe (k a)) → safe (obind o k).
Proof. intros Ho Hk. destruct o; simpl; [auto|intros [=]|by destruct Ho]. Qed.

Lemma safe_guard {A} (b : bool) (o : outcome A) : (b = true → safe o) → safe (guard b ;; o).
Proof. destruct b; auto. intros _ [=]. Qed.

Lemma returns_safe {A} (o : outcome A) : returns o → safe o.
Proof. by intros [a ->]. Qed.

Lemma returns_ret {A} (a : A) : returns (Ret a).
Proof. by exists a. Qed.

Lemma returns_at b i : 0 ≤ i < len b → returns (at_ b i).
Proof. intros (v & -> & _)%at_ok. apply returns_ret. Qed.

Lemma returns_u16 b i : 0 ≤ i → i + 2 ≤ len b → returns (u16_at b i).
Proof. intros Hi Hl. destruct (u16_ok b i Hi Hl) as (v & -> & _). apply returns_ret. Qed.

Lemma at_range b i v : at_ b i = Ret v → 0 ≤ v < 256.
Proof.
  unfold at_. case_match; [done|]. case_match; [|done]. intros [= <-]. apply bZ_range.
Qed.

Lemma u16_range b i v : u16_at b i = Ret v → 0 ≤ v < 65536.
Proof.
  unfold u16_at. destruct (at_ b i) eqn:E1; simpl; try done.
  destruct (at_ b (i + 1)) eqn:E2; simpl; try done. intros [= <-].
  apply at_range in E1, E2. rewrite lor_bytes by done. lia.
Qed.

Lemma from_len b n r : from_ b n = Ret r → 0 ≤ n ≤ len b ∧ len r = len b - n.
Proof.
  unfold from_. destruct (Z.leb_spec 0 n), (Z.leb_spec n (len b)); simpl; try done.
  intros [= <-]. rewrite length_drop. lia.
Qed.

Lemma upto_len b n r : upto_ b n = Ret r → 0 ≤ n ≤ len b ∧ len r = n.
Proof.
  unfold upto_. destruct (Z.leb_spec 0 n), (Z.leb_spec n (len b)); simpl; try done.
  intros [= <-]. rewrite length_take. lia.
Qed.

Lemma returns_from b n : 0 ≤ n ≤ len b → returns (from_ b n).
Proof. intros H. rewrite from_ok by done. apply returns_ret. Qed.

Lemma returns_upto b n : 0 ≤ n ≤ len b → returns (upto_ b n).
Proof. intros H. rewrite upto_ok by done. apply returns_ret. Qed.

(** Collect what the steps already taken say about lengths and ranges. *)
Ltac slice_facts :=
  repeat match goal with
  | H : at_ _ _ = Ret _ |- _ => apply at_range in H
  | H : u16_at _ _ = Ret _ |- _ => apply u16_range in H
  | H : from_ _ _ = Ret _ |- _ => apply from_len in H
  | H : upto_ _ _ = Ret _ |- _ => apply upto_len in H
  end.

(** One step of a parser that is in range. *)
Ltac slice_step :=
  match goal with
  | |- safe (if _ then _ else Bad) => apply safe_guard; intros ?; zbool
  | |- safe (obind _ _) => apply safe_bind; [|intros ? ?]
  | |- safe (at_ _ _) => apply returns_safe
  | |- safe (u16_at _ _) => apply returns_safe
  | |- safe (from_ _ _) => apply returns_safe
  | |- safe (upto_ _ _) => apply returns_safe
  | |- safe (cipher_loop _ _ _ _) => apply returns_safe
  | |- returns (obind _ _) => apply returns_bind; [|intros ? ?]
  | |- returns (Ret _) => apply returns_ret
  | |- safe (Ret _) => apply returns_safe, returns_ret
  | |- returns (at_ _ _) => slice_facts; apply returns_at; lia
  | |- returns (u16_at _ _) => slice_facts; apply returns_u16; lia
  | |- returns (from_ _ _) => slice_facts; apply returns_from; lia
  | |- returns (upto_ _ _) => slice_facts; apply returns_upto; lia
  | |- returns (if ?b then _ else _) => destruct b eqn:?; zbool
  end.

Lemma parseSNI_loop_returns fuel l : returns (parseSNI_loop fuel l).
Proof.
  revert l. induction fuel as [|f IH]; intros l; simpl; [apply returns_ret|].
  repeat slice_step; auto.
Qed.

Lemma parseSNI_returns data : returns (parseSNI data).
Proof.
  unfold parseSNI. repeat slice_step. apply parseSNI_loop_returns.
Qed.

Lemma parseFirstALPN_returns data : returns (parseFirstALPN data).
Proof. unfold parseFirstALPN. repeat slice_step. Qed.

Lemma u16s_below_returns fuel body i l : 0 ≤ i → l ≤ len body → returns (u16s_below fuel body i l).
Proof.
  revert i. induction fuel as [|f IH]; intros i Hi Hl; simpl; [apply returns_ret|].
  repeat slice_step. apply IH; lia.
Qed.

Lemma parseUint16List_returns data : returns (parseUint16List data).
Proof. unfold parseUint16List. repeat slice_step. apply u16s_below_returns; lia. Qed.

Lemma parseSupportedVersionsMax_returns data : returns (parseSupportedVersionsMax data).
Proof.
  unfold parseSupportedVersionsMax. repeat slice_step. apply u16s_below_returns; lia.
Qed.

Lemma read_ext_returns t data x : returns (read_ext t data x).
Proof.
  unfold read_ext. cbv zeta. repeat (slice_step || case_match).
  all: first [apply parseSNI_returns | apply parseFirstALPN_returns
             | apply parseUint16List_returns | apply parseSupportedVersionsMax_returns].
Qed.

Lemma ext_loop_returns fuel ext x : returns (ext_loop fuel ext x).
Proof.
  revert ext x. induction fuel as [|f IH]; intros ext x; simpl; [apply returns_ret|].
  repeat slice_step; auto using read_ext_returns.
Qed.

Lemma cipher_loop_returns fuel b i n : 0 ≤ i → Z.Even (n - i) → n ≤ len b → returns (cipher_loop fuel b i n).
Proof.
  revert i. induction fuel as [|f IH]; intros i Hi He Hn; simpl; [apply returns_ret|].
  assert (i < n → i + 2 ≤ n) by (destruct He as [k Hk]; lia).
  repeat slice_step. apply IH; [lia| |lia].
  destruct He as [k Hk]. exists (k - 1). lia.
Qed.

(** The parser reads bytes an unauthenticated peer chose. On every record it returns a
    result or the malformed-hello error: no index and no slice expression is ever out of
    range, and no loop runs out of its bound. *)
Lemma parseClientHello_never_panics sha record :
  parseClientHello sha record ≠ Panic.
Proof.
  change (safe (parseClientHello sha record)). unfold parseClientHello.
  repeat slice_step.
  - apply cipher_loop_returns; slice_facts; [lia| |lia].
    rewrite Z.sub_0_r, <- Z.even_spec, Zeven_mod.
    match goal with H : Z.rem _ 2 = 0 |- _ => rewrite Z.rem_mod_nonneg in H by lia; by rewrite H end.
  - case_match; zbool; repeat slice_step. apply returns_safe, ext_loop_returns.
Qed.

(** ** A reference encoder

    The wire form of a ClientHello (RFC 8446, section 4.1.2) and the fields the
    edge should read back: of two extensions with the same id the later one
    counts, GREASE ids and ciphers are ignored. *)
Record hello := {
  h_legacy : Z;
  h_random : bytes;
  h_session : bytes;
  h_ciphers : list Z;
  h_compression : bytes;
  h_exts : list (Z * bytes)
}.

Definition enc_u16s (vs : list Z) : bytes := concat (map put_be16 vs).
Definition enc_ext (e : Z * bytes) : bytes := put_be16 e.1 ++ put_be16 (len e.2) ++ e.2.
Definition enc_exts (es : list (Z * bytes)) : bytes := concat (map enc_ext es).
Definition enc_body (h : hello) : bytes :=
  put_be16 (h_legacy h) ++ h_random h ++
  [Zb (len (h_session h))] ++ h_session h ++
  put_be16 (2 * len (h_ciphers h)) ++ enc_u16s (h_ciphers h) ++
  [Zb (len (h_compression h))] ++ h_compression h ++
  put_be16 (len (enc_exts (h_exts h))) ++ enc_exts (h_exts h).
Definition enc_handshake (h : hello) : bytes :=
  x01 :: Zb (len (enc_body h) / 65536) :: put_be16 (len (enc_body h)) ++ enc_body h.
Definition enc_record (h : hello) : bytes :=
  [x16; x03; x01] ++ put_be16 (len (enc_handshake h)) ++ enc_handshake h.

Definition u16 (z : Z) : Prop := 0 ≤ z < 65536.

Record wf_hello (h : hello) : Prop := {
  wf_legacy : u16 (h_legacy h);
  wf_random : length (h_random h) = 32%nat;
  wf_session : len (h_session h) < 256;
  wf_ciphers : Forall u16 (h_ciphers h);
  wf_nciphers : 2 * len (h_ciphers h) < 65536;
  wf_compression : len (h_compression h) < 256;
  wf_exts : Forall (λ e, u16 e.1 ∧ len e.2 < 65536) (h_exts h);
  wf_exts_len : len (enc_exts (h_exts h)) < 65536
}.

(** The values the extension bodies hold. *)
Definition value {A} (d : A) (o : outcome A) : A := match o with Ret a => a | _ => d end.
Definition ext_lookup (t : Z) (es : list (Z * bytes)) : option bytes :=
  (list_to_map (reverse es) : gmap Z bytes) !! t.
Definition hello_sni (es : list (Z * bytes)) : string :=
  from_option (λ d, value "" (parseSNI d)) "" (ext_lookup 0x0000 es).
Definition hello_alpn (es : list (Z * bytes)) : string :=
  from_option (λ d, value "" (parseFirstALPN d)) "" (ext_lookup 0x0010 es).
Definition hello_sigs (es : list (Z * bytes)) : list Z :=
  from_option (λ d, value [] (parseUint16List d)) [] (ext_lookup 0x000d es).
Definition hello_vermax (es : list (Z * bytes)) : Z :=
  from_option (λ d, value 0 (parseSupportedVersionsMax d)) 0 (ext_lookup 0x002b es).
Definition ungreased (vs : list Z) : list Z := List.filter (λ v, negb (isGREASE v)) vs.

Definition hello_info (sha : string → string) (h : hello) : ClientHelloInfo :=
  let info := {| SNI := hello_sni (h_exts h); ALPN := hello_alpn (h_exts h);
                 TLSVersion := versionString (pickVersion (h_legacy h) (hello_vermax (h_exts h)));
                 JA4 := "" |} in
  {| SNI := SNI info; ALPN := ALPN info; TLSVersion := TLSVersion info;
     JA4 := computeJA4 sha info (ungreased (h_ciphers h))
              (ungreased (h_exts h).*1) (hello_sigs (h_exts h)) |}.

(** *** Reading back what the encoder wrote *)
Lemma u16_put_at (p : bytes) v b : u16 v → u16_at (p ++ put_be16 v ++ b) (len p) = Ret v.
Proof.
  intros Hv. unfold u16_at, at_.
  destruct (Z.ltb_spec (len p) 0); [lia|]. destruct (Z.ltb_spec (len p + 1) 0); [lia|].
  rewrite Nat2Z.id, lookup_app_r, Nat.sub_diag by lia. simpl.
  replace (Z.to_nat (len p + 1)) with (S (length p)) by lia.
  rewrite lookup_app_r, Nat.sub_succ_l, Nat.sub_diag by lia. simpl.
  rewrite lor_bytes by apply bZ_range. f_equal. by apply be16_put.
Qed.

Lemma u16_put v b : u16 v → u16_at (put_be16 v ++ b) 0 = Ret v.
Proof. apply (u16_put_at []). Qed.

Lemma from_app (a b : bytes) n : n = len a → from_ (a ++ b) n = Ret b.
Proof.
  intros ->. rewrite from_ok by (rewrite length_app; lia).
  by rewrite Nat2Z.id, drop_app_length.
Qed.

Lemma upto_app (a b : bytes) n : n = len a → upto_ (a ++ b) n = Ret a.
Proof.
  intros ->. rewrite upto_ok by (rewrite length_app; lia).
  by rewrite Nat2Z.id, take_app_length.
Qed.

Lemma at_cons x l b : at_ ((x :: l) ++ b) 0 = Ret (bZ x).
Proof. done. Qed.

Lemma bZ_Zb_small z : 0 ≤ z < 256 → bZ (Zb z) = z.
Proof. intros. rewrite bZ_Zb, Z.mod_small; lia. Qed.

Lemma ret_bind {A B} (a : A) (k : A → outcome B) : obind (Ret a) k = k a.
Proof. done. Qed.

Lemma guard_true {A} (b : bool) (o : outcome A) : b = true → (guard b ;; o) = o.
Proof. by intros ->. Qed.

Lemma length_enc_u16s vs : len (enc_u16s vs) = 2 * len vs.
Proof. unfold enc_u16s. induction vs as [|v vs IH]; [done|]. simpl in *. lia. Qed.

Lemma cipher_loop_enc fuel p vs rest :
  Forall u16 vs → (length vs < fuel)%nat →
  cipher_loop fuel (p ++ enc_u16s vs ++ rest) (len p) (len p + 2 * len vs) = Ret (ungreased vs).
Proof.
  intros Hvs. revert fuel p. induction Hvs as [|v vs Hv Hvs IH]; intros [|f] p Hf; [simpl in Hf; lia| |simpl in Hf; lia|].
  - cbn [cipher_loop]. destruct (Z.ltb_spec (len p) (len p + 2 * len (@nil Z))); [simpl in *; lia|done].
  - cbn [cipher_loop]. destruct (Z.ltb_spec (len p) (len p + 2 * len (v :: vs))); [|simpl in *; lia].
    change (enc_u16s (v :: vs)) with (put_be16 v ++ enc_u16s vs).
    rewrite <- app_assoc, u16_put_at, ret_bind by done.
    specialize (IH f (p ++ put_be16 v)).
    rewrite <- app_assoc, length_app in IH. simpl length in *.
    replace (len p + 2 * Z.of_nat (S (length vs))) with (Z.of_nat (length p + 2) + 2 * len vs) by lia.
    replace (len p + 2) with (Z.of_nat (length p + 2)) by lia.
    rewrite IH, ret_bind by lia. unfold ungreased. simpl. by destruct (isGREASE v).
Qed.

Lemma cipher_loop_enc0 fuel vs rest :
  Forall u16 vs → (length vs < fuel)%nat →
  cipher_loop fuel (enc_u16s vs ++ rest) 0 (2 * len vs) = Ret (ungreased vs).
Proof. apply (cipher_loop_enc fuel []). Qed.

(** *** The extension loop is a fold over the extensions *)
Fixpoint read_exts (es : list (Z * bytes)) (x : ext_acc) : outcome ext_acc :=
  match es with
  | [] => Ret x
  | (t, d) :: es' => obind (read_ext t d x) (read_exts es')
  end.

Lemma length_enc_ext e : len (enc_ext e) = 4 + len e.2.
Proof. unfold enc_ext. rewrite !length_app. simpl. lia. Qed.

Lemma ext_loop_enc fuel es x :
  Forall (λ e, u16 e.1 ∧ len e.2 < 65536) es → (length (enc_exts es) < fuel)%nat →
  ext_loop fuel (enc_exts es) x = read_exts es x.
Proof.
  intros Hes. revert fuel x. induction Hes as [|[t d] es [Ht Hd] Hes IH]; intros [|f] x Hf;
    [simpl in Hf; lia|done|simpl in Hf; lia|].
  change (enc_exts ((t, d) :: es)) with (enc_ext (t, d) ++ enc_exts es) in *.
  rewrite length_app in Hf. pose proof (length_enc_ext (t, d)) as Hl. simpl snd in *. simpl fst in *.
  cbn [ext_loop read_exts]. rewrite length_app.
  destruct (Z.leb_spec 4 (Z.of_nat (length (enc_ext (t, d)) + length (enc_exts es)))); [|lia].
  unfold enc_ext at 1 2 3. simpl fst. simpl snd. rewrite <- !app_assoc.
  rewrite u16_put, ret_bind by done.
  rewrite (u16_put_at (put_be16 t)), ret_bind by (unfold u16; lia).
  rewrite app_assoc, from_app, ret_bind by done.
  rewrite length_app. destruct (Z.ltb_spec (Z.of_nat (length d + length (enc_exts es))) (len d)); [lia|].
  rewrite upto_app, ret_bind, from_app, ret_bind by done.
  destruct (read_ext t d x); simpl; [|done|done]. apply IH. lia.
Qed.

Lemma ext_lookup_snoc t es e :
  ext_lookup t (es ++ [e]) = if decide (e.1 = t) then Some e.2 else ext_lookup t es.
Proof.
  unfold ext_lookup. rewrite reverse_snoc. destruct e as [t' d]. simpl.
  rewrite lookup_insert. done.
Qed.

Lemma read_exts_snoc es e x :
  read_exts (es ++ [e]) x = obind (read_exts es x) (read_ext e.1 e.2).
Proof.
  revert x. induction es as [|[t d] es IH]; intros x; simpl.
  - destruct e as [t d]. simpl. by destruct (read_ext t d x).
  - destruct (read_ext t d x); simpl; auto.
Qed.

Lemma value_ret {A} (d : A) o : returns o → o = Ret (value d o).
Proof. by intros [a ->]. Qed.

Lemma read_ext_value t d x :
  read_ext t d x = Ret
    {| x_info := {| SNI := if t =? 0 then value "" (parseSNI d) else SNI (x_info x);
                    ALPN := if t =? 16 then value "" (parseFirstALPN d) else ALPN (x_info x);
                    TLSVersion := TLSVersion (x_info x); JA4 := JA4 (x_info x) |};
       x_ids := if isGREASE t then x_ids x else x_ids x ++ [t];
       x_sigs := if t =? 13 then value [] (parseUint16List d) else x_sigs x;
       x_vermax := if t =? 43 then value 0 (parseSupportedVersionsMax d) else x_vermax x |}.
Proof.
  unfold read_ext, set_sni, set_alpn.
  pose proof (value_ret "" _ (parseSNI_returns d)) as H1.
  pose proof (value_ret "" _ (parseFirstALPN_returns d)) as H2.
  pose proof (value_ret [] _ (parseUint16List_returns d)) as H3.
  pose proof (value_ret 0 _ (parseSupportedVersionsMax_returns d)) as H4.
  destruct (Z.eqb_spec t 0) as [->|]; [|destruct (Z.eqb_spec t 16) as [->|];
    [|destruct (Z.eqb_spec t 13) as [->|]; [|destruct (Z.eqb_spec t 43) as [->|]]]].
  1: rewrite H1 at 1. 2: rewrite H2 at 1. 3: rewrite H3 at 1. 4: rewrite H4 at 1.
  all: simpl; destruct x as [[] ? ? ?]; simpl; try done; by destruct (isGREASE t).
Qed.

Lemma read_exts_spec es :
  read_exts es empty_acc = Ret
    {| x_info := {| SNI := hello_sni es; ALPN := hello_alpn es; TLSVersion := ""; JA4 := "" |};
       x_ids := ungreased es.*1; x_sigs := hello_sigs es; x_vermax := hello_vermax es |}.
Proof.
  induction es as [|[t d] es IH] using rev_ind; [done|].
  rewrite read_exts_snoc, IH. cbn [obind]. rewrite read_ext_value. f_equal. simpl.
  unfold hello_sni, hello_alpn, hello_sigs, hello_vermax, ungreased.
  rewrite !ext_lookup_snoc, fmap_app, List.filter_app. simpl.
  f_equal; [f_equal| | |];
    try (destruct (Z.eqb_spec t 0)); try (destruct (Z.eqb_spec t 16));
    try (destruct (Z.eqb_spec t 13)); try (destruct (Z.eqb_spec t 43));
    repeat case_decide; simplify_eq; try done; destruct (isGREASE t); simpl;
    by rewrite ?app_nil_r.
Qed.

(** The record and handshake headers in front of the body. *)
Lemma enc_record_split h : ∃ pre hd,
  enc_record h = (x16 :: pre) ++ (x01 :: hd) ++ enc_body h ∧
  length pre = 4%nat ∧ length hd = 3%nat.
Proof. unfold enc_record, enc_handshake. by eexists [_; _; _; _], [_; _; _]. Qed.

Ltac lengths := apply Z.leb_le; rewrite ?length_app; simpl; rewrite ?length_app; simpl; lia.

Lemma parseClientHello_enc_record sha h :
  wf_hello h → parseClientHello sha (enc_record h) = Ret (hello_info sha h).
Proof.
  intros [Hleg Hrnd Hsid Hcs Hncs Hcomp Hex Hexl].
  destruct (enc_record_split h) as (pre & hd & -> & Hpre & Hhd).
  assert (34 ≤ len (enc_body h)) as Hbody.
  { unfold enc_body. rewrite !length_app. simpl. lia. }
  unfold parseClientHello.
  rewrite guard_true by lengths. rewrite at_cons, ret_bind, guard_true by done.
  rewrite (from_app (x16 :: pre)), ret_bind by (simpl; lia).
  rewrite guard_true by lengths. rewrite at_cons, ret_bind, guard_true by done.
  rewrite (from_app (x01 :: hd)), ret_bind by (simpl; lia).
  rewrite guard_true by (by apply Z.leb_le). unfold enc_body.
  rewrite u16_put, ret_bind by done.
  rewrite (app_assoc (put_be16 (h_legacy h))), from_app, ret_bind
    by (rewrite length_app; simpl; lia).
  rewrite guard_true by lengths. rewrite at_cons, ret_bind.
  rewrite (from_app [Zb _]), ret_bind, bZ_Zb_small by (done || lia).
  rewrite guard_true by lengths. rewrite from_app, ret_bind by done.
  rewrite guard_true by lengths. rewrite u16_put, ret_bind by (unfold u16; lia).
  rewrite from_app, ret_bind by done. pose proof (length_enc_u16s (h_ciphers h)) as Hl.
  rewrite guard_true.
  2: { apply andb_true_intro; split; [lengths|]. apply Z.eqb_eq.
       rewrite Z.rem_mod_nonneg by lia. divmod. }
  rewrite cipher_loop_enc0, ret_bind by (done || lia).
  rewrite from_app, ret_bind by done. rewrite guard_true by lengths.
  rewrite at_cons, ret_bind, (from_app [Zb _]), ret_bind, bZ_Zb_small by (done || lia).
  rewrite guard_true by lengths. rewrite from_app, ret_bind by done.
  rewrite (proj2 (Z.leb_le 2 _)) by (rewrite length_app; simpl; lia).
  rewrite u16_put, ret_bind by (unfold u16; lia). rewrite from_app, ret_bind by done.
  rewrite guard_true by (apply Z.leb_le; lia).
  rewrite upto_ok, ret_bind, Nat2Z.id, firstn_all by lia.
  by rewrite ext_loop_enc, read_exts_spec by (done || lia).
Qed.

(** *** Server name *)
Definition enc_sni (name : bytes) : bytes :=
  put_be16 (len name + 3) ++ [x00] ++ put_be16 (len name) ++ name.

Lemma parseSNI_enc name : len name + 3 < 65536 → parseSNI (enc_sni name) = Ret (str_of_bytes name).
Proof.
  intros Hn. unfold parseSNI, enc_sni. rewrite (proj2 (Z.ltb_ge _ _)) by (rewrite !length_app; simpl; lia).
  rewrite from_app, ret_bind by done. cbn [parseSNI_loop].
  rewrite (proj2 (Z.leb_le 3 _)) by (rewrite !length_app; simpl; lia).
  rewrite (u16_put_at [x00]), ret_bind, at_cons, ret_bind by (unfold u16; lia).
  rewrite (proj2 (andb_true_iff _ _)).
  2: { split; [done|]. apply Z.leb_le. rewrite !length_app. simpl. lia. }
  rewrite upto_ok, ret_bind by (rewrite !length_app; simpl; lia).
  rewrite take_ge by (rewrite !length_app; simpl; lia).
  by rewrite app_assoc, from_app, ret_bind by done.
Qed.

Lemma ext_lookup_last t d pre post :
  t ∉ post.*1 → ext_lookup t (pre ++ (t, d) :: post) = Some d.
Proof.
  induction post as [|e post IH] using rev_ind; intros Hn.
  - rewrite ext_lookup_snoc. by rewrite decide_True by done.
  - rewrite fmap_app in Hn.
    change (pre ++ (t, d) :: post ++ [e]) with (pre ++ ((t, d) :: post) ++ [e]).
    rewrite app_assoc, ext_lookup_snoc, decide_False by set_solver.
    apply IH. set_solver.
Qed.

(** The server name a client puts in its (last) server-name extension is the name the
    edge routes by. *)
Lemma parseClientHello_sni sha h pre post name :
  wf_hello h → h_exts h = pre ++ (0x0000, enc_sni name) :: post → 0x0000 ∉ post.*1 →
  len name + 3 < 65536 →
  ∃ info, parseClientHello sha (enc_record h) = Ret info ∧ SNI info = str_of_bytes name.
Proof.
  intros Hwf He Hpost Hn. exists (hello_info sha h). split.
  - destruct Hwf; by apply parseClientHello_enc_record.
  - unfold hello_info, hello_sni. rewrite He, ext_lookup_last by done.
    cbn [from_option SNI]. by rewrite parseSNI_enc.
Qed.

(** *** JA4 does not depend on the order *)
Lemma str_leb_refl a : str_leb a a = true.
Proof. induction a as [|x a IH]; simpl; [done|]. by rewrite Z.ltb_irrefl. Qed.

#[export] Instance str_le_trans : Transitive str_le.
Proof.
  unfold str_le. intros a. induction a as [|x a IH]; intros [|y b] [|z c]; simpl; try done.
  repeat (zcase; simpl); try done; try lia; intros; simplify_eq; eauto.
Qed.

#[export] Instance str_le_total : Total str_le.
Proof.
  unfold str_le. intros a. induction a as [|x a IH]; intros [|y b]; simpl; auto.
  zcase; auto.
Qed.

Lemma cZ_inj x y : cZ x = cZ y → x = y.
Proof.
  unfold cZ. intros H%N2Z.inj. by rewrite <- (ascii_N_embedding x), H, ascii_N_embedding.
Qed.

#[export] Instance str_le_antisymm : AntiSymm (=) str_le.
Proof.
  unfold str_le. intros a. induction a as [|x a IH]; intros [|y b]; simpl; try done.
  zcase; try done. intros. rewrite (cZ_inj x y) by lia. f_equal. auto.
Qed.

Lemma sortedHex_perm vs vs' : vs ≡ₚ vs' → sortedHex vs = sortedHex vs'.
Proof.
  intros Hp. unfold sortedHex. apply (Sorted_unique str_le); try apply Sorted_merge_sort; try apply _.
  rewrite !merge_sort_Permutation. by apply Permutation_map.
Qed.

Lemma filter_perm {A} (p : A → bool) (l l' : list A) : l ≡ₚ l' → List.filter p l ≡ₚ List.filter p l'.
Proof.
  induction 1 as [|x l l' _ IH|x y l|l l' l'' _ IH1 _ IH2]; simpl; [done| | |by etrans].
  - by destruct (p x); rewrite IH.
  - destruct (p x), (p y); auto. constructor.
Qed.

Lemma computeJA4_perm sha info cs cs' es es' sigs :
  cs ≡ₚ cs' → es ≡ₚ es' → computeJA4 sha info cs es sigs = computeJA4 sha info cs' es' sigs.
Proof.
  intros Hc He. unfold computeJA4, minExt.
  rewrite (sortedHex_perm cs cs' Hc), (Permutation_length Hc), (Permutation_length He).
  by rewrite (sortedHex_perm _ _ (filter_perm _ _ _ He)).
Qed.

Lemma ext_lookup_perm t es es' : NoDup es.*1 → es ≡ₚ es' → ext_lookup t es = ext_lookup t es'.
Proof.
  intros Hn Hp. unfold ext_lookup. f_equal. apply list_to_map_proper.
  - by rewrite fmap_reverse, reverse_Permutation.
  - by rewrite !reverse_Permutation.
Qed.

(** The fingerprint survives the shuffling browsers do: hellos with the same legacy
    version whose ciphers and extensions are permutations of each other parse to the
    same information and the same JA4, whatever their random and session id. *)
Lemma JA4_stable_under_reordering sha h h' :
  wf_hello h → wf_hello h' →
  h_legacy h = h_legacy h' → NoDup (h_exts h).*1 →
  h_exts h ≡ₚ h_exts h' → h_ciphers h ≡ₚ h_ciphers h' →
  parseClientHello sha (enc_record h) = parseClientHello sha (enc_record h').
Proof.
  intros Hwf Hwf' Hl Hnd He Hc. rewrite !parseClientHello_enc_record by done.
  unfold hello_info, hello_sni, hello_alpn, hello_sigs, hello_vermax.
  rewrite Hl, !(ext_lookup_perm _ _ _ Hnd He). simpl. do 2 f_equal.
  apply computeJA4_perm; [by apply filter_perm|]. apply filter_perm. by rewrite He.
Qed.

(** ** What a ClientHello says

    The hello as its sender means it (RFC 8446, 6066, 7301): typed extensions, and what
    the edge is to make of them, stated without the parsers. *)
Inductive ext :=
| EServerName (names : list (Z * bytes))          (* name type, name *)
| EALPN (protos : list bytes)
| ESignatureAlgorithms (algs : list Z)
| ESupportedVersions (versions : list Z)
| EOther (id : Z) (data : bytes).

Definition ext_id (e : ext) : Z :=
  match e with
  | EServerName _ => 0 | EALPN _ => 16 | ESignatureAlgorithms _ => 13 | ESupportedVersions _ => 43 | EOther id _ => id
  end.
Definition enc_name (n : Z * bytes) : bytes := Zb n.1 :: put_be16 (len n.2) ++ n.2.
Definition enc_names (ns : list (Z * bytes)) : bytes := concat (map enc_name ns).
Definition enc_protos (ps : list bytes) : bytes := concat (map (λ p, Zb (len p) :: p) ps).
Definition ext_body (e : ext) : bytes :=
  match e with
  | EServerName ns => put_be16 (len (enc_names ns)) ++ enc_names ns
  | EALPN ps => put_be16 (len (enc_protos ps)) ++ enc_protos ps
  | ESignatureAlgorithms vs => put_be16 (2 * len vs) ++ enc_u16s vs
  | ESupportedVersions vs => Zb (2 * len vs) :: enc_u16s vs
  | EOther _ d => d
  end.

Record chello := CHello {
  c_legacy : Z; c_random : bytes; c_session : bytes; c_ciphers : list Z; c_compression : bytes; c_exts : list ext
}.
Definition wire (c : chello) : hello := {|
  h_legacy := c_legacy c; h_random := c_random c; h_session := c_session c; h_ciphers := c_ciphers c;
  h_compression := c_compression c; h_exts := map (λ e, (ext_id e, ext_body e)) (c_exts c) |}.

Definition wf_ext (e : ext) : Prop :=
  match e with
  | EServerName ns => Forall (λ n, 0 ≤ n.1 < 256 ∧ len n.2 < 65536) ns
  | EALPN ps => Forall (λ p, 1 ≤ len p < 256) ps
  | ESignatureAlgorithms vs => Forall u16 vs
  | ESupportedVersions vs => Forall u16 vs ∧ 2 * len vs < 256
  | EOther id _ => id ∉ [0; 16; 13; 43]
  end.
Definition wf_chello (c : chello) : Prop := wf_hello (wire c) ∧ Forall wf_ext (c_exts c).

(** Of several extensions of a kind the last counts. *)
Definition last_some {A} (f : ext → option A) (es : list ext) : option A :=
  fold_left (λ acc e, match f e with Some a => Some a | None => acc end) es None.
Definition server_names (e : ext) : option (list (Z * bytes)) := match e with EServerName ns => Some ns | _ => None end.
Definition protocols (e : ext) : option (list bytes) := match e with EALPN ps => Some ps | _ => None end.
Definition signature_algorithms (e : ext) : option (list Z) := match e with ESignatureAlgorithms vs => Some vs | _ => None end.
Definition supported_versions (e : ext) : option (list Z) := match e with ESupportedVersions vs => Some vs | _ => None end.

(** The first entry that is a host name, the first protocol. *)
Fixpoint host_name (ns : list (Z * bytes)) : string :=
  match ns with [] => "" | (t, n) :: ns => if t =? 0 then str_of_bytes n else host_name ns end.
Definition hello_host (c : chello) : string := from_option host_name "" (last_some server_names (c_exts c)).
Definition hello_protocol (c : chello) : string :=
  from_option (λ ps, from_option str_of_bytes "" (head ps)) "" (last_some protocols (c_exts c)).

(** The sixteen reserved values (RFC 8701). *)
Definition grease : list Z :=
  [0x0a0a; 0x1a1a; 0x2a2a; 0x3a3a; 0x4a4a; 0x5a5a; 0x6a6a; 0x7a7a; 0x8a8a; 0x9a9a; 0xaaaa; 0xbaba; 0xcaca; 0xdada; 0xeaea; 0xfafa].
Definition meant (vs : list Z) : list Z := filter (λ v, v ∉ grease) vs.

(** The highest version offered, the legacy field if none is. *)
Definition hello_version (c : chello) : Z :=
  let offered := from_option (λ vs, foldr Z.max 0 (meant vs)) 0 (last_some supported_versions (c_exts c)) in
  if decide (offered = 0) then c_legacy c else offered.
Inductive version_name : Z → string → Prop :=
| vn_13 : version_name 0x0304 "1.3"
| vn_12 : version_name 0x0303 "1.2"
| vn_11 : version_name 0x0302 "1.1"
| vn_10 : version_name 0x0301 "1.0"
| vn_other v : v ∉ [0x0304; 0x0303; 0x0302; 0x0301] → version_name v ("0x" +:+ hex4 v).

(** The parts of the fingerprint. *)
Inductive ja4_version : Z → string → Prop :=
| jv_12 : ja4_version 0x0303 "12"
| jv_11 : ja4_version 0x0302 "11"
| jv_10 : ja4_version 0x0301 "10"
| jv_other v : v ∉ [0x0303; 0x0302; 0x0301] → ja4_version v "13".
Definition begins (s : string) (c : ascii) : Prop := ∃ t, s = String c t.
Definition ends (s : string) (c : ascii) : Prop := ∃ t, s = t +:+ String c "".
Definition alphanumeric (c : ascii) : Prop := 48 ≤ cZ c ≤ 57 ∨ 65 ≤ cZ c ≤ 90 ∨ 97 ≤ cZ c ≤ 122.
Inductive ja4_protocol : string → string → Prop :=
| jp_none : ja4_protocol "" "00"
| jp_plain s a z : begins s a → ends s z → alphanumeric a → alphanumeric z → ja4_protocol s (String a (String z ""))
| jp_hex s a z : begins s a → ends s z → ¬ (alphanumeric a ∧ alphanumeric z) →
    ja4_protocol s (String (hex_digit (cZ a / 16)) (String (hex_digit (cZ z mod 16)) "")).
Inductive digest (sha256_hex : string → string) : string → string → Prop :=
| dg_empty : digest sha256_hex "" "000000000000"
| dg_text s : s ≠ "" → digest sha256_hex s (str_take 12 (sha256_hex s)).
(** The values in hexadecimal, sorted as text, between commas. *)
Definition listed (vs : list Z) (text : string) : Prop :=
  ∃ l, l ≡ₚ map hex4 vs ∧ StronglySorted str_le l ∧ text = Join l ",".

Inductive fingerprint (sha256_hex : string → string) (c : chello) : string → Prop :=
| fingerprint_is ver proto ciphers exts b d :
    ja4_version (hello_version c) ver → ja4_protocol (hello_protocol c) proto →
    listed (meant (c_ciphers c)) ciphers → digest sha256_hex ciphers b →
    listed (filter (λ id, id ∉ [0; 16]) (meant (map ext_id (c_exts c)))) exts →
    digest sha256_hex
      (match from_option id [] (last_some signature_algorithms (c_exts c)) with
       | [] => exts
       | algs => exts +:+ "_" +:+ Join (map hex4 algs) ","
       end) d →
    fingerprint sha256_hex c
      ("t" +:+ ver +:+ (if decide (hello_host c = "") then "i" else "d") +:+
       dec2 (Z.min (len (meant (c_ciphers c))) 99) +:+ dec2 (Z.min (len (meant (map ext_id (c_exts c)))) 99) +:+
       proto +:+ "_" +:+ b +:+ "_" +:+ d).

Record understood (sha256_hex : string → string) (c : chello) (info : ClientHelloInfo) : Prop := {
  un_sni : SNI info = hello_host c;
  un_alpn : ALPN info = hello_protocol c;
  un_version : version_name (hello_version c) (TLSVersion info);
  un_ja4 : fingerprint sha256_hex c (JA4 info)
}.

(** *** GREASE *)
Lemma grease_byte h : 0 ≤ h < 256 → bool_decide (257 * h ∈ grease) = (Z.land (257 * h) 0x0f0f =? 0x0a0a).
Proof.
  intros Hh. assert (∃ x, h = bZ x) as [x ->] by (exists (Zb h); rewrite bZ_Zb, Z.mod_small; lia).
  by destruct x; vm_compute.
Qed.

Lemma isGREASE_grease v : u16 v → isGREASE v = bool_decide (v ∈ grease).
Proof.
  intros Hv. unfold u16 in Hv. unfold isGREASE. rewrite Z.shiftr_div_pow2 by lia. change (2 ^ 8) with 256.
  change 0xff with (Z.ones 8). rewrite Z.land_ones by lia. change (2 ^ 8) with 256.
  destruct (Z.eqb_spec (v / 256) (v mod 256)) as [He|Hne].
  - assert (v = 257 * (v / 256)) as E by (pose proof (Z.div_mod v 256); lia).
    rewrite andb_true_r. rewrite E. symmetry. apply grease_byte. split; [apply Z.div_pos|apply Z.div_lt_upper_bound]; lia.
  - rewrite andb_false_r. symmetry. apply bool_decide_eq_false. intros Hin.
    assert (Forall (λ w, w / 256 = w mod 256) grease) as Hall by (apply (bool_decide_unpack _); by vm_compute).
    rewrite Forall_forall in Hall. by apply Hne, Hall.
Qed.

Lemma ungreased_meant vs : Forall u16 vs → ungreased vs = meant vs.
Proof.
  induction 1 as [|v vs Hv _ IH]; [done|]. unfold ungreased, meant in *. cbn [List.filter]. rewrite filter_cons, IH.
  rewrite isGREASE_grease by done. case_bool_decide; case_decide; done.
Qed.

(** *** The bodies read back *)
Lemma last_some_snoc {A} (f : ext → option A) es e :
  last_some f (es ++ [e]) = match f e with Some a => Some a | None => last_some f es end.
Proof. unfold last_some. by rewrite fold_left_app. Qed.

Lemma ext_lookup_wire {A} t (f : ext → option A) (enc : A → bytes) es :
  (∀ e, wf_ext e → f e = None → ext_id e ≠ t) → (∀ e a, f e = Some a → ext_id e = t ∧ ext_body e = enc a) →
  Forall wf_ext es → ext_lookup t (map (λ e, (ext_id e, ext_body e)) es) = enc <$> last_some f es.
Proof.
  intros Hn Hs Hes. induction es as [|e es IH] using rev_ind; [done|]. apply Forall_app in Hes as [Hes He].
  inversion_clear He as [|? ? He' _]. rename He' into He. rewrite map_app, last_some_snoc. cbn [map]. rewrite ext_lookup_snoc. cbn [fst snd].
  destruct (f e) as [a|] eqn:E.
  - destruct (Hs e a E) as [-> ->]. by rewrite decide_True.
  - rewrite decide_False by (apply (Hn e); [exact He|exact E]). by apply IH.
Qed.

Lemma parseSNI_loop_names fuel ns : Forall (λ n, 0 ≤ n.1 < 256 ∧ len n.2 < 65536) ns → (length (enc_names ns) < fuel)%nat →
  parseSNI_loop fuel (enc_names ns) = Ret (host_name ns).
Proof.
  intros Hns. revert fuel. induction Hns as [|[t n] ns [Ht Hn] _ IH]; intros [|f] Hf; [simpl in Hf; lia|done|simpl in Hf; lia|].
  cbn [fst snd] in *. change (enc_names ((t, n) :: ns)) with (enc_name (t, n) ++ enc_names ns) in *.
  unfold enc_name in *. cbn [fst snd] in *. rewrite length_app in Hf. cbn [length] in Hf. rewrite length_app in Hf. cbn in Hf.
  cbn [parseSNI_loop]. rewrite (proj2 (Z.leb_le 3 _)) by (rewrite ?length_app; cbn; rewrite ?length_app; cbn; lia).
  rewrite at_cons. change (Zb t :: put_be16 (len n) ++ n) with ([Zb t] ++ put_be16 (len n) ++ n).
  rewrite <- !app_assoc. rewrite (u16_put_at [Zb t]), !ret_bind by (unfold u16; lia). rewrite bZ_Zb_small by done.
  assert (len ([Zb t] ++ put_be16 (len n) ++ n ++ enc_names ns) = 3 + len n + len (enc_names ns)) as El
    by (rewrite !length_app; cbn; lia). rewrite El.
  rewrite (proj2 (Z.leb_le (3 + len n) _)) by lia. cbn [host_name]. destruct (Z.eqb_spec t 0) as [->|]; cbn [andb].
  - rewrite 2!app_assoc, (upto_app _ (enc_names ns)), ret_bind by (rewrite !length_app; cbn; lia).
    rewrite <- app_assoc, app_assoc, from_app, ret_bind by done. done.
  - rewrite (proj2 (Z.ltb_ge _ _)) by lia. rewrite 2!app_assoc, from_app, ret_bind by (rewrite !length_app; cbn; lia).
    apply IH. lia.
Qed.

Lemma parseSNI_names ns : Forall (λ n, 0 ≤ n.1 < 256 ∧ len n.2 < 65536) ns →
  parseSNI (ext_body (EServerName ns)) = Ret (host_name ns).
Proof.
  intros Hns. unfold parseSNI, ext_body. rewrite (proj2 (Z.ltb_ge _ _)) by (rewrite length_app; cbn; lia).
  rewrite from_app, ret_bind by done. apply parseSNI_loop_names; [done|lia].
Qed.

Lemma parseFirstALPN_protos ps : Forall (λ p, 1 ≤ len p < 256) ps →
  parseFirstALPN (ext_body (EALPN ps)) = Ret (from_option str_of_bytes "" (head ps)).
Proof.
  intros Hps. unfold parseFirstALPN, ext_body. destruct Hps as [|p ps Hp _]; [done|].
  change (enc_protos (p :: ps)) with ((Zb (len p) :: p) ++ enc_protos ps).
  rewrite (proj2 (Z.ltb_ge _ _)) by (rewrite !length_app; cbn; lia). rewrite from_app, ret_bind by done.
  rewrite (proj2 (Z.ltb_ge _ 1)) by (rewrite length_app; cbn; lia). rewrite at_cons, ret_bind, bZ_Zb_small by lia.
  rewrite (proj2 (Z.ltb_ge _ _)) by (rewrite length_app; cbn; lia).
  rewrite upto_app, ret_bind by (cbn; lia). change (Zb (len p) :: p) with ([Zb (len p)] ++ p).
  by rewrite from_app, ret_bind by done.
Qed.

Lemma u16s_below_enc fuel p vs rest : Forall u16 vs → (length vs < fuel)%nat →
  u16s_below fuel (p ++ enc_u16s vs ++ rest) (len p) (len p + 2 * len vs) = Ret vs.
Proof.
  intros Hvs. revert fuel p. induction Hvs as [|v vs Hv Hvs IH]; intros [|f] p Hf; [simpl in Hf; lia| |simpl in Hf; lia|].
  - cbn [u16s_below]. rewrite (proj2 (Z.ltb_ge _ _)) by (cbn; lia). done.
  - cbn [u16s_below]. rewrite (proj2 (Z.ltb_lt _ _)) by (cbn [length]; lia).
    change (enc_u16s (v :: vs)) with (put_be16 v ++ enc_u16s vs). rewrite <- app_assoc, u16_put_at, ret_bind by done.
    specialize (IH f (p ++ put_be16 v)). rewrite <- app_assoc, length_app in IH. simpl length in *.
    replace (len p + 2 * Z.of_nat (S (length vs))) with (Z.of_nat (length p + 2) + 2 * len vs) by lia.
    replace (len p + 2) with (Z.of_nat (length p + 2)) by lia. by rewrite IH, ret_bind by lia.
Qed.

Lemma u16s_below_all fuel vs : Forall u16 vs → (length vs < fuel)%nat → u16s_below fuel (enc_u16s vs) 0 (2 * len vs) = Ret vs.
Proof. intros Hv Hf. pose proof (u16s_below_enc fuel [] vs [] Hv Hf) as E. by rewrite app_nil_r in E. Qed.

Lemma parseUint16List_algs vs : Forall u16 vs → 2 * len vs < 65536 →
  parseUint16List (ext_body (ESignatureAlgorithms vs)) = Ret vs.
Proof.
  intros Hv Hl. unfold parseUint16List, ext_body. rewrite (proj2 (Z.ltb_ge _ _)) by (rewrite length_app; cbn; lia).
  rewrite u16_put, ret_bind by (unfold u16; lia). rewrite from_app, ret_bind by done. pose proof (length_enc_u16s vs).
  rewrite (proj2 (Z.ltb_ge _ _)) by lia. apply u16s_below_all; [done|lia].
Qed.

Lemma highest_fold vs m : Forall u16 vs → 0 ≤ m →
  fold_left (λ maxv v, if isGREASE v then maxv else if maxv <? v then v else maxv) vs m = Z.max m (foldr Z.max 0 (meant vs)).
Proof.
  intros Hv. revert m. induction Hv as [|v vs Hv _ IH]; intros m Hm; cbn [fold_left]; [cbn; lia|]. unfold u16 in Hv.
  rewrite IH by (destruct (isGREASE v); [|zcase]; lia). rewrite isGREASE_grease by done. unfold meant. rewrite filter_cons.
  case_bool_decide; case_decide; try done. cbn [foldr]. zcase; lia.
Qed.

Lemma parseSupportedVersionsMax_offered vs : Forall u16 vs → 2 * len vs < 256 →
  parseSupportedVersionsMax (ext_body (ESupportedVersions vs)) = Ret (foldr Z.max 0 (meant vs)).
Proof.
  intros Hv Hl. unfold parseSupportedVersionsMax, ext_body. rewrite (proj2 (Z.ltb_ge _ _)) by (cbn; lia).
  change (Zb (2 * len vs) :: enc_u16s vs) with ([Zb (2 * len vs)] ++ enc_u16s vs).
  rewrite at_cons, ret_bind, from_app, ret_bind, bZ_Zb_small by (done || lia). pose proof (length_enc_u16s vs).
  rewrite (proj2 (Z.ltb_ge _ _)) by lia. rewrite u16s_below_all, ret_bind by (done || lia). rewrite highest_fold by done.
  f_equal. assert (∀ l, 0 ≤ foldr Z.max 0 l) as Hf by (induction l; cbn; lia). specialize (Hf (meant vs)). lia.
Qed.

Lemma last_some_in {A} (f : ext → option A) es a : last_some f es = Some a → ∃ e, e ∈ es ∧ f e = Some a.
Proof.
  induction es as [|e es IH] using rev_ind; [done|]. rewrite last_some_snoc. destruct (f e) as [b|] eqn:E.
  - intros [= <-]. exists e. split; [set_solver|done].
  - intros (e' & ? & ?)%IH. exists e'. split; [set_solver|done].
Qed.

Lemma from_last {A B} (f : ext → option A) (enc : A → bytes) (g : bytes → outcome B) (h : A → B) d t es :
  (∀ e, wf_ext e → f e = None → ext_id e ≠ t) → (∀ e a, f e = Some a → ext_id e = t ∧ ext_body e = enc a) →
  (∀ e a, e ∈ es → f e = Some a → g (enc a) = Ret (h a)) → Forall wf_ext es →
  from_option (λ b, value d (g b)) d (ext_lookup t (map (λ e, (ext_id e, ext_body e)) es)) = from_option h d (last_some f es).
Proof.
  intros Hn Hs Hg Hes. rewrite (ext_lookup_wire t f enc) by done. destruct (last_some f es) as [a|] eqn:E; [|done]. cbn.
  apply last_some_in in E as (e & He & Hf). by rewrite (Hg e a He Hf).
Qed.

Section read_back.
Context (c : chello) (Hwf : wf_chello c).

Lemma wf_in e : e ∈ c_exts c → wf_ext e ∧ len (ext_body e) < 65536.
Proof.
  destruct Hwf as [[_ _ _ _ _ _ Hx _] Hes]. intros He. split; [by apply (proj1 (Forall_forall wf_ext (c_exts c)) Hes)|].
  apply (proj1 (Forall_forall _ (h_exts (wire c))) Hx (ext_id e, ext_body e)). cbn. apply list_elem_of_fmap. by exists e.
Qed.

Ltac other e := intros e He Hf; destruct e; try done; cbn in *; intros ->; by apply He; set_solver.
Ltac same e := intros e a Hf; destruct e; try done; by injection Hf as <-.

Lemma read_host : hello_sni (h_exts (wire c)) = hello_host c.
Proof.
  apply (from_last server_names (λ ns, ext_body (EServerName ns)) parseSNI host_name "" 0x0000).
  - other e.
  - same e.
  - intros e a He Hf. destruct e; try done. injection Hf as <-. apply parseSNI_names. by apply wf_in in He as [He _].
  - apply Hwf.
Qed.
Lemma read_protocol : hello_alpn (h_exts (wire c)) = hello_protocol c.
Proof.
  apply (from_last protocols (λ ps, ext_body (EALPN ps)) parseFirstALPN (λ ps, from_option str_of_bytes "" (head ps)) "" 0x0010).
  - other e.
  - same e.
  - intros e a He Hf. destruct e; try done. injection Hf as <-. apply parseFirstALPN_protos. by apply wf_in in He as [He _].
  - apply Hwf.
Qed.
Lemma read_algs : hello_sigs (h_exts (wire c)) = from_option id [] (last_some signature_algorithms (c_exts c)).
Proof.
  apply (from_last signature_algorithms (λ vs, ext_body (ESignatureAlgorithms vs)) parseUint16List id [] 0x000d).
  - other e.
  - same e.
  - intros e a He Hf. destruct e; try done. injection Hf as <-. apply wf_in in He as [He Hl]. apply parseUint16List_algs; [done|].
    cbn [ext_body] in Hl. rewrite length_app, Nat2Z.inj_add, length_enc_u16s in Hl. unfold id. lia.
  - apply Hwf.
Qed.
Lemma read_version : pickVersion (h_legacy (wire c)) (hello_vermax (h_exts (wire c))) = hello_version c.
Proof.
  assert (hello_vermax (h_exts (wire c)) = from_option (λ vs, foldr Z.max 0 (meant vs)) 0 (last_some supported_versions (c_exts c))) as ->.
  { apply (from_last supported_versions (λ vs, ext_body (ESupportedVersions vs)) parseSupportedVersionsMax
      (λ vs, foldr Z.max 0 (meant vs)) 0 0x002b).
    - other e.
    - same e.
    - intros e a He Hf. destruct e; try done. injection Hf as <-. apply wf_in in He as [[] _]. by apply parseSupportedVersionsMax_offered.
    - apply Hwf. }
  unfold pickVersion, hello_version. cbn. zcase; case_decide; done.
Qed.
Lemma read_ids : ungreased (h_exts (wire c)).*1 = meant (map ext_id (c_exts c)).
Proof.
  assert ((h_exts (wire c)).*1 = map ext_id (c_exts c)) as E by (cbn; rewrite <- list_fmap_compose; done).
  rewrite ungreased_meant; [by rewrite E|]. destruct Hwf as [[_ _ _ _ _ _ Hx _] _]. apply Forall_fmap.
  eapply Forall_impl; [exact Hx|]. by intros e [? _].
Qed.
End read_back.

Lemma versionString_name v : version_name v (versionString v).
Proof.
  unfold versionString. destruct (Z.eqb_spec v 0x0304) as [->|]; [constructor|].
  destruct (Z.eqb_spec v 0x0303) as [->|]; [constructor|]. destruct (Z.eqb_spec v 0x0302) as [->|]; [constructor|].
  destruct (Z.eqb_spec v 0x0301) as [->|]; [constructor|]. apply vn_other. set_solver.
Qed.
Lemma ja4_version_of v :
  ja4_version v (if String.eqb (versionString v) "1.2" then "12" else if String.eqb (versionString v) "1.1" then "11"
                 else if String.eqb (versionString v) "1.0" then "10" else "13").
Proof.
  unfold versionString. destruct (Z.eqb_spec v 0x0304) as [->|]; [apply jv_other; set_solver|].
  destruct (Z.eqb_spec v 0x0303) as [->|]; [constructor|]. destruct (Z.eqb_spec v 0x0302) as [->|]; [constructor|].
  destruct (Z.eqb_spec v 0x0301) as [->|]; [constructor|]. apply jv_other. set_solver.
Qed.

Lemma isAlnum_alphanumeric c : isAlnum (cZ c) = true ↔ alphanumeric c.
Proof. unfold isAlnum, alphanumeric. rewrite !orb_true_iff, !andb_true_iff, !Z.leb_le. tauto. Qed.

Lemma split_last s : s ≠ "" → ∃ t z, s = t +:+ String z "".
Proof.
  induction s as [|a s IH]; [done|]. intros _. destruct s as [|b s]; [by exists "", a|].
  destruct IH as (t & z & E); [done|]. exists (String a t), z. cbn. by rewrite <- E.
Qed.

Lemma hex_encode_ends s a z : begins s a → ends s z →
  ∃ m, hex_encode (bytes_of_str s) = String (hex_digit (cZ a / 16)) m ∧
    ∃ m', hex_encode (bytes_of_str s) = m' +:+ String (hex_digit (cZ z mod 16)) "".
Proof.
  assert (∀ c, bZ (byte_of_ascii c) = cZ c) as Hb by (intros c; by destruct c as [[] [] [] [] [] [] [] []]).
  intros [t ->] [u Hu]. cbn. eexists. split; [by rewrite Hb|]. clear - Hu Hb. revert a t Hu.
  induction u as [|x u IH]; intros a t Hu; cbn in Hu; injection Hu as -> ->.
  - exists (String (hex_digit (bZ (byte_of_ascii z) / 16)) ""). cbn. by rewrite Hb.
  - destruct u as [|y u]; cbn in *.
    + eexists (String _ (String _ (String _ ""))). cbn. by rewrite !Hb.
    + destruct (IH y (u +:+ String z "") eq_refl) as [m' E]. exists (String (hex_digit (bZ (byte_of_ascii x) / 16))
        (String (hex_digit (bZ (byte_of_ascii x) mod 16)) m')). cbn. by rewrite <- E.
Qed.

Lemma ja4_alpn_protocol s : ja4_protocol s (ja4_alpn s).
Proof.
  destruct s as [|a s]; [apply jp_none|]. destruct (split_last (String a s)) as (t & z & E); [done|].
  assert (str_drop (String.length (String a s) - 1) (String a s) = String z "") as Hl.
  { rewrite E, str_length_app. cbn [String.length]. replace (String.length t + 1 - 1)%nat with (String.length t) by lia.
    apply str_drop_app. }
  unfold ja4_alpn. rewrite Hl. destruct (isAlnum (cZ a) && isAlnum (cZ z)) eqn:Eb.
  - apply andb_prop in Eb as [Ha%isAlnum_alphanumeric Hz%isAlnum_alphanumeric]. apply jp_plain; [by exists s|by exists t|done|done].
  - destruct (hex_encode_ends (String a s) a z) as (m & E1 & m' & E2); [by exists s|by exists t|].
    assert (str_take 1 (hex_encode (bytes_of_str (String a s))) = String (hex_digit (cZ a / 16)) "") as -> by (by rewrite E1).
    assert (str_drop (String.length (hex_encode (bytes_of_str (String a s))) - 1) (hex_encode (bytes_of_str (String a s)))
      = String (hex_digit (cZ z mod 16)) "") as ->.
    { rewrite E2, str_length_app. cbn [String.length]. replace (String.length m' + 1 - 1)%nat with (String.length m') by lia.
      apply str_drop_app. }
    apply jp_hex; [by exists s|by exists t|]. intros [Ha%isAlnum_alphanumeric Hz%isAlnum_alphanumeric]. by rewrite Ha, Hz in Eb.
Qed.

Lemma sha12_digest sha s : digest sha s (sha12 sha s).
Proof. unfold sha12. destruct (String.eqb_spec s "") as [->|]; [apply dg_empty|by apply dg_text]. Qed.

Lemma sortedHex_listed vs : listed vs (Join (sortedHex vs) ",").
Proof.
  exists (sortedHex vs). unfold sortedHex, hexList. split; [apply merge_sort_Permutation|]. split; [|done].
  apply StronglySorted_merge_sort; apply _.
Qed.

Lemma filter_ids ids : List.filter (λ e, negb ((e =? 0x0000) || (e =? 0x0010))) ids = filter (λ id, id ∉ [0; 16]) ids.
Proof.
  induction ids as [|e ids IH]; [done|]. cbn [List.filter]. rewrite filter_cons, IH.
  destruct (Z.eqb_spec e 0), (Z.eqb_spec e 16); case_decide; set_solver.
Qed.

(** C24. The peek reads what the client said. A ClientHello is described by its version,
    ciphers and typed extensions (server names, ALPN protocols, signature algorithms,
    supported versions, others). For every well-formed one, parsing its TLS record
    returns the host it names, its first protocol, the name of the highest version it
    offers without GREASE (the legacy field if none), and the JA4 fingerprint: version,
    server-name flag, counts and protocol mark, then digests of the sorted ciphers and
    of the sorted extensions with the signature algorithms, GREASE left out, as
    [fingerprint] says. *)
Theorem parseClientHello_encoded sha c : wf_chello c →
  ∃ info, parseClientHello sha (enc_record (wire c)) = Ret info ∧ understood sha c info.
Proof.
  intros Hwf. exists (hello_info sha (wire c)). split; [by apply parseClientHello_enc_record, Hwf|].
  pose proof (read_version c Hwf) as Hv.
  split; cbn [SNI ALPN TLSVersion JA4 hello_info].
  - by apply read_host.
  - by apply read_protocol.
  - rewrite Hv. apply versionString_name.
  - rewrite Hv, read_host, read_protocol, read_algs, read_ids by done.
    assert (ungreased (h_ciphers (wire c)) = meant (c_ciphers c)) as -> by (apply ungreased_meant, Hwf).
    unfold computeJA4, minExt. cbn [SNI ALPN TLSVersion JA4]. rewrite filter_ids.
    pose proof (fingerprint_is sha c _ _ _ _ _ _ (ja4_version_of (hello_version c)) (ja4_alpn_protocol (hello_protocol c))
      (sortedHex_listed _) (sha12_digest sha _) (sortedHex_listed _) (sha12_digest sha _)) as Hfp.
    rewrite !str_app_assoc. unfold hexList.
    destruct (from_option id [] (last_some signature_algorithms (c_exts c)));
      (destruct (String.eqb_spec (hello_host c) ""); [rewrite decide_True in Hfp by done|rewrite decide_False in Hfp by done]);
      exact Hfp.
Qed.

(** ** Witnesses

    A ClientHello for ab.example.org with a GREASE cipher and extension, and
    the same one with its ciphers and extensions in another order. *)
Definition sample_sni : bytes := bytes_of_str "ab.example.org".
Definition sample_chello : chello := {|
  c_legacy := 0x0303; c_random := replicate 32 x07; c_session := [x01; x02];
  c_ciphers := [0x0a0a; 0x1301; 0x1302; 0xc02b]; c_compression := [x00];
  c_exts := [EOther 0x1a1a []; ESupportedVersions [0x0304; 0x0303]; EServerName [(0, sample_sni)];
             EALPN [bytes_of_str "h2"]; ESignatureAlgorithms [0x0403; 0x0804]]
|}.
Definition sample_hello : hello := wire sample_chello.
Definition sample_hello_shuffled : hello := {|
  h_legacy := 0x0303; h_random := replicate 32 x09; h_session := [];
  h_ciphers := [0x1302; 0x0a0a; 0xc02b; 0x1301]; h_compression := [x00];
  h_exts := [(0x0000, enc_sni sample_sni); (0x000d, [x00; x04; x04; x03; x08; x04]); (0x1a1a, []);
             (0x0010, [x00; x03; x02; x68; x32]); (0x002b, [x04; x03; x04; x03; x03])]
|}.
Definition toy_sha (s : string) : string := hex_encode (bytes_of_str s).

Lemma sample_wf : wf_hello sample_hello.
Proof. constructor; simpl; repeat constructor; unfold u16; simpl; lia. Qed.

Lemma sample_shuffled_wf : wf_hello sample_hello_shuffled.
Proof. constructor; simpl; repeat constructor; unfold u16; simpl; lia. Qed.

Lemma parseClientHello_encoded_witness :
  ∃ info, parseClientHello toy_sha (enc_record (wire sample_chello)) = Ret info ∧
    hello_host sample_chello = "ab.example.org" ∧ understood toy_sha sample_chello info.
Proof.
  destruct (parseClientHello_encoded toy_sha sample_chello) as (info & H1 & H2).
  - split; [apply sample_wf|]. repeat constructor; unfold u16; cbn; try lia. set_solver.
  - exists info. split; [exact H1|]. split; [vm_compute; reflexivity|exact H2].
Defined.

Lemma parseClientHello_sni_witness :
  ∃ info, parseClientHello toy_sha (enc_record sample_hello) = Ret info ∧ SNI info = str_of_bytes sample_sni.
Proof.
  apply (parseClientHello_sni toy_sha sample_hello
           [(0x1a1a, []); (0x002b, [x04; x03; x04; x03; x03])]
           [(0x0010, [x00; x03; x02; x68; x32]); (0x000d, [x00; x04; x04; x03; x08; x04])]).
  - apply sample_wf.
  - reflexivity.
  - apply (bool_decide_unpack _). by vm_compute.
  - by vm_compute.
Defined.

Lemma JA4_stable_witness :
  parseClientHello toy_sha (enc_record sample_hello) =
  parseClientHello toy_sha (enc_record sample_hello_shuffled).
Proof.
  apply (JA4_stable_under_reordering toy_sha sample_hello sample_hello_shuffled).
  - apply sample_wf.
  - apply sample_shuffled_wf.
  - reflexivity.
  - apply (bool_decide_unpack _). by vm_compute.
  - apply (bool_decide_unpack _). by vm_compute.
  - apply (bool_decide_unpack _). by vm_compute.
Defined.
End ClientHello.
