(* ===== verification/Valkey.v ===== *)
(** * Valkey and its client

    Valkey (the Redis server tunneld keeps its transient state in) is not part
    of the repository.  [ValkeyServer] is the interface the code is written
    against: a server state, the entry a key holds at an instant, and the
    execution of one command.  [ValkeyLaws] is what the documentation promises:
    each command's reply and its effect on its own key ([cmd_spec]), that it
    leaves the other keys alone, and that a key disappears when its deadline
    passes.  [MemServer] is a concrete server with these laws, for witnesses.

    The client side is the [world] the Go code runs in: two clocks (the node's
    and the server's), the server, a script of what happens around each command
    (time passes, other clients run commands, the connection fails before or
    after the command reached the server), and the supply of random tokens. *)
From Stdlib Require Import ZArith Lia Ascii String.
From S2P Require Import Prelude GoStr.
Local Open Scope string_scope.
Local Open Scope list_scope.
Local Open Scope Z_scope.

Module Valkey.

(** ** Data *)
Inductive vval :=
| VStr (s : string)
| VHash (h : gmap string string)
| VZSet (z : gmap string Z)      (* member -> score, a time in milliseconds *)
| VSet (s : gset string).

Record entry := Entry {
  e_val : vval;
  e_exp : option Z               (* absolute deadline, server milliseconds *)
}.

(** Durations are the client's arguments, in nanoseconds. *)
Inductive vcmd :=
| Get (k : string)
| Set_ (k v : string) (d : Z)
| SetNX (k v : string) (d : Z)
| Del (k : string)
| IncrBy (k : string) (n : Z)
| PExpire (k : string) (d : Z)
| ExpireNX (k : string) (d : Z)
| ExpireGT (k : string) (d : Z)
| PTTL (k : string)
| HGet (k f : string)
| HMGet (k : string) (fs : list string)
| HSet (k : string) (fvs : list (string * string))
| HIncrBy (k f : string) (n : Z)
| ZAdd (k : string) (score : Z) (m : string)
| ZAddXX (k : string) (score : Z) (m : string)
| ZRem (k m : string)
| ZCard (k : string)
| ZCount (k : string) (lo : Z)                 (* scores in [lo, +inf] *)
| ZRemRangeByScore (k : string) (hi : Z)       (* scores in [-inf, hi] *)
| SAdd (k m : string)
| SRem (k : string) (ms : list string)
| SMembers (k : string)
| MGet (ks : list string).

Inductive vreply :=
| RNil
| ROk
| RStr (s : string)
| RInt (n : Z)
| RBool (b : bool)
| RStrs (l : list (option string))
| RErr.                                        (* an error reply of the server *)

(** The key of a command; [MGet] reads several. *)
Definition cmd_key (c : vcmd) : option string :=
  match c with
  | Get k | Set_ k _ _ | SetNX k _ _ | Del k | IncrBy k _ | PExpire k _ | ExpireNX k _
  | ExpireGT k _ | PTTL k | HGet k _ | HMGet k _ | HSet k _ | HIncrBy k _ _ | ZAdd k _ _
  | ZAddXX k _ _ | ZRem k _ | ZCard k | ZCount k _ | ZRemRangeByScore k _ | SAdd k _
  | SRem k _ | SMembers k => Some k
  | MGet _ => None
  end.

(** ** Documented behaviour of one command on its key

    [sec_ms] and [prec_ms] are the milliseconds the client asks for when it
    sends a duration as seconds (EXPIRE) or as milliseconds (PEXPIRE, SET PX).
    A collection that becomes empty is removed, and so is a key whose new
    deadline is not in the future. *)
Definition zset_entry (z : gmap string Z) (ex : option Z) : option entry :=
  if decide (z = ∅) then None else Some (Entry (VZSet z) ex).
Definition set_entry (s : gset string) (ex : option Z) : option entry :=
  if decide (s = ∅) then None else Some (Entry (VSet s) ex).
Definition with_deadline (now at_ : Z) (v : vval) : option entry :=
  if at_ <=? now then None else Some (Entry v (Some at_)).

Definition incr_string (old : string) (n : Z) : option Z :=
  match ParseInt old with
  | Ok m => if (min_int64 <=? m + n) && (m + n <=? max_int64) then Some (m + n) else None
  | Err _ => None
  end.

Definition hash_of (e : option entry) : option (gmap string string * option Z) :=
  match e with
  | None => Some (∅, None)
  | Some (Entry (VHash h) ex) => Some (h, ex)
  | Some _ => None
  end.
Definition zset_of (e : option entry) : option (gmap string Z * option Z) :=
  match e with
  | None => Some (∅, None)
  | Some (Entry (VZSet z) ex) => Some (z, ex)
  | Some _ => None
  end.
Definition set_of (e : option entry) : option (gset string * option Z) :=
  match e with
  | None => Some (∅, None)
  | Some (Entry (VSet s) ex) => Some (s, ex)
  | Some _ => None
  end.

Section documented.
Variables (sec_ms prec_ms : Z → Z).

Definition cmd_spec (now : Z) (c : vcmd) (e : option entry) : vreply * option entry :=
  match c with
  | Get _ =>
      (match e with None => RNil | Some (Entry (VStr s) _) => RStr s | _ => RErr end, e)
  | Set_ _ v d => (ROk, with_deadline now (now + prec_ms d) (VStr v))
  | SetNX _ v d =>
      match e with
      | None => (RBool true, with_deadline now (now + prec_ms d) (VStr v))
      | Some _ => (RBool false, e)
      end
  | Del _ => (RInt (match e with Some _ => 1 | None => 0 end), None)
  | IncrBy _ n =>
      match e with
      | None => (RInt n, Some (Entry (VStr (FormatInt n)) None))
      | Some (Entry (VStr s) ex) =>
          match incr_string s n with
          | Some m => (RInt m, Some (Entry (VStr (FormatInt m)) ex))
          | None => (RErr, e)
          end
      | Some _ => (RErr, e)
      end
  | PExpire _ d =>
      match e with
      | None => (RBool false, None)
      | Some (Entry v _) => (RBool true, with_deadline now (now + prec_ms d) v)
      end
  | ExpireNX _ d =>
      match e with
      | Some (Entry v None) => (RBool true, with_deadline now (now + sec_ms d) v)
      | _ => (RBool false, e)
      end
  | ExpireGT _ d =>
      match e with
      | Some (Entry v (Some ex)) =>
          if ex <? now + sec_ms d then (RBool true, with_deadline now (now + sec_ms d) v)
          else (RBool false, e)
      | _ => (RBool false, e)
      end
  | PTTL _ =>
      (RInt match e with
            | None => -2
            | Some (Entry _ None) => -1
            | Some (Entry _ (Some ex)) => ex - now
            end, e)
  | HGet _ f =>
      (match hash_of e with
       | Some (h, _) => match h !! f with Some v => RStr v | None => RNil end
       | None => RErr
       end, e)
  | HMGet _ fs =>
      (match hash_of e with Some (h, _) => RStrs (map (λ f, h !! f) fs) | None => RErr end, e)
  | HSet _ fvs =>
      match hash_of e with
      | Some (h, ex) =>
          let h' := fold_left (λ h fv, <[fv.1 := fv.2]> h) fvs h in
          (RInt (Z.of_nat (size h' - size h)), Some (Entry (VHash h') ex))
      | None => (RErr, e)
      end
  | HIncrBy _ f n =>
      match hash_of e with
      | Some (h, ex) =>
          match incr_string (default "0" (h !! f)) n with
          | Some m => (RInt m, Some (Entry (VHash (<[f := FormatInt m]> h)) ex))
          | None => (RErr, e)
          end
      | None => (RErr, e)
      end
  | ZAdd _ sc m =>
      match zset_of e with
      | Some (z, ex) =>
          (RInt (match z !! m with Some _ => 0 | None => 1 end), zset_entry (<[m := sc]> z) ex)
      | None => (RErr, e)
      end
  | ZAddXX _ sc m =>
      match zset_of e with
      | Some (z, ex) =>
          (RInt 0, match z !! m with Some _ => zset_entry (<[m := sc]> z) ex | None => e end)
      | None => (RErr, e)
      end
  | ZRem _ m =>
      match zset_of e with
      | Some (z, ex) =>
          (RInt (match z !! m with Some _ => 1 | None => 0 end), zset_entry (delete m z) ex)
      | None => (RErr, e)
      end
  | ZCard _ =>
      (match zset_of e with Some (z, _) => RInt (Z.of_nat (size z)) | None => RErr end, e)
  | ZCount _ lo =>
      (match zset_of e with
       | Some (z, _) => RInt (Z.of_nat (size (filter (λ ms, lo ≤ ms.2) z)))
       | None => RErr
       end, e)
  | ZRemRangeByScore _ hi =>
      match zset_of e with
      | Some (z, ex) =>
          let z' := filter (λ ms, ¬ ms.2 ≤ hi) z in
          (RInt (Z.of_nat (size z - size z')), zset_entry z' ex)
      | None => (RErr, e)
      end
  | SAdd _ m =>
      match set_of e with
      | Some (s, ex) => (RInt (if decide (m ∈ s) then 0 else 1), set_entry ({[m]} ∪ s) ex)
      | None => (RErr, e)
      end
  | SRem _ ms =>
      match set_of e with
      | Some (s, ex) =>
          let s' := s ∖ list_to_set ms in
          (RInt (Z.of_nat (size s - size s')), set_entry s' ex)
      | None => (RErr, e)
      end
  | SMembers _ =>
      (match set_of e with Some (s, _) => RStrs (map Some (elements s)) | None => RErr end, e)
  | MGet _ => (RErr, e)
  end.
End documented.

Definition expire (now : Z) (e : option entry) : option entry :=
  match e with
  | Some (Entry _ (Some ex)) => if ex <=? now then None else e
  | _ => e
  end.

(** The string value of a key, as MGET reports it. *)
Definition entry_string (e : option entry) : option string :=
  match e with Some (Entry (VStr s) _) => Some s | _ => None end.

(** ** The interface *)
Class ValkeyServer (S : Type) := {
  look : S → Z → string → option entry;
  exec : Z → vcmd → S → vreply * S;
  sec_ms : Z → Z;
  prec_ms : Z → Z
}.

Class ValkeyLaws (S : Type) `{ValkeyServer S} : Prop := {
  law_reply : ∀ now c s k, cmd_key c = Some k →
    (exec now c s).1 = (cmd_spec sec_ms prec_ms now c (look s now k)).1;
  law_effect : ∀ now c s k, cmd_key c = Some k →
    look (exec now c s).2 now k = (cmd_spec sec_ms prec_ms now c (look s now k)).2;
  law_frame : ∀ now c s k t, cmd_key c ≠ Some k → look (exec now c s).2 t k = look s t k;
  law_mget : ∀ now ks s,
    (exec now (MGet ks) s).1 = RStrs (map (λ k, entry_string (look s now k)) ks);
  law_time : ∀ s now now' k, now ≤ now' → look s now' k = expire now' (look s now k);
  law_sec : ∀ n, 0 ≤ n → sec_ms (n * second) = n * 1000;
  law_sec_mono : ∀ d d', d ≤ d' → sec_ms d ≤ sec_ms d';
  law_prec : ∀ n, 0 ≤ n → prec_ms (n * millisecond) = n
}.

(** ** A concrete server *)
Record mem_server := MemServer { mem : gmap string entry }.

Definition mem_exec (now : Z) (c : vcmd) (s : mem_server) : vreply * mem_server :=
  match c with
  | MGet ks => (RStrs (map (λ k, entry_string (expire now (mem s !! k))) ks), s)
  | _ =>
      match cmd_key c with
      | Some k =>
          let '(r, e') := cmd_spec (λ d, d / second * 1000) (λ d, d / millisecond) now c
                            (expire now (mem s !! k)) in
          (r, MemServer (match e' with Some e => <[k := e]> (mem s) | None => delete k (mem s) end))
      | None => (RErr, s)
      end
  end.

#[export] Instance mem_valkey : ValkeyServer mem_server := {
  look s now k := expire now (mem s !! k);
  exec := mem_exec;
  sec_ms d := d / second * 1000;
  prec_ms d := d / millisecond
}.

Lemma expire_mono now now' e : now ≤ now' → expire now' e = expire now' (expire now e).
Proof.
  intros Hle. destruct e as [[v [ex|]]|]; try done. simpl.
  destruct (Z.leb_spec ex now); simpl; [|done]. zcase. done.
Qed.

Lemma expire_idem now e : expire now (expire now e) = expire now e.
Proof. symmetry. apply expire_mono. lia. Qed.

Lemma with_deadline_live now at_ v : expire now (with_deadline now at_ v) = with_deadline now at_ v.
Proof. unfold with_deadline. destruct (Z.leb_spec at_ now); simpl; [done|]. zcase. done. Qed.

Lemma zset_entry_live now z ex v : expire now (Some (Entry v ex)) = Some (Entry v ex) →
  expire now (zset_entry z ex) = zset_entry z ex.
Proof. unfold zset_entry. case_decide; [done|]. destruct ex; simpl; [|done]. zcase; done. Qed.

Lemma set_entry_live now z ex v : expire now (Some (Entry v ex)) = Some (Entry v ex) →
  expire now (set_entry z ex) = set_entry z ex.
Proof. unfold set_entry. case_decide; [done|]. destruct ex; simpl; [|done]. zcase; done. Qed.

(** A command leaves a live entry live. *)
Lemma cmd_spec_live sm pm now c e :
  expire now e = e → expire now (cmd_spec sm pm now c e).2 = (cmd_spec sm pm now c e).2.
Proof.
  intros He.
  assert (∀ v ex, e = Some (Entry v ex) → ∀ v', expire now (Some (Entry v' ex)) = Some (Entry v' ex)) as Hv.
  { intros v ex -> v'. destruct ex; simpl in *; [|done]. destruct (Z.leb_spec z now); done. }
  pose proof (with_deadline_live now) as Hd.
  pose proof (λ z, zset_entry_live now z None (VStr "") eq_refl) as Hz.
  pose proof (λ z, set_entry_live now z None (VStr "") eq_refl) as Hs.
  pose proof (λ z ex, zset_entry_live now z ex (VStr "")) as Hz'.
  pose proof (λ z ex, set_entry_live now z ex (VStr "")) as Hs'.
  pose proof ((λ v, eq_refl) : ∀ v, expire now (Some (Entry v None)) = Some (Entry v None)) as Hn.
  destruct e as [[v ex]|].
  - specialize (Hv v ex eq_refl). specialize (λ z, Hz' z ex (Hv _)). specialize (λ z, Hs' z ex (Hv _)).
    assert (expire now None = None) as H0 by done. revert He Hv Hd Hz Hs Hz' Hs' Hn H0.
    generalize (expire now). intros f He Hv Hd Hz Hs Hz' Hs' Hn H0.
    destruct c; simpl; auto; destruct v; simpl; auto; repeat (case_match; simpl; auto).
  - destruct c; simpl; auto; repeat (case_match; simpl; auto).
Qed.

Lemma mem_exec_key now c s k : cmd_key c = Some k →
  mem_exec now c s =
    let '(r, e') := cmd_spec (λ d, d / second * 1000) (λ d, d / millisecond) now c
                      (expire now (mem s !! k)) in
    (r, MemServer (match e' with Some e => <[k := e]> (mem s) | None => delete k (mem s) end)).
Proof. destruct c; simpl; by intros; simplify_eq. Qed.

#[export] Instance mem_laws : ValkeyLaws mem_server.
Proof.
  split; simpl.
  - intros now c s k Hk. rewrite (mem_exec_key _ _ _ _ Hk). by case_match.
  - intros now c s k Hk. rewrite (mem_exec_key _ _ _ _ Hk).
    pose proof (cmd_spec_live (λ d, d / second * 1000) (λ d, d / millisecond) now c
                  (expire now (mem s !! k)) (expire_idem _ _)) as Hl.
    destruct (cmd_spec _ _ _ _ _) as [r [e'|]]; simpl in *.
    + by rewrite lookup_insert_eq.
    + by rewrite lookup_delete_eq.
  - intros now c s k t Hk. destruct (cmd_key c) as [k'|] eqn:E.
    + rewrite (mem_exec_key _ _ _ _ E). destruct (cmd_spec _ _ _ _ _) as [r [e'|]]; simpl;
        by rewrite ?lookup_insert_ne, ?lookup_delete_ne by congruence.
    + by destruct c.
  - done.
  - intros. by apply expire_mono.
  - intros n Hn. rewrite Z.div_mul; done.
  - intros d d' Hd. apply Z.mul_le_mono_nonneg_r; [done|]. by apply Z.div_le_mono.
  - intros n Hn. rewrite Z.div_mul; done.
Qed.

(** ** The client's world *)

(** What happens around one command: time passes on both clocks, other clients
    get their commands in, and the connection may fail, with the command lost
    ([Some false]) or only its reply ([Some true]). *)
Record tick := Tick {
  tk_ns : N;
  tk_ms : N;
  tk_others : list vcmd;
  tk_fault : option bool
}.
Definition quiet_tick : tick := Tick 0 0 [] None.

Record world (S : Type) := World {
  w_now : Z;               (* the node's clock, nanoseconds *)
  w_vms : Z;               (* the server's clock, milliseconds *)
  w_srv : S;
  w_ticks : list tick;     (* the script; [quiet_tick] when it runs out *)
  w_minted : nat;          (* random tokens taken so far *)
  w_done : option Z        (* when the request's context is cancelled *)
}.
Arguments World {S} _ _ _ _ _ _.
Arguments w_now {S} _.
Arguments w_vms {S} _.
Arguments w_srv {S} _.
Arguments w_ticks {S} _.
Arguments w_minted {S} _.
Arguments w_done {S} _.

(** go-redis reports a missing value as [redis.Nil]. *)
Inductive rerr := RedisNil | RedisErr.

Definition reply_err (r : vreply) : option rerr :=
  match r with RNil => Some RedisNil | RErr => Some RedisErr | _ => None end.

Definition M (S A : Type) : Type := world S → A * world S.
Definition ret {S A} (a : A) : M S A := λ w, (a, w).
Definition bind {S A B} (c : M S A) (k : A → M S B) : M S B :=
  λ w, let '(a, w') := c w in k a w'.
End Valkey.

Notation "'let*' x := c 'in' k" := (Valkey.bind c (λ x, k))
  (at level 10, x pattern, c at level 200, k at level 200).

Module ValkeyClient.
Export Valkey.
Section client.
Context {S : Type} `{ValkeyServer S}.

Definition run_others (ms : Z) (cs : list vcmd) (s : S) : S :=
  fold_left (λ s c, (exec ms c s).2) cs s.

(** Send one command; [None] when the connection failed. *)
Definition send (c : vcmd) : M S (option vreply) := λ w,
  let tk := match w_ticks w with t :: _ => t | [] => quiet_tick end in
  let now := w_now w + Z.of_N (tk_ns tk) in
  let vms := w_vms w + Z.of_N (tk_ms tk) in
  let s := run_others vms (tk_others tk) (w_srv w) in
  let '(r, s') := exec vms c s in
  let w' s := World now vms s (tail (w_ticks w)) (w_minted w) (w_done w) in
  match tk_fault tk with
  | Some false => (None, w' s)
  | Some true => (None, w' s')
  | None => (Some r, w' s')
  end.

(** A single-command call, with go-redis's error. *)
Definition call (c : vcmd) : M S (result rerr vreply) :=
  let* r := send c in
  ret match r with
      | None => Err RedisErr
      | Some r => match reply_err r with Some e => Err e | None => Ok r end
      end.

(** A pipeline: the commands in order, up to the first connection failure. *)
Fixpoint pipe (cs : list vcmd) : M S (option (list vreply)) :=
  match cs with
  | [] => ret (Some [])
  | c :: cs' =>
      let* r := send c in
      match r with
      | None => ret None
      | Some r =>
          let* rs := pipe cs' in
          ret match rs with None => None | Some rs => Some (r :: rs) end
      end
  end.

(** The error [pipe.Exec] returns: the connection's, or the first reply's. *)
Fixpoint first_err (rs : list vreply) : option rerr :=
  match rs with
  | [] => None
  | r :: rs' => match reply_err r with Some e => Some e | None => first_err rs' end
  end.

Definition pipeline (cs : list vcmd) : M S (result rerr (list vreply)) :=
  let* rs := pipe cs in
  ret match rs with
      | None => Err RedisErr
      | Some rs => match first_err rs with Some e => Err e | None => Ok rs end
      end.

Definition now : M S Z := λ w, (w_now w, w).
Definition ctx_done : M S bool := λ w,
  (match w_done w with Some t => t <=? w_now w | None => false end, w).

(** [time.After(d)] in a [select] with the context: [true] when the context
    ended the wait first. *)
Definition sleep (d : Z) : M S bool := λ w,
  let until := w_now w + d in
  match w_done w with
  | Some t =>
      if t <=? w_now w then (true, w)
      else if t <=? until then
        (true, World t (w_vms w + (t - w_now w) / millisecond) (w_srv w) (w_ticks w) (w_minted w) (w_done w))
      else (false, World until (w_vms w + d / millisecond) (w_srv w) (w_ticks w) (w_minted w) (w_done w))
  | None => (false, World until (w_vms w + d / millisecond) (w_srv w) (w_ticks w) (w_minted w) (w_done w))
  end.
End client.

(** Random lock tokens and marks: [crypto/rand] read as text. *)
Class TokenSupply := token : nat → string.

Definition mintToken {S} `{TokenSupply} : M S string := λ w,
  (token (w_minted w),
   World (w_now w) (w_vms w) (w_srv w) (w_ticks w) (Datatypes.S (w_minted w)) (w_done w)).

(** Values read off replies; a reply of another shape is the zero value. *)
Definition rint (r : vreply) : Z := match r with RInt n => n | _ => 0 end.
Definition rbool (r : vreply) : bool := match r with RBool b => b | _ => false end.
Definition rstr (r : vreply) : string := match r with RStr s => s | _ => "" end.
Definition rstrs (r : vreply) : list (option string) := match r with RStrs l => l | _ => [] end.
Definition reply_at (rs : list vreply) (i : nat) : vreply := nth i rs RNil.

(** ** Clock arithmetic of package [time] *)
Definition Unix (t : Z) : Z := t / second.
Definition UnixMilli (t : Z) : Z := t / millisecond.

(** [t.Truncate(d)] rounds down to a multiple of [d] since the zero time,
    62135596800 s before the Unix epoch. *)
Definition Truncate (t d : Z) : Z :=
  if d <=? 0 then t else t - (t + 62135596800 * second) `mod` d.

(** ** Quiet worlds: nobody interferes and nothing fails *)
Definition quiet {S} (w : world S) : Prop := w_ticks w = [].

Section quiet_runs.
Context {S : Type} `{ValkeyServer S}.

Definition with_srv (w : world S) (s : S) : world S :=
  World (w_now w) (w_vms w) s (w_ticks w) (w_minted w) (w_done w).

Lemma send_quiet c (w : world S) : quiet w →
  send c w = (Some (exec (w_vms w) c (w_srv w)).1, with_srv w (exec (w_vms w) c (w_srv w)).2).
Proof.
  intros Hq. destruct w; unfold quiet in Hq; simpl in Hq; subst.
  unfold send, with_srv. simpl. rewrite !Z.add_0_r. by case_match.
Qed.

Lemma with_srv_quiet (w : world S) s : quiet w → quiet (with_srv w s).
Proof. done. Qed.

Lemma with_srv_srv (w : world S) s : w_srv (with_srv w s) = s.
Proof. done. Qed.

Lemma call_quiet c (w : world S) : quiet w →
  call c w = (match reply_err (exec (w_vms w) c (w_srv w)).1 with
              | Some e => Err e
              | None => Ok (exec (w_vms w) c (w_srv w)).1 end,
              with_srv w (exec (w_vms w) c (w_srv w)).2).
Proof. intros Hq. unfold call, bind. by rewrite send_quiet. Qed.

(** The replies and the final server of a pipeline nobody disturbs. *)
Fixpoint exec_list (ms : Z) (cs : list vcmd) (s : S) : list vreply * S :=
  match cs with
  | [] => ([], s)
  | c :: cs' =>
      let rs := exec_list ms cs' (exec ms c s).2 in ((exec ms c s).1 :: rs.1, rs.2)
  end.

Lemma pipe_quiet cs (w : world S) : quiet w →
  pipe cs w = (Some (exec_list (w_vms w) cs (w_srv w)).1,
               with_srv w (exec_list (w_vms w) cs (w_srv w)).2).
Proof.
  revert w. induction cs as [|c cs IH]; intros w Hq; simpl; [by destruct w; reflexivity|].
  unfold bind at 1. rewrite send_quiet by done. unfold bind.
  by rewrite IH by done.
Qed.

Lemma pipeline_quiet cs (w : world S) : quiet w →
  pipeline cs w =
    (match first_err (exec_list (w_vms w) cs (w_srv w)).1 with
     | Some e => Err e
     | None => Ok (exec_list (w_vms w) cs (w_srv w)).1
     end, with_srv w (exec_list (w_vms w) cs (w_srv w)).2).
Proof. intros Hq. unfold pipeline, bind. by rewrite pipe_quiet. Qed.
End quiet_runs.

(** ** Reasoning with the laws

    [vk] replaces the replies of executed commands and the entries of the
    resulting servers by what the documentation says of them; inequalities
    between keys come from the context. *)
Ltac vk_once :=
  match goal with
  | |- context [look (exec ?t ?c ?s).2 ?t ?k] =>
      first [ rewrite (law_effect t c s k eq_refl)
            | rewrite (law_frame t c s k t) by (cbn [cmd_key]; congruence) ]
  | |- context [(exec ?t (MGet ?ks) ?s).1] => rewrite (law_mget t ks s)
  | |- context [(exec ?t ?c ?s).1] => rewrite (law_reply t c s _ eq_refl)
  end.
Ltac vk := repeat vk_once.

(** GET changes no key. *)
Lemma get_reads_only {S} `{ValkeyServer S} `{!ValkeyLaws S} ms k (s : S) k' :
  look (exec ms (Get k) s).2 ms k' = look s ms k'.
Proof. destruct (decide (k' = k)) as [->|]; by vk. Qed.

(** ** Calls on one key

    In a quiet world a call is its documented behaviour on its key and leaves
    everything else as it was. *)
Section one_key.
Context {S : Type} `{ValkeyServer S} `{!ValkeyLaws S}.

Definition at_key (w : world S) (k : string) : option entry := look (w_srv w) (w_vms w) k.

Record frame (k : string) (w w' : world S) : Prop := Frame {
  frame_quiet : quiet w';
  frame_now : w_now w' = w_now w;
  frame_vms : w_vms w' = w_vms w;
  frame_minted : w_minted w' = w_minted w;
  frame_done : w_done w' = w_done w;
  frame_keys : ∀ k', k' ≠ k → at_key w' k' = at_key w k'
}.

Lemma frame_refl k w : quiet w → frame k w w.
Proof. by split. Qed.

Lemma frame_trans k w1 w2 w3 : frame k w1 w2 → frame k w2 w3 → frame k w1 w3.
Proof.
  intros [] []. split; try congruence. intros k' Hk. rewrite frame_keys1 by done. auto.
Qed.

Definition spec_at (w : world S) (c : vcmd) (e : option entry) : vreply * option entry :=
  cmd_spec sec_ms prec_ms (w_vms w) c e.

Definition go_result (r : vreply) : result rerr vreply :=
  match reply_err r with Some e => Err e | None => Ok r end.

Lemma call_spec c k w : quiet w → cmd_key c = Some k →
  ∃ w', call c w = (go_result (spec_at w c (at_key w k)).1, w') ∧ frame k w w' ∧
        at_key w' k = (spec_at w c (at_key w k)).2.
Proof.
  intros Hq Hk. rewrite call_quiet by done. rewrite (law_reply _ _ _ _ Hk).
  eexists. split; [reflexivity|]. unfold at_key. split.
  - split; try done. intros k' Hne. cbn. apply law_frame. congruence.
  - cbn. by rewrite (law_effect _ _ _ _ Hk).
Qed.

(** The replies and the final entry of commands on one key. *)
Fixpoint spec_list (w : world S) (cs : list vcmd) (e : option entry) : list vreply * option entry :=
  match cs with
  | [] => ([], e)
  | c :: cs' =>
      let r := spec_at w c e in
      let rs := spec_list w cs' r.2 in
      (r.1 :: rs.1, rs.2)
  end.

Lemma exec_list_spec cs k w s :
  Forall (λ c, cmd_key c = Some k) cs →
  let r := spec_list w cs (look s (w_vms w) k) in
  (exec_list (w_vms w) cs s).1 = r.1 ∧ look (exec_list (w_vms w) cs s).2 (w_vms w) k = r.2 ∧
  ∀ k', k' ≠ k → look (exec_list (w_vms w) cs s).2 (w_vms w) k' = look s (w_vms w) k'.
Proof.
  intros Hall. revert s. induction Hall as [|c cs Hc Hall IH]; intros s; simpl; [done|].
  destruct (IH (exec (w_vms w) c s).2) as (I1 & I2 & I3).
  rewrite (law_effect _ _ _ _ Hc) in I1, I2. rewrite I1, I2, (law_reply _ _ _ _ Hc).
  split; [done|]. split; [done|]. intros k' Hk. rewrite I3 by done. apply law_frame. congruence.
Qed.

Lemma pipeline_spec cs k w : quiet w → Forall (λ c, cmd_key c = Some k) cs →
  ∃ w', pipeline cs w = (match first_err (spec_list w cs (at_key w k)).1 with
                         | Some e => Err e
                         | None => Ok (spec_list w cs (at_key w k)).1
                         end, w') ∧ frame k w w' ∧
        at_key w' k = (spec_list w cs (at_key w k)).2.
Proof.
  intros Hq Hall. rewrite pipeline_quiet by done.
  destruct (exec_list_spec cs k w (w_srv w) Hall) as (-> & E & F).
  eexists. split; [reflexivity|]. by repeat split.
Qed.
End one_key.

Ltac spec_simpl :=
  unfold go_result in *;
  cbn [spec_at cmd_spec spec_list fst snd reply_err first_err rstr rint rbool rstrs] in *.

Section counters.
Context {S : Type} `{ValkeyServer S} `{!ValkeyLaws S}.

(** [counter s ms k n]: the key is the decimal counter [n], or is absent and
    [n] is zero. *)
Definition counter (s : S) (ms : Z) (k : string) (n : Z) : Prop :=
  0 ≤ n ≤ max_int64 ∧
  ((n = 0 ∧ look s ms k = None) ∨ ∃ ex, look s ms k = Some (Entry (VStr (FormatInt n)) ex)).

Lemma incr_string_ok n d : 0 ≤ n → 0 ≤ d → n + d ≤ max_int64 → incr_string (FormatInt n) d = Some (n + d).
Proof.
  intros Hn Hd Hm. unfold incr_string. rewrite ParseInt_FormatInt by (unfold max_int64 in *; lia).
  unfold min_int64, max_int64 in *. zcase. done.
Qed.

(** INCRBY on a counter. *)
Lemma incr_counter sm pm ms k n d e :
  0 ≤ d → 0 ≤ n → n + d ≤ max_int64 →
  ((n = 0 ∧ e = None) ∨ ∃ ex, e = Some (Entry (VStr (FormatInt n)) ex)) →
  ∃ ex, cmd_spec sm pm ms (IncrBy k d) e = (RInt (n + d), Some (Entry (VStr (FormatInt (n + d))) ex)).
Proof.
  intros Hd Hn Hm [[-> ->]|[ex ->]]; simpl.
  - by exists None.
  - rewrite incr_string_ok by done. by exists ex.
Qed.

Lemma counter_string s ms k n : counter s ms k n →
  from_option (λ v, match ParseInt v with Ok m => m | Err _ => 0 end) 0 (entry_string (look s ms k)) = n.
Proof.
  intros [Hn [[-> ->]|[ex ->]]]; simpl; [done|]. by rewrite ParseInt_FormatInt.
Qed.
End counters.

(** ** A concrete start: an empty server, undisturbed *)
Definition sample_world : world mem_server :=
  World (1700000000 * second) 1700000000000 (MemServer ∅) [] 0 None.
#[export] Instance sample_tokens : TokenSupply := λ n, FormatInt (Z.of_nat n).

Lemma empty_counter k : counter (w_srv sample_world) (w_vms sample_world) k 0.
Proof. split; [by vm_compute|]. left. split; [done|]. simpl. by rewrite lookup_empty. Qed.

End ValkeyClient.
