(* ===== verification/Limiter.v ===== *)
(** * Rate windows, quotas and locks

    [internal/limit]: the per-address windows ([window.go]), the unified charge
    of a tunnel's byte, packet and day/week windows and the admission-time quota
    check ([limiter.go]), the global stream cap ([concurrency.go]), the admin
    view ([tunnels.go]), the CA wait-until and failure streak
    ([acme_cooldown.go]) and the per-tunnel issuance lock and weekly cap
    ([issuance.go]).  The Go receiver's caps are the [Limiter] record; its
    Valkey client and clock are the [world]. *)
From Stdlib Require Import ZArith Lia Ascii String.
From S2P Require Import Prelude GoStr Valkey.
Local Open Scope string_scope.
Local Open Scope list_scope.
Local Open Scope Z_scope.

Module Limiter.
Export ValkeyClient.

Record Limiter := {
  bwRate : Z;
  pktCap : Z;
  dayCap : Z;
  weekCap : Z;
  streamTTL : Z
}.

Inductive ChargeAction := ChargeProceed | ChargeWait | ChargeKill.

Definition bwWindowTTL : Z := 3 * second.
Definition trafDayTTL : Z := 25 * hour.
Definition trafWeekTTL : Z := 7 * 24 * hour + hour.
Definition maxPacingWait : Z := 5 * second.

(** ** Keys *)
Definition concKey (name : string) : string := "conc:" +:+ name.
Definition windowKey (scope ip : string) (winStart : Z) : string :=
  "rl:" +:+ scope +:+ ":" +:+ ip +:+ ":" +:+ FormatInt (Unix winStart).

Definition chargeKeys (name dir : string) (sec : Z) : string * string * string * string :=
  let s := FormatInt sec in
  let d := FormatInt (Z.quot sec 86400) in
  let w := FormatInt (Z.quot (Z.quot sec 86400) 7) in
  let base := name +:+ ":" +:+ dir in
  ("bw:" +:+ base +:+ ":" +:+ s, "pkt:" +:+ base +:+ ":" +:+ s,
   "traf:" +:+ base +:+ ":day:" +:+ d, "traf:" +:+ base +:+ ":week:" +:+ w).

Definition cooldownKey (ca : string) : string := "acme-cooldown:" +:+ ca.
Definition failuresKey (ca : string) : string := "acme-fail:" +:+ ca.
Definition limitedKey (ca : string) : string := "acme-429:" +:+ ca.
Definition issuanceKey (name : string) : string := "iss:" +:+ name.
Definition issLockKey (name : string) : string := "iss_lock:" +:+ name.

Section operations.
Context {S : Type} `{ValkeyServer S} `{TokenSupply}.

(** ** window.go *)
Definition Allow (scope ip : string) (limit window : Z) : M S (result rerr (bool * Z)) :=
  let* n := now in
  let winStart := Truncate n window in
  let key := windowKey scope ip winStart in
  let* r := pipeline [IncrBy key 1; ExpireNX key (window * 2)] in
  match r with
  | Err e => ret (Err e)
  | Ok rs =>
      if limit <? rint (reply_at rs 0) then ret (Ok (false, winStart + window - n))
      else ret (Ok (true, 0))
  end.

Definition Over (scope ip : string) (limit window : Z) : M S (result rerr (bool * Z)) :=
  let* n := now in
  let winStart := Truncate n window in
  let key := windowKey scope ip winStart in
  let* r := call (Get key) in
  match r with
  | Err RedisNil => ret (Ok (false, 0))
  | Err RedisErr => ret (Err RedisErr)
  | Ok v =>
      match ParseInt (rstr v) with
      | Err _ => ret (Err RedisErr)
      | Ok count =>
          if limit <=? count then ret (Ok (true, winStart + window - n)) else ret (Ok (false, 0))
      end
  end.

(** ** concurrency.go *)
Definition acquire_cmds (l : Limiter) (name member : string) (n : Z) : list vcmd :=
  let key := concKey name in
  [ZRemRangeByScore key (UnixMilli n);
   ZAdd key (UnixMilli (n + streamTTL l)) member;
   ZCard key;
   PExpire key (streamTTL l)].

Definition AcquireStream (l : Limiter) (name member : string) (maxN : Z) : M S (result rerr bool) :=
  let* n := now in
  let* r := pipeline (acquire_cmds l name member n) in
  match r with
  | Err e => ret (Err e)
  | Ok rs =>
      if rint (reply_at rs 2) <=? maxN then ret (Ok true)
      else let* _ := call (ZRem (concKey name) member) in ret (Ok false)
  end.

Definition ReleaseStream (name member : string) : M S (result rerr unit) :=
  let* r := call (ZRem (concKey name) member) in
  ret match r with Err e => Err e | Ok _ => Ok tt end.

(** ** limiter.go *)

(** The decision after the counters are read back. *)
Definition charge_decide (l : Limiter) (n b p d w : Z) : ChargeAction * Z * string :=
  let sec := Unix n in
  let secReset := (sec + 1) * second - n in
  let dayReset := (Z.quot sec 86400 + 1) * 86400 * second - n in
  let weekReset := (Z.quot (Z.quot sec 86400) 7 + 1) * 7 * 86400 * second - n in
  let overSec := (bwRate l <? b) || ((0 <? pktCap l) && (pktCap l <? p)) in
  let dayOver := dayCap l <? d in
  let weekOver := weekCap l <? w in
  if weekOver && (maxPacingWait <? weekReset) then (ChargeKill, 0, "week")
  else if dayOver && (maxPacingWait <? dayReset) then (ChargeKill, 0, "day")
  else
    let wait := 0 in
    let wait := if overSec && (wait <? secReset) then secReset else wait in
    let wait := if dayOver && (wait <? dayReset) then dayReset else wait in
    let wait := if weekOver && (wait <? weekReset) then weekReset else wait in
    if 0 <? wait then (ChargeWait, wait, "") else (ChargeProceed, 0, "").

(** The commands of a charge entered at [n]. *)
Definition charge_cmds (l : Limiter) (name member dir : string) (nr n : Z) : list vcmd :=
  let '(bwKey, pktKey, dayKey, weekKey) := chargeKeys name dir (Unix n) in
  [IncrBy bwKey nr; IncrBy pktKey 1; IncrBy dayKey nr; IncrBy weekKey nr;
   ExpireNX bwKey bwWindowTTL; ExpireNX pktKey bwWindowTTL;
   ExpireNX dayKey trafDayTTL; ExpireNX weekKey trafWeekTTL;
   ZAddXX (concKey name) (UnixMilli (n + streamTTL l)) member;
   PExpire (concKey name) (streamTTL l)].

Definition Charge (l : Limiter) (name member dir : string) (nr : Z)
    : M S (ChargeAction * Z * string * option rerr) :=
  let* n := now in
  let* r := pipeline (charge_cmds l name member dir nr n) in
  match r with
  | Err e => ret (ChargeProceed, 0, "", Some e)
  | Ok rs =>
      let at_ i := rint (reply_at rs i) in
      ret (charge_decide l n (at_ 0%nat) (at_ 1%nat) (at_ 2%nat) (at_ 3%nat), None)
  end.

Definition atoiCap (v : option string) : Z :=
  match v with
  | None => 0
  | Some s => match ParseInt s with Ok n => n | Err _ => 0 end
  end.

Definition TrafficExhausted (l : Limiter) (name : string) : M S (result rerr (bool * bool)) :=
  let* n := now in
  let sec := Unix n in
  let d := FormatInt (Z.quot sec 86400) in
  let w := FormatInt (Z.quot (Z.quot sec 86400) 7) in
  let keys := ["traf:" +:+ name +:+ ":in:day:" +:+ d; "traf:" +:+ name +:+ ":out:day:" +:+ d;
               "traf:" +:+ name +:+ ":in:week:" +:+ w; "traf:" +:+ name +:+ ":out:week:" +:+ w] in
  let* r := call (MGet keys) in
  match r with
  | Err e => ret (Err e)
  | Ok v =>
      let at_ i := atoiCap (nth i (rstrs v) None) in
      let dayOver := (dayCap l <=? at_ 0%nat) || (dayCap l <=? at_ 1%nat) in
      let weekOver := (weekCap l <=? at_ 2%nat) || (weekCap l <=? at_ 3%nat) in
      ret (Ok (dayOver, weekOver))
  end.

(** ** tunnels.go *)
Record TunnelStat := {
  Conc : Z; BwIn : Z; BwOut : Z; DayIn : Z; DayOut : Z; WeekIn : Z; WeekOut : Z
}.

Definition stat_keys (prev d w n : string) : list string :=
  ["bw:" +:+ n +:+ ":in:" +:+ prev; "bw:" +:+ n +:+ ":out:" +:+ prev;
   "traf:" +:+ n +:+ ":in:day:" +:+ d; "traf:" +:+ n +:+ ":out:day:" +:+ d;
   "traf:" +:+ n +:+ ":in:week:" +:+ w; "traf:" +:+ n +:+ ":out:week:" +:+ w].

Definition TunnelWindows (names : list string) : M S (result rerr (gmap string TunnelStat)) :=
  match names with
  | [] => ret (Ok ∅)
  | _ =>
      let* n := now in
      let sec := Unix n in
      let prev := FormatInt (sec - 1) in
      let d := FormatInt (Z.quot sec 86400) in
      let w := FormatInt (Z.quot (Z.quot sec 86400) 7) in
      let keys := concat (map (stat_keys prev d w) names) in
      let* n' := now in
      let* r := pipeline (map (λ nm, ZCount (concKey nm) (UnixMilli n')) names ++ [MGet keys]) in
      match r with
      | Err e => ret (Err e)
      | Ok rs =>
          let vals := rstrs (reply_at rs (length names)) in
          let stat i :=
            let at_ j := atoiCap (nth (i * 6 + j)%nat vals None) in
            {| Conc := rint (reply_at rs i); BwIn := at_ 0%nat; BwOut := at_ 1%nat;
               DayIn := at_ 2%nat; DayOut := at_ 3%nat; WeekIn := at_ 4%nat; WeekOut := at_ 5%nat |} in
          ret (Ok (fold_left (λ out p, <[p.2 := stat p.1]> out) (imap pair names) ∅))
      end
  end.

(** ** acme_cooldown.go *)

(** [time.Duration(math.Ceil(d.Seconds())) * time.Second], at least a second;
    [d.Seconds()] is exact enough for the ceiling below 2^22 s (48 days). *)
Definition cooldown_seconds (d : Z) : Z := Z.max (- (- d / second) * second) second.

Definition SetCACooldown (ca : string) (d : Z) : M S (result rerr unit) :=
  let d := cooldown_seconds d in
  let* r := pipeline [ExpireGT (cooldownKey ca) d; SetNX (cooldownKey ca) "1" d] in
  ret match r with Err e => Err e | Ok _ => Ok tt end.

(** go-redis's PTTL: milliseconds as a duration, or the raw -1 / -2. *)
Definition pttl_duration (n : Z) : Z := if n <? 0 then n else n * millisecond.

Definition CACooldown (ca : string) : M S (result rerr Z) :=
  let* r := call (PTTL (cooldownKey ca)) in
  ret match r with
      | Err e => Err e
      | Ok v => let d := pttl_duration (rint v) in if d <? 0 then Ok 0 else Ok d
      end.

Definition MarkCALimited (ca : string) (ttl : Z) : M S (result rerr unit) :=
  if ttl <=? 0 then ret (Err RedisErr)
  else
    let* mark := mintToken in
    let* r := call (Set_ (limitedKey ca) mark ttl) in
    ret match r with Err e => Err e | Ok _ => Ok tt end.

Definition CAWaitState (ca : string) : M S (result rerr (Z * string)) :=
  let* r := pipe [PTTL (cooldownKey ca); Get (limitedKey ca)] in
  ret match r with
      | None => Err RedisErr
      | Some rs =>
          match first_err rs with
          | Some RedisErr => Err RedisErr
          | _ =>
              match reply_err (reply_at rs 1) with
              | Some RedisErr => Err RedisErr
              | _ => Ok (Z.max (pttl_duration (rint (reply_at rs 0))) 0, rstr (reply_at rs 1))
              end
          end
      end.

Definition BumpCAFailures (ca : string) (window : Z) : M S (result rerr Z) :=
  let* r := pipeline [IncrBy (failuresKey ca) 1; PExpire (failuresKey ca) window] in
  ret match r with Err e => Err e | Ok rs => Ok (rint (reply_at rs 0)) end.

Definition ResetCAFailures (ca : string) : M S (result rerr unit) :=
  let* r := call (Del (failuresKey ca)) in
  ret match r with Err e => Err e | Ok _ => Ok tt end.

(** ** issuance.go *)
Definition issLockTTL : Z := 15 * second.
Definition issLockBeat : Z := 5 * second.
Definition issWindowTTL : Z := 7 * 24 * hour.

Inductive iss_error := ErrIssuanceInFlight | IssRedis.

Definition releaseIssLock (name tok : string) : M S (result iss_error unit) :=
  let* r := call (Get (issLockKey name)) in
  match r with
  | Err RedisNil => ret (Ok tt)
  | Err RedisErr => ret (Err IssRedis)
  | Ok v =>
      if String.eqb (rstr v) tok then
        let* r := call (Del (issLockKey name)) in
        ret match r with Err _ => Err IssRedis | Ok _ => Ok tt end
      else ret (Ok tt)
  end.

Definition issuanceWindowLeft (name : string) : M S (result iss_error Z) :=
  let* r := call (PTTL (issuanceKey name)) in
  match r with
  | Err _ => ret (Err IssRedis)
  | Ok v =>
      let ttl := pttl_duration (rint v) in
      if 0 <? ttl then ret (Ok (Z.quot (ttl + second - 1) second * second))
      else if ttl =? -1 then
        let* r := call (ExpireNX (issuanceKey name) issWindowTTL) in
        ret match r with Err _ => Err IssRedis | Ok _ => Ok issWindowTTL end
      else ret (Ok second)
  end.

(** [(ok, orderID, retryAfter)]. *)
Definition IssuanceBegin (name : string) (maxN : Z) : M S (result iss_error (bool * string * Z)) :=
  let* tok := mintToken in
  let* r := call (SetNX (issLockKey name) tok issLockTTL) in
  match r with
  | Err _ => ret (Err IssRedis)
  | Ok v =>
      if negb (rbool v) then ret (Err ErrIssuanceInFlight)
      else
        let* g := call (Get (issuanceKey name)) in
        match (match g with
               | Err RedisNil => Some 0
               | Err RedisErr => None
               | Ok v => match ParseInt (rstr v) with Ok n => Some n | Err _ => None end
               end) with
        | None => let* _ := releaseIssLock name tok in ret (Err IssRedis)
        | Some n =>
            if maxN <=? n then
              let* _ := releaseIssLock name tok in
              let* remaining := issuanceWindowLeft name in
              match remaining with
              | Err e => ret (Err e)
              | Ok d => ret (Ok (false, "", d))
              end
            else ret (Ok (true, tok, 0))
        end
  end.

Definition refreshIssLock (name orderID : string) : M S unit :=
  let* r := call (Get (issLockKey name)) in
  match r with
  | Err _ => ret tt
  | Ok v =>
      if String.eqb (rstr v) orderID then
        let* _ := call (PExpire (issLockKey name) issLockTTL) in ret tt
      else ret tt
  end.

(** The first [beats] turns of the heartbeat; it stops when the context ends. *)
Fixpoint IssuanceHeartbeatLoop (beats : nat) (name orderID : string) : M S unit :=
  match beats with
  | O => ret tt
  | Datatypes.S b =>
      let* stop := sleep issLockBeat in
      if (stop : bool) then ret tt
      else let* _ := refreshIssLock name orderID in IssuanceHeartbeatLoop b name orderID
  end.

Definition IssuanceEnd (name orderID : string) : M S (result iss_error unit) :=
  releaseIssLock name orderID.

Definition IssuanceRecord (name : string) : M S (result rerr unit) :=
  let* r := pipeline [IncrBy (issuanceKey name) 1; ExpireNX (issuanceKey name) issWindowTTL] in
  ret match r with Err e => Err e | Ok _ => Ok tt end.
End operations.

(** ** Decisions *)

Lemma resets_positive n : 0 ≤ n →
  0 < (Unix n + 1) * second - n ≤ second ∧
  0 < (Z.quot (Unix n) 86400 + 1) * 86400 * second - n ∧
  0 < (Z.quot (Z.quot (Unix n) 86400) 7 + 1) * 7 * 86400 * second - n.
Proof.
  intros Hn. unfold Unix, second. assert (0 ≤ n / 1000000000) by (apply Z.div_pos; lia).
  rewrite (Z.quot_div_nonneg (n / 1000000000)) by lia.
  assert (0 ≤ n / 1000000000 / 86400) by (apply Z.div_pos; lia).
  rewrite (Z.quot_div_nonneg (n / 1000000000 / 86400)) by lia. divmod.
Qed.

(** What each action of a charge means in terms of the counters, the caps and the time
    to each window's reset. *)
Lemma charge_decide_spec l n b p d w :
  0 ≤ n →
  let sec := Unix n in
  let secReset := (sec + 1) * second - n in
  let dayReset := (Z.quot sec 86400 + 1) * 86400 * second - n in
  let weekReset := (Z.quot (Z.quot sec 86400) 7 + 1) * 7 * 86400 * second - n in
  let overSec := bwRate l < b ∨ (0 < pktCap l ∧ pktCap l < p) in
  match charge_decide l n b p d w with
  | (ChargeProceed, wait, _) => wait = 0 ∧ ¬ overSec ∧ d ≤ dayCap l ∧ w ≤ weekCap l
  | (ChargeWait, wait, _) =>
      0 < wait ≤ maxPacingWait ∧ (overSec → secReset ≤ wait) ∧
      (dayCap l < d → dayReset ≤ wait) ∧ (weekCap l < w → weekReset ≤ wait) ∧
      (wait = secReset ∧ overSec ∨ wait = dayReset ∧ dayCap l < d ∨ wait = weekReset ∧ weekCap l < w)
  | (ChargeKill, _, win) =>
      (win = "week" ∧ weekCap l < w ∧ maxPacingWait < weekReset) ∨
      (win = "day" ∧ dayCap l < d ∧ maxPacingWait < dayReset)
  end.
Proof.
  intros Hn. unfold charge_decide. cbv zeta.
  destruct (resets_positive n Hn) as (Hs & Hd & Hw). revert Hs Hd Hw.
  generalize ((Unix n + 1) * second - n) as sr.
  generalize ((Z.quot (Unix n) 86400 + 1) * 86400 * second - n) as dr.
  generalize ((Z.quot (Z.quot (Unix n) 86400) 7 + 1) * 7 * 86400 * second - n) as wr.
  intros wr dr sr Hs Hd Hw. unfold maxPacingWait, second in *.
  destruct (Z.ltb_spec (bwRate l) b), (Z.ltb_spec 0 (pktCap l)), (Z.ltb_spec (pktCap l) p),
    (Z.ltb_spec (dayCap l) d), (Z.ltb_spec (weekCap l) w); simpl;
    repeat (case_match; simpl; zbool); simplify_eq; try lia; auto 10 with lia.
Qed.

(** ** The charge *)
Lemma chargeKeys_distinct name dir sec :
  let '(b, p, d, w) := chargeKeys name dir sec in
  b ≠ p ∧ b ≠ d ∧ b ≠ w ∧ p ≠ d ∧ p ≠ w ∧ d ≠ w ∧
  concKey name ≠ b ∧ concKey name ≠ p ∧ concKey name ≠ d ∧ concKey name ≠ w.
Proof.
  unfold chargeKeys, concKey. repeat split; try (intros [=]).
  match goal with H : _ = _ |- _ => by apply str_app_inv_l in H; simplify_eq end.
Qed.

Section charging.
Context {S : Type} `{ValkeyServer S} `{!ValkeyLaws S} `{TokenSupply}.

(** The stream set of a tunnel, when its key has the right type. *)
Definition stream_set (s : S) (ms : Z) (k : string) : Prop :=
  zset_of (look s ms k) ≠ None.

(** What the four counters of [(name, dir)] hold at the world's instant. *)
Definition charged (w : world S) (name dir : string) (b p d wk : Z) : Prop :=
  let '(bk, pk, dk, wkk) := chargeKeys name dir (Unix (w_now w)) in
  counter (w_srv w) (w_vms w) bk b ∧ counter (w_srv w) (w_vms w) pk p ∧
  counter (w_srv w) (w_vms w) dk d ∧ counter (w_srv w) (w_vms w) wkk wk ∧
  stream_set (w_srv w) (w_vms w) (concKey name).

(** EXPIRE NX keeps a counter that has just been written, unless its own
    deadline would already be over. *)
Lemma expireNX_counter sm pm ms k n d ex :
  0 < sm d →
  ∃ ex', cmd_spec sm pm ms (ExpireNX k d) (Some (Entry (VStr (FormatInt n)) ex)) =
         (RBool (match ex with None => true | _ => false end), Some (Entry (VStr (FormatInt n)) ex')).
Proof.
  intros Hd. destruct ex as [ex|]; simpl; [by exists (Some ex)|].
  exists (Some (ms + sm d)). unfold with_deadline. zcase. done.
Qed.

Lemma ttl_positive d n : d = n * second → 0 < n → 0 < sec_ms d.
Proof. intros -> Hn. rewrite law_sec by lia. lia. Qed.

Lemma zaddxx_keeps sm pm ms k sc m e : zset_of e ≠ None →
  reply_err (cmd_spec sm pm ms (ZAddXX k sc m) e).1 = None ∧
  zset_of (cmd_spec sm pm ms (ZAddXX k sc m) e).2 ≠ None.
Proof.
  intros He. simpl. destruct (zset_of e) as [[z ex]|] eqn:Ez; [|done]. split; [done|]. simpl.
  destruct (z !! m); simpl; [|by rewrite Ez].
  unfold zset_entry. by case_decide.
Qed.

Lemma pexpire_keeps sm pm ms k d e : zset_of e ≠ None →
  reply_err (cmd_spec sm pm ms (PExpire k d) e).1 = None ∧
  zset_of (cmd_spec sm pm ms (PExpire k d) e).2 ≠ None.
Proof.
  intros He. destruct e as [[v ex]|]; simpl; [|done]. split; [done|].
  unfold with_deadline. case_match; [done|]. by destruct v.
Qed.

Lemma Charge_run l name member dir nr (w : world S) b p d wk :
  quiet w → charged w name dir b p d wk →
  0 ≤ nr → b + nr ≤ max_int64 → p + 1 ≤ max_int64 → d + nr ≤ max_int64 → wk + nr ≤ max_int64 →
  ∃ w', Charge l name member dir nr w =
          (charge_decide l (w_now w) (b + nr) (p + 1) (d + nr) (wk + nr), None, w') ∧
        quiet w' ∧ w_now w' = w_now w ∧ w_vms w' = w_vms w ∧
        charged w' name dir (b + nr) (p + 1) (d + nr) (wk + nr).
Proof.
  intros Hq Hc Hnr Hb Hp Hd Hw. unfold Charge, charge_cmds, charged in *. unfold bind, now at 1.
  pose proof (chargeKeys_distinct name dir (Unix (w_now w))) as Hne.
  destruct (chargeKeys name dir (Unix (w_now w))) as [[[bk pk] dk] wkk] eqn:Hk.
  destruct Hne as (N1 & N2 & N3 & N4 & N5 & N6 & N7 & N8 & N9 & N10).
  destruct Hc as ([Rb Cb] & [Rp Cp] & [Rd Cd] & [Rw Cw] & Hz).
  destruct (incr_counter sec_ms prec_ms (w_vms w) bk b nr _ Hnr (proj1 Rb) Hb Cb) as [xb Eb].
  destruct (incr_counter sec_ms prec_ms (w_vms w) pk p 1 _ ltac:(lia) (proj1 Rp) Hp Cp) as [xp Ep].
  destruct (incr_counter sec_ms prec_ms (w_vms w) dk d nr _ Hnr (proj1 Rd) Hd Cd) as [xd Ed].
  destruct (incr_counter sec_ms prec_ms (w_vms w) wkk wk nr _ Hnr (proj1 Rw) Hw Cw) as [xw Ew].
  destruct (expireNX_counter sec_ms prec_ms (w_vms w) bk (b + nr) bwWindowTTL xb) as [yb Fb];
    [by apply (ttl_positive _ 3)|].
  destruct (expireNX_counter sec_ms prec_ms (w_vms w) pk (p + 1) bwWindowTTL xp) as [yp Fp];
    [by apply (ttl_positive _ 3)|].
  destruct (expireNX_counter sec_ms prec_ms (w_vms w) dk (d + nr) trafDayTTL xd) as [yd Fd];
    [by apply (ttl_positive _ 90000)|].
  destruct (expireNX_counter sec_ms prec_ms (w_vms w) wkk (wk + nr) trafWeekTTL xw) as [yw Fw];
    [by apply (ttl_positive _ 608400)|].
  destruct (zaddxx_keeps sec_ms prec_ms (w_vms w) (concKey name)
              (UnixMilli (w_now w + streamTTL l)) member _ Hz) as [Ez Hz'].
  destruct (pexpire_keeps sec_ms prec_ms (w_vms w) (concKey name) (streamTTL l) _ Hz') as [Fz Hz''].
  rewrite pipeline_quiet by done. eexists. split; [|split; [|split; [|split]]].
  - cbn [exec_list fst snd first_err reply_at nth]. vk. rewrite Eb, Ep, Ed, Ew. cbn [fst snd].
    rewrite Fb, Fp, Fd, Fw. cbn [fst snd reply_err]. rewrite Ez, Fz. reflexivity.
  - done.
  - done.
  - done.
  - unfold counter, stream_set. cbn [w_srv w_vms w_now with_srv exec_list fst snd]. rewrite Hk. vk.
    rewrite Eb, Ep, Ed, Ew. cbn [fst snd]. rewrite Fb, Fp, Fd, Fw. cbn [snd].
    repeat split; eauto; lia.
Qed.
(** An undisturbed charge adds to the four counters and decides on their new values. *)
Lemma Charge_quiet l name member dir nr (w : world S) b p d wk :
  quiet w → charged w name dir b p d wk →
  0 ≤ nr → b + nr ≤ max_int64 → p + 1 ≤ max_int64 → d + nr ≤ max_int64 → wk + nr ≤ max_int64 →
  ∃ w', Charge l name member dir nr w =
          (charge_decide l (w_now w) (b + nr) (p + 1) (d + nr) (wk + nr), None, w') ∧
        charged w' name dir (b + nr) (p + 1) (d + nr) (wk + nr).
Proof.
  intros Hq Hc Hn Hb Hp Hd Hw.
  destruct (Charge_run l name member dir nr w b p d wk) as (w' & E & _ & _ & _ & Hc'); eauto.
Qed.

Lemma decide_proceed l n b p d w wait win :
  0 ≤ n → charge_decide l n b p d w = (ChargeProceed, wait, win) →
  b ≤ bwRate l ∧ (0 < pktCap l → p ≤ pktCap l) ∧ d ≤ dayCap l ∧ w ≤ weekCap l.
Proof. intros Hn Hd. pose proof (charge_decide_spec l n b p d w Hn) as Hs. cbv zeta in Hs. rewrite Hd in Hs. lia. Qed.

End charging.

(** ** A counted cap

    The verdicts of [n] attempts when [c] were counted before and [limit] are
    admitted. *)
Definition admitted (n : nat) (limit c : Z) : list bool :=
  replicate (Z.to_nat (Z.min (Z.of_nat n) (limit - c))) true ++
  replicate (Z.to_nat (Z.of_nat n - Z.max 0 (limit - c))) false.

Lemma admitted_0 limit c : admitted 0 limit c = [].
Proof. unfold admitted. by rewrite !Z2Nat.nonpos by lia. Qed.

Lemma admitted_S n limit c : 0 ≤ c → 0 ≤ limit →
  admitted (S n) limit c = (c + 1 <=? limit) :: admitted n limit (c + 1).
Proof.
  intros Hc Hl. unfold admitted. destruct (Z.leb_spec (c + 1) limit).
  - replace (Z.to_nat (Z.min (Z.of_nat (S n)) (limit - c)))
      with (S (Z.to_nat (Z.min (Z.of_nat n) (limit - (c + 1))))) by lia.
    simpl. do 3 f_equal. lia.
  - rewrite !(Z2Nat.nonpos (Z.min _ _)) by lia.
    replace (Z.to_nat (Z.of_nat (S n) - Z.max 0 (limit - c)))
      with (S (Z.to_nat (Z.of_nat n - Z.max 0 (limit - (c + 1))))) by lia.
    done.
Qed.

(** Once the cap is reached nothing is admitted, whatever is counted. *)
Lemma admitted_full n limit c : limit ≤ c → admitted n limit c = replicate n false.
Proof.
  intros Hc. unfold admitted. rewrite (Z2Nat.nonpos (Z.min _ _)) by lia. simpl. f_equal. lia.
Qed.

Lemma admitted_from_0 n limit : 0 ≤ limit →
  admitted n limit 0 = replicate (n `min` Z.to_nat limit) true ++ replicate (n - Z.to_nat limit) false.
Proof. intros. unfold admitted. f_equal; f_equal; lia. Qed.

(** ** Fixed windows *)
Section windows.
Context {S : Type} `{ValkeyServer S} `{!ValkeyLaws S}.

Definition window_count (w : world S) (scope ip : string) (window c : Z) : Prop :=
  counter (w_srv w) (w_vms w) (windowKey scope ip (Truncate (w_now w) window)) c.

Definition window_left (w : world S) (window : Z) : Z := Truncate (w_now w) window + window - w_now w.

Lemma Allow_run scope ip limit m (w : world S) c :
  quiet w → 0 < m → window_count w scope ip (m * second) c → c + 1 ≤ max_int64 →
  ∃ w', Allow scope ip limit (m * second) w =
          (Ok (if c + 1 <=? limit then (true, 0) else (false, window_left w (m * second))), w') ∧
        quiet w' ∧ w_now w' = w_now w ∧ w_vms w' = w_vms w ∧
        window_count w' scope ip (m * second) (c + 1).
Proof.
  intros Hq Hm [Hr Hc] Hmax. unfold Allow, bind, now, window_count in *.
  set (k := windowKey scope ip _) in *.
  destruct (incr_counter sec_ms prec_ms (w_vms w) k c 1 _ ltac:(lia) (proj1 Hr) Hmax Hc) as [x E].
  destruct (expireNX_counter sec_ms prec_ms (w_vms w) k (c + 1) (m * second * 2) x) as [y F].
  { apply (ttl_positive _ (m * 2)); lia. }
  rewrite pipeline_quiet by done. unfold window_left. eexists. split.
  - cbn [exec_list fst snd first_err]. vk. rewrite E. cbn [fst snd]. rewrite F.
    cbn [fst reply_err rint reply_at nth].
    destruct (Z.ltb_spec limit (c + 1)), (Z.leb_spec (c + 1) limit); try lia; reflexivity.
  - repeat split; try done; try lia. right.
    cbn [w_srv w_vms with_srv exec_list snd w_now]. fold k. vk. rewrite E. cbn [snd]. rewrite F.
    by eexists.
Qed.

Fixpoint run_allow (n : nat) (scope ip : string) (limit window : Z) : M S (list bool) :=
  match n with
  | O => ret []
  | Datatypes.S n' =>
      let* r := Allow scope ip limit window in
      let* rest := run_allow n' scope ip limit window in
      ret ((match r with Ok (b, _) => b | Err _ => true end) :: rest)
  end.

Lemma run_allow_spec n scope ip limit m (w : world S) c :
  quiet w → 0 < m → window_count w scope ip (m * second) c → 0 ≤ limit → c + Z.of_nat n ≤ max_int64 →
  (run_allow n scope ip limit (m * second) w).1 = admitted n limit c.
Proof.
  revert w c. induction n as [|n IH]; intros w c Hq Hm Hc Hl Hmax; [by rewrite admitted_0|].
  cbn [run_allow]. unfold bind.
  destruct (Allow_run scope ip limit m w c) as (w1 & E & Hq1 & Hn1 & Hv1 & Hc1); [done|done|done|lia|].
  rewrite E. specialize (IH w1 (c + 1) Hq1 Hm Hc1 Hl ltac:(lia)).
  destruct (run_allow n scope ip limit (m * second) w1) as [rest w2]. simpl in *. rewrite IH.
  rewrite admitted_S by (done || apply Hc). by destruct (c + 1 <=? limit).
Qed.

(** The fixed-window limiter is exact: of [n] attempts of an address in a window that
    starts empty, the first [limit] are allowed and all the others refused. *)
Lemma Allow_admits_exactly_limit n scope ip limit m (w : world S) :
  quiet w → 0 < m → window_count w scope ip (m * second) 0 → 0 ≤ limit → Z.of_nat n ≤ max_int64 →
  (run_allow n scope ip limit (m * second) w).1 =
    replicate (n `min` Z.to_nat limit) true ++ replicate (n - Z.to_nat limit) false.
Proof.
  intros Hq Hm Hc Hl Hn. rewrite (run_allow_spec n scope ip limit m w 0) by (done || lia).
  by apply admitted_from_0.
Qed.

Lemma Truncate_bounds t d : 0 < d → Truncate t d ≤ t < Truncate t d + d.
Proof.
  intros Hd. unfold Truncate. destruct (Z.leb_spec d 0); [lia|].
  pose proof (Z.mod_pos_bound (t + 62135596800 * second) d Hd). lia.
Qed.

(** The read-only check changes nothing and predicts what the consuming check would
    answer. *)
Lemma Over_predicts_Allow scope ip limit m (w : world S) c :
  quiet w → 0 < m → window_count w scope ip (m * second) c → 0 < limit → c + 1 ≤ max_int64 →
  let '(over, w1) := Over scope ip limit (m * second) w in
  let '(allow, w2) := Allow scope ip limit (m * second) w in
  (∀ k, look (w_srv w1) (w_vms w1) k = look (w_srv w) (w_vms w) k) ∧
  ((∃ ra, over = Ok (true, ra) ∧ allow = Ok (false, ra) ∧ 0 < ra ≤ m * second) ∨
   (over = Ok (false, 0) ∧ allow = Ok (true, 0))).
Proof.
  intros Hq Hm Hc Hl Hmax.
  destruct (Allow_run scope ip limit m w c) as (w2 & E & _); [done..|]. rewrite E.
  unfold Over, bind, now, window_count in *. set (k := windowKey scope ip _) in *.
  clearbody k. rewrite call_quiet by done. vk.
  pose proof (Truncate_bounds (w_now w) (m * second)) as Hb.
  pose proof (get_reads_only (w_vms w) k (w_srv w)) as Hro.
  destruct Hc as [Hr [[-> Hk]|[ex Hk]]]; simpl; rewrite Hk; simpl.
  - split; [exact Hro|]. right. zcase. done.
  - rewrite ParseInt_FormatInt by done.
    destruct (Z.leb_spec limit c), (Z.leb_spec (c + 1) limit); try lia.
    + split; [exact Hro|]. left. eexists. split; [done|]. split; [done|].
      unfold second in *. lia.
    + split; [exact Hro|]. by right.
Qed.
End windows.

(** ** The CA wait-until *)
Section cooldown.
Context {S : Type} `{ValkeyServer S} `{!ValkeyLaws S}.

Lemma look_live (s : S) ms k v ex : look s ms k = Some (Entry v (Some ex)) → ms < ex.
Proof.
  intros Hl. pose proof (law_time s ms ms k ltac:(lia)) as Ht. rewrite Hl in Ht. simpl in Ht.
  by destruct (Z.leb_spec ex ms).
Qed.

(** The milliseconds a key has left; a missing key has none. *)
Definition ms_left (s : S) (ms : Z) (k : string) : option Z :=
  match look s ms k with
  | None => Some 0
  | Some (Entry _ (Some ex)) => Some (ex - ms)
  | Some (Entry _ None) => None
  end.

Lemma CACooldown_reads ca (w : world S) t :
  quiet w → ms_left (w_srv w) (w_vms w) (cooldownKey ca) = Some t →
  (CACooldown ca w).1 = Ok (t * millisecond).
Proof.
  intros Hq Ht. unfold CACooldown, bind. rewrite call_quiet by done. vk. unfold ms_left in Ht.
  destruct (look _ _ _) as [[v [ex|]]|] eqn:E; simplify_eq; [|done].
  apply look_live in E. cbn [cmd_spec fst reply_err rint].
  replace (pttl_duration (ex - w_vms w)) with ((ex - w_vms w) * millisecond)
    by (unfold pttl_duration; zcase; done).
  unfold ret. cbn [fst]. unfold millisecond. zcase. done.
Qed.

Lemma cooldown_seconds_whole d : ∃ n, 0 < n ∧ cooldown_seconds d = n * second ∧ d ≤ n * second.
Proof.
  unfold cooldown_seconds. exists (Z.max (- (- d / second)) 1). unfold second.
  split; [lia|]. split; [lia|]. divmod.
Qed.

Lemma SetCACooldown_run ca d (w : world S) t :
  quiet w → ms_left (w_srv w) (w_vms w) (cooldownKey ca) = Some t →
  ∃ w', SetCACooldown ca d w = (Ok tt, w') ∧ quiet w' ∧
        ms_left (w_srv w') (w_vms w') (cooldownKey ca) =
          Some (Z.max t (cooldown_seconds d / millisecond)).
Proof.
  intros Hq Ht. destruct (cooldown_seconds_whole d) as (n & Hn & Hd & _).
  pose proof (law_sec n ltac:(lia)) as Hs.
  assert (prec_ms (n * second) = n * 1000) as Hp.
  { rewrite <- (law_prec (n * 1000)) by lia. f_equal. unfold second, millisecond. lia. }
  assert (n * second / millisecond = n * 1000) as Hdiv.
  { unfold second, millisecond. divmod. }
  unfold SetCACooldown, bind. rewrite Hd. rewrite pipeline_quiet by done.
  rewrite Hdiv. unfold ms_left in *. eexists. split; [|split].
  - cbn [exec_list fst snd first_err]. vk. cbn [cmd_spec]. rewrite ?Hs, ?Hp.
    destruct (look _ _ _) as [[v [ex|]]|]; simplify_eq; simpl; [|done].
    destruct (Z.ltb_spec ex (w_vms w + n * 1000)); simpl; [|done].
    unfold with_deadline. zcase. done.
  - by apply with_srv_quiet.
  - cbn [exec_list snd w_srv w_vms with_srv]. vk. cbn [cmd_spec]. rewrite ?Hs, ?Hp.
    destruct (look _ _ _) as [[v [ex|]]|] eqn:E; simplify_eq; simpl.
    + apply look_live in E. destruct (Z.ltb_spec ex (w_vms w + n * 1000)); simpl; [|f_equal; lia].
      unfold with_deadline. zcase. simpl. f_equal. lia.
    + unfold with_deadline. zcase. simpl. f_equal. lia.
Qed.

(** A cooldown is only ever extended: afterwards the longer of the old and the new one
    is left, rounded up to whole seconds. *)
Lemma SetCACooldown_never_shortens ca d (w : world S) t :
  quiet w → ms_left (w_srv w) (w_vms w) (cooldownKey ca) = Some t → 0 ≤ t →
  ∃ w' t', SetCACooldown ca d w = (Ok tt, w') ∧
    (CACooldown ca w).1 = Ok (t * millisecond) ∧ (CACooldown ca w').1 = Ok t' ∧
    t' = Z.max (t * millisecond) (cooldown_seconds d) ∧
    t * millisecond ≤ t' ∧ d ≤ t'.
Proof.
  intros Hq Ht H0. destruct (SetCACooldown_run ca d w t Hq Ht) as (w' & E & Hq' & Ht').
  destruct (cooldown_seconds_whole d) as (n & Hn & Hd & Hle).
  eexists w', _. split; [done|]. split; [by apply CACooldown_reads|].
  split; [by apply CACooldown_reads|].
  rewrite Hd. unfold second, millisecond in *. divmod.
Qed.
End cooldown.

(** ** The issuance lock and the weekly cap *)
Section issuance.
Context {S : Type} `{ValkeyServer S} `{!ValkeyLaws S} `{TokenSupply}.

Definition lock_held (w : world S) (name tok : string) : Prop :=
  ∃ ex, look (w_srv w) (w_vms w) (issLockKey name) = Some (Entry (VStr tok) ex).
(** Held, with its whole lifetime left. *)
Definition lock_fresh (w : world S) (name tok : string) : Prop :=
  look (w_srv w) (w_vms w) (issLockKey name) =
    Some (Entry (VStr tok) (Some (w_vms w + prec_ms issLockTTL))).
Definition lock_free (w : world S) (name : string) : Prop :=
  look (w_srv w) (w_vms w) (issLockKey name) = None.
Definition issued (w : world S) (name : string) (c : Z) : Prop :=
  counter (w_srv w) (w_vms w) (issuanceKey name) c.

Lemma lock_fresh_held w name tok : lock_fresh w name tok → lock_held w name tok.
Proof. intros Hl. by eexists. Qed.

Lemma iss_keys_differ name : issLockKey name ≠ issuanceKey name.
Proof. unfold issLockKey, issuanceKey. intros [=]. Qed.

(** Releasing frees the lock exactly when the token is the holder's. *)
Lemma releaseIssLock_run name tok (w : world S) t :
  quiet w → lock_held w name t →
  ∃ w', releaseIssLock name tok w = (Ok tt, w') ∧ quiet w' ∧
        (w_vms w' = w_vms w ∧ w_minted w' = w_minted w) ∧
        (if String.eqb t tok then lock_free w' name else lock_held w' name t) ∧
        ∀ k, k ≠ issLockKey name → look (w_srv w') (w_vms w) k = look (w_srv w) (w_vms w) k.
Proof.
  intros Hq [ex Hl]. unfold releaseIssLock, bind, lock_free, lock_held. rewrite call_quiet by done.
  vk. rewrite Hl. cbn [cmd_spec fst snd reply_err rstr].
  destruct (String.eqb t tok); [rewrite call_quiet by done|];
    (eexists; split; [|split; [|split; [|split]]]).
  - cbn [w_vms w_srv with_srv]. vk. reflexivity.
  - done.
  - done.
  - cbn [w_vms w_srv with_srv]. by vk.
  - intros k Hk. cbn [w_vms w_srv with_srv]. by vk.
  - reflexivity.
  - done.
  - done.
  - cbn [w_vms w_srv with_srv]. vk. rewrite Hl. by eexists.
  - intros k Hk. cbn [w_vms w_srv with_srv]. by vk.
Qed.

(** Ending an issuance frees the lock if this order still holds it and leaves another
    order's lock alone. *)
Lemma IssuanceEnd_releases_only_own name tok (w : world S) t :
  quiet w → lock_held w name t →
  ∃ w', IssuanceEnd name tok w = (Ok tt, w') ∧
        (tok = t → lock_free w' name) ∧ (tok ≠ t → lock_held w' name t).
Proof.
  intros Hq Hl. destruct (releaseIssLock_run name tok w t Hq Hl) as (w' & E & _ & _ & Hl' & _).
  exists w'. split; [exact E|]. destruct (String.eqb_spec t tok); naive_solver.
Qed.

Lemma lock_ttl : 0 < prec_ms issLockTTL.
Proof.
  replace issLockTTL with (15000 * millisecond) by done. rewrite law_prec; lia.
Qed.

Lemma setnx_free (w : world S) name tok : quiet w → lock_free w name →
  ∃ w', call (SetNX (issLockKey name) tok issLockTTL) w = (Ok (RBool true), w') ∧ quiet w' ∧
        w_vms w' = w_vms w ∧ w_minted w' = w_minted w ∧ w_done w' = w_done w ∧ lock_fresh w' name tok ∧
        ∀ k, k ≠ issLockKey name → look (w_srv w') (w_vms w) k = look (w_srv w) (w_vms w) k.
Proof.
  intros Hq Hf. rewrite call_quiet by done. unfold lock_free, lock_fresh in *.
  pose proof lock_ttl as Ht. eexists. split; [|split; [|split; [|split; [|split; [|split]]]]].
  - vk. rewrite Hf. reflexivity.
  - done.
  - done.
  - done.
  - done.
  - cbn [w_vms w_srv with_srv]. vk. rewrite Hf. simpl. unfold with_deadline. zcase. done.
  - intros k Hk. cbn [w_vms w_srv with_srv]. by vk.
Qed.

Lemma setnx_held (w : world S) name tok t : quiet w → lock_held w name t →
  ∃ w', call (SetNX (issLockKey name) tok issLockTTL) w = (Ok (RBool false), w') ∧ quiet w' ∧
        w_vms w' = w_vms w ∧
        ∀ k, look (w_srv w') (w_vms w) k = look (w_srv w) (w_vms w) k.
Proof.
  intros Hq [ex Hl]. rewrite call_quiet by done. eexists. split; [|split; [|split]].
  - vk. rewrite Hl. reflexivity.
  - done.
  - done.
  - intros k. cbn [w_vms w_srv with_srv].
    destruct (decide (k = issLockKey name)) as [->|]; vk; [|done]. by rewrite Hl.
Qed.

Lemma get_counter (w : world S) k c : quiet w → counter (w_srv w) (w_vms w) k c →
  ∃ w' r, call (Get k) w = (r, w') ∧ quiet w' ∧ w_vms w' = w_vms w ∧
    (w_minted w' = w_minted w ∧ w_done w' = w_done w) ∧
    match r with
    | Err RedisNil => Some 0
    | Err RedisErr => None
    | Ok v => match ParseInt (rstr v) with Ok n => Some n | Err _ => None end
    end = Some c ∧
    ∀ k', look (w_srv w') (w_vms w) k' = look (w_srv w) (w_vms w) k'.
Proof.
  intros Hq [Hr Hc]. rewrite call_quiet by done.
  eexists _, _. split; [reflexivity|]. do 3 (split; [done|]). split.
  - vk. destruct Hc as [[-> ->]|[ex ->]]; simpl; [done|]. by rewrite ParseInt_FormatInt.
  - intros k'. apply get_reads_only.
Qed.
Lemma window_left_run (w : world S) name : quiet w →
  ∃ w' d, issuanceWindowLeft name w = (d, w') ∧ quiet w' ∧ w_vms w' = w_vms w ∧
    w_minted w' = w_minted w ∧
    (∀ k, k ≠ issuanceKey name → look (w_srv w') (w_vms w) k = look (w_srv w) (w_vms w) k) ∧
    (∀ c, issued w name c → issued w' name c) ∧ ∃ t, d = Ok t ∧ second ≤ t.
Proof.
  intros Hq. unfold issuanceWindowLeft, bind, issued, counter. rewrite call_quiet by done. vk.
  cbn [cmd_spec fst reply_err rint].
  assert (0 < sec_ms issWindowTTL) as Hs by (by apply (ttl_positive _ 604800)).
  destruct (look (w_srv w) (w_vms w) (issuanceKey name)) as [[v [ex|]]|] eqn:El.
  - pose proof (look_live _ _ _ _ _ El) as Hlive. unfold pttl_duration.
    destruct (Z.ltb_spec (ex - w_vms w) 0); [lia|].
    destruct (Z.ltb_spec 0 ((ex - w_vms w) * millisecond)); [|unfold millisecond in *; lia].
    eexists _, _. split; [reflexivity|]. do 3 (split; [done|]). cbn [w_vms w_srv with_srv].
    split; [intros k Hk; by vk|]. split; [vk; rewrite El; done|].
    eexists. split; [done|]. unfold millisecond, second in *.
    rewrite Z.quot_div_nonneg by lia. divmod.
  - simpl. rewrite call_quiet by done. cbn [w_vms w_srv with_srv]. vk. rewrite El.
    eexists _, _. split; [reflexivity|]. do 3 (split; [done|]). cbn [w_vms w_srv with_srv].
    split; [intros k Hk; by vk|]. split; [|by eexists].
    vk. rewrite El. simpl. unfold with_deadline. zcase.
    intros c [Hc [[_ ?]|[ex ?]]]; simplify_eq. split; [done|]. right. by eexists.
  - simpl. eexists _, _. split; [reflexivity|]. do 3 (split; [done|]). cbn [w_vms w_srv with_srv].
    split; [intros k Hk; by vk|]. split; [vk; rewrite El; done|]. by eexists.
Qed.

(** The three ways a round can begin. *)
Lemma IssuanceBegin_busy name maxN (w : world S) t : quiet w → lock_held w name t →
  ∃ w', IssuanceBegin name maxN w = (Err ErrIssuanceInFlight, w') ∧
        ∀ k, look (w_srv w') (w_vms w) k = look (w_srv w) (w_vms w) k.
Proof.
  intros Hq Hl. unfold IssuanceBegin, bind at 1, mintToken. cbv beta iota zeta.
  set (w0 := World (w_now w) _ _ _ _ _). unfold bind.
  destruct (setnx_held w0 name (token (w_minted w)) t) as (w1 & E & _ & _ & Hk); [done..|].
  rewrite E. simpl. by eexists.
Qed.

Lemma IssuanceBegin_free name maxN (w : world S) c :
  quiet w → lock_free w name → issued w name c →
  ∃ r w', IssuanceBegin name maxN w = (r, w') ∧
    quiet w' ∧ w_vms w' = w_vms w ∧ w_minted w' = Datatypes.S (w_minted w) ∧ issued w' name c ∧
    if maxN <=? c then lock_free w' name ∧ ∃ d, r = Ok (false, "", d) ∧ second ≤ d
    else lock_fresh w' name (token (w_minted w)) ∧ w_done w' = w_done w ∧ r = Ok (true, token (w_minted w), 0).
Proof.
  intros Hq Hf Hc. unfold IssuanceBegin. unfold bind at 1. unfold mintToken. cbv beta iota zeta.
  set (w0 := World (w_now w) _ _ _ _ _). set (tok := token (w_minted w)). unfold bind at 1.
  pose proof (iss_keys_differ name) as Hne.
  destruct (setnx_free w0 name tok) as (w1 & E & Hq1 & Hv1 & Hm1 & Hd1 & Hl1 & Hk1); [done..|].
  rewrite E. cbn [rbool negb].
  assert (issued w1 name c) as Hc1.
  { unfold issued, counter in *. rewrite Hv1, Hk1 by congruence. exact Hc. }
  unfold bind at 1.
  destruct (get_counter w1 (issuanceKey name) c Hq1 Hc1) as (w2 & r & E2 & Hq2 & Hv2 & [Hm2 Hd2] & Hr & Hk2).
  rewrite E2, Hr.
  assert (issued w2 name c) as Hc2. { unfold issued, counter in *. by rewrite Hv2, Hk2. }
  assert (lock_fresh w2 name tok) as Hl2. { unfold lock_fresh in *. by rewrite Hv2, Hk2. }
  change (w_vms w0) with (w_vms w) in *. change (w_minted w0) with (Datatypes.S (w_minted w)) in *.
  destruct (maxN <=? c).
  - unfold bind. destruct (releaseIssLock_run name tok w2 tok Hq2 (lock_fresh_held _ _ _ Hl2)) as (w3 & -> & Hq3 & [Hv3 Hm3] & Hl3 & Hk3).
    rewrite String.eqb_refl in Hl3.
    destruct (window_left_run w3 name Hq3) as (w4 & d & -> & Hq4 & Hv4 & Hm4 & Hk4 & Hc4 & t & -> & Ht).
    eexists _, w4. split; [reflexivity|]. split; [done|]. split; [congruence|].
    assert (issued w3 name c) as Hc3.
    { unfold issued, counter in *. rewrite Hv3, Hk3 by congruence. done. }
    split; [|split; [by apply Hc4|]].
    + congruence.
    + split; [|by eexists]. unfold lock_free in *. rewrite Hv4, Hk4 by done. congruence.
  - eexists _, w2. split; [reflexivity|]. split; [done|]. do 2 (split; [congruence|]).
    split; [exact Hc2|]. split; [exact Hl2|]. split; [|reflexivity].
    by rewrite Hd2, Hd1.
Qed.
(** [IssuanceBegin] refuses while another order runs, admits below the cap with the lock
    held, and refuses at the cap with the lock freed and a wait of at least a second. *)
Lemma IssuanceBegin_decides name maxN (w : world S) :
  quiet w →
  (∀ t, lock_held w name t →
     ∃ w', IssuanceBegin name maxN w = (Err ErrIssuanceInFlight, w') ∧
           ∀ k, look (w_srv w') (w_vms w) k = look (w_srv w) (w_vms w) k) ∧
  (∀ c, lock_free w name → issued w name c → c < maxN →
     ∃ w', IssuanceBegin name maxN w = (Ok (true, token (w_minted w), 0), w') ∧
           lock_held w' name (token (w_minted w)) ∧ issued w' name c) ∧
  (∀ c, lock_free w name → issued w name c → maxN ≤ c →
     ∃ w' d, IssuanceBegin name maxN w = (Ok (false, "", d), w') ∧ second ≤ d ∧
           lock_free w' name ∧ issued w' name c).
Proof.
  intros Hq. split; [intros t; by apply IssuanceBegin_busy|].
  split; intros c Hf Hc Hcap;
    destruct (IssuanceBegin_free name maxN w c Hq Hf Hc) as (r & w' & -> & _ & _ & _ & Hc' & Hr);
    destruct (Z.leb_spec maxN c); try lia.
  - destruct Hr as (Hl & _ & ->). exists w'. split; [done|]. split; [by apply lock_fresh_held|done].
  - destruct Hr as (Hl & d & -> & Hd). by exists w', d.
Qed.

Lemma IssuanceRecord_run name (w : world S) c t :
  quiet w → lock_held w name t → issued w name c → c + 1 ≤ max_int64 →
  ∃ w', IssuanceRecord name w = (Ok tt, w') ∧ quiet w' ∧ w_minted w' = w_minted w ∧
        lock_held w' name t ∧ issued w' name (c + 1).
Proof.
  intros Hq Hl [Hr Hc] Hmax. pose proof (iss_keys_differ name) as Hne.
  destruct (incr_counter sec_ms prec_ms (w_vms w) (issuanceKey name) c 1 _ ltac:(lia) (proj1 Hr) Hmax Hc)
    as [x E].
  destruct (expireNX_counter sec_ms prec_ms (w_vms w) (issuanceKey name) (c + 1) issWindowTTL x) as [y F].
  { by apply (ttl_positive _ 604800). }
  unfold IssuanceRecord, bind. rewrite pipeline_quiet by done.
  eexists. split; [|split; [|split; [|split]]].
  - cbn [exec_list fst snd first_err]. vk. rewrite E. cbn [fst snd]. rewrite F. reflexivity.
  - done.
  - done.
  - unfold lock_held in *. cbn [w_srv w_vms with_srv exec_list snd]. by vk.
  - unfold issued, counter. cbn [w_srv w_vms with_srv exec_list snd]. vk. rewrite E. cbn [snd].
    rewrite F. split; [lia|]. right. by eexists.
Qed.

(** One issuance round as [enroll.Issue] runs it when the CA delivers: begin,
    record the certificate, end. *)
Definition issue_round (name : string) (maxN : Z) : M S bool :=
  let* r := IssuanceBegin name maxN in
  match r with
  | Ok (true, orderID, _) =>
      let* _ := IssuanceRecord name in
      let* _ := IssuanceEnd name orderID in
      ret true
  | _ => ret false
  end.

Fixpoint issue_rounds (n : nat) (name : string) (maxN : Z) : M S (list bool) :=
  match n with
  | O => ret []
  | Datatypes.S n' =>
      let* b := issue_round name maxN in
      let* rest := issue_rounds n' name maxN in
      ret (b :: rest)
  end.

Lemma issue_round_run name maxN (w : world S) c :
  quiet w → lock_free w name → issued w name c → c + 1 ≤ max_int64 →
  ∃ w', issue_round name maxN w = (c <? maxN, w') ∧ quiet w' ∧ lock_free w' name ∧
        issued w' name (if c <? maxN then c + 1 else c).
Proof.
  intros Hq Hf Hc Hmax. unfold issue_round, bind at 1.
  destruct (IssuanceBegin_free name maxN w c Hq Hf Hc) as (r & w1 & -> & Hq1 & _ & _ & Hc1 & Hr).
  rewrite Z.ltb_antisym. destruct (maxN <=? c); simpl.
  - destruct Hr as (Hf1 & d & -> & _). exists w1. split; [reflexivity|]. done.
  - destruct Hr as (Hl1%lock_fresh_held & _ & ->). unfold bind at 1.
    destruct (IssuanceRecord_run name w1 c _ Hq1 Hl1 Hc1 Hmax) as (w2 & -> & Hq2 & _ & Hl2 & Hc2).
    unfold bind, IssuanceEnd.
    destruct (releaseIssLock_run name (token (w_minted w)) w2 _ Hq2 Hl2)
      as (w3 & -> & Hq3 & [Hv3 _] & Hl3 & Hk3).
    rewrite String.eqb_refl in Hl3. exists w3. split; [reflexivity|].
    split; [done|]. split; [done|]. unfold issued, counter in *.
    pose proof (iss_keys_differ name). by rewrite Hv3, Hk3 by congruence.
Qed.

Lemma issue_rounds_run n name maxN (w : world S) c :
  quiet w → lock_free w name → issued w name c → 0 ≤ maxN → c + Z.of_nat n ≤ max_int64 →
  (issue_rounds n name maxN w).1 = admitted n maxN c.
Proof.
  revert w c. induction n as [|n IH]; intros w c Hq Hf Hc Hm Hmax; [by rewrite admitted_0|].
  cbn [issue_rounds]. unfold bind.
  destruct (issue_round_run name maxN w c) as (w1 & -> & Hq1 & Hf1 & Hc1); [done|done|done|lia|].
  pose proof (proj1 (proj1 Hc)) as Hc0.
  specialize (IH w1 _ Hq1 Hf1 Hc1 Hm ltac:(destruct (c <? maxN); lia)).
  destruct (issue_rounds n name maxN w1) as [rest w2]. simpl in *. rewrite IH.
  rewrite admitted_S by done. destruct (Z.ltb_spec c maxN), (Z.leb_spec (c + 1) maxN); try lia.
  - done.
  - f_equal. by rewrite !admitted_full by lia.
Qed.

(** ** The heartbeat keeps the lock for as long as the order runs *)
Lemma refresh_fresh name tok (w : world S) ex : quiet w →
  look (w_srv w) (w_vms w) (issLockKey name) = Some (Entry (VStr tok) (Some ex)) →
  ∃ w', refreshIssLock name tok w = (tt, w') ∧ frame (issLockKey name) w w' ∧ lock_fresh w' name tok.
Proof.
  intros Hq Hl. unfold refreshIssLock, bind.
  destruct (call_spec (Get (issLockKey name)) (issLockKey name) w) as (w1 & -> & F1 & E1); [done..|].
  unfold at_key in E1 at 2. unfold at_key at 1. rewrite Hl in *. spec_simpl. rewrite String.eqb_refl.
  destruct (call_spec (PExpire (issLockKey name) issLockTTL) (issLockKey name) w1) as (w2 & -> & F2 & E2);
    [apply F1|done|].
  rewrite E1 in E2. spec_simpl. pose proof lock_ttl. unfold with_deadline in E2. revert E2. zcase. intros E2.
  exists w2. split; [reflexivity|]. split; [by eapply frame_trans|].
  unfold lock_fresh. unfold at_key in E2. by rewrite E2, (frame_vms _ _ _ F2).
Qed.

Lemma heartbeat_fresh n name tok (w : world S) :
  quiet w → w_done w = None → lock_fresh w name tok →
  ∃ w', IssuanceHeartbeatLoop n name tok w = (tt, w') ∧ quiet w' ∧ w_done w' = None ∧
        lock_fresh w' name tok ∧ w_now w' = w_now w + Z.of_nat n * issLockBeat ∧ w_vms w ≤ w_vms w' ∧
        ∀ k, k ≠ issLockKey name → at_key w' k = expire (w_vms w') (at_key w k).
Proof.
  revert w. induction n as [|n IH]; intros w Hq Hd Hl.
  { exists w. split; [reflexivity|]. do 3 (split; [done|]). split; [lia|]. split; [lia|].
    intros k _. apply law_time. lia. }
  cbn [IssuanceHeartbeatLoop]. unfold bind at 1, sleep. rewrite Hd.
  set (w1 := World _ _ _ _ _ _).
  assert (prec_ms issLockTTL = 15000) as Hp.
  { replace issLockTTL with (15000 * millisecond) by done. by rewrite law_prec. }
  destruct (refresh_fresh name tok w1 (w_vms w + prec_ms issLockTTL)) as (w2 & E2 & F2 & Hl2); [done| |].
  { unfold w1. simpl. rewrite (law_time _ (w_vms w)); [|unfold issLockBeat, second, millisecond; divmod].
    rewrite Hl. simpl. rewrite Hp. change (issLockBeat / millisecond) with 5000. zcase. done. }
  unfold bind at 1. rewrite E2.
  destruct (IH w2 (frame_quiet _ _ _ F2)) as (w' & E' & Q' & D' & L' & N' & V' & K');
    [by rewrite (frame_done _ _ _ F2)|done|].
  rewrite (frame_vms _ _ _ F2) in V'. unfold w1 in V'. simpl in V'. change (issLockBeat / millisecond) with 5000 in V'.
  exists w'. split; [done|]. do 3 (split; [done|]). split; [|split; [lia|]].
  - rewrite N', (frame_now _ _ _ F2). unfold w1. simpl. lia.
  - intros k Hk. rewrite K', (frame_keys _ _ _ F2) by done. unfold at_key, w1. simpl.
    change (issLockBeat / millisecond) with 5000. rewrite (law_time _ (w_vms w)) by lia.
    symmetry. by apply expire_mono.
Qed.

(** A counter read later: it is what it was, or its window is over. *)
Lemma counter_later (w w' : world S) k c :
  at_key w' k = expire (w_vms w') (at_key w k) → counter (w_srv w) (w_vms w) k c →
  ∃ c', (c' = c ∨ c' = 0) ∧ counter (w_srv w') (w_vms w') k c'.
Proof.
  unfold at_key. intros He [Hr Hc]. unfold counter. rewrite He.
  destruct Hc as [[-> ->]|[ex ->]]; [exists 0; simpl; auto|].
  destruct ex as [ex|]; simpl; [destruct (ex <=? w_vms w')|].
  - exists 0. split; [auto|]. split; [unfold max_int64; lia|auto].
  - exists c. split; [auto|]. split; [done|]. right. by eexists.
  - exists c. split; [auto|]. split; [done|]. right. by eexists.
Qed.

(** A running heartbeat keeps the lock for as long as it beats. *)
Lemma heartbeat_keeps_lock n name tok (w : world S) :
  quiet w → w_done w = None → lock_fresh w name tok →
  ∃ w', IssuanceHeartbeatLoop n name tok w = (tt, w') ∧ lock_held w' name tok ∧
        w_now w' = w_now w + Z.of_nat n * issLockBeat.
Proof.
  intros Hq Hd Hl. destruct (heartbeat_fresh n name tok w Hq Hd Hl) as (w' & E & _ & _ & L & N & _ & _).
  exists w'. split; [done|]. split; [by apply lock_fresh_held|done].
Qed.

(** The weekly cap is exact: of [n] issuance rounds of a tunnel that all succeed, the
    first [maxN] get a certificate and all the others are told to wait. *)
Lemma weekly_issuance_cap n name maxN (w : world S) :
  quiet w → lock_free w name → issued w name 0 → 0 ≤ maxN → Z.of_nat n ≤ max_int64 →
  (issue_rounds n name maxN w).1 =
    replicate (n `min` Z.to_nat maxN) true ++ replicate (n - Z.to_nat maxN) false.
Proof.
  intros Hq Hf Hc Hm Hn. rewrite (issue_rounds_run n name maxN w 0) by (done || lia).
  by apply admitted_from_0.
Qed.
End issuance.

(** ** Witnesses *)
Lemma Allow_admits_exactly_limit_witness :
  (run_allow 5 "connect" "192.0.2.1" 3 (60 * second) sample_world).1 =
    replicate 3 true ++ replicate 2 false.
Proof.
  apply (Allow_admits_exactly_limit 5 "connect" "192.0.2.1" 3 60 sample_world);
    [done|lia|apply empty_counter|lia|by vm_compute].
Defined.

Lemma weekly_issuance_cap_witness :
  (issue_rounds 4 "abc" 2 sample_world).1 = replicate 2 true ++ replicate 2 false.
Proof.
  apply (weekly_issuance_cap 4 "abc" 2 sample_world);
    [done|done|apply empty_counter|lia|by vm_compute].
Defined.

Lemma Charge_quiet_witness :
  ∃ w', Charge {| bwRate := 500; pktCap := 0; dayCap := 1000; weekCap := 5000; streamTTL := minute |}
          "abc" "m" "in" 600 sample_world =
          (charge_decide {| bwRate := 500; pktCap := 0; dayCap := 1000; weekCap := 5000; streamTTL := minute |}
             (w_now sample_world) (0 + 600) (0 + 1) (0 + 600) (0 + 600), None, w') ∧
        charged w' "abc" "in" (0 + 600) (0 + 1) (0 + 600) (0 + 600).
Proof.
  apply (Charge_quiet _ "abc" "m" "in" 600 sample_world 0 0 0 0); try by vm_compute.
  unfold charged. destruct (chargeKeys _ _ _) as [[[? ?] ?] ?]. repeat (split; [apply empty_counter|]). done.
Defined.
End Limiter.
