(* ===== verification/StreamCap.v ===== *)
(** * The global stream cap under concurrency

    [internal/limit/concurrency.go] caps the open streams of a tunnel across
    all nodes with one sorted set per tunnel.  The commands of concurrent
    [AcquireStream], [ReleaseStream] and [Charge] calls interleave at the
    server, members lapse when their score passes, and any call may fail half
    way, its commands arriving later or never.  [step] is that system with what
    the edge does about the answers ([handleTunnel] and [evictAndAcquire] of
    [edge/bridge.go]): a refused stream may try again with the same token, and a
    stream whose check failed is let in unchecked.  The theorem is that the
    streams that were checked and still hold a member never exceed the cap, so
    that only the unchecked ones can be above it. *)
From Stdlib Require Import ZArith Lia Ascii String.
From S2P Require Import Prelude GoStr Valkey Limiter.
Local Open Scope string_scope.
Local Open Scope list_scope.
Local Open Scope Z_scope.

Module StreamCap.
Import Limiter.

(** Where one stream's call stands; a stream is named by its member. *)
Inductive phase :=
| Acquiring (n : Z) (pc : nat) (card : Z)  (* [pc] commands sent, entered at [n] *)
| Open                                     (* admitted: AcquireStream returned true *)
| Unchecked                                (* admitted: AcquireStream returned an error *)
| Refused                                  (* AcquireStream returned false: a retry, or the end *)
| Closed.                                  (* released, or refused for good *)

Definition admitted (p : phase) : bool := match p with Open | Unchecked => true | _ => false end.

#[export] Instance phase_eq : EqDecision phase.
Proof. solve_decision. Defined.

(** The members of the sorted set an entry holds; only a ZADD adds one. *)
Definition zmembers (e : option entry) : gmap string Z :=
  match zset_of e with Some (z, _) => z | None => ∅ end.

Definition adds (c : vcmd) : gset string :=
  match c with ZAdd _ _ m => {[m]} | _ => ∅ end.

Lemma zmembers_entry z ex : zmembers (zset_entry z ex) = z.
Proof. unfold zmembers, zset_entry. by case_decide. Qed.

Lemma zmembers_set s ex : zmembers (set_entry s ex) = ∅.
Proof. unfold zmembers, set_entry. by case_decide. Qed.

Lemma zmembers_deadline now at_ v ex :
  dom (zmembers (with_deadline now at_ v)) ⊆ dom (zmembers (Some (Entry v ex))).
Proof. unfold with_deadline. case_match; [set_solver|]. by destruct v. Qed.

Lemma zmembers_expire now e : dom (zmembers (expire now e)) ⊆ dom (zmembers e).
Proof. destruct e as [[v [ex|]]|]; simpl; try case_match; set_solver. Qed.

Lemma zmembers_string now at_ v : zmembers (with_deadline now at_ (VStr v)) = ∅.
Proof. unfold with_deadline. by case_match. Qed.

Lemma zmembers_cmd sm pm now c e :
  dom (zmembers (cmd_spec sm pm now c e).2) ⊆ adds c ∪ dom (zmembers e).
Proof.
  assert (∀ at_ v ex, dom (zmembers (with_deadline now at_ v)) ⊆ ∅ ∪ dom (zmembers (Some (Entry v ex))))
    as Hd by (intros; pose proof (zmembers_deadline now at_ v ex); set_solver).
  destruct c; cbn [cmd_spec adds snd]; rewrite ?zmembers_string; try set_solver;
    destruct e as [[u ex]|]; cbn [snd]; rewrite ?zmembers_string; auto;
    repeat first [ rewrite zmembers_entry | rewrite zmembers_set | case_match; cbn [snd] ]; auto;
    try set_solver;
    match goal with E : zset_of ?e = Some _ |- _ => unfold zmembers; rewrite E end;
    rewrite ?dom_insert_lookup_L by (eapply mk_is_Some; eassumption);
    first [ set_solver | etrans; [apply dom_filter_subseteq | set_solver] ].
Qed.

Section system.
Context {S : Type} `{ValkeyServer S} (l : Limiter) (name : string) (maxN : Z).

Record state := State {
  srv : S;
  ms : Z;
  phases : gmap string phase;
  removed : gset string;                   (* members with a ZREM on its way *)
  late : gmap string (Z * nat)             (* the commands a failed acquire may still deliver *)
}.

Definition members (s : state) : gmap string Z :=
  zmembers (look (srv s) (ms s) (concKey name)).

(** The phase after the reply of the command number [pc]. *)
Definition after_reply (n : Z) (pc : nat) (card : Z) (r : vreply) : phase :=
  let card := if (pc =? 2)%nat then rint r else card in
  if (Datatypes.S pc =? 4)%nat then if card <=? maxN then Open else Refused
  else Acquiring n (Datatypes.S pc) card.

Definition on_server (c : vcmd) (ps : gmap string phase) (s : state) : state :=
  State (exec (ms s) c (srv s)).2 (ms s) ps (removed s) (late s).
Definition at_phase (m : string) (p : phase) (rem : gset string) (s : state) : state :=
  State (srv s) (ms s) (<[m := p]> (phases s)) (rem ∪ removed s) (late s).

Inductive step : state → state → Prop :=
| step_time s t :
    ms s ≤ t → step s (State (srv s) t (phases s) (removed s) (late s))
(* AcquireStream, command by command *)
| step_begin s m n :
    phases s !! m = None → step s (at_phase m (Acquiring n 0 0) ∅ s)
| step_acquire s m n pc card c :
    phases s !! m = Some (Acquiring n pc card) →
    acquire_cmds l name m n !! pc = Some c →
    reply_err (exec (ms s) c (srv s)).1 = None →
    step s (on_server c (<[m := after_reply n pc card (exec (ms s) c (srv s)).1]> (phases s)) s)
(* the ZREM of a refused acquire is sent before it returns, and may fail or be late *)
| step_undo s m :
    phases s !! m = Some Refused → step s (at_phase m Refused {[m]} s)
(* the pipeline fails: the edge lets the stream in *)
| step_fail s m n pc card :
    phases s !! m = Some (Acquiring n pc card) →
    step s (State (srv s) (ms s) (<[m := Unchecked]> (phases s)) (removed s) (<[m := (n, pc)]> (late s)))
| step_late s m n pc c :
    late s !! m = Some (n, pc) →
    acquire_cmds l name m n !! pc = Some c →
    step s (State (exec (ms s) c (srv s)).2 (ms s) (phases s) (removed s) (<[m := (n, Datatypes.S pc)]> (late s)))
(* evictAndAcquire tries again with the same token, or gives up *)
| step_retry s m n :
    phases s !! m = Some Refused → step s (at_phase m (Acquiring n 0 0) ∅ s)
| step_give_up s m :
    phases s !! m = Some Refused → step s (at_phase m Closed ∅ s)
(* ReleaseStream, at the end or by an evictor *)
| step_release s m p :
    phases s !! m = Some p → admitted p = true → step s (at_phase m Closed {[m]} s)
| step_zrem s m :
    m ∈ removed s → step s (on_server (ZRem (concKey name) m) (phases s) s)
(* the commands of Charge on the set *)
| step_charge s m p n c :
    phases s !! m = Some p → admitted p = true →
    c ∈ [ZAddXX (concKey name) (UnixMilli (n + streamTTL l)) m; PExpire (concKey name) (streamTTL l)] →
    step s (on_server c (phases s) s)
| step_other s c :
    cmd_key c ≠ Some (concKey name) → step s (on_server c (phases s) s).

(** Streams the cap counts: admitted, or past a ZCARD that admits them. *)
Definition counted (p : phase) : bool :=
  match p with
  | Open => true
  | Acquiring _ pc card => (pc =? 3)%nat && (card <=? maxN)
  | _ => false
  end.

(** The streams that were let in and hold a member, and those of them that were not checked. *)
Definition open_streams (s : state) : gset string :=
  filter (λ m, admitted (default Closed (phases s !! m)) = true) (dom (members s)).
Definition unchecked_streams (s : state) : gset string :=
  filter (λ m, phases s !! m = Some Unchecked) (dom (members s)).

(** ** The members after one command *)
Context `{!ValkeyLaws S}.

Lemma members_exec s c p r lt :
  dom (members (State (exec (ms s) c (srv s)).2 (ms s) p r lt)) ⊆
    (if decide (cmd_key c = Some (concKey name)) then adds c else ∅) ∪ dom (members s).
Proof.
  unfold members. simpl. case_decide as Hk.
  - rewrite (law_effect _ _ _ _ Hk). apply zmembers_cmd.
  - rewrite law_frame by done. set_solver.
Qed.

Lemma members_time s t p r lt : ms s ≤ t → dom (members (State (srv s) t p r lt)) ⊆ dom (members s).
Proof. intros Ht. unfold members. simpl. rewrite (law_time _ _ _ _ Ht). apply zmembers_expire. Qed.

(** ** The invariant *)
Definition counted_at (ps : gmap string phase) (m : string) : Prop :=
  counted (default Closed (ps !! m)) = true.
#[local] Instance counted_at_dec ps m : Decision (counted_at ps m).
Proof. unfold counted_at. apply _. Defined.

Definition holders (s : state) : gset string := filter (counted_at (phases s)) (dom (members s)).

(** Late commands are of streams that are not counted. *)
Record within (s : state) : Prop := {
  wi_cap : Z.of_nat (size (holders s)) ≤ maxN;
  wi_late m : is_Some (late s !! m) → phases s !! m = Some Unchecked ∨ phases s !! m = Some Closed
}.

(** A step that neither adds a counted member nor counts another stream keeps
    the bound. *)
Lemma cap_mono s s' :
  (∀ m, m ∈ dom (members s') → counted_at (phases s') m →
        m ∈ dom (members s) ∧ counted_at (phases s) m) →
  Z.of_nat (size (holders s)) ≤ maxN → Z.of_nat (size (holders s')) ≤ maxN.
Proof.
  unfold holders. intros Hsub Hw.
  pose proof (subseteq_size (filter (counted_at (phases s')) (dom (members s')))
                (filter (counted_at (phases s)) (dom (members s)))) as Hs.
  assert (filter (counted_at (phases s')) (dom (members s'))
            ⊆ filter (counted_at (phases s)) (dom (members s))) as Hf.
  { intros m [Hc Hm]%elem_of_filter. apply elem_of_filter. naive_solver. }
  specialize (Hs Hf). lia.
Qed.

Lemma counted_insert ps m p m' :
  counted_at (<[m := p]> ps) m' → (m' = m ∧ counted p = true) ∨ counted_at ps m'.
Proof.
  unfold counted_at. destruct (decide (m' = m)) as [->|Hne].
  - rewrite lookup_insert_eq. auto.
  - rewrite lookup_insert_ne by done. auto.
Qed.

(** The members of another stream after a command of [m]. *)
Lemma member_kept s c p r lt m :
  m ∈ dom (members (State (exec (ms s) c (srv s)).2 (ms s) p r lt)) → m ∉ adds c → m ∈ dom (members s).
Proof. intros Hm Ha. pose proof (members_exec s c p r lt). case_decide; set_solver. Qed.

Lemma zcard_reply s :
  reply_err (exec (ms s) (ZCard (concKey name)) (srv s)).1 = None →
  rint (exec (ms s) (ZCard (concKey name)) (srv s)).1 = Z.of_nat (size (members s)).
Proof.
  unfold members, zmembers. vk. cbn [cmd_spec fst].
  destruct (zset_of _) as [[z ex]|]; simpl; done.
Qed.

Lemma cap_counts s n m card :
  Z.of_nat (size (holders s)) ≤ maxN →
  let c := ZCard (concKey name) in
  reply_err (exec (ms s) c (srv s)).1 = None →
  Z.of_nat (size (holders (on_server c (<[m := after_reply n 2 card (exec (ms s) c (srv s)).1]> (phases s)) s))) ≤ maxN.
Proof.
  intros Hw c He. unfold after_reply. simpl. unfold c. rewrite (zcard_reply s He).
  destruct (Z.leb_spec (Z.of_nat (size (members s))) maxN) as [Hle|Hgt].
  - unfold holders. set (s' := on_server _ _ _).
    assert (filter (counted_at (phases s')) (dom (members s')) ⊆ dom (members s)) as Hsub.
    { intros x [_ Hx]%elem_of_filter. by eapply member_kept; [exact Hx|]; set_solver. }
    apply subseteq_size in Hsub. rewrite size_dom in Hsub. lia.
  - revert Hw. apply cap_mono. simpl. intros x Hx Hc. split; [eapply member_kept; [exact Hx|]; set_solver|].
    apply counted_insert in Hc as [[-> Hc]|Hc]; [|done]. simpl in Hc. zbool. lia.
Qed.

(** A command of [m] that adds at most its own member, with a change of its phase
    that counts only if it did and adds nothing then. *)
Lemma cap_exec s c m ps r lt :
  adds c ⊆ {[m]} → (counted_at ps m → counted_at (phases s) m ∧ adds c = ∅) →
  (∀ x, x ≠ m → counted_at ps x → counted_at (phases s) x) →
  Z.of_nat (size (holders s)) ≤ maxN →
  Z.of_nat (size (holders (State (exec (ms s) c (srv s)).2 (ms s) ps r lt))) ≤ maxN.
Proof.
  intros Ha Hm Hx. apply cap_mono. simpl. intros x Hin Hc.
  destruct (decide (x = m)) as [->|Hne].
  - destruct (Hm Hc) as [? E]. split; [|done]. eapply member_kept; [exact Hin|]. set_solver.
  - split; [|by apply Hx]. eapply member_kept; [exact Hin|]. set_solver.
Qed.

(** A change of phase without a command. *)
Lemma cap_phase s m p r lt :
  counted p = false → Z.of_nat (size (holders s)) ≤ maxN →
  Z.of_nat (size (holders (State (srv s) (ms s) (<[m := p]> (phases s)) r lt))) ≤ maxN.
Proof.
  intros Hp. apply cap_mono. simpl. intros x Hx Hc. split; [done|].
  apply counted_insert in Hc as [[_ ?]|?]; congruence.
Qed.

Lemma other_phase ps m p x : x ≠ m → counted_at (<[m := p]> ps) x → counted_at ps x.
Proof. intros Hne. unfold counted_at. by rewrite lookup_insert_ne. Qed.

Lemma late_phase s m p q :
  (∀ m, is_Some (late s !! m) → phases s !! m = Some Unchecked ∨ phases s !! m = Some Closed) →
  phases s !! m = q → (q = None ∨ q = Some Refused ∨ (∃ n pc card, q = Some (Acquiring n pc card)) ∨ p = Closed ∨ p = Unchecked) →
  ∀ x, is_Some (late s !! x) → <[m := p]> (phases s) !! x = Some Unchecked ∨ <[m := p]> (phases s) !! x = Some Closed.
Proof.
  intros Hl Hm Hq x Hx. destruct (decide (x = m)) as [->|Hne]; [|rewrite lookup_insert_ne by done; auto].
  rewrite lookup_insert_eq. destruct (Hl m Hx) as [E|E]; rewrite E in Hm; subst q; naive_solver.
Qed.

Lemma cap_acquire s m n pc card c :
  Z.of_nat (size (holders s)) ≤ maxN → phases s !! m = Some (Acquiring n pc card) →
  acquire_cmds l name m n !! pc = Some c → reply_err (exec (ms s) c (srv s)).1 = None →
  Z.of_nat (size (holders (on_server c (<[m := after_reply n pc card (exec (ms s) c (srv s)).1]> (phases s)) s))) ≤ maxN.
Proof.
  intros Hw Hm Hc He. destruct pc as [|[|[|[|pc]]]]; simplify_eq/=.
  - apply (cap_exec s _ m); simpl; [set_solver| |eauto using other_phase|done].
    unfold counted_at. by rewrite lookup_insert_eq.
  - apply (cap_exec s _ m); simpl; [set_solver| |eauto using other_phase|done].
    unfold counted_at. by rewrite lookup_insert_eq.
  - by apply (cap_counts s n m card).
  - apply (cap_exec s _ m); simpl; [set_solver| |eauto using other_phase|done].
    unfold after_reply, counted_at. rewrite lookup_insert_eq, Hm. simpl. by destruct (card <=? maxN).
Qed.

Lemma cap_server s c r lt : adds c = ∅ ∨ cmd_key c ≠ Some (concKey name) → Z.of_nat (size (holders s)) ≤ maxN →
  Z.of_nat (size (holders (State (exec (ms s) c (srv s)).2 (ms s) (phases s) r lt))) ≤ maxN.
Proof.
  intros Hc. apply cap_mono. simpl. intros x Hx Hco. split; [|done].
  pose proof (members_exec s c (phases s) r lt) as Hsub. case_decide; set_solver.
Qed.

Lemma within_step s s' : within s → step s s' → within s'.
Proof.
  intros [Hw Hl] Hs. destruct Hs as [s t Ht|s m n Hm|s m n pc card c Hm Hc He|s m Hm|s m n pc card Hm|s m n pc c Hm Hc
    |s m n Hm|s m Hm|s m p Hm Hp|s m Hm|s m p n c Hm Hp Hc|s c Hc]; split; cbn [late phases on_server at_phase].
  - revert Hw. apply cap_mono. simpl. intros x Hx Hc. split; [|done].
    by apply (members_time s t (phases s) (removed s) (late s)).
  - done.
  - by apply cap_phase.
  - eapply late_phase; eauto.
  - by eapply cap_acquire.
  - eapply late_phase; eauto 10.
  - by apply cap_phase.
  - eapply late_phase; eauto.
  - by apply cap_phase.
  - intros x. destruct (decide (x = m)) as [->|Hne]; rewrite ?lookup_insert_eq, ?lookup_insert_ne by done; auto.
  - assert (is_Some (late s !! m)) as [Hp|Hp]%Hl by eauto;
      (apply (cap_exec s _ m); [destruct pc as [|[|[|[|pc]]]]; simplify_eq/=; set_solver|unfold counted_at; by rewrite Hp|auto|done]).
  - intros x. destruct (decide (x = m)) as [->|Hne]; rewrite ?lookup_insert_eq, ?lookup_insert_ne by done; eauto.
  - by apply cap_phase.
  - eapply late_phase; eauto.
  - by apply cap_phase.
  - eapply late_phase; eauto.
  - by apply cap_phase.
  - eapply late_phase; eauto.
  - apply cap_server; [by left|done].
  - done.
  - apply cap_server; [|done]. left. set_unfold in Hc. by destruct Hc as [->|[->|[]]].
  - done.
  - apply cap_server; [by right|done].
  - done.
Qed.

(** C3. The cap on open streams holds across nodes. For every interleaving of pipelines
    that succeed, fail executed or not, or are executed late, with retries under the
    same token, evictions, releases and time: the admitted streams that hold a member of
    the tunnel's set are at most the cap plus the streams that were let in unchecked,
    which is what the edge does when the pipeline fails. A stream whose member lapsed is
    not counted. *)
Theorem open_streams_within_cap s s' :
  phases s = ∅ → late s = ∅ → 0 ≤ maxN → run step s s' →
  Z.of_nat (size (open_streams s')) ≤ maxN + Z.of_nat (size (unchecked_streams s')).
Proof.
  intros H0 Hl Hmax Hr.
  assert (within s) as Hw.
  { split; [|rewrite Hl; intros m; rewrite lookup_empty; by intros []]. unfold holders. rewrite H0.
    replace (filter (counted_at ∅) (dom (members s))) with (∅ : gset string); [by rewrite size_empty|].
    symmetry. apply set_eq. intros m. rewrite elem_of_filter. unfold counted_at.
    rewrite lookup_empty. set_solver. }
  apply (run_invariant step within within_step _ _ Hr) in Hw as [Hw _].
  enough (open_streams s' ⊆ holders s' ∪ unchecked_streams s') as Hsub.
  { apply subseteq_size in Hsub. pose proof (size_union_alt (holders s') (unchecked_streams s')) as E.
    pose proof (subseteq_size (unchecked_streams s' ∖ holders s') (unchecked_streams s') ltac:(set_solver)). lia. }
  intros m [Hm Hd]%elem_of_filter. apply elem_of_union.
  destruct (phases s' !! m) as [[]|] eqn:E; simpl in Hm; try done.
  - left. apply elem_of_filter. split; [|done]. unfold counted_at. by rewrite E.
  - right. by apply elem_of_filter.
Qed.

(** ** One call, undisturbed *)
Definition unexpired (n : Z) (z : gmap string Z) : gmap string Z :=
  filter (λ msc, ¬ msc.2 ≤ UnixMilli n) z.

(** An undisturbed acquire prunes the members that have lapsed, adds its own, and keeps
    it exactly when the set is within the cap. *)
Lemma AcquireStream_quiet member (w : world S) z ex :
  quiet w → zset_of (look (w_srv w) (w_vms w) (concKey name)) = Some (z, ex) →
  0 < prec_ms (streamTTL l) →
  let live := <[member := UnixMilli (w_now w + streamTTL l)]> (unexpired (w_now w) z) in
  let ok := Z.of_nat (size live) <=? maxN in
  ∃ w', AcquireStream l name member maxN w = (Ok ok, w') ∧
        zmembers (look (w_srv w') (w_vms w') (concKey name)) = if ok then live else delete member live.
Proof.
  intros Hq Hz Hp live ok. unfold AcquireStream, bind at 1, now. cbv beta iota.
  unfold bind at 1. rewrite pipeline_quiet by done. unfold acquire_cmds.
  assert (zset_of (zset_entry (unexpired (w_now w) z) ex) = Some (unexpired (w_now w) z,
            if decide (unexpired (w_now w) z = ∅) then None else ex)) as E1.
  { unfold zset_entry. by case_decide as Hd; rewrite ?Hd. }
  assert (live ≠ ∅) as Hne by apply insert_non_empty.
  assert (∀ x, zset_entry live x = Some (Entry (VZSet live) x)) as E2.
  { intros x. unfold zset_entry. by rewrite decide_False. }
  cbn [exec_list fst snd first_err reply_at nth rint]. vk.
  cbn [cmd_spec]. rewrite Hz. cbn [fst snd reply_err]. fold (unexpired (w_now w) z). rewrite E1.
  cbn [fst snd reply_err]. fold live. rewrite E2. cbn [zset_of fst snd reply_err rint].
  unfold reply_at. cbn [nth rint]. fold ok. destruct ok eqn:Eok.
  - eexists. split; [reflexivity|]. cbn [w_srv w_vms with_srv exec_list snd]. vk.
    cbn [cmd_spec]. rewrite Hz. cbn [snd]. fold (unexpired (w_now w) z). rewrite E1.
    cbn [snd]. fold live. rewrite E2. cbn [snd zset_of]. unfold with_deadline. zcase. done.
  - unfold bind. rewrite call_quiet by done. eexists. split; [reflexivity|].
    cbn [w_srv w_vms with_srv exec_list snd]. vk.
    cbn [cmd_spec]. rewrite Hz. cbn [snd]. fold (unexpired (w_now w) z). rewrite E1.
    cbn [snd]. fold live. rewrite E2. cbn [snd zset_of]. unfold with_deadline. zcase.
    cbn [zset_of snd]. by rewrite zmembers_entry.
Qed.
End system.

(** ** A witness: one stream under a cap of two *)
Definition sample_limiter : Limiter :=
  {| bwRate := 500; pktCap := 10; dayCap := 10000; weekCap := 50000; streamTTL := minute |}.
Definition sample_start : state := State (MemServer ∅) 0 ∅ ∅ ∅.

Ltac acquires m := step_to ltac:(eapply (step_acquire _ _ _ _ m); [computes|computes|computes]).

Lemma open_streams_within_cap_witness :
  ∃ s', run (step sample_limiter "abc" 1) sample_start s' ∧
        phases s' !! "a" = Some Closed ∧ phases s' !! "b" = Some Open ∧ phases s' !! "c" = Some Unchecked ∧
        open_streams "abc" s' = {["b"; "c"]} ∧
        Z.of_nat (size (open_streams "abc" s')) ≤ 1 + Z.of_nat (size (unchecked_streams "abc" s')).
Proof.
  assert (∃ s', run (step sample_limiter "abc" 1) sample_start s' ∧
    (phases s' !! "a" = Some Closed ∧ phases s' !! "b" = Some Open ∧ phases s' !! "c" = Some Unchecked ∧
     open_streams "abc" s' = {["b"; "c"]})) as (s' & Hr & Hp).
  { eexists. split.
    - step_to ltac:(apply (step_begin _ _ _ _ "a" 0); computes). do 4 acquires "a".
      (* [b] is over the cap, [a] is evicted, [b] tries again *)
      step_to ltac:(apply (step_begin _ _ _ _ "b" 0); computes). do 4 acquires "b".
      step_to ltac:(apply (step_undo _ _ _ _ "b"); computes).
      step_to ltac:(apply (step_zrem _ _ _ _ "b"); by vm_compute).
      step_to ltac:(apply (step_release _ _ _ _ "a" Open); computes).
      step_to ltac:(apply (step_zrem _ _ _ _ "a"); by vm_compute).
      step_to ltac:(apply (step_retry _ _ _ _ "b" 0); computes). do 4 acquires "b".
      (* the pipeline of [c] fails after its ZADD *)
      step_to ltac:(apply (step_begin _ _ _ _ "c" 0); computes). do 2 acquires "c".
      step_to ltac:(eapply (step_fail _ _ _ _ "c"); computes). apply run_refl.
    - split_and!; by vm_compute. }
  exists s'. split; [done|]. destruct Hp as (? & ? & ? & ?). split_and!; try done.
  by apply (open_streams_within_cap sample_limiter "abc" 1 sample_start s').
Defined.
End StreamCap.
