(* ===== verification/Pacing.v ===== *)
(** * The traffic windows under concurrency

    [Limiter.Charge] of [internal/limit/limiter.go] counts the bytes and the
    reads of one direction of a tunnel in four windows that every stream and
    every node share.  The pipelines of concurrent charges interleave at the
    server, connections fail half way, nodes read different clocks and keys
    expire.  [step] is that system, one command a transition.  A charge whose
    pipeline failed proceeds unchecked.  The theorem is that in each window the
    charges that are let through at once never exceed its cap by more than those
    unchecked ones. *)
From Stdlib Require Import ZArith Lia Ascii String.
From S2P Require Import Prelude GoStr Valkey Limiter.
Local Open Scope string_scope.
Local Open Scope list_scope.
Local Open Scope Z_scope.

Module Pacing.
Import Limiter.

(** The four windows of [chargeKeys]. *)
Inductive win := Bytes | Packets | Day | Week.

(** One call of [Charge]: what it charges, the clock it read, and the replies
    so far.  A lost call gets no replies, but its commands may still arrive. *)
Record charge := {
  c_member : string; c_nr : Z; c_n : Z;
  c_sent : nat; c_replies : list vreply; c_lost : bool
}.

Section system.
Context {S : Type} `{ValkeyServer S} `{!ValkeyLaws S}.
Context (l : Limiter) (name dir : string).

Definition cmds (c : charge) : list vcmd := charge_cmds l name (c_member c) dir (c_nr c) (c_n c).

(** What the call has returned, and whether with an error; [None] while its
    pipeline is under way.  On an error the charge proceeds. *)
Definition verdict (c : charge) : option (ChargeAction * bool) :=
  if c_lost c then Some (ChargeProceed, true)
  else if negb (length (c_replies c) =? length (cmds c))%nat then None
  else match first_err (c_replies c) with
       | Some _ => Some (ChargeProceed, true)
       | None =>
           let at_ i := rint (reply_at (c_replies c) i) in
           Some ((charge_decide l (c_n c) (at_ 0%nat) (at_ 1%nat) (at_ 2%nat) (at_ 3%nat)).1.1, false)
       end.

Definition window_key (v : win) (n : Z) : string :=
  let '(b, p, d, w) := chargeKeys name dir (Unix n) in
  match v with Bytes => b | Packets => p | Day => d | Week => w end.
Definition window_index (v : win) : nat :=
  match v with Bytes => 0 | Packets => 1 | Day => 2 | Week => 3 end.
Definition window_ttl (v : win) : Z :=
  match v with Bytes | Packets => bwWindowTTL | Day => trafDayTTL | Week => trafWeekTTL end.
Definition window_cap (v : win) : Z :=
  match v with Bytes => bwRate l | Packets => pktCap l | Day => dayCap l | Week => weekCap l end.
Definition amount (v : win) (c : charge) : Z :=
  match v with Packets => 1 | _ => c_nr c end.

Record state := State { srv : S; ms : Z; charges : gmap nat charge }.

Definition sent (c : charge) (r : vreply) : charge :=
  {| c_member := c_member c; c_nr := c_nr c; c_n := c_n c; c_sent := Datatypes.S (c_sent c);
     c_replies := if c_lost c then c_replies c else c_replies c ++ [r]; c_lost := c_lost c |}.
Definition lose (c : charge) : charge :=
  {| c_member := c_member c; c_nr := c_nr c; c_n := c_n c; c_sent := c_sent c;
     c_replies := c_replies c; c_lost := true |}.

(** Other clients do what they like with every other key. *)
Inductive step (k : string) : state → state → Prop :=
| step_time s t : ms s ≤ t → step k s (State (srv s) t (charges s))
| step_begin s i member nr n :
    charges s !! i = None → 0 ≤ nr ≤ max_int64 → 0 ≤ n →
    step k s (State (srv s) (ms s)
                (<[i := {| c_member := member; c_nr := nr; c_n := n;
                           c_sent := 0; c_replies := []; c_lost := false |}]> (charges s)))
| step_send s i c cmd :
    charges s !! i = Some c → cmds c !! c_sent c = Some cmd →
    step k s (State (exec (ms s) cmd (srv s)).2 (ms s)
                (<[i := sent c (exec (ms s) cmd (srv s)).1]> (charges s)))
| step_lose s i c :
    charges s !! i = Some c → step k s (State (srv s) (ms s) (<[i := lose c]> (charges s)))
| step_other s cmd :
    cmd_key cmd ≠ Some k → step k s (State (exec (ms s) cmd (srv s)).2 (ms s) (charges s)).

(** The charge of [c] against window [v] of key [k], when it is let through. *)
Definition passed_by (v : win) (k : string) (c : charge) : Z :=
  if decide (window_key v (c_n c) = k) then
    match verdict c with Some (ChargeProceed, _) => amount v c | _ => 0 end
  else 0.
Definition passed (v : win) (k : string) (s : state) : Z := sum_of (passed_by v k) (charges s).

(** The part of it that no answer has checked. *)
Definition unchecked_by (v : win) (k : string) (c : charge) : Z :=
  if decide (window_key v (c_n c) = k) then
    match verdict c with Some (_, true) => amount v c | _ => 0 end
  else 0.
Definition unchecked (v : win) (k : string) (s : state) : Z := sum_of (unchecked_by v k) (charges s).

(** ** Keys *)
Lemma window_key_inj v v' n n' : window_key v n = window_key v' n' → v = v'.
Proof.
  unfold window_key, chargeKeys. destruct v, v'; try done; intros [= E];
    by apply str_app_inv_l in E; simplify_eq.
Qed.

Lemma conc_not_window v n : concKey name ≠ window_key v n.
Proof. unfold window_key, chargeKeys, concKey. destruct v; intros [=]. Qed.

Definition windows : list win := [Bytes; Packets; Day; Week].

Lemma cmds_shape c :
  cmds c = map (λ v, IncrBy (window_key v (c_n c)) (amount v c)) windows ++
           map (λ v, ExpireNX (window_key v (c_n c)) (window_ttl v)) windows ++
           [ZAddXX (concKey name) (UnixMilli (c_n c + streamTTL l)) (c_member c);
            PExpire (concKey name) (streamTTL l)].
Proof. reflexivity. Qed.

Lemma cmds_index v c : cmds c !! window_index v = Some (IncrBy (window_key v (c_n c)) (amount v c)).
Proof. rewrite cmds_shape. by destruct v. Qed.

(** A charge touches a window's key twice, in its own window only. *)
Lemma cmds_on_key v n c j cmd :
  cmds c !! j = Some cmd → cmd_key cmd = Some (window_key v n) →
  (j = window_index v ∧ window_key v (c_n c) = window_key v n ∧
     cmd = IncrBy (window_key v n) (amount v c)) ∨
  (j ≠ window_index v ∧ cmd = ExpireNX (window_key v n) (window_ttl v)).
Proof.
  rewrite cmds_shape. intros Hj Hk.
  do 10 (destruct j as [|j]; [simpl in Hj; simplify_eq; simpl in Hk;
    first [ by destruct (conc_not_window v n); injection Hk
          | injection Hk as Hk; pose proof (window_key_inj _ _ _ _ Hk) as Hv; subst v;
            first [ left; split; [done|]; split; [done|]; by rewrite Hk
                  | right; split; [done|]; by rewrite Hk ] ] |]).
  by destruct j.
Qed.

(** ** The invariant *)
Section window.
Context (v : win) (n0 T : Z).
#[local] Notation k := (window_key v n0).

Definition wf (c : charge) : Prop :=
  0 ≤ c_nr c ≤ max_int64 ∧ 0 ≤ c_n c ∧ (c_lost c = false → length (c_replies c) = c_sent c).

(** What [c] has been told it may add to the window. *)
Definition granted (c : charge) : Z :=
  if decide (window_key v (c_n c) = k ∧ c_lost c = false) then
    match c_replies c !! window_index v with
    | Some r => match reply_err r with
                | None => if rint r <=? window_cap v then amount v c else 0
                | Some _ => 0
                end
    | None => 0
    end
  else 0.

Lemma amount_range c : wf c → 0 ≤ amount v c ≤ max_int64.
Proof. intros ([] & _). unfold max_int64 in *. destruct v; simpl; lia. Qed.

Lemma granted_nonneg c : wf c → 0 ≤ granted c.
Proof. intros [? _]%amount_range. unfold granted. repeat case_match; lia. Qed.

Lemma first_err_none rs i r : first_err rs = None → rs !! i = Some r → reply_err r = None.
Proof.
  revert i. induction rs as [|r0 rs IH]; intros [|i]; simpl; try done; intros Hf Hr;
    destruct (reply_err r0) eqn:E; simplify_eq; eauto.
Qed.

Lemma reply_at_lookup rs i r : rs !! i = Some r → reply_at rs i = r.
Proof. intros Hr. unfold reply_at. apply nth_lookup_Some with (d := RNil) in Hr. done. Qed.

Lemma passed_granted c : wf c → (v = Packets → 0 < pktCap l) → passed_by v k c ≤ granted c + unchecked_by v k c.
Proof.
  intros Hw Hp. pose proof (granted_nonneg c Hw) as Hg. pose proof (amount_range c Hw) as Ha. destruct Hw as (Hnr & Hn & _).
  unfold passed_by, unchecked_by. case_decide as Hk; [|lia].
  destruct (verdict c) as [[[] []]|] eqn:Hv; try lia. rewrite Z.add_0_r. unfold verdict in Hv.
  destruct (c_lost c) eqn:Hl; [done|].
  destruct (Nat.eqb_spec (length (c_replies c)) (length (cmds c))) as [Hlen|]; cbn [negb] in Hv; [|done].
  destruct (first_err (c_replies c)) eqn:Hf; [done|].
  destruct (charge_decide _ _ _ _ _ _) as [[a wt] wn] eqn:Hd. cbn [fst] in Hv. injection Hv as ->.
  apply decide_proceed in Hd as (Hb & Hpk & Hday & Hweek); [|done].
  destruct (lookup_lt_is_Some_2 (c_replies c) (window_index v)) as [r Hr].
  { rewrite Hlen, cmds_shape. destruct v; simpl; lia. }
  unfold granted. rewrite decide_True by done. rewrite Hr, (first_err_none _ _ _ Hf Hr).
  apply reply_at_lookup in Hr. destruct (Z.leb_spec (rint r) (window_cap v)); [done|].
  exfalso. destruct v; simpl in *; rewrite Hr in *; try lia. specialize (Hp eq_refl). lia.
Qed.

Definition inv (s : state) : Prop :=
  map_Forall (λ _ c, wf c) (charges s) ∧
  ∃ x, 0 ≤ x ≤ max_int64 ∧
    match look (srv s) (ms s) k with
    | None => x = 0
    | Some e => ∃ ex, e = Entry (VStr (FormatInt x)) ex ∧ ∀ d, ex = Some d → T ≤ d
    end ∧
    sum_of granted (charges s) ≤ Z.min x (window_cap v).

Lemma granted_lose c : wf c → granted (lose c) ≤ granted c.
Proof. intros Hw. pose proof (granted_nonneg c Hw). unfold granted at 1. simpl. rewrite decide_False; [done|]. intros [_ [=]]. Qed.

Lemma wf_sent c r : wf c → wf (sent c r).
Proof.
  intros (? & ? & Hl). split; [done|]. split; [done|]. simpl. intros E. rewrite E.
  rewrite length_app, (Hl E). simpl. lia.
Qed.

(** A reply counts in the window only as the answer to its INCRBY. *)
Lemma granted_sent c r : wf c →
  granted (sent c r) = granted c ∨
  (c_sent c = window_index v ∧ window_key v (c_n c) = k ∧ granted c = 0 ∧
   granted (sent c r) = match reply_err r with
                        | None => if rint r <=? window_cap v then amount v c else 0
                        | Some _ => 0 end).
Proof.
  intros (_ & _ & Hl). unfold granted. cbn [c_n c_lost c_replies sent].
  case_decide as Hd; [|by left]. destruct Hd as [Hk Hlost]. rewrite Hlost. specialize (Hl Hlost).
  destruct (decide (c_sent c = window_index v)) as [Hi|Hi].
  - right. rewrite lookup_app_r, Hl, Hi, Nat.sub_diag by lia. simpl.
    rewrite (lookup_ge_None_2 (c_replies c)) by lia. done.
  - left. destruct (decide (window_index v < length (c_replies c))%nat).
    + by rewrite lookup_app_l by done.
    + rewrite !lookup_ge_None_2; [done|lia|rewrite length_app; simpl; lia].
Qed.

(** What one command of a charge does to the window's counter. *)
Lemma window_step s c cmd x :
  wf c → cmds c !! c_sent c = Some cmd → 0 ≤ x ≤ max_int64 → ms s < T → T ≤ ms s + sec_ms (window_ttl v) →
  match look (srv s) (ms s) k with
  | None => x = 0
  | Some e => ∃ ex, e = Entry (VStr (FormatInt x)) ex ∧ ∀ d, ex = Some d → T ≤ d
  end →
  let r := (exec (ms s) cmd (srv s)).1 in
  ∃ x', x ≤ x' ≤ max_int64 ∧
    match look (exec (ms s) cmd (srv s)).2 (ms s) k with
    | None => x' = 0
    | Some e => ∃ ex, e = Entry (VStr (FormatInt x')) ex ∧ ∀ d, ex = Some d → T ≤ d
    end ∧
    (c_sent c = window_index v → window_key v (c_n c) = k →
     reply_err r = None → rint r = x' ∧ x' = x + amount v c).
Proof.
  intros Hw Hc Hx HT Httl Hlook r. pose proof (amount_range c Hw) as Ha.
  destruct (decide (cmd_key cmd = Some k)) as [Hk|Hk].
  - unfold r. rewrite (law_reply _ _ _ _ Hk), (law_effect _ _ _ _ Hk).
    destruct (cmds_on_key v n0 c _ _ Hc Hk) as [(Hi & Hkey & ->)|[Hi ->]]; cbn [cmd_spec].
    + destruct (look (srv s) (ms s) k) as [e|].
      * destruct Hlook as (ex & -> & Hex). unfold incr_string.
        rewrite ParseInt_FormatInt by (unfold min_int64, max_int64 in *; lia).
        destruct ((min_int64 <=? x + amount v c) && (x + amount v c <=? max_int64)) eqn:Hr; simpl.
        -- zbool. exists (x + amount v c). split; [lia|]. eauto.
        -- exists x. split; [lia|]. split; [eauto|done].
      * subst x. simpl. exists (amount v c). split; [lia|]. split; [|done]. eexists. split; [done|]. done.
    + exists x. split; [lia|]. split; [|done].
      destruct (look (srv s) (ms s) k) as [e|]; [|done].
      destruct Hlook as (ex & -> & Hex). destruct ex as [d|]; simpl; [eauto|].
      unfold with_deadline. zcase. eexists. split; [done|]. intros d [= <-]. done.
  - exists x. rewrite law_frame by done. split; [lia|]. split; [done|].
    intros Hi Hkey. rewrite Hi, cmds_index in Hc. simplify_eq. simpl in Hk. by rewrite Hkey in Hk.
Qed.

Lemma step_clock s s' : step k s s' → ms s ≤ ms s'.
Proof. destruct 1; simpl; lia. Qed.

Lemma inv_step s s' : ms s' < T → T ≤ ms s + sec_ms (window_ttl v) → inv s → step k s s' → inv s'.
Proof.
  intros HT Httl (Hwf & x & Hx & Hlook & Hsum) Hst.
  destruct Hst as [s t Ht|s i member nr n Hi Hnr Hn|s i c cmd Hi Hc|s i c Hi|s cmd Hk]; simpl in *.
  - split; [done|]. exists x. split; [done|]. split; [|done]. simpl.
    rewrite (law_time _ _ _ _ Ht). destruct (look (srv s) (ms s) k) as [[u [d|]]|]; simpl in *; [|done..].
    destruct Hlook as (ex & [= -> <-] & Hd). specialize (Hd d eq_refl). zcase. naive_solver.
  - set (c := {| c_member := member |}).
    assert (granted c = 0) as Hg by (unfold granted; by case_decide).
    split; [by apply map_Forall_insert_2|].
    exists x. split; [done|]. split; [done|]. simpl. rewrite sum_of_insert, Hi. lia.
  - pose proof (Hwf _ _ Hi) as Hw. pose proof (amount_range c Hw) as Ha.
    split; [apply map_Forall_insert_2; [by apply wf_sent|done]|].
    destruct (window_step s c cmd x Hw Hc Hx HT Httl Hlook) as (x' & Hx' & Hlook' & Hr).
    exists x'. split; [lia|]. split; [done|]. simpl. rewrite sum_of_insert, Hi.
    destruct (granted_sent c (exec (ms s) cmd (srv s)).1 Hw) as [->|(Hidx & Hkey & Hg & ->)]; [lia|].
    specialize (Hr Hidx Hkey). destruct (reply_err _) eqn:He; [lia|]. destruct (Hr eq_refl) as [-> ->].
    zcase; lia.
  - pose proof (Hwf _ _ Hi) as Hw. pose proof (granted_lose c Hw).
    split; [apply map_Forall_insert_2; [|done]; by destruct Hw as (? & ? & _)|].
    exists x. split; [done|]. split; [done|]. simpl. rewrite sum_of_insert, Hi. lia.
  - split; [done|]. exists x. simpl. rewrite law_frame by done. done.
Qed.
End window.

(** C4. The traffic caps hold across nodes. In every interleaving of charges on one
    window, whose pipelines succeed or fail, executed or not: what is let through at
    once is at most the cap plus the amounts of the charges that failed, which proceed
    unchecked (the limiter fails open), as long as the key of the window lives. *)
Theorem charges_within_window_cap v n0 s s' :
  charges s = ∅ → look (srv s) (ms s) (window_key v n0) = None →
  0 ≤ window_cap v → (v = Packets → 0 < pktCap l) →
  run (step (window_key v n0)) s s' → ms s' < ms s + sec_ms (window_ttl v) →
  passed v (window_key v n0) s' ≤ window_cap v + unchecked v (window_key v n0) s'.
Proof.
  intros H0 Hk Hcap Hp Hr HT. set (T := ms s + sec_ms (window_ttl v)) in *.
  assert (ms s ≤ ms s' ∧ (ms s' < T → inv v n0 T s')) as [_ Hi].
  { refine (run_invariant (step (window_key v n0)) (λ s1, ms s ≤ ms s1 ∧ (ms s1 < T → inv v n0 T s1)) _ s s' Hr _).
    - intros s1 s2 [Hm Hi] Hst. pose proof (step_clock _ _ _ _ Hst). split; [lia|]. intros H2.
      eapply inv_step; [done| |apply Hi; lia|done]. unfold T in *. lia.
    - split; [lia|]. intros _. split; [by rewrite H0|]. exists 0. rewrite Hk, H0.
      unfold max_int64. split; [lia|]. split; [done|]. unfold sum_of. rewrite map_fold_empty. lia. }
  destruct (Hi HT) as (Hwf & x & _ & _ & Hsum). unfold passed, unchecked.
  etrans; [apply (sum_of_mono _ (λ c, granted v n0 c + unchecked_by v (window_key v n0) c))|rewrite sum_of_add; lia].
  intros i c Hc. apply passed_granted; [|done]. by eapply Hwf.
Qed.
End system.

(** The next command of charge [i], answered. *)
Definition deliver {S} `{ValkeyServer S} (l : Limiter) (name dir : string) (i : nat) (s : state) : state :=
  match charges s !! i with
  | None => s
  | Some c =>
      match cmds l name dir c !! c_sent c with
      | None => s
      | Some cmd => State (exec (ms s) cmd (srv s)).2 (ms s)
                      (<[i := sent c (exec (ms s) cmd (srv s)).1]> (charges s))
      end
  end.

Lemma deliver_run {S} `{ValkeyServer S} l name dir k i n (s : state) :
  run (step l name dir k) s (Nat.iter n (deliver l name dir i) s).
Proof.
  induction n as [|n IH]; [apply run_refl|]. eapply run_trans; [exact IH|]. simpl.
  generalize (Nat.iter n (deliver l name dir i) s) as s1. intros s1. unfold deliver. repeat case_match; try apply run_refl. apply run_one. by eapply step_send.
Qed.

(** ** A witness: two charges of 400 bytes against a cap of 500, the second lost half way *)
Definition sample_limiter : Limiter :=
  {| bwRate := 500; pktCap := 10; dayCap := 10000; weekCap := 50000; streamTTL := 60 * second |}.
Definition sample_start : state := State (MemServer ∅) 0 ∅.
Definition begun (i : nat) (s : state (S := mem_server)) : state :=
  State (srv s) (ms s) (<[i := {| c_member := "m"; c_nr := 400; c_n := 0; c_sent := 0; c_replies := []; c_lost := false |}]> (charges s)).
Definition lost (i : nat) (s : state (S := mem_server)) : state :=
  State (srv s) (ms s) (match charges s !! i with Some c => <[i := lose c]> (charges s) | None => charges s end).
Definition sample_end : state :=
  lost 1 (Nat.iter 1 (deliver sample_limiter "abc" "in" 1) (begun 1
    (Nat.iter 10 (deliver sample_limiter "abc" "in" 0) (begun 0 sample_start)))).

Lemma charges_within_window_cap_witness :
  let k := window_key "abc" "in" Bytes 0 in
  passed sample_limiter "abc" "in" Bytes k sample_end = 800 ∧
  unchecked sample_limiter "abc" "in" Bytes k sample_end = 400 ∧
  passed sample_limiter "abc" "in" Bytes k sample_end ≤ 500 + unchecked sample_limiter "abc" "in" Bytes k sample_end.
Proof.
  split; [by vm_compute|]. split; [by vm_compute|].
  apply (charges_within_window_cap sample_limiter "abc" "in" Bytes 0 sample_start);
    [done|done|done|done| |by vm_compute].
  assert (∀ i s, charges s !! i = None → run (step sample_limiter "abc" "in" (window_key "abc" "in" Bytes 0)) s (begun i s)) as Hb.
  { intros i s Hi. apply run_one. by apply (step_begin _ _ _ _ s i "m" 400 0). }
  assert (∀ i s, run (step sample_limiter "abc" "in" (window_key "abc" "in" Bytes 0)) s (lost i s)) as Hl.
  { intros i [sv t cs]. unfold lost. cbn [srv ms charges]. destruct (cs !! i) as [c|] eqn:E; [|apply run_refl].
    apply run_one. by apply (step_lose _ _ _ _ (State sv t cs) i c). }
  unfold sample_end. eapply run_trans; [|apply Hl]. eapply run_trans; [|apply deliver_run].
  eapply run_trans; [|apply Hb; by vm_compute]. eapply run_trans; [|apply deliver_run].
  by apply Hb.
Defined.
End Pacing.
