(* ===== verification/Router.v ===== *)
(** * The routing table

    [internal/router]: the per-name lock ([lock.go]), the owner-conditional
    heartbeat and unbind ([registry.go]), bind, self-heal and lookup
    ([route_e2e.go]), the byte counters ([traffic.go], [tunnels.go]) and the
    node registry ([nodes.go]).  A route is the hash [tunnel:NAME] with the
    fields [node], [connID], [bytes_in] and [bytes_out].  JSON encoding of a
    node entry and SCAN are parameters. *)
From Stdlib Require Import ZArith Lia Ascii String.
From S2P Require Import Prelude GoStr Valkey.
Local Open Scope string_scope.
Local Open Scope list_scope.
Local Open Scope Z_scope.

Module Router.
Export ValkeyClient.

Inductive route_error :=
| ErrLockContended
| ErrConnIDCollision
| CtxErr
| RedisE (e : rerr).

Inductive HeartbeatResult := HeartbeatRefreshed | HeartbeatNotOwner | HeartbeatMissing.
Inductive SelfHealResult := SelfHealBound | SelfHealNotOwner.

Record Registry := { ttl : Z }.

Definition key (name : string) : string := "tunnel:" +:+ name.
Definition lockKey (name : string) : string := "lock:" +:+ name.
Definition nodeKey (id : string) : string := "node:" +:+ id.
Definition nodeSetKey : string := "nodes".
Definition lockTTL : Z := 5 * second.
Definition lockAttempts : nat := 50.
Definition lockRetryWait : Z := 10 * millisecond.
Definition orphanTTL : Z := 30 * second.

(** The first field of an HMGET reply as a Go string: nil reads as the empty one. *)
Definition field_at (v : vreply) (i : nat) : string := default "" (nth i (rstrs v) None).

Section operations.
Context {S : Type} `{ValkeyServer S} `{TokenSupply}.

(** ** lock.go *)
Definition acquire (name : string) : M S (result rerr (string * bool)) :=
  let* token := mintToken in
  let* r := call (SetNX (lockKey name) token lockTTL) in
  ret match r with Err e => Err e | Ok v => Ok (token, rbool v) end.

Definition release (name token : string) : M S unit :=
  let* r := call (Get (lockKey name)) in
  match r with
  | Err _ => ret tt
  | Ok v =>
      if String.eqb (rstr v) token then let* _ := call (Del (lockKey name)) in ret tt
      else ret tt
  end.

(** [withLock], for a body that leaves a result of type [R]; [fail] is what the
    caller has when the body never ran. *)
Fixpoint withLock_loop {R} (attempts : nat) (name : string) (fail : route_error → R) (fn : M S R) : M S R :=
  match attempts with
  | O => ret (fail ErrLockContended)
  | Datatypes.S attempts' =>
      let* a := acquire name in
      match a with
      | Err e => ret (fail (RedisE e))
      | Ok (token, true) =>
          let* r := fn in
          let* _ := release name token in
          ret r
      | Ok (_, false) =>
          let* stop := sleep lockRetryWait in
          if (stop : bool) then ret (fail CtxErr) else withLock_loop attempts' name fail fn
      end
  end.

Definition withLock {R} (name : string) (fail : route_error → R) (fn : M S R) : M S R :=
  withLock_loop lockAttempts name fail fn.

(** ** registry.go *)
Definition Heartbeat (r : Registry) (name connID : string) : M S (HeartbeatResult * option rerr) :=
  let* o := call (HGet (key name) "connID") in
  match o with
  | Err RedisNil => ret (HeartbeatMissing, None)
  | Err RedisErr => ret (HeartbeatMissing, Some RedisErr)
  | Ok v =>
      if negb (String.eqb (rstr v) connID) then ret (HeartbeatNotOwner, None)
      else
        let* p := call (PExpire (key name) (ttl r)) in
        ret match p with
            | Err e => (HeartbeatMissing, Some e)
            | Ok v => if rbool v then (HeartbeatRefreshed, None) else (HeartbeatMissing, None)
            end
  end.

Definition unbind_body (name connID : string) : M S (result route_error unit) :=
  let* o := call (HGet (key name) "connID") in
  match o with
  | Err RedisNil => ret (Ok tt)
  | Err RedisErr => ret (Err (RedisE RedisErr))
  | Ok v =>
      if negb (String.eqb (rstr v) connID) then ret (Ok tt)
      else
        let* d := call (Del (key name)) in
        ret match d with Err e => Err (RedisE e) | Ok _ => Ok tt end
  end.

Definition Unbind (name connID : string) : M S (result route_error unit) :=
  withLock name Err (unbind_body name connID).

(** ** route_e2e.go *)
Definition bind_fields (nodeID connID : string) (resetBytes : bool) : list (string * string) :=
  [("node", nodeID); ("connID", connID)] ++
  (if resetBytes then [("bytes_in", "0"); ("bytes_out", "0")] else []).

Definition bindHSet (r : Registry) (name nodeID connID : string) (resetBytes : bool)
    : M S (result route_error unit) :=
  let* p := pipeline [HSet (key name) (bind_fields nodeID connID resetBytes);
                      PExpire (key name) (ttl r)] in
  ret match p with Err e => Err (RedisE e) | Ok _ => Ok tt end.

Definition bind_body (r : Registry) (name nodeID connID : string) : M S (result route_error unit) :=
  let* v := call (HMGet (key name) ["connID"]) in
  match v with
  | Err e => ret (Err (RedisE e))
  | Ok v =>
      (* a nil field is not a string: [cid, _] is "" *)
      if String.eqb (field_at v 0) connID then ret (Err ErrConnIDCollision)
      else bindHSet r name nodeID connID true
  end.

Definition BindRoute (r : Registry) (name nodeID connID : string) : M S (result route_error unit) :=
  withLock name Err (bind_body r name nodeID connID).

(** The self-heal body and the result it leaves in the captured variable. *)
Definition heal_body (r : Registry) (name nodeID connID : string)
    : M S (SelfHealResult * result route_error unit) :=
  let* v := call (HMGet (key name) ["node"; "connID"]) in
  match v with
  | Err e => ret (SelfHealBound, Err (RedisE e))
  | Ok v =>
      let node := field_at v 0 in
      let cid := field_at v 1 in
      if String.eqb node "" then
        let* e := bindHSet r name nodeID connID true in ret (SelfHealBound, e)
      else if negb (String.eqb cid connID) then ret (SelfHealNotOwner, Ok tt)
      else let* e := bindHSet r name nodeID connID false in ret (SelfHealBound, e)
  end.

Definition BindRouteIfAbsentOrOwner (r : Registry) (name nodeID connID : string)
    : M S (SelfHealResult * result route_error unit) :=
  withLock name (λ e, (SelfHealBound, Err e)) (heal_body r name nodeID connID).

Definition LookupRoute (name : string) : M S (result rerr (string * string * bool)) :=
  let* v := call (HMGet (key name) ["node"; "connID"]) in
  ret match v with
      | Err e => Err e
      | Ok v =>
          let node := field_at v 0 in
          let cid := field_at v 1 in
          if String.eqb node "" then Ok ("", "", false) else Ok (node, cid, true)
      end.

(** ** traffic.go *)
Definition traffic_cmds (name : string) (bytesIn bytesOut : Z) : list vcmd :=
  (if bytesIn =? 0 then [] else [HIncrBy (key name) "bytes_in" bytesIn]) ++
  (if bytesOut =? 0 then [] else [HIncrBy (key name) "bytes_out" bytesOut]) ++
  [ExpireNX (key name) orphanTTL].

Definition AddTraffic (name : string) (bytesIn bytesOut : Z) : M S (result rerr unit) :=
  let* p := pipeline (traffic_cmds name bytesIn bytesOut) in
  ret match p with Err e => Err e | Ok _ => Ok tt end.

(** ** tunnels.go *)
Record TunnelMetaInfo := { Node : string; BytesIn : Z; BytesOut : Z }.

Definition atoiVal (v : option string) : Z :=
  match v with
  | None => 0
  | Some s => match ParseInt s with Ok n => n | Err _ => 0 end
  end.

Definition meta_of (v : vreply) : option TunnelMetaInfo :=
  if String.eqb (field_at v 0) "" then None
  else Some {| Node := field_at v 0; BytesIn := atoiVal (nth 1 (rstrs v) None);
               BytesOut := atoiVal (nth 2 (rstrs v) None) |}.

Definition TunnelMeta (names : list string) : M S (result rerr (gmap string TunnelMetaInfo)) :=
  match names with
  | [] => ret (Ok ∅)
  | _ =>
      let* p := pipeline (map (λ n, HMGet (key n) ["node"; "bytes_in"; "bytes_out"]) names) in
      ret match p with
          | Err e => Err e
          | Ok rs =>
              Ok (fold_left (λ out nv, match meta_of nv.2 with
                                       | Some i => <[nv.1 := i]> out
                                       | None => out
                                       end) (zip names rs) ∅)
          end
  end.

(** ** nodes.go *)
Record NodeInfo := {
  Advertise : string; Public : string; Hostname : string; Version : string;
  StartedAt : string; LastHeartbeat : string
}.

(** [encoding/json] on [NodeInfo], and one SCAN step: the keys and next cursor. *)
Context (Marshal : NodeInfo → option string) (Unmarshal : string → option NodeInfo).
Context (scan : Z → string → Z → M S (result rerr (list string * Z))).

Inductive node_error := JSONErr | NodeRedis (e : rerr).

Definition RegisterNode (nodeID : string) (info : NodeInfo) (ttl : Z) : M S (result node_error unit) :=
  match Marshal info with
  | None => ret (Err JSONErr)
  | Some b =>
      let* p := pipeline [Set_ (nodeKey nodeID) b ttl; SAdd nodeSetKey nodeID;
                          PExpire nodeSetKey (3 * ttl)] in
      ret match p with Err e => Err (NodeRedis e) | Ok _ => Ok tt end
  end.

Definition RefreshNode := RegisterNode.

Definition DeregisterNode (nodeID : string) : M S (result node_error unit) :=
  let* p := pipeline [Del (nodeKey nodeID); SRem nodeSetKey [nodeID]] in
  ret match p with Err e => Err (NodeRedis e) | Ok _ => Ok tt end.

(** The readable entries and the ids whose entry is gone. *)
Definition split_nodes (ids : list string) (vals : list (option string))
    : gmap string NodeInfo * list string :=
  fold_left (λ acc iv,
    match iv.2 with
    | None => (acc.1, acc.2 ++ [iv.1])
    | Some s => match Unmarshal s with
                | None => acc
                | Some info => (<[iv.1 := info]> acc.1, acc.2)
                end
    end) (zip ids vals) (∅, []).

Definition LiveNodes : M S (result node_error (gmap string NodeInfo)) :=
  let* r := call (SMembers nodeSetKey) in
  match r with
  | Err e => ret (Err (NodeRedis e))
  | Ok v =>
      let ids := omap id (rstrs v) in
      match ids with
      | [] => ret (Ok ∅)
      | _ =>
          let* r := call (MGet (map nodeKey ids)) in
          match r with
          | Err e => ret (Err (NodeRedis e))
          | Ok v =>
              let '(out, gone) := split_nodes ids (rstrs v) in
              match gone with
              | [] => ret (Ok out)
              | _ => let* _ := call (SRem nodeSetKey gone) in ret (Ok out)
              end
          end
      end
  end.

Definition LookupNode (nodeID : string) : M S (result node_error (string * bool)) :=
  let* r := call (Get (nodeKey nodeID)) in
  ret match r with
      | Err RedisNil => Ok ("", false)
      | Err RedisErr => Err (NodeRedis RedisErr)
      | Ok v => match Unmarshal (rstr v) with
                | None => Err JSONErr
                | Some info => Ok (Advertise info, true)
                end
      end.

(** The entries of one SCAN page of [Nodes]. *)
Fixpoint nodes_page (keys : list string) (out : gmap string NodeInfo)
    : M S (result node_error (gmap string NodeInfo)) :=
  match keys with
  | [] => ret (Ok out)
  | k :: keys' =>
      let* r := call (Get k) in
      match r with
      | Err RedisNil => nodes_page keys' out
      | Err RedisErr => ret (Err (NodeRedis RedisErr))
      | Ok v =>
          match Unmarshal (rstr v) with
          | None => nodes_page keys' out
          | Some info => nodes_page keys' (<[str_drop 5 k := info]> out)
          end
      end
  end.

(** [None] when [fuel] SCAN pages did not end the iteration. *)
Fixpoint Nodes (fuel : nat) (cursor : Z) (out : gmap string NodeInfo)
    : M S (option (result node_error (gmap string NodeInfo))) :=
  match fuel with
  | O => ret None
  | Datatypes.S fuel' =>
      let* r := scan cursor "node:*" 256 in
      match r with
      | Err e => ret (Some (Err (NodeRedis e)))
      | Ok (keys, next) =>
          let* p := nodes_page keys out in
          match p with
          | Err e => ret (Some (Err e))
          | Ok out' => if next =? 0 then ret (Some (Ok out')) else Nodes fuel' next out'
          end
      end
  end.

Definition ScanTunnels (cursor count : Z) : M S (result rerr (list string * Z)) :=
  let* r := scan cursor "tunnel:*" count in
  ret match r with
      | Err e => Err e
      | Ok (keys, next) => Ok (map (str_drop 7) keys, next)
      end.
End operations.

(** ** The lock, undisturbed *)
Section theorems.
Context {S : Type} `{ValkeyServer S} `{!ValkeyLaws S} `{TokenSupply}.

Definition unlocked (w : world S) (name : string) : Prop := at_key w (lockKey name) = None.

Lemma lock_key_differs name name' : lockKey name ≠ key name'.
Proof. unfold lockKey, key. intros [=]. Qed.

Lemma lockTTL_positive : 0 < prec_ms lockTTL.
Proof. replace lockTTL with (5000 * millisecond) by done. rewrite law_prec; lia. Qed.

Lemma acquire_free name (w : world S) : quiet w → unlocked w name →
  ∃ w', acquire name w = (Ok (token (w_minted w), true), w') ∧ quiet w' ∧
        w_now w' = w_now w ∧ w_vms w' = w_vms w ∧
        at_key w' (lockKey name) =
          Some (Entry (VStr (token (w_minted w))) (Some (w_vms w + prec_ms lockTTL))) ∧
        ∀ k, k ≠ lockKey name → at_key w' k = at_key w k.
Proof.
  intros Hq Hu. unfold acquire, bind, mintToken. set (w0 := World _ _ _ _ _ _).
  destruct (call_spec (SetNX (lockKey name) (token (w_minted w)) lockTTL) (lockKey name) w0)
    as (w' & -> & [] & E); [done..|].
  change (at_key w0) with (at_key w) in *. rewrite Hu in *. cbn in E. pose proof lockTTL_positive.
  unfold with_deadline in E. revert E. change (w_vms w0) with (w_vms w). zcase. intros E.
  exists w'. by repeat split.
Qed.

Lemma release_own name tok (w : world S) ex : quiet w →
  at_key w (lockKey name) = Some (Entry (VStr tok) ex) →
  ∃ w', release name tok w = (tt, w') ∧ frame (lockKey name) w w' ∧ unlocked w' name.
Proof.
  intros Hq Hl. unfold release, bind.
  destruct (call_spec (Get (lockKey name)) (lockKey name) w) as (w1 & -> & F1 & E1); [done..|].
  rewrite Hl in *. spec_simpl. rewrite String.eqb_refl.
  destruct (call_spec (Del (lockKey name)) (lockKey name) w1) as (w2 & -> & F2 & E2);
    [apply F1|done|].
  exists w2. split; [reflexivity|]. split; [by eapply frame_trans|done].
Qed.

(** What a body that only touches the route's key does, [withLock] does, and
    the lock is free again. *)
Lemma withLock_free {R} name fail (fn : M S R) (w : world S) (Post : R → option entry → Prop) :
  quiet w → unlocked w name →
  (∀ w1, quiet w1 → w_vms w1 = w_vms w → at_key w1 (key name) = at_key w (key name) →
     ∃ r w2, fn w1 = (r, w2) ∧ frame (key name) w1 w2 ∧ Post r (at_key w2 (key name))) →
  ∃ r w', withLock name fail fn w = (r, w') ∧ quiet w' ∧ w_now w' = w_now w ∧ w_vms w' = w_vms w ∧
    unlocked w' name ∧ Post r (at_key w' (key name)) ∧
    ∀ k, k ≠ lockKey name → k ≠ key name → at_key w' k = at_key w k.
Proof.
  intros Hq Hu Hfn. unfold withLock, lockAttempts, withLock_loop. unfold bind at 1.
  pose proof (lock_key_differs name name) as Hne.
  destruct (acquire_free name w Hq Hu) as (w1 & -> & Hq1 & Hn1 & Hv1 & Hl1 & Hk1).
  destruct (Hfn w1 Hq1 Hv1) as (r & w2 & E2 & F2 & HP); [by apply Hk1|].
  unfold bind. rewrite E2.
  destruct (release_own name (token (w_minted w)) w2 (Some (w_vms w + prec_ms lockTTL)) (frame_quiet _ _ _ F2)) as (w3 & -> & F3 & Hu3).
  { rewrite (frame_keys _ _ _ F2) by done. exact Hl1. }
  exists r, w3. split; [reflexivity|]. pose proof (frame_keys _ _ _ F3 (key name)) as Hk.
  split; [apply F3|]. split; [by rewrite (frame_now _ _ _ F3), (frame_now _ _ _ F2)|].
  split; [by rewrite (frame_vms _ _ _ F3), (frame_vms _ _ _ F2)|].
  split; [done|]. split; [by rewrite Hk by done|].
  intros k N1 N2. rewrite (frame_keys _ _ _ F3), (frame_keys _ _ _ F2) by done. auto.
Qed.

(** ** Routes *)

(** The route's fields, when its key has the right type; a missing key has none. *)
Definition route (w : world S) (name : string) (h : gmap string string) : Prop :=
  fst <$> hash_of (at_key w (key name)) = Some h.

(** The fields [bindHSet] leaves. *)
Definition bound (h : gmap string string) (nodeID connID : string) (reset : bool) : gmap string string :=
  fold_left (λ h fv, <[fv.1 := fv.2]> h) (bind_fields nodeID connID reset) h.

Lemma bound_fields h nodeID connID reset :
  bound h nodeID connID reset !! "node" = Some nodeID ∧
  bound h nodeID connID reset !! "connID" = Some connID ∧
  (bound h nodeID connID reset !! "bytes_in" = if reset then Some "0" else h !! "bytes_in") ∧
  (bound h nodeID connID reset !! "bytes_out" = if reset then Some "0" else h !! "bytes_out").
Proof.
  unfold bound, bind_fields. destruct reset; simpl;
    repeat split; repeat (rewrite lookup_insert_eq || rewrite lookup_insert_ne by done); done.
Qed.

Lemma bindHSet_spec r name nodeID connID reset (w : world S) h ex :
  quiet w → 0 < prec_ms (ttl r) → hash_of (at_key w (key name)) = Some (h, ex) →
  ∃ w', bindHSet r name nodeID connID reset w = (Ok tt, w') ∧ frame (key name) w w' ∧
    at_key w' (key name) =
      Some (Entry (VHash (bound h nodeID connID reset)) (Some (w_vms w + prec_ms (ttl r)))).
Proof.
  intros Hq Hp Hh. unfold bindHSet, bind.
  destruct (pipeline_spec [HSet (key name) (bind_fields nodeID connID reset); PExpire (key name) (ttl r)]
              (key name) w Hq) as (w' & -> & F & E); [by repeat constructor|].
  spec_simpl. rewrite Hh in *. spec_simpl. unfold with_deadline in E. revert E. zcase. intros E.
  exists w'. split; [reflexivity|]. by split.
Qed.

Lemma hmget_reply (w : world S) name fs h : route w name h → quiet w →
  ∃ w', call (HMGet (key name) fs) w = (Ok (RStrs (map (λ f, h !! f) fs)), w') ∧
        frame (key name) w w' ∧ at_key w' (key name) = at_key w (key name).
Proof.
  intros Hr Hq. destruct (call_spec (HMGet (key name) fs) (key name) w) as (w' & -> & F & E); [done..|].
  unfold spec_at in *. unfold route in Hr. cbn [cmd_spec fst snd] in *.
  destruct (hash_of _) as [[h' ex]|]; simplify_eq/=. by exists w'.
Qed.

Lemma LookupRoute_spec name (w : world S) h : quiet w → route w name h →
  (LookupRoute name w).1 =
    Ok (match h !! "node" with
        | Some n => if String.eqb n "" then ("", "", false) else (n, default "" (h !! "connID"), true)
        | None => ("", "", false)
        end).
Proof.
  intros Hq Hr. unfold LookupRoute, bind.
  destruct (hmget_reply w name ["node"; "connID"] h Hr Hq) as (w' & -> & _). unfold ret. simpl.
  unfold field_at. simpl. destruct (h !! "node") as [n|]; simpl; [|done]. by destruct (String.eqb n "").
Qed.

(** ** Binding *)
Lemma bind_body_spec r name nodeID connID (w : world S) h ex :
  quiet w → 0 < prec_ms (ttl r) → hash_of (at_key w (key name)) = Some (h, ex) →
  ∃ res w', bind_body r name nodeID connID w = (res, w') ∧ frame (key name) w w' ∧
    if String.eqb (default "" (h !! "connID")) connID
    then res = Err ErrConnIDCollision ∧ at_key w' (key name) = at_key w (key name)
    else res = Ok tt ∧ at_key w' (key name) =
      Some (Entry (VHash (bound h nodeID connID true)) (Some (w_vms w + prec_ms (ttl r)))).
Proof.
  intros Hq Hp Hh. unfold bind_body, bind.
  destruct (hmget_reply w name ["connID"] h) as (w1 & -> & F1 & E1);
    [by unfold route; rewrite Hh|done|].
  unfold field_at. simpl. destruct (String.eqb _ _); [by exists (Err ErrConnIDCollision), w1|].
  destruct (bindHSet_spec r name nodeID connID true w1 h ex) as (w2 & -> & F2 & E2);
    [apply F1|done|by rewrite E1|].
  eexists _, w2. split; [reflexivity|]. split; [by eapply frame_trans|].
  split; [done|]. by rewrite E2, (frame_vms _ _ _ F1).
Qed.

(** Binding a route makes lookups return exactly that node and connection with fresh
    counters, unless the connection id collides, which changes nothing. *)
Lemma BindRoute_LookupRoute r name nodeID connID (w : world S) h :
  quiet w → unlocked w name → 0 < prec_ms (ttl r) → nodeID ≠ "" → route w name h →
  ∃ res w', BindRoute r name nodeID connID w = (res, w') ∧ unlocked w' name ∧
    if decide (default "" (h !! "connID") = connID)
    then res = Err ErrConnIDCollision ∧ route w' name h
    else res = Ok tt ∧ (LookupRoute name w').1 = Ok (nodeID, connID, true) ∧
         ∃ h', route w' name h' ∧ h' !! "bytes_in" = Some "0" ∧ h' !! "bytes_out" = Some "0".
Proof.
  intros Hq Hu Hp Hn Hr. unfold route in Hr.
  destruct (hash_of (at_key w (key name))) as [[h0 ex]|] eqn:Hh; simplify_eq/=.
  destruct (withLock_free name Err (bind_body r name nodeID connID) w (λ res e,
      if String.eqb (default "" (h !! "connID")) connID
      then res = Err ErrConnIDCollision ∧ e = at_key w (key name)
      else res = Ok tt ∧
        e = Some (Entry (VHash (bound h nodeID connID true)) (Some (w_vms w + prec_ms (ttl r))))))
    as (res & w' & E & Hq' & _ & _ & Hu' & HP & _); [done|done| |].
  { intros w1 Hq1 Hv1 Hk1. destruct (bind_body_spec r name nodeID connID w1 h ex)
      as (res & w2 & E2 & F2 & HP2); [done|done|by rewrite Hk1|].
    exists res, w2. by rewrite <- Hk1, <- Hv1. }
  exists res, w'. split; [exact E|]. split; [done|].
  destruct (String.eqb_spec (default "" (h !! "connID")) connID); destruct HP as [-> He];
    [rewrite decide_True by done|rewrite decide_False by done]; unfold route; rewrite He.
  - by rewrite Hh.
  - destruct (bound_fields h nodeID connID true) as (B1 & B2 & B3 & B4). split; [done|].
    split; [|by eexists]. rewrite (LookupRoute_spec name w' (bound h nodeID connID true)) by
      (done || by unfold route; rewrite He).
    rewrite B1, B2. by destruct (String.eqb_spec nodeID "").
Qed.

(** ** Ownership *)
Lemma hget_reply (w : world S) name f h : route w name h → quiet w →
  ∃ w', call (HGet (key name) f) w = (match h !! f with Some v => Ok (RStr v) | None => Err RedisNil end, w') ∧
        frame (key name) w w' ∧ at_key w' (key name) = at_key w (key name).
Proof.
  intros Hr Hq. destruct (call_spec (HGet (key name) f) (key name) w) as (w' & -> & F & E); [done..|].
  unfold route in Hr. spec_simpl.
  destruct (hash_of _) as [[h' ex]|]; simplify_eq/=. exists w'. split; [by destruct (h !! f)|done].
Qed.

Lemma unbind_body_spec name connID (w : world S) h : quiet w → route w name h →
  ∃ w', unbind_body name connID w = (Ok tt, w') ∧ frame (key name) w w' ∧
    at_key w' (key name) = if decide (h !! "connID" = Some connID) then None else at_key w (key name).
Proof.
  intros Hq Hr. unfold unbind_body, bind.
  destruct (hget_reply w name "connID" h Hr Hq) as (w1 & -> & F1 & E1).
  destruct (h !! "connID") as [o|]; [|by exists w1].
  cbn [rstr]. destruct (String.eqb_spec o connID) as [->|Hne]; cbn [negb].
  - destruct (call_spec (Del (key name)) (key name) w1) as (w2 & -> & F2 & E2); [apply F1|done|].
    exists w2. split; [reflexivity|]. split; [by eapply frame_trans|].
    rewrite decide_True by done. exact E2.
  - exists w1. rewrite decide_False by congruence. done.
Qed.

(** [Unbind] removes the route exactly when it still names the given connection, and
    otherwise changes nothing. *)
Lemma Unbind_only_owner name connID (w : world S) h :
  quiet w → unlocked w name → route w name h →
  ∃ w', Unbind name connID w = (Ok tt, w') ∧ unlocked w' name ∧
    (h !! "connID" = Some connID → (LookupRoute name w').1 = Ok ("", "", false)) ∧
    (h !! "connID" ≠ Some connID →
       at_key w' (key name) = at_key w (key name) ∧ (LookupRoute name w').1 = (LookupRoute name w).1).
Proof.
  intros Hq Hu Hr.
  destruct (withLock_free name Err (unbind_body name connID) w (λ res e,
      res = Ok tt ∧ e = if decide (h !! "connID" = Some connID) then None else at_key w (key name)))
    as (res & w' & E & Hq' & _ & _ & Hu' & [-> He] & _); [done|done| |].
  { intros w1 Hq1 Hv1 Hk1. destruct (unbind_body_spec name connID w1 h) as (w2 & E2 & F2 & HP2);
      [done|by unfold route; rewrite Hk1|].
    exists (Ok tt), w2. by rewrite <- Hk1. }
  exists w'. split; [exact E|]. split; [done|]. split; intros Hc; case_decide; try done.
  - by rewrite (LookupRoute_spec name w' ∅) by (done || by unfold route; rewrite He).
  - split; [done|]. by rewrite !(LookupRoute_spec name _ h) by (done || by unfold route; rewrite ?He).
Qed.

(** A heartbeat distinguishes refreshed, not owner and missing exactly, and only the
    refreshed case touches the route, extending its lifetime. *)
Lemma Heartbeat_three_states r name connID (w : world S) h :
  quiet w → 0 < prec_ms (ttl r) → route w name h →
  ∃ res w', Heartbeat r name connID w = (res, None, w') ∧ route w' name h ∧
    (res = HeartbeatRefreshed ↔ h !! "connID" = Some connID) ∧
    (res = HeartbeatMissing ↔ h !! "connID" = None) ∧
    (res ≠ HeartbeatRefreshed → at_key w' (key name) = at_key w (key name)) ∧
    (res = HeartbeatRefreshed →
       at_key w' (key name) = Some (Entry (VHash h) (Some (w_vms w + prec_ms (ttl r))))).
Proof.
  intros Hq Hp Hr. unfold Heartbeat, bind.
  destruct (hget_reply w name "connID" h Hr Hq) as (w1 & -> & F1 & E1).
  assert (route w1 name h) as Hr1 by (by unfold route; rewrite E1).
  destruct (h !! "connID") as [o|] eqn:Ho; [|by exists HeartbeatMissing, w1].
  cbn [rstr]. destruct (String.eqb_spec o connID) as [->|Hne]; cbn [negb].
  - destruct (call_spec (PExpire (key name) (ttl r)) (key name) w1) as (w2 & -> & F2 & E2);
      [apply F1|done|].
    rewrite E1 in E2 |- *. unfold route in Hr. spec_simpl.
    destruct (at_key w (key name)) as [[v ex]|]; simpl in Hr; [|by simplify_eq].
    destruct v; simplify_eq/=. unfold with_deadline in E2. rewrite (frame_vms _ _ _ F1) in E2.
    revert E2. zcase. intros E2. exists HeartbeatRefreshed, w2. unfold route. by rewrite E2.
  - exists HeartbeatNotOwner, w1. split; [done|]. split; [done|]. split; [naive_solver|].
    split; [naive_solver|]. done.
Qed.

(** ** Self-heal *)
Lemma heal_body_spec r name nodeID connID (w : world S) h ex :
  quiet w → 0 < prec_ms (ttl r) → hash_of (at_key w (key name)) = Some (h, ex) →
  ∃ res w', heal_body r name nodeID connID w = (res, Ok tt, w') ∧ frame (key name) w w' ∧
    let deadline := Some (w_vms w + prec_ms (ttl r)) in
    if String.eqb (default "" (h !! "node")) "" then
      res = SelfHealBound ∧ at_key w' (key name) = Some (Entry (VHash (bound h nodeID connID true)) deadline)
    else if String.eqb (default "" (h !! "connID")) connID then
      res = SelfHealBound ∧ at_key w' (key name) = Some (Entry (VHash (bound h nodeID connID false)) deadline)
    else res = SelfHealNotOwner ∧ at_key w' (key name) = at_key w (key name).
Proof.
  intros Hq Hp Hh. unfold heal_body, bind.
  destruct (hmget_reply w name ["node"; "connID"] h) as (w1 & -> & F1 & E1);
    [by unfold route; rewrite Hh|done|].
  unfold field_at. cbn [rstrs map nth].
  assert (∀ reset, ∃ w2, bindHSet r name nodeID connID reset w1 = (Ok tt, w2) ∧ frame (key name) w w2 ∧
    at_key w2 (key name) = Some (Entry (VHash (bound h nodeID connID reset)) (Some (w_vms w + prec_ms (ttl r)))))
    as Hbind.
  { intros reset. destruct (bindHSet_spec r name nodeID connID reset w1 h ex) as (w2 & E2 & F2 & HE2);
      [apply F1|done|by rewrite E1|].
    exists w2. split; [done|]. split; [by eapply frame_trans|]. by rewrite HE2, (frame_vms _ _ _ F1). }
  destruct (String.eqb (default "" (h !! "node")) "").
  - destruct (Hbind true) as (w2 & -> & F2 & E2). by exists SelfHealBound, w2.
  - destruct (String.eqb (default "" (h !! "connID")) connID); cbn [negb].
    + destruct (Hbind false) as (w2 & -> & F2 & E2). by exists SelfHealBound, w2.
    + by exists SelfHealNotOwner, w1.
Qed.

(** A self-heal binds only when the route is absent or its own; another connection's
    route is left exactly as it was. *)
Lemma self_heal_never_clobbers r name nodeID connID (w : world S) h :
  quiet w → unlocked w name → 0 < prec_ms (ttl r) → nodeID ≠ "" → route w name h →
  ∃ res w', BindRouteIfAbsentOrOwner r name nodeID connID w = (res, Ok tt, w') ∧ unlocked w' name ∧
    (res = SelfHealNotOwner →
       (∃ n, h !! "node" = Some n ∧ n ≠ "") ∧ default "" (h !! "connID") ≠ connID ∧
       at_key w' (key name) = at_key w (key name)) ∧
    (res = SelfHealBound →
       (default "" (h !! "node") = "" ∨ default "" (h !! "connID") = connID) ∧
       (LookupRoute name w').1 = Ok (nodeID, connID, true) ∧
       (default "" (h !! "node") ≠ "" → ∃ h', route w' name h' ∧
          h' !! "bytes_in" = h !! "bytes_in" ∧ h' !! "bytes_out" = h !! "bytes_out")).
Proof.
  intros Hq Hu Hp Hn Hr. unfold route in Hr.
  destruct (hash_of (at_key w (key name))) as [[h0 ex]|] eqn:Hh; simplify_eq/=.
  set (deadline := Some (w_vms w + prec_ms (ttl r))).
  destruct (withLock_free name (λ e, (SelfHealBound, Err e)) (heal_body r name nodeID connID) w (λ res e,
      res.2 = Ok tt ∧
      if String.eqb (default "" (h !! "node")) "" then
        res.1 = SelfHealBound ∧ e = Some (Entry (VHash (bound h nodeID connID true)) deadline)
      else if String.eqb (default "" (h !! "connID")) connID then
        res.1 = SelfHealBound ∧ e = Some (Entry (VHash (bound h nodeID connID false)) deadline)
      else res.1 = SelfHealNotOwner ∧ e = at_key w (key name)))
    as ([res oe] & w' & E & Hq' & _ & _ & Hu' & [Hoe HP] & _); [done|done| |].
  { intros w1 Hq1 Hv1 Hk1. destruct (heal_body_spec r name nodeID connID w1 h ex)
      as (res & w2 & E2 & F2 & HP2); [done|done|by rewrite Hk1|].
    exists (res, Ok tt), w2. unfold deadline. rewrite <- Hk1, <- Hv1. done. }
  simpl in Hoe, HP. subst oe. exists res, w'. split; [exact E|]. split; [done|].
  assert (∀ b, at_key w' (key name) = Some (Entry (VHash (bound h nodeID connID b)) deadline) →
    (LookupRoute name w').1 = Ok (nodeID, connID, true) ∧ route w' name (bound h nodeID connID b)) as HL.
  { intros b He. assert (route w' name (bound h nodeID connID b)) as Hrb by (by unfold route; rewrite He).
    split; [|done]. rewrite (LookupRoute_spec name w' _ Hq' Hrb).
    destruct (bound_fields h nodeID connID b) as (B1 & B2 & _). rewrite B1, B2.
    by destruct (String.eqb_spec nodeID ""). }
  destruct (String.eqb_spec (default "" (h !! "node")) "") as [Hnode|Hnode];
    [|destruct (String.eqb_spec (default "" (h !! "connID")) connID) as [Hcid|Hcid]];
    destruct HP as [-> He]; (split; [intros Hres|intros Hres]); try done.
  - destruct (HL _ He). by split; [auto|].
  - destruct (HL _ He). split; [auto|]. split; [done|]. intros _. eexists. split; [done|].
    by destruct (bound_fields h nodeID connID false) as (_ & _ & ? & ?).
  - split; [|done]. destruct (h !! "node") as [n|]; [by exists n|done].
Qed.

(** ** Byte counters *)

(** A change of an entry that keeps a route's identity and its deadline. *)
Definition keeps_route (e e' : option entry) : Prop :=
  ∃ h h' ex ex', hash_of e = Some (h, ex) ∧ hash_of e' = Some (h', ex') ∧
    h' !! "node" = h !! "node" ∧ h' !! "connID" = h !! "connID" ∧
    (e ≠ None → ex' = ex ∧ e' ≠ None) ∧ (e = None → ex' = None).

Lemma keeps_route_refl e h : fst <$> hash_of e = Some h → keeps_route e e.
Proof.
  intros He. destruct (hash_of e) as [[h0 ex]|] eqn:E; simplify_eq/=. exists h, h, ex, ex.
  split; [done|]. split; [done|]. split; [done|]. split; [done|]. split; [done|].
  intros ->. by simplify_eq/=.
Qed.

Lemma keeps_route_trans e1 e2 e3 : keeps_route e1 e2 → keeps_route e2 e3 → keeps_route e1 e3.
Proof.
  intros (h1 & h2 & x1 & x2 & A1 & A2 & A3 & A4 & A5 & A6) (h2' & h3 & x2' & x3 & B1 & B2 & B3 & B4 & B5 & B6).
  rewrite A2 in B1. simplify_eq. exists h1, h3, x1, x3. do 2 (split; [done|]).
  split; [congruence|]. split; [congruence|]. split.
  - intros Hn. destruct (A5 Hn) as [-> Hn2]. by apply B5.
  - intros ->. specialize (A6 eq_refl). subst x2'. destruct e2; [|by apply B6].
    by destruct B5 as [-> _].
Qed.

Lemma hincr_keeps (w : world S) k f n e h :
  fst <$> hash_of e = Some h → f ≠ "node" → f ≠ "connID" →
  keeps_route e (spec_at w (HIncrBy k f n) e).2.
Proof.
  intros He N1 N2. pose proof (keeps_route_refl _ _ He) as Hrefl. spec_simpl.
  destruct (hash_of e) as [[h0 ex]|] eqn:E; [|done]. simplify_eq/=.
  destruct (incr_string _ _) as [m|]; simpl; [|done].
  exists h, (<[f := FormatInt m]> h), ex, ex. rewrite !lookup_insert_ne by done.
  do 5 (split; [done|]). intros ->. by simplify_eq/=.
Qed.

(** The increments of [AddTraffic]. *)
Definition traffic_incrs (name : string) (bytesIn bytesOut : Z) : list vcmd :=
  (if bytesIn =? 0 then [] else [HIncrBy (key name) "bytes_in" bytesIn]) ++
  (if bytesOut =? 0 then [] else [HIncrBy (key name) "bytes_out" bytesOut]).

Lemma spec_list_snoc (w : world S) cs c e :
  (spec_list w (cs ++ [c]) e).2 = (spec_at w c (spec_list w cs e).2).2.
Proof. revert e. induction cs as [|c' cs IH]; intros e; simpl; [done|]. apply IH. Qed.

Lemma traffic_incrs_keep (w : world S) name bi bo e h :
  fst <$> hash_of e = Some h → keeps_route e (spec_list w (traffic_incrs name bi bo) e).2.
Proof.
  intros He. unfold traffic_incrs.
  destruct (bi =? 0), (bo =? 0); cbn [app spec_list fst snd].
  - by apply (keeps_route_refl _ h).
  - by apply (hincr_keeps _ _ _ _ _ h).
  - by apply (hincr_keeps _ _ _ _ _ h).
  - pose proof (hincr_keeps w (key name) "bytes_in" bi e h He ltac:(done) ltac:(done)) as H1.
    eapply keeps_route_trans; [exact H1|].
    destruct H1 as (h1 & h2 & x1 & x2 & _ & E2 & _).
    apply (hincr_keeps _ _ _ _ _ h2); [by rewrite E2|done|done].
Qed.

(** Counting traffic never makes a tunnel routable, never changes a route's lifetime,
    and an entry it creates expires in 30 seconds. *)
Lemma AddTraffic_never_resurrects name bytesIn bytesOut (w : world S) h :
  quiet w → route w name h →
  ∃ res w', AddTraffic name bytesIn bytesOut w = (res, w') ∧
    (LookupRoute name w').1 = (LookupRoute name w).1 ∧
    (∀ v d, at_key w (key name) = Some (Entry v (Some d)) →
       ∃ v', at_key w' (key name) = Some (Entry v' (Some d))) ∧
    (at_key w (key name) = None →
       at_key w' (key name) = None ∨
       ∃ v', at_key w' (key name) = Some (Entry v' (Some (w_vms w + 30000)))).
Proof.
  intros Hq Hr. unfold AddTraffic, bind.
  destruct (pipeline_spec (traffic_cmds name bytesIn bytesOut) (key name) w Hq) as (w' & -> & F & E).
  { unfold traffic_cmds. destruct (bytesIn =? 0), (bytesOut =? 0); by repeat constructor. }
  eexists _, w'. split; [reflexivity|].
  change (traffic_cmds name bytesIn bytesOut) with
    ((if bytesIn =? 0 then [] else [HIncrBy (key name) "bytes_in" bytesIn]) ++
     (if bytesOut =? 0 then [] else [HIncrBy (key name) "bytes_out" bytesOut]) ++
     [ExpireNX (key name) orphanTTL]) in E.
  rewrite app_assoc, spec_list_snoc in E. fold (traffic_incrs name bytesIn bytesOut) in E.
  destruct (traffic_incrs_keep w name bytesIn bytesOut _ h Hr) as
    (h1 & h2 & ex1 & ex2 & E1 & E2 & Hnode & Hcid & Hlive & Hdead).
  set (e2 := (spec_list w (traffic_incrs name bytesIn bytesOut) (at_key w (key name))).2) in *.
  unfold route in Hr. rewrite E1 in Hr. simplify_eq/=.
  assert (0 < sec_ms orphanTTL ∧ sec_ms orphanTTL = 30000) as [Ht Ht'].
  { unfold orphanTTL. rewrite law_sec; lia. }
  assert (at_key w' (key name) = match e2 with
    | Some (Entry v None) => Some (Entry v (Some (w_vms w + 30000)))
    | _ => e2 end) as E3.
  { rewrite E. spec_simpl. destruct e2 as [[v [x|]]|]; try done. simpl. unfold with_deadline. zcase.
    by rewrite Ht'. }
  assert (∃ ex, hash_of (at_key w' (key name)) = Some (h2, ex)) as [ex3 Hh3].
  { rewrite E3. destruct e2 as [[[] [x|]]|]; simplify_eq/=; by eexists. }
  split; [|split].
  - rewrite (LookupRoute_spec name w' h2), (LookupRoute_spec name w h);
      [by rewrite Hnode, Hcid|done|by unfold route; rewrite E1|apply F|by unfold route; rewrite Hh3].
  - intros v d Hk. destruct Hlive as [-> Hne]; [by rewrite Hk|]. rewrite Hk in E1.
    destruct v; simplify_eq/=. rewrite E3.
    destruct e2 as [[[] [x|]]|]; simplify_eq/=. by eexists.
  - intros Hk. specialize (Hdead Hk). subst ex2. rewrite E3.
    destruct e2 as [[[] [x|]]|]; simplify_eq/=; eauto.
Qed.
End theorems.

(** ** The node registry *)
Section nodes.
Context {S : Type} `{ValkeyServer S} `{!ValkeyLaws S}.
Context (Unmarshal : string → option NodeInfo).

Lemma nodeKey_not_set id : nodeKey id ≠ nodeSetKey.
Proof. unfold nodeKey, nodeSetKey. intros [=]. Qed.

(** The live entry a node id has. *)
Definition node_at (w : world S) (id : string) : option string := entry_string (at_key w (nodeKey id)).

Lemma split_nodes_spec (f : string → option string) ids :
  NoDup ids →
  let '(out, gone) := split_nodes Unmarshal ids (map f ids) in
  (∀ id, out !! id = if decide (id ∈ ids) then f id ≫= Unmarshal else None) ∧
  (∀ id, id ∈ gone ↔ id ∈ ids ∧ f id = None).
Proof.
  induction ids as [|id ids IH] using rev_ind; intros Hnd.
  { simpl. split; [done|]. set_solver. }
  apply NoDup_app in Hnd as (Hnd & Hni & _). specialize (IH Hnd). unfold split_nodes in *.
  rewrite map_app. rewrite zip_with_app by (by rewrite length_map). rewrite fold_left_app.
  destruct (fold_left _ (zip ids (map f ids)) _) as [out gone]. destruct IH as [IH1 IH2].
  assert (id ∉ ids) as Hid by set_solver. simpl.
  assert (out !! id = None) as Hout by (by rewrite IH1, decide_False).
  destruct (f id) as [v|] eqn:Ef; [destruct (Unmarshal v) as [info|] eqn:Ev|]; simpl.
  - split; [|intros id'; rewrite IH2; set_solver].
    intros id'. destruct (decide (id' = id)) as [->|Hne].
    + rewrite lookup_insert_eq, decide_True by set_solver. by rewrite Ef.
    + rewrite lookup_insert_ne, IH1 by done. repeat case_decide; set_solver.
  - split; [|intros id'; rewrite IH2; set_solver].
    intros id'. destruct (decide (id' = id)) as [->|Hne].
    + rewrite Hout. case_decide; [|done]. by rewrite Ef.
    + rewrite IH1. repeat case_decide; set_solver.
  - split; [|intros id'; rewrite elem_of_app, IH2; set_solver].
    intros id'. destruct (decide (id' = id)) as [->|Hne].
    + rewrite Hout. case_decide; [|done]. by rewrite Ef.
    + rewrite IH1. repeat case_decide; set_solver.
Qed.

Lemma omap_id_Some {A} (l : list A) : omap id (map Some l) = l.
Proof. induction l; simpl; [done|]. by f_equal. Qed.

(** [LiveNodes] returns exactly the set members with a live entry that decodes, and
    prunes exactly the members without one. *)
Lemma LiveNodes_exact (w : world S) ids ex :
  quiet w → set_of (at_key w nodeSetKey) = Some (ids, ex) →
  ∃ out w', LiveNodes Unmarshal w = (Ok out, w') ∧
    (∀ id, out !! id = if decide (id ∈ ids) then node_at w id ≫= Unmarshal else None) ∧
    (∃ ids' ex', set_of (at_key w' nodeSetKey) = Some (ids', ex') ∧
       ∀ id, id ∈ ids' ↔ id ∈ ids ∧ node_at w id ≠ None).
Proof.
  intros Hq Hs. unfold LiveNodes, bind.
  destruct (call_spec (SMembers nodeSetKey) nodeSetKey w Hq eq_refl) as (w1 & -> & F1 & E1).
  spec_simpl. rewrite Hs in *. spec_simpl. rewrite omap_id_Some.
  destruct (elements ids) as [|i0 is0] eqn:Eel.
  { apply elements_empty_inv in Eel. assert (ids = ∅) as -> by set_solver.
    eexists ∅, w1. split; [reflexivity|]. split; [by intros; rewrite decide_False by set_solver|].
    rewrite E1, Hs. eexists _, _. split; [done|]. set_solver. }
  rewrite <- Eel. clear i0 is0 Eel.
  rewrite call_quiet by apply F1. rewrite law_mget. cbn [fst reply_err rstrs]. rewrite map_map.
  set (w2 := with_srv w1 _).
  assert (∀ k, at_key w2 k = at_key w1 k) as Hk2.
  { intros k. unfold w2, at_key. cbn. by apply law_frame. }
  rewrite (map_ext _ (node_at w)).
  2:{ intros id. unfold node_at. rewrite <- (frame_keys _ _ _ F1) by apply nodeKey_not_set. done. }
  pose proof (split_nodes_spec (node_at w) (elements ids) (NoDup_elements _)) as Hsp.
  destruct (split_nodes Unmarshal (elements ids) (map (node_at w) (elements ids))) as [out gone].
  destruct Hsp as [Hout Hgone].
  assert (∀ id, out !! id = if decide (id ∈ ids) then node_at w id ≫= Unmarshal else None) as Hout'.
  { intros id. rewrite Hout. by repeat case_decide; set_solver. }
  destruct gone as [|g gs].
  - exists out, w2. split; [reflexivity|]. split; [done|]. rewrite Hk2, E1, Hs.
    eexists _, _. split; [done|]. intros id. specialize (Hgone id).
    destruct (node_at w id); set_solver.
  - destruct (call_spec (SRem nodeSetKey (g :: gs)) nodeSetKey w2) as (w3 & -> & F3 & E3);
      [apply F1|done|].
    exists out, w3. split; [reflexivity|]. split; [done|].
    rewrite E3, Hk2, E1. spec_simpl. rewrite Hs. cbn [snd].
    set (ids' := ids ∖ list_to_set (g :: gs)).
    exists ids', (if decide (ids' = ∅) then None else ex). split.
    { unfold set_entry. by case_decide as Hd; rewrite ?Hd. }
    intros id. unfold ids'. rewrite elem_of_difference, elem_of_list_to_set, (Hgone id), elem_of_elements.
    destruct (node_at w id); naive_solver.
Qed.
End nodes.

(** ** Witnesses *)
Definition sample_registry : Registry := {| ttl := 60 * second |}.
Definition sample_route : gmap string string := <["node" := "n1"]> (<["connID" := "c1"]> ∅).
Definition routed_world : world mem_server :=
  World (1700000000 * second) 1700000000000
    (MemServer {[key "abc" := Entry (VHash sample_route) (Some 1700000060000)]}) [] 0 None.

Lemma BindRoute_LookupRoute_witness :
  ∃ res w', BindRoute sample_registry "abc" "n2" "c2" routed_world = (res, w') ∧ unlocked w' "abc" ∧
    if decide (default "" (sample_route !! "connID") = "c2")
    then res = Err ErrConnIDCollision ∧ route w' "abc" sample_route
    else res = Ok tt ∧ (LookupRoute "abc" w').1 = Ok ("n2", "c2", true) ∧
         ∃ h', route w' "abc" h' ∧ h' !! "bytes_in" = Some "0" ∧ h' !! "bytes_out" = Some "0".
Proof.
  by apply (BindRoute_LookupRoute sample_registry "abc" "n2" "c2" routed_world sample_route).
Defined.

Lemma Unbind_only_owner_witness :
  ∃ w', Unbind "abc" "c1" routed_world = (Ok tt, w') ∧ unlocked w' "abc" ∧
    (sample_route !! "connID" = Some "c1" → (LookupRoute "abc" w').1 = Ok ("", "", false)) ∧
    (sample_route !! "connID" ≠ Some "c1" →
       at_key w' (key "abc") = at_key routed_world (key "abc") ∧
       (LookupRoute "abc" w').1 = (LookupRoute "abc" routed_world).1).
Proof. by apply (Unbind_only_owner "abc" "c1" routed_world sample_route). Defined.

Lemma Heartbeat_three_states_witness :
  ∃ res w', Heartbeat sample_registry "abc" "c1" routed_world = (res, None, w') ∧ route w' "abc" sample_route ∧
    (res = HeartbeatRefreshed ↔ sample_route !! "connID" = Some "c1") ∧
    (res = HeartbeatMissing ↔ sample_route !! "connID" = None) ∧
    (res ≠ HeartbeatRefreshed → at_key w' (key "abc") = at_key routed_world (key "abc")) ∧
    (res = HeartbeatRefreshed →
       at_key w' (key "abc") =
         Some (Entry (VHash sample_route) (Some (w_vms routed_world + prec_ms (ttl sample_registry))))).
Proof. by apply (Heartbeat_three_states sample_registry "abc" "c1" routed_world sample_route). Defined.

Lemma self_heal_never_clobbers_witness :
  ∃ res w', BindRouteIfAbsentOrOwner sample_registry "abc" "n2" "c2" routed_world = (res, Ok tt, w') ∧
    unlocked w' "abc" ∧
    (res = SelfHealNotOwner →
       (∃ n, sample_route !! "node" = Some n ∧ n ≠ "") ∧ default "" (sample_route !! "connID") ≠ "c2" ∧
       at_key w' (key "abc") = at_key routed_world (key "abc")) ∧
    (res = SelfHealBound →
       (default "" (sample_route !! "node") = "" ∨ default "" (sample_route !! "connID") = "c2") ∧
       (LookupRoute "abc" w').1 = Ok ("n2", "c2", true) ∧
       (default "" (sample_route !! "node") ≠ "" → ∃ h', route w' "abc" h' ∧
          h' !! "bytes_in" = sample_route !! "bytes_in" ∧ h' !! "bytes_out" = sample_route !! "bytes_out")).
Proof.
  by apply (self_heal_never_clobbers sample_registry "abc" "n2" "c2" routed_world sample_route).
Defined.

Lemma AddTraffic_never_resurrects_witness :
  ∃ res w', AddTraffic "abc" 10 20 sample_world = (res, w') ∧
    (LookupRoute "abc" w').1 = (LookupRoute "abc" sample_world).1 ∧
    (∀ v d, at_key sample_world (key "abc") = Some (Entry v (Some d)) →
       ∃ v', at_key w' (key "abc") = Some (Entry v' (Some d))) ∧
    (at_key sample_world (key "abc") = None →
       at_key w' (key "abc") = None ∨
       ∃ v', at_key w' (key "abc") = Some (Entry v' (Some (w_vms sample_world + 30000)))).
Proof. by apply (AddTraffic_never_resurrects "abc" 10 20 sample_world ∅). Defined.

Definition noded_world : world mem_server :=
  World (1700000000 * second) 1700000000000
    (MemServer {[nodeSetKey := Entry (VSet {["n1"; "n2"]}) None;
                 nodeKey "n1" := Entry (VStr "{}") (Some 1700000060000)]}) [] 0 None.

Definition sample_node : NodeInfo :=
  {| Advertise := "10.0.0.1:9000"; Public := ""; Hostname := "n1"; Version := "1";
     StartedAt := ""; LastHeartbeat := "" |}.
Definition sample_unmarshal (s : string) : option NodeInfo := if String.eqb s "{}" then Some sample_node else None.

Lemma LiveNodes_exact_witness :
  ∃ out w', LiveNodes sample_unmarshal noded_world = (Ok out, w') ∧
    (∀ id, out !! id = if decide (id ∈ ({["n1"; "n2"]} : gset string))
                       then node_at noded_world id ≫= sample_unmarshal else None) ∧
    (∃ ids' ex', set_of (at_key w' nodeSetKey) = Some (ids', ex') ∧
       ∀ id, id ∈ ids' ↔ id ∈ ({["n1"; "n2"]} : gset string) ∧ node_at noded_world id ≠ None).
Proof. by apply (LiveNodes_exact sample_unmarshal noded_world {["n1"; "n2"]} None). Defined.
End Router.
