(* ===== verification/RouteLock.v ===== *)
(** * Route ownership under concurrency

    [Router] states what [BindRoute], [BindRouteIfAbsentOrOwner] and [Unbind]
    do when nobody interferes.  Here any number of these calls, heartbeats and
    byte flushes run at once against one tunnel's keys: [step] sends one command
    of one attempt, with the commands and the decisions of [Router]'s bodies.
    An attempt is named by the random token it takes the lock with.  It may
    crash at any point, and any of its commands may fail, executed or not by
    then, after which it gives the lock back.

    Time passes in [step] as it likes.  The code relies on a critical section not
    outliving its lock ([lockTTL] is seconds, the section microseconds): that is
    [timely], a condition on the clock of a run which the theorems state, and
    [stalled_unbind_takes_route] shows that it is needed. *)
From Stdlib Require Import ZArith Lia Ascii String.
From S2P Require Import Prelude GoStr Valkey Router.
Local Open Scope string_scope.
Local Open Scope list_scope.
Local Open Scope Z_scope.

Module RouteLock.
Import Router.

Inductive op :=
| OBind (nodeID connID : string)
| OHeal (nodeID connID : string)
| OUnbind (connID : string).

Inductive phase :=
| Reading (o : op)                                         (* holds the lock *)
| Setting (o : op) (nodeID connID : string) (reset : bool) (* about to HSET *)
| Expiring                                                 (* about to PEXPIRE *)
| Deleting (connID : string)                               (* about to DEL the route *)
| Releasing                                                (* about to GET the lock *)
| Dropping                                                 (* about to DEL the lock *)
| Finished.

Definition in_section (p : phase) : bool := match p with Finished => false | _ => true end.

(** The read of each body, and what the body does with the reply. *)
Definition read_cmd (name : string) (o : op) : vcmd :=
  match o with
  | OBind _ _ => HMGet (key name) ["connID"]
  | OHeal _ _ => HMGet (key name) ["node"; "connID"]
  | OUnbind _ => HGet (key name) "connID"
  end.

Definition after_read (o : op) (r : vreply) : phase :=
  match reply_err r with
  | Some _ => Releasing
  | None =>
      match o with
      | OBind n c => if String.eqb (field_at r 0) c then Releasing else Setting o n c true
      | OHeal n c =>
          if String.eqb (field_at r 0) "" then Setting o n c true
          else if negb (String.eqb (field_at r 1) c) then Releasing
          else Setting o n c false
      | OUnbind c => if String.eqb (rstr r) c then Deleting c else Releasing
      end
  end.

Section system.
Context {S : Type} `{ValkeyServer S} (r : Registry) (name : string).

Record state := State { srv : S; ms : Z; procs : gmap string phase }.

Definition route_at (s : state) : option entry := look (srv s) (ms s) (key name).
Definition lock_at (s : state) : option entry := look (srv s) (ms s) (lockKey name).

Definition fields (e : option entry) : gmap string string :=
  match hash_of e with Some (h, _) => h | None => ∅ end.
Definition owner (s : state) : option string := fields (route_at s) !! "connID".

Definition holds_lock (s : state) (tok : string) (until : Z) : Prop :=
  ∃ ex, lock_at s = Some (Entry (VStr tok) (Some ex)) ∧ until < ex.

Definition send (s : state) (c : vcmd) (ps : gmap string phase) : state :=
  State (exec (ms s) c (srv s)).2 (ms s) ps.

(** Commands other calls send to the route without the lock. *)
Definition lockless (c : vcmd) : Prop :=
  c = PExpire (key name) (ttl r) ∨
  (∃ f n, c = HIncrBy (key name) f n ∧ (f = "bytes_in" ∨ f = "bytes_out")) ∨
  c = ExpireNX (key name) orphanTTL ∨
  c = HGet (key name) "connID" ∨ (∃ fs, c = HMGet (key name) fs) ∨
  (cmd_key c ≠ Some (key name) ∧ cmd_key c ≠ Some (lockKey name)).

(** The command of the body an attempt is at. *)
Definition body_cmd (p : phase) : option vcmd :=
  match p with
  | Reading o => Some (read_cmd name o)
  | Setting _ n c reset => Some (HSet (key name) (bind_fields n c reset))
  | Expiring => Some (PExpire (key name) (ttl r))
  | Deleting _ => Some (Del (key name))
  | _ => None
  end.

Inductive step : state → state → Prop :=
| step_time s t :
    ms s ≤ t → step s (State (srv s) t (procs s))
| step_acquire s tok o :
    procs s !! tok = None → lock_at s = None →
    step s (send s (SetNX (lockKey name) tok lockTTL) (<[tok := Reading o]> (procs s)))
| step_contended s tok :
    procs s !! tok = None → lock_at s ≠ None →
    step s (send s (SetNX (lockKey name) tok lockTTL) (<[tok := Finished]> (procs s)))
(* the lock was taken, but the reply is lost *)
| step_acquire_lost s tok :
    procs s !! tok = None →
    step s (send s (SetNX (lockKey name) tok lockTTL) (<[tok := Finished]> (procs s)))
| step_read s tok o :
    procs s !! tok = Some (Reading o) →
    step s (send s (read_cmd name o)
              (<[tok := after_read o (exec (ms s) (read_cmd name o) (srv s)).1]> (procs s)))
| step_set s tok o n c reset :
    procs s !! tok = Some (Setting o n c reset) →
    step s (send s (HSet (key name) (bind_fields n c reset)) (<[tok := Expiring]> (procs s)))
| step_expire s tok :
    procs s !! tok = Some Expiring →
    step s (send s (PExpire (key name) (ttl r)) (<[tok := Releasing]> (procs s)))
| step_delete s tok c :
    procs s !! tok = Some (Deleting c) →
    step s (send s (Del (key name)) (<[tok := Releasing]> (procs s)))
(* a command of the body fails; [executed]: only its reply was lost *)
| step_error s tok p c (executed : bool) :
    procs s !! tok = Some p → body_cmd p = Some c →
    step s (if executed then send s c (<[tok := Releasing]> (procs s))
            else State (srv s) (ms s) (<[tok := Releasing]> (procs s)))
| step_check s tok :
    procs s !! tok = Some Releasing →
    step s (send s (Get (lockKey name))
              (<[tok := if String.eqb (rstr (exec (ms s) (Get (lockKey name)) (srv s)).1) tok
                        then Dropping else Finished]> (procs s)))
| step_drop s tok :
    procs s !! tok = Some Dropping →
    step s (send s (Del (lockKey name)) (<[tok := Finished]> (procs s)))
| step_crash s tok p :
    procs s !! tok = Some p →
    step s (State (srv s) (ms s) (<[tok := Finished]> (procs s)))
| step_lockless s c :
    lockless c → step s (send s c (procs s)).

(** The clock does not run past the lock of an attempt that is inside. *)
Definition on_time (s : state) (t : Z) : Prop :=
  ∀ tok p, procs s !! tok = Some p → in_section p = true → holds_lock s tok t.
Definition timely (s s' : state) : Prop := step s s' ∧ (ms s < ms s' → on_time s (ms s')).

(** ** Invariant *)

(** What an attempt knows of the route after its read: the route it read, or
    nothing when that one lapsed since. *)
Definition known (s : state) (p : phase) : Prop :=
  match p with
  | Deleting c => owner s = Some c ∨ owner s = None
  | Setting (OBind _ _) _ c _ => owner s ≠ Some c
  | Setting (OHeal _ _) _ c _ =>
      default "" (fields (route_at s) !! "node") = "" ∨ owner s = Some c ∨ owner s = None
  | Setting (OUnbind _) _ _ _ => False
  | _ => True
  end.

Definition exclusive (s : state) : Prop :=
  ∀ tok p, procs s !! tok = Some p → in_section p = true → holds_lock s tok (ms s) ∧ known s p.

Context `{!ValkeyLaws S} (ttl_ok : 0 < prec_ms (ttl r)).

Lemma holds_inj s t1 t2 u1 u2 : holds_lock s t1 u1 → holds_lock s t2 u2 → t1 = t2.
Proof. intros (ex1 & E1 & _) (ex2 & E2 & _). congruence. Qed.

Lemma route_send s c ps : cmd_key c = Some (key name) →
  route_at (send s c ps) = (cmd_spec sec_ms prec_ms (ms s) c (route_at s)).2.
Proof. apply law_effect. Qed.

Lemma route_frame s c ps : cmd_key c ≠ Some (key name) → route_at (send s c ps) = route_at s.
Proof. apply law_frame. Qed.

Lemma lock_frame s c ps : cmd_key c ≠ Some (lockKey name) → lock_at (send s c ps) = lock_at s.
Proof. apply law_frame. Qed.

Lemma fields_deadline now at_ v ex : now < at_ →
  fields (with_deadline now at_ v) = fields (Some (Entry v ex)).
Proof. intros Ha. unfold with_deadline. zcase. by destruct v. Qed.

Lemma orphan_ok : 0 < sec_ms orphanTTL.
Proof. unfold orphanTTL. rewrite law_sec; lia. Qed.

(** Commands sent without the lock keep the routing fields and the lock. *)
Lemma lockless_keeps s c ps f : lockless c → f = "node" ∨ f = "connID" →
  fields (route_at (send s c ps)) !! f = fields (route_at s) !! f.
Proof.
  intros Hc Hf. pose proof orphan_ok as Ho.
  destruct Hc as [->|[(f' & n & -> & Hf')|[->|[->|[[fs ->]|[Hk _]]]]]];
    [rewrite route_send by done..|by rewrite route_frame]; cbn [cmd_spec snd].
  - destruct (route_at s) as [[v ex]|]; [|done]. simpl. by rewrite (fields_deadline _ _ _ ex) by lia.
  - unfold fields. destruct (hash_of (route_at s)) as [[h ex]|] eqn:E; cbn [snd]; [|by rewrite E].
    destruct (incr_string _ _); cbn [snd hash_of]; [|by rewrite E].
    rewrite lookup_insert_ne; [done|]. destruct Hf, Hf'; by subst.
  - destruct (route_at s) as [[v [ex|]]|]; [done| |done].
    simpl. by rewrite (fields_deadline _ _ _ None) by lia.
  - done.
  - done.
Qed.

Lemma lockless_lock s c ps : lockless c → lock_at (send s c ps) = lock_at s.
Proof.
  intros Hc. apply lock_frame. pose proof (lock_key_differs name name) as Hne.
  destruct Hc as [->|[(f' & n & -> & Hf')|[->|[->|[[fs ->]|[_ Hk]]]]]]; simpl; congruence.
Qed.

(** An attempt's knowledge depends on the routing fields alone. *)
Lemma known_ext s s' p :
  (∀ f, f = "node" ∨ f = "connID" → fields (route_at s') !! f = fields (route_at s) !! f) →
  known s p → known s' p.
Proof.
  intros Hf. unfold known, owner. rewrite (Hf "connID"), (Hf "node") by auto. done.
Qed.

Lemma known_lapsed s s' p : fields (route_at s') = ∅ → known s p → known s' p.
Proof.
  intros Hf. unfold known, owner. rewrite Hf, !lookup_empty. destruct p; auto. destruct o; auto.
Qed.

(** ** Preservation *)

(** The holder acts; nobody else is in the section. *)
Lemma exclusive_act s s' tok p p' :
  exclusive s → procs s !! tok = Some p → in_section p = true →
  ms s' = ms s → procs s' = <[tok := p']> (procs s) →
  (in_section p' = true → lock_at s' = lock_at s ∧ known s' p') → exclusive s'.
Proof.
  intros He Hp Hin Hms Hps Hn t q Hq Hqin. rewrite Hps in Hq.
  destruct (decide (t = tok)) as [->|Hne].
  - rewrite lookup_insert_eq in Hq. simplify_eq. destruct (Hn Hqin) as [Hl Hk].
    split; [|done]. destruct (He _ _ Hp Hin) as [(ex & E & Hlt) _].
    exists ex. rewrite Hl, Hms. done.
  - rewrite lookup_insert_ne in Hq by done. exfalso. apply Hne.
    eapply holds_inj; [apply (He _ _ Hq Hqin)|apply (He _ _ Hp Hin)].
Qed.

(** Somebody outside the section acts on nothing the holder relies on. *)
Lemma exclusive_outside s s' :
  exclusive s → ms s' = ms s → lock_at s' = lock_at s →
  (∀ tok p, procs s' !! tok = Some p → in_section p = true → procs s !! tok = Some p) →
  (∀ p, known s p → known s' p) → exclusive s'.
Proof.
  intros He Hms Hl Hps Hk tok p Hp Hin. destruct (He _ _ (Hps _ _ Hp Hin) Hin) as [(ex & E & Hlt) Hkp].
  split; [|auto]. exists ex. by rewrite Hl, Hms.
Qed.

Lemma after_read_known s o ps :
  known (send s (read_cmd name o) ps) (after_read o (exec (ms s) (read_cmd name o) (srv s)).1).
Proof.
  assert (route_at (send s (read_cmd name o) ps) = route_at s) as E
    by (rewrite route_send by (by destruct o); by destruct o).
  unfold known, owner. rewrite E. unfold route_at, fields.
  destruct o; cbn [read_cmd]; vk; cbn [cmd_spec fst]; destruct (hash_of _) as [[h ex]|]; simpl; try done.
  - unfold after_read, field_at. simpl. destruct (String.eqb_spec (default "" (h !! "connID")) connID); [done|].
    by intros Hh; rewrite Hh in *.
  - unfold after_read, field_at. simpl. destruct (String.eqb_spec (default "" (h !! "node")) ""); [by left|].
    destruct (String.eqb_spec (default "" (h !! "connID")) connID) as [Hc|]; simpl; [|done]. right.
    destruct (h !! "connID"); simpl in Hc; [left; congruence|auto].
  - destruct (h !! "connID") as [c|]; unfold after_read; simpl; [|done].
    destruct (String.eqb_spec c connID); [left; congruence|done].
Qed.

Lemma lockTTL_ok : 0 < prec_ms lockTTL.
Proof. apply lockTTL_positive. Qed.

Lemma body_key p c : body_cmd p = Some c → cmd_key c = Some (key name).
Proof. destruct p as [[]| | | | | |]; intros [= <-]; done. Qed.

(** A taken lock is not taken again. *)
Lemma second_setnx_keeps s tok ps : lock_at s ≠ None → lock_at (send s (SetNX (lockKey name) tok lockTTL) ps) = lock_at s.
Proof.
  intros Hl. unfold lock_at in *. simpl. rewrite (law_effect _ _ _ (lockKey name)) by done.
  by destruct (look (srv s) (ms s) (lockKey name)).
Qed.

(** An attempt that does not get in changes nothing for the one inside. *)
Lemma exclusive_refused s tok : exclusive s → procs s !! tok = None →
  exclusive (send s (SetNX (lockKey name) tok lockTTL) (<[tok := Finished]> (procs s))).
Proof.
  intros He Hp t p Hq Hin. pose proof (lock_key_differs name name) as Hne. simpl in Hq.
  destruct (decide (t = tok)) as [->|Hn]; [rewrite lookup_insert_eq in Hq; by simplify_eq|].
  rewrite lookup_insert_ne in Hq by done. destruct (He _ _ Hq Hin) as [(ex & E & Hlt) Hk]. split.
  - exists ex. rewrite second_setnx_keeps by (by rewrite E). done.
  - eapply known_ext; [|exact Hk]. intros f _. by rewrite route_frame by (simpl; congruence).
Qed.

Lemma exclusive_step s s' : exclusive s → timely s s' → exclusive s'.
Proof.
  intros He [Hs Hl]. pose proof (lock_key_differs name name) as Hne.
  destruct Hs as [s t Ht|s tok o Hp Hfree|s tok Hp Hfree|s tok Hp|s tok o Hp|s tok o n c reset Hp|s tok Hp|s tok c Hp
    |s tok p c ex Hp Hc|s tok Hp|s tok Hp|s tok p Hp|s c Hc].
  - intros tok p Hp Hin. simpl in Hp, Hl.
    assert (holds_lock s tok t) as (ex & E & Hlt).
    { destruct (decide (ms s < t)) as [Hlt|Hge]; [by eapply Hl|].
      destruct (He _ _ Hp Hin) as [(ex & E & ?) _]. exists ex. split; [done|lia]. }
    destruct (He _ _ Hp Hin) as [_ Hk]. split.
    + exists ex. unfold lock_at in *. simpl. rewrite (law_time _ _ _ _ Ht), E. simpl. by zcase.
    + assert (route_at (State (srv s) t (procs s)) = route_at s ∨
              route_at (State (srv s) t (procs s)) = None) as [E'|E'].
      { unfold route_at. simpl. rewrite (law_time _ _ _ _ Ht).
        destruct (look (srv s) (ms s) (key name)) as [[v [x|]]|]; simpl; auto. case_match; auto. }
      * eapply known_ext; [|exact Hk]. intros f _. by rewrite E'.
      * eapply known_lapsed; [|exact Hk]. by rewrite E'.
  - intros t p Hq Hin. simpl in Hq. destruct (decide (t = tok)) as [->|Hn].
    + rewrite lookup_insert_eq in Hq. simplify_eq. split; [|done].
      exists (ms s + prec_ms lockTTL). pose proof lockTTL_ok. split; [|simpl; lia].
      unfold lock_at in *. simpl. rewrite (law_effect _ _ _ (lockKey name)) by done. rewrite Hfree. simpl.
      unfold with_deadline. by zcase.
    + rewrite lookup_insert_ne in Hq by done. destruct (He _ _ Hq Hin) as [(ex & E & _) _]. congruence.
  - by apply exclusive_refused.
  - by apply exclusive_refused.
  - eapply exclusive_act; [exact He|exact Hp|done|done|done|]. intros _.
    split; [apply lock_frame; destruct o; simpl; congruence|]. apply after_read_known.
  - eapply exclusive_act; [exact He|exact Hp|done|done|done|]. intros _.
    split; [apply lock_frame; simpl; congruence|done].
  - eapply exclusive_act; [exact He|exact Hp|done|done|done|]. intros _.
    split; [apply lock_frame; simpl; congruence|done].
  - eapply exclusive_act; [exact He|exact Hp|done|done|done|]. intros _.
    split; [apply lock_frame; simpl; congruence|done].
  - assert (in_section p = true) as Hin by (by destruct p).
    destruct ex; (eapply exclusive_act; [exact He|exact Hp|done|done|done|]; intros _; split; [|done]); [|done].
    apply lock_frame. rewrite (body_key p c Hc). congruence.
  - eapply exclusive_act; [exact He|exact Hp|done|done|done|].
    destruct (String.eqb _ _); [|done]. intros _. split; [|done].
    unfold lock_at. simpl. apply get_reads_only.
  - eapply exclusive_act; [exact He|exact Hp|done|done|done|]. done.
  - apply (exclusive_outside s); [done|done|done| |done].
    intros t q Hq Hin. simpl in Hq. destruct (decide (t = tok)) as [->|Hn].
    + rewrite lookup_insert_eq in Hq. by simplify_eq.
    + by rewrite lookup_insert_ne in Hq.
  - apply (exclusive_outside s); [done|done|by apply lockless_lock|done|].
    intros p. apply known_ext. intros f Hf. by apply lockless_keeps.
Qed.

Lemma reachable_exclusive s0 s : procs s0 = ∅ → run timely s0 s → exclusive s.
Proof.
  intros H0 Hr. eapply run_invariant; [exact exclusive_step|exact Hr|].
  intros tok p Hp. by rewrite H0, lookup_empty in Hp.
Qed.

(** C5. Mutual exclusion of the route lock. In every interleaving of attempts, of
    commands that fail executed or not and of the passing of time, in which the clock
    never passes the deadline of the lock while its attempt is inside: at most one
    attempt is between its acquire and its release. *)
Theorem one_attempt_in_section s0 s tok1 tok2 p1 p2 :
  procs s0 = ∅ → run timely s0 s →
  procs s !! tok1 = Some p1 → in_section p1 = true →
  procs s !! tok2 = Some p2 → in_section p2 = true → tok1 = tok2.
Proof.
  intros H0 Hr H1 I1 H2 I2. pose proof (reachable_exclusive s0 s H0 Hr) as He.
  eapply holds_inj; [apply (He _ _ H1 I1)|apply (He _ _ H2 I2)].
Qed.

Lemma owner_frame s c ps : cmd_key c ≠ Some (key name) → owner (send s c ps) = owner s.
Proof. intros Hk. unfold owner. by rewrite route_frame. Qed.

Lemma owner_set s n c reset ps a : owner s = Some a →
  owner (send s (HSet (key name) (bind_fields n c reset)) ps) = Some c.
Proof.
  unfold owner, fields. intros Ho. rewrite route_send by done. cbn [cmd_spec].
  destruct (hash_of (route_at s)) as [[h ex]|] eqn:E; [|done]. cbn [snd hash_of].
  apply (bound_fields h n c reset).
Qed.

Lemma owner_time s t ps : owner (State (srv s) t ps) ≠ owner s → ms s ≤ t → ms s < t.
Proof.
  intros Ho Ht. destruct (decide (t = ms s)) as [->|]; [|lia]. by destruct Ho.
Qed.

(** The ways a connection [a] can lose the route to an attempt. *)
Definition taken_over (s : state) (a : string) : Prop :=
  (∃ tok, procs s !! tok = Some (Deleting a)) ∨
  (∃ tok nb cb n c reset, procs s !! tok = Some (Setting (OBind nb cb) n c reset) ∧ c ≠ a) ∨
  (∃ tok nh ch n c reset, procs s !! tok = Some (Setting (OHeal nh ch) n c reset) ∧
     default "" (fields (route_at s) !! "node") = "").

(** What the body of the attempt inside takes away. *)
Lemma body_takes s tok p c ps a : exclusive s → procs s !! tok = Some p → body_cmd p = Some c →
  owner s = Some a → owner (send s c ps) ≠ Some a → taken_over s a.
Proof.
  intros He Hp Hc Ho Hlost. destruct p as [o|o n cid reset| |cid| | |]; simplify_eq/=.
  - unfold owner in *. rewrite route_send in Hlost by (by destruct o). by destruct o.
  - rewrite (owner_set _ _ _ _ _ _ Ho) in Hlost. destruct (He _ _ Hp eq_refl) as [_ Hk].
    right. destruct o; simpl in Hk; [left|right|done].
    + eexists _, _, _, _, _, _. split; [exact Hp|congruence].
    + eexists _, _, _, _, _, _. split; [exact Hp|]. destruct Hk as [?|[?|?]]; [done|congruence..].
  - exfalso. apply Hlost. unfold owner in *. rewrite <- Ho. apply lockless_keeps; [by left|auto].
  - destruct (He _ _ Hp eq_refl) as [_ Hk]. left. exists tok. simpl in Hk.
    by destruct Hk as [Hk|Hk]; rewrite Ho in Hk; simplify_eq.
Qed.

(** C6. A route is lost only by its owner or by a newer one. In every interleaving in
    which the clock never passes the deadline of the lock while its attempt is inside:
    if a step takes a connection's route away, then that step is time passing, or an
    attempt that was inside is an unbind of that connection, a bind of another one, or a
    heal of a route without a node. Without that condition a stalled unbind can take a
    newer owner's route ([stalled_unbind_takes_route]). *)
Theorem route_lost_only_by_owner s0 s s' a :
  procs s0 = ∅ → run timely s0 s → step s s' → owner s = Some a → owner s' ≠ Some a →
  ms s < ms s' ∨ taken_over s a.
Proof.
  intros H0 Hr Hs Ho Hlost. pose proof (reachable_exclusive s0 s H0 Hr) as He.
  pose proof (lock_key_differs name name) as Hne.
  destruct Hs as [s t Ht|s tok o Hp Hfree|s tok Hp Hfree|s tok Hp|s tok o Hp|s tok o n c reset Hp|s tok Hp|s tok c Hp
    |s tok p c ex Hp Hc|s tok Hp|s tok Hp|s tok p Hp|s c Hc].
  - left. simpl. eapply owner_time; [|exact Ht]. by rewrite Ho.
  - by rewrite owner_frame in Hlost by (simpl; congruence).
  - by rewrite owner_frame in Hlost by (simpl; congruence).
  - by rewrite owner_frame in Hlost by (simpl; congruence).
  - right. by eapply body_takes.
  - right. by eapply body_takes.
  - right. by eapply body_takes.
  - right. by eapply body_takes.
  - destruct ex; [right; by eapply body_takes|done].
  - by rewrite owner_frame in Hlost by (simpl; congruence).
  - by rewrite owner_frame in Hlost by (simpl; congruence).
  - done.
  - exfalso. apply Hlost. unfold owner in *. rewrite <- Ho. apply lockless_keeps; auto.
Qed.
End system.

(** ** Witnesses: one bind, up to its write *)
Definition sample_registry : Registry := {| ttl := 60 * second |}.
Definition sample_start : state := State (MemServer ∅) 0 ∅.

Lemma sample_ttl : 0 < prec_ms (ttl sample_registry).
Proof. by vm_compute. Qed.

Lemma still_time {s s' : state} : step sample_registry "abc" s s' → ms s' = ms s → timely sample_registry "abc" s s'.
Proof. intros Hs E. split; [done|]. lia. Qed.

Lemma one_attempt_in_section_witness :
  ∃ s, run (timely sample_registry "abc") sample_start s ∧
       procs s !! "t1" = Some (Reading (OBind "n" "c")) ∧ procs s !! "t2" = Some Finished ∧
       ∀ tok p, procs s !! tok = Some p → in_section p = true → tok = "t1".
Proof.
  assert (∃ s, run (timely sample_registry "abc") sample_start s ∧
     procs s !! "t1" = Some (Reading (OBind "n" "c")) ∧ procs s !! "t2" = Some Finished) as (s & Hr & H1 & H2).
  { eexists. split; [|split].
    - eapply run_step; [by apply still_time; [apply (step_acquire _ _ _ "t1" (OBind "n" "c"))|]|].
      eapply run_step; [by apply still_time; [apply (step_contended _ _ _ "t2"); [|by vm_compute]|]|]. apply run_refl.
    - by vm_compute.
    - by vm_compute. }
  exists s. split; [done|]. split; [done|]. split; [done|]. intros tok p Hp Hi.
  by apply (one_attempt_in_section sample_registry "abc" sample_ttl sample_start s tok "t1" p
           (Reading (OBind "n" "c"))).
Defined.

Definition bound_server : mem_server :=
  MemServer {[key "abc" := Entry (VHash (<["node" := "n1"]> (<["connID" := "c1"]> ∅))) None]}.
Definition sample_bound : state := State bound_server 0 ∅.
Definition sample_locked : state :=
  send sample_bound (SetNX (lockKey "abc") "t1" lockTTL) (<["t1" := Reading (OBind "n2" "c2")]> ∅).
Definition sample_taking : state :=
  let c := read_cmd "abc" (OBind "n2" "c2") in
  send sample_locked c
    (<["t1" := after_read (OBind "n2" "c2") (exec 0 c (srv sample_locked)).1]> (procs sample_locked)).
Definition sample_taken : state :=
  send sample_taking (HSet (key "abc") (bind_fields "n2" "c2" true)) (<["t1" := Expiring]> (procs sample_taking)).

Lemma route_lost_only_by_owner_witness :
  owner "abc" sample_taking = Some "c1" ∧ owner "abc" sample_taken ≠ Some "c1" ∧
  (ms sample_taking < ms sample_taken ∨ taken_over "abc" sample_taking "c1").
Proof.
  split; [done|]. split; [done|].
  apply (route_lost_only_by_owner sample_registry "abc" sample_ttl sample_bound sample_taking sample_taken "c1");
    [done| | |done|done].
  - eapply run_step; [by apply still_time; [apply (step_acquire _ _ sample_bound "t1" (OBind "n2" "c2"))|]|].
    apply run_one. by apply still_time; [apply (step_read _ _ sample_locked "t1" (OBind "n2" "c2"))|].
  - by apply (step_set _ _ sample_taking "t1" (OBind "n2" "c2") "n2" "c2" true).
Defined.

(** ** Why a section must not outlive its lock

    An unbind that stalls for six seconds after its read deletes the route that a
    newer connection has bound meanwhile. *)
Lemma stalled_unbind_takes_route :
  ∃ s s', run (step sample_registry "abc") sample_bound s ∧ step sample_registry "abc" s s' ∧
    owner "abc" s = Some "c2" ∧ owner "abc" s' = None ∧ ms s' = ms s ∧ procs s !! "t1" = Some (Deleting "c1").
Proof.
  eexists _, _. split; [|split].
  - step_to ltac:(by apply (step_acquire _ _ _ "t1" (OUnbind "c1"))).
    step_to ltac:(by apply (step_read _ _ _ "t1" (OUnbind "c1"))).
    step_to ltac:(by apply (step_time _ _ _ 6000)).
    step_to ltac:(by apply (step_acquire _ _ _ "t2" (OBind "n2" "c2"))).
    step_to ltac:(by apply (step_read _ _ _ "t2" (OBind "n2" "c2"))).
    step_to ltac:(by apply (step_set _ _ _ "t2" (OBind "n2" "c2") "n2" "c2" true)).
    apply run_refl.
  - by apply (step_delete _ _ _ "t1" "c1").
  - by vm_compute.
Qed.
End RouteLock.
