(* ===== verification/Caplog.v ===== *)
(** * Deduplicated cap-hit log

    [internal/caplog]: the first hit of a (tunnel, reason) pair in a window is
    logged at once, further hits are counted and summarised when the window is
    over.  The [Logger] is the state map, the emitted [line]s are the output.
    Go ranges over a map in an unspecified order; the model uses the map's own,
    and the theorems do not depend on it. *)
From Stdlib Require Import ZArith Lia Ascii String.
From stdpp Require Import sorting.
From S2P Require Import Prelude GoStr.
Local Open Scope string_scope.
Local Open Scope list_scope.
Local Open Scope Z_scope.

Module Caplog.

Inductive Level := LevelInfo | LevelWarn.
Record phrasing := Phrasing { first : string; repeated : string; level : Level }.

Definition phrasings : list (string * phrasing) :=
  [
   ("handshake-timeout", Phrasing "refused a connection: the client did not send a valid TLS greeting in time"
      "refused connections repeatedly within one minute: the clients did not send a valid TLS greeting in time" LevelInfo);
   ("ban", Phrasing "refused a connection from a banned address"
      "refused connections from banned addresses repeatedly within one minute" LevelInfo);
   ("ban-tunnel", Phrasing "refused a phone connection: the tunnel name is banned"
      "refused phone connections repeatedly within one minute: the tunnel name is banned" LevelInfo);
   ("conn-rate", Phrasing "refused a connection: too many new connections from this address"
      "refused connections repeatedly within one minute: too many new connections from the same addresses" LevelInfo);
   ("acme-http-miss", Phrasing "answered a request on the plain HTTP port that matched no certificate validation"
      "answered requests on the plain HTTP port repeatedly within one minute that matched no certificate validation" LevelInfo);
   ("max-clients", Phrasing "refused a connection: this node is at its connection limit"
      "refused connections repeatedly within one minute: this node is at its connection limit" LevelWarn);
   ("quota-day", Phrasing "refused or ended a tunnel connection: the tunnel has used up its daily traffic"
      "refused or ended tunnel connections repeatedly within one minute: the tunnel has used up its daily traffic" LevelWarn);
   ("quota-week", Phrasing "refused or ended a tunnel connection: the tunnel has used up its weekly traffic"
      "refused or ended tunnel connections repeatedly within one minute: the tunnel has used up its weekly traffic" LevelWarn);
   ("stream-cap", Phrasing "refused a connection: the tunnel already has its maximum number of open connections"
      "refused connections repeatedly within one minute: the tunnel already has its maximum number of open connections" LevelWarn);
   ("attest-untrusted", Phrasing "refused a device attestation: it is missing or unreadable, or its certificate chain could not be verified against the loaded Google attestation roots"
      "refused device attestations repeatedly within one minute: they are missing or unreadable, or their certificate chains could not be verified against the loaded Google attestation roots" LevelWarn);
   ("attest-challenge", Phrasing "refused a device attestation: it does not contain the server's one-time code"
      "refused device attestations repeatedly within one minute: they do not contain the server's one-time code" LevelWarn);
   ("attest-signer", Phrasing "refused a device attestation: the app is not signed with an allowed key"
      "refused device attestations repeatedly within one minute: the app is not signed with an allowed key" LevelWarn);
   ("attest-security-level", Phrasing "refused a device attestation: the device key is not kept in secure hardware"
      "refused device attestations repeatedly within one minute: the device key is not kept in secure hardware" LevelWarn);
   ("attest-boot", Phrasing "refused a device attestation: the device did not prove that it started in verified boot mode"
      "refused device attestations repeatedly within one minute: the device did not prove that it started in verified boot mode" LevelWarn);
   ("attest-device-unlocked", Phrasing "refused a device attestation: the device's bootloader is unlocked"
      "refused device attestations repeatedly within one minute: the device's bootloader is unlocked" LevelWarn);
   ("attest-revoked", Phrasing "refused a device attestation: a certificate in the device's attestation chain is revoked or suspended"
      "refused device attestations repeatedly within one minute: a certificate in the device's attestation chain is revoked or suspended" LevelWarn);
   ("attest-stale", Phrasing "refused a device attestation: the attestation revocation list is too old or was never fetched, so the device cannot be checked"
      "refused device attestations repeatedly within one minute: the attestation revocation list is too old or was never fetched, so the devices cannot be checked" LevelWarn);
   ("csr-mismatch", Phrasing "refused a certificate request: it is badly signed, uses an unsupported key or not the attested key, or does not ask for exactly the tunnel's name"
      "refused certificate requests repeatedly within one minute: they are badly signed, use an unsupported key or not the attested key, or do not ask for exactly the tunnel's name" LevelWarn);
   ("csr-mismatch-enroll", Phrasing "refused an enrollment: its certificate signing request is badly signed or does not use the attested key"
      "refused enrollments repeatedly within one minute: their certificate signing requests are badly signed or do not use the attested key" LevelWarn);
   ("enroll-limit", Phrasing "refused an enrollment: too many enrollments from this address"
      "refused enrollments repeatedly within one minute: too many enrollments from the same addresses" LevelWarn);
   ("issuance-cap", Phrasing "refused a certificate request: the tunnel reached its weekly certificate limit or another request for it is still running"
      "refused certificate requests repeatedly within one minute: the tunnel reached its weekly certificate limit or another request for it is still running" LevelWarn);
   ("acme-failed", Phrasing "refused a certificate request: no certificate authority issued the certificate"
      "refused certificate requests repeatedly within one minute: no certificate authority issued the certificate" LevelWarn)].

Fixpoint assoc (l : list (string * phrasing)) (k : string) : option phrasing :=
  match l with
  | [] => None
  | (k', v) :: l' => if String.eqb k' k then Some v else assoc l' k
  end.

Definition describe (tunnel reason : string) : phrasing :=
  let reason :=
    if String.eqb reason "ban" && negb (String.eqb tunnel "") then "ban-tunnel"
    else if String.eqb reason "csr-mismatch" && String.eqb tunnel "" then "csr-mismatch-enroll"
    else reason in
  match assoc phrasings reason with
  | Some p => p
  | None => Phrasing ("refused a request: " +:+ reason)
              ("refused requests repeatedly within one minute: " +:+ reason) LevelWarn
  end.

Definition maxTrackedIPs : nat := 1024.

Record state := State {
  count : Z;
  ips : gset string;
  ipsCapped : bool;
  windowStart : Z
}.

(** The lines written: their level, text and attributes. *)
Inductive line :=
| Immediate (lv : Level) (msg tunnel reason clientIP : string) (fields : list string)
| Summary (lv : Level) (msg tunnel reason : string) (n : Z) (ips : string) (window : Z).

Record Logger := { window : Z; states : gmap string state }.

Definition hit_key (tunnel reason : string) : string := tunnel +:+ "|" +:+ reason.

Definition newState (now : Z) (clientIP : string) : state :=
  State 1 (if String.eqb clientIP "" then ∅ else {[clientIP]}) false now.

Definition logImmediate (tunnel reason clientIP : string) (fields : list string) : line :=
  let p := describe tunnel reason in
  Immediate (level p) (first p) tunnel reason clientIP fields.

Definition emitSummary (window : Z) (tunnel reason : string) (st : state) : list line :=
  if count st <=? 1 then []
  else
    let n := FormatInt (Z.of_nat (size (ips st))) in
    let n := if ipsCapped st then n +:+ "+" else n in
    let p := describe tunnel reason in
    [Summary (level p) (repeated p) tunnel reason (count st) n window].

Definition splitKey (key : string) : string * string :=
  match IndexByte key "|"%char with
  | Some i => (str_take i key, str_drop (S i) key)
  | None => (key, "")
  end.

Definition key_summary (window : Z) (key : string) (st : state) : list line :=
  let '(tunnel, reason) := splitKey key in emitSummary window tunnel reason st.

(** Entries whose window is over, other than [except]. *)
Definition stale (window now : Z) (except : string) (kst : string * state) : Prop :=
  kst.1 ≠ except ∧ window ≤ now - windowStart kst.2.
#[export] Instance stale_dec window now except kst : Decision (stale window now except kst).
Proof. unfold stale. apply _. Defined.

Definition sweep (l : Logger) (now : Z) (except : string) : Logger * list line :=
  let old := filter (stale (window l) now except) (states l) in
  ({| window := window l; states := states l ∖ old |},
   concat (map (λ kst, key_summary (window l) kst.1 kst.2) (map_to_list old))).

Definition count_hit (st : state) (clientIP : string) : state :=
  let st := State (count st + 1) (ips st) (ipsCapped st) (windowStart st) in
  if String.eqb clientIP "" then st
  else if (size (ips st) <? maxTrackedIPs)%nat
       then State (count st) ({[clientIP]} ∪ ips st) (ipsCapped st) (windowStart st)
       else State (count st) (ips st) true (windowStart st).

Definition Hit (l : Logger) (now : Z) (tunnel reason clientIP : string) (fields : list string)
    : Logger * list line :=
  let key := hit_key tunnel reason in
  let '(st', out) :=
    match states l !! key with
    | None => (newState now clientIP, [logImmediate tunnel reason clientIP fields])
    | Some st =>
        if window l <=? now - windowStart st then
          (newState now clientIP,
           emitSummary (window l) tunnel reason st ++ [logImmediate tunnel reason clientIP fields])
        else (count_hit st clientIP, [])
    end in
  let '(l', swept) := sweep {| window := window l; states := <[key := st']> (states l) |} now key in
  (l', out ++ swept).

Definition Flush (l : Logger) : Logger * list line :=
  ({| window := window l; states := ∅ |},
   concat (map (λ kst, key_summary (window l) kst.1 kst.2) (map_to_list (states l)))).

(** ** Accounting *)

(** Hits a list of lines accounts for under a key: an immediate line is one, a
    summary adds what it counts beyond the hit that was logged at once. *)
Definition line_hits (k : string) (ln : line) : Z :=
  match ln with
  | Immediate _ _ t r _ _ => if decide (hit_key t r = k) then 1 else 0
  | Summary _ _ t r n _ _ => if decide (hit_key t r = k) then n - 1 else 0
  end.
Definition reported (k : string) (out : list line) : Z := foldr Z.add 0 (map (line_hits k) out).

Definition pending (m : gmap string state) (k : string) : Z :=
  match m !! k with Some st => count st - 1 | None => 0 end.

(** Every tracked key is a pair's key and has counted a hit. *)
Definition wf (m : gmap string state) : Prop :=
  map_Forall (λ k st, (∃ t r, k = hit_key t r) ∧ 1 ≤ count st) m.

Lemma reported_app k a b : reported k (a ++ b) = reported k a + reported k b.
Proof. unfold reported. induction a; simpl; lia. Qed.

Lemma take_drop_str i s : str_take i s +:+ str_drop i s = s.
Proof.
  revert s. induction i as [|i IH]; intros [|c s]; simpl; try done. by rewrite IH.
Qed.

Lemma IndexByte_split s c i : IndexByte s c = Some i → s = str_take i s +:+ String c (str_drop (S i) s).
Proof.
  revert i. induction s as [|a s IH]; intros i Hi; [done|]. simpl in Hi.
  destruct (Ascii.eqb_spec a c) as [->|Hne]; simplify_eq/=; [done|].
  destruct (IndexByte s c) as [j|]; simplify_eq/=. f_equal. by apply IH.
Qed.

Lemma IndexByte_app t c s : ∃ i, IndexByte (t +:+ String c s) c = Some i.
Proof.
  induction t as [|a t [i IH]]; simpl.
  - rewrite Ascii.eqb_refl. by exists 0%nat.
  - destruct (Ascii.eqb a c); [by exists 0%nat|]. rewrite IH. by eexists.
Qed.

Lemma splitKey_join t r : hit_key (splitKey (hit_key t r)).1 (splitKey (hit_key t r)).2 = hit_key t r.
Proof.
  assert (∃ i, IndexByte (hit_key t r) "|"%char = Some i) as [i Hi] by apply IndexByte_app.
  generalize dependent (hit_key t r). intros k Hi. unfold splitKey. rewrite Hi. symmetry.
  by apply IndexByte_split.
Qed.

Lemma reported_summary w t r st k : 1 ≤ count st →
  reported k (emitSummary w t r st) = if decide (hit_key t r = k) then count st - 1 else 0.
Proof.
  intros Hc. unfold emitSummary, reported. destruct (Z.leb_spec (count st) 1); simpl; case_decide; lia.
Qed.

Lemma reported_key_summary w k0 st k : (∃ t r, k0 = hit_key t r) → 1 ≤ count st →
  reported k (key_summary w k0 st) = if decide (k0 = k) then count st - 1 else 0.
Proof.
  intros (t & r & ->) Hc. unfold key_summary. pose proof (splitKey_join t r) as Hj.
  destruct (splitKey (hit_key t r)) as [t' r']. simpl in Hj. by rewrite reported_summary, Hj.
Qed.

Lemma reported_pairs w k (l : list (string * state)) :
  NoDup l.*1 → Forall (λ kst, (∃ t r, kst.1 = hit_key t r) ∧ 1 ≤ count kst.2) l →
  reported k (concat (map (λ kst, key_summary w kst.1 kst.2) l)) = pending (list_to_map l) k.
Proof.
  intros Hnd Hall. induction Hall as [|[k0 st] l [Hk Hc] Hall IH]; [done|]. simpl in *.
  apply NoDup_cons in Hnd as [Hni Hnd]. rewrite reported_app, IH, reported_key_summary by done.
  unfold pending. case_decide as Hd; [subst k0|by rewrite lookup_insert_ne].
  rewrite lookup_insert_eq, not_elem_of_list_to_map_1 by done. lia.
Qed.

Lemma reported_summaries w m k : wf m →
  reported k (concat (map (λ kst, key_summary w kst.1 kst.2) (map_to_list m))) = pending m k.
Proof.
  intros Hwf. rewrite reported_pairs; [by rewrite list_to_map_to_list|apply NoDup_fst_map_to_list|].
  apply map_Forall_to_list in Hwf. eapply Forall_impl; [exact Hwf|]. by intros [].
Qed.

Lemma sweep_accounts l now except k : wf (states l) →
  reported k (sweep l now except).2 + pending (states (sweep l now except).1) k = pending (states l) k ∧
  wf (states (sweep l now except).1).
Proof.
  intros Hwf. unfold sweep. simpl.
  assert (wf (filter (stale (window l) now except) (states l))) as Hwf'.
  { intros k' st [Hk _]%map_lookup_filter_Some. by apply Hwf. }
  rewrite reported_summaries by done. split.
  - unfold pending. destruct (states l !! k) as [st|] eqn:E.
    + destruct (decide (stale (window l) now except (k, st))).
      * rewrite (proj2 (map_lookup_filter_Some _ _ _ _)) by done.
        rewrite (proj2 (lookup_difference_None _ _ _)); [lia|].
        right. exists st. by apply map_lookup_filter_Some.
      * assert (filter (stale (window l) now except) (states l) !! k = None) as Hn.
        { apply map_lookup_filter_None. right. naive_solver. }
        rewrite Hn, (proj2 (lookup_difference_Some _ _ _ _)) by done. lia.
    + rewrite (proj2 (map_lookup_filter_None _ _ _)) by (by left).
      rewrite (proj2 (lookup_difference_None _ _ _)) by (by left). lia.
  - intros k' st [Hk _]%lookup_difference_Some. by apply Hwf.
Qed.

Lemma Hit_accounts l now t r ip fs k : wf (states l) →
  reported k (Hit l now t r ip fs).2 + pending (states (Hit l now t r ip fs).1) k =
    pending (states l) k + (if decide (hit_key t r = k) then 1 else 0) ∧
  wf (states (Hit l now t r ip fs).1).
Proof.
  intros Hwf. unfold Hit.
  set (hk := hit_key t r).
  destruct (match states l !! hk with None => _ | Some _ => _ end) as [st' out] eqn:Hm.
  assert (1 ≤ count st' ∧ reported k out + (if decide (hk = k) then count st' - 1 else 0) =
    (if decide (hk = k) then pending (states l) k + 1 else 0)) as [Hc' Hacc].
  { unfold pending. destruct (states l !! hk) as [st|] eqn:Es.
    - destruct (Hwf _ _ Es) as [_ Hc]. destruct (window l <=? now - windowStart st); simplify_eq.
      + rewrite reported_app, reported_summary by done. unfold reported. simpl. fold hk.
        case_decide; [subst k; rewrite Es|]; lia.
      + unfold count_hit. assert (∀ b : bool, ∀ x y : state, count (if b then x else y) =
          if b then count x else count y) as Hif by (by intros []). rewrite !Hif. simpl.
        destruct (String.eqb ip ""), (size (ips st) <? maxTrackedIPs)%nat; simpl; unfold reported; simpl;
          case_decide; try (subst k; rewrite Es); lia.
    - simplify_eq. simpl. unfold reported. simpl. fold hk. case_decide; [subst k; rewrite Es|]; lia. }
  clear Hm. set (l1 := {| window := window l; states := <[hk := st']> (states l) |}).
  destruct (sweep_accounts l1 now hk k) as [Hs Hw].
  { intros k' st Hk. simpl in Hk. apply lookup_insert_Some in Hk as [[<- <-]|[_ Hk]]; [|by apply Hwf].
    split; [by exists t, r|done]. }
  destruct (sweep l1 now hk) as [l' swept]. simpl in *. rewrite reported_app. split; [|done].
  unfold pending in Hs at 2. unfold l1 in Hs. simpl in Hs. unfold pending in Hacc |- * at 1.
  destruct (decide (hk = k)) as [->|Hne].
  - rewrite lookup_insert_eq in Hs. unfold pending in *. lia.
  - rewrite lookup_insert_ne in Hs by done. unfold pending in *. lia.
Qed.

(** ** Runs *)
Record hit := MkHit { h_now : Z; h_tunnel : string; h_reason : string; h_ip : string; h_fields : list string }.

Definition newLogger (w : Z) : Logger := {| window := w; states := ∅ |}.

(** The lines of successive hits, each with the instant it was written. *)
Fixpoint run_hits (l : Logger) (hs : list hit) : Logger * list (Z * line) :=
  match hs with
  | [] => (l, [])
  | h :: hs' =>
      let '(l1, out) := Hit l (h_now h) (h_tunnel h) (h_reason h) (h_ip h) (h_fields h) in
      let '(l2, rest) := run_hits l1 hs' in
      (l2, map (pair (h_now h)) out ++ rest)
  end.

Definition hits_of (k : string) (hs : list hit) : list hit :=
  filter (λ h, hit_key (h_tunnel h) (h_reason h) = k) hs.

Lemma run_hits_accounts hs l k : wf (states l) →
  reported k (map snd (run_hits l hs).2) + pending (states (run_hits l hs).1) k =
    pending (states l) k + len (hits_of k hs) ∧ wf (states (run_hits l hs).1).
Proof.
  revert l. induction hs as [|h hs IH]; intros l Hwf; simpl.
  { unfold reported. simpl. split; [lia|done]. }
  destruct (Hit_accounts l (h_now h) (h_tunnel h) (h_reason h) (h_ip h) (h_fields h) k Hwf) as [Ha Hw].
  destruct (Hit _ _ _ _ _ _) as [l1 out]. simpl in *.
  destruct (IH l1 Hw) as [IHa IHw]. destruct (run_hits l1 hs) as [l2 rest]. simpl in *.
  split; [|done]. rewrite map_app, map_map, reported_app. simpl. rewrite map_id.
  unfold hits_of in *. rewrite filter_cons.
  destruct (decide (hit_key (h_tunnel h) (h_reason h) = k)); rewrite ?length_cons; lia.
Qed.

(** Deduplication loses nothing: for every sequence of hits and every key, the hits the
    immediate lines and the summaries stand for, once flushed, are exactly the hits
    recorded, and the flush leaves no state behind. *)
Lemma every_hit_reported w hs k :
  let '(l, out) := run_hits (newLogger w) hs in
  let '(l', flushed) := Flush l in
  reported k (map snd out ++ flushed) = len (hits_of k hs) ∧ states l' = ∅.
Proof.
  destruct (run_hits_accounts hs (newLogger w) k) as [Ha Hw]; [apply map_Forall_empty|].
  destruct (run_hits (newLogger w) hs) as [l out]. simpl in *.
  rewrite reported_app, reported_summaries by done.
  unfold pending at 2 in Ha. simpl in Ha. rewrite lookup_empty in Ha. split; [lia|done].
Qed.

(** When the immediate lines of a key were written. *)
Definition imm_times (k : string) (out : list (Z * line)) : list Z :=
  omap (λ tl, match tl.2 with
              | Immediate _ _ t r _ _ => if decide (hit_key t r = k) then Some tl.1 else None
              | _ => None
              end) out.

Definition spaced (w : Z) : list Z → Prop := StronglySorted (λ a b, a + w ≤ b).

(** No immediate line of [k] so far is less than a window old, unless [k] is
    still tracked since. *)
Definition quiet_since (l : Logger) (now : Z) (k : string) (ts : list Z) : Prop :=
  Forall (λ t, match states l !! k with
               | Some st => t ≤ windowStart st
               | None => t + window l ≤ now
               end) ts.

Lemma imm_times_app k a b : imm_times k (a ++ b) = imm_times k a ++ imm_times k b.
Proof. unfold imm_times. apply omap_app. Qed.

Lemma summary_silent w t r st now k : imm_times k (map (pair now) (emitSummary w t r st)) = [].
Proof. unfold emitSummary. by case_match. Qed.

Lemma summaries_silent w (l : list (string * state)) now k :
  imm_times k (map (pair now) (concat (map (λ kst, key_summary w kst.1 kst.2) l))) = [].
Proof.
  induction l as [|[k0 st] l IH]; simpl; [done|]. rewrite map_app, imm_times_app, IH, app_nil_r.
  unfold key_summary. destruct (splitKey k0). apply summary_silent.
Qed.

Lemma sweep_quiet l now except k ts : quiet_since l now k ts → quiet_since (sweep l now except).1 now k ts.
Proof.
  unfold quiet_since, sweep. simpl. intros Hq. eapply Forall_impl; [exact Hq|]. intros t Ht.
  destruct (states l !! k) as [st|] eqn:E.
  - destruct (decide (stale (window l) now except (k, st))) as [Hs|Hs].
    + rewrite (proj2 (lookup_difference_None _ _ _)); [destruct Hs; simpl in *; lia|].
      right. exists st. by apply map_lookup_filter_Some.
    + assert (filter (stale (window l) now except) (states l) !! k = None) as Hn
        by (apply map_lookup_filter_None; right; naive_solver).
      by rewrite (proj2 (lookup_difference_Some _ _ _ _) (conj E Hn)).
  - by rewrite (proj2 (lookup_difference_None _ _ _)) by (by left).
Qed.

Lemma Hit_spaced l now t r ip fs last k ts :
  0 ≤ window l → last ≤ now → spaced (window l) ts → quiet_since l last k ts →
  let res := Hit l now t r ip fs in
  let ts' := ts ++ imm_times k (map (pair now) res.2) in
  window res.1 = window l ∧ spaced (window l) ts' ∧ quiet_since res.1 now k ts'.
Proof.
  intros Hw Hle Hsp Hqs. unfold Hit. set (hk := hit_key t r).
  destruct (match states l !! hk with None => _ | Some _ => _ end) as [st' out] eqn:Hm.
  set (l1 := {| window := window l; states := <[hk := st']> (states l) |}).
  assert (imm_times k (map (pair now) (sweep l1 now hk).2) = []) as Hsil by apply summaries_silent.
  assert (spaced (window l) (ts ++ imm_times k (map (pair now) out)) ∧
          quiet_since l1 now k (ts ++ imm_times k (map (pair now) out))) as [Hsp' Hqs'].
  { assert (hk ≠ k → imm_times k (map (pair now) out) = []) as Hother.
    { intros Hne. destruct (states l !! hk) as [st|]; [case_match|]; simplify_eq; [|done|];
        rewrite ?map_app, ?imm_times_app, ?summary_silent; simpl; unfold imm_times; simpl;
        fold hk; by rewrite decide_False. }
    assert (∀ st0, windowStart st0 = now → Forall (λ x, x + window l ≤ now) ts →
      spaced (window l) (ts ++ [now]) ∧
      quiet_since {| window := window l; states := <[hk := st0]> (states l) |} now hk (ts ++ [now])) as Hnew.
    { intros st0 Hst Hf. split.
      - apply StronglySorted_app_2; [|done|repeat constructor]. intros a b Ha Hb.
        apply list_elem_of_singleton in Hb as ->. by eapply Forall_forall in Hf.
      - unfold quiet_since. simpl. rewrite lookup_insert_eq, Hst. apply Forall_app.
        split; [|by constructor]. eapply Forall_impl; [exact Hf|]. simpl. lia. }
    destruct (decide (hk = k)) as [<-|Hne].
    - unfold quiet_since in Hqs. destruct (states l !! hk) as [st|] eqn:Es.
      + destruct (Z.leb_spec (window l) (now - windowStart st)); simplify_eq.
        * rewrite map_app, imm_times_app, summary_silent. simpl. unfold imm_times. simpl. fold hk.
          rewrite decide_True by done. apply Hnew; [done|]. eapply Forall_impl; [exact Hqs|]. simpl. lia.
        * simpl. rewrite app_nil_r. split; [done|]. unfold quiet_since, l1. simpl.
          rewrite lookup_insert_eq. eapply Forall_impl; [exact Hqs|]. simpl. intros x Hx.
          unfold count_hit. by repeat case_match.
      + simplify_eq. simpl. unfold imm_times. simpl. fold hk. rewrite decide_True by done.
        apply Hnew; [done|]. eapply Forall_impl; [exact Hqs|]. simpl. lia.
    - rewrite (Hother Hne), app_nil_r. split; [done|]. unfold quiet_since, l1 in *. simpl.
      rewrite lookup_insert_ne by done. eapply Forall_impl; [exact Hqs|]. simpl.
      intros x. destruct (states l !! k); lia. }
  pose proof (sweep_quiet l1 now hk k _ Hqs') as Hq2.
  destruct (sweep l1 now hk) as [l' swept] eqn:Esw. simpl in *.
  rewrite map_app, imm_times_app, Hsil, app_nil_r. split; [|done].
  unfold sweep in Esw. by simplify_eq.
Qed.
(** Two immediate lines of one (tunnel, reason) are at least a window apart. *)
Lemma immediate_lines_spaced w hs k :
  0 ≤ w → StronglySorted Z.le (map h_now hs) →
  spaced w (imm_times k (run_hits (newLogger w) hs).2).
Proof.
  intros Hw Hs.
  assert (∀ l last ts, window l = w → Forall (λ h, last ≤ h_now h) hs → spaced w ts →
    quiet_since l last k ts → spaced w (ts ++ imm_times k (run_hits l hs).2)) as Hgen.
  { induction hs as [|h hs IH]; intros l last ts Hl Hf Hsp Hq; simpl; [by rewrite app_nil_r|].
    simpl in Hs. apply StronglySorted_cons in Hs as [Hle Hs]. apply Forall_cons in Hf as [Hf _].
    destruct (Hit_spaced l (h_now h) (h_tunnel h) (h_reason h) (h_ip h) (h_fields h) last k ts)
      as (Hw' & Hsp' & Hq'); [lia|done|by rewrite Hl|done|]. rewrite Hl in *.
    destruct (Hit _ _ _ _ _ _) as [l1 out]. simpl in *.
    specialize (IH Hs l1 (h_now h) _ Hw' (proj1 (Forall_map _ _ _) Hle) Hsp' Hq').
    destruct (run_hits l1 hs) as [l2 rest]. simpl in *.
    by rewrite imm_times_app, app_assoc. }
  destruct hs as [|h hs]; [constructor|].
  apply (Hgen (newLogger w) (h_now h) []); [done| |constructor|constructor].
  simpl in Hs. apply StronglySorted_cons in Hs as [Hle _]. constructor; [done|].
  exact (proj1 (Forall_map _ _ _) Hle).
Qed.

(** ** Witness *)
Definition sample_hits : list hit :=
  [MkHit 0 "abc" "stream-cap" "192.0.2.1" []; MkHit (30 * second) "abc" "stream-cap" "192.0.2.1" [];
   MkHit (90 * second) "abc" "stream-cap" "192.0.2.2" []].

Lemma immediate_lines_spaced_witness :
  imm_times (hit_key "abc" "stream-cap") (run_hits (newLogger minute) sample_hits).2 = [0; 90 * second] ∧
  spaced minute (imm_times (hit_key "abc" "stream-cap") (run_hits (newLogger minute) sample_hits).2).
Proof.
  split; [by vm_compute|].
  apply (immediate_lines_spaced minute sample_hits (hit_key "abc" "stream-cap")); [by vm_compute|].
  repeat constructor; by vm_compute.
Defined.
End Caplog.
