(* ===== verification/Edge.v ===== *)
(** * The public edge: accepting connections

    [internal/edge/edge.go], [accept.go] and [acme.go]: the accept loop's
    backoff, the accept-time checks in their order, the connection ceiling
    ([admit]/[release], and [heldConn] that carries a slot to a reserved host),
    the ClientHello peek and the connection that replays it, and the dispatch on
    SNI and ALPN.  [Bridge] models what happens to a tunnel connection.

    The edge sees the limiter through [StreamLimiter]; [limiter_streams] is the
    production implementation.  Outside the model are the sockets themselves (a
    connection is the bytes its peer sends), [netip.ParseAddr], and the TLS
    handshake that answers an ACME validation. *)
From Stdlib Require Import ZArith Lia Strings.Byte Ascii String.
From S2P Require Import Prelude GoStr Wire ClientHello Valkey Limiter.
Local Open Scope string_scope.
Local Open Scope list_scope.
Local Open Scope Z_scope.

(** ** The interface to the limiter *)
Class StreamLimiter (B : Type) := {
  sl_AcquireStream : string → string → Z → B → result Valkey.rerr bool * B;
  sl_ReleaseStream : string → string → B → result Valkey.rerr unit * B;
  sl_Charge : string → string → string → Z → B →
    (Limiter.ChargeAction * Z * string * option Valkey.rerr) * B;
  sl_TrafficExhausted : string → B → result Valkey.rerr (bool * bool) * B;
  sl_Allow : string → string → Z → Z → B → result Valkey.rerr (bool * Z) * B
}.

#[export] Instance limiter_streams {S} `{Valkey.ValkeyServer S} (l : Limiter.Limiter) :
    StreamLimiter (Valkey.world S) := {
  sl_AcquireStream := Limiter.AcquireStream l;
  sl_ReleaseStream := Limiter.ReleaseStream;
  sl_Charge := Limiter.Charge l;
  sl_TrafficExhausted := Limiter.TrafficExhausted l;
  sl_Allow := Limiter.Allow
}.

Module Edge.
Import ClientHello.

Record Config := {
  EnrollHost : string;
  ControlHost : string;
  TunnelDomain : string;
  MaxClients : Z;
  ConnRate : Z;
  Concurrent : Z;
  HandshakeTimeout : Z;
  DialBackTimeout : Z;
  IdleTimeout : Z;
  MinRate : Z;
  MinGrace : Z;
  EvictIdle : Z;
  ProtectRate : Z
}.

Definition acmeTLS1Protocol : string := "acme-tls/1".

(** ** Addresses *)

Fixpoint LastIndexByte (s : string) (c : ascii) : option nat :=
  match s with
  | "" => None
  | String d s' =>
      match LastIndexByte s' c with
      | Some i => Some (S i)
      | None => if Ascii.eqb d c then Some O else None
      end
  end.

(** [net.SplitHostPort]; its errors are not told apart. *)
Definition SplitHostPort (hostport : string) : option (string * string) :=
  match LastIndexByte hostport ":"%char with
  | None => None
  | Some i =>
      let finish host j k :=
        if ContainsByte (str_drop j hostport) "["%char || ContainsByte (str_drop k hostport) "]"%char
        then None else Some (host, str_drop (S i) hostport) in
      if HasPrefix hostport "[" then
        match IndexByte hostport "]"%char with
        | None => None
        | Some e =>
            if (S e =? i)%nat then finish (str_drop 1 (str_take e hostport)) 1%nat (S e) else None
        end
      else
        let host := str_take i hostport in
        if ContainsByte host ":"%char then None else finish host 0%nat 0%nat
  end.

Definition peerAddr (remote : string) : string :=
  match SplitHostPort remote with Some (host, _) => host | None => remote end.

(** The port's leading digits; Go's [int] wraps. *)
Fixpoint port_digits (s : string) (p : Z) : Z :=
  match s with
  | "" => p
  | String c s' => match digit_val c with
                   | None => p
                   | Some d => port_digits s' (wrap64 (p * 10 + d))
                   end
  end.

Definition splitAddr (remote : string) : string * Z :=
  match SplitHostPort remote with
  | None => (remote, 0)
  | Some (host, port) => (host, port_digits port 0)
  end.

(** ** Names *)
Section names.
Context `{UnicodeCase}.

Definition tunnelName (cfg : Config) (sni : string) : option string :=
  let sni := ToLower sni in
  let suffix := "." +:+ TunnelDomain cfg in
  if String.eqb (TunnelDomain cfg) "" || negb (HasSuffix sni suffix) then None
  else
    let name := TrimSuffix sni suffix in
    if String.eqb name "" || ContainsByte name "."%char then None else Some name.
End names.

(** ** The ceiling on open connections

    [admit] adds one and takes it back when the total is over the ceiling. *)
Definition admit_add (clients : Z) : Z := clients + 1.
Definition admit_ok (cfg : Config) (n : Z) : bool := negb (MaxClients cfg <? n).

Definition edge_admit (cfg : Config) (clients : Z) : bool * Z :=
  let n := admit_add clients in
  if admit_ok cfg n then (true, n) else (false, n - 1).

Definition edge_release (clients : Z) : Z := clients - 1.

(** ** The peek *)
Record peekConn := PeekConn { prefix : bytes; off : nat; under : bytes }.

(** One Read into a buffer of [n] bytes; [k] is how many the socket has. *)
Definition peek_read (c : peekConn) (n k : nat) : bytes * peekConn :=
  if (off c <? length (prefix c))%nat then
    let got := take n (drop (off c) (prefix c)) in
    (got, PeekConn (prefix c) (off c + length got) (under c))
  else
    let got := take (n `min` k) (under c) in
    (got, PeekConn (prefix c) (off c) (drop (n `min` k) (under c))).

Section peek.
Variable sha256_hex : string → string.

(** [input] is what arrives before the handshake deadline or the peer's close. *)
Definition peekClientHello (input : bytes) : option (ClientHelloInfo * peekConn) :=
  match Wire.ReadFull input 5 with
  | None => None
  | Some (hdr, rest) =>
      match hdr with
      | [_; _; _; h3; h4] =>
          let recLen := Z.lor (Z.shiftl (bZ h3) 8) (bZ h4) in
          if (recLen <=? 0) || (16 * 1024 <? recLen) then None
          else
            match Wire.ReadFull rest (Z.to_nat recLen) with
            | None => None
            | Some (body, rest') =>
                match parseClientHello sha256_hex (hdr ++ body) with
                | Ret info => Some (info, PeekConn (hdr ++ body) 0 rest')
                | _ => None
                end
            end
      | _ => None
      end
  end.
End peek.

(** ** The accept loop's backoff *)
Definition accept_backoff (delay : Z) : Z :=
  if delay =? 0 then 5 * millisecond
  else let delay := delay * 2 in if second <? delay then second else delay.

(** ** Dispatch *)
Record ConnMeta := {
  m_SNI : string; m_ALPN : string; m_TLSVersion : string; m_JA4 : string;
  m_SrcIP : string; m_SrcPort : Z
}.

Definition withMeta (info : ClientHelloInfo) (remote : string) : ConnMeta :=
  let '(srcIP, srcPort) := splitAddr remote in
  {| m_SNI := SNI info; m_ALPN := ALPN info; m_TLSVersion := TLSVersion info; m_JA4 := JA4 info;
     m_SrcIP := srcIP; m_SrcPort := srcPort |}.

(** What the edge does with a connection. *)
Inductive action :=
| Reject (reason tunnel ip : string)
| CloseConn
| ServeACME (domain ip : string)
| PushEnroll (pc : peekConn)
| PushControl (pc : peekConn) (meta : ConnMeta)
| HandleTunnel (pc : peekConn) (info : ClientHelloInfo).

Section dispatch.
Context `{UnicodeCase} (sha256_hex : string → string).
Context (ParseAddr : string → option string) (ban : option (string → bool)).
Context {B : Type} `{StreamLimiter B}.

(** A control-plane error lets the connection through. *)
Definition connRate (cfg : Config) (addr : string) (b : B) : bool * B :=
  let '(r, b') := sl_Allow "conn-rate" addr (ConnRate cfg) second b in
  (match r with Err _ => true | Ok (ok, _) => ok end, b').

Definition banned (addr : string) : bool :=
  match ban with None => false | Some f => f addr end.

(** The actions, the ceiling's counter when the handler has returned, and the
    limiter's state; a pushed connection keeps its slot until it is closed. *)
Definition handleConn (cfg : Config) (remote : string) (input : bytes) (clients : Z) (b : B)
    : list action * Z * B :=
  let ip := peerAddr remote in
  match ParseAddr ip with
  | None => ([CloseConn], clients, b)
  | Some addr =>
      if banned addr then ([Reject "ban" "" ip; CloseConn], clients, b)
      else
        let '(rate_ok, b1) := connRate cfg addr b in
        if negb rate_ok then ([Reject "conn-rate" "" ip; CloseConn], clients, b1)
        else
          let '(ok, clients1) := edge_admit cfg clients in
          if negb ok then ([Reject "max-clients" "" ip; CloseConn], clients1, b1)
          else
            match peekClientHello sha256_hex input with
            | None => ([Reject "handshake-timeout" "" ip; CloseConn], edge_release clients1, b1)
            | Some (info, pc) =>
                if String.eqb (ALPN info) acmeTLS1Protocol then
                  ([ServeACME (ToLower (SNI info)) ip; CloseConn], edge_release clients1, b1)
                else
                  let sni := ToLower (SNI info) in
                  if String.eqb sni (EnrollHost cfg) then ([PushEnroll pc], clients1, b1)
                  else if String.eqb sni (ControlHost cfg) then
                    ([PushControl pc (withMeta info remote)], clients1, b1)
                  else ([HandleTunnel pc info], edge_release clients1, b1)
            end
  end.
End dispatch.

(** [heldConn.Close]: the slot goes back on the first close. *)
Record heldConn := { held : bool }.
Definition held_Close (c : heldConn) (clients : Z) : heldConn * Z :=
  ({| held := false |}, if held c then edge_release clients else clients).

(** ** Names: one label under the tunnel domain *)

(** An SNI names a tunnel if and only if it is a single non-empty label under the tunnel
    domain, compared without case. *)
Lemma tunnelName_iff `{UnicodeCase} cfg sni name :
  tunnelName cfg sni = Some name ↔
  TunnelDomain cfg ≠ "" ∧ ToLower sni = name +:+ "." +:+ TunnelDomain cfg ∧
  name ≠ "" ∧ ContainsByte name "."%char = false.
Proof.
  unfold tunnelName. set (suffix := "." +:+ TunnelDomain cfg).
  destruct (String.eqb_spec (TunnelDomain cfg) "") as [->|Hd]; simpl; [naive_solver|].
  destruct (HasSuffix (ToLower sni) suffix) eqn:Hs; simpl.
  - apply HasSuffix_spec in Hs as [p Hp]. rewrite Hp, TrimSuffix_app.
    destruct (String.eqb_spec p "") as [->|Hne]; simpl.
    + split; [done|]. intros (_ & He & Hn & _). destruct name as [|c name]; [done|].
      exfalso. apply (f_equal String.length) in He. rewrite str_length_app in He. simpl in He. lia.
    + destruct (ContainsByte p "."%char) eqn:Hc.
      * split; [done|]. intros (_ & He & _ & Hn). apply str_app_inv_r in He. congruence.
      * split; [intros [=]; by subst|]. intros (_ & He & _). apply str_app_inv_r in He. congruence.
  - split; [done|]. intros (_ & He & _). rewrite He in Hs.
    by rewrite HasSuffix_app in Hs.
Qed.

(** ** The peek loses nothing *)
Definition remaining (c : peekConn) : bytes := drop (off c) (prefix c) ++ under c.

Lemma peek_read_keeps c n k : (peek_read c n k).1 ++ remaining (peek_read c n k).2 = remaining c.
Proof.
  unfold peek_read, remaining. destruct (Nat.ltb_spec (off c) (length (prefix c))); simpl.
  - rewrite app_assoc. f_equal. rewrite length_take, length_drop, <- drop_drop.
    destruct (decide (n ≤ length (drop (off c) (prefix c)))%nat) as [Hle|Hgt].
    + rewrite length_drop in Hle. rewrite Nat.min_l by lia. apply take_drop.
    + rewrite length_drop in Hgt. rewrite Nat.min_r by lia.
      rewrite take_ge, (drop_ge (drop _ _)) by (rewrite length_drop; lia). apply app_nil_r.
  - rewrite !(drop_ge (prefix c)) by lia. simpl. apply take_drop.
Qed.

(** The bytes of successive reads with buffers of the given sizes. *)
Fixpoint peek_reads (c : peekConn) (sizes : list (nat * nat)) : bytes * peekConn :=
  match sizes with
  | [] => ([], c)
  | (n, k) :: sizes' =>
      let '(got, c') := peek_read c n k in
      let '(rest, c'') := peek_reads c' sizes' in
      (got ++ rest, c'')
  end.

Lemma peek_reads_keep c sizes : (peek_reads c sizes).1 ++ remaining (peek_reads c sizes).2 = remaining c.
Proof.
  revert c. induction sizes as [|[n k] sizes IH]; intros c; simpl; [done|].
  pose proof (peek_read_keeps c n k) as Hr. destruct (peek_read c n k) as [got c']. simpl in Hr.
  specialize (IH c'). destruct (peek_reads c' sizes) as [rest c'']. simpl in *.
  by rewrite <- app_assoc, IH.
Qed.

Lemma peekClientHello_inv sha input info pc :
  peekClientHello sha input = Some (info, pc) →
  remaining pc = input ∧ off pc = 0%nat ∧ parseClientHello sha (prefix pc) = Ret info ∧
  5 < len (prefix pc) ≤ 5 + 16 * 1024.
Proof.
  unfold peekClientHello, Wire.ReadFull. destruct (Nat.leb_spec 5 (length input)) as [Hl|]; [|done].
  destruct input as [|b0 [|b1 [|b2 [|b3 [|b4 rest]]]]]; simpl in Hl; try lia. simpl.
  set (n := Z.lor _ _). rewrite drop_0.
  destruct (Z.leb_spec n 0); [done|]. destruct (Z.ltb_spec (16 * 1024) n); [done|]. simpl.
  destruct (Nat.leb_spec (Z.to_nat n) (length rest)) as [Hn|]; [|done].
  destruct (parseClientHello sha _) eqn:Hp; intros; simplify_eq.
  unfold remaining. simpl. rewrite take_drop. rewrite length_take_le by done.
  do 3 (split; [done|]). lia.
Qed.

(** The local terminator and the phone see the connection from its first byte: whatever
    buffer sizes they read with, the bytes they get followed by the bytes still to come
    are all the client sent. The information used for routing is the parse of the
    replayed record, which is at most 16 KiB and its header. *)
Lemma peek_replays_everything sha input info pc sizes :
  peekClientHello sha input = Some (info, pc) →
  let '(got, pc') := peek_reads pc sizes in
  got ++ remaining pc' = input ∧ parseClientHello sha (prefix pc) = Ret info ∧
  len (prefix pc) ≤ 5 + 16 * 1024.
Proof.
  intros Hp. apply peekClientHello_inv in Hp as (Hr & _ & Hi & Hl).
  pose proof (peek_reads_keep pc sizes) as Hk. destruct (peek_reads pc sizes) as [got pc']. simpl in Hk.
  split; [congruence|]. split; [done|lia].
Qed.

(** ** Slots *)
Definition terminal (a : action) : bool := match a with Reject _ _ _ | ServeACME _ _ => false | _ => true end.
Definition pushed (a : action) : bool := match a with PushEnroll _ | PushControl _ _ => true | _ => false end.

(** C8. A connection that is accepted is closed, pushed to the enroll or the control
    listener, served as an ACME challenge or passed on as a tunnel connection exactly
    once. The client count ends where it started, plus one for a connection that was
    pushed and keeps its slot, and then it is within [MaxClients]. A banned peer is
    recorded as banned and closed before the rate, the ceiling or the handshake are
    looked at. *)
Theorem handleConn_one_disposition `{UnicodeCase} sha ParseAddr ban {B} `{StreamLimiter B}
    cfg remote input clients (b : B) :
  let '(acts, clients', b') := handleConn sha ParseAddr ban cfg remote input clients b in
  length (List.filter terminal acts) = 1%nat ∧
  clients' = clients + len (List.filter pushed acts) ∧
  (List.filter pushed acts ≠ [] → clients' ≤ MaxClients cfg) ∧
  (∀ addr, ParseAddr (peerAddr remote) = Some addr → banned ban addr = true →
     acts = [Reject "ban" "" (peerAddr remote); CloseConn] ∧ clients' = clients ∧ b' = b).
Proof.
  unfold handleConn. destruct (ParseAddr (peerAddr remote)) as [addr|] eqn:Ha; simpl.
  2:{ split; [done|]. split; [lia|]. split; [done|]. intros a [=]. }
  destruct (banned ban addr) eqn:Hb; simpl.
  { split; [done|]. split; [lia|]. split; [done|]. done. }
  destruct (connRate cfg addr b) as [ok b1].
  destruct ok; simpl; [|split; [done|]; split; [lia|]; split; [done|]; intros a E1 E2; congruence].
  unfold edge_admit, admit_ok, admit_add, edge_release.
  destruct (Z.ltb_spec (MaxClients cfg) (clients + 1)); simpl;
    [split; [done|]; split; [lia|]; split; [done|]; intros a E1 E2; congruence|].
  destruct (peekClientHello sha input) as [[info pc]|]; simpl;
    [|split; [done|]; split; [lia|]; split; [done|]; intros a E1 E2; congruence].
  repeat case_match; simplify_eq/=; (split; [done|]; split; [lia|]; split; [try done; lia|]);
    intros a E1 E2; congruence.
Qed.

(** ** The ceiling under concurrency

    Any number of handlers run the two atomic steps of [admit] and [release]. *)
Inductive conn_phase :=
| Adding (n : Z)        (* the add returned [n], the comparison is still to come *)
| Inside
| Left_.

Record ceiling := Ceiling { c_count : Z; c_conns : gmap nat conn_phase }.

Inductive ceiling_step (cfg : Config) : ceiling → ceiling → Prop :=
| cs_add s c : c_conns s !! c = None →
    ceiling_step cfg s
      (Ceiling (admit_add (c_count s)) (<[c := Adding (admit_add (c_count s))]> (c_conns s)))
| cs_in s c n : c_conns s !! c = Some (Adding n) → admit_ok cfg n = true →
    ceiling_step cfg s (Ceiling (c_count s) (<[c := Inside]> (c_conns s)))
| cs_out s c n : c_conns s !! c = Some (Adding n) → admit_ok cfg n = false →
    ceiling_step cfg s (Ceiling (c_count s - 1) (<[c := Left_]> (c_conns s)))
| cs_release s c : c_conns s !! c = Some Inside →
    ceiling_step cfg s (Ceiling (edge_release (c_count s)) (<[c := Left_]> (c_conns s))).

Definition active (p : conn_phase) : bool := match p with Left_ => false | _ => true end.
Definition inside (p : conn_phase) : bool := match p with Inside => true | _ => false end.
Definition passing (cfg : Config) (p : conn_phase) : bool :=
  match p with Adding n => admit_ok cfg n | Inside => true | Left_ => false end.

Definition ceiling_inv (cfg : Config) (s : ceiling) : Prop :=
  c_count s = count_if active (c_conns s) ∧ count_if (passing cfg) (c_conns s) ≤ MaxClients cfg.

Lemma ceiling_inv_step cfg s s' : ceiling_inv cfg s → ceiling_step cfg s s' → ceiling_inv cfg s'.
Proof.
  unfold ceiling_inv. intros [Hc Hp] Hs.
  destruct Hs as [s c Hn|s c n Hn Hok|s c n Hn Hok|s c Hn]; simpl;
    rewrite !count_if_insert, Hn; unfold b2z; simpl; rewrite ?Hok.
  - split; [unfold admit_add; lia|].
    assert (count_if (passing cfg) (c_conns s) ≤ count_if active (c_conns s)) as Hle
      by (apply count_if_mono; intros []; by simpl).
    destruct (admit_ok cfg (admit_add (c_count s))) eqn:E; simpl; [|lia].
    unfold admit_ok, admit_add in E. zbool. lia.
  - lia.
  - lia.
  - unfold edge_release. lia.
Qed.

(** The add-then-check admission is safe: in every interleaving of any number of
    handlers, the connections that were let in and not yet released never exceed
    [MaxClients], and whenever no handler is between its add and its check the counter
    is exactly their number. *)
Lemma connections_within_ceiling cfg s :
  0 ≤ MaxClients cfg → run (ceiling_step cfg) (Ceiling 0 ∅) s →
  count_if inside (c_conns s) ≤ MaxClients cfg ∧
  ((∀ c n, c_conns s !! c ≠ Some (Adding n)) → c_count s = count_if inside (c_conns s)).
Proof.
  intros Hm Hr. assert (ceiling_inv cfg s) as [Hc Hp].
  { eapply run_invariant; [exact (ceiling_inv_step cfg)|exact Hr|]. by split. }
  split.
  - etrans; [|exact Hp]. apply count_if_mono. by intros [].
  - intros Hno. rewrite Hc. apply count_if_ext. intros c [n| |] Hl; try done. by destruct (Hno c n).
Qed.

(** ** Witnesses *)
Definition sample_config : Config := {|
  EnrollHost := "enroll.example.org"; ControlHost := "control.example.org";
  TunnelDomain := "t.example.org"; MaxClients := 2; ConnRate := 10; Concurrent := 4;
  HandshakeTimeout := 5 * second; DialBackTimeout := 10 * second; IdleTimeout := 60 * second;
  MinRate := 100; MinGrace := 30 * second; EvictIdle := 10 * second; ProtectRate := 1000 |}.

Lemma peek_replays_everything_witness :
  let input := enc_record sample_hello ++ bytes_of_str "early data" in
  ∃ info pc, peekClientHello toy_sha input = Some (info, pc) ∧
    let '(got, pc') := peek_reads pc [(7%nat, 7%nat); (4096%nat, 3%nat)] in
    got ++ remaining pc' = input ∧ parseClientHello toy_sha (prefix pc) = Ret info ∧
    len (prefix pc) ≤ 5 + 16 * 1024.
Proof.
  intros input. destruct (peekClientHello toy_sha input) as [[info pc]|] eqn:E; [|by vm_compute in E].
  exists info, pc. split; [done|]. by apply (peek_replays_everything toy_sha input info pc).
Defined.

Lemma connections_within_ceiling_witness :
  let s := Ceiling 1 (<[0%nat := Inside]> (<[0%nat := Adding 1]> ∅)) in
  run (ceiling_step sample_config) (Ceiling 0 ∅) s ∧
  count_if inside (c_conns s) ≤ MaxClients sample_config ∧
  ((∀ c n, c_conns s !! c ≠ Some (Adding n)) → c_count s = count_if inside (c_conns s)).
Proof.
  intros s. assert (run (ceiling_step sample_config) (Ceiling 0 ∅) s) as Hr.
  { apply (run_step _ _ (Ceiling 1 (<[0%nat := Adding 1]> ∅)));
      [exact (cs_add sample_config (Ceiling 0 ∅) 0%nat eq_refl)|apply run_one].
    exact (cs_in sample_config (Ceiling 1 (<[0%nat := Adding 1]> ∅)) 0%nat 1 eq_refl eq_refl). }
  split; [done|]. by apply (connections_within_ceiling sample_config s).
Defined.
End Edge.
