(* ===== verification/Bridge.v ===== *)
(** * The public edge: tunnel connections

    [internal/edge/bridge.go]: stream tracking and eviction, the admission of a
    tunnel connection ([handleTunnel], [evictAndAcquire], [openFar]), the paced
    copies and the policy watcher of [splice].

    The edge's collaborators are [EdgeDeps]: the limiter, the route table, the
    dial-back, the mesh and the clock, over a state [B].  The three goroutines
    of a splice run under a schedule, the list of what happens in which order
    ([sevent]); every definition is total on every schedule.  The store of
    active streams is a map from stream identities, so a stream that two
    handlers share is one entry. *)
From Stdlib Require Import ZArith Lia Strings.Byte Ascii String.
From stdpp Require Import sorting.
From S2P Require Import Prelude GoStr Wire ClientHello Valkey Limiter Router Edge.
Local Open Scope string_scope.
Local Open Scope list_scope.
Local Open Scope Z_scope.

(** ** The edge's collaborators *)
Class EdgeDeps (B : Type) := {
  ed_limiter :: StreamLimiter B;
  ed_now : B → Z;
  ed_wait : Z → B → B;                       (* time passes *)
  ed_done : B → bool;                        (* the handler's context has ended *)
  ed_LookupRoute : string → B → result Valkey.rerr (string * string * bool) * B;
  ed_LookupNode : string → B → result Router.node_error (string * bool) * B;
  ed_DialBackReady : B → bool * B;
  (* Await with Open inside: whether the phone's data connection arrived *)
  ed_openFar : string → string → string → string → string → Z → B → bool * B;
  ed_FreeRemoteSlot : string → B → bool * B;
  ed_Text : B → string * B;                  (* rand.Text *)
  ed_ConnID : B → string * B                 (* store.MustConnID *)
}.

Module Bridge.
Import ClientHello Edge.

(** Close reasons ([internal/store/event.go]). *)
Definition CloseClientClose : string := "client-close".
Definition ClosePhoneClose : string := "phone-close".
Definition CloseBanEvict : string := "ban-evict".
Definition CloseQuotaExhausted : string := "quota-exhausted".
Definition CloseIdleTimeout : string := "idle-timeout".
Definition CloseMinRate : string := "min-rate".
Definition CloseEvicted : string := "evicted".
Definition CloseServerShutdown : string := "server-shutdown".
Definition CloseAdminTerminate : string := "admin-terminate".
Definition CloseError : string := "error".

Definition rollingWindow : Z := minute.
Definition routeCheckInterval : Z := 10 * second.
Definition slotRetryBudget : Z := 2 * second.
Definition slotRetries : nat := 5.

Record activeStream := {
  tunnel : string; member : string; connID : string; nodeID : string;
  started : Z;
  lastAct : Z; recent : Z; bytesIn : Z; bytesOut : Z;
  evicted : bool; banned : bool; terminated : bool; phoneGone : bool;
  cancelled : bool;                     (* the splice's context *)
  released : bool                       (* the once of the slot's release *)
}.

Definition set_flags (s : activeStream) (ev ba te ph ca re : bool) : activeStream := {|
  tunnel := tunnel s; member := member s; connID := connID s; nodeID := nodeID s;
  started := started s; lastAct := lastAct s; recent := recent s;
  bytesIn := bytesIn s; bytesOut := bytesOut s;
  evicted := ev; banned := ba; terminated := te; phoneGone := ph; cancelled := ca; released := re |}.

Definition mark_evicted (s : activeStream) : activeStream :=
  set_flags s true (banned s) (terminated s) (phoneGone s) true (released s).
Definition mark_released (s : activeStream) : activeStream :=
  set_flags s (evicted s) (banned s) (terminated s) (phoneGone s) (cancelled s) true.
Definition mark_cancelled (s : activeStream) : activeStream :=
  set_flags s (evicted s) (banned s) (terminated s) (phoneGone s) true (released s).
Definition mark_terminated (s : activeStream) : activeStream :=
  set_flags s (evicted s) (banned s) true (phoneGone s) true (released s).
Definition mark_banned (s : activeStream) : activeStream :=
  set_flags s (evicted s) true (terminated s) (phoneGone s) true (released s).
Definition mark_phone_gone (s : activeStream) : activeStream :=
  set_flags s (evicted s) (banned s) (terminated s) true true (released s).

(** Activity in one direction: [nr] bytes forwarded at [now]. *)
Definition count_bytes (upload : bool) (now nr : Z) (s : activeStream) : activeStream := {|
  tunnel := tunnel s; member := member s; connID := connID s; nodeID := nodeID s;
  started := started s; lastAct := now; recent := recent s + nr;
  bytesIn := if upload then bytesIn s + nr else bytesIn s;
  bytesOut := if upload then bytesOut s else bytesOut s + nr;
  evicted := evicted s; banned := banned s; terminated := terminated s; phoneGone := phoneGone s;
  cancelled := cancelled s; released := released s |}.

Definition set_recent (r : Z) (s : activeStream) : activeStream := {|
  tunnel := tunnel s; member := member s; connID := connID s; nodeID := nodeID s;
  started := started s; lastAct := lastAct s; recent := r;
  bytesIn := bytesIn s; bytesOut := bytesOut s;
  evicted := evicted s; banned := banned s; terminated := terminated s; phoneGone := phoneGone s;
  cancelled := cancelled s; released := released s |}.

(** ** What a handler does *)
Inductive event :=
| ERejected (reason tunnel : string)
| ECloseClient
| ECloseFar
| EReleased (tunnel member : string)
| EStreamOpen | EStreamClose
| EConnOpen | EConnClose (reason : string)
| ELogStart (conn tunnel : string)
| ELogEnd (conn tunnel reason : string) (bytesIn bytesOut : Z)
| EQuota (tunnel window : string).

Record tst (B : Type) := TSt {
  t_b : B;
  t_streams : gmap nat activeStream;
  t_next : nat;
  t_trace : list event
}.
Arguments TSt {B} _ _ _ _.
Arguments t_b {B} _.
Arguments t_streams {B} _.
Arguments t_next {B} _.
Arguments t_trace {B} _.

Definition T (B A : Type) : Type := tst B → A * tst B.
Definition tret {B A} (a : A) : T B A := λ s, (a, s).
Definition tbind {B A C} (c : T B A) (k : A → T B C) : T B C := λ s, let '(a, s') := c s in k a s'.
Notation "'let!' x := c 'in' k" := (tbind c (λ x, k))
  (at level 10, x pattern, c at level 200, k at level 200).

Definition emit {B} (e : event) : T B unit := λ s,
  (tt, TSt (t_b s) (t_streams s) (t_next s) (t_trace s ++ [e])).
Definition dep {B A} (f : B → A * B) : T B A := λ s,
  let '(a, b) := f (t_b s) in (a, TSt b (t_streams s) (t_next s) (t_trace s)).
Definition with_streams {B} (f : gmap nat activeStream → gmap nat activeStream) : T B unit := λ s,
  (tt, TSt (t_b s) (f (t_streams s)) (t_next s) (t_trace s)).
Definition streams {B} : T B (gmap nat activeStream) := λ s, (t_streams s, s).
Definition tnow {B} `{EdgeDeps B} : T B Z := λ s, (ed_now (t_b s), s).

(** [trackStream] and [untrackStream]. *)
Definition trackStream {B} (a : activeStream) : T B nat := λ s,
  (t_next s, TSt (t_b s) (<[t_next s := a]> (t_streams s)) (S (t_next s)) (t_trace s)).
Definition untrackStream {B} (id : nat) : T B unit := with_streams (delete id).

(** ** Eviction *)
Definition evictable (cfg : Config) (now : Z) (s : activeStream) : bool :=
  let idle := now - lastAct s in
  (EvictIdle cfg <=? idle) || (recent s <? ProtectRate cfg).

(** The loop body of [leastActive] on one stream: the victim so far and its
    idle time. *)
Definition consider (cfg : Config) (now : Z) (name : string) (acc : option nat * Z) (is_ : nat * activeStream)
    : option nat * Z :=
  let '(id, s) := is_ in
  if negb (String.eqb (tunnel s) name) || evicted s then acc
  else if negb (evictable cfg now s) then acc
  else
    let idle := now - lastAct s in
    if acc.2 <? idle then (Some id, idle) else acc.

Definition leastActive_of (cfg : Config) (now : Z) (name : string) (l : list (nat * activeStream))
    : option nat * Z :=
  fold_left (consider cfg now name) l (None, -1).

Definition leastActive (cfg : Config) (now : Z) (name : string) (m : gmap nat activeStream)
    : option nat * Z :=
  leastActive_of cfg now name (map_to_list m).

Definition SlotCandidate (cfg : Config) (now : Z) (name : string) (m : gmap nat activeStream) : option Z :=
  match leastActive cfg now name m with
  | (None, _) => None
  | (Some _, idle) => Some idle
  end.

Section edge.
Context `{UnicodeCase} {B : Type} `{EdgeDeps B} (cfg : Config).

(** Give a slot back. *)
Definition do_release (name token : string) : T B unit :=
  let! _ := dep (sl_ReleaseStream name token) in emit (EReleased name token).

(** The slot of a stream goes back once, whoever gets there first. *)
Definition releaseSlot (id : nat) : T B unit :=
  let! m := streams in
  match m !! id with
  | Some s =>
      if released s then tret tt
      else
        let! _ := with_streams (<[id := mark_released s]>) in
        do_release (tunnel s) (member s)
  | None => tret tt
  end.

(** The victim is found and marked in one turn: nobody else runs between, so the
    CompareAndSwap succeeds. *)
Definition evictLeastActive (name : string) : T B bool :=
  let! now := tnow in
  let! m := streams in
  match leastActive cfg now name m with
  | (None, _) => tret false
  | (Some id, _) =>
      match m !! id with
      | None => tret false
      | Some s =>
          let! _ := with_streams (<[id := mark_evicted s]>) in
          let! _ := releaseSlot id in
          tret true
      end
  end.

Definition FreeSlot : string → T B bool := evictLeastActive.

(** [EvictTunnelStreams] and [EvictConnStreams]: every matching stream. *)
Definition EvictTunnelStreams (name : string) : T B unit :=
  with_streams (fmap (λ s, if String.eqb (tunnel s) name then mark_terminated s else s)).

Definition conn_match (name cid : string) (s : activeStream) : bool :=
  String.eqb (tunnel s) name && String.eqb (connID s) cid.

Definition EvictConnStreams (name cid reason : string) : T B bool :=
  let! m := streams in
  let! _ := with_streams (fmap (λ s,
    if conn_match name cid s then
      if String.eqb reason CloseBanEvict then mark_banned s
      else if String.eqb reason CloseAdminTerminate then mark_terminated s
      else mark_phone_gone s
    else s)) in
  tret (existsb (λ is_, conn_match name cid is_.2) (map_to_list m)).

(** ** Admission *)

(** [fuel] counts the retries left; [until] is the retry context's deadline. *)
Fixpoint evictAndAcquire_loop (fuel : nat) (until : Z) (name token : string) : T B bool :=
  match fuel with
  | O => tret false
  | S fuel' =>
      let! now := tnow in
      let! over := dep (λ b, (ed_done b || (until <=? now), b)) in
      let! freed := (if over : bool then tret false
                     else let! local := evictLeastActive name in
                          if local : bool then tret true else dep (ed_FreeRemoteSlot name)) in
      if negb freed then tret false
      else
        let! r := dep (sl_AcquireStream name token (Concurrent cfg)) in
        match r with
        | Err _ => tret true
        | Ok true => tret true
        | Ok false => evictAndAcquire_loop fuel' until name token
        end
  end.

Definition evictAndAcquire (name token : string) : T B bool :=
  let! now := tnow in
  evictAndAcquire_loop slotRetries (now + slotRetryBudget) name token.

Definition openFar (name node cid token clientAddr : string) : T B bool :=
  let timeout := if DialBackTimeout cfg <=? 0 then 10 * second else DialBackTimeout cfg in
  dep (ed_openFar name node cid token clientAddr timeout).

(** ** The paced copy *)
(** A write that fails may have sent a part of its data first. *)
Inductive copy_outcome := CopySrcEOF | QuotaHit | CopyWriteErr (torn : bytes).

Definition dir (upload : bool) : string := if upload then "in" else "out".

Definition update_stream (id : nat) (f : activeStream → activeStream) : T B unit :=
  with_streams (λ m, match m !! id with Some s => <[id := f s]> m | None => m end).

(** One turn of [pacedCopy]: a read of [data], with an error or the end of the
    stream when [fin], and a write that succeeds, or fails after [n] bytes
    ([Some n]), which the code does not count.  The bytes of the completed write,
    and the outcome when the copy ends. *)
Definition copy_turn (id : nat) (name mem : string) (upload : bool) (data : bytes) (fin : bool) (werr : option nat)
    : T B (bytes * option copy_outcome) :=
  let after (fwd : bytes) := tret (fwd, if fin then Some CopySrcEOF else None) in
  if (length data =? 0)%nat then after []
  else
    let nr := len data in
    let! c := dep (sl_Charge name mem (dir upload) nr) in
    let '(act, wait, win, cerr) := c in
    let killed :=
      match cerr, act with
      | None, Limiter.ChargeKill => true
      | _, _ => false
      end in
    if killed then
      let! _ := emit (EQuota name win) in tret ([], Some QuotaHit)
    else
      let! _ := (match cerr, act with
                 | None, Limiter.ChargeWait => dep (λ b, (tt, ed_wait wait b))
                 | _, _ => tret tt
                 end) in
      match werr with
      | Some n => tret ([], Some (CopyWriteErr (take n data)))
      | None =>
          let! now := tnow in
          let! _ := update_stream id (count_bytes upload now nr) in
          after data
      end.

(** [pacedCopy] over what its source delivers; [None] while it still reads. *)
Fixpoint pacedCopy (id : nat) (name mem : string) (upload : bool) (reads : list (bytes * bool * option nat))
    : T B (bytes * option copy_outcome) :=
  match reads with
  | [] => tret ([], None)
  | (data, fin, werr) :: reads' =>
      let! r := copy_turn id name mem upload data fin werr in
      match r.2 with
      | Some o => tret (r.1, Some o)
      | None =>
          let! rest := pacedCopy id name mem upload reads' in
          tret (r.1 ++ rest.1, rest.2)
      end
  end.

(** ** The policy watcher *)

(** Drop the samples before the newest one at or before the cutoff. *)
Fixpoint drop_samples (cutoff : Z) (l : list (Z * Z)) : list (Z * Z) :=
  match l with
  | s0 :: ((s1 :: _) as l') => if s1.1 <=? cutoff then drop_samples cutoff l' else l
  | _ => l
  end.

Definition parentGone (name : string) (s : activeStream) : T B bool :=
  let! r := dep (ed_LookupRoute name) in
  match r with
  | Err _ => tret false
  | Ok (_, cur, ok) =>
      if negb ok then tret true
      else if String.eqb cur (connID s) then tret false
      else
        let! n := dep (ed_LookupNode (nodeID s)) in
        match n with
        | Err _ => tret false
        | Ok (_, live) => tret (negb live)
        end
  end.

Definition idlePoll : Z :=
  if (0 <? IdleTimeout cfg) && (IdleTimeout cfg <? second) then IdleTimeout cfg else second.

(** The reason the watcher gives when the splice's context has ended. *)
Definition done_reason (s : activeStream) (parent_done : bool) : string :=
  if banned s then CloseBanEvict
  else if terminated s then CloseAdminTerminate
  else if phoneGone s && negb parent_done then ClosePhoneClose
  else if evicted s then CloseEvicted
  else CloseServerShutdown.

Record splice_st := SpliceSt {
  sp_reason : option string;              (* the once of [setReason] *)
  sp_closed : bool;                       (* the once of [closeBoth] *)
  sp_in_done : bool; sp_out_done : bool; sp_watch_done : bool;
  sp_samples : list (Z * Z);
  sp_next_check : Z;
  sp_up : bytes; sp_down : bytes;         (* completed writes to the phone, to the client *)
  sp_up_torn : bytes; sp_down_torn : bytes   (* what a failed write sent before it failed *)
}.

Definition setReason (r : string) (sp : splice_st) : splice_st :=
  SpliceSt (match sp_reason sp with Some r0 => Some r0 | None => Some r end)
    (sp_closed sp) (sp_in_done sp) (sp_out_done sp) (sp_watch_done sp)
    (sp_samples sp) (sp_next_check sp) (sp_up sp) (sp_down sp) (sp_up_torn sp) (sp_down_torn sp).
Definition closeBoth (sp : splice_st) : splice_st :=
  SpliceSt (sp_reason sp) true (sp_in_done sp) (sp_out_done sp) (sp_watch_done sp)
    (sp_samples sp) (sp_next_check sp) (sp_up sp) (sp_down sp) (sp_up_torn sp) (sp_down_torn sp).
Definition watch_exit (sp : splice_st) : splice_st :=
  SpliceSt (sp_reason sp) (sp_closed sp) (sp_in_done sp) (sp_out_done sp) true
    (sp_samples sp) (sp_next_check sp) (sp_up sp) (sp_down sp) (sp_up_torn sp) (sp_down_torn sp).
Definition set_watch (samples : list (Z * Z)) (next : Z) (sp : splice_st) : splice_st :=
  SpliceSt (sp_reason sp) (sp_closed sp) (sp_in_done sp) (sp_out_done sp) (sp_watch_done sp)
    samples next (sp_up sp) (sp_down sp) (sp_up_torn sp) (sp_down_torn sp).
Definition is_done (o : option copy_outcome) : bool := match o with Some _ => true | None => false end.
Definition torn_by (o : option copy_outcome) : bytes := match o with Some (CopyWriteErr torn) => torn | _ => [] end.
Definition add_copied (upload : bool) (fwd : bytes) (o : option copy_outcome) (sp : splice_st) : splice_st :=
  SpliceSt (sp_reason sp) (sp_closed sp)
    (if upload then sp_in_done sp || is_done o else sp_in_done sp)
    (if upload then sp_out_done sp else sp_out_done sp || is_done o)
    (sp_watch_done sp) (sp_samples sp) (sp_next_check sp)
    (if upload then sp_up sp ++ fwd else sp_up sp)
    (if upload then sp_down sp else sp_down sp ++ fwd)
    (if upload then sp_up_torn sp ++ torn_by o else sp_up_torn sp)
    (if upload then sp_down_torn sp else sp_down_torn sp ++ torn_by o).

(** The watcher gives up on the connection. *)
Definition watch_close (r : string) (sp : splice_st) : splice_st :=
  watch_exit (closeBoth (setReason r sp)).

Definition watch_tick (id : nat) (name : string) (sp : splice_st) : T B splice_st :=
  let! now := tnow in
  let! m := streams in
  match m !! id with
  | None => tret sp
  | Some s =>
      if (0 <? IdleTimeout cfg) && (IdleTimeout cfg <? now - lastAct s)
      then tret (watch_close CloseIdleTimeout sp)
      else
        let total := bytesIn s + bytesOut s in
        let samples := drop_samples (now - rollingWindow) (sp_samples sp ++ [(now, total)]) in
        let rolling := total - match samples with s0 :: _ => s0.2 | [] => 0 end in
        let! _ := update_stream id (set_recent rolling) in
        let sp := set_watch samples (sp_next_check sp) sp in
        let age := now - started s in
        if (0 <? MinRate cfg) && (rollingWindow <=? age) && (MinGrace cfg <? age) && (rolling <? MinRate cfg)
        then tret (watch_close CloseMinRate sp)
        else if sp_next_check sp <=? now then
          let sp := set_watch samples (now + routeCheckInterval) sp in
          let! gone := parentGone name s in
          if gone : bool then tret (watch_close ClosePhoneClose sp) else tret sp
        else tret sp
  end.

(** ** The splice *)
Inductive sevent :=
| SRead (upload : bool) (data : bytes) (fin : bool) (werr : option nat)  (* a copy's next turn *)
| STick                                                  (* the watcher's ticker *)
| SCtxDone                                               (* the watcher sees the context end *)
| SCascade                                               (* after the first copy: close both sides *)
| SEvict | SBan | STerminate | SPhoneGone                (* another handler acts on the stream *)
| SWait (d : Z).                                         (* time passes *)

Definition copy_reason (upload : bool) (o : copy_outcome) : string :=
  match o with
  | QuotaHit => CloseQuotaExhausted
  | CopySrcEOF => if upload then CloseClientClose else ClosePhoneClose
  | CopyWriteErr _ => CloseError
  end.

Definition splice_step (id : nat) (name mem : string) (sp : splice_st) (e : sevent) : T B splice_st :=
  match e with
  | SRead upload data fin werr =>
      if (if upload then sp_in_done sp else sp_out_done sp) then tret sp
      else
        (* a closed side reads an error *)
        let '(data, fin) := if sp_closed sp then ([], true) else (data, fin) in
        let! r := copy_turn id name mem upload data fin werr in
        let sp := add_copied upload r.1 r.2 sp in
        tret (match r.2 with Some o => setReason (copy_reason upload o) sp | None => sp end)
  | STick => if sp_watch_done sp then tret sp else watch_tick id name sp
  | SCtxDone =>
      let! m := streams in
      let! parent := dep (λ b, (ed_done b, b)) in
      match m !! id with
      | Some s =>
          if negb (sp_watch_done sp) && (cancelled s || parent)
          then tret (watch_close (done_reason s parent) sp) else tret sp
      | None => tret sp
      end
  | SCascade => if sp_in_done sp || sp_out_done sp then tret (closeBoth sp) else tret sp
  | SEvict =>
      let! _ := update_stream id mark_evicted in
      let! _ := releaseSlot id in
      tret sp
  | SBan => let! _ := update_stream id mark_banned in tret sp
  | STerminate => let! _ := update_stream id mark_terminated in tret sp
  | SPhoneGone => let! _ := update_stream id mark_phone_gone in tret sp
  | SWait d => let! _ := dep (λ b, (tt, ed_wait d b)) in tret sp
  end.

Fixpoint splice_run (id : nat) (name mem : string) (sp : splice_st) (sched : list sevent) : T B splice_st :=
  match sched with
  | [] => tret sp
  | e :: sched' =>
      let! sp' := splice_step id name mem sp e in
      splice_run id name mem sp' sched'
  end.

Definition splice_init (now : Z) : splice_st :=
  SpliceSt None false false false false [] (now + routeCheckInterval) [] [] [] [].

(** The reason, once both copies have ended. *)
Definition splice_result (sp : splice_st) : option string :=
  if sp_in_done sp && sp_out_done sp then Some (default CloseClientClose (sp_reason sp)) else None.

Definition splice (id : nat) (name mem : string) (sched : list sevent) : T B (option string * splice_st) :=
  let! now := tnow in
  let! sp := splice_run id name mem (splice_init now) sched in
  tret (splice_result sp, sp).

(** ** The handler *)
Definition refuse (reason name : string) : T B unit :=
  let! _ := emit (ERejected reason name) in emit ECloseClient.

Definition quota_reason (r : result Valkey.rerr (bool * bool)) : option string :=
  match r with
  | Err _ => None
  | Ok (dayOver, weekOver) =>
      if dayOver || weekOver then Some (if weekOver then "quota-week" else "quota-day") else None
  end.

(** What follows a successful open: the stream is tracked, logged and spliced;
    [None] while the splice runs. *)
Definition run_stream (name token via on : string) (sched : list sevent) : T B (option string) :=
  let! now := tnow in
  let s := {| tunnel := name; member := token; connID := via; nodeID := on; started := now;
              lastAct := now; recent := 0; bytesIn := 0; bytesOut := 0;
              evicted := false; banned := false; terminated := false; phoneGone := false;
              cancelled := false; released := false |} in
  let! id := trackStream s in
  let! conn := dep ed_ConnID in
  let! _ := emit EConnOpen in
  let! _ := emit EStreamOpen in
  let! _ := emit (ELogStart conn name) in
  let! r := splice id name token sched in
  match r.1 with
  | None => tret None
  | Some reason =>
      let! m := streams in
      let s' := default s (m !! id) in
      let! _ := emit EStreamClose in
      let! _ := emit (EConnClose reason) in
      let! _ := emit (ELogEnd conn name reason (bytesIn s') (bytesOut s')) in
      let! _ := emit ECloseClient in
      let! _ := untrackStream id in
      let! _ := emit ECloseFar in
      let! _ := (if released s' then tret tt else do_release name token) in
      tret (Some reason)
  end.

(** The far side, with one fresh route lookup after a failure: the connection
    and node it was opened through. *)
Definition open_with_retry (name node cid token clientAddr : string) : T B (option (string * string)) :=
  let! ok := openFar name node cid token clientAddr in
  if ok : bool then tret (Some (cid, node))
  else
    let! r := dep (ed_LookupRoute name) in
    match r with
    | Ok (n2, c2, true) =>
        if negb (String.eqb n2 node) || negb (String.eqb c2 cid) then
          let! ok2 := openFar name n2 c2 token clientAddr in
          if ok2 : bool then tret (Some (c2, n2)) else tret None
        else tret None
    | _ => tret None
    end.

Definition handleTunnel (sni clientAddr : string) (sched : list sevent) : T B (option string) :=
  match tunnelName cfg sni with
  | None => let! _ := refuse "no-route" sni in tret None
  | Some name =>
      let! ready := dep ed_DialBackReady in
      if negb ready then let! _ := refuse "no-route" name in tret None
      else
        let! route := dep (ed_LookupRoute name) in
        match route with
        | Ok (node, cid, true) =>
            let! quota := dep (sl_TrafficExhausted name) in
            match quota_reason quota with
            | Some reason => let! _ := refuse reason name in tret None
            | None =>
                let! token := dep ed_Text in
                let! acq := dep (sl_AcquireStream name token (Concurrent cfg)) in
                let! ok := (match acq with
                            | Err _ => tret true
                            | Ok true => tret true
                            | Ok false => evictAndAcquire name token
                            end) in
                if negb ok then let! _ := refuse "stream-cap" name in tret None
                else
                  let! far := open_with_retry name node cid token clientAddr in
                  match far with
                  | None =>
                      let! _ := refuse "no-route" name in
                      let! _ := do_release name token in
                      tret None
                  | Some (via, on) => run_stream name token via on sched
                  end
            end
        | _ => let! _ := refuse "no-route" name in tret None
        end
  end.

(** ** Eviction picks the idlest evictable stream *)
Definition candidate (now : Z) (name : string) (s : activeStream) : Prop :=
  tunnel s = name ∧ evicted s = false ∧ evictable cfg now s = true ∧ 0 ≤ now - lastAct s.

Lemma leastActive_of_spec now name l acc :
  -1 ≤ acc.2 → (acc.1 = None ↔ acc.2 = -1) →
  let r := fold_left (consider cfg now name) l acc in
  (acc.2 ≤ r.2 ∧ (r.1 = None ↔ r.2 = -1)) ∧
  (∀ id s, (id, s) ∈ l → candidate now name s → now - lastAct s ≤ r.2) ∧
  (r = acc ∨ ∃ id s, r = (Some id, now - lastAct s) ∧ (id, s) ∈ l ∧ candidate now name s).
Proof.
  revert acc. induction l as [|[id s] l IH]; intros acc Hlo Hnone; cbn [fold_left].
  { split; [done|]. split; [|by left]. intros id s Hin. set_solver. }
  assert (∃ acc', consider cfg now name acc (id, s) = acc' ∧ acc.2 ≤ acc'.2 ∧ (acc'.1 = None ↔ acc'.2 = -1) ∧
    (candidate now name s → now - lastAct s ≤ acc'.2) ∧
    (acc' = acc ∨ acc' = (Some id, now - lastAct s) ∧ candidate now name s)) as (acc' & -> & H1 & H2 & H3 & H4).
  { unfold consider, candidate. destruct (String.eqb_spec (tunnel s) name); simpl.
    2:{ exists acc. split; [done|]. split; [lia|]. split; [done|]. split; [naive_solver|auto]. }
    destruct (evicted s); simpl.
    1:{ exists acc. split; [done|]. split; [lia|]. split; [done|]. split; [naive_solver|auto]. }
    destruct (evictable cfg now s); simpl.
    2:{ exists acc. split; [done|]. split; [lia|]. split; [done|]. split; [naive_solver|auto]. }
    destruct (Z.ltb_spec acc.2 (now - lastAct s)).
    - eexists. split; [done|]. simpl. split; [lia|]. split; [split; [done|lia]|]. split; [lia|].
      right. repeat split; auto; lia.
    - exists acc. split; [done|]. split; [lia|]. split; [done|]. split; [lia|auto]. }
  destruct (IH acc' ltac:(lia) H2) as ((I1 & I1') & I2 & I3). split; [split; [lia|done]|]. split.
  - intros id' s' [Heq|Hin]%elem_of_cons Hc; [|by eapply I2]. simplify_eq. specialize (H3 Hc). lia.
  - destruct I3 as [->|(i & x & -> & Hin & Hc)].
    + destruct H4 as [->|[-> Hc]]; [by left|]. right. exists id, s. split; [done|]. split; [left|done].
    + right. exists i, x. split; [done|]. split; [by right|done].
Qed.

(** The eviction victim is a longest-idle stream among exactly the evictable streams of
    the tunnel; there is none only if no stream is evictable. *)
Lemma leastActive_idlest now name m :
  match leastActive cfg now name m with
  | (Some id, idle) =>
      ∃ s, m !! id = Some s ∧ candidate now name s ∧ idle = now - lastAct s ∧
        ∀ id' s', m !! id' = Some s' → candidate now name s' → now - lastAct s' ≤ idle
  | (None, _) => ∀ id s, m !! id = Some s → ¬ candidate now name s
  end.
Proof.
  unfold leastActive, leastActive_of.
  destruct (leastActive_of_spec now name (map_to_list m) (None, -1)) as ((_ & Hn) & Hmax & Hr);
    [simpl; lia|done|].
  destruct (fold_left _ _ _) as [[id|] idle]; simpl in *.
  - destruct Hr as [|(i & s & ? & Hin & Hc)]; simplify_eq. apply elem_of_map_to_list in Hin.
    exists s. do 3 (split; [done|]). intros id' s' Hs'. apply Hmax with id'. by apply elem_of_map_to_list.
  - intros id s Hs Hc. assert (idle = -1) as -> by (by apply Hn).
    apply elem_of_map_to_list in Hs. pose proof (Hmax _ _ Hs Hc). destruct Hc. lia.
Qed.

(** ** The copies forward what they read, in order *)
Definition bump (id : nat) (upload : bool) (now nr : Z) (m : gmap nat activeStream) : gmap nat activeStream :=
  match m !! id with Some s => <[id := count_bytes upload now nr s]> m | None => m end.

Definition quota_only (tr : list event) : Prop := Forall (λ e, ∃ t w, e = EQuota t w) tr.

Lemma copy_turn_spec id name mem upload data fin werr (st : tst B) :
  ∃ fwd o b' m' tr,
    copy_turn id name mem upload data fin werr st = ((fwd, o), TSt b' m' (t_next st) (t_trace st ++ tr)) ∧
    quota_only tr ∧
    (is_done o = true ∧ torn_by o `prefix_of` data ∧ fwd = [] ∧ m' = t_streams st ∧ o ≠ Some CopySrcEOF ∨
     fwd = data ∧ o = (if fin then Some CopySrcEOF else None) ∧
       ((data = [] ∧ m' = t_streams st) ∨ ∃ now, m' = bump id upload now (len data) (t_streams st))).
Proof.
  unfold copy_turn. destruct data as [|x data]; simpl.
  { eexists _, _, (t_b st), (t_streams st), []. rewrite app_nil_r. split; [by destruct st|].
    split; [constructor|]. right. auto. }
  unfold tbind at 1, dep at 1. destruct (sl_Charge _ _ _ _ _) as [[[[act wait] win] cerr] b1].
  set (st1 := TSt b1 _ _ _).
  destruct (match cerr with None => _ | Some _ => _ end) eqn:Hk.
  { unfold tbind, emit, tret. simpl. eexists _, _, b1, _, [EQuota name win]. split; [reflexivity|].
    split; [repeat constructor; by eexists _, _|]. left. split_and!; try done. apply prefix_nil. }
  unfold tbind at 1.
  assert (∃ b2, (match cerr, act with
                 | None, Limiter.ChargeWait => dep (λ b, (tt, ed_wait wait b))
                 | _, _ => tret tt
                 end) st1 = (tt, TSt b2 (t_streams st) (t_next st) (t_trace st))) as [b2 ->].
  { destruct cerr; [by exists b1|]. destruct act; by eexists. }
  destruct werr as [k|]; simpl.
  2:{ unfold tbind, tnow, update_stream, with_streams, tret. simpl.
    eexists _, _, b2, _, []. rewrite app_nil_r. split; [reflexivity|]. split; [constructor|].
    right. split; [done|]. split; [done|]. right. eexists. reflexivity. }
  unfold tret. eexists _, _, b2, _, []. rewrite app_nil_r. split; [reflexivity|].
  split; [constructor|]. left. split_and!; try done. simpl. exists (drop k (x :: data)). by rewrite take_drop.
Qed.

(** What the reads of a copy deliver, up to the read that ends it. *)
Fixpoint delivered (reads : list (bytes * bool * option nat)) : bytes :=
  match reads with
  | [] => []
  | (data, fin, _) :: reads' => data ++ (if fin : bool then [] else delivered reads')
  end.

(** A copy sends a prefix of its source in order, what a failed write sent included, and
    all of it unless the quota or a write stops it. *)
Lemma pacedCopy_in_order id name mem upload reads (st : tst B) :
  let '(fwd, o, _) := pacedCopy id name mem upload reads st in
  fwd ++ torn_by o `prefix_of` delivered reads ∧ (o = Some CopySrcEOF ∨ o = None → fwd = delivered reads).
Proof.
  revert st. induction reads as [|[[data fin] werr] reads IH]; intros st; simpl; [done|].
  unfold tbind at 1. destruct (copy_turn_spec id name mem upload data fin werr st) as
    (fwd & o & b' & m' & tr & -> & _ & Hcase). simpl.
  destruct Hcase as [(Hd & Ht & -> & _ & Hne)|(-> & -> & _)]; simpl.
  - destruct o as [o|]; [|done]. simpl. split; [by apply prefix_app_r|]. naive_solver.
  - destruct fin; simpl.
    + unfold tret. simpl. by rewrite !app_nil_r.
    + unfold tbind. specialize (IH (TSt b' m' (t_next st) (t_trace st ++ tr))).
      destruct (pacedCopy _ _ _ _ _ _) as [[rest o] st']. simpl in *. destruct IH as [Hp He].
      split; [rewrite <- app_assoc; by apply prefix_app|]. intros Ho. by rewrite He.
Qed.

(** ** Splices account for every byte *)

(** The data one event offers to a direction. *)
Definition offer (upload : bool) (e : sevent) : bytes :=
  match e with SRead u data _ _ => if Bool.eqb u upload then data else [] | _ => [] end.

Definition fwd_of (upload : bool) (sp : splice_st) : bytes := if upload then sp_up sp else sp_down sp.
Definition torn_of (upload : bool) (sp : splice_st) : bytes := if upload then sp_up_torn sp else sp_down_torn sp.
Definition done_of (upload : bool) (sp : splice_st) : bool := if upload then sp_in_done sp else sp_out_done sp.

(** All a direction sent; a write that failed was its last. *)
Definition sent_of (upload : bool) (sp : splice_st) : bytes := fwd_of upload sp ++ torn_of upload sp.
Definition intact (sp : splice_st) : Prop := ∀ u, done_of u sp = false → torn_of u sp = [].

Definition accounted (id : nat) (sp : splice_st) (st : tst B) : Prop :=
  ∃ s, t_streams st !! id = Some s ∧ bytesIn s = len (sp_up sp) ∧ bytesOut s = len (sp_down sp) ∧ intact sp.

(** A change of the stream that keeps its counters. *)
Lemma accounted_update id sp b m n tr f (st : tst B) :
  accounted id sp st →
  (∀ s, bytesIn (f s) = bytesIn s ∧ bytesOut (f s) = bytesOut s) →
  m = match t_streams st !! id with Some s => <[id := f s]> (t_streams st) | None => t_streams st end →
  accounted id sp (TSt b m n tr).
Proof.
  intros (s & Hs & Hi & Ho) Hf ->. rewrite Hs. exists (f s). simpl. rewrite lookup_insert_eq.
  destruct (Hf s) as [-> ->]. done.
Qed.

Lemma releaseSlot_accounted id sp (st : tst B) : accounted id sp st → accounted id sp (releaseSlot id st).2.
Proof.
  intros Ha. pose proof Ha as (s & Hs & Hi & Ho & Hin). unfold releaseSlot, tbind at 1, streams. rewrite Hs.
  destruct (released s); [done|]. unfold do_release, tbind, with_streams, dep, emit. simpl.
  destruct (sl_ReleaseStream _ _ _) as [r b]. simpl. exists (mark_released s). simpl.
  by rewrite lookup_insert_eq.
Qed.

Lemma parentGone_streams name s (st : tst B) :
  t_streams (parentGone name s st).2 = t_streams st ∧ t_trace (parentGone name s st).2 = t_trace st ∧
  t_next (parentGone name s st).2 = t_next st.
Proof.
  unfold parentGone, tbind, dep, tret.
  destruct (ed_LookupRoute _ _) as [[[[n c] ok]|e] b]; [|by repeat split].
  destruct ok; simpl; [|by repeat split]. destruct (String.eqb c (connID s)); [by repeat split|]. simpl.
  destruct (ed_LookupNode _ _) as [[[a l]|e] b']; by repeat split.
Qed.

(** What every step of a splice keeps: the reason once it is given, the copies
    that have ended, the bytes sent, which grow by what the step offers to a
    direction that is still open, or by a part of it when the copy ends. *)
Definition extends (e : sevent) (sp sp' : splice_st) : Prop :=
  (∀ r, sp_reason sp = Some r → sp_reason sp' = Some r) ∧
  ∀ u, (∃ x, sent_of u sp' = sent_of u sp ++ x ∧ x `prefix_of` offer u e ∧ (done_of u sp = true → x = []) ∧
        (done_of u sp = true → done_of u sp' = true) ∧ (offer u e ≠ [] → done_of u sp' = true)) ∨
       (done_of u sp = false ∧ sent_of u sp' = sent_of u sp ++ offer u e).

Lemma extends_watch e sp sp' :
  (∀ u, offer u e = []) → (∀ r, sp_reason sp = Some r → sp_reason sp' = Some r) →
  (∀ u, sent_of u sp' = sent_of u sp ∧ done_of u sp' = done_of u sp) → extends e sp sp'.
Proof.
  intros Ho Hr Hk. split; [done|]. intros u. left. destruct (Hk u) as [-> ->]. exists []. rewrite Ho, app_nil_r. done.
Qed.

Lemma watch_close_keeps r sp :
  (∀ u, sent_of u (watch_close r sp) = sent_of u sp ∧ done_of u (watch_close r sp) = done_of u sp) ∧
  ∀ r0, sp_reason sp = Some r0 → sp_reason (watch_close r sp) = Some r0.
Proof. split; [by intros []|]. intros r0 Hr. simpl. by rewrite Hr. Qed.

Lemma watch_tick_step id name sp (st : tst B) :
  accounted id sp st →
  let '(sp', st') := watch_tick id name sp st in
  accounted id sp' st' ∧ extends STick sp sp' ∧ t_trace st' = t_trace st ∧
  (∃ s s', t_streams st !! id = Some s ∧ t_streams st' !! id = Some s' ∧ released s' = released s).
Proof.
  intros Ha. pose proof Ha as (s & Hs & Hi & Ho & Hin).
  unfold watch_tick, tbind at 1, tnow, tbind at 1, streams. rewrite Hs.
  assert (∀ sp0, (∀ u, sent_of u sp0 = sent_of u sp ∧ done_of u sp0 = done_of u sp) →
    (∀ r, sp_reason sp = Some r → sp_reason sp0 = Some r) → extends STick sp sp0) as Hext by (intros; by apply extends_watch).
  destruct (_ && _).
  { unfold tret. destruct (watch_close_keeps CloseIdleTimeout sp) as [? ?].
    split; [by exists s|]. split; [by apply Hext|]. split; [done|]. by exists s, s. }
  set (samples := drop_samples _ _). set (rolling := _ - _).
  unfold tbind at 1, update_stream, with_streams. simpl. rewrite Hs.
  set (m1 := <[id := set_recent rolling s]> (t_streams st)).
  assert (m1 !! id = Some (set_recent rolling s)) as Hm1 by apply lookup_insert_eq.
  assert (∀ b n tr sp0, sp_up sp0 = sp_up sp → sp_down sp0 = sp_down sp → intact sp0 →
    accounted id sp0 (TSt b m1 n tr)) as Hacc.
  { intros b n tr sp0 E1 E2 E3. exists (set_recent rolling s). simpl. by rewrite Hm1, E1, E2. }
  destruct (_ && _).
  { unfold tret. destruct (watch_close_keeps CloseMinRate (set_watch samples (sp_next_check sp) sp))
      as [? ?]. split; [by apply Hacc|]. split; [by apply Hext|]. split; [done|].
    by exists s, (set_recent rolling s). }
  destruct (_ <=? _).
  - unfold tbind. match goal with |- context [parentGone name s ?st0] =>
      destruct (parentGone_streams name s st0) as (P1 & P2 & P3);
      destruct (parentGone name s st0) as [gone [b2 m2 n2 tr2]] end.
    simpl in P1, P2, P3. subst m2 tr2 n2. destruct gone; unfold tret.
    + destruct (watch_close_keeps ClosePhoneClose (set_watch samples (ed_now (t_b st) + routeCheckInterval)
        (set_watch samples (sp_next_check sp) sp))) as [? ?].
      split; [by apply Hacc|]. split; [by apply Hext|]. split; [done|]. by exists s, (set_recent rolling s).
    + split; [by apply Hacc|]. split; [by apply Hext|]. split; [done|]. by exists s, (set_recent rolling s).
  - unfold tret. split; [by apply Hacc|]. split; [by apply Hext|]. split; [done|].
    by exists s, (set_recent rolling s).
Qed.

(** ** The slot goes back once *)
Definition is_release (e : event) : bool := match e with EReleased _ _ => true | _ => false end.
Definition is_inner (e : event) : bool := match e with EReleased _ _ | EQuota _ _ => true | _ => false end.
Definition releases (tr : list event) : Z := len (List.filter is_release tr).

(** The slot releases between two states are the flips of the stream's flag;
    nothing but releases and quota kills is reported. *)
Definition slot_step (id : nat) (st st' : tst B) : Prop :=
  ∃ s s' tr, t_streams st !! id = Some s ∧ t_streams st' !! id = Some s' ∧
    t_trace st' = t_trace st ++ tr ∧ b2z (released s') = b2z (released s) + releases tr ∧
    forallb is_inner tr = true.

Lemma releases_app a b : releases (a ++ b) = releases a + releases b.
Proof. unfold releases. rewrite List.filter_app, length_app. lia. Qed.

Lemma slot_step_trans id st1 st2 st3 : slot_step id st1 st2 → slot_step id st2 st3 → slot_step id st1 st3.
Proof.
  intros (s1 & s2 & t1 & A1 & A2 & A3 & A4 & A5) (s2' & s3 & t2 & B1 & B2 & B3 & B4 & B5). simplify_eq.
  exists s1, s3, (t1 ++ t2). split; [done|]. split; [done|]. rewrite releases_app, forallb_app, A5, B5.
  split; [by rewrite B3, A3, app_assoc|]. split; [lia|done].
Qed.

Lemma quota_only_inner tr : quota_only tr → forallb is_inner tr = true ∧ releases tr = 0.
Proof.
  unfold releases. induction 1 as [|e tr (t & w & ->) _ [IH1 IH2]]; simpl; [done|]. done.
Qed.

Lemma releaseSlot_slot id sp (st : tst B) : accounted id sp st → slot_step id st (releaseSlot id st).2.
Proof.
  intros (s & Hs & _). unfold releaseSlot, tbind at 1, streams. rewrite Hs.
  destruct (released s) eqn:Hr; simpl.
  - exists s, s, []. rewrite app_nil_r, Hr. done.
  - unfold do_release, tbind, with_streams, dep, emit. simpl.
    destruct (sl_ReleaseStream _ _ _) as [r b]. simpl.
    exists s, (mark_released s), [EReleased (tunnel s) (member s)].
    simpl. rewrite lookup_insert_eq, Hr. by repeat split.
Qed.

Lemma update_slot id sp f (st : tst B) : accounted id sp st → (∀ s, released (f s) = released s) →
  slot_step id st (update_stream id f st).2.
Proof.
  intros (s & Hs & _) Hf. unfold update_stream, with_streams. simpl. rewrite Hs.
  exists s, (f s), []. simpl. rewrite lookup_insert_eq, app_nil_r, Hf. split; [done|]. split; [done|].
  split; [done|]. split; [unfold releases; simpl; lia|done].
Qed.

Lemma update_accounted id sp f (st : tst B) : accounted id sp st →
  (∀ s, bytesIn (f s) = bytesIn s ∧ bytesOut (f s) = bytesOut s) →
  accounted id sp (update_stream id f st).2.
Proof. intros Ha Hf. eapply accounted_update; [exact Ha|exact Hf|reflexivity]. Qed.

Lemma slot_refl id sp (st : tst B) b : accounted id sp st →
  slot_step id st (TSt b (t_streams st) (t_next st) (t_trace st)).
Proof.
  intros (s & Hs & _). exists s, s, []. rewrite app_nil_r. do 3 (split; [done|]).
  split; [unfold releases; simpl; lia|done].
Qed.

Lemma extends_same e sp : (∀ u, offer u e = []) → extends e sp sp.
Proof. intros Ho. by apply extends_watch. Qed.

(** A copy's turn. *)
Lemma read_step_keeps id name mem sp upload data fin werr (st : tst B) :
  accounted id sp st →
  let '(sp', st') := splice_step id name mem sp (SRead upload data fin werr) st in
  accounted id sp' st' ∧ extends (SRead upload data fin werr) sp sp' ∧ slot_step id st st'.
Proof.
  intros Ha. pose proof Ha as (s & Hs & Hi & Ho & Hin). cbn [splice_step].
  destruct (if upload then sp_in_done sp else sp_out_done sp) eqn:Hd.
  { unfold tret. split; [done|]. split; [|by destruct st; apply (slot_refl id sp)].
    split; [done|]. intros u. left. exists []. rewrite app_nil_r. split_and!; try done; [apply prefix_nil|]. unfold offer, done_of.
    destruct (Bool.eqb_spec upload u) as [->|]; [|done]. intros _. by destruct u. }
  destruct (if sp_closed sp then ([], true) else (data, fin)) as [data' fin'] eqn:Ecl.
  unfold tbind. destruct (copy_turn_spec id name mem upload data' fin' werr st) as
    (fwd & o & b' & m' & tr & -> & Hq & Hcase). destruct (quota_only_inner tr Hq) as [Q1 Q2].
  assert (fwd ≠ [] → sp_closed sp = false) as Hcl.
  { intros Hf. destruct (sp_closed sp); [|done]. simplify_eq. naive_solver. }
  unfold tret. simpl.
  set (sp1 := add_copied upload fwd _ sp).
  assert (∀ r, sp_reason sp = Some r →
    sp_reason (match o with Some o0 => setReason (copy_reason upload o0) sp1 | None => sp1 end) = Some r) as Hrs.
  { intros r Hr. destruct o; simpl; by rewrite Hr. }
  assert (∀ o0, fwd_of o0 (match o with Some o1 => setReason (copy_reason upload o1) sp1 | None => sp1 end)
            = fwd_of o0 sp ++ (if Bool.eqb upload o0 then fwd else [])) as Hfwd.
  { intros u. destruct o, u, upload; simpl; by rewrite ?app_nil_r. }
  assert (∀ u, done_of u (match o with Some o1 => setReason (copy_reason upload o1) sp1 | None => sp1 end)
            = done_of u sp || (Bool.eqb upload u && is_done o)) as Hdone.
  { intros u. destruct o, u, upload; simpl; by rewrite ?orb_false_r. }
  assert (∀ u, torn_of u (match o with Some o1 => setReason (copy_reason upload o1) sp1 | None => sp1 end)
            = torn_of u sp ++ (if Bool.eqb upload u then torn_by o else [])) as Htorn.
  { intros u. destruct o, u, upload; simpl; by rewrite ?app_nil_r. }
  assert (intact (match o with Some o1 => setReason (copy_reason upload o1) sp1 | None => sp1 end)) as Hin'.
  { intros u. rewrite Hdone, Htorn. intros [Hd' Hd'']%orb_false_elim. rewrite Hin by done.
    destruct (Bool.eqb upload u); [|done]. by destruct o. }
  set (sp2 := match o with Some _ => _ | None => _ end) in *.
  split; [|split].
  - destruct Hcase as [(_ & _ & -> & -> & _)|(-> & _ & [[-> ->]|[now ->]])].
    + exists s. pose proof (Hfwd true) as F1. pose proof (Hfwd false) as F2. simpl in F1, F2.
      rewrite F1, F2. destruct upload; simpl; by rewrite ?app_nil_r.
    + exists s. pose proof (Hfwd true) as F1. pose proof (Hfwd false) as F2. simpl in F1, F2.
      rewrite F1, F2. destruct upload; simpl; by rewrite ?app_nil_r.
    + unfold bump. rewrite Hs. exists (count_bytes upload now (len data') s). simpl.
      rewrite lookup_insert_eq. pose proof (Hfwd true) as F1. pose proof (Hfwd false) as F2. simpl in F1, F2.
      rewrite F1, F2. split; [done|].
      destruct upload; simpl; rewrite ?app_nil_r, ?length_app; split_and!; (done || lia).
  - split; [done|]. intros u. unfold sent_of. rewrite Hfwd, Htorn, Hdone. unfold offer.
    destruct (Bool.eqb_spec upload u) as [->|Hne]; simpl.
    2:{ left. exists []. rewrite !app_nil_r, orb_false_r. split_and!; try done. }
    assert (done_of u sp = false) as Hdu by (by destruct u). rewrite Hdu, (Hin u Hdu). simpl. rewrite app_nil_r.
    destruct Hcase as [(Ho' & Ht & -> & _)|(-> & -> & _)].
    + left. exists (torn_by o). rewrite app_nil_r, Ho'. split_and!; try done.
      destruct (sp_closed sp); simplify_eq/=; [|done]. etrans; [exact Ht|apply prefix_nil].
    + destruct (sp_closed sp); simplify_eq/=.
      * left. exists []. rewrite !app_nil_r. split_and!; try done. apply prefix_nil.
      * right. destruct fin'; by rewrite app_nil_r.
  - destruct Hcase as [(_ & _ & _ & -> & _)|(_ & _ & [[_ ->]|[now ->]])].
    + exists s, s, tr. do 3 (split; [done|]). split; [lia|done].
    + exists s, s, tr. do 3 (split; [done|]). split; [lia|done].
    + unfold bump. rewrite Hs. exists s, (count_bytes upload now (len data') s), tr. simpl.
      rewrite lookup_insert_eq. do 3 (split; [done|]). split; [lia|done].
Qed.

(** Another handler marks the stream. *)
Lemma mark_step id sp f (st : tst B) e : accounted id sp st → (∀ u, offer u e = []) →
  (∀ s, bytesIn (f s) = bytesIn s ∧ bytesOut (f s) = bytesOut s) → (∀ s, released (f s) = released s) →
  accounted id sp (update_stream id f st).2 ∧ extends e sp sp ∧ slot_step id st (update_stream id f st).2.
Proof.
  intros Ha Ho Hb Hr. split; [by apply update_accounted|]. split; [by apply extends_same|].
  by eapply update_slot.
Qed.

Lemma splice_step_keeps id name mem sp e (st : tst B) :
  accounted id sp st →
  let '(sp', st') := splice_step id name mem sp e st in
  accounted id sp' st' ∧ extends e sp sp' ∧ slot_step id st st'.
Proof.
  intros Ha. pose proof Ha as (s & Hs & Hi & Ho & Hin).
  destruct e as [upload data fin werr| | | | | | | |d]; [by apply read_step_keeps|cbn [splice_step]..].
  - destruct (sp_watch_done sp).
    { unfold tret. split; [done|]. split; [by apply extends_same|by destruct st; apply (slot_refl id sp)]. }
    pose proof (watch_tick_step id name sp st Ha) as Hw. destruct (watch_tick id name sp st) as [sp' st'].
    destruct Hw as (W1 & W2 & W3 & s1 & s2 & W4 & W5 & W6). split; [done|]. split; [done|].
    exists s1, s2, []. rewrite app_nil_r, W6. do 3 (split; [done|]). split; [unfold releases; simpl; lia|done].
  - unfold tbind, streams, dep, tret. rewrite Hs.
    pose proof (slot_refl id sp st (t_b st) Ha) as Hsl.
    destruct (_ && _); (split; [by exists s|]); (split; [|done]); [|by apply extends_same].
    destruct (watch_close_keeps (done_reason s (ed_done (t_b st))) sp) as [? ?].
    by apply extends_watch.
  - destruct (_ || _); unfold tret; (split; [done|]); (split; [|by destruct st; apply (slot_refl id sp)]).
    + by apply extends_watch.
    + by apply extends_same.
  - unfold tbind, tret.
    pose proof (update_accounted id sp mark_evicted st Ha ltac:(done)) as H1.
    pose proof (update_slot id sp mark_evicted st Ha ltac:(done)) as H2.
    destruct (update_stream id mark_evicted st) as [[] st1]. simpl in *.
    pose proof (releaseSlot_accounted id sp st1 H1) as H3.
    pose proof (releaseSlot_slot id sp st1 H1) as H4.
    destruct (releaseSlot id st1) as [[] st2]. simpl in *.
    split; [done|]. split; [by apply extends_same|]. by eapply slot_step_trans.
  - by apply mark_step.
  - by apply mark_step.
  - by apply mark_step.
  - unfold tbind, dep, tret. simpl. split; [by exists s|]. split; [by apply extends_same|].
    by apply (slot_refl id sp).
Qed.

Lemma splice_run_keeps id name mem sched sp (st : tst B) :
  accounted id sp st →
  let '(sp', st') := splice_run id name mem sp sched st in
  accounted id sp' st' ∧ slot_step id st st' ∧
  (∀ r, sp_reason sp = Some r → sp_reason sp' = Some r) ∧
  ∀ u, ∃ x, sent_of u sp' = sent_of u sp ++ x ∧ x `prefix_of` concat (map (offer u) sched) ∧
            (done_of u sp = true → x = [] ∧ done_of u sp' = true).
Proof.
  revert sp st. induction sched as [|e sched IH]; intros sp st Ha; simpl.
  { split; [done|]. split; [by destruct st; apply (slot_refl id sp)|]. split; [done|].
    intros u. exists []. rewrite app_nil_r. split; [done|]. split; [done|]. done. }
  unfold tbind. pose proof (splice_step_keeps id name mem sp e st Ha) as Hs.
  destruct (splice_step id name mem sp e st) as [sp1 st1]. destruct Hs as (A1 & [R1 X1] & S1).
  specialize (IH sp1 st1 A1). destruct (splice_run id name mem sp1 sched st1) as [sp2 st2].
  destruct IH as (A2 & S2 & R2 & X2). split; [done|]. split; [by eapply slot_step_trans|].
  split; [auto|]. intros u. destruct (X2 u) as (x & E2 & P2 & D2).
  destruct (X1 u) as [(y & E1 & P1 & N1 & D1 & O1)|[D1 E1]].
  - exists (y ++ x). rewrite E2, E1, app_assoc. split; [done|]. split.
    + destruct (decide (offer u e = [])) as [Ho|Hne].
      * rewrite Ho in *. apply prefix_nil_inv in P1 as ->. done.
      * destruct (D2 (O1 Hne)) as [-> _]. rewrite app_nil_r. by apply prefix_app_r.
    + intros Hd. rewrite (N1 Hd). apply D2. auto.
  - exists (offer u e ++ x). rewrite E2, E1, app_assoc. split; [done|].
    split; [by apply prefix_app|]. by rewrite D1.
Qed.

(** C2. A splice forwards in order and counts what it wrote. In every interleaving of
    the two copies, the watcher, other handlers and write errors at any byte: what was
    sent in a direction, completed writes and the part a failed write sent, is a prefix
    of what its source delivered; the direction's counter is the number of bytes of the
    completed writes; and a part of a failed write exists only in a direction whose copy
    has ended. *)
Theorem splice_forwards_in_order id name mem sched (st : tst B) s :
  t_streams st !! id = Some s → bytesIn s = 0 → bytesOut s = 0 →
  let '(r, sp, st') := splice id name mem sched st in
  sent_of true sp `prefix_of` concat (map (offer true) sched) ∧
  sent_of false sp `prefix_of` concat (map (offer false) sched) ∧
  (∃ s', t_streams st' !! id = Some s' ∧ bytesIn s' = len (sp_up sp) ∧ bytesOut s' = len (sp_down sp)) ∧
  ∀ u, torn_of u sp ≠ [] → done_of u sp = true.
Proof.
  intros Hs Hi Ho. unfold splice, tbind, tnow, tret.
  pose proof (splice_run_keeps id name mem sched (splice_init (ed_now (t_b st))) st) as Hk.
  destruct (splice_run id name mem _ sched st) as [sp st'].
  destruct Hk as (Ha & _ & _ & Hx); [exists s; split_and!; try done; by intros []|].
  destruct (Hx true) as (x & E1 & P1 & _), (Hx false) as (y & E2 & P2 & _). simpl in *.
  rewrite E1, E2. split; [done|]. split; [done|]. destruct Ha as (s' & A1 & A2 & A3 & A4).
  split; [by exists s'|]. intros u Ht. destruct (done_of u sp) eqn:Ed; [done|]. by rewrite (A4 u Ed) in Ht.
Qed.

Definition outer (tr : list event) : list event := List.filter (λ e, negb (is_inner e)) tr.

Lemma outer_inner tr : forallb is_inner tr = true → outer tr = [].
Proof.
  intros Hi. induction tr as [|e tr IH]; [done|]. simpl in *. apply andb_prop in Hi as [-> Hi]. by apply IH.
Qed.

Lemma outer_app a b : outer (a ++ b) = outer a ++ outer b.
Proof. apply List.filter_app. Qed.

Definition served (conn name r : string) (bi bo : Z) : list event :=
  [EConnOpen; EStreamOpen; ELogStart conn name; EStreamClose; EConnClose r;
   ELogEnd conn name r bi bo; ECloseClient; ECloseFar].

Lemma run_stream_trace name token via on sched (st : tst B) :
  let '(r, st') := run_stream name token via on sched st in
  ∃ tr conn, t_trace st' = t_trace st ++ tr ∧
    match r with
    | Some reason => releases tr = 1 ∧ t_streams st' !! t_next st = None ∧
                     ∃ bi bo, outer tr = served conn name reason bi bo
    | None => outer tr = [EConnOpen; EStreamOpen; ELogStart conn name]
    end.
Proof.
  unfold run_stream, splice, untrackStream, with_streams, trackStream, tbind, tnow, dep, emit, streams, tret.
  simpl. destruct (ed_ConnID (t_b st)) as [conn b1]. simpl.
  set (s0 := {| tunnel := name |}). set (st1 := TSt b1 _ _ _).
  pose proof (splice_run_keeps (t_next st) name token sched (splice_init (ed_now b1)) st1) as Hk.
  change (t_b st1) with b1 in *.
  destruct (splice_run (t_next st) name token _ sched st1) as [sp st2].
  destruct Hk as (Ha & Hsl & _); [exists s0; simpl; rewrite lookup_insert_eq; split_and!; try done; by intros []|].
  destruct Hsl as (s1 & s2 & tr2 & L1 & L2 & L3 & L4 & L5). apply outer_inner in L5.
  simpl in L1. rewrite lookup_insert_eq in L1. simplify_eq. simpl in L4.
  destruct (splice_result sp) as [reason|]; simpl.
  2:{ rewrite L3. simpl. rewrite <- !app_assoc. eexists _, conn. split; [reflexivity|].
      by rewrite !outer_app, L5. }
  rewrite L2. simpl. destruct (released s2); simpl in L4.
  - simpl. rewrite L3. simpl. rewrite <- !app_assoc. eexists _, conn. split; [reflexivity|].
    rewrite !releases_app. split; [unfold releases in *; simpl; lia|]. split; [apply lookup_delete_eq|].
    eexists _, _. rewrite !outer_app, L5. reflexivity.
  - unfold do_release, tbind, dep, emit. simpl. destruct (sl_ReleaseStream _ _ _) as [rr b3].
    simpl. rewrite L3. simpl. rewrite <- !app_assoc. eexists _, conn. split; [reflexivity|].
    rewrite !releases_app. split; [unfold releases in *; simpl; lia|]. split; [apply lookup_delete_eq|].
    eexists _, _. rewrite !outer_app, L5. reflexivity.
Qed.

(** C7. When a stream ends, whatever happened during its splice (an eviction that
    released its slot early included), its slot has been released exactly once and the
    stream is no longer tracked. *)
Theorem run_stream_releases_once name token via on sched (st : tst B) r st' :
  run_stream name token via on sched st = (Some r, st') →
  ∃ tr, t_trace st' = t_trace st ++ tr ∧ releases tr = 1 ∧ t_streams st' !! t_next st = None.
Proof.
  intros E. pose proof (run_stream_trace name token via on sched st) as Ht. rewrite E in Ht.
  destruct Ht as (tr & conn & Htr & Hr & Hu & _). by exists tr.
Qed.

(** ** A connection is refused once or served once *)

(** Computations that report nothing but releases and quota kills. *)
Definition inner_only {A} (c : T B A) : Prop :=
  ∀ st, ∃ tr, t_trace (c st).2 = t_trace st ++ tr ∧ forallb is_inner tr = true.

Lemma inner_quiet {A} (c : T B A) : (∀ st, t_trace (c st).2 = t_trace st) → inner_only c.
Proof. intros Hc st. exists []. by rewrite app_nil_r. Qed.

Lemma inner_bind {A C} (c : T B A) (k : A → T B C) :
  inner_only c → (∀ a, inner_only (k a)) → inner_only (tbind c k).
Proof.
  intros Hc Hk st. unfold tbind. destruct (Hc st) as (t1 & E1 & F1). destruct (c st) as [a st1]. simpl in E1.
  destruct (Hk a st1) as (t2 & E2 & F2). exists (t1 ++ t2). rewrite E2, E1, app_assoc, forallb_app, F1, F2. done.
Qed.

Lemma inner_ret {A} (a : A) : inner_only (tret a).
Proof. by apply inner_quiet. Qed.
Lemma inner_dep {A} (f : B → A * B) : inner_only (dep f).
Proof. apply inner_quiet. intros st. unfold dep. by destruct (f (t_b st)). Qed.
Lemma inner_with f : inner_only (with_streams f).
Proof. by apply inner_quiet. Qed.
Lemma inner_streams : inner_only streams.
Proof. by apply inner_quiet. Qed.
Lemma inner_now : inner_only tnow.
Proof. by apply inner_quiet. Qed.
Lemma inner_do_release name token : inner_only (do_release name token).
Proof.
  apply inner_bind; [apply inner_dep|]. intros _ st. by exists [EReleased name token].
Qed.
#[local] Hint Resolve inner_ret inner_dep inner_with inner_streams inner_now inner_do_release inner_bind : tunneld.

Lemma inner_releaseSlot id : inner_only (releaseSlot id).
Proof.
  apply inner_bind; [auto with tunneld|]. intros m. destruct (m !! id) as [s|]; [|auto with tunneld].
  destruct (released s); auto with tunneld.
Qed.

Lemma inner_evict name : inner_only (evictLeastActive name).
Proof.
  apply inner_bind; [auto with tunneld|]. intros now. apply inner_bind; [auto with tunneld|]. intros m.
  destruct (leastActive cfg now name m) as [[id|] idle]; [|auto with tunneld].
  destruct (m !! id); [|auto with tunneld]. apply inner_bind; [auto with tunneld|]. intros _.
  apply inner_bind; [apply inner_releaseSlot|]. auto with tunneld.
Qed.

Lemma inner_evictAndAcquire name token : inner_only (evictAndAcquire name token).
Proof.
  apply inner_bind; [auto with tunneld|]. intros now. generalize (now + slotRetryBudget). intros limit_.
  induction slotRetries as [|fuel IH]; [apply inner_ret|]. cbn [evictAndAcquire_loop].
  apply inner_bind; [auto with tunneld|]. intros now'. apply inner_bind; [auto with tunneld|]. intros over.
  apply inner_bind.
  { destruct over; [auto with tunneld|]. apply inner_bind; [apply inner_evict|]. intros []; auto with tunneld. }
  intros freed. destruct (negb freed); [auto with tunneld|]. apply inner_bind; [auto with tunneld|].
  intros [[]|]; auto with tunneld.
Qed.

Lemma inner_open name node cid token addr : inner_only (open_with_retry name node cid token addr).
Proof.
  apply inner_bind; [apply inner_dep|]. intros []; [auto with tunneld|].
  apply inner_bind; [apply inner_dep|]. intros [[[n2 c2] []]|]; auto with tunneld.
  destruct (_ || _); [|auto with tunneld]. apply inner_bind; [apply inner_dep|]. intros []; auto with tunneld.
Qed.

(** What a handler reports: a refusal, a served connection, or the start of one
    that still runs. *)
Definition disposition (r : option string) (out : list event) : Prop :=
  (r = None ∧ ∃ reason n, out = [ERejected reason n; ECloseClient]) ∨
  (∃ reason conn n bi bo, r = Some reason ∧ out = served conn n reason bi bo) ∨
  (r = None ∧ ∃ conn n, out = [EConnOpen; EStreamOpen; ELogStart conn n]).

Definition disposes (c : T B (option string)) : Prop :=
  ∀ st, ∃ tr, t_trace (c st).2 = t_trace st ++ tr ∧ disposition (c st).1 (outer tr).

Lemma disposes_bind {A} (c : T B A) (k : A → T B (option string)) :
  inner_only c → (∀ a, disposes (k a)) → disposes (tbind c k).
Proof.
  intros Hc Hk st. unfold tbind. destruct (Hc st) as (t1 & E1 & F1). destruct (c st) as [a st1]. simpl in E1.
  destruct (Hk a st1) as (t2 & E2 & D2). exists (t1 ++ t2). rewrite E2, E1, app_assoc. split; [done|].
  by rewrite outer_app, (outer_inner t1).
Qed.

Lemma disposes_refuse reason n (k : T B (option string)) :
  inner_only k → (∀ st, (k st).1 = None) → disposes (tbind (refuse reason n) (λ _, k)).
Proof.
  intros Hk Hn st. unfold refuse, tbind, emit. simpl. set (st1 := TSt _ _ _ _).
  destruct (Hk st1) as (t2 & E2 & F2). exists ([ERejected reason n; ECloseClient] ++ t2).
  rewrite E2, outer_app, (outer_inner t2) by done. simpl. rewrite <- !app_assoc. split; [done|].
  left. split; [apply Hn|]. by exists reason, n.
Qed.

(** C1. A public connection to a tunnel gets exactly one disposition. Whatever the
    router, the limiter, the phone and the schedule of the splice do, [handleTunnel]
    either refuses it (one rejection with its reason, then the client closed) or serves
    it: it is opened once, logged once at the start and, when the splice ends, reported
    closed and logged once with its reason. Slot releases and quota kills are the only
    other events. *)
Theorem handleTunnel_refuses_or_serves sni addr sched (st : tst B) :
  let '(r, st') := handleTunnel sni addr sched st in
  ∃ tr, t_trace st' = t_trace st ++ tr ∧ disposition r (outer tr).
Proof.
  enough (disposes (handleTunnel sni addr sched)) as Hd.
  { specialize (Hd st). by destruct (handleTunnel sni addr sched st). }
  assert (∀ reason n, disposes (let! _ := refuse reason n in tret None)) as Hrefuse
    by (intros; apply disposes_refuse; [apply inner_ret|done]).
  unfold handleTunnel. destruct (tunnelName cfg sni) as [name|]; [|apply Hrefuse].
  apply disposes_bind; [apply inner_dep|]. intros []; [|apply Hrefuse].
  apply disposes_bind; [apply inner_dep|]. intros [[[node cid] []]|]; [|apply Hrefuse..].
  apply disposes_bind; [apply inner_dep|]. intros quota. destruct (quota_reason quota); [apply Hrefuse|].
  apply disposes_bind; [apply inner_dep|]. intros token.
  apply disposes_bind; [apply inner_dep|]. intros acq.
  apply disposes_bind; [destruct acq as [[]|]; auto using inner_ret, inner_evictAndAcquire|].
  intros []; [|apply Hrefuse]. apply disposes_bind; [apply inner_open|]. intros [[via on]|].
  - intros st1. pose proof (run_stream_trace name token via on sched st1) as Ht.
    destruct (run_stream name token via on sched st1) as [r st2]. destruct Ht as (tr & conn & Htr & Hr).
    exists tr. split; [done|]. unfold disposition. destruct r as [reason|].
    + destruct Hr as (_ & _ & bi & bo & ->). right; left. by eexists _, _, _, _, _.
    + right; right. split; [done|]. by eexists _, _.
  - apply disposes_refuse.
    + apply inner_bind; [apply inner_do_release|]. intros _. apply inner_ret.
    + intros st1. unfold do_release, tbind, dep, emit. by destruct (sl_ReleaseStream _ _ _).
Qed.

(** ** The rolling window *)
Lemma drop_samples_spec cutoff l :
  l ≠ [] → StronglySorted (λ a b, a.1 ≤ b.1) l →
  ∃ pre s0 rest, l = pre ++ s0 :: rest ∧ drop_samples cutoff l = s0 :: rest ∧
    Forall (λ s, cutoff < s.1) rest ∧ (pre ≠ [] → s0.1 ≤ cutoff).
Proof.
  induction l as [|a l IH]; [done|]. intros _ Hs. destruct l as [|b l].
  { exists [], a, []. split; [done|]. split; [done|]. split; [constructor|done]. }
  apply StronglySorted_cons in Hs as [Ha Hs]. cbn [drop_samples].
  destruct (Z.leb_spec b.1 cutoff).
  - destruct IH as (pre & s0 & rest & E & D & F & G); [done|done|]. exists (a :: pre), s0, rest.
    split; [by rewrite E|]. split; [done|]. split; [done|]. intros _.
    destruct pre as [|p pre]; simplify_eq/=; [done|]. by apply G.
  - exists [], a, (b :: l). split; [done|]. split; [done|]. split; [|done].
    apply StronglySorted_cons in Hs as [Hb _]. constructor; [done|].
    eapply Forall_impl; [exact Hb|]. simpl. intros; lia.
Qed.

(** The watcher's sample list is never empty and starts with the newest sample at or
    before the window's cutoff. *)
Lemma rolling_window_measures cutoff now total samples :
  StronglySorted (λ a b, a.1 ≤ b.1) (samples ++ [(now, total)]) → cutoff < now →
  ∃ base rest, drop_samples cutoff (samples ++ [(now, total)]) = base :: rest ∧
    (∀ t n, (t, n) ∈ samples → t ≤ cutoff → t ≤ base.1 ≤ cutoff) ∧
    ((∀ t n, (t, n) ∈ samples → cutoff < t) →
       drop_samples cutoff (samples ++ [(now, total)]) = samples ++ [(now, total)]) ∧
    ∀ t n, (t, n) ∈ rest → cutoff < t.
Proof.
  intros Hs Hc. destruct (drop_samples_spec cutoff (samples ++ [(now, total)])) as
    (pre & base & rest & E & D & F & G); [by destruct samples|done|].
  exists base, rest. split; [done|]. rewrite D. rewrite Forall_forall in F. split; [|split].
  - intros t n Hin Ht. assert ((t, n) ∈ samples ++ [(now, total)]) as Hin' by (apply elem_of_app; auto).
    rewrite E in Hin', Hs. apply elem_of_app in Hin' as [Hp|[Heq|Hr]%elem_of_cons].
    + split; [|by apply G; intros ->; set_solver].
      apply (StronglySorted_app_1_elem_of _ _ _ (t, n) base Hs Hp). left.
    + subst base. simpl. lia.
    + apply F in Hr. simpl in Hr. lia.
  - intros Hall. destruct pre as [|p pre]; [done|]. exfalso.
    assert (base.1 ≤ cutoff) as Hb by (by apply G).
    assert (base ∈ samples ++ [(now, total)]) as Hin by (rewrite E; set_solver).
    destruct base as [bt bn]. apply elem_of_app in Hin as [Hin|Hin]; [by specialize (Hall _ _ Hin); simpl in *; lia|].
    apply list_elem_of_singleton in Hin. simplify_eq/=. lia.
  - intros t n Hr. by apply F in Hr.
Qed.

(** ** A closed splice ends *)
Lemma closed_read id name mem sp upload data fin werr (st : tst B) :
  sp_closed sp = true →
  let '(sp', st') := splice_step id name mem sp (SRead upload data fin werr) st in
  sp_closed sp' = true ∧ done_of upload sp' = true ∧ done_of (negb upload) sp' = done_of (negb upload) sp.
Proof.
  intros Hc. cbn [splice_step]. rewrite Hc.
  destruct (if upload then sp_in_done sp else sp_out_done sp) eqn:Hd.
  { unfold tret. split; [done|]. by destruct upload. }
  unfold copy_turn, tbind, tret. simpl. destruct upload; simpl; by rewrite ?orb_true_r.
Qed.

(** A splice whose sides have been closed terminates: one turn of each copy, in either
    order and whatever was still to be read, ends both, and the splice returns the first
    reason that was set, or the default. *)
Lemma closed_splice_finishes id name mem sp u d1 f1 w1 d2 f2 w2 (st : tst B) :
  sp_closed sp = true →
  let '(sp', _) := splice_run id name mem sp [SRead u d1 f1 w1; SRead (negb u) d2 f2 w2] st in
  splice_result sp' = Some (default CloseClientClose (sp_reason sp')).
Proof.
  intros Hc. unfold splice_run, tbind.
  pose proof (closed_read id name mem sp u d1 f1 w1 st Hc) as H1.
  destruct (splice_step id name mem sp (SRead u d1 f1 w1) st) as [sp1 st1].
  destruct H1 as (Hc1 & Hd1 & _).
  pose proof (closed_read id name mem sp1 (negb u) d2 f2 w2 st1 Hc1) as H2.
  destruct (splice_step id name mem sp1 (SRead (negb u) d2 f2 w2) st1) as [sp2 st2].
  destruct H2 as (_ & Hd2 & Hd2'). rewrite negb_involutive, Hd1 in Hd2'.
  unfold tret, splice_result. destruct u; simpl in *; by rewrite Hd2, Hd2'.
Qed.
End edge.

(** ** The edge over the router and the limiter *)

(** A node's world serves as the edge's environment; the phone answers every
    dial-back and other nodes free no slot. *)
Definition node_deps {S} `{Valkey.ValkeyServer S, ValkeyClient.TokenSupply} (l : Limiter.Limiter) :
    EdgeDeps (Valkey.world S) := {|
  ed_limiter := limiter_streams l;
  ed_now := Valkey.w_now;
  ed_wait d w := (ValkeyClient.sleep d w).2;
  ed_done w := (ValkeyClient.ctx_done w).1;
  ed_LookupRoute := Router.LookupRoute;
  ed_LookupNode := Router.LookupNode (λ _, None);
  ed_DialBackReady w := (true, w);
  ed_openFar _ _ _ _ _ _ w := (true, w);
  ed_FreeRemoteSlot _ w := (false, w);
  ed_Text := ValkeyClient.mintToken;
  ed_ConnID := ValkeyClient.mintToken
|}.

Definition sample_limiter : Limiter.Limiter :=
  {| Limiter.bwRate := 500; Limiter.pktCap := 0; Limiter.dayCap := 1000; Limiter.weekCap := 5000;
     Limiter.streamTTL := minute |}.
#[local] Instance sample_deps : EdgeDeps (Valkey.world Valkey.mem_server) :=
  node_deps (H := Valkey.mem_valkey) (H0 := ValkeyClient.sample_tokens) sample_limiter.
#[local] Existing Instance ascii_only_case.

Definition sample_stream : activeStream := {|
  tunnel := "abc"; member := "t"; connID := "c1"; nodeID := "n1"; started := 0;
  lastAct := 0; recent := 0; bytesIn := 0; bytesOut := 0;
  evicted := false; banned := false; terminated := false; phoneGone := false;
  cancelled := false; released := false |}.
Definition sample_st : tst (Valkey.world Valkey.mem_server) :=
  TSt ValkeyClient.sample_world {[0%nat := sample_stream]} 1 [].

(** A request, its answer, the client's end and the phone's. *)
Definition sample_sched : list sevent :=
  [SRead true (bytes_of_str "hi") false None; SRead false (bytes_of_str "hello") false None;
   SRead true [] true None; SCascade; SRead false [] true None].

(** A request, and an answer of which the client takes three bytes. *)
Definition torn_sched : list sevent :=
  [SRead true (bytes_of_str "hi") false None; SRead false (bytes_of_str "hello") false (Some 3%nat);
   SCascade; SRead true [] true None].

Lemma splice_forwards_in_order_witness :
  let '(r, sp, st') := splice sample_config 0 "abc" "t" torn_sched sample_st in
  r = Some CloseError ∧ sp_up sp = bytes_of_str "hi" ∧ torn_of false sp = bytes_of_str "hel" ∧
  sent_of true sp `prefix_of` concat (map (offer true) torn_sched) ∧
  sent_of false sp `prefix_of` concat (map (offer false) torn_sched) ∧
  (∃ s', t_streams st' !! 0%nat = Some s' ∧ bytesIn s' = len (sp_up sp) ∧ bytesOut s' = len (sp_down sp)) ∧
  ∀ u, torn_of u sp ≠ [] → done_of u sp = true.
Proof.
  pose proof (splice_forwards_in_order sample_config 0 "abc" "t" torn_sched sample_st sample_stream
    eq_refl eq_refl eq_refl) as Hw.
  destruct (splice sample_config 0 "abc" "t" torn_sched sample_st) as [[r sp] st'] eqn:E.
  assert (r = Some CloseError ∧ sp_up sp = bytes_of_str "hi" ∧ torn_of false sp = bytes_of_str "hel") as (H1 & H2 & H3).
  { vm_compute in E. injection E as <- <- <-. by vm_compute. }
  by split_and!; try apply Hw.
Defined.

Lemma run_stream_releases_once_witness :
  let '(r, st') := run_stream sample_config "abc" "t" "c1" "n1" sample_sched sample_st in
  r = Some CloseClientClose ∧
  ∃ tr, t_trace st' = t_trace sample_st ++ tr ∧ releases tr = 1 ∧ t_streams st' !! t_next sample_st = None.
Proof.
  destruct (run_stream sample_config "abc" "t" "c1" "n1" sample_sched sample_st) as [r st'] eqn:E.
  assert (r = Some CloseClientClose) as -> by (apply (f_equal fst) in E; by vm_compute in E).
  split; [done|].
  by apply (run_stream_releases_once sample_config "abc" "t" "c1" "n1" sample_sched sample_st CloseClientClose).
Defined.

Lemma rolling_window_measures_witness :
  let samples := [(0, 10); (20, 30); (50, 60)] in
  ∃ base rest, drop_samples 30 (samples ++ [(90, 100)]) = base :: rest ∧
    (∀ t n, (t, n) ∈ samples → t ≤ 30 → t ≤ base.1 ≤ 30) ∧
    ((∀ t n, (t, n) ∈ samples → 30 < t) → drop_samples 30 (samples ++ [(90, 100)]) = samples ++ [(90, 100)]) ∧
    ∀ t n, (t, n) ∈ rest → 30 < t.
Proof.
  apply (rolling_window_measures 30 90 100 [(0, 10); (20, 30); (50, 60)]); [|lia].
  repeat constructor; simpl; lia.
Defined.

Lemma closed_splice_finishes_witness :
  let '(sp', _) := splice_run sample_config 0 "abc" "t" (closeBoth (splice_init 0))
                     [SRead true [] false None; SRead false [] false None] sample_st in
  splice_result sp' = Some (default CloseClientClose (sp_reason sp')).
Proof.
  by apply (closed_splice_finishes sample_config 0 "abc" "t" (closeBoth (splice_init 0))
              true [] false None [] false None sample_st).
Defined.
End Bridge.
