(* ===== verification/Ban.v ===== *)
(** * The ban engine

    [internal/ban]: the ban-file parser ([parse.go]), the country expansion of
    the DB-IP table ([dbip.go]), the hot-reloadable engine ([engine.go]) and the
    watcher that polls the files ([watch.go]).

    The file system changes under the watcher: it is a history, one state per
    access, so that a reload can read a file half way through a rewrite.  An
    address is its family and its value; parsing addresses and CSV, splitting a
    range into prefixes and the longest-prefix-match table are other packages'
    code: parameters, with the table's documented behaviour as [LPMLaws]. *)
From Stdlib Require Import ZArith Lia Ascii String.
From S2P Require Import Prelude GoStr.
Local Open Scope string_scope.
Local Open Scope list_scope.
Local Open Scope Z_scope.

Module Ban.

(** ** Entries *)
Inductive Reason := ReasonIP | ReasonCIDR | ReasonCountry | ReasonTunnelName.

Definition Reason_String (r : Reason) : string :=
  match r with
  | ReasonIP => "banned_ip"
  | ReasonCIDR => "banned_cidr"
  | ReasonCountry => "banned_country"
  | ReasonTunnelName => "banned_tunnel_name"
  end.

Record Source := MkSource { File_ : string; Line : Z; Reason_ : Reason; Detail : string }.

(** ** Addresses and prefixes ([net/netip]) *)
Record Addr := MkAddr { is6 : bool; val : Z }.
Record Prefix := MkPrefix { p_addr : Addr; p_bits : Z }.

#[export] Instance Addr_eq : EqDecision Addr.
Proof. solve_decision. Defined.
#[export] Instance Prefix_eq : EqDecision Prefix.
Proof. solve_decision. Defined.

Definition BitLen (a : Addr) : Z := if is6 a then 128 else 32.
Definition Is4In6 (a : Addr) : bool := is6 a && (Z.shiftr (val a) 32 =? 0xffff).
Definition Unmap (a : Addr) : Addr := if Is4In6 a then MkAddr false (Z.land (val a) (Z.ones 32)) else a.
Definition Masked (p : Prefix) : Prefix :=
  let host := BitLen (p_addr p) - p_bits p in
  MkPrefix (MkAddr (is6 (p_addr p)) (Z.shiftl (Z.shiftr (val (p_addr p)) host) host)) (p_bits p).

Definition Contains (p : Prefix) (a : Addr) : bool :=
  let host := BitLen (p_addr p) - p_bits p in
  Bool.eqb (is6 (p_addr p)) (is6 a) && (Z.shiftr (val (p_addr p)) host =? Z.shiftr (val a) host).

(** ** parse.go *)
Section parse.
Context `{UnicodeCase}.

Inductive parse_error := MalformedLine | UnknownKind.

Definition known_kind (k : string) : bool :=
  String.eqb k "ip" || String.eqb k "cidr" || String.eqb k "country" || String.eqb k "tunnel-name".

(** [Ok None] is a line to skip. *)
Definition ParseLine (line : string) : result parse_error (option (string * string)) :=
  let line := match IndexByte line "#"%char with Some i => str_take i line | None => line end in
  let line := TrimSpace line in
  if String.eqb line "" then Ok None
  else
    match Fields line with
    | [k; value] =>
        let kind := ToLower k in
        if known_kind kind then Ok (Some (kind, value)) else Err UnknownKind
    | _ => Err MalformedLine
    end.

Record prefixSource := MkPS { ps_prefix : Prefix; ps_source : Source }.

Record parsed := MkParsed {
  prefixes : list prefixSource;
  countries : gmap string Source;
  names : gmap string Source
}.
Definition no_entries : parsed := MkParsed [] ∅ ∅.

Context (ParseAddr : string → option Addr) (ParsePrefix : string → option Prefix).

(** The prefix of a [cidr] value; [None] when the line is skipped. *)
Definition cidr_prefix (value : string) : option Prefix :=
  match ParsePrefix value with
  | None => None
  | Some pfx =>
      if Is4In6 (p_addr pfx) then
        if p_bits pfx <? 96 then None
        else Some (Masked (MkPrefix (Unmap (p_addr pfx)) (p_bits pfx - 96)))
      else Some (Masked pfx)
  end.

(** One line of a file: the loop body of [parseFile]. *)
Definition add_line (path : string) (p : parsed) (lineNo : Z) (raw : string) : parsed :=
  match ParseLine raw with
  | Err _ | Ok None => p
  | Ok (Some (kind, value)) =>
      let src := MkSource path lineNo in
      if String.eqb kind "ip" then
        match ParseAddr value with
        | None => p
        | Some addr =>
            let addr := Unmap addr in
            MkParsed (prefixes p ++ [MkPS (MkPrefix addr (BitLen addr)) (src ReasonIP value)])
              (countries p) (names p)
        end
      else if String.eqb kind "cidr" then
        match cidr_prefix value with
        | None => p
        | Some pfx =>
            MkParsed (prefixes p ++ [MkPS pfx (src ReasonCIDR value)]) (countries p) (names p)
        end
      else if String.eqb kind "country" then
        let cc := ToUpper value in
        MkParsed (prefixes p) (<[cc := src ReasonCountry cc]> (countries p)) (names p)
      else (* tunnel-name *)
        MkParsed (prefixes p) (countries p) (<[value := src ReasonTunnelName value]> (names p))
  end.

Fixpoint parse_lines (path : string) (p : parsed) (lineNo : Z) (lines : list string) : parsed :=
  match lines with
  | [] => p
  | raw :: lines' => parse_lines path (add_line path p lineNo raw) (lineNo + 1) lines'
  end.

Definition parse_data (path data : string) : parsed :=
  parse_lines path no_entries 1 (SplitByte data "010"%char).

(** ** dbip.go *)
Record SkippedRows := MkSkipped { Malformed : Z; BadAddress : Z; InvalidRange : Z }.
Definition Total (s : SkippedRows) : Z := Malformed s + BadAddress s + InvalidRange s.

(** What [csv.Reader.Read] returns for each row. *)
Inductive csv_row :=
| CsvRow (fields : list string)
| CsvParseError
| CsvReadError.

Inductive csv_error := CsvNotConfigured | CsvAbsent | CsvUnreadable | CsvNoRows.

(** [netipx]: the covering prefixes of a range, [None] when it is not valid. *)
Context (RangePrefixes : Addr → Addr → option (list Prefix)) (csv_rows : string → list csv_row).

Definition expand_row (wanted : gset string) (out : gmap string (list Prefix)) (sk : SkippedRows)
    (validRows : Z) (rec : list string) : gmap string (list Prefix) * SkippedRows * Z :=
  match rec with
  | f0 :: f1 :: f2 :: _ =>
      match ParseAddr (TrimSpace f0), ParseAddr (TrimSpace f1) with
      | Some s, Some e =>
          let validRows := validRows + 1 in
          let cc := ToUpper (TrimSpace f2) in
          if decide (cc ∈ wanted) then
            match RangePrefixes s e with
            | None => (out, MkSkipped (Malformed sk) (BadAddress sk) (InvalidRange sk + 1), validRows)
            | Some pfxs => (<[cc := default [] (out !! cc) ++ pfxs]> out, sk, validRows)
            end
          else (out, sk, validRows)
      | _, _ => (out, MkSkipped (Malformed sk) (BadAddress sk + 1) (InvalidRange sk), validRows)
      end
  | _ => (out, MkSkipped (Malformed sk + 1) (BadAddress sk) (InvalidRange sk), validRows)
  end.

Fixpoint expand_rows (wanted : gset string) (out : gmap string (list Prefix)) (sk : SkippedRows)
    (validRows : Z) (rows : list csv_row) : result csv_error (gmap string (list Prefix) * SkippedRows) :=
  match rows with
  | [] => if validRows =? 0 then Err CsvNoRows else Ok (out, sk)
  | CsvReadError :: _ => Err CsvUnreadable
  | CsvParseError :: rows' =>
      expand_rows wanted out (MkSkipped (Malformed sk + 1) (BadAddress sk) (InvalidRange sk)) validRows rows'
  | CsvRow rec :: rows' =>
      let '(out, sk, validRows) := expand_row wanted out sk validRows rec in
      expand_rows wanted out sk validRows rows'
  end.

Definition ExpandRows (wanted : gset string) (data : string)
    : result csv_error (gmap string (list Prefix) * SkippedRows) :=
  expand_rows wanted ∅ (MkSkipped 0 0 0) 0 (csv_rows data).
End parse.

(** ** The longest-prefix-match table ([bart]) *)

(** The entry a table of these insertions gives an address: a longest prefix
    that contains it, the last one inserted for that prefix. *)
Definition better (a : Addr) (best : option (Prefix * Source)) (e : Prefix * Source)
    : option (Prefix * Source) :=
  if Contains e.1 a then
    match best with
    | None => Some e
    | Some b => if p_bits b.1 <=? p_bits e.1 then Some e else best
    end
  else best.

Definition best (a : Addr) (ins : list (Prefix * Source)) : option Source :=
  snd <$> fold_left (better a) ins None.

Class LPM (Tb : Type) := {
  lpm_empty : Tb;
  lpm_insert : Tb → Prefix * Source → Tb;
  lpm_lookup : Tb → Addr → option Source
}.
Class LPMLaws (Tb : Type) `{LPM Tb} : Prop :=
  lpm_longest : ∀ ins a, lpm_lookup (fold_left lpm_insert ins lpm_empty) a = best a ins.

(** A table that keeps its insertions, for concrete inputs. *)
#[export] Instance list_lpm : LPM (list (Prefix * Source)) := {
  lpm_empty := [];
  lpm_insert t e := t ++ [e];
  lpm_lookup t a := best a t
}.
#[export] Instance list_lpm_laws : LPMLaws (list (Prefix * Source)).
Proof.
  intros ins a. simpl. f_equal.
  enough (∀ acc, fold_left (λ t e, t ++ [e]) ins acc = acc ++ ins) as -> by done.
  induction ins as [|e ins IH]; intros acc; simpl; [by rewrite app_nil_r|].
  by rewrite IH, <- app_assoc.
Qed.

(** ** Files that change while they are read *)
Inductive file :=
| Absent
| StatFails
| Unreadable (mtime size : Z)          (* e.g. a directory *)
| Regular (data : string) (mtime : Z).

Record fileState := MkState { exists_ : bool; modTime : Z; size_ : Z }.
#[export] Instance fileState_eq : EqDecision fileState.
Proof. solve_decision. Defined.

Definition stat_of (f : file) : fileState :=
  match f with
  | Absent | StatFails => MkState false 0 0
  | Unreadable t n => MkState true t n
  | Regular d t => MkState true t (Z.of_nat (String.length d))
  end.

Inductive read_error := NotExist | HardError.
Definition read_of (f : file) : result read_error string :=
  match f with
  | Absent => Err NotExist
  | StatFails | Unreadable _ _ => Err HardError
  | Regular d _ => Ok d
  end.

(** A history gives the files at every access; the state of a computation is
    the number of accesses so far. *)
Definition history : Type := nat → string → file.
Definition F (A : Type) : Type := nat → A * nat.
Definition fret {A} (a : A) : F A := λ i, (a, i).
Definition fbind {A C} (c : F A) (k : A → F C) : F C := λ i, let '(a, j) := c i in k a j.
Notation "'let$' x := c 'in' k" := (fbind c (λ x, k))
  (at level 10, x pattern, c at level 200, k at level 200).

Section engine.
Context `{UnicodeCase} (ParseAddr : string → option Addr) (ParsePrefix : string → option Prefix).
Context (RangePrefixes : Addr → Addr → option (list Prefix)) (csv_rows : string → list csv_row).
Context {Tb : Type} `{LPM Tb}.
Context (h : history).

Definition os_stat (p : string) : F fileState := λ i, (stat_of (h i p), S i).
Definition os_read (p : string) : F (result read_error string) := λ i, (read_of (h i p), S i).

Record snapshot := MkSnapshot { table : Tb; snames : gmap string Source }.
Definition emptySnapshot : snapshot := MkSnapshot lpm_empty ∅.

Definition Match (s : snapshot) (ip : Addr) : option Source := lpm_lookup (table s) ip.
Definition MatchTunnel (s : snapshot) (name : string) : option Source := snames s !! name.

Definition parseFile (path : string) : F (result read_error parsed) :=
  let$ r := os_read path in
  fret match r with
       | Err e => Err e
       | Ok data => Ok (parse_data ParseAddr ParsePrefix path data)
       end.

Definition ExpandCountries (csvPath : string) (wanted : gset string)
    : F (result csv_error (gmap string (list Prefix) * SkippedRows)) :=
  if String.eqb csvPath "" then fret (Err CsvNotConfigured)
  else
    let$ r := os_read csvPath in
    fret match r with
         | Err NotExist => Err CsvAbsent
         | Err HardError => Err CsvUnreadable
         | Ok data => ExpandRows ParseAddr RangePrefixes csv_rows wanted data
         end.

(** The accumulated table, names and countries of the files read so far. *)
Record building := MkBuilding { b_table : Tb; b_names : gmap string Source; b_countries : gmap string Source }.

Definition add_parsed (b : building) (p : parsed) : building :=
  MkBuilding (fold_left (λ t ps, lpm_insert t (ps_prefix ps, ps_source ps)) (prefixes p) (b_table b))
    (names p ∪ b_names b) (countries p ∪ b_countries b).

Fixpoint build_files (required : gset string) (files : list string) (b : building) : F (option building) :=
  match files with
  | [] => fret (Some b)
  | f :: files' =>
      let$ r := parseFile f in
      match r with
      | Err NotExist => if decide (f ∈ required) then fret None else build_files required files' b
      | Err HardError => fret None
      | Ok p => build_files required files' (add_parsed b p)
      end
  end.

Definition add_countries (b : building) (byCC : gmap string (list Prefix)) : Tb :=
  fold_left (λ t cp,
    match b_countries b !! cp.1 with
    | Some src => fold_left (λ t pfx, lpm_insert t (pfx, src)) cp.2 t
    | None => t
    end) (map_to_list byCC) (b_table b).

(** [None] keeps the previous snapshot. *)
Definition build (files : list string) (csvPath : string) (required : gset string) : F (option snapshot) :=
  let$ ob := build_files required files (MkBuilding lpm_empty ∅ ∅) in
  match ob with
  | None => fret None
  | Some b =>
      if decide (b_countries b = ∅) then fret (Some (MkSnapshot (b_table b) (b_names b)))
      else
        let$ r := ExpandCountries csvPath (dom (b_countries b)) in
        match r with
        | Ok (byCC, _) => fret (Some (MkSnapshot (add_countries b byCC) (b_names b)))
        | Err CsvNotConfigured | Err CsvAbsent =>
            if decide (csvPath ∈ required) then fret None
            else fret (Some (MkSnapshot (b_table b) (b_names b)))
        | Err _ => fret None
        end
  end.

(** The live snapshot after [Load], and whether it succeeded. *)
Definition Load (cur : snapshot) (files : list string) (csvPath : string) (required : gset string)
    : F (bool * snapshot) :=
  let$ s := build files csvPath required in
  fret match s with None => (false, cur) | Some s => (true, s) end.

(** ** watch.go *)
Record watcher := MkWatcher {
  e_current : snapshot;
  files_ : list string;
  csv_ : string;
  last_ : option (gmap string fileState)     (* nil until a load succeeded *)
}.

Fixpoint stat_all (paths : list string) (acc : gmap string fileState) : F (gmap string fileState) :=
  match paths with
  | [] => fret acc
  | p :: paths' =>
      if String.eqb p "" then stat_all paths' acc
      else let$ st := os_stat p in stat_all paths' (<[p := st]> acc)
  end.

Definition watch_paths (w : watcher) : list string :=
  if String.eqb (csv_ w) "" then files_ w else files_ w ++ [csv_ w].

Definition fingerprint (w : watcher) : F (gmap string fileState) := stat_all (watch_paths w) ∅.

Definition last_states (w : watcher) : gmap string fileState := default ∅ (last_ w).

Definition required (w : watcher) : gset string :=
  dom (filter (λ pst, exists_ pst.2 = true) (last_states w)).

(** Whether a path of the last load is missing from [states]. *)
Definition vanished (w : watcher) (states : gmap string fileState) : bool :=
  bool_decide (¬ map_Forall (λ p prev, exists_ prev = true →
    default false (exists_ <$> states !! p) = true) (last_states w)).

Definition sameStates (a b : gmap string fileState) : bool := bool_decide (a = b).

Definition Initial (w : watcher) : F watcher :=
  let$ cur := fingerprint w in
  let$ r := Load (e_current w) (files_ w) (csv_ w) ∅ in
  fret (if r.1 then MkWatcher r.2 (files_ w) (csv_ w) (Some cur) else w).

(** The reload attempts of one tick; [true] when a snapshot was committed. *)
Fixpoint reload (attempts : nat) (w : watcher) (req : gset string) (cur : gmap string fileState)
    : F (bool * watcher) :=
  match attempts with
  | O => fret (false, w)
  | S attempts' =>
      let$ s := build (files_ w) (csv_ w) req in
      match s with
      | None => fret (false, w)
      | Some snap =>
          let$ after := fingerprint w in
          if vanished w after then fret (false, w)
          else if sameStates cur after then
            fret (true, MkWatcher snap (files_ w) (csv_ w) (Some cur))
          else reload attempts' w req after
      end
  end.

Definition tick (w : watcher) : F (bool * watcher) :=
  let$ cur := fingerprint w in
  if match last_ w with Some l => sameStates l cur | None => false end then fret (false, w)
  else if vanished w cur then fret (false, w)
  else reload 3 w (required w) cur.
End engine.

(** ** Reads of a file system that stands still

    [stable c g P]: if the paths of [P] are as in [g] at every access [c] makes,
    [c] returns what it returns in a file system that is always [g]. *)
Definition stable {A} (c : history → F A) (g : string → file) (P : string → Prop) : Prop :=
  ∀ h i, (i ≤ (c h i).2)%nat ∧
    ((∀ k p, (i ≤ k < (c h i).2)%nat → P p → h k p = g p) →
     ∀ i', (c (λ _, g) i').1 = (c h i).1).

Lemma stable_ret {A} (a : A) g P : stable (λ _, fret a) g P.
Proof. intros h i. simpl. split; [lia|done]. Qed.

Lemma stable_bind {A C} (c : history → F A) (k : history → A → F C) g P :
  stable c g P → (∀ a, stable (λ h, k h a) g P) → stable (λ h, fbind (c h) (k h)) g P.
Proof.
  intros Hc Hk h i. unfold fbind. destruct (Hc h i) as [L1 E1].
  destruct (c h i) as [a j] eqn:Ec. simpl in *. destruct (Hk a h j) as [L2 E2].
  split; [lia|]. intros Hs i'.
  specialize (E1 (λ k0 p H1 H2, Hs k0 p ltac:(lia) H2) i').
  destruct (c (λ _, g) i') as [a' j']. simpl in E1. subst a'. apply E2. intros k0 p Hk0. apply Hs. lia.
Qed.

Lemma stable_read p g (P : string → Prop) : P p → stable (λ h, os_read h p) g P.
Proof.
  intros Hp h i. simpl. split; [lia|]. intros Hs i'. by rewrite (Hs i p ltac:(lia) Hp).
Qed.

Section reload_theorems.
Context `{UnicodeCase} (ParseAddr : string → option Addr) (ParsePrefix : string → option Prefix).
Context (RangePrefixes : Addr → Addr → option (list Prefix)) (csv_rows : string → list csv_row).
Context {Tb : Type} `{LPM Tb}.

Abbreviation build_in h := (build ParseAddr ParsePrefix RangePrefixes csv_rows (Tb := Tb) h).
Abbreviation reload_in h := (reload ParseAddr ParsePrefix RangePrefixes csv_rows (Tb := Tb) h).
Abbreviation tick_in h := (tick ParseAddr ParsePrefix RangePrefixes csv_rows (Tb := Tb) h).

Lemma build_files_stable req fs g P b :
  Forall P fs → stable (λ h, build_files ParseAddr ParsePrefix (Tb := Tb) h req fs b) g P.
Proof.
  intros Hall. revert b. induction Hall as [|f fs Hf Hall IH]; intros b; [apply stable_ret|].
  cbn [build_files]. apply stable_bind.
  - apply stable_bind; [by apply stable_read|]. intros r. apply stable_ret.
  - intros [p|[]]; [apply IH| |apply stable_ret]. case_decide; [apply stable_ret|apply IH].
Qed.

Lemma build_stable fs csv req g P :
  Forall P fs → (csv ≠ "" → P csv) → stable (λ h, build_in h fs csv req) g P.
Proof.
  intros Hfs Hcsv. unfold build. apply stable_bind; [by apply build_files_stable|].
  intros [b|]; [|apply stable_ret]. case_decide; [apply stable_ret|]. apply stable_bind.
  - unfold ExpandCountries. destruct (String.eqb_spec csv ""); [apply stable_ret|].
    apply stable_bind; [by apply stable_read; auto|]. intros r. apply stable_ret.
  - intros [[byCC sk]|[]]; try apply stable_ret; case_decide; apply stable_ret.
Qed.

(** ** Fingerprints *)

(** A fingerprint's entry of a path was taken at one of its accesses. *)
Definition taken (h : history) (i j : nat) (m : gmap string fileState) : Prop :=
  ∀ p st, m !! p = Some st → ∃ k, (i ≤ k < j)%nat ∧ st = stat_of (h k p).

Lemma stat_all_spec h paths acc i i0 :
  (i0 ≤ i)%nat → taken h i0 i acc →
  let '(m, j) := stat_all h paths acc i in
  (i ≤ j)%nat ∧ taken h i0 j m ∧
  (∀ p, p ∈ paths → p ≠ "" → is_Some (m !! p)) ∧ (∀ p, is_Some (acc !! p) → is_Some (m !! p)).
Proof.
  revert acc i. induction paths as [|p paths IH]; intros acc i Hi Ht; cbn [stat_all].
  { unfold fret. split; [lia|]. split; [done|]. split; [set_solver|done]. }
  destruct (String.eqb_spec p "") as [->|Hp].
  - specialize (IH acc i Hi Ht). destruct (stat_all h paths acc i) as [m j].
    destruct IH as (L & T & C & D). do 2 (split; [done|]). split; [|done]. set_solver.
  - unfold fbind, os_stat. specialize (IH (<[p := stat_of (h i p)]> acc) (S i) ltac:(lia)).
    destruct (stat_all h paths (<[p := stat_of (h i p)]> acc) (S i)) as [m j].
    destruct IH as (L & T & C & D).
    { intros q st Hq. apply lookup_insert_Some in Hq as [[<- <-]|[_ Hq]].
      - exists i. split; [lia|done].
      - destruct (Ht _ _ Hq) as (k & Hk & ->). exists k. split; [lia|done]. }
    split; [lia|]. split; [done|]. split.
    + intros q [->|Hq]%elem_of_cons Hne; [|by apply C]. apply D. rewrite lookup_insert_eq. by eexists.
    + intros q [st Hq]. apply D. destruct (decide (q = p)) as [->|]; [rewrite lookup_insert_eq; by eexists|].
      rewrite lookup_insert_ne by done. by eexists.
Qed.

Lemma fingerprint_spec h (w : watcher (Tb := Tb)) i :
  let '(m, j) := fingerprint h w i in
  (i ≤ j)%nat ∧ taken h i j m ∧ ∀ p, p ∈ watch_paths w → p ≠ "" → is_Some (m !! p).
Proof.
  pose proof (stat_all_spec h (watch_paths w) ∅ i i ltac:(lia)) as Hs. unfold fingerprint.
  destruct (stat_all h (watch_paths w) ∅ i) as [m j]. destruct Hs as (L & T & C & _); [|done].
  intros p st. by rewrite lookup_empty.
Qed.

(** The fingerprint tells changes: a path with the same (exists, mtime, size) at
    two accesses was not changed in between. *)
Definition honest (h : history) (w : watcher (Tb := Tb)) : Prop :=
  (∀ k, h k "" = Absent) ∧
  ∀ p i k j, p ∈ watch_paths w → (i ≤ k ≤ j)%nat → stat_of (h i p) = stat_of (h j p) → h k p = h i p.

Lemma reload_commits h attempts (w : watcher (Tb := Tb)) req cur i0 i w' j :
  (i0 ≤ i)%nat → taken h i0 i cur → (∀ p, p ∈ watch_paths w → p ≠ "" → is_Some (cur !! p)) →
  honest h w → reload_in h attempts w req cur i = ((true, w'), j) →
  ∃ g snap, (∀ i', (build_in (λ _, g) (files_ w) (csv_ w) req i').1 = Some snap) ∧
    (∃ k, (i0 ≤ k ≤ j)%nat ∧ ∀ p, p ∈ watch_paths w → h k p = g p) ∧
    e_current w' = snap ∧ files_ w' = files_ w ∧ csv_ w' = csv_ w ∧
    ∃ last, last_ w' = Some last ∧ vanished w last = false.
Proof.
  revert cur i0 i. induction attempts as [|n IH]; intros cur i0 i Hi Ht Hc [He Hh] Hr; [done|].
  cbn [reload] in Hr. unfold fbind at 1 in Hr.
  set (P p := p = "" ∨ p ∈ watch_paths w).
  destruct (build_stable (files_ w) (csv_ w) req (h i) P) with (h := h) (i := i) as [L1 E1].
  { apply Forall_forall. intros p Hp. right. unfold watch_paths.
    destruct (String.eqb (csv_ w) ""); [done|]. apply elem_of_app. auto. }
  { intros Hcsv. right. unfold watch_paths. destruct (String.eqb_spec (csv_ w) ""); [done|]. set_solver. }
  destruct (build_in h (files_ w) (csv_ w) req i) as [[snap|] i1] eqn:Eb; [|done].
  unfold fbind in Hr. pose proof (fingerprint_spec h w i1) as Hf.
  destruct (fingerprint h w i1) as [after i2]. destruct Hf as (L2 & T2 & C2). simpl in L1, E1.
  destruct (vanished w after) eqn:Hv; [done|].
  destruct (sameStates cur after) eqn:Hs.
  - unfold sameStates in Hs. apply bool_decide_eq_true in Hs. subst after. unfold fret in Hr. simplify_eq.
    assert (∀ k p, (i ≤ k ≤ i1)%nat → p ∈ watch_paths w → h k p = h i p) as Hconst.
    { intros k p Hk Hp. destruct (decide (p = "")) as [->|Hne]; [by rewrite !He|].
      destruct (Hc p Hp Hne) as [st Hst].
      destruct (Ht _ _ Hst) as (a & Ha & ->), (T2 _ _ Hst) as (b & Hb & Hab).
      rewrite (Hh p a k b), (Hh p a i b) by (done || lia). done. }
    exists (h i), snap. split; [|split].
    + intros i'. apply E1. intros k p Hk [->|Hp]; [by rewrite !He|]. apply Hconst; [lia|done].
    + exists i. split; [lia|done].
    + by eauto 10.
  - destruct (IH after i1 i2 L2 T2 C2 (conj He Hh) Hr) as (g & sn & G1 & (k & Hk & G2) & G3).
    exists g, sn. split; [done|]. split; [|done]. exists k. split; [lia|done].
Qed.

Lemma tick_commits h (w : watcher (Tb := Tb)) i w' j :
  honest h w → tick_in h w i = ((true, w'), j) →
  ∃ g snap, (∀ i', (build_in (λ _, g) (files_ w) (csv_ w) (required w) i').1 = Some snap) ∧
    (∃ k, (i ≤ k ≤ j)%nat ∧ ∀ p, p ∈ watch_paths w → h k p = g p) ∧
    e_current w' = snap ∧ files_ w' = files_ w ∧ csv_ w' = csv_ w ∧
    ∃ last, last_ w' = Some last ∧ vanished w last = false.
Proof.
  intros Hh. unfold tick, fbind. pose proof (fingerprint_spec h w i) as Hf.
  destruct (fingerprint h w i) as [cur i1]. destruct Hf as (L & T & C).
  destruct (match last_ w with Some _ => _ | None => _ end); [done|].
  destruct (vanished w cur); [done|]. by apply reload_commits.
Qed.

(** C32. Files may change at every access of a reload. If a tick commits a snapshot then
    there is an instant during the tick at which the files, held still, give that very
    snapshot. The hypothesis is the one the code rests on: a path with the same
    existence, modification time and size at two accesses did not change in between. *)
Theorem torn_read_never_committed h (w : watcher (Tb := Tb)) i w' j :
  honest h w → tick_in h w i = ((true, w'), j) →
  ∃ k, (i ≤ k ≤ j)%nat ∧
    ∀ i', (build_in (λ _, h k) (files_ w) (csv_ w) (required w) i').1 = Some (e_current w').
Proof.
  intros Hh Ht. destruct (tick_commits h w i w' j Hh Ht) as (g & snap & Hb & (k & Hk & Hg) & <- & _).
  exists k. split; [done|]. intros i'. rewrite <- (Hb i').
  destruct (build_stable (files_ w) (csv_ w) (required w) (h k) (λ p, p ∈ watch_paths w))
    with (h := λ _ : nat, g) (i := i') as [_ E].
  { apply Forall_forall. intros p Hp. unfold watch_paths.
    destruct (String.eqb (csv_ w) ""); [done|]. apply elem_of_app. auto. }
  { intros Hcsv. unfold watch_paths. destruct (String.eqb_spec (csv_ w) ""); [done|]. set_solver. }
  apply E. intros k0 p _ Hp. symmetry. by apply Hg.
Qed.

Lemma not_vanished w states : vanished (Tb := Tb) w states = false →
  ∀ p, p ∈ required w → ∃ st, states !! p = Some st ∧ exists_ st = true.
Proof.
  unfold vanished. intros Hv p Hp. apply bool_decide_eq_false in Hv.
  unfold required in Hp. apply elem_of_dom in Hp as [prev Hp].
  apply map_lookup_filter_Some in Hp as [Hp Hex].
  apply dec_stable in Hv. specialize (Hv p prev Hp Hex). simpl in Hv.
  destruct (states !! p) as [st|]; [|done]. by exists st.
Qed.

Lemma reload_outcome h (w : watcher (Tb := Tb)) i attempts cur i0 i1 b w' j :
  (i ≤ i0 ≤ i1)%nat → taken h i0 i1 cur →
  reload_in h attempts w (required w) cur i1 = ((b, w'), j) →
  (b = false ∧ w' = w) ∨
  (b = true ∧ ∃ last i2 i3, last_ w' = Some last ∧ vanished w last = false ∧
     (i ≤ i2)%nat ∧ taken h i2 i3 last).
Proof.
  revert cur i0 i1. induction attempts as [|n IH]; intros cur i0 i1 Hi Ht Hr.
  { left. unfold reload, fret in Hr. by simplify_eq. }
  cbn [reload] in Hr. unfold fbind at 1 in Hr.
  destruct (build_stable (files_ w) (csv_ w) (required w) (h i1) (λ _, True)) with (h := h) (i := i1) as [L1 _];
    [by apply Forall_true|done|].
  destruct (build_in h (files_ w) (csv_ w) (required w) i1) as [[snap|] i2]; simpl in L1.
  2:{ left. unfold fret in Hr. by simplify_eq. }
  unfold fbind in Hr. pose proof (fingerprint_spec h w i2) as Hf.
  destruct (fingerprint h w i2) as [after i3]. destruct Hf as (L2 & T2 & _).
  destruct (vanished w after) eqn:Hv; [left; unfold fret in Hr; by simplify_eq|].
  destruct (sameStates cur after) eqn:Hs.
  - apply bool_decide_eq_true in Hs. subst after. unfold fret in Hr. simplify_eq. right.
    split; [done|]. exists cur, i0, i1. split; [done|]. split; [done|]. split; [lia|done].
  - apply (IH after i2 i3); [lia|done|done].
Qed.

Lemma tick_outcome h (w : watcher (Tb := Tb)) i b w' j :
  tick_in h w i = ((b, w'), j) →
  (b = false ∧ w' = w) ∨
  (b = true ∧ ∃ last i2 i3, last_ w' = Some last ∧ vanished w last = false ∧
     (i ≤ i2)%nat ∧ taken h i2 i3 last).
Proof.
  unfold tick, fbind. pose proof (fingerprint_spec h w i) as Hf.
  destruct (fingerprint h w i) as [cur i1]. destruct Hf as (L & T & _).
  destruct (match last_ w with Some _ => _ | None => _ end);
    [intros Hr; left; unfold fret in Hr; by simplify_eq|].
  destruct (vanished w cur); [intros Hr; left; unfold fret in Hr; by simplify_eq|].
  intros Hr. eapply (reload_outcome h w i 3 cur i i1); [lia|done|exact Hr].
Qed.

(** The set of files the bans were loaded from only grows, and while one of them is gone
    the watcher keeps its snapshot. *)
Lemma reload_never_drops_a_file h (w : watcher (Tb := Tb)) i b w' j :
  tick_in h w i = ((b, w'), j) →
  required w ⊆ required w' ∧ (b = false → w' = w) ∧
  ∀ p, p ∈ required w → (∀ k, (i ≤ k)%nat → exists_ (stat_of (h k p)) = false) → w' = w.
Proof.
  intros Ht. destruct (tick_outcome h w i b w' j Ht) as [[-> ->]|(-> & last & i2 & i3 & Hl & Hv & Hi & Htk)].
  { done. }
  pose proof (not_vanished w last Hv) as Hnv. split; [|split; [done|]].
  - intros p Hp. destruct (Hnv p Hp) as (st & Hst & Hex). unfold required, last_states. rewrite Hl. simpl.
    apply elem_of_dom. exists st. by apply map_lookup_filter_Some.
  - intros p Hp Hgone. destruct (Hnv p Hp) as (st & Hst & Hex).
    destruct (Htk _ _ Hst) as (k & Hk & ->). rewrite Hgone in Hex by lia. done.
Qed.

(** ** A line of a loaded file takes effect *)
Definition full_prefix (a : Addr) : Prefix := MkPrefix a (BitLen a).

Lemma add_line_grows path p n raw :
  (∀ e, e ∈ prefixes p → e ∈ prefixes (add_line ParseAddr ParsePrefix path p n raw)) ∧
  (∀ k, is_Some (names p !! k) → is_Some (names (add_line ParseAddr ParsePrefix path p n raw) !! k)).
Proof.
  unfold add_line. destruct (ParseLine raw) as [[[kind value]|]|]; [|done..].
  destruct (String.eqb kind "ip"); [destruct (ParseAddr value); [|done]; set_solver|].
  destruct (String.eqb kind "cidr"); [destruct (cidr_prefix ParsePrefix value); [|done]; set_solver|].
  destruct (String.eqb kind "country"); [done|]. split; [done|]. intros k Hk. simpl.
  destruct (decide (k = value)) as [->|]; [rewrite lookup_insert_eq; by eexists|].
  by rewrite lookup_insert_ne.
Qed.

Lemma parse_lines_grows path lines p n :
  (∀ e, e ∈ prefixes p → e ∈ prefixes (parse_lines ParseAddr ParsePrefix path p n lines)) ∧
  (∀ k, is_Some (names p !! k) → is_Some (names (parse_lines ParseAddr ParsePrefix path p n lines) !! k)).
Proof.
  revert p n. induction lines as [|raw lines IH]; intros p n; simpl; [done|].
  destruct (IH (add_line ParseAddr ParsePrefix path p n raw) (n + 1)) as [I1 I2].
  destruct (add_line_grows path p n raw) as [G1 G2]. split; auto.
Qed.

(** What a line asks for. *)
Definition asks (raw kind value : string) : Prop := ParseLine raw = Ok (Some (kind, value)).

Lemma parse_lines_has path lines p n raw v :
  raw ∈ lines →
  (∀ a, asks raw "ip" v → ParseAddr v = Some a →
     ∃ src, MkPS (full_prefix (Unmap a)) src ∈ prefixes (parse_lines ParseAddr ParsePrefix path p n lines)) ∧
  (asks raw "tunnel-name" v →
     is_Some (names (parse_lines ParseAddr ParsePrefix path p n lines) !! v)).
Proof.
  revert p n. induction lines as [|l lines IH]; intros p n Hin; [set_solver|]. simpl.
  apply elem_of_cons in Hin as [->|Hin]; [|by apply IH].
  destruct (parse_lines_grows path lines (add_line ParseAddr ParsePrefix path p n l) (n + 1)) as [G1 G2].
  split.
  - intros a Hl Ha. eexists. apply G1. unfold add_line. rewrite Hl. simpl. rewrite Ha. simpl.
    apply elem_of_app. right. apply list_elem_of_singleton. reflexivity.
  - intros Hl. apply G2. unfold add_line. rewrite Hl. simpl. rewrite lookup_insert_eq. by eexists.
Qed.

(** The insertions that made a table. *)
Definition made_of (t : Tb) (ins : list (Prefix * Source)) : Prop := t = fold_left lpm_insert ins lpm_empty.

Lemma made_of_app t ins ins' : made_of t ins → made_of (fold_left lpm_insert ins' t) (ins ++ ins').
Proof. unfold made_of. intros ->. by rewrite fold_left_app. Qed.

Lemma insert_prefixes t ps :
  fold_left (λ t ps, lpm_insert t (ps_prefix ps, ps_source ps)) ps t =
  fold_left lpm_insert (map (λ ps, (ps_prefix ps, ps_source ps)) ps) t.
Proof. revert t. induction ps as [|x ps IH]; intros t; simpl; [done|]. apply IH. Qed.

Lemma build_files_has g req fs b ins i b' :
  made_of (b_table b) ins →
  (build_files ParseAddr ParsePrefix (Tb := Tb) (λ _, g) req fs b i).1 = Some b' →
  ∃ ins', made_of (b_table b') (ins ++ ins') ∧
    (∀ k, is_Some (b_names b !! k) → is_Some (b_names b' !! k)) ∧
    ∀ f data t, f ∈ fs → g f = Regular data t →
      (∀ ps, ps ∈ prefixes (parse_data ParseAddr ParsePrefix f data) → (ps_prefix ps, ps_source ps) ∈ ins') ∧
      (∀ k, is_Some (names (parse_data ParseAddr ParsePrefix f data) !! k) → is_Some (b_names b' !! k)).
Proof.
  revert b ins i. induction fs as [|f fs IH]; intros b ins i Hm Hb.
  { simpl in Hb. simplify_eq. exists []. rewrite app_nil_r. split; [done|]. split; [done|]. set_solver. }
  cbn [build_files] in Hb. unfold fbind, parseFile, os_read, fret in Hb. simpl in Hb.
  destruct (read_of (g f)) as [data|[]] eqn:Er; [| |done].
  - destruct (IH (add_parsed b (parse_data ParseAddr ParsePrefix f data))
      (ins ++ map (λ ps, (ps_prefix ps, ps_source ps)) (prefixes (parse_data ParseAddr ParsePrefix f data))) (S i))
      as (ins' & M & N & Hf); [|done|].
    { unfold add_parsed. simpl. rewrite insert_prefixes. by apply made_of_app. }
    eexists. rewrite <- app_assoc in M. split; [exact M|]. split.
    { intros k Hk. apply N. simpl. apply lookup_union_is_Some. auto. }
    intros f' data' t Hin Hg. apply elem_of_cons in Hin as [->|Hin].
    + rewrite Hg in Er. simplify_eq/=. split.
      * intros ps Hps. apply elem_of_app. left. apply list_elem_of_fmap. by exists ps.
      * intros k Hk. apply N. simpl. apply lookup_union_is_Some. auto.
    + destruct (Hf _ _ _ Hin Hg) as [F1 F2]. split; [|done]. intros ps Hps. apply elem_of_app. auto.
  - case_decide; [done|]. destruct (IH b ins (S i) Hm Hb) as (ins' & M & N & Hf). exists ins'.
    split; [done|]. split; [done|]. intros f' data' t Hin Hg. apply elem_of_cons in Hin as [->|Hin]; [|by eapply Hf].
    by rewrite Hg in Er.
Qed.

Lemma add_countries_made b byCC ins : made_of (b_table b) ins →
  ∃ ins', made_of (add_countries b byCC) (ins ++ ins').
Proof.
  unfold add_countries. generalize (map_to_list byCC). intros l. generalize (b_table b). revert ins.
  induction l as [|[cc pfxs] l IH]; intros ins t Hm; simpl; [exists []; by rewrite app_nil_r|].
  destruct (b_countries b !! cc) as [src|]; [|by apply IH].
  assert (fold_left (λ t pfx, lpm_insert t (pfx, src)) pfxs t =
          fold_left lpm_insert (map (λ pfx, (pfx, src)) pfxs) t) as ->.
  { clear. revert t. induction pfxs as [|x pfxs IH]; intros t; simpl; [done|]. apply IH. }
  destruct (IH _ _ (made_of_app t ins (map (λ pfx, (pfx, src)) pfxs) Hm)) as [ins' M].
  eexists. by rewrite <- app_assoc in M.
Qed.

Lemma best_found a ins e : e ∈ ins → Contains e.1 a = true → is_Some (best a ins).
Proof.
  unfold best. intros Hin Hc.
  enough (∀ acc, (is_Some acc ∨ e ∈ ins) → is_Some (fold_left (better a) ins acc)) as He.
  { destruct (He None (or_intror Hin)) as [x ->]. by eexists. }
  clear Hin. induction ins as [|e' ins IH]; intros acc [Hs|Hin]; simpl; [done|set_solver| |].
  - apply IH. left. unfold better. destruct Hs as [x ->]. repeat case_match; by eexists.
  - apply IH. apply elem_of_cons in Hin as [->|Hin]; [left|by right].
    unfold better. rewrite Hc. repeat case_match; by eexists.
Qed.

Lemma full_contains a : Contains (full_prefix a) a = true.
Proof. unfold Contains, full_prefix. simpl. by rewrite Bool.eqb_reflx, Z.eqb_refl. Qed.

(** In a snapshot built from the files, every ip line bans its address and every
    tunnel-name line its tunnel, whatever the other lines and files say. *)
Lemma ban_lines_take_effect `{!LPMLaws Tb} g fs csv req i snap f data t raw v :
  (build_in (λ _, g) fs csv req i).1 = Some snap → f ∈ fs → g f = Regular data t →
  raw ∈ SplitByte data "010"%char →
  (∀ a, asks raw "ip" v → ParseAddr v = Some a → is_Some (Match snap (Unmap a))) ∧
  (asks raw "tunnel-name" v → is_Some (MatchTunnel snap v)).
Proof.
  intros Hb Hf Hg Hraw. unfold build, fbind in Hb.
  destruct (build_files _ _ _ req fs _ i) as [[b|] i1] eqn:Ef; [|done].
  destruct (build_files_has g req fs (MkBuilding lpm_empty ∅ ∅) [] i b) as (ins & M & _ & Hhas);
    [done|by rewrite Ef|]. destruct (Hhas f data t Hf Hg) as [Hp Hn]. simpl in M.
  destruct (parse_lines_has f (SplitByte data "010"%char) no_entries 1 raw v Hraw) as [P1 P2].
  assert (∃ ins', made_of (table snap) (ins ++ ins') ∧ snames snap = b_names b) as (ins' & M' & Hsn).
  { case_decide; [unfold fret in Hb; simplify_eq/=; exists []; by rewrite app_nil_r|].
    destruct (ExpandCountries _ _ _ _ csv _ i1) as [[[byCC sk]|[]] i2]; try done; try case_decide;
      unfold fret in Hb; simplify_eq/=.
    - destruct (add_countries_made b byCC ins M) as [ins' M']. by exists ins'.
    - exists []; by rewrite app_nil_r.
    - exists []; by rewrite app_nil_r. }
  split.
  - intros a Hl Ha. destruct (P1 a Hl Ha) as [src Hin]. unfold Match. rewrite M', lpm_longest.
    eapply (best_found _ _ (full_prefix (Unmap a), src)); [|apply full_contains].
    apply elem_of_app. left. by apply (Hp _ Hin).
  - intros Hl. unfold MatchTunnel. rewrite Hsn. apply Hn. by apply P2.
Qed.
End reload_theorems.

(** ** Witnesses: a file that is rewritten while it is being loaded *)
#[local] Existing Instance ascii_only_case.
Definition sample_addr : Addr := MkAddr false 3221225985.
Definition sample_ParseAddr (s : string) : option Addr := if String.eqb s "192.0.2.1" then Some sample_addr else None.
Definition newline : string := String "010"%char "".
Definition sample_old : string := "ip 192.0.2.1" +:+ newline.
Definition sample_new : string := sample_old +:+ "tunnel-name abc # abuse" +:+ newline.
Definition sample_file (k : nat) : file :=
  if (k <? 2)%nat then Regular sample_old 100 else Regular sample_new 200.
Definition sample_history : history := λ k p, if String.eqb p "bans" then sample_file k else Absent.
Definition sample_watcher : watcher (Tb := list (Prefix * Source)) :=
  MkWatcher (MkSnapshot [] ∅) ["bans"] "" None.
Definition sample_tick (h : history) (w : watcher (Tb := list (Prefix * Source))) :=
  tick sample_ParseAddr (λ _, None) (λ _ _, None) (λ _, []) h w 0%nat.
Definition sample_build (g : string → file) (w : watcher (Tb := list (Prefix * Source))) (req : gset string) i :=
  build sample_ParseAddr (λ _, None) (λ _ _, None) (λ _, []) (λ _, g) (files_ w) (csv_ w) req i.

Lemma sample_honest : honest sample_history sample_watcher.
Proof.
  split; [done|]. intros p i k j Hp Hikj. assert (p = "bans") as -> by (cbn in Hp; set_solver).
  unfold sample_history, sample_file. simpl.
  destruct (Nat.ltb_spec i 2), (Nat.ltb_spec k 2), (Nat.ltb_spec j 2); try done; lia.
Qed.

Lemma torn_read_never_committed_witness :
  let '(b, w', j) := sample_tick sample_history sample_watcher in
  b = true ∧ j = 5%nat ∧ ∃ k, (0 ≤ k ≤ j)%nat ∧
    ∀ i', (sample_build (sample_history k) sample_watcher (required sample_watcher) i').1 = Some (e_current w').
Proof.
  destruct (sample_tick sample_history sample_watcher) as [[b w'] j] eqn:E.
  assert (b = true ∧ j = 5%nat) as [-> ->].
  { apply (f_equal (λ r, (r.1.1, r.2))) in E. vm_compute in E. by simplify_eq. }
  split; [done|]. split; [done|].
  apply (torn_read_never_committed sample_ParseAddr (λ _, None) (λ _ _, None) (λ _, [])
           sample_history sample_watcher 0%nat w' 5%nat); [apply sample_honest|exact E].
Defined.

(** The file is gone after a load. *)
Definition sample_loaded : watcher (Tb := list (Prefix * Source)) :=
  MkWatcher (MkSnapshot [] ∅) ["bans"] "" (Some {["bans" := MkState true 100 13]}).

Lemma reload_never_drops_a_file_witness :
  required sample_loaded = {["bans"]} ∧ sample_tick (λ _ _, Absent) sample_loaded = ((false, sample_loaded), 1%nat) ∧
  required sample_loaded ⊆ required sample_loaded ∧ (false = false → sample_loaded = sample_loaded) ∧
  ∀ p, p ∈ required sample_loaded →
    (∀ k, (0 ≤ k)%nat → exists_ (stat_of Absent) = false) → sample_loaded = sample_loaded.
Proof.
  split; [by vm_compute|]. split; [by vm_compute|].
  apply (reload_never_drops_a_file sample_ParseAddr (λ _, None) (λ _ _, None) (λ _, [])
           (λ _ _, Absent) sample_loaded 0%nat false sample_loaded 1%nat). by vm_compute.
Defined.

Lemma ban_lines_take_effect_witness :
  ∃ snap, (sample_build (sample_history 2%nat) sample_watcher ∅ 0%nat).1 = Some snap ∧
    is_Some (Match snap (Unmap sample_addr)) ∧ is_Some (MatchTunnel snap "abc").
Proof.
  destruct ((sample_build (sample_history 2%nat) sample_watcher ∅ 0%nat).1) as [snap|] eqn:E; [|by vm_compute in E].
  exists snap. split; [done|].
  destruct (ban_lines_take_effect sample_ParseAddr (λ _, None) (λ _ _, None) (λ _, [])
    (sample_history 2%nat) ["bans"] "" ∅ 0%nat snap "bans" sample_new 200 "ip 192.0.2.1" "192.0.2.1") as [H1 _];
    [exact E|set_solver|done|apply (bool_decide_unpack _); by vm_compute|].
  destruct (ban_lines_take_effect sample_ParseAddr (λ _, None) (λ _ _, None) (λ _, [])
    (sample_history 2%nat) ["bans"] "" ∅ 0%nat snap "bans" sample_new 200 "tunnel-name abc # abuse" "abc") as [_ H2];
    [exact E|set_solver|done|apply (bool_decide_unpack _); by vm_compute|].
  split; [by apply H1|by apply H2].
Defined.
End Ban.
