(* ===== verification/Attest.v ===== *)
(** * Android key attestation

    [internal/attest]: the KeyDescription decoder ([keydescription.go]), the
    seven-point predicate ([verify.go]) and the signer allowlist with its
    reload ([signers.go]).  Go's [encoding/asn1], X.509 path validation and hex
    decoding are parameters ([ASN1], [verify_chain], [hex_ok]); a certificate is
    the parts the code reads. *)
From Stdlib Require Import ZArith Lia Strings.Byte Ascii String.
From S2P Require Import Prelude GoStr.
Local Open Scope string_scope.
Local Open Scope list_scope.
Local Open Scope Z_scope.

Module Attest.

(** ** keydescription.go *)
Definition SecuritySoftware : Z := 0.
Definition SecurityTrustedEnvironment : Z := 1.
Definition SecurityStrongBox : Z := 2.
Definition BootVerified : Z := 0.

Definition tagRootOfTrust : Z := 704.
Definition tagOSVersion : Z := 705.
Definition tagPatchLevel : Z := 706.
Definition tagAttestationAppID : Z := 709.
Definition tagVendorPatch : Z := 718.
Definition tagBootPatch : Z := 719.

(** The ASN.1 structures the code unmarshals. *)
Record keyDescription := {
  kd_AttestationVersion : Z;
  kd_AttestationSecurityLevel : Z;
  kd_KeymasterVersion : Z;
  kd_AttestationChallenge : bytes;
  kd_SoftwareEnforced : bytes;
  kd_TeeEnforced : bytes
}.
Record attestationApplicationID := {
  PackageInfos : list (bytes * Z);
  aaid_SignatureDigests : list bytes
}.
Record rootOfTrust := { rot_DeviceLocked : bool; rot_VerifiedBootState : Z }.

(** A tagged element and what follows it; each decoder is [asn1.Unmarshal] at
    the type in question. *)
Class ASN1 := {
  raw_value : bytes → option (Z * bytes * bytes);
  dec_keyDescription : bytes → option keyDescription;
  dec_rootOfTrust : bytes → option rootOfTrust;
  dec_octets : bytes → option bytes;
  dec_appID : bytes → option attestationApplicationID;
  dec_int : bytes → option Z
}.
(** An element takes at least its header. *)
Class ASN1Laws `{ASN1} : Prop :=
  raw_value_consumes : ∀ b tag v rest, raw_value b = Some (tag, v, rest) → (length rest < length b)%nat.

Record KeyDescription := {
  AttestationVersion : Z; KeymasterVersion : Z; SecurityLevel : Z; Challenge : bytes;
  Package : string; PackageVersion : Z; SignatureDigests : list bytes;
  DeviceLocked : bool; VerifiedBootState : Z; HasRootOfTrust : bool;
  OSVersion : Z; OSPatch : Z; VendorPatch : Z; BootPatch : Z
}.

Definition with_root (r : rootOfTrust) (k : KeyDescription) : KeyDescription := {|
  AttestationVersion := AttestationVersion k; KeymasterVersion := KeymasterVersion k;
  SecurityLevel := SecurityLevel k; Challenge := Challenge k; Package := Package k;
  PackageVersion := PackageVersion k; SignatureDigests := SignatureDigests k;
  DeviceLocked := rot_DeviceLocked r; VerifiedBootState := rot_VerifiedBootState r; HasRootOfTrust := true;
  OSVersion := OSVersion k; OSPatch := OSPatch k; VendorPatch := VendorPatch k; BootPatch := BootPatch k |}.

Definition with_app (a : attestationApplicationID) (k : KeyDescription) : KeyDescription := {|
  AttestationVersion := AttestationVersion k; KeymasterVersion := KeymasterVersion k;
  SecurityLevel := SecurityLevel k; Challenge := Challenge k;
  Package := match PackageInfos a with (n, _) :: _ => str_of_bytes n | [] => Package k end;
  PackageVersion := match PackageInfos a with (_, v) :: _ => v | [] => PackageVersion k end;
  SignatureDigests := SignatureDigests k ++ aaid_SignatureDigests a;
  DeviceLocked := DeviceLocked k; VerifiedBootState := VerifiedBootState k; HasRootOfTrust := HasRootOfTrust k;
  OSVersion := OSVersion k; OSPatch := OSPatch k; VendorPatch := VendorPatch k; BootPatch := BootPatch k |}.

Definition with_levels (os pl vp bp : Z) (k : KeyDescription) : KeyDescription := {|
  AttestationVersion := AttestationVersion k; KeymasterVersion := KeymasterVersion k;
  SecurityLevel := SecurityLevel k; Challenge := Challenge k; Package := Package k;
  PackageVersion := PackageVersion k; SignatureDigests := SignatureDigests k;
  DeviceLocked := DeviceLocked k; VerifiedBootState := VerifiedBootState k; HasRootOfTrust := HasRootOfTrust k;
  OSVersion := os; OSPatch := pl; VendorPatch := vp; BootPatch := bp |}.

Section decode.
Context `{ASN1}.

(** One entry of an authorization list; [None] is an error. *)
Definition auth_entry (tag : Z) (v : bytes) (tee : bool) (out : KeyDescription) : option KeyDescription :=
  if tag =? tagRootOfTrust then
    if negb tee then Some out
    else r ← dec_rootOfTrust v; Some (with_root r out)
  else if tag =? tagAttestationAppID then
    inner ← dec_octets v; a ← dec_appID inner; Some (with_app a out)
  else if tag =? tagOSVersion then
    n ← dec_int v; Some (with_levels n (OSPatch out) (VendorPatch out) (BootPatch out) out)
  else if tag =? tagPatchLevel then
    n ← dec_int v; Some (with_levels (OSVersion out) n (VendorPatch out) (BootPatch out) out)
  else if tag =? tagVendorPatch then
    n ← dec_int v; Some (with_levels (OSVersion out) (OSPatch out) n (BootPatch out) out)
  else if tag =? tagBootPatch then
    n ← dec_int v; Some (with_levels (OSVersion out) (OSPatch out) (VendorPatch out) n out)
  else Some out.

Fixpoint walk_loop (fuel : nat) (rest : bytes) (out : KeyDescription) (tee : bool) : option KeyDescription :=
  match rest, fuel with
  | [], _ => Some out
  | _, O => None
  | _, S fuel' =>
      match raw_value rest with
      | None => None
      | Some (tag, v, rest') =>
          out' ← auth_entry tag v tee out; walk_loop fuel' rest' out' tee
      end
  end.

(** Each element takes a byte, so the length is enough fuel. *)
Definition walkAuthList (raw : bytes) (out : KeyDescription) (tee : bool) : option KeyDescription :=
  walk_loop (length raw) raw out tee.

Definition ParseKeyDescription (ext : option bytes) : option KeyDescription :=
  raw ← ext;
  kd ← dec_keyDescription raw;
  let out := {| AttestationVersion := kd_AttestationVersion kd; KeymasterVersion := kd_KeymasterVersion kd;
                SecurityLevel := kd_AttestationSecurityLevel kd; Challenge := kd_AttestationChallenge kd;
                Package := ""; PackageVersion := 0; SignatureDigests := []; DeviceLocked := false;
                VerifiedBootState := 0; HasRootOfTrust := false;
                OSVersion := 0; OSPatch := 0; VendorPatch := 0; BootPatch := 0 |} in
  out ← walkAuthList (kd_SoftwareEnforced kd) out false;
  walkAuthList (kd_TeeEnforced kd) out true.
End decode.

(** ** verify.go *)
Inductive attest_error :=
| ErrChainUntrusted | ErrChallengeMismatch | ErrSignerNotAllowed | ErrSecurityLevel
| ErrBootState | ErrDeviceUnlocked | ErrRevoked | ErrStatusStale | ErrEmptyChain.

Record DeviceInfo := {
  di_OSVersion : Z; di_OSPatch : Z; di_VendorPatch : Z; di_BootPatch : Z;
  di_AttestationVersion : Z; di_KeymintVersion : Z; di_SecurityLevel : string
}.

(** The parts of a certificate the verifier reads: its DER, its serial in hex,
    its key and the attestation extension. *)
Record Certificate (K : Type) := MkCert {
  Raw : bytes; SerialHex : string; PublicKey : K; AttestExt : option bytes
}.
Arguments MkCert {K} _ _ _ _.
Arguments Raw {K} _.
Arguments SerialHex {K} _.
Arguments PublicKey {K} _.
Arguments AttestExt {K} _.

Record Result (K : Type) := MkResult { r_Package : string; r_Device : DeviceInfo; LeafPublicKey : K }.
Arguments MkResult {K} _ _ _.
Arguments r_Package {K} _.
Arguments r_Device {K} _.
Arguments LeafPublicKey {K} _.

Definition bytesEqualConst (a b : bytes) : bool :=
  if (length a =? 0)%nat || (length b =? 0)%nat then false else bool_decide (a = b).

Definition securityLevelString (level : Z) : string :=
  if level =? SecurityStrongBox then "strongbox"
  else if level =? SecurityTrustedEnvironment then "tee" else "software".

Section verify.
Context `{ASN1} `{UnicodeCase} {K Pool : Type}.
(** [leaf.Verify] against a root pool and intermediates at a time. *)
Context (verify_chain : Pool → Certificate K → list (Certificate K) → Z → bool).

(** The snapshots the verifier reads: the roots, the allowed digests, when the
    revocation list was fetched ([None] for never) and what it revokes. *)
Record Verifier := {
  roots : option Pool;
  signers : option (gset string);
  fetchedAt : option Z;
  revoked : gset string;
  maxStale : Z
}.

Definition Allowed (v : Verifier) (digestHex : string) : bool :=
  match signers v with
  | None => false
  | Some set => bool_decide (ToLower digestHex ∈ set)
  end.

Definition signerAllowed (v : Verifier) (digests : list bytes) : bool :=
  existsb (λ d, Allowed v (hex_encode d)) digests.

Fixpoint has_dup (seen : list bytes) (chain : list (Certificate K)) : bool :=
  match chain with
  | [] => false
  | c :: chain' => bool_decide (Raw c ∈ seen) || has_dup (Raw c :: seen) chain'
  end.

Definition stale (v : Verifier) (now : Z) : bool :=
  match fetchedAt v with None => true | Some t => maxStale v <? now - t end.

Definition device_of (kd : KeyDescription) : DeviceInfo := {|
  di_OSVersion := OSVersion kd; di_OSPatch := OSPatch kd; di_VendorPatch := VendorPatch kd;
  di_BootPatch := BootPatch kd; di_AttestationVersion := AttestationVersion kd;
  di_KeymintVersion := KeymasterVersion kd; di_SecurityLevel := securityLevelString (SecurityLevel kd) |}.

Definition Verify (v : Verifier) (chain : list (Certificate K)) (nonce : bytes) (now : Z)
    : result attest_error (Result K) :=
  match chain with
  | [] => Err ErrEmptyChain
  | leaf :: inter =>
      if has_dup [] chain then Err ErrChainUntrusted
      else match roots v with
      | None => Err ErrChainUntrusted
      | Some pool =>
          if negb (verify_chain pool leaf inter now) then Err ErrChainUntrusted
          else match ParseKeyDescription (AttestExt leaf) with
          | None => Err ErrChainUntrusted
          | Some kd =>
              if negb (bytesEqualConst (Challenge kd) nonce) then Err ErrChallengeMismatch
              else if negb (signerAllowed v (SignatureDigests kd)) then Err ErrSignerNotAllowed
              else if SecurityLevel kd <? SecurityTrustedEnvironment then Err ErrSecurityLevel
              else if negb (HasRootOfTrust kd) then Err ErrBootState
              else if negb (VerifiedBootState kd =? BootVerified) then Err ErrBootState
              else if negb (DeviceLocked kd) then Err ErrDeviceUnlocked
              else if stale v now then Err ErrStatusStale
              else if existsb (λ c, bool_decide (SerialHex c ∈ revoked v)) chain then Err ErrRevoked
              else Ok (MkResult (Package kd) (device_of kd) (PublicKey leaf))
          end
      end
  end.
End verify.

(** ** signers.go *)
Section signers.
Context `{UnicodeCase} (hex_ok : string → bool).

Definition digest_line (raw : string) : option string :=
  let line := TrimSpace raw in
  let line := match IndexByte line "#"%char with Some i => TrimSpace (str_take i line) | None => line end in
  if String.eqb line "" then None else Some (ToLower line).

(** [lines] are the scanner's; [None] is an invalid digest. *)
Fixpoint parse_digest_lines (lines : list string) (set : gset string) : option (gset string) :=
  match lines with
  | [] => Some set
  | raw :: lines' =>
      match digest_line raw with
      | None => parse_digest_lines lines' set
      | Some d => if hex_ok d then parse_digest_lines lines' ({[d]} ∪ set) else None
      end
  end.

Definition parseDigests (lines : list string) : option (gset string) := parse_digest_lines lines ∅.

(** The allowlist file as one poll of [Watch] finds it. *)
Inductive signer_file :=
| FileGone                                       (* the stat fails *)
| FileUnreadable (mtime : Z)
| FileLines (mtime : Z) (lines : list string).

Record SignerAllowlist := { set_ : gset string; mtime_ : Z }.

Definition reload (a : SignerAllowlist) (f : signer_file) : SignerAllowlist :=
  match f with
  | FileLines mt lines =>
      match parseDigests lines with
      | Some s => {| set_ := s; mtime_ := mt |}
      | None => a
      end
  | _ => a
  end.

(** One tick of [Watch]; the file may change between its stat and the reload. *)
Definition watch_signers (a : SignerAllowlist) (at_stat at_reload : signer_file) : SignerAllowlist :=
  match at_stat with
  | FileGone => a
  | FileUnreadable mt | FileLines mt _ => if mt =? mtime_ a then a else reload a at_reload
  end.
End signers.

(** ** The predicate *)
Section theorems.
Context `{ASN1} `{UnicodeCase} {K Pool : Type}.
Context (verify_chain : Pool → Certificate K → list (Certificate K) → Z → bool).

(** The entries of an authorization list. *)
Inductive has_entry : bytes → Z → bytes → Prop :=
| has_here b tag v rest : raw_value b = Some (tag, v, rest) → has_entry b tag v
| has_later b tag v tag' v' rest :
    raw_value b = Some (tag', v', rest) → has_entry rest tag v → has_entry b tag v.

Lemma auth_entry_root tag v tee out out' : auth_entry tag v tee out = Some out' →
  (HasRootOfTrust out' = HasRootOfTrust out ∧ DeviceLocked out' = DeviceLocked out ∧
   VerifiedBootState out' = VerifiedBootState out) ∨
  (tee = true ∧ tag = tagRootOfTrust ∧ ∃ r, dec_rootOfTrust v = Some r ∧
     DeviceLocked out' = rot_DeviceLocked r ∧ VerifiedBootState out' = rot_VerifiedBootState r).
Proof.
  unfold auth_entry. destruct (Z.eqb_spec tag tagRootOfTrust) as [->|].
  - destruct tee; simpl; [|intros; simplify_eq; auto].
    destruct (dec_rootOfTrust v) as [r|] eqn:E; simpl; [|done]. intros; simplify_eq. right.
    split; [done|]. split; [done|]. by exists r.
  - intros He. left. repeat case_match; simpl in He; simplify_option_eq; done.
Qed.

Lemma auth_entry_security tag v tee out out' : auth_entry tag v tee out = Some out' →
  SecurityLevel out' = SecurityLevel out ∧ Challenge out' = Challenge out.
Proof. unfold auth_entry. intros He. repeat case_match; simpl in He; simplify_option_eq; done. Qed.

(** Software-enforced lists say nothing about boot. *)
Lemma walk_software fuel rest out out' : walk_loop fuel rest out false = Some out' →
  HasRootOfTrust out' = HasRootOfTrust out.
Proof.
  revert rest out. induction fuel as [|fuel IH]; intros [|b rest] out; simpl; try (by intros; simplify_eq).
  destruct (raw_value _) as [[[tag v] rest']|]; [|done].
  destruct (auth_entry tag v false out) as [out1|] eqn:E; simpl; [|done]. intros Hw.
  rewrite (IH _ _ Hw). by destruct (auth_entry_root _ _ _ _ _ E) as [[-> _]|[? _]].
Qed.

(** A root of trust comes from an entry of the TEE list, the last such. *)
Lemma walk_tee fuel rest out out' : walk_loop fuel rest out true = Some out' →
  (HasRootOfTrust out' = HasRootOfTrust out ∧ DeviceLocked out' = DeviceLocked out ∧
   VerifiedBootState out' = VerifiedBootState out) ∨
  ∃ v r, has_entry rest tagRootOfTrust v ∧ dec_rootOfTrust v = Some r ∧
    DeviceLocked out' = rot_DeviceLocked r ∧ VerifiedBootState out' = rot_VerifiedBootState r.
Proof.
  revert rest out. induction fuel as [|fuel IH]; intros [|b rest] out; simpl; try (intros; simplify_eq; by left).
  destruct (raw_value _) as [[[tag v] rest']|] eqn:Er; [|done].
  destruct (auth_entry tag v true out) as [out1|] eqn:E; simpl; [|done]. intros Hw.
  destruct (IH _ _ Hw) as [(I1 & I2 & I3)|(v' & r & Hh & Hr & I1 & I2)].
  - destruct (auth_entry_root _ _ _ _ _ E) as [(A1 & A2 & A3)|(_ & -> & r & Hr & A2 & A3)].
    + left. by rewrite I1, I2, I3.
    + right. exists v, r. split; [by eapply has_here|]. by rewrite I2, I3.
  - right. exists v', r. split; [by eapply has_later|done].
Qed.

Lemma walk_security fuel rest out tee out' : walk_loop fuel rest out tee = Some out' →
  SecurityLevel out' = SecurityLevel out ∧ Challenge out' = Challenge out.
Proof.
  revert rest out. induction fuel as [|fuel IH]; intros [|b rest] out; simpl; try (by intros; simplify_eq).
  destruct (raw_value _) as [[[tag v] rest']|]; [|done].
  destruct (auth_entry tag v tee out) as [out1|] eqn:E; simpl; [|done]. intros Hw.
  destruct (IH _ _ Hw) as [-> ->]. by apply auth_entry_security in E.
Qed.

(** The length of a list is enough fuel to walk it. *)
Lemma walk_fuel `{!ASN1Laws} fuel fuel' rest out tee :
  (length rest ≤ fuel)%nat → (length rest ≤ fuel')%nat →
  walk_loop fuel rest out tee = walk_loop fuel' rest out tee.
Proof.
  revert fuel' rest out. induction fuel as [|fuel IH]; intros [|fuel'] [|b rest] out Hf Hf'; simpl in *; try done; try lia.
  destruct (raw_value (b :: rest)) as [[[tag v] rest']|] eqn:E; [|done].
  apply raw_value_consumes in E. simpl in E.
  destruct (auth_entry tag v tee out); simpl; [|done]. apply IH; lia.
Qed.

Lemma parse_inv ext kd : ParseKeyDescription ext = Some kd →
  ∃ raw k, ext = Some raw ∧ dec_keyDescription raw = Some k ∧
    SecurityLevel kd = kd_AttestationSecurityLevel k ∧ Challenge kd = kd_AttestationChallenge k ∧
    (HasRootOfTrust kd = true → ∃ v r, has_entry (kd_TeeEnforced k) tagRootOfTrust v ∧
       dec_rootOfTrust v = Some r ∧ DeviceLocked kd = rot_DeviceLocked r ∧
       VerifiedBootState kd = rot_VerifiedBootState r).
Proof.
  unfold ParseKeyDescription. destruct ext as [raw|]; simpl; [|done].
  destruct (dec_keyDescription raw) as [k|] eqn:Ek; simpl; [|done].
  set (out0 := {| AttestationVersion := _ |}). unfold walkAuthList.
  destruct (walk_loop _ (kd_SoftwareEnforced k) out0 false) as [out1|] eqn:E1; simpl; [|done]. intros E2.
  pose proof (walk_security _ _ _ _ _ E1) as [S1 C1]. pose proof (walk_security _ _ _ _ _ E2) as [S2 C2].
  exists raw, k. split; [done|]. split; [done|]. split; [by rewrite S2, S1|]. split; [by rewrite C2, C1|].
  intros Hr. destruct (walk_tee _ _ _ _ E2) as [(T1 & _)|T]; [|done].
  rewrite T1, (walk_software _ _ _ _ E1) in Hr. done.
Qed.

Lemma has_dup_false seen (chain : list (Certificate K)) :
  has_dup seen chain = false → NoDup (map Raw chain) ∧ ∀ c, c ∈ chain → Raw c ∉ seen.
Proof.
  revert seen. induction chain as [|c chain IH]; intros seen; simpl; [split; [constructor|set_solver]|].
  intros [H1 H2]%orb_false_elim. zbool. destruct (IH _ H2) as [I1 I2]. split.
  - constructor; [|done]. intros (c' & Hc & Hin)%list_elem_of_fmap. apply (I2 c' Hin). rewrite Hc. left.
  - intros c' [->|Hin]%elem_of_cons; [done|]. specialize (I2 c' Hin). set_solver.
Qed.

(** C9. What an accepted attestation proves: the chain has no repeated certificate and
    verifies against the configured roots; the leaf's challenge is the non-empty nonce;
    the security level is at least that of a trusted environment; the hardware-enforced
    list itself carries a root of trust that says locked and verified; an app signing
    digest is in the allowlist; the revocation list is fresh and revokes no certificate
    of the chain; and the key returned is the leaf's. *)
Theorem Verify_accepts_only v chain nonce now r :
  Verify (Pool := Pool) verify_chain v chain nonce now = Ok r →
  ∃ leaf inter pool raw k kd,
    chain = leaf :: inter ∧ NoDup (map Raw chain) ∧
    roots v = Some pool ∧ verify_chain pool leaf inter now = true ∧
    AttestExt leaf = Some raw ∧ dec_keyDescription raw = Some k ∧
    ParseKeyDescription (AttestExt leaf) = Some kd ∧
    kd_AttestationChallenge k = nonce ∧ nonce ≠ [] ∧
    SecurityTrustedEnvironment ≤ kd_AttestationSecurityLevel k ∧
    (∃ v' rot, has_entry (kd_TeeEnforced k) tagRootOfTrust v' ∧ dec_rootOfTrust v' = Some rot ∧
       rot_DeviceLocked rot = true ∧ rot_VerifiedBootState rot = BootVerified) ∧
    (∃ d set, d ∈ SignatureDigests kd ∧ signers v = Some set ∧ ToLower (hex_encode d) ∈ set) ∧
    (∃ t, fetchedAt v = Some t ∧ now - t ≤ maxStale v) ∧
    (∀ c, c ∈ chain → SerialHex c ∉ revoked v) ∧
    LeafPublicKey r = PublicKey leaf.
Proof.
  unfold Verify. destruct chain as [|leaf inter]; [done|].
  destruct (has_dup [] (leaf :: inter)) eqn:Hd; [done|]. destruct (has_dup_false _ _ Hd) as [Hnd _].
  destruct (roots v) as [pool|] eqn:Hp; [|done].
  destruct (verify_chain pool leaf inter now) eqn:Hv; simpl; [|done].
  destruct (ParseKeyDescription (AttestExt leaf)) as [kd|] eqn:Hk; [|done].
  destruct (parse_inv _ _ Hk) as (raw & k & Hext & Hdec & Hsec & Hch & Hrot).
  destruct (bytesEqualConst (Challenge kd) nonce) eqn:Hc; simpl; [|done].
  destruct (signerAllowed v (SignatureDigests kd)) eqn:Hs; simpl; [|done].
  destruct (Z.ltb_spec (SecurityLevel kd) SecurityTrustedEnvironment); [done|].
  destruct (HasRootOfTrust kd); simpl; [|done].
  destruct (Z.eqb_spec (VerifiedBootState kd) BootVerified) as [Hb|]; simpl; [|done].
  destruct (DeviceLocked kd) eqn:Hl; simpl; [|done].
  destruct (stale v now) eqn:Hst; [done|].
  destruct (_ || existsb _ _) eqn:Hr; [done|]. intros; simplify_eq.
  destruct (Hrot eq_refl) as (v' & rot & R1 & R2 & R3 & R4).
  unfold bytesEqualConst in Hc. destruct (Nat.eqb_spec (length (Challenge kd)) 0); [done|].
  destruct (Nat.eqb_spec (length nonce) 0) as [|Hnn]; [done|]. simpl in Hc. zbool.
  unfold signerAllowed in Hs. apply existsb_exists in Hs as (d & Hdin & Hall). unfold Allowed in Hall.
  destruct (signers v) as [set|] eqn:Hset; [|done]. zbool.
  unfold stale in Hst. destruct (fetchedAt v) as [t|] eqn:Hf; [|done]. zbool.
  exists leaf, inter, pool, raw, k, kd. do 7 (split; [done|]). split; [congruence|].
  split; [by intros ->|]. split; [by rewrite <- Hsec|]. split; [exists v', rot; split; [done|]; split; [done|]; split; congruence|].
  split; [exists d, set; split; [by apply list_elem_of_In|done]|]. split; [exists t; split; [done|lia]|]. split; [|done].
  intros c [->|Hin]%elem_of_cons Hrev; [done|].
  assert (existsb (λ c, bool_decide (SerialHex c ∈ revoked v)) inter = true) as He; [|congruence].
  apply existsb_exists. exists c. split; [by apply list_elem_of_In|]. by apply bool_decide_eq_true.
Qed.
End theorems.

(** ** Witness: a decoder of two known elements *)
#[local] Existing Instance ascii_only_case.
#[local] Instance sample_asn1 : ASN1 := {
  raw_value b := match b with
                 | x00 :: rest => Some (tagRootOfTrust, [x00], rest)
                 | x01 :: rest => Some (tagAttestationAppID, [x01], rest)
                 | _ => None
                 end;
  dec_keyDescription _ := Some {|
    kd_AttestationVersion := 300; kd_AttestationSecurityLevel := 1; kd_KeymasterVersion := 300;
    kd_AttestationChallenge := [x2a]; kd_SoftwareEnforced := [x01]; kd_TeeEnforced := [x00] |};
  dec_rootOfTrust _ := Some {| rot_DeviceLocked := true; rot_VerifiedBootState := 0 |};
  dec_octets b := Some b;
  dec_appID _ := Some {| PackageInfos := []; aaid_SignatureDigests := [[xab; xcd]] |};
  dec_int _ := None
}.
Definition sample_verifier : Verifier (Pool := unit) := {|
  roots := Some tt; signers := Some {["abcd"]}; fetchedAt := Some 0; revoked := {["ff"]}; maxStale := hour |}.
Definition sample_chain : list (Certificate unit) :=
  [MkCert [x01] "01" tt (Some [x00]); MkCert [x02] "02" tt None].

Lemma Verify_accepts_only_witness :
  ∃ r, Verify (λ _ _ _ _, true) sample_verifier sample_chain [x2a] minute = Ok r ∧
  ∃ leaf inter pool raw k kd,
    sample_chain = leaf :: inter ∧ NoDup (map Raw sample_chain) ∧
    roots sample_verifier = Some pool ∧ true = true ∧
    AttestExt leaf = Some raw ∧ dec_keyDescription raw = Some k ∧
    ParseKeyDescription (AttestExt leaf) = Some kd ∧
    kd_AttestationChallenge k = [x2a] ∧ [x2a] ≠ [] ∧
    SecurityTrustedEnvironment ≤ kd_AttestationSecurityLevel k ∧
    (∃ v' rot, has_entry (kd_TeeEnforced k) tagRootOfTrust v' ∧ dec_rootOfTrust v' = Some rot ∧
       rot_DeviceLocked rot = true ∧ rot_VerifiedBootState rot = BootVerified) ∧
    (∃ d set, d ∈ SignatureDigests kd ∧ signers sample_verifier = Some set ∧ ToLower (hex_encode d) ∈ set) ∧
    (∃ t, fetchedAt sample_verifier = Some t ∧ minute - t ≤ maxStale sample_verifier) ∧
    (∀ c, c ∈ sample_chain → SerialHex c ∉ revoked sample_verifier) ∧
    LeafPublicKey r = PublicKey leaf.
Proof.
  destruct (Verify (λ _ _ _ _, true) sample_verifier sample_chain [x2a] minute) as [r|e] eqn:E;
    [|by vm_compute in E].
  exists r. split; [done|].
  by apply (Verify_accepts_only (λ _ _ _ _, true) sample_verifier sample_chain [x2a] minute r).
Defined.
End Attest.
