(* ===== verification/Enroll.v ===== *)
(** * Attested enrollment and issuance

    [internal/enroll] ([enroll.go], [nonce.go]) with the registry record of
    [internal/store/name_record.go]: single-use nonces, the attestation gate
    with key binding, the name claim, the per-address limits, phase 1 ([Enroll])
    and phase 2 ([Issue]) with the issuance lock and weekly cap of [Limiter].

    The object store, the CA's signature, the ACME issuer and the public-key
    operations belong to other packages or services: [NameStore], [sign],
    [obtain]/[renew] and the fields of a CSR.  Log lines are not modelled;
    rejections, evidence and attestation verdicts are the [trace]. *)
From Stdlib Require Import ZArith Lia Strings.Byte Ascii String.
From S2P Require Import Prelude GoStr Valkey Limiter Attest.
Local Open Scope string_scope.
Local Open Scope list_scope.
Local Open Scope Z_scope.

Module Enroll.
Import Limiter.

(** ** Registry records ([store/name_record.go]) *)
Record CertInfo := { ci_CA : string; ci_Serial : string; ci_NotBefore : Z; ci_NotAfter : Z; ci_ARIID : string }.
Record CertRecord := { cr_Serial : string; cr_NotBefore : Z; cr_NotAfter : Z; cr_ARIID : string }.

Record NameRecord := {
  Schema : Z;
  EnrolledAt : option Z;               (* [None] is the zero time *)
  LastRenewedAt : option Z;
  IdentityKeyFP : string;
  CA : string;
  Cert : CertRecord;
  Device : option Attest.DeviceInfo    (* [None] is the zero value *)
}.

Definition no_cert : CertRecord := {| cr_Serial := ""; cr_NotBefore := 0; cr_NotAfter := 0; cr_ARIID := "" |}.

Definition SetCert (info : CertInfo) (r : NameRecord) : NameRecord := {|
  Schema := Schema r; EnrolledAt := EnrolledAt r; LastRenewedAt := LastRenewedAt r;
  IdentityKeyFP := IdentityKeyFP r; CA := ci_CA info;
  Cert := {| cr_Serial := ci_Serial info; cr_NotBefore := ci_NotBefore info;
             cr_NotAfter := ci_NotAfter info; cr_ARIID := ci_ARIID info |};
  Device := Device r |}.

Definition CertInfo_of (r : NameRecord) : CertInfo := {|
  ci_CA := CA r; ci_Serial := cr_Serial (Cert r); ci_NotBefore := cr_NotBefore (Cert r);
  ci_NotAfter := cr_NotAfter (Cert r); ci_ARIID := cr_ARIID (Cert r) |}.

Inductive store_error := StoreNotFound | StoreFails.

Class NameStore (N : Type) := {
  ns_get : string → N → result store_error NameRecord * N;
  ns_put : string → NameRecord → N → bool * N;
  ns_delete : string → N → bool * N
}.

(** ** Requests *)
Record CSR (K : Type) := MkCSR {
  CommonName : string; DNSNames : list string; IPAddresses : list string;
  EmailAddresses : list string; URIs : list string;
  csr_key : K; csr_signed : bool              (* CheckSignature succeeds *)
}.
Arguments MkCSR {K} _ _ _ _ _ _ _.
Arguments CommonName {K} _.
Arguments DNSNames {K} _.
Arguments IPAddresses {K} _.
Arguments EmailAddresses {K} _.
Arguments URIs {K} _.
Arguments csr_key {K} _.
Arguments csr_signed {K} _.

Record Request (K : Type) := MkRequest {
  Nonce_ : bytes; AttestChain : list (Attest.Certificate K); IdentityCSR : CSR K; TLSCSR : CSR K
}.
Arguments MkRequest {K} _ _ _ _.
Arguments Nonce_ {K} _.
Arguments AttestChain {K} _.
Arguments IdentityCSR {K} _.
Arguments TLSCSR {K} _.

Record Result_ := { Name_ : string; IdentityCert : string; PublicCert : string; ResultCA : string }.
Record Error := MkError { Reason : string; Retryable : bool; RetryAfter : Z }.

Definition refusal (reason : string) : bool :=
  negb (existsb (String.eqb reason)
    ["internal"; "name_unavailable"; "identity_sign_failed"; "acme_rate_limited"; "acme_transient"; "acme_failed"]).

Inductive sign_error := ErrUnsupportedKeyType | SignFailed.

Definition signError (e : sign_error) : Error :=
  match e with
  | ErrUnsupportedKeyType => MkError "unsupported_key_type" false 0
  | SignFailed => MkError "identity_sign_failed" true 0
  end.

(** Issuer errors ([acme/issuer.go]); [Unclassified] carries no class. *)
Inductive issuer_error :=
| RateLimited (retry : Z) | Transient | Permanent | Local (retry : Z) | Unclassified.

Definition IssuerClass (e : issuer_error) : string :=
  match e with
  | RateLimited _ => "rate-limited"
  | Transient => "transient"
  | Permanent => "permanent"
  | Local _ => "local"
  | Unclassified => ""
  end.

Definition classifyIssuerError (e : issuer_error) : Error :=
  let retry := match e with RateLimited r | Local r => r | _ => 0 end in
  if String.eqb (IssuerClass e) "rate-limited" then MkError "acme_rate_limited" true retry
  else if String.eqb (IssuerClass e) "transient" then MkError "acme_transient" true minute
  else MkError "acme_failed" false 0.

Definition attestReason (e : Attest.attest_error) : string :=
  match e with
  | Attest.ErrChainUntrusted => "attest-untrusted"
  | Attest.ErrChallengeMismatch => "attest-challenge"
  | Attest.ErrSignerNotAllowed => "attest-signer"
  | Attest.ErrSecurityLevel => "attest-security-level"
  | Attest.ErrBootState => "attest-boot"
  | Attest.ErrDeviceUnlocked => "attest-device-unlocked"
  | Attest.ErrRevoked => "attest-revoked"
  | Attest.ErrStatusStale => "attest-stale"
  | Attest.ErrEmptyChain => "attest-untrusted"
  end.

(** ** The public identity a CSR may ask for *)
Definition csrMatchesTunnel {K} (csr : CSR K) (name tunnelDomain : string) : bool :=
  let want := name +:+ "." +:+ tunnelDomain in
  if negb (String.eqb (CommonName csr) "") && negb (String.eqb (CommonName csr) want) then false
  else if (0 <? length (IPAddresses csr))%nat || (0 <? length (EmailAddresses csr))%nat
          || (0 <? length (URIs csr))%nat then false
  else match DNSNames csr with
       | [] => String.eqb (CommonName csr) want
       | [d] => String.eqb d want
       | _ => false
       end.

(** ** Keys *)
Definition nonceTTL : Z := 5 * minute.
Definition nonceKey (nonce : string) : string := "enroll-nonce:" +:+ nonce.
Definition claimLockKey (name : string) : string := "lock:claim:" +:+ name.

Record Config := {
  TunnelDomain : string;
  IssuePerWeek : Z;
  EnrollHour : Z;
  EnrollMinute : Z;
  ClaimTimeout : Z;
  ClaimSettle : Z;
  AttestOptional : bool
}.

(** ** The service's state *)
Inductive event :=
| ERejected (reason tunnel ip : string)
| EEvidence (reason ip : string)
| EAttest (verdict : string)
| ERenew (ca verdict : string).

Record est (S N : Type) := ESt { e_w : world S; e_names : N; e_trace : list event }.
Arguments ESt {S N} _ _ _.
Arguments e_w {S N} _.
Arguments e_names {S N} _.
Arguments e_trace {S N} _.

Definition E (S N A : Type) : Type := est S N → A * est S N.
Definition eret {S N A} (a : A) : E S N A := λ s, (a, s).
Definition ebind {S N A C} (c : E S N A) (k : A → E S N C) : E S N C := λ s, let '(a, s') := c s in k a s'.
Notation "'let+' x := c 'in' k" := (ebind c (λ x, k))
  (at level 10, x pattern, c at level 200, k at level 200).
Definition valkey {S N A} (c : M S A) : E S N A := λ s,
  let '(a, w) := c (e_w s) in (a, ESt w (e_names s) (e_trace s)).
Definition names {S N A} (f : N → A * N) : E S N A := λ s,
  let '(a, n) := f (e_names s) in (a, ESt (e_w s) n (e_trace s)).
Definition report {S N} (e : event) : E S N unit := λ s,
  (tt, ESt (e_w s) (e_names s) (e_trace s ++ [e])).

Section service.
Context {S N K : Type} `{ValkeyServer S} `{TokenSupply} `{NameStore N}.
Context (cfg : Config) (ParseAddr : string → option string).
Context (verify : list (Attest.Certificate K) → bytes → Z → result Attest.attest_error (Attest.Result K)).
Context (key_equal : K → K → bool) (isECDSAP256 : K → bool) (keyFingerprint : K → string).
Context (sign : CSR K → string → result sign_error string).

(** ** Nonces *)
Definition Nonce (b : bytes) : M S (result rerr bytes) :=
  let* r := call (Set_ (nonceKey (hex_encode b)) "1" nonceTTL) in
  ret match r with Err e => Err e | Ok _ => Ok b end.

Definition consumeNonce (nonce : bytes) : M S (result rerr bool) :=
  let* r := call (Del (nonceKey (hex_encode nonce))) in
  ret match r with Err e => Err e | Ok v => Ok (rint v =? 1) end.

(** ** Limits *)
Definition enrollLimit (ip : string) : E S N (option Error) :=
  match ParseAddr ip with
  | None => eret (Some (MkError "bad_source_ip" false 0))
  | Some addr =>
      let+ m := valkey (Allow "enroll-min" addr (EnrollMinute cfg) minute) in
      match m with
      | Ok (false, ra) =>
          let+ _ := report (ERejected "enroll-limit" "" ip) in eret (Some (MkError "enroll_rate" true ra))
      | _ =>
          let+ h := valkey (Allow "enroll-hour" addr (EnrollHour cfg) hour) in
          match h with
          | Ok (false, ra) =>
              let+ _ := report (ERejected "enroll-limit" "" ip) in eret (Some (MkError "enroll_rate" true ra))
          | _ => eret None
          end
      end
  end.

Definition enrollLimitCheck (ip : string) : E S N (option Error) :=
  match ParseAddr ip with
  | None => eret (Some (MkError "bad_source_ip" false 0))
  | Some addr =>
      let+ m := valkey (Over "enroll-min" addr (EnrollMinute cfg) minute) in
      match m with
      | Ok (true, ra) =>
          let+ _ := report (ERejected "enroll-limit" "" ip) in eret (Some (MkError "enroll_rate" true ra))
      | _ =>
          let+ h := valkey (Over "enroll-hour" addr (EnrollHour cfg) hour) in
          match h with
          | Ok (true, ra) =>
              let+ _ := report (ERejected "enroll-limit" "" ip) in eret (Some (MkError "enroll_rate" true ra))
          | _ => eret None
          end
      end
  end.

(** ** Attestation and key binding *)
Definition recordRejection (ip name reason : string) : E S N unit :=
  let+ _ := report (ERejected reason name ip) in
  report (EEvidence reason ip).

(** The attestation's result, [None] in the optional mode. *)
Definition attestAndBind (ip name : string) (req : Request K) : E S N (result Error (option (Attest.Result K))) :=
  let+ now := valkey now in
  let+ att :=
    (if AttestOptional cfg then eret (Ok None)
     else match verify (AttestChain req) (Nonce_ req) now with
          | Err e =>
              let+ _ := report (EAttest (attestReason e)) in
              let+ _ := recordRejection ip name (attestReason e) in
              eret (Err (MkError "unauthorized" false 0))
          | Ok r => let+ _ := report (EAttest "ok") in eret (Ok (Some r))
          end) in
  match att with
  | Err e => eret (Err e)
  | Ok att =>
      if negb (csr_signed (IdentityCSR req)) then
        let+ _ := recordRejection ip name "csr-mismatch" in eret (Err (MkError "unauthorized" false 0))
      else if match att with
              | Some r => negb (key_equal (csr_key (IdentityCSR req)) (Attest.LeafPublicKey r))
              | None => false
              end
      then let+ _ := recordRejection ip name "csr-mismatch" in eret (Err (MkError "unauthorized" false 0))
      else eret (Ok att)
  end.

(** ** Claiming a name *)

(** [ClaimTimeout] bounds the three calls: one past the deadline is a call that fails,
    which the script of the world and the name store allow at any of them, done or not. *)
Definition claimCandidate (cand : string) (rec : NameRecord) : E S N (bool * bool) :=
  (* claimed, and whether an error was met *)
  let+ l := valkey (call (SetNX (claimLockKey cand) "1" (ClaimSettle cfg))) in
  match l with
  | Err _ => eret (false, true)
  | Ok v =>
      if negb (rbool v) then eret (false, false)
      else
        let+ g := names (ns_get cand) in
        match g with
        | Ok _ => eret (false, false)
        | Err StoreFails => eret (false, true)
        | Err StoreNotFound =>
            let+ now := valkey now in
            let rec := {| Schema := 1; EnrolledAt := Some now; LastRenewedAt := Some now;
                          IdentityKeyFP := IdentityKeyFP rec; CA := CA rec; Cert := Cert rec;
                          Device := Device rec |} in
            let+ ok := names (ns_put cand rec) in
            eret (if (ok : bool) then (true, false) else (false, true))
        end
  end.

Definition claimAttempts : nat := 8.

(** [gen] is the generator's successive draws. *)
Fixpoint claimName_loop (attempts : nat) (gen : nat → option string) (rec : NameRecord)
    : E S N (option string) :=
  match attempts with
  | O => eret None
  | Datatypes.S n =>
      match gen (claimAttempts - attempts)%nat with
      | None => eret None
      | Some cand =>
          let+ r := claimCandidate cand rec in
          if r.1 then eret (Some cand) else claimName_loop n gen rec
      end
  end.

Definition claimName (gen : nat → option string) (rec : NameRecord) : E S N (option string) :=
  claimName_loop claimAttempts gen rec.

(** ** Phase 1 *)
Definition Enroll (ip : string) (gen : nat → option string) (req : Request K) : E S N (result Error Result_) :=
  let+ e := enrollLimit ip in
  match e with
  | Some e => eret (Err e)
  | None =>
      let+ n := valkey (consumeNonce (Nonce_ req)) in
      match n with
      | Err _ => eret (Err (MkError "internal" true 0))
      | Ok false => eret (Err (MkError "invalid_nonce" true 0))
      | Ok true =>
          let+ att := attestAndBind ip "" req in
          match att with
          | Err e => eret (Err e)
          | Ok att =>
              let rec := {| Schema := 0; EnrolledAt := None; LastRenewedAt := None;
                            IdentityKeyFP := keyFingerprint (csr_key (IdentityCSR req)); CA := "";
                            Cert := no_cert; Device := Attest.r_Device <$> att |} in
              let+ c := claimName gen rec in
              match c with
              | None => eret (Err (MkError "name_unavailable" true 0))
              | Some name =>
                  match sign (IdentityCSR req) name with
                  | Err e =>
                      let+ _ := names (ns_delete name) in
                      eret (Err (signError e))
                  | Ok pem =>
                      eret (Ok {| Name_ := name; IdentityCert := pem; PublicCert := ""; ResultCA := "" |})
                  end
              end
          end
      end
  end.

(** ** Phase 2 and renewals *)

(** What the issuer does with an order: how many heartbeats pass meanwhile, if
    the heartbeat crashed, and the certificate or the error. *)
Record order := MkOrder {
  o_beats : nat;
  o_crashed : bool;
  o_result : result issuer_error (string * CertInfo)
}.
Context (obtain : CSR K → string → order) (renew : CSR K → string → CertInfo → order).

Definition recordCert (name : string) (cur : NameRecord) (req : Request K) (info : CertInfo)
    (dev : option Attest.DeviceInfo) : E S N unit :=
  let+ r := names (ns_get name) in
  let+ now := valkey now in
  let rec := match r with Ok rec => rec | Err _ => cur end in
  let rec := {| Schema := 1;
                EnrolledAt := match EnrolledAt rec with Some t => Some t | None => Some now end;
                LastRenewedAt := Some now;
                IdentityKeyFP := keyFingerprint (csr_key (IdentityCSR req)); CA := CA rec; Cert := Cert rec;
                Device := match dev with Some d => Some d | None => Device rec end |} in
  let+ _ := names (ns_put name (SetCert info rec)) in
  eret tt.

(** The part of [Issue] between the lock and its release. *)
Definition issue_locked (name ip orderID : string) (cur : NameRecord) (att : option (Attest.Result K))
    (req : Request K) : E S N (result Error Result_) :=
  match sign (IdentityCSR req) name with
  | Err e => eret (Err (signError e))
  | Ok identityPEM =>
      let renewal := negb (String.eqb (CA cur) "") in
      let o := if renewal then renew (TLSCSR req) name (CertInfo_of cur) else obtain (TLSCSR req) name in
      let+ _ := valkey (IssuanceHeartbeatLoop (o_beats o) name orderID) in
      match o_result o with
      | Err e =>
          if o_crashed o then eret (Err (MkError "internal" true 0))
          else
            let+ _ := report (ERejected "acme-failed" name ip) in
            let+ _ := (if renewal then report (ERenew "all" "fail") else eret tt) in
            eret (Err (classifyIssuerError e))
      | Ok (pubChain, info) =>
          let+ _ := (if renewal then report (ERenew (ci_CA info) "ok") else eret tt) in
          let+ _ := valkey (IssuanceRecord name) in
          let+ cancelled := valkey ctx_done in
          let+ _ := (if (cancelled : bool) then eret tt
                     else recordCert name cur req info (Attest.r_Device <$> att)) in
          eret (Ok {| Name_ := name; IdentityCert := identityPEM; PublicCert := pubChain;
                      ResultCA := ci_CA info |})
      end
  end.

Definition Issue (name ip : string) (req : Request K) : E S N (result Error Result_) :=
  let+ n := valkey (consumeNonce (Nonce_ req)) in
  match n with
  | Err _ => eret (Err (MkError "internal" true 0))
  | Ok false => eret (Err (MkError "invalid_nonce" true 0))
  | Ok true =>
      let+ att := attestAndBind ip name req in
      match att with
      | Err e => eret (Err e)
      | Ok att =>
          if negb (csr_signed (TLSCSR req)) then
            let+ _ := recordRejection ip name "csr-mismatch" in eret (Err (MkError "unauthorized" false 0))
          else if negb (csrMatchesTunnel (TLSCSR req) name (TunnelDomain cfg)) then
            let+ _ := recordRejection ip name "csr-mismatch" in
            eret (Err (MkError "csr_domain_mismatch" false 0))
          else if negb (isECDSAP256 (csr_key (TLSCSR req))) then
            let+ _ := recordRejection ip name "csr-mismatch" in
            eret (Err (MkError "unsupported_key_type" false 0))
          else
            let+ cur := names (ns_get name) in
            match cur with
            | Err StoreNotFound => eret (Err (MkError "name_unknown" false 0))
            | Err StoreFails => eret (Err (MkError "internal" true 0))
            | Ok cur =>
                let+ b := valkey (IssuanceBegin name (IssuePerWeek cfg)) in
                match b with
                | Err ErrIssuanceInFlight =>
                    let+ _ := report (ERejected "issuance-cap" name ip) in
                    eret (Err (MkError "issuance_cap" true (300 * second)))
                | Err IssRedis => eret (Err (MkError "internal" true 0))
                | Ok (false, _, retryAfter) =>
                    let+ _ := report (ERejected "issuance-cap" name ip) in
                    eret (Err (MkError "issuance_cap" true retryAfter))
                | Ok (true, orderID, _) =>
                    let+ res := issue_locked name ip orderID cur att req in
                    let+ _ := valkey (IssuanceEnd name orderID) in
                    eret res
                end
            end
      end
  end.
End service.

(** ** A nonce is good once *)
Section nonces.
Context {S : Type} `{ValkeyServer S} `{!ValkeyLaws S}.

Lemma nonceTTL_positive : 0 < prec_ms nonceTTL.
Proof. replace nonceTTL with (300000 * millisecond) by done. rewrite law_prec; lia. Qed.

Lemma consumeNonce_spec b (w : world S) : quiet w →
  ∃ w', consumeNonce b w =
          (Ok (match at_key w (nonceKey (hex_encode b)) with Some _ => true | None => false end), w') ∧
        frame (nonceKey (hex_encode b)) w w' ∧ at_key w' (nonceKey (hex_encode b)) = None.
Proof.
  intros Hq. unfold consumeNonce, bind.
  destruct (call_spec (Del (nonceKey (hex_encode b))) (nonceKey (hex_encode b)) w) as (w' & -> & F & E); [done..|].
  spec_simpl. exists w'. split; [|done]. by destruct (at_key w (nonceKey (hex_encode b))).
Qed.

(** A nonce [Nonce] stored is consumed once: the first [consumeNonce] of it succeeds,
    the next one does not, and a nonce that was not handed out is refused meanwhile. *)
Lemma nonce_is_single_use b (w : world S) :
  quiet w →
  ∃ w1 w2 w3, Nonce b w = (Ok b, w1) ∧ consumeNonce b w1 = (Ok true, w2) ∧
    consumeNonce b w2 = (Ok false, w3) ∧
    ∀ b', at_key w (nonceKey (hex_encode b')) = None → hex_encode b' ≠ hex_encode b →
          (consumeNonce b' w1).1 = Ok false.
Proof.
  intros Hq. unfold Nonce, bind.
  destruct (call_spec (Set_ (nonceKey (hex_encode b)) "1" nonceTTL) (nonceKey (hex_encode b)) w)
    as (w1 & E1 & F1 & A1); [done..|].
  spec_simpl. unfold with_deadline in A1. pose proof nonceTTL_positive. revert A1. zcase. intros A1.
  destruct (consumeNonce_spec b w1 (frame_quiet _ _ _ F1)) as (w2 & E2 & F2 & A2). rewrite A1 in E2.
  destruct (consumeNonce_spec b w2 (frame_quiet _ _ _ F2)) as (w3 & E3 & F3 & A3). rewrite A2 in E3.
  exists w1, w2, w3. rewrite E1. do 3 (split; [done|]). intros b' Hb Hne.
  destruct (consumeNonce_spec b' w1 (frame_quiet _ _ _ F1)) as (w4 & -> & _).
  rewrite (frame_keys _ _ _ F1), Hb; [done|]. unfold nonceKey. intros He. by apply str_app_inv_l in He.
Qed.
End nonces.

(** ** The identifiers of a CSR *)
Inductive identifier := DNS (s : string) | IPAddr (s : string) | Email (s : string) | URI (s : string).

(** Everything a CA could issue for: the common name and every alternative name. *)
Definition identifiers {K} (csr : CSR K) : list identifier :=
  (if String.eqb (CommonName csr) "" then [] else [DNS (CommonName csr)]) ++
  map DNS (DNSNames csr) ++ map IPAddr (IPAddresses csr) ++ map Email (EmailAddresses csr) ++ map URI (URIs csr).

(** No misissuance: a CSR passes if and only if the identifiers it asks for (its common
    name, DNS, IP, email and URI names) are exactly the tunnel's own domain name, with
    at most one DNS name. *)
Lemma csrMatchesTunnel_exact {K} (csr : CSR K) name domain :
  csrMatchesTunnel csr name domain = true ↔
  (∀ i, i ∈ identifiers csr ↔ i = DNS (name +:+ "." +:+ domain)) ∧ (length (DNSNames csr) ≤ 1)%nat.
Proof.
  unfold csrMatchesTunnel, identifiers. set (want := name +:+ "." +:+ domain).
  assert (want ≠ "") as Hw by (unfold want; destruct name; done).
  destruct csr as [cn dns ips ems uris key sig]. simpl. split.
  - destruct (String.eqb_spec cn "") as [Hcn|Hcn], (String.eqb_spec cn want) as [Hcw|Hcw]; simpl; try done;
      (destruct ips; [|done]); (destruct ems; [|done]); (destruct uris; [|done]); simpl;
      destruct dns as [|d [|d2 dns]]; try done; intros Hd; try (apply String.eqb_eq in Hd; subst);
      try (by destruct Hw); (split; [|simpl; lia]); intros i; rewrite ?app_nil_r; set_solver.
  - intros [Hi Hl].
    assert (ips = [] ∧ ems = [] ∧ uris = []) as (-> & -> & ->).
    { repeat split.
      - destruct ips as [|x ips]; [done|]. assert (IPAddr x = DNS want) by (apply Hi; set_solver). done.
      - destruct ems as [|x ems]; [done|]. assert (Email x = DNS want) by (apply Hi; set_solver). done.
      - destruct uris as [|x uris]; [done|]. assert (URI x = DNS want) by (apply Hi; set_solver). done. }
    simpl in *. rewrite ?app_nil_r in Hi.
    assert (cn = "" ∨ cn = want) as Hcn.
    { destruct (String.eqb_spec cn ""); [auto|]. right.
      assert (DNS cn = DNS want) by (apply Hi; set_solver). congruence. }
    assert (String.eqb cn "" || String.eqb cn want = true) as Hor
      by (destruct Hcn as [->| ->]; rewrite ?String.eqb_refl, ?orb_true_r; done).
    destruct (String.eqb cn "") eqn:E1, (String.eqb cn want) eqn:E2; simpl in *; try done;
      destruct dns as [|d [|d2 dns]]; simpl in Hl; try lia; try done.
    all: try (assert (DNS d = DNS want) as Hd by (apply Hi; set_solver); simplify_eq; apply String.eqb_refl).
    exfalso. assert (DNS want ∈ ([] : list identifier)) by (by apply Hi). set_solver.
Qed.

(** ** Issuing *)
Section issue.
Context {S N K : Type} `{ValkeyServer S} `{!ValkeyLaws S} `{TokenSupply} `{NameStore N}.
Context (cfg : Config).
Context (verify : list (Attest.Certificate K) → bytes → Z → result Attest.attest_error (Attest.Result K)).
Context (key_equal : K → K → bool) (isECDSAP256 : K → bool) (keyFingerprint : K → string).
Context (sign : CSR K → string → result sign_error string).
Context (obtain : CSR K → string → order) (renew : CSR K → string → CertInfo → order).

Abbreviation issue := (Issue (S := S) (N := N) cfg verify key_equal isECDSAP256 keyFingerprint sign obtain renew).

(** The world of the tunnel [name] between requests. *)
Definition ready (w : world S) (name : string) (c : Z) : Prop :=
  quiet w ∧ w_done w = None ∧ lock_free w name ∧ issued w name c.

Lemma attest_world ip name req (st : est S N) :
  e_w (attestAndBind cfg verify key_equal ip name req st).2 = e_w st ∧
  e_names (attestAndBind cfg verify key_equal ip name req st).2 = e_names st.
Proof.
  unfold attestAndBind, ebind, valkey, now, recordRejection, report, eret. simpl.
  destruct (AttestOptional cfg); simpl.
  - destruct (csr_signed (IdentityCSR req)); done.
  - destruct (verify _ _ _) as [r|e]; simpl; [|done].
    destruct (csr_signed (IdentityCSR req)); simpl; [|done].
    destruct (key_equal _ _); done.
Qed.

Lemma nonce_frame_ready b name c (w w' : world S) :
  frame (nonceKey (hex_encode b)) w w' → ready w name c → ready w' name c.
Proof.
  intros F (Hq & Hd & Hf & Hi). unfold ready, lock_free, issued, counter in *.
  assert (∀ k, k ≠ nonceKey (hex_encode b) → look (w_srv w') (w_vms w') k = look (w_srv w) (w_vms w) k) as Hk
    by apply F.
  split; [apply F|]. split; [by rewrite (frame_done _ _ _ F)|].
  rewrite !Hk by (unfold issLockKey, issuanceKey, nonceKey; intros [=]). done.
Qed.

Lemma recordCert_world name cur req info dev (st : est S N) :
  e_w (recordCert keyFingerprint name cur req info dev st).2 = e_w st.
Proof.
  unfold recordCert, ebind, names, valkey, now, eret. destruct (ns_get _ _) as [g n1]. simpl.
  by destruct (ns_put _ _ _) as [ok n2].
Qed.

(** The locked part keeps the lock; a certificate adds one to the week's count.
    While the order runs the week may end, which resets the count. *)
Lemma issue_locked_spec name ip orderID cur att req (st : est S N) c :
  quiet (e_w st) → w_done (e_w st) = None → lock_fresh (e_w st) name orderID → issued (e_w st) name c →
  c + 1 ≤ max_int64 →
  let '(res, st') := issue_locked keyFingerprint sign obtain renew name ip orderID cur att req st in
  quiet (e_w st') ∧ lock_held (e_w st') name orderID ∧
  ∃ c', (c' = c ∨ c' = 0) ∧ issued (e_w st') name (match res with Ok _ => c' + 1 | Err _ => c' end).
Proof.
  intros Hq Hd Hl Hi Hmax. unfold issue_locked.
  destruct (sign (IdentityCSR req) name) as [pem|e].
  2:{ unfold eret. split; [done|]. split; [by apply lock_fresh_held|]. exists c. auto. }
  set (o := if negb _ then _ else _). unfold ebind at 1, valkey at 1.
  destruct (heartbeat_fresh (o_beats o) name orderID (e_w st) Hq Hd Hl)
    as (w1 & -> & Q1 & D1 & L1%lock_fresh_held & _ & V1 & K1).
  pose proof (iss_keys_differ name) as Hne.
  destruct (counter_later (e_w st) w1 (issuanceKey name) c (K1 _ (not_eq_sym Hne)) Hi) as (c' & Hc' & Hi').
  set (st1 := ESt w1 _ _).
  destruct (o_result o) as [[chain info]|e].
  2:{ destruct (o_crashed o).
      - unfold eret. simpl. eauto.
      - unfold ebind, report, eret. destruct (negb _); simpl; eauto. }
  unfold ebind at 1.
  assert (∃ st2, (if negb (String.eqb (CA cur) "") then report (ERenew (ci_CA info) "ok") else eret tt) st1 = (tt, st2) ∧
    e_w st2 = w1) as (st2 & -> & W2) by (destruct (negb _); by eexists).
  unfold ebind at 1, valkey at 1. rewrite W2.
  destruct (IssuanceRecord_run name w1 c' orderID Q1 L1 Hi') as (w3 & -> & Q3 & _ & L3 & I3);
    [unfold max_int64 in *; lia|].
  unfold ebind at 1, valkey at 1, ctx_done. unfold ebind.
  set (st3 := ESt w3 _ _). cbn [e_w].
  match goal with |- context [(if ?b then eret tt else ?r) ?s] =>
    assert (e_w ((if b then eret tt else r) s).2 = w3) as Hw3 by (destruct b; [done|by rewrite recordCert_world]);
    destruct ((if b then eret tt else r) s) as [[] st4] end.
  simpl in Hw3. unfold eret. rewrite Hw3. eauto 10.
Qed.

Lemma ready_end (w : world S) name tok c : quiet w → lock_held w name tok → issued w name c →
  ∃ w', IssuanceEnd name tok w = (Ok tt, w') ∧ lock_free w' name ∧ issued w' name c.
Proof.
  intros Hq Hl Hi. unfold IssuanceEnd.
  destruct (releaseIssLock_run name tok w tok Hq Hl) as (w' & -> & Hq' & [Hv _] & Hl' & Hk').
  rewrite String.eqb_refl in Hl'. exists w'. split; [done|]. split; [done|].
  unfold issued, counter in *. pose proof (iss_keys_differ name). by rewrite Hv, Hk' by congruence.
Qed.

(** Whatever fails, a certificate is returned only by a run that was admitted. *)
Lemma Issue_admitted name ip req (st : est S N) :
  is_ok (issue name ip req st).1 = true →
  ∃ orderID d, (IssuanceBegin name (IssuePerWeek cfg) (consumeNonce (Nonce_ req) (e_w st)).2).1 = Ok (true, orderID, d).
Proof.
  unfold Issue. unfold ebind at 1, valkey at 1. destruct (consumeNonce _ _) as [[[]|] w1]; [|done..].
  unfold ebind at 1. pose proof (attest_world ip name req (ESt w1 (e_names st) (e_trace st))) as [Wa _].
  destruct (attestAndBind _ _ _ _ _ _ _) as [[att|e] st2]; [|done]. cbn [fst snd e_w] in Wa |- *. rewrite <- Wa.
  destruct (csr_signed (TLSCSR req)); cbn [negb]; [|done]. destruct (csrMatchesTunnel _ _ _); cbn [negb]; [|done].
  destruct (isECDSAP256 _); cbn [negb]; [|done]. unfold ebind at 1, names at 1. destruct (ns_get name (e_names st2)) as [[cur|[]] n3]; [|done..].
  unfold ebind at 1, valkey at 1. cbn [e_w]. intros Hok.
  destruct (IssuanceBegin name (IssuePerWeek cfg) (e_w st2)) as [[[[[] orderID] d]|[]] w4]; cbn [fst]; [by exists orderID, d|done..].
Qed.

(** An undisturbed run: the count and the lock. *)
Lemma Issue_undisturbed name ip req (st : est S N) c :
  ready (e_w st) name c → c + 1 ≤ max_int64 →
  let '(res, st') := issue name ip req st in
  lock_free (e_w st') name ∧
  ∃ c', (c' = c ∨ c' = 0) ∧ issued (e_w st') name (match res with Ok _ => c' + 1 | Err _ => c' end) ∧
        (is_ok res = true → c < IssuePerWeek cfg).
Proof.
  intros Hr Hmax. unfold Issue. unfold ebind at 1, valkey at 1.
  destruct (consumeNonce_spec (Nonce_ req) (e_w st) (proj1 Hr)) as (w1 & -> & F1 & _).
  pose proof (nonce_frame_ready _ name c _ _ F1 Hr) as Hr1.
  set (st1 := ESt w1 _ _).
  assert (∀ st2 : est S N, e_w st2 = w1 →
    lock_free (e_w st2) name ∧ ∃ c', (c' = c ∨ c' = 0) ∧ issued (e_w st2) name c' ∧
      (false = true → c < IssuePerWeek cfg)) as Hstop.
  { intros st2 ->. destruct Hr1 as (_ & _ & L & I). split; [done|]. exists c.
    split; [by left|]. split; [done|]. discriminate. }
  destruct (match at_key _ _ with Some _ => true | None => false end).
  2:{ unfold eret. by apply Hstop. }
  unfold ebind at 1. pose proof (attest_world ip name req st1) as [Wa _].
  destruct (attestAndBind cfg verify key_equal ip name req st1) as [[att|e] st2]; simpl in Wa;
    [|unfold eret; by apply Hstop].
  destruct (csr_signed (TLSCSR req)); simpl; [|unfold recordRejection, ebind, report, eret; by apply Hstop].
  destruct (csrMatchesTunnel _ _ _); simpl; [|unfold recordRejection, ebind, report, eret; by apply Hstop].
  destruct (isECDSAP256 _); simpl; [|unfold recordRejection, ebind, report, eret; by apply Hstop].
  unfold ebind at 1, names at 1. destruct (ns_get name (e_names st2)) as [[cur|[]] n2];
    [|unfold eret; by apply Hstop..].
  unfold ebind at 1, valkey at 1. cbn [e_w]. rewrite Wa.
  destruct Hr1 as (Q1 & D1 & Lf1 & I1).
  destruct (IssuanceBegin_free name (IssuePerWeek cfg) w1 c Q1 Lf1 I1) as (r & w3 & -> & Q3 & V3 & _ & I3 & Hb).
  set (st3 := ESt w3 _ _).
  destruct (Z.leb_spec (IssuePerWeek cfg) c).
  - destruct Hb as (L3 & d & -> & _). unfold ebind, report, eret. simpl. split; [done|]. exists c.
    split; [by left|]. split; [done|]. discriminate.
  - destruct Hb as (L3 & D3 & ->). rewrite D1 in D3. unfold ebind at 1.
    pose proof (issue_locked_spec name ip (token (w_minted w1)) cur att req st3 c Q3 D3 L3 I3 Hmax) as Hlk.
    destruct (issue_locked _ _ _ _ _ _ _ _ _ _ st3) as [res st4]. destruct Hlk as (Q4 & L4 & c' & Hc' & I4).
    unfold ebind, valkey. destruct (ready_end (e_w st4) name _ _ Q4 L4 I4) as (w5 & -> & L5 & I5).
    unfold eret. simpl. split; [done|]. exists c'. auto.
Qed.

(** C13. What an issuance counts. On every run of [Issue], whatever fails, a certificate
    is returned only if [IssuanceBegin] granted the lock in the state after the nonce
    was consumed. On a run in a quiet world (every command answered, no cancellation)
    that starts with the lock free, however the attestation, the CSRs, the registry, the
    signer and the issuer answer and however long the order takes: the lock is free at
    the end, the count of the week goes up by one exactly when a certificate is returned
    (the week may end during the order, which resets it), and a certificate is only
    returned when the count was below the limit. When Valkey fails later, the
    certificate is returned uncounted, or the lock is left to expire, as the code says. *)
Theorem Issue_counts_certificates name ip req (st : est S N) :
  let '(res, st') := issue name ip req st in
  (is_ok res = true →
   ∃ orderID d, (IssuanceBegin name (IssuePerWeek cfg) (consumeNonce (Nonce_ req) (e_w st)).2).1 = Ok (true, orderID, d)) ∧
  ∀ c, ready (e_w st) name c → c + 1 ≤ max_int64 →
    lock_free (e_w st') name ∧
    ∃ c', (c' = c ∨ c' = 0) ∧ issued (e_w st') name (match res with Ok _ => c' + 1 | Err _ => c' end) ∧
          (is_ok res = true → c < IssuePerWeek cfg).
Proof.
  pose proof (Issue_admitted name ip req st) as Ha. pose proof (λ c Hr Hm, Issue_undisturbed name ip req st c Hr Hm) as Hu.
  destruct (issue name ip req st) as [res st']. split; [exact Ha|exact Hu].
Qed.
End issue.

(** ** Witnesses *)
Lemma nonce_is_single_use_witness :
  ∃ w1 w2 w3, Nonce [x2a] sample_world = (Ok [x2a], w1) ∧ consumeNonce [x2a] w1 = (Ok true, w2) ∧
    consumeNonce [x2a] w2 = (Ok false, w3) ∧
    ∀ b', at_key sample_world (nonceKey (hex_encode b')) = None → hex_encode b' ≠ hex_encode [x2a] →
          (consumeNonce b' w1).1 = Ok false.
Proof. by apply (nonce_is_single_use [x2a] sample_world). Defined.

#[local] Instance map_names : NameStore (gmap string NameRecord) := {
  ns_get n m := (match m !! n with Some r => Ok r | None => Err StoreNotFound end, m);
  ns_put n r m := (true, <[n := r]> m);
  ns_delete n m := (true, delete n m)
}.
Definition sample_record : NameRecord := {|
  Schema := 1; EnrolledAt := Some 0; LastRenewedAt := None; IdentityKeyFP := "fp"; CA := "";
  Cert := no_cert; Device := None |}.
Definition sample_config : Config := {|
  TunnelDomain := "t.example.org"; IssuePerWeek := 5; EnrollHour := 10; EnrollMinute := 2;
  ClaimTimeout := 30 * second; ClaimSettle := second; AttestOptional := true |}.
Definition sample_csr : CSR unit := MkCSR "" ["abc.t.example.org"] [] [] [] tt true.
Definition sample_request : Request unit := MkRequest [x2a] [] sample_csr sample_csr.
Definition sample_info : CertInfo :=
  {| ci_CA := "le"; ci_Serial := "01"; ci_NotBefore := 0; ci_NotAfter := 1; ci_ARIID := "" |}.
Definition sample_order : order := MkOrder 3 false (Ok ("pem", sample_info)).
Definition sample_est : est mem_server (gmap string NameRecord) :=
  ESt (World 0 0 (MemServer {[nonceKey (hex_encode [x2a]) := Entry (VStr "1") (Some 300000)]}) [] 0 None)
      {["abc" := sample_record]} [].
Definition sample_issue :=
  Issue (S := mem_server) sample_config (λ _ _ _, Err Attest.ErrEmptyChain) (λ _ _, true) (λ _, true) (λ _, "fp")
    (λ _ _, Ok "identity") (λ _ _, sample_order) (λ _ _ _, sample_order) "abc" "192.0.2.1" sample_request sample_est.

Lemma Issue_counts_certificates_witness :
  is_ok sample_issue.1 = true ∧
  let '(res, st') := sample_issue in
  lock_free (e_w st') "abc" ∧
  ∃ c', (c' = 0 ∨ c' = 0) ∧ issued (e_w st') "abc" (match res with Ok _ => c' + 1 | Err _ => c' end) ∧
        (is_ok res = true → 0 < IssuePerWeek sample_config).
Proof.
  split; [by vm_compute|].
  pose proof (Issue_counts_certificates sample_config (λ _ _ _, Err Attest.ErrEmptyChain) (λ _ _, true)
           (λ _, true) (λ _, "fp") (λ _ _, Ok "identity") (λ _ _, sample_order) (λ _ _ _, sample_order)
           "abc" "192.0.2.1" sample_request sample_est) as Hs. unfold sample_issue.
  destruct (Issue _ _ _ _ _ _ _ _ _ _ _ _) as [res st']. apply (proj2 Hs 0); [|by vm_compute].
  split; [done|]. split; [done|]. split; [done|]. split; [by vm_compute|]. by left.
Defined.
End Enroll.
