(* ===== verification/DialBack.v ===== *)
(** * The dial-back rendezvous

    [internal/phoneconn/dialback.go].  A public connection waits under a random
    token ([Await]) while the phone is asked to connect back; the phone's data
    connection presents the token and is delivered to the waiter.  Waiters give
    up, phones come late, twice or with a wrong identity, all at once.

    The operations are functions of the table of waiters; [step] interleaves
    them at the points where the code takes its mutex or touches the channel.
    The theorems: a data connection is given to at most one waiter, of the right
    token and tunnel, and when the calls are over each one is in use or closed. *)
From Stdlib Require Import ZArith Lia Ascii String.
From S2P Require Import Prelude.
Local Open Scope string_scope.
Local Open Scope Z_scope.

Module DialBack.

(** Where an [Await] call stands; the last three carry what it returns. *)
Inductive await_phase :=
| Opening                        (* registered, the OPEN request is being made *)
| Selecting                      (* waiting for the connection or the context *)
| Leaving (ret : option nat)     (* the deferred abandon is still to run *)
| Draining (ret : option nat)    (* its token is gone, the channel still to be emptied *)
| Finished (ret : option nat).

Record waiter := Waiter {
  a_token : string; a_tunnel : string;
  a_chan : option nat;           (* the one-element channel *)
  a_phase : await_phase
}.

Inductive serve_phase := Upgrading | Delivering | Closing | Served.
Record serve := Serve { s_token : string; s_tunnel : string; s_phase : serve_phase }.

(** The table of waiting tokens, the calls, and the connections closed. *)
Record dials := Dials {
  waiting : gmap string nat;
  awaits : gmap nat waiter;
  serves : gmap nat serve;
  shut : gset nat
}.

Definition set_phase (p : await_phase) (a : waiter) : waiter := Waiter (a_token a) (a_tunnel a) (a_chan a) p.
Definition set_chan (c : option nat) (a : waiter) : waiter := Waiter (a_token a) (a_tunnel a) c (a_phase a).

(** ** Operations *)

(** The first locked part of [Await]: [None] is [ErrDuplicateToken]. *)
Definition Await_enter (w : nat) (token tunnel : string) (d : dials) : option dials :=
  match waiting d !! token with
  | Some _ => None
  | None => Some (Dials (<[token := w]> (waiting d)) (<[w := Waiter token tunnel None Opening]> (awaits d))
                    (serves d) (shut d))
  end.

Definition with_await (w : nat) (a : waiter) (d : dials) : dials :=
  Dials (waiting d) (<[w := a]> (awaits d)) (serves d) (shut d).

(** [select]: take the connection, when there is one. *)
Definition Await_receive (w : nat) (a : waiter) (d : dials) : option dials :=
  match a_chan a with
  | None => None
  | Some c => Some (with_await w (set_phase (Leaving (Some c)) (set_chan None a)) d)
  end.

(** [abandon]: drop the token if it is still ours, then empty the channel. *)
Definition abandon_locked (w : nat) (a : waiter) (ret : option nat) (d : dials) : dials :=
  let d := with_await w (set_phase (Draining ret) a) d in
  if decide (waiting d !! a_token a = Some w)
  then Dials (delete (a_token a) (waiting d)) (awaits d) (serves d) (shut d) else d.

Definition abandon_drain (w : nat) (a : waiter) (ret : option nat) (d : dials) : dials :=
  let d' := with_await w (set_phase (Finished ret) (set_chan None a)) d in
  match a_chan a with
  | None => d'
  | Some c => Dials (waiting d') (awaits d') (serves d') ({[c]} ∪ shut d')
  end.

Definition right_tunnel (tunnel : string) (a : waiter) : bool :=
  String.eqb tunnel "" || String.eqb (a_tunnel a) tunnel.

Definition expects (token tunnel : string) (d : dials) : bool :=
  match waiting d !! token ≫= (awaits d !!.) with
  | Some a => right_tunnel tunnel a
  | None => false
  end.

Definition deliver (token tunnel : string) (c : nat) (d : dials) : bool * dials :=
  match waiting d !! token with
  | None => (false, d)
  | Some w =>
      match awaits d !! w with
      | None => (false, d)
      | Some a =>
          if negb (right_tunnel tunnel a) then (false, d)
          else (true, Dials (delete token (waiting d)) (<[w := set_chan (Some c) a]> (awaits d))
                        (serves d) (shut d))
      end
  end.

Definition with_serve (c : nat) (p : serve_phase) (v : serve) (d : dials) : dials :=
  Dials (waiting d) (awaits d) (<[c := Serve (s_token v) (s_tunnel v) p]> (serves d)) (shut d).

Definition close_conn (c : nat) (d : dials) : dials :=
  Dials (waiting d) (awaits d) (serves d) ({[c]} ∪ shut d).

(** ** The interleaved system *)
Inductive step : dials → dials → Prop :=
| step_await d d' w token tunnel :
    awaits d !! w = None → Await_enter w token tunnel d = Some d' → step d d'
| step_opened d w a ok :
    awaits d !! w = Some a → a_phase a = Opening →
    step d (with_await w (set_phase (if (ok : bool) then Selecting else Leaving None) a) d)
| step_receive d d' w a :
    awaits d !! w = Some a → a_phase a = Selecting → Await_receive w a d = Some d' → step d d'
| step_timeout d w a :
    awaits d !! w = Some a → a_phase a = Selecting →
    step d (with_await w (set_phase (Leaving None) a) d)
| step_abandon d w a ret :
    awaits d !! w = Some a → a_phase a = Leaving ret → step d (abandon_locked w a ret d)
| step_drain d w a ret :
    awaits d !! w = Some a → a_phase a = Draining ret → step d (abandon_drain w a ret d)
| step_serve d c token tunnel :
    serves d !! c = None → expects token tunnel d = true →
    step d (with_serve c Upgrading (Serve token tunnel Upgrading) d)
| step_upgraded d c v ok :
    serves d !! c = Some v → s_phase v = Upgrading →
    step d (with_serve c (if (ok : bool) then Delivering else Closing) v d)
| step_deliver d c v ok d' :
    serves d !! c = Some v → s_phase v = Delivering →
    deliver (s_token v) (s_tunnel v) c d = (ok, d') →
    step d (with_serve c (if ok then Served else Closing) v d')
| step_close d c v :
    serves d !! c = Some v → s_phase v = Closing →
    step d (with_serve c Served v (close_conn c d)).

Definition empty : dials := Dials ∅ ∅ ∅ ∅.

(** ** Where a connection is *)
Definition phase_ret (p : await_phase) : option nat :=
  match p with Leaving r | Draining r | Finished r => r | _ => None end.

Inductive place := InChannel (w : nat) | Given (w : nat) | Shut.

(** Whether waiter [w] may still be found under its token. *)
Definition listening (p : await_phase) : bool :=
  match p with Opening | Selecting | Leaving _ => true | _ => false end.
Definition finished (p : await_phase) : bool := match p with Finished _ => true | _ => false end.

(** What the tables say of one waiter and of one connection, given where each
    connection is. *)
Record waiter_ok (d : dials) (loc : gmap nat place) (w : nat) (a : waiter) : Prop := {
  wo_chan c : a_chan a = Some c ↔ loc !! c = Some (InChannel w);
  wo_ret c : phase_ret (a_phase a) = Some c ↔ loc !! c = Some (Given w);
  wo_finished : finished (a_phase a) = true → a_chan a = None;
  wo_waiting t : waiting d !! t = Some w → t = a_token a ∧ listening (a_phase a) = true ∧ a_chan a = None
}.

Definition conn_ok (d : dials) (loc : gmap nat place) (c : nat) : Prop :=
  (c ∈ shut d ↔ loc !! c = Some Shut) ∧
  (is_Some (loc !! c) ↔ ∃ v, serves d !! c = Some v ∧ s_phase v = Served) ∧
  ∀ w, loc !! c = Some (InChannel w) ∨ loc !! c = Some (Given w) →
    ∃ a v, awaits d !! w = Some a ∧ serves d !! c = Some v ∧ s_token v = a_token a ∧
           right_tunnel (s_tunnel v) a = true.

Definition placed (d : dials) (loc : gmap nat place) : Prop :=
  (∀ w a, awaits d !! w = Some a → waiter_ok d loc w a) ∧
  (∀ t w, waiting d !! t = Some w → is_Some (awaits d !! w)) ∧
  ∀ c, conn_ok d loc c.

(** A call that only moves on, without touching a connection. *)
Lemma placed_phase d loc w a p :
  awaits d !! w = Some a → placed d loc →
  phase_ret p = phase_ret (a_phase a) → finished p = false →
  (listening (a_phase a) = true → listening p = true) →
  placed (with_await w (set_phase p a) d) loc.
Proof.
  intros Ha (Hw & Ht & Hc) Hr Hf Hl. split; [|split].
  - intros w' a'. simpl. rewrite lookup_insert_Some. intros [[<- <-]|[Hne Ha']].
    + destruct (Hw _ _ Ha) as [A1 A2 A3 A4]. split; simpl; [done|by rewrite Hr|by rewrite Hf|].
      intros t Hwt. destruct (A4 t Hwt) as (? & ? & ?). auto.
    + destruct (Hw _ _ Ha') as [A1 A2 A3 A4]. split; done.
  - intros t w' Hwt. simpl in *. destruct (decide (w' = w)) as [->|];
      [rewrite lookup_insert_eq; by eexists|rewrite lookup_insert_ne by done; eauto].
  - intros c. destruct (Hc c) as (C1 & C2 & C3). split; [done|]. split; [done|].
    intros w' Hw'. destruct (C3 w' Hw') as (a' & v & B1 & B2 & B3 & B4). simpl.
    destruct (decide (w' = w)) as [->|]; simplify_eq.
    + exists (set_phase p a), v. rewrite lookup_insert_eq. done.
    + exists a', v. rewrite lookup_insert_ne by done. done.
Qed.

(** A waiter that a change does not concern. *)
Lemma waiter_ok_mono d d' loc loc' w a :
  waiter_ok d loc w a →
  (∀ c, loc' !! c = Some (InChannel w) ↔ loc !! c = Some (InChannel w)) →
  (∀ c, loc' !! c = Some (Given w) ↔ loc !! c = Some (Given w)) →
  (∀ t, waiting d' !! t = Some w → waiting d !! t = Some w) →
  waiter_ok d' loc' w a.
Proof.
  intros [A1 A2 A3 A4] H1 H2 H3. split; [intros c; rewrite H1; auto|intros c; rewrite H2; auto|done|].
  intros t Ht. auto.
Qed.

(** Moving one connection changes no other place. *)
Lemma moved_elsewhere (loc : gmap nat place) c p c' p' :
  loc !! c ≠ Some p' → p ≠ p' → <[c := p]> loc !! c' = Some p' ↔ loc !! c' = Some p'.
Proof.
  intros H1 H2. destruct (decide (c' = c)) as [->|]; [rewrite lookup_insert_eq|by rewrite lookup_insert_ne].
  split; [intros [= ?]; done|done].
Qed.

Lemma placed_enter d d' loc w token tunnel :
  awaits d !! w = None → Await_enter w token tunnel d = Some d' → placed d loc → placed d' loc.
Proof.
  unfold Await_enter. intros Hw Hd (HW & HT & HC). destruct (waiting d !! token) eqn:Ht; [done|]. simplify_eq.
  assert (∀ c, loc !! c ≠ Some (InChannel w) ∧ loc !! c ≠ Some (Given w)) as Hno.
  { intros c. destruct (HC c) as (_ & _ & C3). split; intros E; destruct (C3 w) as (a & v & Ha & _); eauto; congruence. }
  split; [|split].
  - intros w' a'. simpl. rewrite lookup_insert_Some. intros [[<- <-]|[Hne Ha']].
    + split; simpl; [| |done|].
      * intros c. destruct (Hno c). split; [done|tauto].
      * intros c. destruct (Hno c). split; [done|tauto].
      * intros t. rewrite lookup_insert_Some. intros [[<- _]|[_ Hx]]; [done|].
        destruct (HT _ _ Hx) as [? E]. congruence.
    + apply (waiter_ok_mono d _ loc loc w' a'); [by apply HW|done|done|]. intros t. simpl.
      rewrite lookup_insert_Some. naive_solver.
  - intros t w'. simpl. rewrite lookup_insert_Some. intros [[<- <-]|[_ Hx]].
    + rewrite lookup_insert_eq. by eexists.
    + destruct (decide (w' = w)) as [->|]; [rewrite lookup_insert_eq; by eexists|].
      rewrite lookup_insert_ne by done. eauto.
  - intros c. destruct (HC c) as (C1 & C2 & C3). split; [done|]. split; [done|].
    intros w' Hw'. destruct (C3 w' Hw') as (a & v & B1 & B2 & B3). exists a, v. simpl.
    rewrite lookup_insert_ne by congruence. done.
Qed.

(** Waiter [w], with connection [c] in its channel, hands it on to [p]. *)
Lemma placed_take d loc w a c (p : place) ph (sh : gset nat) :
  awaits d !! w = Some a → a_chan a = Some c → placed d loc →
  (p = Given w ∧ phase_ret (a_phase a) = None ∧ phase_ret ph = Some c ∧ sh = shut d ∧
     listening ph = true ∧ finished ph = false) ∨
  (p = Shut ∧ phase_ret ph = phase_ret (a_phase a) ∧ sh = {[c]} ∪ shut d) →
  placed (Dials (waiting d) (<[w := set_phase ph (set_chan None a)]> (awaits d)) (serves d) sh) (<[c := p]> loc).
Proof.
  intros Ha Hch (HW & HT & HC) Hp. destruct (HW _ _ Ha) as [A1 A2 A3 A4].
  pose proof (proj1 (A1 c) Hch) as Hloc. destruct (HC c) as (_ & D2 & D3).
  destruct (D3 w (or_introl Hloc)) as (a0 & v & E1 & E2 & E3 & E4). simplify_eq.
  split; [|split].
  - intros w' a'. simpl. rewrite lookup_insert_Some. intros [[<- <-]|[Hne Ha']].
    + split; simpl.
      * intros c'. split; [done|]. intros Hx. exfalso. destruct (decide (c' = c)) as [->|Hc'].
        -- rewrite lookup_insert_eq in Hx. naive_solver.
        -- rewrite lookup_insert_ne in Hx by done. apply A1 in Hx. congruence.
      * intros c'. destruct Hp as [(-> & Hr0 & -> & _)|(-> & -> & _)].
        -- destruct (decide (c' = c)) as [->|]; [by rewrite lookup_insert_eq|].
           rewrite lookup_insert_ne by done. rewrite <- A2, Hr0. naive_solver.
        -- rewrite moved_elsewhere by congruence. apply A2.
      * done.
      * intros t Hwt. destruct (A4 t Hwt) as (_ & _ & Hx). congruence.
    + apply (waiter_ok_mono d _ loc _ w' a'); [by apply HW| | |done];
        intros c'; apply moved_elsewhere; naive_solver congruence.
  - intros t w' Hwt. simpl in *. destruct (decide (w' = w)) as [->|]; [rewrite lookup_insert_eq; by eexists|].
    rewrite lookup_insert_ne by done. eauto.
  - intros c'. destruct (HC c') as (C1 & C2 & C3). destruct (decide (c' = c)) as [->|Hc'].
    + unfold conn_ok. simpl. rewrite lookup_insert_eq. split; [|split].
      * destruct Hp as [(-> & _ & _ & -> & _)|(-> & _ & ->)]; [|set_solver].
        rewrite C1, Hloc. naive_solver.
      * split; [|naive_solver]. intros _. apply C2. by eexists.
      * intros w' Hw'. assert (p = Given w ∧ w' = w) as [-> ->] by naive_solver.
        eexists _, v. rewrite lookup_insert_eq. split; [done|]. done.
    + unfold conn_ok. simpl. rewrite lookup_insert_ne by done. split; [|split; [done|]].
      * destruct Hp as [(_ & _ & _ & -> & _)|(_ & _ & ->)]; set_solver.
      * intros w' Hw'. destruct (C3 w' Hw') as (a' & v' & B1 & B2 & B3 & B4).
        destruct (decide (w' = w)) as [->|]; simplify_eq.
        -- eexists _, v'. rewrite lookup_insert_eq. done.
        -- exists a', v'. rewrite lookup_insert_ne by done. done.
Qed.

(** Waiter [w] moves to a phase in which its token is gone. *)
Lemma placed_quiet d loc w a ph wt :
  awaits d !! w = Some a → placed d loc → phase_ret ph = phase_ret (a_phase a) →
  (finished ph = true → a_chan a = None) →
  (∀ t w', wt !! t = Some w' → waiting d !! t = Some w') → (∀ t, wt !! t ≠ Some w) →
  placed (Dials wt (<[w := set_phase ph a]> (awaits d)) (serves d) (shut d)) loc.
Proof.
  intros Ha (HW & HT & HC) Hr Hf Hwt Hgone. split; [|split].
  - intros w' a'. simpl. rewrite lookup_insert_Some. intros [[<- <-]|[Hne Ha']].
    + destruct (HW _ _ Ha) as [A1 A2 A3 A4]. split; simpl; [done|by rewrite Hr|done|].
      intros t Hx. by destruct (Hgone t).
    + apply (waiter_ok_mono d _ loc loc w' a'); [by apply HW|done|done|]. simpl. eauto.
  - intros t w' Hx. simpl in *. destruct (decide (w' = w)) as [->|]; [rewrite lookup_insert_eq; by eexists|].
    rewrite lookup_insert_ne by done. eauto.
  - intros c. destruct (HC c) as (C1 & C2 & C3). split; [done|]. split; [done|].
    intros w' Hw'. destruct (C3 w' Hw') as (a' & v & B1 & B2 & B3 & B4). simpl.
    destruct (decide (w' = w)) as [->|]; simplify_eq.
    + eexists _, v. rewrite lookup_insert_eq. done.
    + exists a', v. rewrite lookup_insert_ne by done. done.
Qed.

Lemma placed_abandon d loc w a ret :
  awaits d !! w = Some a → a_phase a = Leaving ret → placed d loc → placed (abandon_locked w a ret d) loc.
Proof.
  intros Ha Hph Hpl. pose proof Hpl as (HW & _ & _). destruct (HW _ _ Ha) as [_ _ _ A4].
  unfold abandon_locked, with_await. simpl. case_decide as Hd.
  - apply (placed_quiet d loc w a (Draining ret) (delete (a_token a) (waiting d))); try done.
    + by rewrite Hph.
    + intros t w'. by rewrite lookup_delete_Some; intros [_ ?].
    + intros t. rewrite lookup_delete_Some. intros [Hne Hx]. destruct (A4 t Hx). congruence.
  - apply (placed_quiet d loc w a (Draining ret) (waiting d)); try done; [by rewrite Hph|].
    intros t Hx. destruct (A4 t Hx) as [-> _]. done.
Qed.

Lemma placed_drain d loc w a ret :
  awaits d !! w = Some a → a_phase a = Draining ret → placed d loc →
  ∃ loc', placed (abandon_drain w a ret d) loc'.
Proof.
  intros Ha Hph Hpl. unfold abandon_drain, with_await. simpl. destruct (a_chan a) as [c|] eqn:Hch.
  - exists (<[c := Shut]> loc). apply placed_take; [done|done|done|]. right. by rewrite Hph.
  - exists loc. replace (set_chan None a) with a by (destruct a; simpl in *; by subst).
    pose proof Hpl as (HW & _ & _). destruct (HW _ _ Ha) as [_ _ _ A4].
    apply (placed_quiet d loc w a (Finished ret) (waiting d)); try done; [by rewrite Hph|].
    intros t Hx. destruct (A4 t Hx) as (_ & Hl & _). by rewrite Hph in Hl.
Qed.

(** The handler of [c] moves on, [c] still its own. *)
Lemma placed_serving d loc c v :
  (∀ v0, serves d !! c = Some v0 → s_phase v0 ≠ Served) → s_phase v ≠ Served → placed d loc →
  placed (Dials (waiting d) (awaits d) (<[c := v]> (serves d)) (shut d)) loc.
Proof.
  intros Hc Hv (HW & HT & HC). split; [|split; [done|]].
  - intros w a Ha. apply (waiter_ok_mono d _ loc loc w a); [by apply HW|done..].
  - intros c'. destruct (HC c') as (C1 & C2 & C3). unfold conn_ok. simpl.
    destruct (decide (c' = c)) as [->|]; [|by rewrite lookup_insert_ne].
    rewrite lookup_insert_eq. assert (loc !! c = None) as Hno.
    { destruct (loc !! c) eqn:E; [|done]. destruct C2 as [[v0 [E1 E2]] _]; [by eexists|]. by destruct (Hc v0). }
    split; [done|]. rewrite Hno. split; [|naive_solver]. split; [by intros []|naive_solver].
Qed.

(** A connection its handler still holds is nowhere else. *)
Lemma handler_holds d loc c v :
  serves d !! c = Some v → s_phase v ≠ Served → placed d loc → loc !! c = None ∧ c ∉ shut d.
Proof.
  intros Hc Hv (_ & _ & HC). destruct (HC c) as (C1 & C2 & _).
  assert (loc !! c = None) as Hno.
  { destruct (loc !! c) eqn:E; [|done]. destruct C2 as [[v0 [E1 E2]] _]; [by eexists|]. congruence. }
  split; [done|]. by rewrite C1, Hno.
Qed.

Lemma placed_closed d loc c v :
  serves d !! c = Some v → s_phase v ≠ Served → placed d loc →
  placed (with_serve c Served v (close_conn c d)) (<[c := Shut]> loc).
Proof.
  intros Hc Hv Hp. destruct (handler_holds _ _ _ _ Hc Hv Hp) as [Hno Hns]. destruct Hp as (HW & HT & HC).
  split; [|split; [done|]].
  - intros w a Ha. apply (waiter_ok_mono d _ loc _ w a); [by apply HW| | |done];
      intros c'; apply moved_elsewhere; congruence.
  - intros c'. destruct (HC c') as (C1 & C2 & C3). unfold conn_ok. simpl.
    destruct (decide (c' = c)) as [->|].
    + rewrite !lookup_insert_eq. split; [set_solver|]. split; naive_solver.
    + rewrite !lookup_insert_ne by done. split; [set_solver|done].
Qed.

Lemma placed_delivered d loc c v d' :
  serves d !! c = Some v → s_phase v ≠ Served → placed d loc →
  deliver (s_token v) (s_tunnel v) c d = (true, d') →
  ∃ loc', placed (with_serve c Served v d') loc'.
Proof.
  intros Hc Hv Hp Hd. destruct (handler_holds _ _ _ _ Hc Hv Hp) as [Hno Hns]. destruct Hp as (HW & HT & HC).
  unfold deliver in Hd. destruct (waiting d !! s_token v) as [w|] eqn:Hwt; [|done].
  destruct (awaits d !! w) as [a|] eqn:Ha; [|done]. destruct (right_tunnel (s_tunnel v) a) eqn:Ht; [|done].
  injection Hd as <-. exists (<[c := InChannel w]> loc).
  destruct (HW _ _ Ha) as [A1 A2 A3 A4]. destruct (A4 _ Hwt) as (Htok & Hl & Hch). split; [|split].
  - intros w' a'. simpl. rewrite lookup_insert_Some. intros [[<- <-]|[Hne Ha']].
    + split; simpl.
      * intros c'. destruct (decide (c' = c)) as [->|]; [by rewrite lookup_insert_eq|].
        rewrite lookup_insert_ne by done. rewrite <- A1, Hch. naive_solver.
      * intros c'. rewrite moved_elsewhere by congruence. apply A2.
      * destruct (a_phase a); done.
      * intros t. rewrite lookup_delete_Some. intros [Hne Hx]. destruct (A4 t Hx). congruence.
    + apply (waiter_ok_mono d _ loc _ w' a'); [by apply HW| | |];
        [intros c'; apply moved_elsewhere; congruence..|].
      intros t. simpl. by rewrite lookup_delete_Some; intros [_ ?].
  - intros t w'. simpl. rewrite lookup_delete_Some. intros [_ Hx].
    destruct (decide (w' = w)) as [->|]; [rewrite lookup_insert_eq; by eexists|].
    rewrite lookup_insert_ne by done. eauto.
  - intros c'. destruct (HC c') as (C1 & C2 & C3). unfold conn_ok. simpl.
    destruct (decide (c' = c)) as [->|].
    + rewrite !lookup_insert_eq. split; [naive_solver|]. split; [naive_solver|].
      intros w' [E|E]; simplify_eq. eexists _, _. rewrite lookup_insert_eq. done.
    + rewrite !(lookup_insert_ne _ c c') by done. split; [done|]. split; [done|].
      intros w' Hw'. destruct (C3 w' Hw') as (a' & v0 & B1 & B2 & B3 & B4).
      destruct (decide (w' = w)) as [->|]; simplify_eq.
      * eexists _, v0. rewrite lookup_insert_eq. done.
      * exists a', v0. rewrite lookup_insert_ne by done. done.
Qed.

Lemma placed_step d d' : (∃ loc, placed d loc) → step d d' → ∃ loc, placed d' loc.
Proof.
  intros [loc Hp] Hs.
  destruct Hs as [d d' w token tunnel Hw Hd|d w a ok Ha Hph|d d' w a Ha Hph Hd|d w a Ha Hph|d w a ret Ha Hph
    |d w a ret Ha Hph|d c token tunnel Hc He|d c v ok Hc Hph|d c v ok d' Hc Hph Hd|d c v Hc Hph].
  - exists loc. by eapply placed_enter.
  - exists loc. destruct ok; (apply placed_phase; [done|done| |done|]; by rewrite Hph).
  - unfold Await_receive in Hd. destruct (a_chan a) as [c|] eqn:Hch; [|done]. simplify_eq.
    exists (<[c := Given w]> loc). apply placed_take; [done..|]. left. by rewrite Hph.
  - exists loc. apply placed_phase; [done|done| |done|]; by rewrite Hph.
  - exists loc. by apply placed_abandon.
  - by eapply placed_drain.
  - exists loc. apply placed_serving; [by rewrite Hc|done|done].
  - exists loc. apply placed_serving; [|by destruct ok|done]. intros v0 E. simplify_eq. by rewrite Hph.
  - destruct ok; [eapply placed_delivered; [done|by rewrite Hph|done|done]|].
    exists loc. assert (d' = d) as -> by (unfold deliver in Hd; by repeat case_match; simplify_eq).
    apply placed_serving; [|done|done]. intros v0 E. simplify_eq. by rewrite Hph.
  - exists (<[c := Shut]> loc). apply placed_closed; [done|by rewrite Hph|done].
Qed.

Lemma placed_empty : placed empty ∅.
Proof.
  split; [|split]; [intros w a; simpl; by rewrite lookup_empty..|].
  intros c. unfold conn_ok. simpl. rewrite !lookup_empty. split; [set_solver|]. split; [|naive_solver].
  split; [by intros []|]. by intros (v & Hv & _).
Qed.

Lemma reachable_placed d : run step empty d → ∃ loc, placed d loc.
Proof. intros Hr. apply (run_invariant step _ placed_step _ _ Hr). exists ∅. apply placed_empty. Qed.

(** ** What the callers see *)

(** A connection that was dialled back is given to at most one waiter, open, with the
    token the waiter registered and, if the phone was identified, for its tunnel. *)
Lemma given_to_one_waiter d w1 a1 w2 a2 c :
  run step empty d → awaits d !! w1 = Some a1 → awaits d !! w2 = Some a2 →
  phase_ret (a_phase a1) = Some c → phase_ret (a_phase a2) = Some c →
  w1 = w2 ∧ c ∉ shut d ∧
  ∃ v, serves d !! c = Some v ∧ s_token v = a_token a1 ∧ (s_tunnel v = "" ∨ s_tunnel v = a_tunnel a1).
Proof.
  intros Hr H1 H2 R1 R2. destruct (reachable_placed d Hr) as (loc & HW & _ & HC).
  destruct (HW _ _ H1) as [_ B1 _ _], (HW _ _ H2) as [_ B2 _ _].
  apply B1 in R1. apply B2 in R2. rewrite R1 in R2. simplify_eq.
  destruct (HC c) as (C1 & _ & C3). split; [done|]. split; [rewrite C1, R1; naive_solver|].
  destruct (C3 w2 (or_intror R1)) as (a & v & E1 & E2 & E3 & E4). simplify_eq. exists v.
  split; [done|]. split; [done|]. unfold right_tunnel in E4.
  apply orb_prop in E4 as [->%String.eqb_eq| ->%String.eqb_eq]; auto.
Qed.

(** C37. No data connection leaks. When every waiter and every phone request has
    finished, each data connection that was taken over from the HTTP server was either
    returned by an [Await] call and left open, or closed and returned by none. *)
Theorem connection_used_or_closed d c v :
  run step empty d →
  map_Forall (λ _ a, finished (a_phase a) = true) (awaits d) →
  map_Forall (λ _ v, s_phase v = Served) (serves d) →
  serves d !! c = Some v →
  (c ∈ shut d ∧ ∀ w a, awaits d !! w = Some a → a_phase a ≠ Finished (Some c)) ∨
  (c ∉ shut d ∧ ∃ w a, awaits d !! w = Some a ∧ a_phase a = Finished (Some c)).
Proof.
  intros Hr Hf Hs Hv. destruct (reachable_placed d Hr) as (loc & HW & _ & HC).
  destruct (HC c) as (C1 & C2 & C3). destruct C2 as [_ [p Hp]]; [exists v; split; [done|by eapply Hs]|].
  destruct p as [w|w|].
  - destruct (C3 w (or_introl Hp)) as (a & _ & Ha & _). destruct (HW _ _ Ha) as [A1 _ A3 _].
    apply A1 in Hp. rewrite (A3 (Hf _ _ Ha)) in Hp. done.
  - right. split; [rewrite C1, Hp; naive_solver|].
    destruct (C3 w (or_intror Hp)) as (a & _ & Ha & _). exists w, a. split; [done|].
    destruct (HW _ _ Ha) as [_ A2 _ _]. apply A2 in Hp. specialize (Hf _ _ Ha). simpl in Hf.
    destruct (a_phase a); by simplify_eq/=.
  - left. split; [by rewrite C1|]. intros w a Ha E. destruct (HW _ _ Ha) as [_ A2 _ _].
    assert (loc !! c = Some (Given w)) by (apply A2; by rewrite E). congruence.
Qed.

(** ** Witnesses: a phone that answers, and its late double *)
Definition sample_answered : dials :=
  Dials ∅ {[0%nat := Waiter "t" "abc" None (Finished (Some 7%nat))]}
    (<[7%nat := Serve "t" "abc" Served]> {[8%nat := Serve "t" "abc" Served]}) {[8%nat]}.

Lemma sample_run : run step empty sample_answered.
Proof.
  eapply run_step; [by apply (step_await empty _ 0 "t" "abc")|].
  eapply run_step; [by apply (step_opened _ 0 (Waiter "t" "abc" None Opening) true)|].
  eapply run_step; [by apply (step_serve _ 7 "t" "abc")|].
  eapply run_step; [by apply (step_serve _ 8 "t" "abc")|].
  eapply run_step; [by apply (step_upgraded _ 7 (Serve "t" "abc" Upgrading) true)|].
  eapply run_step; [by apply (step_upgraded _ 8 (Serve "t" "abc" Upgrading) true)|].
  eapply run_step; [by apply (step_deliver _ 7 (Serve "t" "abc" Delivering) true)|].
  eapply run_step; [by apply (step_deliver _ 8 (Serve "t" "abc" Delivering) false)|].
  eapply run_step; [by apply (step_receive _ _ 0 (Waiter "t" "abc" (Some 7%nat) Selecting))|].
  eapply run_step; [by apply (step_close _ 8 (Serve "t" "abc" Closing))|].
  eapply run_step; [by apply (step_abandon _ 0 (Waiter "t" "abc" None (Leaving (Some 7%nat))) (Some 7%nat))|].
  eapply run_step; [by apply (step_drain _ 0 (Waiter "t" "abc" None (Draining (Some 7%nat))) (Some 7%nat))|].
  vm_compute. apply run_refl.
Qed.

Lemma given_to_one_waiter_witness :
  0%nat = 0%nat ∧ 7%nat ∉ shut sample_answered ∧
  ∃ v, serves sample_answered !! 7%nat = Some v ∧ s_token v = "t" ∧ (s_tunnel v = "" ∨ s_tunnel v = "abc").
Proof.
  by apply (given_to_one_waiter sample_answered 0 (Waiter "t" "abc" None (Finished (Some 7%nat)))
              0 (Waiter "t" "abc" None (Finished (Some 7%nat))) 7 sample_run).
Defined.

Lemma connection_used_or_closed_witness :
  (8%nat ∈ shut sample_answered ∧
     ∀ w a, awaits sample_answered !! w = Some a → a_phase a ≠ Finished (Some 8%nat)) ∨
  (8%nat ∉ shut sample_answered ∧
     ∃ w a, awaits sample_answered !! w = Some a ∧ a_phase a = Finished (Some 8%nat)).
Proof.
  apply (connection_used_or_closed sample_answered 8 (Serve "t" "abc" Served) sample_run); [| |done].
  - apply (bool_decide_unpack _). by vm_compute.
  - intros c v Hv. unfold sample_answered in Hv. simpl in Hv.
    apply lookup_insert_Some in Hv as [[_ <-]|[_ Hv]]; [done|].
    by apply lookup_singleton_Some in Hv as [_ <-].
Defined.
End DialBack.
