(* ===== verification/PhoneConn.v ===== *)
(** * Phone control connections

    [internal/phoneconn/manager.go] and the control stream of
    [internal/phoneconn/listener.go].  A node keeps one connection object per
    control stream; the manager maps a tunnel name to its newest connection.
    Requests, heartbeats, bans, the drain and the shutdown act on the same
    objects at the same time.

    Objects live in a heap, so that two tables can share one.  The operations
    are functions on the manager's state; the section on interleavings runs the
    registration, the teardown and [CloseAll] of any number of connections at
    the grain of the manager's mutex. *)
From Stdlib Require Import ZArith Lia Ascii String Strings.Byte.
From S2P Require Import Prelude GoStr Wire Valkey Router Edge.
Local Open Scope string_scope.
Local Open Scope list_scope.
Local Open Scope Z_scope.

(** ** The interface to the routing table *)
Class PhoneRouter (B : Type) := {
  pr_BindRoute : string → string → string → B → result Router.route_error unit * B;
  pr_Heartbeat : string → string → B → (Router.HeartbeatResult * option Valkey.rerr) * B;
  pr_Unbind : string → string → B → result Router.route_error unit * B;
  pr_SelfHeal : string → string → string → B → (Router.SelfHealResult * result Router.route_error unit) * B;
  pr_ConnID : B → string * B                   (* store.MustConnID *)
}.

(** The registry provides it; connection ids are random text. *)
#[export] Instance registry_router {S} `{Valkey.ValkeyServer S} `{ValkeyClient.TokenSupply}
    (r : Router.Registry) : PhoneRouter (Valkey.world S) := {
  pr_BindRoute := Router.BindRoute r;
  pr_Heartbeat := Router.Heartbeat r;
  pr_Unbind := Router.Unbind;
  pr_SelfHeal := Router.BindRouteIfAbsentOrOwner r;
  pr_ConnID := ValkeyClient.mintToken
}.

Module PhoneConn.
Import Wire.

(** ** Connections *)
Record conn := MkConn {
  c_name : string; c_keyFP : string; c_certSerial : string; c_connID : string;
  c_start : Z; c_notAfter : option Z;      (* [None] is the zero time *)
  c_send : list bytes;                     (* the send buffer, oldest first *)
  c_lastPong : Z;
  c_closed : bool; c_reason : string;      (* [close] also cancels the context *)
  c_moveDue : bool
}.

Definition send_buffer : nat := 32.

Definition with_id (id : string) (c : conn) : conn :=
  MkConn (c_name c) (c_keyFP c) (c_certSerial c) id (c_start c) (c_notAfter c) (c_send c) (c_lastPong c)
    (c_closed c) (c_reason c) (c_moveDue c).
Definition with_send (q : list bytes) (c : conn) : conn :=
  MkConn (c_name c) (c_keyFP c) (c_certSerial c) (c_connID c) (c_start c) (c_notAfter c) q (c_lastPong c)
    (c_closed c) (c_reason c) (c_moveDue c).
Definition with_pong (t : Z) (c : conn) : conn :=
  MkConn (c_name c) (c_keyFP c) (c_certSerial c) (c_connID c) (c_start c) (c_notAfter c) (c_send c) t
    (c_closed c) (c_reason c) (c_moveDue c).
Definition with_due (b : bool) (c : conn) : conn :=
  MkConn (c_name c) (c_keyFP c) (c_certSerial c) (c_connID c) (c_start c) (c_notAfter c) (c_send c)
    (c_lastPong c) (c_closed c) (c_reason c) b.

(** [conn.close]: the first close decides the reason. *)
Definition close (reason : string) (c : conn) : conn :=
  if c_closed c then c
  else MkConn (c_name c) (c_keyFP c) (c_certSerial c) (c_connID c) (c_start c) (c_notAfter c) (c_send c)
         (c_lastPong c) true reason (c_moveDue c).

Definition closeReason (c : conn) : string :=
  if String.eqb (c_reason c) "" then "phone-close" else c_reason c.

(** A non-blocking send: [None] when the buffer is full. *)
Definition try_send (frame : bytes) (c : conn) : option conn :=
  if (length (c_send c) <? send_buffer)%nat then Some (with_send (c_send c ++ [frame]) c) else None.

(** ** The manager *)
Inductive event :=
| EOpen
| EClose (reason : string)
| ELogStart (connID name : string)
| ELogEnd (connID name reason : string)
| EClosedHook (name connID reason : string).

Record manager (B : Type) := Mgr {
  m_b : B;
  m_heap : gmap nat conn;
  m_conns : gmap string nat;
  m_closeAll : string;
  m_draining : bool;
  m_moveAddrs : list string;
  m_trace : list event
}.
Arguments Mgr {B} _ _ _ _ _ _ _.
Arguments m_b {B} _.
Arguments m_heap {B} _.
Arguments m_conns {B} _.
Arguments m_closeAll {B} _.
Arguments m_draining {B} _.
Arguments m_moveAddrs {B} _.
Arguments m_trace {B} _.

Section operations.
Context {B : Type} `{PhoneRouter B}.
Implicit Type m : manager B.

Definition on_heap (f : gmap nat conn → gmap nat conn) m : manager B :=
  Mgr (m_b m) (f (m_heap m)) (m_conns m) (m_closeAll m) (m_draining m) (m_moveAddrs m) (m_trace m).
Definition on_conn (id : nat) (f : conn → conn) m : manager B := on_heap (alter f id) m.
Definition on_conns (f : gmap string nat → gmap string nat) m : manager B :=
  Mgr (m_b m) (m_heap m) (f (m_conns m)) (m_closeAll m) (m_draining m) (m_moveAddrs m) (m_trace m).
Definition emit (es : list event) m : manager B :=
  Mgr (m_b m) (m_heap m) (m_conns m) (m_closeAll m) (m_draining m) (m_moveAddrs m) (m_trace m ++ es).
Definition router {A} (f : B → A * B) m : A * manager B :=
  let '(a, b) := f (m_b m) in
  (a, Mgr b (m_heap m) (m_conns m) (m_closeAll m) (m_draining m) (m_moveAddrs m) (m_trace m)).

Definition lookup_conn (name : string) m : option (nat * conn) :=
  id ← m_conns m !! name; c ← m_heap m !! id; Some (id, c).

Definition HasConn (name : string) m : bool :=
  match lookup_conn name m with Some (_, c) => negb (c_closed c) | None => false end.

(** ** Registration *)
Definition bindAttempts : nat := 3.

(** The bind loop; a collision mints another id until the attempts are over. *)
Fixpoint bind_loop (attempts : nat) (nodeID : string) (id : nat) m : result Router.route_error unit * manager B :=
  match attempts, m_heap m !! id with
  | O, _ | _, None => (Err Router.ErrConnIDCollision, m)
  | Datatypes.S n, Some c =>
      let '(r, m) := router (pr_BindRoute (c_name c) nodeID (c_connID c)) m in
      match r with
      | Ok _ => (Ok tt, m)
      | Err Router.ErrConnIDCollision =>
          if (n =? 0)%nat then (Err Router.ErrConnIDCollision, m)
          else
            let '(fresh, m) := router pr_ConnID m in
            bind_loop n nodeID id (on_conn id (with_id fresh) m)
      | Err e => (Err e, m)
      end
  end.

(** The locked insertion: the older connection of the name is closed. *)
Definition insert_conn (id : nat) (name : string) m : manager B :=
  let m := match m_conns m !! name with
           | Some old => on_conn old (close "phone-close") m
           | None => m
           end in
  on_conns <[name := id]> m.

Definition late_close (late : string) (id : nat) m : manager B :=
  if String.eqb late "" then m else on_conn id (close late) m.

Definition open_events (id : nat) m : manager B :=
  match m_heap m !! id with
  | Some c => emit [EOpen; ELogStart (c_connID c) (c_name c)] m
  | None => m
  end.

Definition remove_conn (id : nat) m : manager B :=
  match m_heap m !! id with
  | Some c => if decide (m_conns m !! c_name c = Some id) then on_conns (delete (c_name c)) m else m
  | None => m
  end.

(** The deferred cleanup when a panic interrupts [register]. *)
Definition abandon (id : nat) (opened : bool) m : manager B :=
  let m := remove_conn id (on_conn id (close "error") m) in
  match m_heap m !! id with
  | Some c =>
      let '(_, m) := router (pr_Unbind (c_name c) (c_connID c)) m in
      if opened then emit [EClose "error"] m else m
  | None => m
  end.

Definition register (nodeID : string) (id : nat) m : result Router.route_error unit * manager B :=
  let '(r, m) := bind_loop bindAttempts nodeID id m in
  match r, m_heap m !! id with
  | Err e, _ => (Err e, m)
  | Ok _, None => (Ok tt, m)
  | Ok _, Some c =>
      let late := m_closeAll m in
      (Ok tt, open_events id (late_close late id (insert_conn id (c_name c) m)))
  end.

(** The reports at the end of a teardown. *)
Definition end_events (id : nat) m : manager B :=
  match m_heap m !! id with
  | Some c => emit [ELogEnd (c_connID c) (c_name c) (closeReason c); EClose (closeReason c);
                    EClosedHook (c_name c) (c_connID c) (closeReason c)] m
  | None => m
  end.

(** The teardown, after the heartbeat loop has exited. *)
Definition teardown (id : nat) m : manager B :=
  let m := remove_conn id (on_conn id (close "phone-close") m) in
  match m_heap m !! id with
  | Some c => let '(_, m) := router (pr_Unbind (c_name c) (c_connID c)) m in end_events id m
  | None => m
  end.

(** ** Heartbeats: one tick; [false] when the loop ends *)
Definition heartbeat_interval (routeTTL : Z) : Z :=
  let i := Z.quot routeTTL 3 in if i <=? 0 then second else i.

Definition heartbeat_tick (nodeID : string) (id : nat) m : bool * manager B :=
  match m_heap m !! id with
  | None => (false, m)
  | Some c =>
      if c_closed c then (false, m)
      else
        let '(r, m) := router (pr_Heartbeat (c_name c) (c_connID c)) m in
        match r with
        | (_, Some _) => (true, m)
        | (Router.HeartbeatRefreshed, None) => (true, m)
        | (Router.HeartbeatNotOwner, None) =>
            if m_draining m then (false, m) else (false, on_conn id (close "phone-close") m)
        | (Router.HeartbeatMissing, None) =>
            let '(_, m) := router (pr_SelfHeal (c_name c) nodeID (c_connID c)) m in (true, m)
        end
  end.

(** ** Frames to the phone *)
Inductive send_error := ErrNoConn | SendEncode | SendCtx.

(** [queued]: the select took the send before the context's end. *)
Definition SendOpen {P} (marshal : P → option bytes) (name connID : string) (open : P) (queued : bool) m
    : result send_error unit * manager B :=
  match lookup_conn name m with
  | None => (Err ErrNoConn, m)
  | Some (id, c) =>
      if c_closed c || negb (String.eqb (c_connID c) connID) then (Err ErrNoConn, m)
      else match EncodeControl marshal CtrlOpen (Some open) with
           | Err _ => (Err SendEncode, m)
           | Ok frame =>
               match (if queued then try_send frame c else None) with
               | Some c' => (Ok tt, on_conn id (λ _, c') m)
               | None => (Err SendCtx, m)
               end
           end
  end.

Definition SendRenewNudge {P} (marshal : P → option bytes) (name : string) (payload : P) m
    : bool * manager B :=
  match lookup_conn name m with
  | None => (false, m)
  | Some (id, c) =>
      if c_closed c then (false, m)
      else match EncodeControl marshal CtrlRenewNudge (Some payload) with
           | Err _ => (false, m)
           | Ok frame =>
               match try_send frame c with
               | Some c' => (true, on_conn id (λ _, c') m)
               | None => (false, m)
               end
           end
  end.

(** ** Drain *)

(** Fisher-Yates with the given draws; [draw i] is in [0..i]. *)
Fixpoint shuffle (i : nat) (draw : nat → nat) (addrs : list string) : list string :=
  match i with
  | O => addrs
  | Datatypes.S i' =>
      let j := draw i in
      match addrs !! i, addrs !! j with
      | Some a, Some b => shuffle i' draw (<[j := a]> (<[i := b]> addrs))
      | _, _ => shuffle i' draw addrs
      end
  end.

Inductive move_error := ErrNoMoveTarget | MoveFailed.

(** [draws] is [None] when the random source fails. *)
Definition moveFrame (marshal : list string → option bytes) (draws : option (nat → nat)) m
    : result move_error bytes :=
  match m_moveAddrs m with
  | [] => Err ErrNoMoveTarget
  | addrs =>
      match draws with
      | None => Err MoveFailed
      | Some draw =>
          match EncodeControl marshal CtrlMove (Some (shuffle (length addrs - 1) draw addrs)) with
          | Err _ => Err MoveFailed
          | Ok frame => Ok frame
          end
      end
  end.

Definition sendMove (marshal : list string → option bytes) (draws : option (nat → nat)) (id : nat) m : manager B :=
  match m_heap m !! id with
  | None => m
  | Some c =>
      if c_closed c then m
      else match moveFrame marshal draws m with
           | Err ErrNoMoveTarget => m
           | Err MoveFailed => on_conn id (with_due true) m
           | Ok frame =>
               match try_send frame c with
               | Some c' => on_conn id (λ _, with_due false c') m
               | None => on_conn id (with_due true) m
               end
           end
  end.

Definition sendMoves (marshal : list string → option bytes) (draws : nat → option (nat → nat))
    (ids : list nat) m : manager B :=
  fold_left (λ m id, sendMove marshal (draws id) id m) ids m.

Definition current_ids m : list nat := (map_to_list (m_conns m)).*2.

Definition StartDrain (marshal : list string → option bytes) (draws : nat → option (nat → nat))
    (addrs : list string) m : manager B :=
  let m := Mgr (m_b m) (m_heap m) (m_conns m) (m_closeAll m) true addrs (m_trace m) in
  match addrs with
  | [] => m
  | _ => sendMoves marshal draws (current_ids m) m
  end.

Definition is_due m (id : nat) : bool := match m_heap m !! id with Some c => c_moveDue c | None => false end.

Definition RetryMoves (marshal : list string → option bytes) (draws : nat → option (nat → nat)) m : manager B :=
  sendMoves marshal draws (List.filter (is_due m) (current_ids m)) m.

(** ** Closing *)
Definition close_all (reason : string) (ids : list nat) m : manager B :=
  fold_left (λ m id, on_conn id (close reason) m) ids m.

Definition CloseAll (reason : string) m : manager B :=
  close_all reason (current_ids m)
    (Mgr (m_b m) (m_heap m) (m_conns m) reason (m_draining m) (m_moveAddrs m) (m_trace m)).

Definition EvictBanned (match_ : string → bool) m : manager B :=
  close_all "ban-evict" (List.filter (λ id, match m_heap m !! id with Some c => match_ (c_name c) | None => false end)
                           (current_ids m)) m.

Definition Close (name reason : string) m : bool * manager B :=
  match lookup_conn name m with
  | Some (id, c) => if c_closed c then (false, m) else (true, on_conn id (close reason) m)
  | None => (false, m)
  end.

Definition is_live m (id : nat) : bool := match m_heap m !! id with Some c => negb (c_closed c) | None => false end.
Definition LiveConns m : Z := len (List.filter (is_live m) (current_ids m)).
Definition ConnectedNames m : list string :=
  (List.filter (λ ni, is_live m ni.2) (map_to_list (m_conns m))).*1.

(** ** The control stream ([listener.go]) *)
Definition livenessMissedPings : Z := 3.

(** What the loop of [runControl] selects; a write succeeds or not. *)
Inductive ctl :=
| CtlDone                       (* the context has ended *)
| CtlSend (wok : bool)          (* a queued frame *)
| CtlPing (now : Z) (wok : bool).

(** One turn: whether the loop goes on, and the bytes written. *)
Definition control_step (pingInterval : Z) (id : nat) (e : ctl) m : bool * bytes * manager B :=
  match m_heap m !! id with
  | None => (false, [], m)
  | Some c =>
      match e with
      | CtlDone => (negb (c_closed c), [], m)
      | CtlSend wok =>
          match c_send c with
          | [] => (true, [], m)
          | frame :: rest =>
              let m := on_conn id (with_send rest) m in
              if wok then (true, frame, m) else (false, [], m)
          end
      | CtlPing now wok =>
          if match c_notAfter c with Some t => t <? now | None => false end
          then (false, [], on_conn id (close "cert-expired") m)
          else if livenessMissedPings * pingInterval <? now - c_lastPong c
          then (false, [], on_conn id (close "liveness-timeout") m)
          else match EncodeControl (λ _ : unit, None) CtrlPing None with
               | Err _ => (false, [], m)
               | Ok pf => if wok then (true, pf, m) else (false, [], m)
               end
      end
  end.

Fixpoint runControl (pingInterval : Z) (id : nat) (es : list ctl) m : bytes * manager B :=
  match es with
  | [] => ([], m)
  | e :: es' =>
      let '(more, out, m) := control_step pingInterval id e m in
      if more then let '(rest, m) := runControl pingInterval id es' m in (out ++ rest, m) else (out, m)
  end.
End operations.

(** The frames of one connection; [now] is the clock at each frame.  The bytes
    are what the phone sends before it closes its side. *)
Fixpoint readPump (fuel : nat) (now : nat → Z) (body : bytes) (c : conn) : conn :=
  match fuel with
  | O => c
  | Datatypes.S f =>
      match readControlFrame body with
      | Err ReadTooLarge => close "protocol-error" c
      | Err ReadEOF => close "phone-close" c
      | Ok (frame, rest) =>
          match DecodeControl frame with
          | Err _ => close "protocol-error" c
          | Ok (typ, _) =>
              readPump f now rest (if decide (typ = CtrlPong) then with_pong (now f) c else c)
          end
      end
  end.

(** ** Requests *)
Record client_cert := { cc_CN : string; cc_mesh : bool; cc_keyFP : string; cc_serial : string; cc_notAfter : Z }.
Record request := {
  r_path : string; r_method : string; r_protoMajor : Z; r_peer : string; r_cert : option client_cert
}.

Inductive answer :=
| Refused (status : Z) (reason : string)
| ServeDialBack
| ServeControl (id : client_cert)
| ServeIssue (name : string)
| PathNotFound.

Section listener.
Context (ParseAddr : string → option string).
Context (banIP banTunnel validName : option (string → bool)).

Definition asks_ban (f : option (string → bool)) (x : string) : bool :=
  match f with Some f => f x | None => false end.

Definition identity (r : request) : option client_cert :=
  match r_cert r with
  | None => None
  | Some leaf =>
      if cc_mesh leaf then None
      else if match validName with Some f => negb (f (cc_CN leaf)) | None => false end then None
      else Some leaf
  end.

Definition ServeHTTP (r : request) : answer :=
  match ParseAddr (Edge.peerAddr (r_peer r)) with
  | None => Refused 400 "bad_source_ip"
  | Some addr =>
      if asks_ban banIP addr then Refused 403 "banned"
      else if String.eqb (r_path r) "/api/v1/data" then ServeDialBack
      else
        match identity r with
        | None => Refused 403 "forbidden"
        | Some id =>
            if asks_ban banTunnel (cc_CN id) then Refused 403 "banned"
            else if String.eqb (r_path r) "/api/v1/control" then
              if negb (String.eqb (r_method r) "POST") then Refused 405 "method not allowed"
              else if negb (r_protoMajor r =? 2) then Refused 505 "http/2 required"
              else ServeControl id
            else if String.eqb (r_path r) "/api/v1/issue" then ServeIssue (cc_CN id)
            else PathNotFound
        end
  end.
End listener.

(** ** A whole control connection *)
Section serving.
Context {B : Type} `{PhoneRouter B}.
Context (nodeID : string) (pingInterval : Z) (pendingLimit : Z) (marshal : list string → option bytes).
Implicit Type m : manager B.

(** The connection object of a request. *)
Definition new_conn (id : client_cert) (connID : string) (now : Z) : conn :=
  MkConn (cc_CN id) (cc_keyFP id) (cc_serial id) connID now (Some (cc_notAfter id)) [] now false "" false.

Inductive served := Draining_ (frame : option bytes) | TooManyPending | BindFailed | Ended (out : bytes).

Definition serveControl (cert : client_cert) (now : Z) (id : nat) (pending : Z) (draws : option (nat → nat))
    (es : list ctl) m : served * manager B :=
  if m_draining m then
    (Draining_ (match moveFrame marshal draws m with Ok f => Some f | Err _ => None end), m)
  else if pendingLimit <=? pending then (TooManyPending, m)
  else
    let '(connID, m) := router pr_ConnID m in
    let m := on_heap <[id := new_conn cert connID now]> m in
    let '(r, m) := register nodeID id m in
    match r with
    | Err _ => (BindFailed, m)
    | Ok _ =>
        let m := if m_draining m then sendMove marshal draws id m else m in
        let '(out, m) := runControl pingInterval id es m in
        (Ended out, teardown id m)
    end.
End serving.

(** ** The reader always ends the connection *)
Lemma close_closed reason c : c_closed (close reason c) = true.
Proof. unfold close. by destruct (c_closed c) eqn:E. Qed.

Definition stop_reason (e : read_error) : string :=
  match e with ReadTooLarge => "protocol-error" | ReadEOF => "phone-close" end.

Definition is_pong (frame : bytes) : Prop := ∃ body, DecodeControl frame = Ok (CtrlPong, body).

Lemma readPump_spec fuel now body c :
  (length body < fuel)%nat →
  let '(frames, e) := read_frames fuel body in
  ∃ c', readPump fuel now body c = close (stop_reason e) c' ∧
    c_closed c' = c_closed c ∧ c_reason c' = c_reason c ∧ c_connID c' = c_connID c ∧
    (c_lastPong c' = c_lastPong c ∨ ∃ f, f ∈ frames ∧ is_pong f).
Proof.
  revert body c. induction fuel as [|fuel IH]; intros body c Hf; [lia|]. cbn [read_frames readPump].
  destruct (readControlFrame body) as [[frame rest]|e] eqn:Er.
  2:{ exists c. destruct e; simpl; split_and!; auto. }
  apply read_frame_shape in Er as [(t & pl & Hfr & Hpl) ->]. rewrite length_app in Hf.
  assert (1 ≤ length frame)%nat by (subst frame; simpl; lia).
  pose proof Hfr as Hdec. rewrite Hfr, decode_frame by done.
  set (c1 := if decide (t = CtrlPong) then with_pong (now fuel) c else c).
  specialize (IH rest c1 ltac:(lia)). destruct (read_frames fuel rest) as [fs e].
  destruct IH as (c' & -> & I1 & I2 & I3 & I4). exists c'. split; [done|].
  unfold c1 in *. case_decide as Ht; simpl in *; split_and!; try done.
  - right. exists frame. split; [subst frame; left|]. subst t. exists pl. rewrite Hfr. by apply decode_frame.
  - destruct I4 as [?|(f & ? & ?)]; [by left|]. right. exists f. split; [by right|done].
Qed.

(** The reader of a control stream ends on every input, with the connection closed for
    the right reason, and only pongs count as signs of life. *)
Lemma readPump_ends_connection now body c :
  let '(frames, e) := read_frames (Datatypes.S (length body)) body in
  let c' := readPump (Datatypes.S (length body)) now body c in
  c_closed c' = true ∧
  c_reason c' = (if c_closed c then c_reason c else stop_reason e) ∧
  (Forall (λ f, ¬ is_pong f) frames → c_lastPong c' = c_lastPong c).
Proof.
  pose proof (readPump_spec (Datatypes.S (length body)) now body c ltac:(lia)) as Hs.
  destruct (read_frames _ body) as [frames e]. destruct Hs as (c1 & -> & H1 & H2 & H3 & H4).
  split; [apply close_closed|]. split.
  - unfold close. rewrite H1. destruct (c_closed c); [done|]. done.
  - intros Hno. rewrite Forall_forall in Hno. destruct H4 as [<-|(f & Hf & Hp)]; [|by destruct (Hno f)].
    unfold close. by destruct (c_closed c1).
Qed.

(** ** Who gets past the listener *)

(** The phone listener hands a request to the control stream or to issuance only if its
    address parses and is not banned, its client certificate is not a mesh certificate
    and names a valid tunnel that is not banned; a control stream also needs POST over
    HTTP/2. *)
Lemma control_only_for_valid_identity ParseAddr banIP banTunnel validName r :
  (∀ id, ServeHTTP ParseAddr banIP banTunnel validName r = ServeControl id →
     r_method r = "POST" ∧ r_protoMajor r = 2) ∧
  ∀ name, (∃ id, ServeHTTP ParseAddr banIP banTunnel validName r = ServeControl id ∧ cc_CN id = name) ∨
          ServeHTTP ParseAddr banIP banTunnel validName r = ServeIssue name →
    (∃ addr, ParseAddr (Edge.peerAddr (r_peer r)) = Some addr ∧ asks_ban banIP addr = false) ∧
    (∃ leaf, r_cert r = Some leaf ∧ cc_CN leaf = name ∧ cc_mesh leaf = false) ∧
    asks_ban banTunnel name = false ∧ (∀ f, validName = Some f → f name = true).
Proof.
  unfold ServeHTTP, identity.
  destruct (ParseAddr _) as [addr|] eqn:Ea; [|split; naive_solver].
  destruct (asks_ban banIP addr) eqn:Eb; [split; naive_solver|].
  destruct (String.eqb (r_path r) "/api/v1/data"); [split; naive_solver|].
  destruct (r_cert r) as [leaf|] eqn:Ec; [|split; naive_solver].
  destruct (cc_mesh leaf) eqn:Em; [split; naive_solver|].
  destruct (match validName with Some f => negb (f (cc_CN leaf)) | None => false end) eqn:Ev; [split; naive_solver|].
  destruct (asks_ban banTunnel (cc_CN leaf)) eqn:Et; [split; naive_solver|].
  assert (∀ f, validName = Some f → f (cc_CN leaf) = true) as Hv.
  { intros f ->. by apply negb_false_iff. }
  destruct (String.eqb (r_path r) "/api/v1/control").
  - destruct (String.eqb_spec (r_method r) "POST"); simpl; [|split; naive_solver].
    destruct (Z.eqb_spec (r_protoMajor r) 2); simpl; [|split; naive_solver].
    split; [done|]. intros name [(id & [= <-] & <-)|[=]]. eauto 10.
  - destruct (String.eqb (r_path r) "/api/v1/issue"); [|split; naive_solver].
    split; [naive_solver|]. intros name [(id & [=] & _)|[= <-]]. eauto 10.
Qed.

(** ** Registrations, teardowns and shutdown, interleaved

    A connection whose route is bound is inserted under the manager's mutex,
    reading the shutdown's reason there; it is closed late if there is one, and
    reported open.  Its teardown closes it, removes it under the mutex and
    reports its end.  Anything may close it at any time.  [CloseAll] sets the
    reason and collects its victims under the mutex and closes them after. *)
Inductive stage :=
| Bound                     (* the route is bound, the insertion still to come *)
| Inserted (late : string)
| Running
| Leaving                   (* closed by its teardown *)
| Removed
| Gone.

Section interleaving.
Context {B : Type} `{PhoneRouter B}.

Record system := System {
  mgr : manager B;
  stages : gmap nat stage;
  victims : list (string * nat)
}.

(** Changes that leave a connection's identity and its close alone. *)
Definition data_change (f : conn → conn) : Prop :=
  (∃ q, f = with_send q) ∨ (∃ t, f = with_pong t) ∨ (∃ b, f = with_due b).

Definition with_reason (reason : string) (m : manager B) : manager B :=
  Mgr (m_b m) (m_heap m) (m_conns m) reason (m_draining m) (m_moveAddrs m) (m_trace m).
Definition with_env (b : B) (draining : bool) (addrs : list string) (m : manager B) : manager B :=
  Mgr b (m_heap m) (m_conns m) (m_closeAll m) draining addrs (m_trace m).

Inductive mstep : system → system → Prop :=
| ms_bound s id c :
    m_heap (mgr s) !! id = None → stages s !! id = None → c_closed c = false →
    mstep s (System (on_heap <[id := c]> (mgr s)) (<[id := Bound]> (stages s)) (victims s))
| ms_insert s id c :
    stages s !! id = Some Bound → m_heap (mgr s) !! id = Some c →
    mstep s (System (insert_conn id (c_name c) (mgr s))
               (<[id := Inserted (m_closeAll (mgr s))]> (stages s)) (victims s))
| ms_open s id late :
    stages s !! id = Some (Inserted late) →
    mstep s (System (open_events id (late_close late id (mgr s))) (<[id := Running]> (stages s)) (victims s))
| ms_leave s id :
    stages s !! id = Some Running →
    mstep s (System (on_conn id (close "phone-close") (mgr s)) (<[id := Leaving]> (stages s)) (victims s))
| ms_remove s id :
    stages s !! id = Some Leaving →
    mstep s (System (remove_conn id (mgr s)) (<[id := Removed]> (stages s)) (victims s))
| ms_end s id :
    stages s !! id = Some Removed →
    mstep s (System (end_events id (mgr s)) (<[id := Gone]> (stages s)) (victims s))
| ms_close s id reason :
    mstep s (System (on_conn id (close reason) (mgr s)) (stages s) (victims s))
| ms_data s id f :
    data_change f → mstep s (System (on_conn id f (mgr s)) (stages s) (victims s))
| ms_env s b draining addrs :
    mstep s (System (with_env b draining addrs (mgr s)) (stages s) (victims s))
| ms_closeall s reason :
    reason ≠ "" →
    mstep s (System (with_reason reason (mgr s)) (stages s)
               (victims s ++ map (pair reason) (current_ids (mgr s))))
| ms_victim s reason id vs :
    victims s = (reason, id) :: vs →
    mstep s (System (on_conn id (close reason) (mgr s)) (stages s) vs).

Definition start (b : B) : system := System (Mgr b ∅ ∅ "" false [] []) ∅ [].

(** A connection the manager's table may hold. *)
Definition held (p : stage) : bool := match p with Inserted _ | Running | Leaving => true | _ => false end.
Definition leaving (p : stage) : bool := match p with Leaving | Removed | Gone => true | _ => false end.
Definition opened (p : stage) : bool := match p with Bound | Inserted _ => false | _ => true end.
Definition gone (p : stage) : bool := match p with Gone => true | _ => false end.
Definition is_open (e : event) : bool := match e with EOpen => true | _ => false end.
Definition is_close (e : event) : bool := match e with EClose _ => true | _ => false end.
Definition reports (f : event → bool) (tr : list event) : Z := len (List.filter f tr).

Record sys_inv (s : system) : Prop := {
  si_heap id p : stages s !! id = Some p → is_Some (m_heap (mgr s) !! id);
  si_table n id : m_conns (mgr s) !! n = Some id →
    ∃ c p, m_heap (mgr s) !! id = Some c ∧ c_name c = n ∧ stages s !! id = Some p ∧ held p = true;
  si_live id c p : stages s !! id = Some p → held p = true → m_heap (mgr s) !! id = Some c →
    c_closed c = false → m_conns (mgr s) !! c_name c = Some id;
  si_left id c p : stages s !! id = Some p → leaving p = true → m_heap (mgr s) !! id = Some c →
    c_closed c = true;
  si_late id c p : m_closeAll (mgr s) ≠ "" → stages s !! id = Some p → m_heap (mgr s) !! id = Some c →
    c_closed c = false →
    match p with
    | Running => id ∈ (victims s).*2
    | Inserted late => late ≠ "" ∨ id ∈ (victims s).*2
    | _ => True
    end;
  si_opened : reports is_open (m_trace (mgr s)) = count_if opened (stages s);
  si_closed : reports is_close (m_trace (mgr s)) = count_if gone (stages s);
  si_ended id c : stages s !! id = Some Gone → m_heap (mgr s) !! id = Some c →
    ELogEnd (c_connID c) (c_name c) (closeReason c) ∈ m_trace (mgr s)
}.
(** A change of one connection that leaves its identity and a finished close
    alone. *)
Definition tame (f : conn → conn) : Prop :=
  ∀ c, c_name (f c) = c_name c ∧ c_connID (f c) = c_connID c ∧
       (c_closed c = true → c_closed (f c) = true ∧ c_reason (f c) = c_reason c).

Lemma close_tame reason : tame (close reason).
Proof. intros c. unfold close. by destruct (c_closed c) eqn:E. Qed.

Lemma data_change_tame f : data_change f → tame f.
Proof. intros [[q ->]|[[t ->]|[b ->]]] c; by split_and!. Qed.

Lemma heap_alter id f (m : manager B) k c :
  tame f → m_heap (on_conn id f m) !! k = Some c →
  ∃ c0, m_heap m !! k = Some c0 ∧ c_name c = c_name c0 ∧ c_connID c = c_connID c0 ∧
        (c_closed c0 = true → c_closed c = true ∧ c_reason c = c_reason c0).
Proof.
  intros Hf Hk. simpl in Hk. apply lookup_alter_Some in Hk as [(_ & c0 & Hk & ->)|[_ Hk]];
    eexists; split_and!; try apply Hf; eauto.
Qed.

Lemma closed_before id f (m : manager B) k c :
  tame f → m_heap (on_conn id f m) !! k = Some c → c_closed c = false →
  ∃ c0, m_heap m !! k = Some c0 ∧ c_name c = c_name c0 ∧ c_closed c0 = false.
Proof.
  intros Hf Hk Hc. destruct (heap_alter _ _ _ _ _ Hf Hk) as (c0 & ? & ? & _ & Hcl).
  exists c0. split_and!; [done..|]. destruct (c_closed c0); [|done]. destruct Hcl; congruence.
Qed.

Lemma inv_alter s id f :
  tame f → sys_inv s → sys_inv (System (on_conn id f (mgr s)) (stages s) (victims s)).
Proof.
  intros Hf [H1 H2 H3 H4 H5 H6 H7 H8]. constructor; cbn [mgr stages victims]; try done.
  - intros k p Hk. simpl. rewrite lookup_alter_is_Some. eauto.
  - intros n k Hk. destruct (H2 n k Hk) as (c & p & Hc & Hn & Hp & Hh).
    destruct (Hf c) as [Hfn _]. simpl. destruct (decide (id = k)) as [->|Hne].
    + exists (f c), p. rewrite lookup_alter, decide_True, Hc by done. split_and!; try done; congruence.
    + exists c, p. rewrite lookup_alter_ne by done. done.
  - intros k c p Hp Hh Hk Hc. destruct (closed_before _ _ _ _ _ Hf Hk Hc) as (c0 & ? & -> & ?). eauto.
  - intros k c p Hp Hh Hk. destruct (heap_alter _ _ _ _ _ Hf Hk) as (c0 & Hk0 & _ & _ & Hcl).
    destruct Hcl; [by eapply H4|done].
  - intros k c p Ha Hp Hk Hc. destruct (closed_before _ _ _ _ _ Hf Hk Hc) as (c0 & ? & _ & ?). by eapply H5.
  - intros k c Hp Hk. destruct (heap_alter _ _ _ _ _ Hf Hk) as (c0 & Hk0 & Hn & Hi & Hcl).
    destruct Hcl as [_ Hr]; [by eapply H4|]. unfold closeReason. rewrite Hn, Hi, Hr. by eapply H8.
Qed.

Lemma filter_none {A} (f : A → bool) l : (∀ x, x ∈ l → f x = false) → List.filter f l = [].
Proof.
  induction l as [|x l IH]; intros Hf; [done|]. simpl. rewrite (Hf x) by left. apply IH. intros. apply Hf. by right.
Qed.

Lemma reports_app f tr es : reports f (tr ++ es) = reports f tr + reports f es.
Proof. unfold reports. rewrite List.filter_app, length_app. lia. Qed.

(** A new stage for a connection, with the events it reports. *)
Lemma inv_stage s id c p p' es :
  sys_inv s → stages s !! id = Some p → m_heap (mgr s) !! id = Some c →
  (held p' = true → held p = true) →
  (held p = true → held p' = true ∨ m_conns (mgr s) !! c_name c ≠ Some id) →
  (leaving p' = true → c_closed c = true) →
  (p' = Running → c_closed c = false → m_closeAll (mgr s) ≠ "" → id ∈ (victims s).*2) →
  (∀ late, p' ≠ Inserted late) →
  reports is_open es = b2z (opened p') - b2z (opened p) →
  reports is_close es = b2z (gone p') - b2z (gone p) →
  (p' = Gone → ELogEnd (c_connID c) (c_name c) (closeReason c) ∈ es) →
  sys_inv (System (emit es (mgr s)) (<[id := p']> (stages s)) (victims s)).
Proof.
  intros [H1 H2 H3 H4 H5 H6 H7 H8] Hp Hc Q1 Q2 Q3 Q4 Q5 Q6 Q7 Q8.
  constructor; cbn [mgr stages victims emit m_heap m_conns m_closeAll m_trace].
  - intros k p0 [[<- _]|[_ Hk]]%lookup_insert_Some; eauto.
  - intros n k Hk. destruct (H2 n k Hk) as (c0 & p0 & Hc0 & Hn & Hp0 & Hh).
    destruct (decide (id = k)) as [<-|Hne].
    + simplify_eq. exists c, p'. rewrite lookup_insert, decide_True by done.
      destruct (Q2 Hh) as [?|?]; [done|congruence].
    + exists c0, p0. by rewrite lookup_insert_ne.
  - intros k c0 p0 [[<- <-]|[_ Hk]]%lookup_insert_Some Hh Hk0 Hc0; [simplify_eq|]; eauto.
  - intros k c0 p0 [[<- <-]|[_ Hk]]%lookup_insert_Some Hh Hk0; [simplify_eq|]; eauto.
  - intros k c0 p0 Ha [[<- <-]|[_ Hk]]%lookup_insert_Some Hk0 Hc0; [simplify_eq|by eapply H5].
    destruct p'; try done; [by destruct (Q5 late)|by apply Q4].
  - rewrite reports_app, count_if_insert, Hp, H6, Q6. lia.
  - rewrite reports_app, count_if_insert, Hp, H7, Q7. lia.
  - intros k c0 [[<- Hg]|[_ Hk]]%lookup_insert_Some Hk0; apply elem_of_app; [simplify_eq; right|left]; eauto.
Qed.
Lemma inv_bound s id c :
  sys_inv s → m_heap (mgr s) !! id = None → stages s !! id = None →
  sys_inv (System (on_heap <[id := c]> (mgr s)) (<[id := Bound]> (stages s)) (victims s)).
Proof.
  intros [H1 H2 H3 H4 H5 H6 H7 H8] Hh Hs. constructor; cbn [mgr stages victims on_heap m_heap m_conns m_closeAll m_trace].
  - intros k p Hk. rewrite lookup_insert_is_Some'. apply lookup_insert_Some in Hk as [[<- _]|[_ Hk]]; eauto.
  - intros n k Hk. destruct (H2 n k Hk) as (c0 & p0 & Hc0 & Hn & Hp0 & Hhd). exists c0, p0.
    rewrite !lookup_insert_ne by congruence. done.
  - intros k c0 p [[<- <-]|[Hne Hk]]%lookup_insert_Some Hhd; [done|]. rewrite lookup_insert_ne by done. eauto.
  - intros k c0 p [[<- <-]|[Hne Hk]]%lookup_insert_Some Hhd; [done|]. rewrite lookup_insert_ne by done. eauto.
  - intros k c0 p Ha [[<- <-]|[Hne Hk]]%lookup_insert_Some; [done|]. rewrite lookup_insert_ne by done. by eapply H5.
  - rewrite count_if_insert, Hs, H6. simpl. lia.
  - rewrite count_if_insert, Hs, H7. simpl. lia.
  - intros k c0 [[<- ?]|[Hne Hk]]%lookup_insert_Some; [done|]. rewrite lookup_insert_ne by done. eauto.
Qed.

(** The table's entry for the name is free or closed when it is replaced. *)
Lemma inv_table s id c :
  sys_inv s → stages s !! id = Some Bound → m_heap (mgr s) !! id = Some c →
  (∀ old co, m_conns (mgr s) !! c_name c = Some old → m_heap (mgr s) !! old = Some co → c_closed co = true) →
  sys_inv (System (on_conns <[c_name c := id]> (mgr s))
             (<[id := Inserted (m_closeAll (mgr s))]> (stages s)) (victims s)).
Proof.
  intros [H1 H2 H3 H4 H5 H6 H7 H8] Hs Hc Hold.
  constructor; cbn [mgr stages victims on_conns m_heap m_conns m_closeAll m_trace].
  - intros k p [[<- _]|[_ Hk]]%lookup_insert_Some; eauto.
  - intros n k [[<- <-]|[Hne Hk]]%lookup_insert_Some.
    + exists c. eexists. by rewrite lookup_insert, decide_True.
    + destruct (H2 n k Hk) as (c0 & p0 & Hc0 & Hn & Hp0 & Hhd). exists c0, p0.
      rewrite lookup_insert_ne by (intros ->; simplify_eq). done.
  - intros k c0 p [[<- <-]|[Hne Hk]]%lookup_insert_Some Hhd Hk0 Hcl.
    + simplify_eq. by rewrite lookup_insert, decide_True.
    + pose proof (H3 _ _ _ Hk Hhd Hk0 Hcl) as Ht.
      rewrite lookup_insert_ne; [done|]. intros E. rewrite <- E in Ht. specialize (Hold _ _ Ht Hk0). congruence.
  - intros k c0 p [[<- <-]|[Hne Hk]]%lookup_insert_Some Hhd; [done|]. eauto.
  - intros k c0 p Ha [[<- <-]|[Hne Hk]]%lookup_insert_Some; [by left|]. by eapply H5.
  - rewrite count_if_insert, Hs, H6. simpl. lia.
  - rewrite count_if_insert, Hs, H7. simpl. lia.
  - intros k c0 [[<- ?]|[Hne Hk]]%lookup_insert_Some; [done|]. eauto.
Qed.

Lemma close_lookup reason id (m : manager B) c :
  m_heap m !! id = Some c → m_heap (on_conn id (close reason) m) !! id = Some (close reason c).
Proof. intros Hc. simpl. by rewrite lookup_alter, decide_True, Hc. Qed.

Lemma inv_insert s id c :
  sys_inv s → stages s !! id = Some Bound → m_heap (mgr s) !! id = Some c →
  sys_inv (System (insert_conn id (c_name c) (mgr s))
             (<[id := Inserted (m_closeAll (mgr s))]> (stages s)) (victims s)).
Proof.
  intros Hi Hs Hc. unfold insert_conn. destruct (m_conns (mgr s) !! c_name c) as [old|] eqn:Eo.
  2:{ by apply inv_table; [..|intros ??; rewrite Eo]. }
  destruct (si_table _ Hi _ _ Eo) as (co & po & Hco & _ & Hpo & Hh).
  pose proof (inv_alter _ old _ (close_tame "phone-close") Hi) as Hi'.
  assert (m_heap (on_conn old (close "phone-close") (mgr s)) !! id = Some c) as Hc'.
  { simpl. rewrite lookup_alter_ne; [done|]. intros ->. by simplify_eq. }
  apply (inv_table _ id c Hi' Hs Hc'). intros o co' Ho Hco'. simpl in Ho. simplify_eq.
  cbn [mgr] in Hco'. rewrite (close_lookup _ _ _ _ Hco) in Hco'. simplify_eq. apply close_closed.
Qed.

Lemma inv_open s id late :
  sys_inv s → stages s !! id = Some (Inserted late) →
  sys_inv (System (open_events id (late_close late id (mgr s))) (<[id := Running]> (stages s)) (victims s)).
Proof.
  intros Hi Hs. destruct (si_heap _ Hi _ _ Hs) as [c Hc]. unfold late_close, open_events.
  destruct (String.eqb_spec late "") as [->|Hl].
  - rewrite Hc. apply (inv_stage s id c (Inserted "")); try done; try by left.
    intros _ Hcl Ha. by destruct (si_late _ Hi _ _ _ Ha Hs Hc Hcl).
  - rewrite (close_lookup _ _ _ _ Hc).
    apply (inv_stage (System (on_conn id (close late) (mgr s)) (stages s) (victims s)) id (close late c)
             (Inserted late)); try done; try by left.
    + apply inv_alter; [apply close_tame|done].
    + by apply close_lookup.
    + by rewrite close_closed.
Qed.

Lemma inv_leave s id :
  sys_inv s → stages s !! id = Some Running →
  sys_inv (System (on_conn id (close "phone-close") (mgr s)) (<[id := Leaving]> (stages s)) (victims s)).
Proof.
  intros Hi Hs. destruct (si_heap _ Hi _ _ Hs) as [c Hc].
  pose proof (inv_alter _ id _ (close_tame "phone-close") Hi) as Hi'.
  pose proof (inv_stage _ id (close "phone-close" c) Running Leaving [] Hi' Hs (close_lookup _ _ _ _ Hc)) as Hst.
  unfold emit in Hst; simpl in Hst; rewrite app_nil_r in Hst.
  apply Hst; try done; try by left. intros _. apply close_closed.
Qed.
(** A closed connection leaves the table. *)
Lemma inv_delete s id c :
  sys_inv s → m_heap (mgr s) !! id = Some c → c_closed c = true → m_conns (mgr s) !! c_name c = Some id →
  sys_inv (System (on_conns (delete (c_name c)) (mgr s)) (stages s) (victims s)).
Proof.
  intros [H1 H2 H3 H4 H5 H6 H7 H8] Hc Hcl Ht.
  constructor; cbn [mgr stages victims on_conns m_heap m_conns m_closeAll m_trace]; try done.
  - intros n k [_ Hk]%lookup_delete_Some. by apply H2.
  - intros k c0 p Hp Hh Hk Hc0. rewrite lookup_delete_ne; [by eapply H3|].
    intros E. pose proof (H3 _ _ _ Hp Hh Hk Hc0) as Ht0. rewrite <- E in Ht0. simplify_eq. congruence.
Qed.

Lemma inv_remove s id :
  sys_inv s → stages s !! id = Some Leaving →
  sys_inv (System (remove_conn id (mgr s)) (<[id := Removed]> (stages s)) (victims s)).
Proof.
  intros Hi Hs. destruct (si_heap _ Hi _ _ Hs) as [c Hc].
  pose proof (si_left _ Hi _ _ _ Hs eq_refl Hc) as Hcl. unfold remove_conn. rewrite Hc.
  assert (∀ s', sys_inv s' → stages s' = stages s → m_heap (mgr s') !! id = Some c →
            m_conns (mgr s') !! c_name c ≠ Some id →
            sys_inv (System (mgr s') (<[id := Removed]> (stages s')) (victims s'))) as Hst.
  { intros s' Hi' Es Hc' Hno. pose proof (inv_stage s' id c Leaving Removed [] Hi') as Hst.
    destruct (mgr s') eqn:Em. unfold emit in Hst; simpl in Hst; rewrite app_nil_r in Hst.
    apply Hst; try done; try by rewrite Es. by right. }
  case_decide as Ht.
  - apply (Hst (System (on_conns (delete (c_name c)) (mgr s)) (stages s) (victims s))); try done.
    + by apply (inv_delete s id).
    + simpl. by rewrite lookup_delete, decide_True.
  - by apply Hst.
Qed.

Lemma inv_end s id :
  sys_inv s → stages s !! id = Some Removed →
  sys_inv (System (end_events id (mgr s)) (<[id := Gone]> (stages s)) (victims s)).
Proof.
  intros Hi Hs. destruct (si_heap _ Hi _ _ Hs) as [c Hc]. unfold end_events. rewrite Hc.
  apply (inv_stage s id c Removed); try done.
  - intros _. by apply (si_left _ Hi _ _ _ Hs).
  - intros _. set_solver.
Qed.

Lemma in_current_ids n id (m : manager B) : m_conns m !! n = Some id → id ∈ current_ids m.
Proof. intros Ht. apply list_elem_of_fmap. exists (n, id). split; [done|]. by apply elem_of_map_to_list. Qed.

Lemma inv_closeall s reason :
  sys_inv s →
  sys_inv (System (with_reason reason (mgr s)) (stages s)
             (victims s ++ map (pair reason) (current_ids (mgr s)))).
Proof.
  intros [H1 H2 H3 H4 H5 H6 H7 H8].
  constructor; cbn [mgr stages victims with_reason m_heap m_conns m_closeAll m_trace]; try done.
  intros id c p _ Hp Hk Hc.
  assert (held p = true → id ∈ (victims s ++ map (pair reason) (current_ids (mgr s))).*2) as Hin.
  { intros Hh. rewrite fmap_app. apply elem_of_app. right.
    apply list_elem_of_fmap. exists (reason, id). split; [done|].
    apply list_elem_of_In, List.in_map, list_elem_of_In.
    eapply in_current_ids. by eapply H3. }
  destruct p; try done; [right|]; by apply Hin.
Qed.

Lemma inv_victim s reason id vs :
  sys_inv s → victims s = (reason, id) :: vs →
  sys_inv (System (on_conn id (close reason) (mgr s)) (stages s) vs).
Proof.
  intros Hi Hv. destruct (inv_alter _ id _ (close_tame reason) Hi) as [H1 H2 H3 H4 H5 H6 H7 H8].
  constructor; try done. cbn [mgr stages victims]. cbn [mgr stages victims] in H5. rewrite Hv in H5.
  intros k c p Ha Hp Hk Hc.
  assert (k ≠ id) as Hne.
  { intros ->. destruct (si_heap _ Hi _ _ Hp) as [c0 Hc0]. rewrite (close_lookup _ _ _ _ Hc0) in Hk.
    simplify_eq. by rewrite close_closed in Hc. }
  specialize (H5 k c p Ha Hp Hk Hc). destruct p; set_solver.
Qed.

Lemma mgr_inv_step s s' : sys_inv s → mstep s s' → sys_inv s'.
Proof.
  intros Hi Hst. destruct Hst.
  - by apply inv_bound.
  - by apply inv_insert.
  - by apply inv_open.
  - by apply inv_leave.
  - by apply inv_remove.
  - by apply inv_end.
  - apply inv_alter; [apply close_tame|done].
  - apply inv_alter; [by apply data_change_tame|done].
  - by destruct Hi.
  - by apply inv_closeall.
  - by eapply inv_victim.
Qed.

Lemma inv_start b : sys_inv (start b).
Proof. by constructor. Qed.

Lemma inv_reachable b s : run mstep (start b) s → sys_inv s.
Proof. intros Hr. by apply (run_invariant mstep sys_inv mgr_inv_step _ _ Hr), inv_start. Qed.
(** C36. In every interleaving of registrations, teardowns, closes and shutdowns, two
    connections of the same name that are in the manager's hands and not closed are one
    and the same, and it is the connection that a lookup of the name returns. *)
Theorem one_live_connection_per_name b s id1 id2 c1 c2 p1 p2 :
  run mstep (start b) s →
  stages s !! id1 = Some p1 → held p1 = true → m_heap (mgr s) !! id1 = Some c1 → c_closed c1 = false →
  stages s !! id2 = Some p2 → held p2 = true → m_heap (mgr s) !! id2 = Some c2 → c_closed c2 = false →
  c_name c1 = c_name c2 →
  id1 = id2 ∧ lookup_conn (c_name c1) (mgr s) = Some (id1, c1) ∧ HasConn (c_name c1) (mgr s) = true.
Proof.
  intros Hr S1 P1 H1 C1 S2 P2 H2 C2 En. pose proof (inv_reachable _ _ Hr) as Hi.
  pose proof (si_live _ Hi _ _ _ S1 P1 H1 C1) as T1. pose proof (si_live _ Hi _ _ _ S2 P2 H2 C2) as T2.
  assert (lookup_conn (c_name c1) (mgr s) = Some (id1, c1)) as Hl.
  { unfold lookup_conn. rewrite T1. simpl. by rewrite H1. }
  split; [congruence|]. split; [done|]. unfold HasConn. by rewrite Hl, C1.
Qed.

(** A shutdown closes every phone connection, those that were registering while it ran
    included. *)
Lemma CloseAll_reaches_everyone b s :
  run mstep (start b) s → m_closeAll (mgr s) ≠ "" → victims s = [] →
  (∀ id late, stages s !! id ≠ Some (Inserted late)) →
  LiveConns (mgr s) = 0 ∧
  ∀ id c, stages s !! id = Some Running → m_heap (mgr s) !! id = Some c → c_closed c = true.
Proof.
  intros Hr Ha Hv Hno. pose proof (inv_reachable _ _ Hr) as Hi.
  assert (∀ id c, stages s !! id = Some Running → m_heap (mgr s) !! id = Some c → c_closed c = true) as Hrun.
  { intros id c Hs Hc. destruct (c_closed c) eqn:E; [done|].
    pose proof (si_late _ Hi _ _ _ Ha Hs Hc E) as Hin. rewrite Hv in Hin. by apply not_elem_of_nil in Hin. }
  split; [|done]. unfold LiveConns. rewrite filter_none; [done|]. intros id Hin. unfold current_ids in Hin.
  apply list_elem_of_fmap in Hin as ([n k] & -> & Hin%elem_of_map_to_list).
  destruct (si_table _ Hi _ _ Hin) as (c & p & Hc & _ & Hp & Hh). unfold is_live. simpl. rewrite Hc.
  destruct p; try done; [by destruct (Hno k late)| |].
  - by rewrite (Hrun k c).
  - by rewrite (si_left _ Hi _ _ _ Hp eq_refl Hc).
Qed.

(** In every interleaving the open and close reports are as many as the sessions that
    were opened and ended, and an ended session has its end event with its final reason. *)
Lemma sessions_reported_once b s :
  run mstep (start b) s →
  reports is_open (m_trace (mgr s)) = count_if opened (stages s) ∧
  reports is_close (m_trace (mgr s)) = count_if gone (stages s) ∧
  reports is_close (m_trace (mgr s)) ≤ reports is_open (m_trace (mgr s)) ∧
  ∀ id c, stages s !! id = Some Gone → m_heap (mgr s) !! id = Some c →
    c_closed c = true ∧ ELogEnd (c_connID c) (c_name c) (closeReason c) ∈ m_trace (mgr s).
Proof.
  intros Hr. pose proof (inv_reachable _ _ Hr) as Hi.
  split; [apply (si_opened _ Hi)|]. split; [apply (si_closed _ Hi)|]. split.
  - rewrite (si_opened _ Hi), (si_closed _ Hi). apply count_if_mono. by intros [].
  - intros id c Hs Hc. split; [by apply (si_left _ Hi _ _ _ Hs)|by apply (si_ended _ Hi _ _ Hs)].
Qed.
End interleaving.

(** ** Witnesses: a phone reconnects, then the node shuts down *)
#[local] Instance sample_router : PhoneRouter unit := {
  pr_BindRoute _ _ _ b := (Ok tt, b);
  pr_Heartbeat _ _ b := ((Router.HeartbeatRefreshed, None), b);
  pr_Unbind _ _ b := (Ok tt, b);
  pr_SelfHeal _ _ _ b := ((Router.SelfHealBound, Ok tt), b);
  pr_ConnID b := ("fresh", b)
}.

Definition sample_conn (connID : string) : conn :=
  MkConn "abc" "k" "s" connID 0 None [] 0 false "" false.

(** The second connection of "abc" replaced the first, which is gone. *)
Definition sample_replaced : system (B := unit) :=
  System (Mgr tt {[0%nat := close "phone-close" (sample_conn "c0"); 1%nat := sample_conn "c1"]} {["abc" := 1%nat]}
            "" false [] [EOpen; ELogStart "c0" "abc"; EOpen; ELogStart "c1" "abc"; ELogEnd "c0" "abc" "phone-close";
                         EClose "phone-close"; EClosedHook "abc" "c0" "phone-close"])
    {[0%nat := Gone; 1%nat := Running]} [].

(** Then the node shut down, before the handler of the second returned. *)
Definition sample_shut : system (B := unit) :=
  System (Mgr tt {[0%nat := close "phone-close" (sample_conn "c0"); 1%nat := close "node-shutdown" (sample_conn "c1")]}
            {["abc" := 1%nat]} "node-shutdown" false []
            [EOpen; ELogStart "c0" "abc"; EOpen; ELogStart "c1" "abc"; ELogEnd "c0" "abc" "phone-close";
             EClose "phone-close"; EClosedHook "abc" "c0" "phone-close"])
    {[0%nat := Gone; 1%nat := Running]} [].

Lemma sample_replaced_run : run mstep (start (B := unit) tt) sample_replaced.
Proof.
  eapply run_step; [by apply (ms_bound _ 0 (sample_conn "c0"))|].
  eapply run_step; [by apply (ms_insert _ 0 (sample_conn "c0"))|].
  eapply run_step; [by apply (ms_open _ 0 "")|].
  eapply run_step; [by apply (ms_bound _ 1 (sample_conn "c1"))|].
  eapply run_step; [by apply (ms_insert _ 1 (sample_conn "c1"))|].
  eapply run_step; [by apply (ms_open _ 1 "")|].
  eapply run_step; [by apply (ms_leave _ 0)|].
  eapply run_step; [by apply (ms_remove _ 0)|].
  eapply run_step; [by apply (ms_end _ 0)|].
  vm_compute. apply run_refl.
Qed.

Lemma sample_shut_run : run mstep (start (B := unit) tt) sample_shut.
Proof.
  eapply run_trans; [apply sample_replaced_run|].
  eapply run_step; [by apply (ms_closeall _ "node-shutdown")|].
  eapply run_step; [by apply (ms_victim _ "node-shutdown" 1 [])|].
  vm_compute. apply run_refl.
Qed.

Lemma one_live_connection_per_name_witness :
  1%nat = 1%nat ∧ lookup_conn "abc" (mgr sample_replaced) = Some (1%nat, sample_conn "c1") ∧
  HasConn "abc" (mgr sample_replaced) = true.
Proof.
  by apply (one_live_connection_per_name tt sample_replaced 1 1 (sample_conn "c1") (sample_conn "c1")
              Running Running sample_replaced_run).
Defined.

Lemma CloseAll_reaches_everyone_witness :
  LiveConns (mgr sample_shut) = 0 ∧
  ∀ id c, stages sample_shut !! id = Some Running → m_heap (mgr sample_shut) !! id = Some c → c_closed c = true.
Proof.
  apply (CloseAll_reaches_everyone tt sample_shut sample_shut_run); [done..|].
  intros id late Hs. unfold sample_shut in Hs. cbn [stages] in Hs.
  apply lookup_insert_Some in Hs as [[_ ?]|[_ Hs]]; [done|]. by apply lookup_singleton_Some in Hs as [_ ?].
Defined.

Lemma sessions_reported_once_witness :
  reports is_open (m_trace (mgr sample_replaced)) = count_if opened (stages sample_replaced) ∧
  reports is_close (m_trace (mgr sample_replaced)) = count_if gone (stages sample_replaced) ∧
  reports is_close (m_trace (mgr sample_replaced)) ≤ reports is_open (m_trace (mgr sample_replaced)) ∧
  ∀ id c, stages sample_replaced !! id = Some Gone → m_heap (mgr sample_replaced) !! id = Some c →
    c_closed c = true ∧ ELogEnd (c_connID c) (c_name c) (closeReason c) ∈ m_trace (mgr sample_replaced).
Proof. apply (sessions_reported_once tt sample_replaced sample_replaced_run). Defined.
End PhoneConn.
