(* ===== verification/GoTime.v ===== *)
(** * Calendar dates and timestamps

    What the code uses of Go's [time] package beyond arithmetic on nanoseconds:
    the Gregorian date of an instant, the fixed-width UTC layout
    [20060102T150405.000000000Z] in which log files are named, and the checks
    [time.Parse] makes on it. *)
From Stdlib Require Import ZArith Lia Ascii String.
From S2P Require Import Prelude GoStr.
Local Open Scope string_scope.
Local Open Scope list_scope.
Local Open Scope Z_scope.

#[local] Ltac Zify.zify_post_hook ::= Z.to_euclidean_division_equations.

Module GoTime.

(** ** Dates

    Days are counted from 1970-01-01.  Years start in March here, so that the
    leap day is the last one. *)
Definition year_start (yoe : Z) : Z := 365 * yoe + yoe / 4 - yoe / 100.
Definition epoch_shift : Z := 719468.       (* days from 0000-03-01 *)
Definition days_per_era : Z := 146097.

Definition year_of_era (doe : Z) : Z :=
  let g := doe / 366 in
  if (g <? 399) && (year_start (g + 1) <=? doe) then g + 1 else g.

(** The year, month and day of a day. *)
Definition civil (days : Z) : Z * Z * Z :=
  let z := days + epoch_shift in
  let yoe := year_of_era (z mod days_per_era) in
  let doy := z mod days_per_era - year_start yoe in
  let mp := (5 * doy + 2) / 153 in
  let d := doy - (153 * mp + 2) / 5 + 1 in
  let m := if mp <? 10 then mp + 3 else mp - 9 in
  (yoe + z / days_per_era * 400 + (if m <=? 2 then 1 else 0), m, d).

Definition is_leap (y : Z) : bool :=
  ((y mod 4 =? 0) && negb (y mod 100 =? 0)) || (y mod 400 =? 0).

Definition daysIn (m y : Z) : Z :=
  if m =? 2 then (if is_leap y then 29 else 28)
  else if (m =? 4) || (m =? 6) || (m =? 9) || (m =? 11) then 30 else 31.

(** ** The layout *)

(** [n] in decimal, at least [w] digits: [%0wd] for [0 <= n < 10^w]. *)
Fixpoint pad (w : nat) (n : Z) : string :=
  match w with
  | O => ""
  | S w' => String (digit_char ((n / 10 ^ Z.of_nat w') mod 10)) (pad w' n)
  end.

Definition day_ns : Z := 24 * hour.

Definition year_text (y : Z) : string := if y <? 10000 then pad 4 y else FormatInt y.
Definition date_text (ymd : Z * Z * Z) : string :=
  let '(y, m, d) := ymd in year_text y +:+ pad 2 m +:+ pad 2 d.
Definition clock_text (r : Z) : string :=
  "T" +:+ pad 2 (r / hour) +:+ pad 2 ((r / minute) mod 60) +:+ pad 2 ((r / second) mod 60)
    +:+ "." +:+ pad 9 (r mod second) +:+ "Z".

(** [t.Format("20060102T150405.000000000Z")] of a UTC instant. *)
Definition format_nanos (t : Z) : string :=
  date_text (civil (t / day_ns)) +:+ clock_text (t mod day_ns).

(** [time.Parse] on text that has the layout's shape: the date it gives. *)
Definition field (s : string) (from w : nat) : option Z :=
  parse_digits (str_take w (str_drop from s)) 0.

Definition parse_nanos (s : string) : option (Z * Z * Z) :=
  y ← field s 0 4; m ← field s 4 2; d ← field s 6 2; h ← field s 9 2; mi ← field s 11 2; se ← field s 13 2;
  if (m <=? 0) || (12 <? m) || (24 <=? h) || (60 <=? mi) || (60 <=? se) || (d <? 1) || (daysIn m y <? d)
  then None else Some (y, m, d).

(** ** Facts about dates *)
Lemma year_of_era_spec doe :
  0 ≤ doe < days_per_era →
  let yoe := year_of_era doe in
  0 ≤ yoe ≤ 399 ∧ year_start yoe ≤ doe ∧ (yoe < 399 → doe < year_start (yoe + 1)).
Proof.
  unfold year_of_era, days_per_era. intros H. cbv zeta.
  assert (0 ≤ doe / 366 ≤ 399) as Hg by (split; [apply Z.div_pos|apply Z.lt_succ_r, Z.div_lt_upper_bound]; lia).
  pose proof (Z.div_mod doe 366 ltac:(lia)) as Hd. pose proof (Z.mod_pos_bound doe 366 ltac:(lia)) as Hm.
  set (g := doe / 366) in *. clearbody g. set (r := doe mod 366) in *. clearbody r.
  destruct (Z.ltb_spec g 399); cbn [andb]; [|unfold year_start; lia].
  destruct (Z.leb_spec (year_start (g + 1)) doe); unfold year_start in *; lia.
Qed.

(** The parts of a day's date: its era, year of the era and day of the year. *)
Record civil_parts (days era yoe doy : Z) : Prop := {
  cp_day : days + epoch_shift = era * days_per_era + year_start yoe + doy;
  cp_yoe : 0 ≤ yoe ≤ 399;
  cp_doy : 0 ≤ doy;
  cp_len : doy < if (yoe mod 4 =? 3) && (negb (yoe mod 100 =? 99) || (yoe =? 399)) then 366 else 365
}.

Definition date_of (era yoe doy : Z) : Z * Z * Z :=
  let mp := (5 * doy + 2) / 153 in
  let m := if mp <? 10 then mp + 3 else mp - 9 in
  (yoe + era * 400 + (if m <=? 2 then 1 else 0), m, doy - (153 * mp + 2) / 5 + 1).

Lemma civil_split days : ∃ era yoe doy, civil_parts days era yoe doy ∧ civil days = date_of era yoe doy.
Proof.
  set (z := days + epoch_shift).
  pose proof (Z.mod_pos_bound z days_per_era ltac:(done)) as Hb.
  pose proof (Z.div_mod z days_per_era ltac:(done)) as Hz.
  pose proof (year_of_era_spec _ Hb) as Hy. cbv zeta in Hy.
  exists (z / days_per_era), (year_of_era (z mod days_per_era)),
    (z mod days_per_era - year_start (year_of_era (z mod days_per_era))).
  split; [|done]. set (yoe := year_of_era _) in *. clearbody yoe. destruct Hy as (H1 & H2 & H3).
  set (doe := z mod days_per_era) in *. clearbody doe. set (era := z / days_per_era) in *. clearbody era.
  constructor; try (fold z; lia). clear Hz. unfold days_per_era in *.
  destruct (Z.eqb_spec (yoe mod 4) 3); simpl; [|unfold year_start in *; lia].
  destruct (Z.eqb_spec (yoe mod 100) 99); simpl; [|unfold year_start in *; lia].
  destruct (Z.eqb_spec yoe 399); unfold year_start in *; lia.
Qed.

(** The date as the number written by its eight digits. *)
Definition date_num (ymd : Z * Z * Z) : Z := let '(y, m, d) := ymd in y * 10000 + m * 100 + d.

Definition month_day (doy : Z) : Z * Z :=
  let mp := (5 * doy + 2) / 153 in
  (if mp <? 10 then mp + 3 else mp - 9, doy - (153 * mp + 2) / 5 + 1).

Lemma month_day_range doy : 0 ≤ doy < 366 →
  let '(m, d) := month_day doy in
  1 ≤ m ≤ 12 ∧ 1 ≤ d ≤ 31 ∧ (m = 2 → doy = d + 336) ∧
  (m = 4 ∨ m = 6 ∨ m = 9 ∨ m = 11 → d ≤ 30) ∧ (m ≤ 2 ↔ 306 ≤ doy).
Proof.
  intros H. unfold month_day.
  set (mp := (5 * doy + 2) / 153). assert (0 ≤ mp ≤ 11 ∧ 153 * mp ≤ 5 * doy + 2 < 153 * (mp + 1)) as Hmp by lia.
  clearbody mp. destruct (Z.ltb_spec mp 10); split_and!; lia.
Qed.

Lemma date_of_month_day era yoe doy :
  0 ≤ doy < 366 →
  let '(m, d) := month_day doy in
  date_of era yoe doy = (yoe + era * 400 + (if 306 <=? doy then 1 else 0), m, d).
Proof.
  intros H. pose proof (month_day_range doy H) as Hr. unfold month_day, date_of in *. cbv zeta in *.
  destruct Hr as (_ & _ & _ & _ & Hy). f_equal. f_equal. f_equal.
  destruct (Z.leb_spec 306 doy), (Z.leb_spec (if (5 * doy + 2) / 153 <? 10 then (5 * doy + 2) / 153 + 3
      else (5 * doy + 2) / 153 - 9) 2); lia.
Qed.

Lemma doy_bound days era yoe doy : civil_parts days era yoe doy → 0 ≤ doy < 366.
Proof. intros [_ _ H1 H2]. destruct (_ && _) in H2; lia. Qed.

Lemma civil_valid days y m d :
  civil days = (y, m, d) → 1 ≤ m ≤ 12 ∧ 1 ≤ d ≤ daysIn m y.
Proof.
  destruct (civil_split days) as (era & yoe & doy & Hp & ->). intros E.
  pose proof (doy_bound _ _ _ _ Hp) as Hd. pose proof (date_of_month_day era yoe doy Hd) as Ed.
  pose proof (month_day_range doy Hd) as Hr. destruct (month_day doy) as [m' d']. rewrite Ed in E. simplify_eq.
  destruct Hr as (R1 & R2 & R3 & R4 & R5). split; [done|]. split; [lia|].
  unfold daysIn. destruct (Z.eqb_spec m 2) as [->|Hm].
  2:{ destruct (Z.eqb_spec m 4), (Z.eqb_spec m 6), (Z.eqb_spec m 9), (Z.eqb_spec m 11); simpl; lia. }
  specialize (R3 eq_refl). assert (306 ≤ doy) by lia. destruct (Z.leb_spec 306 doy); [|lia].
  destruct Hp as [_ Hy _ Hl]. unfold is_leap.
  replace ((yoe + era * 400 + 1) mod 4) with ((yoe + 1) mod 4) by lia.
  replace ((yoe + era * 400 + 1) mod 100) with ((yoe + 1) mod 100) by lia.
  replace ((yoe + era * 400 + 1) mod 400) with ((yoe + 1) mod 400) by lia.
  destruct (Z.eqb_spec (yoe mod 4) 3), (Z.eqb_spec (yoe mod 100) 99), (Z.eqb_spec yoe 399),
    (Z.eqb_spec ((yoe + 1) mod 4) 0), (Z.eqb_spec ((yoe + 1) mod 100) 0), (Z.eqb_spec ((yoe + 1) mod 400) 0);
    simpl in *; lia.
Qed.

Lemma month_day_mono a b : 0 ≤ a < b → b < 366 → (306 ≤ a ∨ b < 306) →
  (month_day a).1 * 100 + (month_day a).2 < (month_day b).1 * 100 + (month_day b).2.
Proof.
  intros H1 H2 H3. pose proof (month_day_range a ltac:(lia)) as Ra. pose proof (month_day_range b ltac:(lia)) as Rb.
  unfold month_day in *. simpl. set (p := (5 * a + 2) / 153) in *. set (q := (5 * b + 2) / 153) in *.
  assert (153 * p ≤ 5 * a + 2 < 153 * (p + 1)) by lia. assert (153 * q ≤ 5 * b + 2 < 153 * (q + 1)) by lia.
  assert (p ≤ q) by lia. clearbody p q. assert (p < q ∨ p = q) as [Hlt| ->] by lia; [|lia].
  destruct (Z.ltb_spec p 10), (Z.ltb_spec q 10); lia.
Qed.

(** A later day has a larger date. *)
Lemma civil_mono a b : a < b → date_num (civil a) < date_num (civil b).
Proof.
  intros Hab. destruct (civil_split a) as (ea & ya & da & Pa & ->). destruct (civil_split b) as (eb & yb & db & Pb & ->).
  pose proof (doy_bound _ _ _ _ Pa) as Ha. pose proof (doy_bound _ _ _ _ Pb) as Hb.
  pose proof (date_of_month_day ea ya da Ha) as Ea. pose proof (date_of_month_day eb yb db Hb) as Eb.
  pose proof (month_day_range da Ha) as Ra. pose proof (month_day_range db Hb) as Rb.
  assert (ea * 400 + ya < eb * 400 + yb ∨ (ea * 400 + ya = eb * 400 + yb ∧ da < db)) as Hcmp.
  { destruct Pa as [Da Ya _ La], Pb as [Db Yb _ Lb].
    assert (ea < eb ∨ ea = eb ∨ eb < ea) as [?|[->|?]] by lia; [left; lia| |].
    - assert (ya < yb ∨ ya = yb ∨ yb < ya) as [?|[->|Hlt]] by lia; [left; lia|right; lia|].
      exfalso. assert (year_start (yb + 1) ≤ year_start ya) by (unfold year_start; lia).
      assert (year_start yb + db < year_start (yb + 1)).
      { clear Da Db La. unfold year_start. destruct (Z.eqb_spec (yb mod 4) 3), (Z.eqb_spec (yb mod 100) 99);
          destruct (Z.eqb_spec yb 399); simpl in *; lia. } lia.
    - exfalso. assert (0 ≤ year_start ya) by (unfold year_start; lia).
      assert (year_start yb + db < days_per_era).
      { clear Da Db La. unfold year_start, days_per_era. destruct (Z.eqb_spec (yb mod 4) 3), (Z.eqb_spec (yb mod 100) 99);
          destruct (Z.eqb_spec yb 399); simpl in *; lia. }
      unfold days_per_era in *. lia. }
  pose proof (month_day_mono da db) as Hmd.
  destruct (month_day da) as [ma qa], (month_day db) as [mb qb]. rewrite Ea, Eb. simpl in *.
  destruct (Z.leb_spec 306 da), (Z.leb_spec 306 db); destruct Hcmp as [?|[? ?]]; try lia.
Qed.

(** ** Timestamps sort as text the way they sort in time *)
Definition then_cmp (c d : comparison) : comparison := match c with Eq => d | _ => c end.

Lemma cmp_app a b x y :
  String.length a = String.length b →
  String.compare (a +:+ x) (b +:+ y) = then_cmp (String.compare a b) (String.compare x y).
Proof.
  revert b. induction a as [|c a IH]; intros [|c' b] Hl; try done.
  simpl in *. injection Hl as Hl. rewrite (IH b Hl). by destruct (Ascii.compare c c').
Qed.

Lemma cmp_digit x y : 0 ≤ x < 10 → 0 ≤ y < 10 → Ascii.compare (digit_char x) (digit_char y) = (x ?= y).
Proof.
  intros Hx Hy. unfold Ascii.compare, digit_char, Zc.
  rewrite !Ascii.N_ascii_embedding by lia. rewrite !Z.mod_small by lia.
  rewrite Z2N.inj_compare by lia. destruct (Z.compare_spec x y); [apply Z.compare_eq_iff|apply Z.compare_lt_iff|apply Z.compare_gt_iff]; lia.
Qed.

(** Comparing numbers by their leading part first. *)
Lemma cmp_lex k x x' u u' : 0 ≤ u < k → 0 ≤ u' < k →
  (x * k + u ?= x' * k + u') = then_cmp (x ?= x') (u ?= u').
Proof.
  intros Hu Hu'. destruct (Z.compare_spec x x') as [->|H|H]; simpl.
  - by rewrite Z.add_compare_mono_l.
  - apply Z.compare_lt_iff. nia.
  - apply Z.compare_gt_iff. nia.
Qed.

Lemma length_pad w n : String.length (pad w n) = w.
Proof. induction w; simpl; congruence. Qed.

Lemma cmp_pad_mod w a b :
  String.compare (pad w a) (pad w b) = (a mod 10 ^ Z.of_nat w ?= b mod 10 ^ Z.of_nat w).
Proof.
  induction w as [|w IH]; [by rewrite !Z.mod_1_r|].
  cbn [pad String.compare]. rewrite IH, Nat2Z.inj_succ, Z.pow_succ_r by lia.
  rewrite cmp_digit by (apply Z.mod_pos_bound; lia).
  assert (0 < 10 ^ Z.of_nat w) by (apply Z.pow_pos_nonneg; lia).
  rewrite (Z.mul_comm 10), !Z.rem_mul_r by lia.
  rewrite (Z.add_comm (a mod _)), (Z.add_comm (b mod _)), !(Z.mul_comm (10 ^ Z.of_nat w)).
  rewrite cmp_lex by (apply Z.mod_pos_bound; lia). by destruct ((a / 10 ^ Z.of_nat w) mod 10 ?= (b / 10 ^ Z.of_nat w) mod 10).
Qed.

Lemma cmp_pad w a b : 0 ≤ a < 10 ^ Z.of_nat w → 0 ≤ b < 10 ^ Z.of_nat w →
  String.compare (pad w a) (pad w b) = (a ?= b).
Proof. intros. by rewrite cmp_pad_mod, !Z.mod_small. Qed.

Lemma cmp_same a x y : String.compare (a +:+ x) (a +:+ y) = String.compare x y.
Proof.
  rewrite cmp_app by done. replace (String.compare a a) with Eq; [done|].
  induction a as [|c a IH]; [done|]. simpl. rewrite <- IH. unfold Ascii.compare. by rewrite N.compare_refl.
Qed.

Lemma daysIn_31 m y : daysIn m y ≤ 31.
Proof. unfold daysIn. repeat case_match; lia. Qed.

Definition four_digit_year (t : Z) : Prop := 0 ≤ (civil (t / day_ns)).1.1 ≤ 9999.

(** The years 1970 to 9999. *)
Definition year_10000 : Z := 2932897 * day_ns.

Lemma unix_years t : 0 ≤ t < year_10000 → four_digit_year t.
Proof.
  intros H. assert (0 ≤ t / day_ns < 2932897) as Hd by (unfold year_10000, day_ns, hour, minute, second in *; lia).
  unfold four_digit_year. set (u := t / day_ns) in *. clearbody u. clear H.
  assert (19700101 ≤ date_num (civil u)) as H1.
  { destruct (Z.eq_dec u 0) as [->|]; [done|]. apply Z.lt_le_incl, (civil_mono 0 u). lia. }
  assert (date_num (civil u) ≤ 99991231) as H2.
  { destruct (Z.eq_dec u 2932896) as [->|]; [done|]. apply Z.lt_le_incl, (civil_mono u 2932896). lia. }
  destruct (civil u) as [[y m] d] eqn:E. apply civil_valid in E as [? ?]. pose proof (daysIn_31 m y).
  simpl in *. lia.
Qed.

Lemma year_text_4 y : y ≤ 9999 → year_text y = pad 4 y.
Proof. intros. unfold year_text. by rewrite (proj2 (Z.ltb_lt y 10000)) by lia. Qed.

Lemma date_text_compare y m d y' m' d' :
  0 ≤ y ≤ 9999 → 0 ≤ m < 100 → 0 ≤ d < 100 → 0 ≤ y' ≤ 9999 → 0 ≤ m' < 100 → 0 ≤ d' < 100 →
  String.compare (date_text (y, m, d)) (date_text (y', m', d')) = (date_num (y, m, d) ?= date_num (y', m', d')).
Proof.
  intros. unfold date_text, date_num. rewrite !year_text_4 by lia. rewrite !cmp_app by (by rewrite !length_pad).
  rewrite !cmp_pad by (change (10 ^ Z.of_nat 4) with 10000; change (10 ^ Z.of_nat 2) with 100; lia).
  replace (y * 10000 + m * 100 + d) with ((y * 100 + m) * 100 + d) by lia.
  replace (y' * 10000 + m' * 100 + d') with ((y' * 100 + m') * 100 + d') by lia.
  rewrite !cmp_lex by lia. by destruct (y ?= y').
Qed.

Lemma clock_split r : 0 ≤ r < day_ns →
  ∃ h mi se ns, r / hour = h ∧ (r / minute) mod 60 = mi ∧ (r / second) mod 60 = se ∧ r mod second = ns ∧
    r = ((h * 60 + mi) * 60 + se) * second + ns ∧ 0 ≤ h < 24 ∧ 0 ≤ mi < 60 ∧ 0 ≤ se < 60 ∧ 0 ≤ ns < second.
Proof.
  intros H. do 4 eexists. do 4 (split; [reflexivity|]).
  unfold day_ns, hour, minute, second in *. split_and!; lia.
Qed.

Lemma clock_text_compare r r' : 0 ≤ r < day_ns → 0 ≤ r' < day_ns →
  String.compare (clock_text r) (clock_text r') = (r ?= r').
Proof.
  intros H H'. unfold clock_text.
  destruct (clock_split r H) as (h & mi & se & ns & -> & -> & -> & -> & -> & ?).
  destruct (clock_split r' H') as (h' & mi' & se' & ns' & -> & -> & -> & -> & -> & ?). clear H H'.
  rewrite cmp_same. rewrite !cmp_app, cmp_same, !cmp_app by (by rewrite !length_pad).
  rewrite !cmp_pad by (change (10 ^ Z.of_nat 9) with second; change (10 ^ Z.of_nat 2) with 100; lia).
  rewrite !cmp_lex by lia.
  by destruct (h ?= h'), (mi ?= mi'), (se ?= se'), (ns ?= ns').
Qed.

Lemma length_date_text y m d : y ≤ 9999 → String.length (date_text (y, m, d)) = 8%nat.
Proof. intros. unfold date_text. by rewrite year_text_4, !str_length_app, !length_pad. Qed.

(** Text order of timestamps is time order. *)
Lemma format_nanos_compare a b : four_digit_year a → four_digit_year b →
  String.compare (format_nanos a) (format_nanos b) = (a ?= b).
Proof.
  unfold four_digit_year, format_nanos. intros Ya Yb.
  pose proof (Z.div_mod a day_ns ltac:(done)) as Da. pose proof (Z.div_mod b day_ns ltac:(done)) as Db.
  pose proof (Z.mod_pos_bound a day_ns ltac:(done)) as Ra. pose proof (Z.mod_pos_bound b day_ns ltac:(done)) as Rb.
  set (u := a / day_ns) in *. set (v := b / day_ns) in *. set (r := a mod day_ns) in *. set (q := b mod day_ns) in *.
  clearbody u v r q. subst a b. rewrite !(Z.mul_comm day_ns), cmp_lex by done.
  pose proof (civil_mono u v) as M1. pose proof (civil_mono v u) as M2.
  destruct (civil u) as [[y m] d] eqn:Eu, (civil v) as [[y' m'] d'] eqn:Ev.
  apply civil_valid in Eu as Vu. apply civil_valid in Ev as Vv.
  pose proof (daysIn_31 m y). pose proof (daysIn_31 m' y'). simpl in Ya, Yb.
  rewrite cmp_app, clock_text_compare by (done || (rewrite !length_date_text by lia; done)). f_equal.
  rewrite date_text_compare by lia. destruct (Z.compare_spec u v) as [->|Hlt|Hgt].
  - rewrite Eu in Ev. simplify_eq. apply Z.compare_refl.
  - by apply Z.compare_lt_iff, M1.
  - by apply Z.compare_gt_iff, M2.
Qed.

(** ** Reading a timestamp back *)
Lemma parse_pad_mod w n acc :
  parse_digits (pad w n) acc = Some (acc * 10 ^ Z.of_nat w + n mod 10 ^ Z.of_nat w).
Proof.
  revert acc. induction w as [|w IH]; intros acc; [simpl; rewrite Z.mod_1_r; f_equal; lia|].
  cbn [pad parse_digits].
  pose proof (Z.mod_pos_bound (n / 10 ^ Z.of_nat w) 10 ltac:(lia)) as Hd.
  destruct (digit_char_val _ Hd) as [-> _]. cbn [mbind option_bind].
  rewrite IH, Nat2Z.inj_succ, Z.pow_succ_r by lia.
  assert (0 < 10 ^ Z.of_nat w) by (apply Z.pow_pos_nonneg; lia).
  rewrite (Z.mul_comm 10 (10 ^ Z.of_nat w)), Z.rem_mul_r by lia. f_equal. ring.
Qed.

Lemma parse_pad w n : 0 ≤ n < 10 ^ Z.of_nat w → parse_digits (pad w n) 0 = Some n.
Proof. intros. by rewrite parse_pad_mod, Z.mod_small. Qed.

Lemma parse_format_nanos t : four_digit_year t → parse_nanos (format_nanos t) = Some (civil (t / day_ns)).
Proof.
  unfold four_digit_year, format_nanos. intros Hy.
  pose proof (Z.mod_pos_bound t day_ns ltac:(done)) as Hr.
  destruct (civil (t / day_ns)) as [[y m] d] eqn:E. apply civil_valid in E as [Vm Vd].
  pose proof (daysIn_31 m y). simpl in Hy. set (r := t mod day_ns) in *. clearbody r.
  unfold date_text. rewrite year_text_4 by lia.
  destruct (clock_split r Hr) as (h & mi & se & ns & Eh & Emi & Ese & Ens & _ & ?).
  unfold parse_nanos.
  change (field _ 0 4) with (parse_digits (pad 4 y) 0). change (field _ 4 2) with (parse_digits (pad 2 m) 0).
  change (field _ 6 2) with (parse_digits (pad 2 d) 0). change (field _ 9 2) with (parse_digits (pad 2 (r / hour)) 0).
  change (field _ 11 2) with (parse_digits (pad 2 ((r / minute) mod 60)) 0).
  change (field _ 13 2) with (parse_digits (pad 2 ((r / second) mod 60)) 0).
  rewrite Eh, Emi, Ese.
  rewrite !parse_pad by (change (10 ^ Z.of_nat 4) with 10000; change (10 ^ Z.of_nat 2) with 100; lia).
  cbn [mbind option_bind]. by repeat match goal with |- context [?a <=? ?b] => rewrite (proj2 (Z.leb_gt a b)) by lia
    | |- context [?a <? ?b] => rewrite (proj2 (Z.ltb_ge a b)) by lia end.
Qed.

(** ** Different instants have different texts *)
Lemma app_inv_len (a b x y : string) :
  a +:+ x = b +:+ y → String.length x = String.length y → a = b ∧ x = y.
Proof.
  intros E Hl. assert (String.length a = String.length b) as Hab.
  { apply (f_equal String.length) in E. rewrite !str_length_app in E. lia. }
  clear Hl. revert b E Hab. induction a as [|c a IH]; intros [|c' b] E Hab; try done.
  simpl in E. injection E as -> E. injection Hab as Hab. by destruct (IH b E Hab) as [-> ->].
Qed.

Lemma parse_year_text y : 0 ≤ y → parse_digits (year_text y) 0 = Some y.
Proof.
  intros Hy. unfold year_text. destruct (Z.ltb_spec y 10000).
  - apply parse_pad. change (10 ^ Z.of_nat 4) with 10000. lia.
  - apply (FormatInt_nonneg y Hy).
Qed.

Lemma civil_year_nonneg t : 0 ≤ t → 0 ≤ (civil (t / day_ns)).1.1.
Proof.
  intros H. assert (0 ≤ t / day_ns) as Hd by (apply Z.div_pos; done). set (u := t / day_ns) in *. clearbody u.
  assert (19700101 ≤ date_num (civil u)) as H1.
  { destruct (Z.eq_dec u 0) as [->|]; [done|]. apply Z.lt_le_incl, (civil_mono 0 u). lia. }
  destruct (civil u) as [[y m] d] eqn:E. apply civil_valid in E as [? ?]. pose proof (daysIn_31 m y). simpl in *. lia.
Qed.

Lemma pad_inj w a b : 0 ≤ a < 10 ^ Z.of_nat w → 0 ≤ b < 10 ^ Z.of_nat w → pad w a = pad w b → a = b.
Proof. intros Ha Hb E. apply parse_pad in Ha, Hb. congruence. Qed.

Lemma format_nanos_inj a b : 0 ≤ a → 0 ≤ b → format_nanos a = format_nanos b → a = b.
Proof.
  intros Ha Hb E. unfold format_nanos in E.
  pose proof (civil_year_nonneg a Ha) as Ya. pose proof (civil_year_nonneg b Hb) as Yb.
  rewrite (Z.div_mod a day_ns), (Z.div_mod b day_ns) by done.
  pose proof (Z.mod_pos_bound a day_ns ltac:(done)) as Ra. pose proof (Z.mod_pos_bound b day_ns ltac:(done)) as Rb.
  set (u := a / day_ns) in *. set (v := b / day_ns) in *. set (r := a mod day_ns) in *. set (q := b mod day_ns) in *.
  clearbody u v r q. pose proof (civil_mono u v) as M1. pose proof (civil_mono v u) as M2.
  apply app_inv_len in E as [E1 E2]; [|unfold clock_text; by rewrite !str_length_app, !length_pad].
  assert (r = q) as ->. { apply Z.compare_eq. rewrite <- clock_text_compare by done. rewrite E2. 
    rewrite <- (str_app_nil_r (clock_text q)). by rewrite cmp_same. }
  destruct (civil u) as [[y m] d] eqn:Eu, (civil v) as [[y' m'] d'] eqn:Ev.
  apply civil_valid in Eu as Vu. apply civil_valid in Ev as Vv.
  pose proof (daysIn_31 m y). pose proof (daysIn_31 m' y'). simpl in Ya, Yb. unfold date_text in E1.
  apply app_inv_len in E1 as [E3 E1]; [|by rewrite !str_length_app, !length_pad].
  apply app_inv_len in E1 as [E4 E5]; [|by rewrite !length_pad].
  apply parse_year_text in Ya, Yb. rewrite E3 in Ya. assert (y = y') as -> by congruence.
  apply pad_inj in E4; [|change (10 ^ Z.of_nat 2) with 100; lia..].
  apply pad_inj in E5; [|change (10 ^ Z.of_nat 2) with 100; lia..]. subst.
  assert (u = v) as -> by lia. done.
Qed.
End GoTime.
