(* ===== verification/Spool.v ===== *)
(** * The connection-log spool

    [internal/store/spool.go].  Connection-log events go through a bounded queue
    to a writer, which appends one line each to a file of the spool directory,
    rotates it every five minutes or at its size limit, and leaves it for the
    uploader, which puts finished files into the bucket and removes them.  Files
    left by an earlier process are recovered at the start.

    The directory is a map from names to contents.  Every system call takes its
    outcome from a script indexed by the number of calls made, so a theorem
    about all scripts is one about every pattern of failures; the clock is read
    from such a script too and may go backwards.  JSON encoding is a parameter. *)
From Stdlib Require Import ZArith Lia Ascii String Strings.Byte.
From stdpp Require Import sorting.
From S2P Require Import Prelude GoStr GoTime.
Local Open Scope string_scope.
Local Open Scope list_scope.
Local Open Scope Z_scope.

Module Spool.
Import GoTime.

(** ** Names *)
Definition spoolQueue : Z := 5000.
Definition spoolWindow : Z := 5 * minute.
Definition spoolMaxFile : Z := Z.shiftl 16 20.
Definition spoolMaxBytes : Z := Z.shiftl 1 30.
Definition spoolIOLogEvery : Z := minute.
Definition spoolReadySuffix : string := ".jsonl".
Definition spoolActiveSuffix : string := ".jsonl.part".
Definition spoolMaxNameTries : nat := 1000.
Definition spoolUploadBase : Z := 30 * second.
Definition spoolUploadRate : Z := Z.shiftl 128 10.

Fixpoint str_span (p : ascii → bool) (s : string) : string * string :=
  match s with
  | "" => ("", "")
  | String c s' => if p c then let '(a, b) := str_span p s' in (String c a, b) else ("", s)
  end.

Definition is_hex (c : ascii) : bool := is_digit c || ((97 <=? cZ c) && (cZ c <=? 102)).

Definition digits (w : nat) (s : string) : bool := (String.length s =? w)%nat && str_forall is_digit s.

(** The timestamp's shape: [\d{8}T\d{6}\.\d{9}Z]. *)
Definition stamp_shape (s : string) : bool :=
  digits 8 (str_take 8 s) && String.eqb (str_take 1 (str_drop 8 s)) "T" &&
  digits 6 (str_take 6 (str_drop 9 s)) && String.eqb (str_take 1 (str_drop 15 s)) "." &&
  digits 9 (str_take 9 (str_drop 16 s)) && String.eqb (str_drop 25 s) "Z".

(** [spoolName.FindStringSubmatch]: the timestamp, and whether the file is
    still active. *)
Definition spoolName (name : string) : option (string * bool) :=
  let ts := str_take 26 name in
  match str_drop 26 name with
  | String "-" r =>
      let '(hex, suffix) := str_span is_hex r in
      if negb (stamp_shape ts) || String.eqb hex "" then None
      else if String.eqb suffix ".jsonl" then Some (ts, false)
      else if String.eqb suffix ".jsonl.part" then Some (ts, true)
      else None
  | _ => None
  end.

Definition nodeIDPattern (id : string) : bool := negb (String.eqb id "") && str_forall is_hex id.

Definition spoolKey (name : string) : option string :=
  match spoolName name with
  | Some (ts, false) =>
      '(y, m, d) ← parse_nanos ts;
      Some ("tunnel-logs/" +:+ pad 4 y +:+ "/" +:+ pad 2 m +:+ "/" +:+ pad 2 d +:+ "/" +:+ name)
  | _ => None
  end.

Definition uploadTimeout (size : Z) : Z :=
  wrap64 (spoolUploadBase + Z.quot (wrap64 (size * second)) spoolUploadRate).

(** ** State *)
Inductive dirent := Regular (data : bytes) | NotRegular.
Definition size_of (e : dirent) : Z := match e with Regular d => len d | NotRegular => 0 end.

Record activeFile := Active { a_base : string; a_size : Z; a_winStart : Z }.
Definition part_name (base : string) : string := base +:+ spoolActiveSuffix.
Definition ready_name (base : string) : string := base +:+ spoolReadySuffix.

(** The files, the bucket, and what the writer and the uploader know of them;
    [f_written] records the lines that were appended, with their file. *)
Record files := Files {
  f_node : string;
  f_dir : gmap string dirent;
  f_bucket : gmap string bytes;
  f_spooled : Z;
  f_active : option activeFile;
  f_lastStart : option Z;
  f_written : list (string * bytes)
}.

(** The outcome of a system call: [Fails n] is an error after [n] bytes or, for
    an upload, one whose object was stored all the same when [n] is not 0. *)
Inductive fault := Fine | Fails (n : nat).

Inductive line :=
| LWarn (op path : string) (suppressed : Z)
| LMore (count : Z)
| LFull
| LTorn (path : string) (dropped : Z)
| LUpload (path : string)
| LAbandoned (events : Z)
| LLeft (files : Z).

Record env := Env {
  e_script : nat → fault;
  e_clock : nat → Z;
  e_calls : nat;
  e_cancel : option nat;            (* the upload context ends at this call *)
  e_ioLast : option Z; e_ioSuppressed : Z;
  e_capWarned : option Z;
  e_log : list line
}.

Section spool.
Context {Event : Type} (marshal : Event → option bytes) (maxFile maxBytes : Z).

Record intake := Intake { i_queue : list Event; i_closed : bool; i_abandon : bool; i_drops : Z }.
Record spool := Spool { sf : files; se : env; si : intake }.

Definition upd (f : files → files) (s : spool) : spool := Spool (f (sf s)) (se s) (si s).
Definition on_env (f : env → env) (s : spool) : spool := Spool (sf s) (f (se s)) (si s).

Definition set_dir (g : gmap string dirent → gmap string dirent) (f : files) : files :=
  Files (f_node f) (g (f_dir f)) (f_bucket f) (f_spooled f) (f_active f) (f_lastStart f) (f_written f).
Definition set_active (a : option activeFile) (f : files) : files :=
  Files (f_node f) (f_dir f) (f_bucket f) (f_spooled f) a (f_lastStart f) (f_written f).
Definition add_spooled (n : Z) (f : files) : files :=
  Files (f_node f) (f_dir f) (f_bucket f) (f_spooled f + n) (f_active f) (f_lastStart f) (f_written f).
Definition opened (a : activeFile) (start : Z) (f : files) : files :=
  Files (f_node f) (f_dir f) (f_bucket f) (f_spooled f) (Some a) (Some start) (f_written f).
Definition put_object (key : string) (data : bytes) (f : files) : files :=
  Files (f_node f) (f_dir f) (<[key := data]> (f_bucket f)) (f_spooled f) (f_active f) (f_lastStart f) (f_written f).
Definition record_line (base : string) (l : bytes) (f : files) : files :=
  Files (f_node f) (f_dir f) (f_bucket f) (f_spooled f) (f_active f) (f_lastStart f) (f_written f ++ [(base, l)]).

(** ** The environment *)
Definition bump (e : env) : env :=
  Env (e_script e) (e_clock e) (S (e_calls e)) (e_cancel e) (e_ioLast e) (e_ioSuppressed e) (e_capWarned e) (e_log e).
Definition log (l : line) (s : spool) : spool :=
  on_env (λ e, Env (e_script e) (e_clock e) (e_calls e) (e_cancel e) (e_ioLast e) (e_ioSuppressed e)
                 (e_capWarned e) (e_log e ++ [l])) s.

Definition sys (s : spool) : fault * spool := (e_script (se s) (e_calls (se s)), on_env bump s).
Definition now (s : spool) : Z * spool := (e_clock (se s) (e_calls (se s)), on_env bump s).
Definition upCtx_ended (s : spool) : bool :=
  match e_cancel (se s) with Some k => (k <=? e_calls (se s))%nat | None => false end.

Definition set_io (last : option Z) (n : Z) (s : spool) : spool :=
  on_env (λ e, Env (e_script e) (e_clock e) (e_calls e) (e_cancel e) last n (e_capWarned e) (e_log e)) s.

Definition ioWarn (op path : string) (s : spool) : spool :=
  let '(t, s) := now s in
  let n := e_ioSuppressed (se s) in
  if match e_ioLast (se s) with Some l => t - l <? spoolIOLogEvery | None => false end
  then set_io (e_ioLast (se s)) (n + 1) s
  else set_io (Some t) 0 (log (LWarn op path n) s).

Definition flushIOWarn (force : bool) (s : spool) : spool :=
  let '(t, s) := now s in
  let n := e_ioSuppressed (se s) in
  if (n =? 0) || (negb force && match e_ioLast (se s) with Some l => t - l <? spoolIOLogEvery | None => false end)
  then s
  else set_io (Some t) 0 (log (LMore n) s).

(** A call whose failure is only reported. *)
Definition try (op path : string) (s : spool) : bool * spool :=
  let '(r, s) := sys s in
  match r with Fine => (true, s) | Fails _ => (false, ioWarn op path s) end.

Definition onDrop (n : Z) (s : spool) : spool :=
  Spool (sf s) (se s) (Intake (i_queue (si s)) (i_closed (si s)) (i_abandon (si s)) (i_drops (si s) + n)).

Definition Truncate (t d : Z) : Z := t - t mod d.

Definition capWarn (t : Z) (s : spool) : spool :=
  let win := Truncate t spoolWindow in
  if decide (e_capWarned (se s) = Some win) then s
  else log LFull (on_env (λ e, Env (e_script e) (e_clock e) (e_calls e) (e_cancel e) (e_ioLast e)
                                 (e_ioSuppressed e) (Some win) (e_log e)) s).

(** ** Recovery *)

(** [bytes.LastIndexByte(data, '\n') + 1]. *)
Fixpoint complete_lines (data : bytes) : nat :=
  match data with
  | [] => 0
  | b :: rest =>
      match complete_lines rest with
      | O => if byte_eq_decision b x0a then 1 else 0
      | S n => S (S n)
      end
  end.

Definition rename (old new : string) (f : files) : files :=
  match f_dir f !! old with
  | Some e => set_dir (λ d, <[new := e]> (delete old d)) f
  | None => f
  end.

Definition recoverPart (name : string) (s : spool) : spool :=
  match f_dir (sf s) !! name with
  | Some (Regular data) =>
      let '(ok, s) := try "read" name s in
      if negb ok then s else
      let keep := complete_lines data in
      let s := if (keep <? length data)%nat then log (LTorn name (len data - Z.of_nat keep)) s else s in
      if (keep =? 0)%nat then
        let '(ok, s) := try "remove" name s in
        if ok then upd (set_dir (delete name)) s else s
      else
        let '(ok, s) := if (keep <? length data)%nat then
                          let '(ok, s) := try "truncate" name s in
                          (ok, if ok then upd (set_dir <[name := Regular (take keep data)]>) s else s)
                        else (true, s) in
        if negb ok then s else
        let '(ok, s) := try "rename" name s in
        if ok then upd (add_spooled (Z.of_nat keep)) (upd (rename name (TrimSuffix name ".part")) s) else s
  | _ => s
  end.

Definition recover_entry (name : string) (s : spool) : spool :=
  match spoolName name, f_dir (sf s) !! name with
  | Some (_, false), Some (Regular data) =>
      let '(ok, s) := try "stat" name s in
      if ok then upd (add_spooled (len data)) s else s
  | Some (_, true), Some (Regular _) => recoverPart name s
  | _, _ => s
  end.

Definition str_le (a b : string) : Prop := String.compare a b ≠ Gt.
#[local] Instance str_le_dec : RelDecision str_le.
Proof. intros a b. unfold str_le. apply _. Defined.

(** [os.ReadDir] and [sort.Strings]: the names in byte order. *)
Definition ReadDir (f : files) : list string := merge_sort str_le (map_to_list (f_dir f)).*1.

(** [None] is the error of listing the directory. *)
Definition recoverSpool (s : spool) : option spool :=
  let '(r, s) := sys s in
  match r with
  | Fails _ => None
  | Fine => Some (fold_left (λ s name, recover_entry name s) (ReadDir (sf s)) s)
  end.

(** ** The writer *)
Definition PutConnLog (ev : Event) (s : spool) : spool :=
  let i := si s in
  if i_closed i then onDrop 1 s
  else if len (i_queue i) <? spoolQueue
  then Spool (sf s) (se s) (Intake (i_queue i ++ [ev]) (i_closed i) (i_abandon i) (i_drops i))
  else onDrop 1 s.

Definition inWindow (w : activeFile) (t : Z) : bool :=
  (a_winStart w <=? t) && (t <? a_winStart w + spoolWindow).

Definition rotate (s : spool) : spool :=
  match f_active (sf s) with
  | None => s
  | Some w =>
      let path := part_name (a_base w) in
      if a_size w =? 0 then
        let '(_, s) := try "close" path s in
        let '(ok, s) := try "remove" path s in
        let s := if ok then upd (set_dir (delete path)) s else s in
        upd (set_active None) s
      else
        let '(_, s) := try "fsync" path s in
        let '(_, s) := try "close" path s in
        let '(ok, s) := try "rename" path s in
        let s := if ok then upd (rename path (TrimSuffix path ".part")) s else s in
        upd (set_active None) s
  end.

Definition base_of (node : string) (start : Z) : string := format_nanos start +:+ "-" +:+ node.

(** The loop of [open]: [true] when a file was created. *)
Fixpoint open_loop (tries : nat) (t start : Z) (s : spool) : bool * spool :=
  match tries with
  | O => (false, s)
  | S n =>
      let base := base_of (f_node (sf s)) start in
      let '(r, s) := sys s in
      match r with
      | Fails _ => (false, s)
      | Fine =>
          match f_dir (sf s) !! ready_name base with
          | Some _ => open_loop n t (start + 1) s
          | None =>
              let '(r, s) := sys s in
              match r, f_dir (sf s) !! part_name base with
              | Fails _, _ => (false, s)
              | Fine, Some _ => open_loop n t (start + 1) s
              | Fine, None =>
                  (true, upd (λ f, opened (Active base 0 (Truncate t spoolWindow)) start
                                     (set_dir <[part_name base := Regular []]> f)) s)
              end
          end
      end
  end.

Definition open (t : Z) (s : spool) : bool * spool :=
  let start := match f_lastStart (sf s) with
               | Some l => if l <? t then t else l + 1
               | None => t
               end in
  open_loop spoolMaxNameTries t start s.

Definition write_bytes (path : string) (b : bytes) (f : files) : files :=
  set_dir (alter (λ e, match e with Regular d => Regular (d ++ b) | NotRegular => e end) path) f.
Definition truncate_to (path : string) (n : Z) (f : files) : files :=
  set_dir (alter (λ e, match e with Regular d => Regular (take (Z.to_nat n) d) | NotRegular => e end) path) f.
Definition grow (w : activeFile) (n : Z) (f : files) : files :=
  add_spooled n (set_active (Some (Active (a_base w) (a_size w + n) (a_winStart w))) f).

(** The write of one line to the active file. *)
Definition write_line (l : bytes) (s : spool) : spool :=
  match f_active (sf s) with
  | None => s
  | Some w =>
      let path := part_name (a_base w) in
      let '(r, s) := sys s in
      match r with
      | Fails k =>
          let n := Nat.min k (length l) in
          let s := ioWarn "append" path (onDrop 1 (upd (write_bytes path (take n l)) s)) in
          let '(ok, s) := try "truncate" path s in
          if ok then upd (truncate_to path (a_size w)) s
          else rotate (upd (grow w (Z.of_nat n)) s)
      | Fine =>
          let s := upd (λ f, record_line (a_base w) l (grow w (len l) (write_bytes path l f))) s in
          if maxFile <=? a_size w + len l then rotate s else s
      end
  end.

Definition append (ev : Event) (s : spool) : spool :=
  match marshal ev with
  | None => ioWarn "encode" "" (onDrop 1 s)
  | Some b =>
      let l := b ++ [x0a] in
      let '(t, s) := now s in
      let s := match f_active (sf s) with
               | Some w => if inWindow w t then s else rotate s
               | None => s
               end in
      if maxBytes <? f_spooled (sf s) + len l then capWarn t (onDrop 1 s)
      else
        let '(ok, s) := match f_active (sf s) with Some _ => (true, s) | None => open t s end in
        if ok then write_line l s else ioWarn "create" "" (onDrop 1 s)
  end.

(** The writer takes an event from the queue. *)
Definition write_next (s : spool) : spool :=
  match i_queue (si s) with
  | [] => s
  | ev :: rest =>
      let s := Spool (sf s) (se s) (Intake rest (i_closed (si s)) (i_abandon (si s)) (i_drops (si s))) in
      if i_abandon (si s) then onDrop 1 s else append ev s
  end.

Definition writer_tick (s : spool) : spool :=
  let s := match f_active (sf s) with
           | Some w => let '(t, s) := now s in if inWindow w t then s else rotate s
           | None => s
           end in
  flushIOWarn false s.

Definition give_up_queue (s : spool) : spool :=
  Spool (sf s) (se s) (Intake (i_queue (si s)) (i_closed (si s)) true (i_drops (si s))).

(** The queue is closed: the [n] events left, then the last file.  The time runs
    out after [patience] of them; what is left then is dropped. *)
Fixpoint writer_rest (n : nat) (patience : option nat) (s : spool) : spool :=
  match n with
  | O => s
  | S n' =>
      match patience with
      | Some O => writer_rest n' patience (write_next (give_up_queue s))
      | Some (S p) => writer_rest n' (Some p) (write_next s)
      | None => writer_rest n' None (write_next s)
      end
  end.

Definition abandoned (n : nat) (patience : option nat) : nat :=
  match patience with Some p => n - p | None => 0 end.

Definition writer_end (patience : option nat) (s : spool) : spool :=
  let n := length (i_queue (si s)) in
  let s := writer_rest n patience s in
  rotate (if (0 <? abandoned n patience)%nat then log (LAbandoned (Z.of_nat (abandoned n patience))) s else s).

(** ** The uploader *)
Definition is_ready (f : files) (name : string) : bool :=
  match spoolName name, f_dir f !! name with
  | Some (_, false), Some (Regular _) => true
  | _, _ => false
  end.

Definition readyFiles (s : spool) : option (list string) * spool :=
  let '(r, s) := sys s in
  match r with
  | Fails _ => (None, s)
  | Fine => (Some (List.filter (is_ready (sf s)) (ReadDir (sf s))), s)
  end.

(** Whether the file was uploaded and removed, and whether the upload failed. *)
Definition uploadFile (name : string) (s : spool) : bool * bool * spool :=
  match spoolKey name with
  | None => (false, false, ioWarn "key" name s)
  | Some key =>
      match f_dir (sf s) !! name with
      | Some (Regular data) =>
          let '(ok, s) := try "open" name s in
          if negb ok then (false, false, s) else
          let '(ok, s) := try "stat" name s in
          if negb ok then (false, false, s) else
          let '(r, s) := sys s in
          let s := match r with Fine | Fails (S _) => upd (put_object key data) s | Fails O => s end in
          let '(_, s) := try "close" name s in
          match r with
          | Fails _ => (false, true, if upCtx_ended s then s else log (LUpload name) s)
          | Fine =>
              let '(ok, s) := try "remove" name s in
              if ok then (true, false, upd (λ f, add_spooled (- len data) (set_dir (delete name) f)) s)
              else (false, false, s)
          end
      | _ => (false, false, ioWarn "open" name (on_env bump s))
      end
  end.

Fixpoint pass_loop (names : list string) (clean : bool) (s : spool) : bool * spool :=
  match names with
  | [] => (clean, s)
  | name :: rest =>
      if upCtx_ended s then (false, s)
      else
        let '(uploaded, failed, s) := uploadFile name s in
        if failed then (false, s) else pass_loop rest (clean && uploaded) s
  end.

Definition pass (s : spool) : bool * spool :=
  let '(names, s) := readyFiles s in
  match names with
  | None => (false, ioWarn "list" "" s)
  | Some names => pass_loop names true s
  end.

(** ** Shutdown: [None] when the passes given are not enough *)
Fixpoint upload_rest (passes : nat) (s : spool) : option spool :=
  match passes with
  | O => None
  | S n =>
      let '(clean, s) := pass s in
      if clean || upCtx_ended s then Some s else upload_rest n (on_env bump s)
  end.

Definition stop_intake (s : spool) : spool :=
  Spool (sf s) (se s) (Intake (i_queue (si s)) true (i_abandon (si s)) (i_drops (si s))).

Definition Drain (passes : nat) (patience : option nat) (s : spool) : option spool :=
  s ← upload_rest passes (writer_end patience (stop_intake s));
  let '(names, s) := readyFiles s in
  let s := match names with
           | None => ioWarn "list" "" s
           | Some [] => s
           | Some l => log (LLeft (len l)) s
           end in
  Some (flushIOWarn true s).

(** A process starts on what it finds; [None] when it refuses to. *)
Definition NewConnLogSpool (node : string) (e : env) (f : files) : option spool :=
  if negb (nodeIDPattern node) then None
  else recoverSpool (Spool (Files node (f_dir f) (f_bucket f) 0 None None (f_written f))
                       (Env (e_script e) (e_clock e) (e_calls e) (e_cancel e) None 0 None (e_log e))
                       (Intake [] false false 0)).
End spool.

(** ** Names sort in time and can be uploaded *)
Lemma is_digit_pad w n : str_forall is_digit (pad w n) = true.
Proof.
  induction w as [|w IH]; [done|]. cbn [pad str_forall]. rewrite IH, andb_true_r. unfold is_digit.
  apply bool_decide_eq_true. destruct (digit_char_val ((n / 10 ^ Z.of_nat w) mod 10)) as [-> _]; [|eauto].
  apply Z.mod_pos_bound. lia.
Qed.

Lemma digits_pad w n : digits w (pad w n) = true.
Proof. unfold digits. by rewrite length_pad, Nat.eqb_refl, is_digit_pad. Qed.

Lemma stamp_shape_format t : four_digit_year t →
  stamp_shape (format_nanos t) = true ∧ String.length (format_nanos t) = 26%nat.
Proof.
  unfold four_digit_year, format_nanos. intros Hy. destruct (civil (t / day_ns)) as [[y m] d]. simpl in Hy.
  unfold date_text. rewrite year_text_4 by lia. set (r := t mod day_ns). split.
  - unfold stamp_shape.
    change (str_take 8 _) with (pad 4 y +:+ pad 2 m +:+ pad 2 d).
    change (str_take 6 _) with (pad 2 (r / hour) +:+ pad 2 ((r / minute) mod 60) +:+ pad 2 ((r / second) mod 60)).
    change (str_take 9 _) with (pad 9 (r mod second)).
    unfold digits. rewrite !str_forall_app, !is_digit_pad, !str_length_app, !length_pad. done.
  - by rewrite !str_length_app, !length_pad.
Qed.

Lemma str_span_hex node rest :
  str_forall is_hex node = true → str_span is_hex (node +:+ String "." rest) = (node, String "." rest).
Proof.
  induction node as [|c s IH]; [done|]. cbn [str_forall String.append str_span]. intros [Hc Hs]%andb_prop.
  by rewrite Hc, IH.
Qed.

Lemma spoolName_base node t rest :
  nodeIDPattern node = true → four_digit_year t →
  spoolName (base_of node t +:+ String "." rest) =
    if String.eqb (String "." rest) ".jsonl" then Some (format_nanos t, false)
    else if String.eqb (String "." rest) ".jsonl.part" then Some (format_nanos t, true) else None.
Proof.
  intros [Hne Hhex]%andb_prop Ht. destruct (stamp_shape_format t Ht) as [Hs Hl]. unfold spoolName, base_of.
  rewrite str_app_assoc, <- Hl, str_drop_app, str_take_app. cbn [String.append].
  rewrite str_span_hex by done. rewrite Hs. apply negb_true_iff in Hne. by rewrite Hne.
Qed.

(** File names sort as text the way their times sort, are recognised by the name
    pattern, and have an object key made of their date. *)
Lemma spool_names_sort_in_time node a b :
  nodeIDPattern node = true → 0 ≤ a < year_10000 → 0 ≤ b < year_10000 →
  String.compare (ready_name (base_of node a)) (ready_name (base_of node b)) = (a ?= b) ∧
  spoolName (part_name (base_of node a)) = Some (format_nanos a, true) ∧
  ∃ y m d, civil (a / day_ns) = (y, m, d) ∧
    spoolKey (ready_name (base_of node a)) =
      Some ("tunnel-logs/" +:+ pad 4 y +:+ "/" +:+ pad 2 m +:+ "/" +:+ pad 2 d +:+ "/" +:+ ready_name (base_of node a)).
Proof.
  intros Hn Ha%unix_years Hb%unix_years. split_and!.
  - unfold ready_name, base_of. rewrite !str_app_assoc.
    destruct (stamp_shape_format a Ha) as [_ La]. destruct (stamp_shape_format b Hb) as [_ Lb].
    rewrite cmp_app by congruence. rewrite format_nanos_compare by done.
    rewrite <- (str_app_nil_r (node +:+ _)), !cmp_same. by destruct (a ?= b).
  - exact (spoolName_base node a "jsonl.part" Hn Ha).
  - destruct (civil (a / day_ns)) as [[y m] d] eqn:E. exists y, m, d. split; [done|].
    assert (spoolName (ready_name (base_of node a)) = Some (format_nanos a, false)) as En
      by exact (spoolName_base node a "jsonl" Hn Ha).
    unfold spoolKey. by rewrite En, parse_format_nanos, E.
Qed.

Lemma spool_names_sort_in_time_witness :
  String.compare (ready_name (base_of "ab" 5)) (ready_name (base_of "ab" 7)) = Lt ∧
  spoolName (part_name (base_of "ab" 5)) = Some (format_nanos 5, true) ∧
  ∃ y m d, civil (5 / day_ns) = (y, m, d) ∧
    spoolKey (ready_name (base_of "ab" 5)) =
      Some ("tunnel-logs/" +:+ pad 4 y +:+ "/" +:+ pad 2 m +:+ "/" +:+ pad 2 d +:+ "/" +:+ ready_name (base_of "ab" 5)).
Proof. by apply (spool_names_sort_in_time "ab" 5 7). Defined.
End Spool.
