(* ===== verification/SpoolSafe.v ===== *)
(** * What the spool guarantees

    [Spool]'s operations over any pattern of failures, any interleaving of the
    queue, the writer and the uploader, and any number of crashes and restarts:
    a line that was written stays in a file or an object, every event is
    accounted for, and the byte count is the one the directory has. *)
From Stdlib Require Import ZArith Lia Ascii String Strings.Byte.
From stdpp Require Import sorting.
From S2P Require Import Prelude GoStr GoTime Spool.
Local Open Scope string_scope.
Local Open Scope list_scope.
Local Open Scope Z_scope.

Module SpoolSafe.
Import GoTime Spool.

(** ** Names *)
Lemma ready_name_inj a b : ready_name a = ready_name b → a = b.
Proof. apply str_app_inv_r. Qed.
Lemma part_name_inj a b : part_name a = part_name b → a = b.
Proof. apply str_app_inv_r. Qed.

Lemma part_name_ready base : part_name base = ready_name base +:+ ".part".
Proof. unfold part_name, ready_name. by rewrite str_app_assoc. Qed.

Lemma part_not_ready a b : part_name a ≠ ready_name b.
Proof.
  intros E. assert ((a +:+ ".jsonl.") +:+ "part" = (b +:+ ".j") +:+ "sonl") as E' by (rewrite !str_app_assoc; exact E).
  by apply app_inv_len in E' as [_ ?].
Qed.

Lemma trim_part base : TrimSuffix (part_name base) ".part" = ready_name base.
Proof. rewrite part_name_ready. apply TrimSuffix_app. Qed.

Lemma str_span_app p s : (str_span p s).1 +:+ (str_span p s).2 = s.
Proof. induction s as [|c s IH]; [done|]. simpl. destruct (p c); [|done]. destruct (str_span p s). simpl in *. by f_equal. Qed.

Lemma spoolName_shape name ts part :
  spoolName name = Some (ts, part) → ∃ base, name = if part then part_name base else ready_name base.
Proof.
  unfold spoolName. pose proof (str_take_drop 26 name) as Hn.
  destruct (str_drop 26 name) as [|c r] eqn:E; [done|]. intros H.
  destruct (decide (c = "-"%char)) as [->|Hc].
  2:{ exfalso. destruct c as [[] [] [] [] [] [] [] []]; done. }
  pose proof (str_span_app is_hex r) as Hs. destruct (str_span is_hex r) as [hex suf]. simpl in Hs.
  destruct (negb (stamp_shape (str_take 26 name)) || String.eqb hex ""); [done|].
  exists (str_take 26 name +:+ "-" +:+ hex). rewrite <- Hn at 1. rewrite <- Hs.
  destruct (String.eqb_spec suf ".jsonl") as [Ej|_].
  { injection H as <- <-. rewrite Ej. unfold ready_name. by rewrite !str_app_assoc. }
  destruct (String.eqb_spec suf ".jsonl.part") as [Ej|_]; [|done].
  injection H as <- <-. rewrite Ej. unfold part_name. by rewrite !str_app_assoc.
Qed.

(** Different files have different objects. *)
Lemma spoolKey_inj a b k : spoolKey a = Some k → spoolKey b = Some k → a = b.
Proof.
  unfold spoolKey. intros Ha Hb.
  destruct (spoolName a) as [[ta []]|]; try done. destruct (spoolName b) as [[tb []]|]; try done.
  destruct (parse_nanos ta) as [[[y m] d]|]; [|done]. destruct (parse_nanos tb) as [[[y' m'] d']|]; [|done].
  apply (f_equal (from_option (str_drop 23) "")) in Ha, Hb. cbn in Ha, Hb. congruence.
Qed.

Lemma base_of_inj node a b : 0 ≤ a → 0 ≤ b → base_of node a = base_of node b → a = b.
Proof. intros Ha Hb E. apply str_app_inv_r in E. by apply format_nanos_inj. Qed.

(** ** The invariant *)

(** The lines written to a file, and the places its data is kept. *)
Definition lines (f : files) (base : string) : bytes :=
  concat (filter (λ p, p.1 = base) (f_written f)).*2.

Definition holds (f : files) (base : string) (data : bytes) : Prop :=
  f_dir f !! part_name base = Some (Regular data) ∨
  f_dir f !! ready_name base = Some (Regular data) ∨
  ∃ k, spoolKey (ready_name base) = Some k ∧ f_bucket f !! k = Some data.

Definition after (last : option Z) (t : Z) : Prop := match last with Some l => l < t | None => True end.

Definition no_object (f : files) (base : string) : Prop :=
  ∀ k, spoolKey (ready_name base) = Some k → f_bucket f !! k = None.

(** Nothing carries the name yet. *)
Definition unused (f : files) (base : string) : Prop :=
  lines f base = [] ∧ no_object f base ∧ f_dir f !! part_name base = None ∧ f_dir f !! ready_name base = None.

(** The names the writer may still take are unused. *)
Definition taken (f : files) (base : string) : Prop :=
  ∀ t, 0 ≤ t → after (f_lastStart f) t → base ≠ base_of (f_node f) t.

Record finv0 (f : files) : Prop := {
  fi_prefix base data : holds f base data → lines f base `prefix_of` data;
  fi_live base : lines f base ≠ [] → ∃ data, holds f base data;
  fi_fresh t : 0 ≤ t → after (f_lastStart f) t → unused f (base_of (f_node f) t);
  fi_last l : f_lastStart f = Some l → 0 ≤ l;
  fi_nl base l : (base, l) ∈ f_written f → ∃ b, l = b ++ [x0a]
}.

(** The active file holds [data]. *)
Record act (f : files) (w : activeFile) (data : bytes) : Prop := {
  ac_part : f_dir f !! part_name (a_base w) = Some (Regular data);
  ac_size : a_size w = len data;
  ac_ready : f_dir f !! ready_name (a_base w) = None;
  ac_object : no_object f (a_base w);
  ac_base : ∃ t, f_lastStart f = Some t ∧ a_base w = base_of (f_node f) t
}.

Definition finv (f : files) : Prop :=
  finv0 f ∧ ∀ w, f_active f = Some w → act f w (lines f (a_base w)).

(** What the directory holds beyond what was counted. *)
Definition uncounted (f : files) : Z := sum_of size_of (f_dir f) - f_spooled f.

Lemma concat_end (ls : list bytes) :
  (∀ l, l ∈ ls → ∃ b, l = b ++ [x0a]) → concat ls = [] ∨ ∃ b, concat ls = b ++ [x0a].
Proof.
  induction ls as [|l ls IH]; [by left|]. intros Hall. right. simpl.
  destruct (Hall l ltac:(left)) as [b ->]. destruct IH as [->|[c ->]]; [intros; apply Hall; by right|..].
  - exists b. by rewrite app_nil_r.
  - exists ((b ++ [x0a]) ++ c). by rewrite app_assoc.
Qed.

Lemma lines_end f base : finv0 f → lines f base ≠ [] → ∃ b, lines f base = b ++ [x0a].
Proof.
  intros Hi. unfold lines. pose proof (fi_nl _ Hi) as Hnl.
  assert (∀ l, l ∈ (filter (λ p, p.1 = base) (f_written f)).*2 → ∃ b, l = b ++ [x0a]) as Hall.
  { intros l ([base' l'] & -> & [_ Hin]%list_elem_of_filter)%list_elem_of_fmap. by eapply Hnl. }
  intros Hne. by destruct (concat_end _ Hall).
Qed.

Lemma lines_record base l f base' :
  lines (record_line base l f) base' = lines f base' ++ (if decide (base = base') then l else []).
Proof.
  unfold lines. simpl. rewrite filter_app, fmap_app, concat_app. f_equal.
  rewrite filter_cons. simpl. case_decide; simpl; by rewrite ?app_nil_r.
Qed.

Lemma finv0_dir f g :
  finv0 f →
  (∀ base data, holds (set_dir g f) base data → lines f base `prefix_of` data) →
  (∀ base, lines f base ≠ [] → ∃ data, holds (set_dir g f) base data) →
  (∀ t, 0 ≤ t → after (f_lastStart f) t → unused (set_dir g f) (base_of (f_node f) t)) →
  finv0 (set_dir g f).
Proof. intros [H1 H2 H3 H4 H5] Hp Hl Hf. by constructor. Qed.

Lemma taken_part f base e : finv0 f → f_dir f !! part_name base = Some e → taken f base.
Proof. intros Hi Hd t Ht Ha ->. destruct (fi_fresh _ Hi t Ht Ha) as (_ & _ & ? & _). congruence. Qed.

Lemma taken_ready f base e : finv0 f → f_dir f !! ready_name base = Some e → taken f base.
Proof. intros Hi Hd t Ht Ha ->. destruct (fi_fresh _ Hi t Ht Ha) as (_ & _ & _ & ?). congruence. Qed.

(** Other files are not touched by a change of one name. *)
Lemma holds_other f g base0 base data :
  base ≠ base0 →
  (∀ n, n ≠ part_name base0 → n ≠ ready_name base0 → g (f_dir f) !! n = f_dir f !! n) →
  (holds (set_dir g f) base data ↔ holds f base data) ∧ (unused f base → unused (set_dir g f) base).
Proof.
  intros Hne Hg. unfold holds, unused. cbn [set_dir f_dir f_bucket].
  rewrite !Hg; first [done | apply part_not_ready | intros E; first
    [ by apply part_name_inj in E | by apply ready_name_inj in E | symmetry in E; by apply part_not_ready in E ] ].
Qed.

(** A change that keeps a file's written lines at one place keeps the invariant. *)
Lemma finv0_change f g base0 :
  finv0 f → taken f base0 →
  (∀ n, n ≠ part_name base0 → n ≠ ready_name base0 → g (f_dir f) !! n = f_dir f !! n) →
  (∀ data, holds (set_dir g f) base0 data → lines f base0 `prefix_of` data) →
  (lines f base0 ≠ [] → ∃ data, holds (set_dir g f) base0 data) →
  finv0 (set_dir g f).
Proof.
  intros Hi Ht Hg Hp Hl. apply finv0_dir; [done| | |].
  - intros base data. destruct (decide (base = base0)) as [->|Hne]; [apply Hp|].
    rewrite (proj1 (holds_other f g base0 base data Hne Hg)). apply (fi_prefix _ Hi).
  - intros base Hb. destruct (decide (base = base0)) as [->|Hne]; [by apply Hl|].
    destruct (fi_live _ Hi base Hb) as [data Hd]. exists data. by apply (holds_other f g base0).
  - intros t H0 Ha. apply (holds_other f g base0 _ [] (not_eq_sym (Ht t H0 Ha)) Hg). by apply (fi_fresh _ Hi).
Qed.

(** ** Changes of one file *)
Ltac names := first [ done | apply part_not_ready | by apply not_eq_sym, part_not_ready ].

Lemma rename_dir f base e :
  f_dir f !! part_name base = Some e →
  rename (part_name base) (ready_name base) f =
    set_dir (λ d, <[ready_name base := e]> (delete (part_name base) d)) f.
Proof. intros E. unfold rename. by rewrite E. Qed.

Lemma finv0_rename f base data :
  finv0 f → f_dir f !! part_name base = Some (Regular data) →
  finv0 (rename (part_name base) (ready_name base) f).
Proof.
  intros Hi Hd. rewrite (rename_dir _ _ _ Hd). apply (finv0_change _ _ base); [done|by eapply taken_part| | |].
  - intros n Hp Hr. by rewrite lookup_insert_ne, lookup_delete_ne.
  - intros data' [H|[H|H]]; cbn [set_dir f_dir f_bucket] in H.
    + rewrite lookup_insert_ne, lookup_delete, decide_True in H by names. done.
    + rewrite lookup_insert, decide_True in H by done. simplify_eq. apply (fi_prefix _ Hi). by left.
    + apply (fi_prefix _ Hi). by right; right.
  - intros _. exists data. right; left. cbn. by rewrite lookup_insert, decide_True.
Qed.

Lemma finv0_delete_part f base data :
  finv0 f → f_dir f !! part_name base = Some (Regular data) → lines f base = [] →
  finv0 (set_dir (delete (part_name base)) f).
Proof.
  intros Hi Hd Hl. apply (finv0_change _ _ base); [done|by eapply taken_part| | |].
  - intros n Hp _. by rewrite lookup_delete_ne.
  - intros data' _. rewrite Hl. apply prefix_nil.
  - done.
Qed.

Lemma finv0_set_part f base data :
  finv0 f → taken f base → lines f base `prefix_of` data →
  finv0 (set_dir <[part_name base := Regular data]> f).
Proof.
  intros Hi Ht Hp. apply (finv0_change _ _ base); [done..| | |].
  - intros n Hn _. by rewrite lookup_insert_ne.
  - intros data' [H|[H|H]]; cbn [set_dir f_dir f_bucket] in H.
    + rewrite lookup_insert, decide_True in H by done. by simplify_eq.
    + rewrite lookup_insert_ne in H by names. apply (fi_prefix _ Hi). by right; left.
    + apply (fi_prefix _ Hi). by right; right.
  - intros _. exists data. left. cbn. by rewrite lookup_insert, decide_True.
Qed.

(** A removed file whose data is in its object. *)
Lemma finv0_delete_ready f base data k :
  finv0 f → taken f base → spoolKey (ready_name base) = Some k → f_bucket f !! k = Some data →
  finv0 (set_dir (delete (ready_name base)) f).
Proof.
  intros Hi Ht Hk Hb. apply (finv0_change _ _ base); [done..| | |].
  - intros n _ Hn. by rewrite lookup_delete_ne.
  - intros data' [H|[H|H]]; cbn [set_dir f_dir f_bucket] in H.
    + rewrite lookup_delete_ne in H by names. apply (fi_prefix _ Hi). by left.
    + rewrite lookup_delete, decide_True in H by done. done.
    + apply (fi_prefix _ Hi). by right; right.
  - intros _. exists data. right; right. by exists k.
Qed.

(** A file's object gets the file's data; the writer's file has none. *)
Lemma finv_put f base data k :
  finv f → spoolKey (ready_name base) = Some k → f_dir f !! ready_name base = Some (Regular data) →
  finv (put_object k data f).
Proof.
  intros [Hi Ha] Hk Hd. pose proof (taken_ready _ _ _ Hi Hd) as Hnew.
  assert (∀ base', base' ≠ base → no_object f base' → no_object (put_object k data f) base') as Hno.
  { intros base' Hne Hn k' Hk'. cbn. rewrite lookup_insert_ne; [by apply Hn|]. intros ->.
    by apply Hne, ready_name_inj, (spoolKey_inj _ _ k'). }
  split.
  - destruct Hi as [H1 H2 H3 H4 H5]. constructor; try done.
    + intros base' data' [H|[H|(k' & Hk' & Hb)]]; [apply H1; by left|apply H1; by right; left|].
      cbn in Hb. apply lookup_insert_Some in Hb as [[<- <-]|[_ Hb]].
      * rewrite (ready_name_inj _ _ (spoolKey_inj _ _ _ Hk Hk')) in Hd. apply H1. by right; left.
      * apply H1. right; right. by exists k'.
    + intros base' Hl. destruct (H2 base' Hl) as [data' [H|[H|(k' & Hk' & Hb)]]];
        [exists data'; by left|exists data'; by right; left|].
      destruct (decide (k' = k)) as [->|Hne].
      * exists data. right; right. exists k. cbn. by rewrite lookup_insert, decide_True.
      * exists data'. right; right. exists k'. cbn. by rewrite lookup_insert_ne.
    + intros t Ht Hat. destruct (H3 t Ht Hat) as (? & ? & ? & ?). split; [done|]. split; [|done].
      apply Hno; [|done]. intros E. by apply (Hnew t).
  - intros w Hw. destruct (Ha w Hw) as [A1 A2 A3 A4 A5]. constructor; try done. apply Hno; [|done].
    intros <-. cbn in A3. congruence.
Qed.

(** ** The operations keep it *)
Section ops.
Context {Event : Type} (marshal : Event → option bytes) (maxFile maxBytes : Z).
#[local] Notation spool := (Spool.spool (Event := Event)).
Implicit Type s : spool.

Lemma ioWarn_frame op path s : sf (ioWarn op path s) = sf s ∧ si (ioWarn op path s) = si s.
Proof. unfold ioWarn, now. cbn. by destruct (match e_ioLast _ with Some _ => _ | None => _ end). Qed.

Lemma flush_frame b s : sf (flushIOWarn b s) = sf s ∧ si (flushIOWarn b s) = si s.
Proof. unfold flushIOWarn, now. cbn. by destruct (_ || _). Qed.

Lemma try_frame op path s : ∃ ok s', try op path s = (ok, s') ∧ sf s' = sf s ∧ si s' = si s.
Proof.
  unfold try, sys. destruct (e_script _ _); do 2 eexists; (split; [reflexivity|]); [done|].
  apply (ioWarn_frame op path (on_env bump s)).
Qed.

Lemma capWarn_frame t s : sf (capWarn t s) = sf s ∧ si (capWarn t s) = si s.
Proof. unfold capWarn. by case_decide. Qed.

(** Nothing was written or counted. *)
Record kept s s' : Prop := {
  k_uncounted : uncounted (sf s') = uncounted (sf s);
  k_spooled : f_spooled (sf s') = f_spooled (sf s);
  k_written : f_written (sf s') = f_written (sf s);
  k_intake : si s' = si s
}.

Lemma act_taken f w data : finv0 f → act f w data → taken f (a_base w).
Proof. intros Hi Ha. eapply taken_part; [done|apply Ha]. Qed.

Ltac call op path s :=
  let ok := fresh "ok" in let s' := fresh "s" in let Hf := fresh "Hf" in let Hn := fresh "Hn" in
  destruct (try_frame op path s) as (ok & s' & -> & Hf & Hn).

Lemma rotate_data s w data :
  finv0 (sf s) → f_active (sf s) = Some w → act (sf s) w data → lines (sf s) (a_base w) `prefix_of` data →
  finv (sf (rotate s)) ∧ kept s (rotate s) ∧ f_active (sf (rotate s)) = None.
Proof.
  intros Hi Ew Ha Hp. pose proof Ha as [A1 A2 A3 A4 A5]. unfold rotate. rewrite Ew.
  destruct (Z.eqb_spec (a_size w) 0) as [E0|E0].
  - assert (data = []) as -> by (destruct data; [done|simpl in A2; lia]).
    call "close" (part_name (a_base w)) s. call "remove" (part_name (a_base w)) s0.
    assert (sf s1 = sf s) as Es by congruence.
    assert (finv0 (set_dir (delete (part_name (a_base w))) (sf s))) as Hdel.
    { eapply finv0_delete_part; [done..|]. by apply prefix_nil_inv. }
    destruct ok0; cbn [upd sf]; rewrite Es; split_and!; try done.
    + split; [by destruct Hdel|done].
    + constructor; cbn; rewrite ?Es; try done; [|congruence].
      unfold uncounted. cbn. rewrite (sum_of_delete _ _ _ _ A1). simpl. lia.
    + split; [by destruct Hi|done].
    + constructor; cbn; rewrite ?Es; try done. congruence.
  - call "fsync" (part_name (a_base w)) s. call "close" (part_name (a_base w)) s0.
    call "rename" (part_name (a_base w)) s1. assert (sf s2 = sf s) as Es by congruence.
    pose proof (finv0_rename _ _ _ Hi A1) as Hren.
    destruct ok1; cbn [upd sf]; rewrite Es, ?trim_part; split_and!; try done.
    + split; [by destruct Hren|done].
    + constructor; cbn; rewrite ?Es, ?trim_part, ?(rename_dir _ _ _ A1); try done; [|congruence].
      unfold uncounted. cbn. rewrite sum_of_fresh, (sum_of_delete _ _ _ _ A1);
        [lia|]. rewrite lookup_delete_ne; [done|apply part_not_ready].
    + split; [by destruct Hi|done].
    + constructor; cbn; rewrite ?Es; try done. congruence.
Qed.

Lemma rotate_ok s :
  finv (sf s) → finv (sf (rotate s)) ∧ kept s (rotate s) ∧ f_active (sf (rotate s)) = None.
Proof.
  intros [Hi Ha]. destruct (f_active (sf s)) as [w|] eqn:Ew.
  - by apply (rotate_data s w (lines (sf s) (a_base w))); [..|apply Ha|].
  - unfold rotate. rewrite Ew. split_and!; try done. split; [done|]. by rewrite Ew.
Qed.

Definition with_start (start : Z) (f : files) : files :=
  Files (f_node f) (f_dir f) (f_bucket f) (f_spooled f) (f_active f) (Some start) (f_written f).

Lemma after_trans last a b : after last a → a < b → after last b.
Proof. destruct last; simpl; lia. Qed.

Lemma finv0_with_start f start :
  finv0 f → 0 ≤ start → after (f_lastStart f) start →
  finv0 (with_start start f) ∧ taken (with_start start f) (base_of (f_node f) start).
Proof.
  intros [H1 H2 H3 H4 H5] H0 Ha. split.
  - constructor; try done; cbn.
    + intros t Ht Hat. apply H3; [done|]. by eapply after_trans.
    + intros l [= <-]. done.
  - intros t Ht Hat E. cbn in Hat. apply base_of_inj in E; [lia|done..].
Qed.

Lemma finv_opened f start win :
  finv0 f → 0 ≤ start → after (f_lastStart f) start →
  finv (opened (Active (base_of (f_node f) start) 0 win) start
          (set_dir <[part_name (base_of (f_node f) start) := Regular []]> f)).
Proof.
  intros Hi H0 Ha. destruct (fi_fresh _ Hi start H0 Ha) as (Hl & Ho & Hp & Hr).
  destruct (finv0_with_start f start Hi H0 Ha) as [Hi' Ht].
  assert (finv0 (set_dir <[part_name (base_of (f_node f) start) := Regular []]> (with_start start f))) as Hi2.
  { apply finv0_set_part; [done..|]. change (lines f (base_of (f_node f) start) `prefix_of` []). by rewrite Hl. }
  split; [by destruct Hi2|]. intros w Hw. injection Hw as <-.
  replace (lines _ _) with ([] : bytes) by (symmetry; exact Hl).
  constructor; cbn; try done.
  - by rewrite lookup_insert, decide_True.
  - rewrite lookup_insert_ne by names. done.
  - by exists start.
Qed.

Lemma uncounted_create f name : f_dir f !! name = None →
  uncounted (set_dir <[name := Regular []]> f) = uncounted f.
Proof. intros H. unfold uncounted. cbn. rewrite sum_of_fresh by done. simpl. lia. Qed.

Lemma open_loop_ok n t start s :
  finv0 (sf s) → f_active (sf s) = None → 0 ≤ start → after (f_lastStart (sf s)) start →
  let '(ok, s') := open_loop n t start s in
  finv (sf s') ∧ kept s s' ∧ (ok = true → ∃ w, f_active (sf s') = Some w).
Proof.
  revert start s. induction n as [|n IH]; intros start s Hi Ea H0 Hs; cbn [open_loop].
  { split_and!; try done. split; [done|]. by rewrite Ea. }
  assert (∀ s', sf s' = sf s → si s' = si s →
    let '(ok, s'') := open_loop n t (start + 1) s' in
    finv (sf s'') ∧ kept s s'' ∧ (ok = true → ∃ w, f_active (sf s'') = Some w)) as Hnext.
  { intros s' Es En. specialize (IH (start + 1) s'). rewrite Es in IH.
    specialize (IH Hi Ea ltac:(lia) (after_trans _ start (start + 1) Hs ltac:(lia))).
    destruct (open_loop n t (start + 1) s') as [ok s'']. destruct IH as (? & [] & ?).
    split_and!; try done. constructor; congruence. }
  unfold sys. cbn [on_env sf].
  assert (finv (sf s)) as Hf by (split; [done|by rewrite Ea]).
  destruct (e_script _ _); [|by split_and!].
  destruct (f_dir (sf s) !! ready_name _); [by apply Hnext|].
  destruct (e_script _ _); [|by split_and!].
  destruct (f_dir (sf s) !! part_name _) eqn:Ep; [by apply Hnext|].
  split_and!; [by apply finv_opened| |by eauto].
  constructor; try done. cbn [upd sf]. rewrite <- (uncounted_create _ _ Ep). done.
Qed.

Lemma open_ok t s :
  finv (sf s) → f_active (sf s) = None → 0 ≤ t →
  let '(ok, s') := open t s in
  finv (sf s') ∧ kept s s' ∧ (ok = true → ∃ w, f_active (sf s') = Some w).
Proof.
  intros [Hi _] Ea Ht. unfold open.
  destruct (f_lastStart (sf s)) as [l|] eqn:El.
  - pose proof (fi_last _ Hi l El). destruct (Z.ltb_spec l t); apply open_loop_ok; rewrite ?El; simpl; lia || done.
  - apply open_loop_ok; rewrite ?El; done.
Qed.

Lemma alter_as_insert (d : gmap string dirent) n g e : d !! n = Some e → alter g n d = <[n := g e]> d.
Proof.
  intros H. apply map_eq. intros k. destruct (decide (n = k)) as [<-|Hne].
  - by rewrite lookup_alter, lookup_insert, !decide_True, H.
  - by rewrite lookup_alter_ne, lookup_insert_ne.
Qed.

Lemma write_bytes_dir f name data b :
  f_dir f !! name = Some (Regular data) →
  write_bytes name b f = set_dir <[name := Regular (data ++ b)]> f.
Proof. intros H. unfold write_bytes, set_dir. by rewrite (alter_as_insert _ _ _ _ H). Qed.

Lemma truncate_dir f name data n :
  f_dir f !! name = Some (Regular data) →
  truncate_to name n f = set_dir <[name := Regular (take (Z.to_nat n) data)]> f.
Proof. intros H. unfold truncate_to, set_dir. by rewrite (alter_as_insert _ _ _ _ H). Qed.

Lemma uncounted_set f name data data' n :
  f_dir f !! name = Some (Regular data) → len data' = len data + n →
  uncounted (add_spooled n (set_dir <[name := Regular data']> f)) = uncounted f.
Proof. intros H Hl. unfold uncounted. cbn. rewrite sum_of_insert, H. simpl. lia. Qed.

(** A line reached the active file. *)
Lemma finv_write f w l :
  finv f → f_active f = Some w → (∃ b, l = b ++ [x0a]) →
  finv (record_line (a_base w) l (grow w (len l) (write_bytes (part_name (a_base w)) l f))).
Proof.
  intros [Hi Hact] Ew Hnl. pose proof (Hact w Ew) as Ha. pose proof Ha as [A1 A2 A3 A4 A5].
  pose proof (act_taken _ _ _ Hi Ha) as Ht. rewrite (write_bytes_dir _ _ _ _ A1).
  pose proof (finv0_set_part f (a_base w) (lines f (a_base w) ++ l) Hi Ht (prefix_app_r _ _ _ (reflexivity _))) as Hi1.
  set (f1 := set_dir _ f) in *. set (f2 := record_line _ _ _).
  assert (∀ base, lines f2 base = lines f1 base ++ (if decide (a_base w = base) then l else [])) as Hl
    by (intros; exact (lines_record _ _ (grow w (len l) f1) _)).
  assert (∀ base data, holds f2 base data ↔ holds f1 base data) as Hh by done.
  split.
  - destruct Hi1 as [H1 H2 H3 H4 H5]. constructor; try done.
    + intros base data Hd. rewrite Hl. case_decide as Eb; [|rewrite app_nil_r; by apply H1].
      subst base. apply Hh in Hd as [H|[H|(k & Hk & H)]]; cbn in H.
      * rewrite lookup_insert, decide_True in H by done. by simplify_eq.
      * rewrite lookup_insert_ne in H by names. congruence.
      * by rewrite (A4 k Hk) in H.
    + intros base Hb. rewrite Hl in Hb. case_decide as Eb.
      * subst base. exists (lines f (a_base w) ++ l). left. cbn. by rewrite lookup_insert, decide_True.
      * rewrite app_nil_r in Hb. by apply H2.
    + intros t H0 Hat. destruct (H3 t H0 Hat) as (U1 & U2 & U3 & U4). split_and!; try done.
      rewrite Hl, decide_False; [by rewrite app_nil_r|]. by apply Ht.
    + intros base l' [Hin|[= -> ->]%list_elem_of_singleton]%elem_of_app; [by eapply H5|done].
  - intros w' Hw'. injection Hw' as <-. cbn [a_base]. rewrite Hl, decide_True by done.
    change (lines f1 (a_base w)) with (lines f (a_base w)).
    constructor; cbn; try done.
    + by rewrite lookup_insert, decide_True.
    + rewrite A2, length_app, Nat2Z.inj_add. done.
    + rewrite lookup_insert_ne by names. done.
Qed.

(** One event was written or dropped. *)
Record wrote s s' : Prop := {
  w_uncounted : uncounted (sf s') = uncounted (sf s);
  w_spooled : f_spooled (sf s') ≤ Z.max (f_spooled (sf s)) maxBytes;
  w_events : i_drops (si s') + len (f_written (sf s')) = i_drops (si s) + len (f_written (sf s)) + 1;
  w_queue : i_queue (si s') = i_queue (si s);
  w_closed : i_closed (si s') = i_closed (si s) ∧ i_abandon (si s') = i_abandon (si s)
}.

Lemma wrote_kept s s1 s2 : wrote s s1 → kept s1 s2 → wrote s s2.
Proof. intros [] []. constructor; congruence || (split; intuition congruence). Qed.

Lemma kept_wrote s s1 s2 : kept s s1 → wrote s1 s2 → wrote s s2.
Proof.
  intros [K1 K2 K3 K4] [W1 W2 W3 W4 W5]. rewrite K4 in *. rewrite K3 in W3. constructor; try congruence; done.
Qed.

Lemma write_failed f w tail :
  finv f → f_active f = Some w →
  let f1 := write_bytes (part_name (a_base w)) tail f in
  finv (truncate_to (part_name (a_base w)) (a_size w) f1) ∧
  uncounted (truncate_to (part_name (a_base w)) (a_size w) f1) = uncounted f ∧
  finv0 (grow w (len tail) f1) ∧
  act (grow w (len tail) f1) (Active (a_base w) (a_size w + len tail) (a_winStart w)) (lines f (a_base w) ++ tail) ∧
  uncounted (grow w (len tail) f1) = uncounted f.
Proof.
  intros [Hi Hact] Ew f1. pose proof (Hact w Ew) as Ha. pose proof Ha as [A1 A2 A3 A4 A5].
  pose proof (act_taken _ _ _ Hi Ha) as Ht. unfold f1. rewrite (write_bytes_dir _ _ _ _ A1). clear f1.
  set (L := lines f (a_base w)) in *. set (f1 := set_dir <[_ := Regular (L ++ tail)]> f).
  assert (f_dir f1 !! part_name (a_base w) = Some (Regular (L ++ tail))) as E1
    by (cbn; by rewrite lookup_insert, decide_True).
  assert (truncate_to (part_name (a_base w)) (a_size w) f1 = set_dir (λ _, f_dir f) f) as Etr.
  { rewrite (truncate_dir _ _ _ _ E1). unfold f1, set_dir. cbn. f_equal.
    rewrite A2, Nat2Z.id, take_app_length. rewrite insert_insert, decide_True by done. by apply insert_id. }
  assert (set_dir (λ _, f_dir f) f = f) as Eid by by destruct f.
  assert (finv0 f1) as Hi1 by (apply finv0_set_part; [done..|by apply prefix_app_r]).
  rewrite Etr, Eid. split_and!; try done.
  - by destruct Hi1.
  - constructor; cbn; try done.
    + rewrite A2, length_app. lia.
    + rewrite lookup_insert_ne by names. done.
  - transitivity (uncounted (add_spooled (len tail) f1)); [done|]. unfold f1.
    apply (uncounted_set f _ L); [done|]. rewrite length_app. lia.
Qed.

Lemma write_line_ok l s w :
  finv (sf s) → f_active (sf s) = Some w → (∃ b, l = b ++ [x0a]) → f_spooled (sf s) + len l ≤ maxBytes →
  finv (sf (write_line maxFile l s)) ∧ wrote s (write_line maxFile l s).
Proof.
  intros Hi Ew Hnl Hcap. unfold write_line. rewrite Ew. unfold sys.
  destruct (e_script _ _) as [|k]; cbn [on_env sf].
  - pose proof (finv_write _ _ _ Hi Ew Hnl) as Hw. destruct Hi as [Hi Hact].
    set (s1 := upd _ _).
    assert (wrote s s1) as W1.
    { constructor; try done.
      - destruct (Hact w Ew) as [A1 A2 _ _ _]. cbn [s1 upd sf on_env]. rewrite (write_bytes_dir _ _ _ _ A1).
        rewrite <- (uncounted_set (sf s) _ _ (lines (sf s) (a_base w) ++ l) (len l) A1); [done|].
        rewrite length_app. lia.
      - cbn. lia.
      - cbn. rewrite length_app. simpl. lia. }
    assert (finv (sf s1)) as F1 by exact Hw.
    destruct (maxFile <=? _); [|done]. destruct (rotate_ok s1 F1) as (? & ? & _).
    split; [done|]. by eapply wrote_kept.
  - set (tail := take (Nat.min k (length l)) l).
    assert (len tail = Z.of_nat (Nat.min k (length l))) as Htl by (unfold tail; rewrite length_take; lia).
    destruct (write_failed _ _ tail Hi Ew) as (F1 & F2 & F3 & F4 & F5).
    set (s1 := ioWarn _ _ _).
    assert (sf s1 = write_bytes (part_name (a_base w)) tail (sf s)) as Es1
      by exact (proj1 (ioWarn_frame _ _ _)).
    assert (si s1 = si (onDrop 1 s)) as En1 by exact (proj2 (ioWarn_frame _ _ _)).
    call "truncate" (part_name (a_base w)) s1. destruct ok.
    + cbn [upd sf]. rewrite Hf, Es1. split; [done|].
      constructor; cbn; rewrite ?Hf, ?Es1, ?Hn, ?En1; cbn; try done; lia.
    + set (s2 := upd _ s0).
      assert (sf s2 = grow w (len tail) (write_bytes (part_name (a_base w)) tail (sf s))) as Es2
        by (cbn; by rewrite Hf, Es1, Htl).
      destruct (rotate_data s2 (Active (a_base w) (a_size w + len tail) (a_winStart w))
                  (lines (sf s) (a_base w) ++ tail)) as (R1 & R2 & _); try by rewrite Es2.
      { rewrite Es2. cbn. by apply prefix_app_r. }
      split; [done|]. eapply wrote_kept; [|exact R2].
      constructor; rewrite ?Es2; cbn [s2 upd si]; rewrite ?Hn, ?En1; cbn; try done; lia.
Qed.

(** The clock reads times after 1970. *)
Definition clock_ok s : Prop := ∀ k, 0 ≤ e_clock (se s) k.

Lemma kept_refl s s' : sf s' = sf s → si s' = si s → kept s s'.
Proof. intros E1 E2. by constructor; rewrite ?E1. Qed.

Lemma kept_trans s1 s2 s3 : kept s1 s2 → kept s2 s3 → kept s1 s3.
Proof. intros [] []. constructor; congruence. Qed.

(** The active file is finished when its window is over. *)
Lemma window_ok t s s1 :
  sf s1 = sf s → si s1 = si s → finv (sf s) →
  let s2 := match f_active (sf s1) with
            | Some w => if inWindow w t then s1 else rotate s1
            | None => s1
            end in
  finv (sf s2) ∧ kept s s2.
Proof.
  intros E1 E2 Hi. rewrite <- E1 in Hi. pose proof (kept_refl s s1 E1 E2) as K.
  destruct (f_active (sf s1)) as [w|]; [|done]. destruct (inWindow w t); [done|].
  destruct (rotate_ok s1 Hi) as (? & ? & _). split; [done|]. by eapply kept_trans.
Qed.

(** An event that only makes a drop. *)
Lemma dropped_ok s s' : sf s' = sf s → si s' = si (onDrop 1 s) → wrote s s'.
Proof. intros E1 E2. constructor; rewrite ?E1, ?E2; cbn; done || lia. Qed.

Lemma drop_warned op path s : wrote s (ioWarn op path (onDrop 1 s)).
Proof. destruct (ioWarn_frame op path (onDrop 1 s)). by apply dropped_ok. Qed.

Lemma drop_full t s : wrote s (capWarn t (onDrop 1 s)).
Proof. destruct (capWarn_frame t (onDrop 1 s)). by apply dropped_ok. Qed.

Lemma append_ok ev s :
  finv (sf s) → clock_ok s →
  finv (sf (append marshal maxFile maxBytes ev s)) ∧ wrote s (append marshal maxFile maxBytes ev s).
Proof.
  intros Hi Hc. unfold append. destruct (marshal ev) as [b|].
  2:{ rewrite (proj1 (ioWarn_frame _ _ _)). split; [done|]. apply drop_warned. }
  unfold now. set (t := e_clock _ _). assert (0 ≤ t) as Ht by apply Hc.
  set (s1 := on_env bump s). set (s2 := match f_active _ with Some _ => _ | None => _ end).
  assert (finv (sf s2) ∧ kept s s2) as [Hi2 K2].
  { by apply window_ok. }
  clearbody s2. destruct (Z.ltb_spec maxBytes (f_spooled (sf s2) + len (b ++ [x0a]))) as [Hcap|Hcap].
  { rewrite (proj1 (capWarn_frame _ _)). split; [done|]. eapply kept_wrote; [done|]. apply drop_full. }
  assert (∃ ok s3, match f_active (sf s2) with Some _ => (true, s2) | None => open t s2 end = (ok, s3) ∧
            finv (sf s3) ∧ kept s2 s3 ∧ (ok = true → ∃ w, f_active (sf s3) = Some w)) as (ok & s3 & -> & Hi3 & K3 & Hw).
  { destruct (f_active (sf s2)) as [w|] eqn:Ew; [exists true, s2; split_and!; eauto; by apply kept_refl|].
    pose proof (open_ok t s2 Hi2 Ew Ht) as Ho. destruct (open t s2) as [ok s3]. eauto. }
  pose proof (kept_trans _ _ _ K2 K3) as K. destruct ok.
  - destruct (Hw eq_refl) as [w Ew]. destruct (write_line_ok (b ++ [x0a]) s3 w Hi3 Ew) as [? ?]; [eauto| |].
    + rewrite (k_spooled _ _ K3). lia.
    + split; [done|]. by eapply kept_wrote.
  - rewrite (proj1 (ioWarn_frame _ _ _)). split; [done|]. eapply kept_wrote; [done|]. apply drop_warned.
Qed.

(** The writer and its ticks. *)
Lemma write_next_ok s ev rest :
  finv (sf s) → clock_ok s → i_queue (si s) = ev :: rest →
  let s' := write_next marshal maxFile maxBytes s in
  finv (sf s') ∧ uncounted (sf s') = uncounted (sf s) ∧ f_spooled (sf s') ≤ Z.max (f_spooled (sf s)) maxBytes ∧
  i_drops (si s') + len (f_written (sf s')) = i_drops (si s) + len (f_written (sf s)) + 1 ∧ i_queue (si s') = rest.
Proof.
  intros Hi Hc Eq. unfold write_next. rewrite Eq. set (s1 := Spool.Spool _ _ _).
  destruct (i_abandon (si s1)).
  - cbn. split_and!; try done; lia.
  - destruct (append_ok ev s1 Hi Hc) as [? []]. split_and!; done.
Qed.

Lemma writer_tick_ok s : finv (sf s) → finv (sf (writer_tick s)) ∧ kept s (writer_tick s).
Proof.
  intros Hi. unfold writer_tick, now. set (s1 := match f_active _ with Some _ => _ | None => _ end).
  assert (finv (sf s1) ∧ kept s s1) as [H1 K1].
  { unfold s1. pose proof (window_ok (e_clock (se s) (e_calls (se s))) s (on_env bump s)) as Hw.
    destruct (f_active (sf s)) as [w|] eqn:Ew; [|split; [done|by apply kept_refl]].
    change (f_active (sf (on_env bump s))) with (f_active (sf s)) in Hw. rewrite Ew in Hw. by apply Hw. }
  clearbody s1. rewrite (proj1 (flush_frame _ _)). split; [done|].
  eapply kept_trans; [done|]. apply kept_refl; apply flush_frame.
Qed.

(** ** The uploader *)
Lemma spoolKey_ready name k : spoolKey name = Some k → ∃ base, name = ready_name base.
Proof.
  unfold spoolKey. destruct (spoolName name) as [[ts []]|] eqn:E; try done. intros _.
  by apply spoolName_shape in E.
Qed.

Lemma uploadFile_ok name s :
  finv (sf s) →
  let '(_, _, s') := uploadFile name s in
  finv (sf s') ∧ uncounted (sf s') = uncounted (sf s) ∧ f_spooled (sf s') ≤ f_spooled (sf s) ∧
  f_written (sf s') = f_written (sf s) ∧ si s' = si s.
Proof.
  intros Hi. unfold uploadFile. destruct (spoolKey name) as [k|] eqn:Ek.
  2:{ destruct (ioWarn_frame "key" name s) as [-> ->]. by split_and!. }
  destruct (f_dir (sf s) !! name) as [[data|]|] eqn:Ed.
  2,3: destruct (ioWarn_frame "open" name (on_env bump s)) as [-> ->]; by split_and!.
  destruct (spoolKey_ready _ _ Ek) as [base ->].
  call "open" (ready_name base) s. destruct ok; cbn [negb]; [|rewrite Hf, Hn; by split_and!].
  call "stat" (ready_name base) s0. destruct ok; cbn [negb]; [|rewrite Hf0, Hf, Hn0, Hn; by split_and!].
  assert (sf s1 = sf s) as E1 by congruence. assert (si s1 = si s) as N1 by congruence.
  unfold sys. set (r := e_script _ _). set (s2 := match r with Fine => _ | Fails _ => _ end).
  assert (finv (put_object k data (sf s))) as Hput by by eapply finv_put.
  assert (si s2 = si s) as N2 by (unfold s2; by destruct r as [|[]]).
  assert (sf s2 = put_object k data (sf s) ∨ sf s2 = sf s ∧ r ≠ Fine) as E2.
  { unfold s2. destruct r as [|[]]; cbn [upd on_env sf]; rewrite E1; eauto. }
  assert (finv (sf s2) ∧ uncounted (sf s2) = uncounted (sf s) ∧ f_spooled (sf s2) = f_spooled (sf s) ∧
          f_written (sf s2) = f_written (sf s)) as (I2 & U2 & P2 & W2).
  { destruct E2 as [-> | [-> _]]; by split_and!. }
  clearbody s2. call "close" (ready_name base) s2. destruct r.
  2:{ assert (sf s3 = sf s2) as E3 by done. destruct (upCtx_ended s3); cbn [log on_env sf si]; rewrite E3;
      split_and!; congruence || lia || done. }
  call "remove" (ready_name base) s3. assert (sf s4 = sf s2) as E4 by congruence.
  destruct ok0; [|rewrite E4; split_and!; congruence || lia || done].
  cbn [upd sf si]. rewrite E4. destruct E2 as [E2|[_ ?]]; [|done]. rewrite E2. destruct Hput as [Hp Ha].
  assert (f_dir (put_object k data (sf s)) !! ready_name base = Some (Regular data)) as Ed' by done.
  assert (finv0 (set_dir (delete (ready_name base)) (put_object k data (sf s)))) as Hdel.
  { eapply finv0_delete_ready; [done|by eapply taken_ready|done|]. cbn. by rewrite lookup_insert, decide_True. }
  split_and!; try done; [|..|congruence].
  - split; [by destruct Hdel|]. intros w Hw. destruct (Ha w Hw) as [A1 A2 A3 A4 A5]. constructor; try done; cbn.
    + rewrite lookup_delete_ne; [done|]. by apply not_eq_sym, part_not_ready.
    + rewrite lookup_delete_ne; [done|]. intros E. rewrite <- E in A3. congruence.
  - unfold uncounted. cbn. rewrite (sum_of_delete _ _ _ _ Ed). simpl. lia.
  - cbn. lia.
Qed.

(** ** Recovery *)
Lemma complete_lines_le data : (complete_lines data ≤ length data)%nat.
Proof. induction data as [|b d IH]; [done|]. simpl. destruct (complete_lines d); [case_match|]; lia. Qed.

Lemma complete_lines_ge b rest : (length b + 1 ≤ complete_lines (b ++ x0a :: rest))%nat.
Proof.
  induction b as [|c b IH]; simpl; [destruct (complete_lines rest); [destruct (byte_eq_decision x0a x0a)|]; done || lia|].
  destruct (complete_lines (b ++ x0a :: rest)); lia.
Qed.

(** What is kept ends with the last newline. *)
Lemma complete_lines_exact body tail :
  x0a ∉ tail → complete_lines (body ++ tail) = complete_lines body.
Proof.
  intros Ht. assert (complete_lines tail = 0%nat) as H0.
  { induction tail as [|c t IH]; [done|]. simpl. rewrite IH by set_solver.
    destruct (byte_eq_decision c x0a) as [->|]; [set_solver|done]. }
  induction body as [|c b IH]; simpl; [by rewrite H0|]. by rewrite IH.
Qed.

Lemma complete_lines_all b : complete_lines (b ++ [x0a]) = (length b + 1)%nat.
Proof. pose proof (complete_lines_ge b []). pose proof (complete_lines_le (b ++ [x0a])). rewrite length_app in *. simpl in *. lia. Qed.

Lemma keep_lines f base data :
  finv0 f → f_dir f !! part_name base = Some (Regular data) →
  lines f base `prefix_of` take (complete_lines data) data.
Proof.
  intros Hi Hd. destruct (fi_prefix _ Hi base data) as [rest Hr]; [by left|].
  destruct (decide (lines f base = [])) as [E|E]; [rewrite E; apply prefix_nil|].
  destruct (lines_end _ _ Hi E) as [b Hb]. rewrite Hr, Hb, <- app_assoc. simpl.
  pose proof (complete_lines_ge b rest) as Hge. set (n := complete_lines _) in *.
  exists (take (n - length (b ++ [x0a])) rest). change (b ++ x0a :: rest) with (b ++ [x0a] ++ rest).
  rewrite app_assoc, take_app, (take_ge (b ++ [x0a])) by (rewrite length_app; simpl; lia). done.
Qed.

(** Recovery runs before there is an active file. *)
Definition recovering (f : files) : Prop := finv0 f ∧ f_active f = None.

Lemma recovering_finv f : recovering f → finv f.
Proof. intros [Hi Ea]. split; [done|]. by rewrite Ea. Qed.

Record recovered s s' : Prop := {
  r_inv : recovering (sf s');
  r_written : f_written (sf s') = f_written (sf s);
  r_intake : si s' = si s
}.

Lemma recovered_frame s s' : recovering (sf s) → sf s' = sf s → si s' = si s → recovered s s'.
Proof. intros H E1 E2. by constructor; rewrite ?E1. Qed.

Lemma recoverPart_ok base s : recovering (sf s) → recovered s (recoverPart (part_name base) s).
Proof.
  intros Hr. pose proof Hr as [Hi Ea]. unfold recoverPart.
  destruct (f_dir (sf s) !! part_name base) as [[data|]|] eqn:Ed; try by apply recovered_frame.
  pose proof (keep_lines _ _ _ Hi Ed) as Hk. pose proof (taken_part _ _ _ Hi Ed) as Ht.
  call "read" (part_name base) s. destruct ok; cbn [negb]; [|by apply recovered_frame].
  set (s1 := if _ : bool then log _ s0 else s0).
  assert (sf s1 = sf s ∧ si s1 = si s) as [E1 N1] by (unfold s1; destruct (_ <? _)%nat; cbn; split; congruence).
  clearbody s1. destruct (Nat.eqb_spec (complete_lines data) 0) as [E0|E0].
  { call "remove" (part_name base) s1. destruct ok; [|by apply recovered_frame; congruence].
    constructor; cbn [upd sf si]; rewrite ?Hf0, ?E1; [|done|congruence].
    split; [|done]. eapply finv0_delete_part; [done..|]. rewrite E0 in Hk. by apply prefix_nil_inv. }
  set (r := if _ : bool then _ else (true, s1)).
  assert (∃ ok s2, r = (ok, s2) ∧ recovered s s2 ∧ (ok = true → ∃ d, f_dir (sf s2) !! part_name base = Some (Regular d)))
    as (ok & s2 & -> & R2 & Hd2).
  { unfold r. destruct (_ <? _)%nat.
    2:{ exists true, s1. split_and!; [done|by apply recovered_frame|]. rewrite E1. eauto. }
    call "truncate" (part_name base) s1. destruct ok.
    2:{ exists false, s2. split_and!; [done|apply recovered_frame; congruence || done|done]. }
    exists true. eexists. split; [reflexivity|]. split.
    - constructor; cbn [upd sf si]; rewrite ?Hf0, ?E1; [|done|congruence]. split; [|done]. by apply finv0_set_part.
    - intros _. eexists. cbn [upd sf set_dir f_dir]. by rewrite lookup_insert, decide_True. }
  destruct ok; cbn [negb]; [|done]. destruct (Hd2 eq_refl) as [d Hd].
  destruct R2 as [[I2 A2] W2 N2]. call "rename" (part_name base) s2.
  destruct ok; [|constructor; rewrite ?Hf0; congruence || done].
  pose proof (finv0_rename _ _ _ I2 Hd) as Hren.
  constructor; cbn [upd sf si]; rewrite ?Hf0, ?trim_part; [|..|congruence].
  - split; [by destruct Hren|]. rewrite (rename_dir _ _ _ Hd). done.
  - rewrite (rename_dir _ _ _ Hd). done.
Qed.

Lemma recover_entry_ok name s : recovering (sf s) → recovered s (recover_entry name s).
Proof.
  intros Hr. unfold recover_entry. destruct (spoolName name) as [[ts []]|] eqn:En; [..|by apply recovered_frame].
  - destruct (f_dir (sf s) !! name) as [[]|]; try by apply recovered_frame.
    destruct (spoolName_shape _ _ _ En) as [base ->]. by apply recoverPart_ok.
  - destruct (f_dir (sf s) !! name) as [[data|]|]; try by apply recovered_frame.
    call "stat" name s. destruct ok; [|by apply recovered_frame].
    destruct Hr as [Hi Ea]. constructor; cbn [upd sf si]; rewrite ?Hf; try done. split; [by destruct Hi|done].
Qed.

Lemma recoverSpool_ok s s' : recovering (sf s) → recoverSpool s = Some s' → recovered s s'.
Proof.
  intros Hr. unfold recoverSpool, sys. destruct (e_script _ _); [|done]. intros [= <-].
  assert (recovered s (on_env bump s)) as H0 by by apply recovered_frame.
  set (names := ReadDir _). clearbody names. set (s0 := on_env bump s) in *. clearbody s0.
  revert s0 H0. induction names as [|n names IH]; intros s0 H0; [done|]. simpl. apply IH.
  destruct H0 as [I W N]. destruct (recover_entry_ok n s0 I) as [I' W' N']. constructor; [done|congruence..].
Qed.

(** A node id no file and no object carries. *)
Definition fresh_node (node : string) (f : files) : Prop := ∀ t, 0 ≤ t → unused f (base_of node t).

Lemma start_ok node e f s :
  finv0 f → fresh_node node f → NewConnLogSpool (Event := Event) node e f = Some s →
  finv (sf s) ∧ f_written (sf s) = f_written f ∧ si s = Intake [] false false 0.
Proof.
  intros [H1 H2 H3 H4 H5] Hn. unfold NewConnLogSpool. destruct (negb (nodeIDPattern node)); [done|].
  intros Hs%recoverSpool_ok; [destruct Hs as [Hi ? ?]; split_and!; [by apply recovering_finv|done..]|].
  split; [|done]. constructor; try done. intros t Ht _. by apply Hn.
Qed.

(** ** Runs

    The handlers that log, the writer, the uploader and the shutdown take turns;
    [live] is a turn of one process.  A process may die at any time, in the
    middle of a write too, and another start on what it left. *)
Record system := System {
  sp : spool;
  puts : Z;                  (* events handed over *)
  past_drops : Z;            (* drops counted by processes that are gone *)
  lost : Z                   (* events queued in processes that died *)
}.

Definition with_sp (g : spool → spool) (y : system) : system := System (g (sp y)) (puts y) (past_drops y) (lost y).

Inductive live : system → system → Prop :=
| live_put y ev : live y (System (PutConnLog ev (sp y)) (puts y + 1) (past_drops y) (lost y))
| live_write y : clock_ok (sp y) → live y (with_sp (write_next marshal maxFile maxBytes) y)
| live_tick y : live y (with_sp writer_tick y)
| live_rotate y : live y (with_sp rotate y)
| live_upload y name : live y (with_sp (λ s, (uploadFile name s).2) y)
| live_stop y : live y (with_sp stop_intake y)
| live_abandon y : live y (with_sp give_up_queue y).

(** What a write that was cut off leaves. *)
Definition torn (tail : bytes) (f : files) : files :=
  match f_active f with Some w => write_bytes (part_name (a_base w)) tail f | None => f end.

Inductive step : system → system → Prop :=
| step_live y y' : live y y' → step y y'
| step_crash y node e tail s :
    fresh_node node (sf (sp y)) → NewConnLogSpool node e (torn tail (sf (sp y))) = Some s →
    step y (System s (puts y) (past_drops y + i_drops (si (sp y))) (lost y + len (i_queue (si (sp y))))).

Record sys_inv (y : system) : Prop := {
  si_files : finv (sf (sp y));
  si_events : puts y = past_drops y + i_drops (si (sp y)) + len (i_queue (si (sp y))) +
                       len (f_written (sf (sp y))) + lost y
}.

Lemma kept_system y s' :
  sys_inv y → finv (sf s') → kept (sp y) s' →
  sys_inv (System s' (puts y) (past_drops y) (lost y)) ∧ uncounted (sf s') = uncounted (sf (sp y)) ∧
  f_spooled (sf s') ≤ Z.max (f_spooled (sf (sp y))) maxBytes.
Proof.
  intros [Hi He] H [K1 K2 K3 K4]. split; [|rewrite K2; split; [done|lia]].
  constructor; cbn [sp puts past_drops lost]; [done|]. by rewrite K3, K4.
Qed.

(** A turn of a process changes the counted and the stored bytes alike. *)
Lemma live_ok y y' :
  sys_inv y → live y y' →
  sys_inv y' ∧ uncounted (sf (sp y')) = uncounted (sf (sp y)) ∧
  f_spooled (sf (sp y')) ≤ Z.max (f_spooled (sf (sp y))) maxBytes.
Proof.
  intros Hy Hl. pose proof Hy as [Hi He]. destruct Hl as [y ev|y Hc|y|y|y name|y|y].
  - unfold PutConnLog. destruct (i_closed _); [|destruct (_ <? _)]; cbn;
      (split; [constructor; cbn; rewrite ?length_app; simpl; done || lia|lia]).
  - destruct (i_queue (si (sp y))) as [|ev rest] eqn:Eq.
    + assert (write_next marshal maxFile maxBytes (sp y) = sp y) as Es by (unfold write_next; by rewrite Eq).
      unfold with_sp. rewrite Es. split; [constructor; cbn; rewrite ?Eq; done|cbn; lia].
    + destruct (write_next_ok _ ev rest Hi Hc Eq) as (? & ? & ? & ? & Eq'). unfold with_sp. cbn.
      split; [constructor; cbn; [done|]|done]. rewrite Eq'. simpl in He. lia.
  - destruct (writer_tick_ok _ Hi) as [? ?]. by apply kept_system.
  - destruct (rotate_ok _ Hi) as (? & ? & _). by apply kept_system.
  - pose proof (uploadFile_ok name (sp y) Hi) as Hu. unfold with_sp. cbn.
    destruct (uploadFile name (sp y)) as [[? ?] s']. cbn. destruct Hu as (? & ? & ? & K3 & K4).
    split; [constructor; cbn; rewrite ?K3, ?K4; done|]. split; [done|lia].
  - unfold with_sp. cbn. split; [by constructor|lia].
  - unfold with_sp. cbn. split; [by constructor|lia].
Qed.

Lemma torn_ok tail f : finv f → finv0 (torn tail f) ∧ f_written (torn tail f) = f_written f.
Proof.
  intros Hi. unfold torn. destruct (f_active f) as [w|] eqn:Ew; [|split; [apply Hi|done]].
  destruct (write_failed f w tail Hi Ew) as (_ & _ & [] & _). split; [by constructor|done].
Qed.

Lemma fresh_torn node tail f : finv f → fresh_node node f → fresh_node node (torn tail f).
Proof.
  intros [Hi Ha] Hn t Ht. destruct (Hn t Ht) as (U1 & U2 & U3 & U4). unfold torn.
  destruct (f_active f) as [w|] eqn:Ew; [|done]. destruct (Ha w eq_refl) as [A1 _ _ _ _].
  rewrite (write_bytes_dir _ _ _ _ A1). split_and!; try done; cbn [set_dir f_dir].
  - rewrite lookup_insert_ne; [done|]. intros E%part_name_inj. rewrite E, U3 in A1. done.
  - rewrite lookup_insert_ne by names. done.
Qed.

Lemma step_ok y y' : sys_inv y → step y y' → sys_inv y'.
Proof.
  intros Hi Hst. destruct Hst as [y0 y1 Hl|y0 node e tail s Hn Hs]; [by apply (live_ok _ _ Hi Hl)|].
  destruct Hi as [Hi He].
  destruct (torn_ok tail _ Hi) as [Ht Hw]. destruct (start_ok _ _ _ _ Ht (fresh_torn _ _ _ Hi Hn) Hs) as (? & W & N).
  constructor; cbn; [done|]. rewrite N, W, Hw. cbn. lia.
Qed.

(** A first process on a directory and a bucket that were there before. *)
Definition found (node : string) (dir : gmap string dirent) (bucket : gmap string bytes) : files :=
  Files node dir bucket 0 None None [].

Definition first (node : string) (e : env) (dir : gmap string dirent) (bucket : gmap string bytes) (y : system) : Prop :=
  fresh_node node (found node dir bucket) ∧
  ∃ s, NewConnLogSpool node e (found node dir bucket) = Some s ∧ y = System s 0 0 0.

Lemma first_ok node e dir bucket y : first node e dir bucket y → sys_inv y.
Proof.
  intros (Hn & s & Hs & ->). destruct (start_ok node e (found node dir bucket) s) as (? & W & N); [|done..|].
  - constructor; try done; [intros; apply prefix_nil|intros t Ht _; by apply Hn|intros ? ? Hin; by apply not_elem_of_nil in Hin].
  - constructor; cbn; [done|]. by rewrite W, N.
Qed.

Lemma runs_ok node e dir bucket y0 y : first node e dir bucket y0 → run step y0 y → sys_inv y.
Proof. intros Hf Hr. by apply (run_invariant step sys_inv step_ok _ _ Hr), (first_ok _ _ _ _ _ Hf). Qed.

Lemma written_nonempty f base l : finv0 f → (base, l) ∈ f_written f → lines f base ≠ [].
Proof.
  intros Hi Hin E. destruct (fi_nl _ Hi _ _ Hin) as [b ->].
  apply list_elem_of_split in Hin as (w1 & w2 & Ew). unfold lines in E. rewrite Ew in E.
  rewrite filter_app, filter_cons, decide_True, fmap_app, concat_app in E by done.
  apply (f_equal length) in E. simpl in E. rewrite !length_app in E. simpl in E. lia.
Qed.

Lemma line_in_lines f base l :
  finv0 f → (base, l) ∈ f_written f →
  ∃ pre post, lines f base = pre ++ l ++ post ∧ (pre = [] ∨ ∃ b, pre = b ++ [x0a]).
Proof.
  intros Hi Hin. pose proof (fi_nl _ Hi) as Hnl. unfold lines.
  apply list_elem_of_split in Hin as (w1 & w2 & E). rewrite E in Hnl |- *.
  rewrite filter_app, filter_cons, decide_True, fmap_app, concat_app by done. simpl.
  exists (concat (filter (λ p, p.1 = base) w1).*2). eexists. split; [done|].
  apply concat_end. intros l' ([base' l''] & -> & [_ Hin]%list_elem_of_filter)%list_elem_of_fmap.
  apply (Hnl base'). apply elem_of_app. by left.
Qed.

(** C33. A written log line is never lost. Take any directory and bucket, any processes
    that follow one another on them (each with a node id of its own), any failures of
    system calls and uploads, and any interleaving of the queue, the writer, the
    uploader and crashes in the middle of a write: the file a line was appended to is
    still there, as an active file, a finished file or an object, and every copy of it
    starts with all the lines written to it, each whole and at the start of a line. *)
Theorem written_lines_survive node e dir bucket y0 y base l :
  first node e dir bucket y0 → run step y0 y → (base, l) ∈ f_written (sf (sp y)) →
  (∃ data, holds (sf (sp y)) base data) ∧
  ∀ data, holds (sf (sp y)) base data →
    lines (sf (sp y)) base `prefix_of` data ∧
    ∃ pre post, data = pre ++ l ++ post ∧ (pre = [] ∨ ∃ b, pre = b ++ [x0a]).
Proof.
  intros Hf Hr Hin. destruct (runs_ok _ _ _ _ _ _ Hf Hr) as [[Hi _] _].
  destruct (line_in_lines _ _ _ Hi Hin) as (pre & post & El & Hpre). split.
  - by apply (fi_live _ Hi), (written_nonempty _ _ l).
  - intros data Hd. pose proof (fi_prefix _ Hi _ _ Hd) as Hp. split; [done|]. destruct Hp as [rest ->].
    exists pre, (post ++ rest). split; [|done]. by rewrite El, !app_assoc.
Qed.

(** At every moment the events handed to the spool are those written, those still
    queued, those counted as dropped and those queued in a process that died. *)
Lemma every_event_accounted node e dir bucket y0 y :
  first node e dir bucket y0 → run step y0 y →
  puts y = past_drops y + i_drops (si (sp y)) + len (i_queue (si (sp y))) + len (f_written (sf (sp y))) + lost y.
Proof. intros Hf Hr. apply (runs_ok _ _ _ _ _ _ Hf Hr). Qed.

(** C34. The spool's byte counter is exact. Whatever the process does after its start,
    and whatever fails, the difference between the bytes in the directory and the
    counter stays what it was, and the counter never exceeds the larger of its value at
    the start and [maxBytes]. *)
Theorem spooled_bytes_exact node e dir bucket y0 y :
  first node e dir bucket y0 → run live y0 y →
  sum_of size_of (f_dir (sf (sp y))) - f_spooled (sf (sp y)) =
    sum_of size_of (f_dir (sf (sp y0))) - f_spooled (sf (sp y0)) ∧
  f_spooled (sf (sp y)) ≤ Z.max (f_spooled (sf (sp y0))) maxBytes.
Proof.
  intros Hf Hr. pose proof (first_ok _ _ _ _ _ Hf) as Hi. clear Hf.
  induction Hr as [|y1 y2 y3 Hl Hr IH]; [split; [done|lia]|].
  destruct (live_ok _ _ Hi Hl) as (Hi2 & U & P). destruct (IH Hi2) as [U' P'].
  unfold uncounted in U. split; [congruence|lia].
Qed.

(** ** Recovery, exactly *)
Definition fine s : Prop := ∀ k, e_script (se s) k = Fine.

Lemma try_fine op path s : fine s → try op path s = (true, on_env bump s).
Proof. intros Hf. unfold try, sys. by rewrite Hf. Qed.

(** Recovering a file cut off in the middle of a line keeps exactly its complete lines
    as a finished file, or removes it when there is none. *)
Lemma recoverPart_keeps_complete_lines base body tail s :
  fine s → f_dir (sf s) !! part_name base = Some (Regular (body ++ tail)) →
  x0a ∉ tail → (body = [] ∨ ∃ b, body = b ++ [x0a]) →
  let s' := recoverPart (part_name base) s in
  f_dir (sf s') !! part_name base = None ∧
  f_dir (sf s') !! ready_name base =
    (if decide (body = []) then f_dir (sf s) !! ready_name base else Some (Regular body)) ∧
  (∀ n, n ≠ part_name base → n ≠ ready_name base → f_dir (sf s') !! n = f_dir (sf s) !! n) ∧
  f_spooled (sf s') = f_spooled (sf s) + len body.
Proof.
  intros Hf Hd Ht Hb. unfold recoverPart. rewrite Hd, try_fine by done. cbn [negb].
  assert (complete_lines (body ++ tail) = length body) as Hk.
  { rewrite complete_lines_exact by done. destruct Hb as [->|[b ->]]; [done|]. rewrite complete_lines_all, length_app. done. }
  rewrite Hk. set (s1 := if _ : bool then log _ _ else _).
  assert (sf s1 = sf s ∧ fine s1) as [E1 F1] by (unfold s1; by destruct (_ <? _)%nat).
  clearbody s1. destruct (Nat.eqb_spec (length body) 0) as [E0|E0].
  { apply length_zero_iff_nil in E0 as ->. rewrite try_fine by done. cbn. rewrite E1.
    rewrite lookup_delete, decide_True, lookup_delete_ne by names. split_and!; try done; [|lia].
    intros n H1 H2. by rewrite lookup_delete_ne. }
  rewrite decide_False by (intros ->; done).
  set (r := if _ : bool then _ else (true, s1)).
  assert (∃ s2, r = (true, s2) ∧ fine s2 ∧ f_spooled (sf s2) = f_spooled (sf s) ∧
            f_dir (sf s2) = <[part_name base := Regular body]> (f_dir (sf s))) as (s2 & -> & F2 & P2 & D2).
  { unfold r. destruct (Nat.ltb_spec (length body) (length (body ++ tail))) as [Hlt|Hge].
    - rewrite try_fine by done. eexists. split; [reflexivity|]. cbn. rewrite E1, take_app_length. done.
    - exists s1. rewrite E1. split_and!; try done. rewrite length_app in Hge.
      assert (tail = []) as -> by (apply length_zero_iff_nil; lia). rewrite app_nil_r in Hd. by rewrite insert_id. }
  cbn [negb]. rewrite try_fine by done. cbn [upd on_env sf]. rewrite trim_part.
  rewrite (rename_dir _ _ (Regular body)) by (rewrite D2, lookup_insert, decide_True; done). cbn. rewrite D2, P2.
  rewrite lookup_insert_ne, lookup_delete, decide_True, lookup_insert, decide_True by names.
  split_and!; try done. intros n H1 H2. by rewrite lookup_insert_ne, lookup_delete_ne, lookup_insert_ne.
Qed.
(** ** A shutdown without failures uploads everything *)
Definition same_world s s' : Prop :=
  e_script (se s') = e_script (se s) ∧ e_clock (se s') = e_clock (se s) ∧ e_cancel (se s') = e_cancel (se s).

Lemma same_refl s : same_world s s.
Proof. done. Qed.
Lemma same_trans s1 s2 s3 : same_world s1 s2 → same_world s2 s3 → same_world s1 s3.
Proof. unfold same_world. intuition congruence. Qed.

Lemma ioWarn_world op path s s0 : same_world s0 s → same_world s0 (ioWarn op path s).
Proof. unfold ioWarn, now. cbn. by destruct (match e_ioLast _ with Some _ => _ | None => _ end). Qed.

Lemma try_world op path s s0 : same_world s0 s → same_world s0 (try op path s).2.
Proof. intros H. unfold try, sys. destruct (e_script _ _); [done|]. by apply ioWarn_world. Qed.

Lemma capWarn_world t s s0 : same_world s0 s → same_world s0 (capWarn t s).
Proof. unfold capWarn. by case_decide. Qed.

Ltac world_try op path s :=
  let H := fresh "W" in let b := fresh "b" in let s' := fresh "s" in
  pose proof (try_world op path s) as H; destruct (try op path s) as [b s']; cbn [snd] in H.

Lemma rotate_world s s0 : same_world s0 s → same_world s0 (rotate s).
Proof.
  intros H. unfold rotate. destruct (f_active (sf s)) as [w|]; [|done]. destruct (a_size w =? 0).
  - world_try "close" (part_name (a_base w)) s. world_try "remove" (part_name (a_base w)) s1.
    specialize (W0 _ (W _ H)). by destruct b0.
  - world_try "fsync" (part_name (a_base w)) s. world_try "close" (part_name (a_base w)) s1.
    world_try "rename" (part_name (a_base w)) s2. specialize (W1 _ (W0 _ (W _ H))). by destruct b1.
Qed.

Lemma open_world t s s0 : same_world s0 s → same_world s0 (open t s).2.
Proof.
  unfold open. generalize (match f_lastStart (sf s) with Some l => if l <? t then t else l + 1 | None => t end).
  generalize spoolMaxNameTries. intros n start H. revert start s H.
  induction n as [|n IH]; intros start s H; [done|]. cbn [open_loop sys on_env sf]. 
  destruct (e_script _ _); [|done]. destruct (f_dir (sf s) !! ready_name _); [by apply IH|].
  destruct (e_script _ _); [|done]. destruct (f_dir (sf s) !! part_name _); [by apply IH|done].
Qed.

Lemma write_line_world l s s0 : same_world s0 s → same_world s0 (write_line maxFile l s).
Proof.
  intros H. unfold write_line. destruct (f_active (sf s)) as [w|]; [|done]. unfold sys.
  destruct (e_script _ _) as [|k].
  - destruct (maxFile <=? _); [|done]. by apply rotate_world.
  - set (s1 := ioWarn _ _ _). assert (same_world s0 s1) as H1 by by apply ioWarn_world. clearbody s1.
    world_try "truncate" (part_name (a_base w)) s1. specialize (W _ H1). destruct b; [done|]. by apply rotate_world.
Qed.

Lemma append_world ev s s0 : same_world s0 s → same_world s0 (append marshal maxFile maxBytes ev s).
Proof.
  intros H. unfold append. destruct (marshal ev) as [b|]; [|by apply ioWarn_world].
  unfold now. set (s2 := match f_active _ with Some _ => _ | None => _ end).
  assert (same_world s0 s2) as H2.
  { unfold s2. destruct (f_active _); [|done]. destruct (inWindow _ _); [done|]. by apply rotate_world. }
  clearbody s2. destruct (maxBytes <? _); [by apply capWarn_world|].
  destruct (f_active (sf s2)); [by apply write_line_world|].
  pose proof (open_world (e_clock (se s) (e_calls (se s))) s2 s0 H2) as Ho. destruct (open _ s2) as [[] s3]; cbn in Ho.
  - by apply write_line_world.
  - by apply ioWarn_world.
Qed.

Lemma write_next_world s s0 : same_world s0 s → same_world s0 (write_next marshal maxFile maxBytes s).
Proof.
  intros H. unfold write_next. destruct (i_queue (si s)); [done|]. cbn. destruct (i_abandon (si s)); [done|].
  by apply append_world.
Qed.

(** The rest of the queue, when the time does not run out. *)
Lemma writer_rest_ok n s :
  finv (sf s) → clock_ok s → length (i_queue (si s)) = n →
  let s' := writer_rest marshal maxFile maxBytes n None s in
  finv (sf s') ∧ same_world s s' ∧ i_queue (si s') = [] ∧
  i_drops (si s') + len (f_written (sf s')) = i_drops (si s) + len (f_written (sf s)) + Z.of_nat n.
Proof.
  revert s. induction n as [|n IH]; intros s Hi Hc Hq; cbn [writer_rest].
  { apply nil_length_inv in Hq. split_and!; done || lia. }
  destruct (i_queue (si s)) as [|ev rest] eqn:Eq; [done|]. injection Hq as Hq.
  destruct (write_next_ok _ ev rest Hi Hc Eq) as (I1 & _ & _ & E1 & Q1).
  pose proof (write_next_world s s (same_refl s)) as W1. set (s1 := write_next _ _ _ s) in *.
  destruct (IH s1 I1) as (? & ? & ? & E2).
  - intros k. destruct W1 as (_ & -> & _). apply Hc.
  - by rewrite Q1.
  - split_and!; try done; [by eapply same_trans|lia].
Qed.

Lemma uploadFile_fine name data k s :
  fine s → spoolKey name = Some k → f_dir (sf s) !! name = Some (Regular data) →
  ∃ s', uploadFile name s = (true, false, s') ∧ same_world s s' ∧ si s' = si s ∧
    f_dir (sf s') = delete name (f_dir (sf s)) ∧ f_bucket (sf s') = <[k := data]> (f_bucket (sf s)) ∧
    f_active (sf s') = f_active (sf s) ∧ f_written (sf s') = f_written (sf s).
Proof.
  intros Hf Hk Hd. unfold uploadFile. rewrite Hk, Hd.
  rewrite try_fine by done. cbn [negb]. rewrite try_fine by done. cbn [negb sys].
  assert (∀ s', same_world s s' → fine s') as Hall by (intros s' (E & _) j; rewrite E; apply Hf).
  rewrite (Hall (on_env bump (on_env bump s))) by done. rewrite try_fine by by apply Hall.
  rewrite try_fine by by apply Hall. eexists. by split_and!.
Qed.

Lemma pass_loop_fine names s :
  fine s → e_cancel (se s) = None → NoDup names →
  (∀ n, n ∈ names → ∃ k data, spoolKey n = Some k ∧ f_dir (sf s) !! n = Some (Regular data)) →
  ∃ s', pass_loop names true s = (true, s') ∧ same_world s s' ∧ si s' = si s ∧
    f_active (sf s') = f_active (sf s) ∧ f_written (sf s') = f_written (sf s) ∧
    (∀ n, f_dir (sf s') !! n = if decide (n ∈ names) then None else f_dir (sf s) !! n).
Proof.
  revert s. induction names as [|name names IH]; intros s Hf Hc Hnd Hr.
  { exists s. split_and!; try done. }
  inversion Hnd as [|? ? Hni Hnd']; subst. destruct (Hr name) as (k & data & Hk & Hd); [left|].
  destruct (uploadFile_fine name data k s Hf Hk Hd) as (s1 & E1 & W1 & N1 & D1 & B1 & A1 & T1).
  cbn [pass_loop]. unfold upCtx_ended. rewrite Hc, E1. cbn [andb].
  destruct (IH s1) as (s2 & E2 & W2 & N2 & A2 & T2 & D2); [|by destruct W1 as (_ & _ & ->)|done| |].
  - intros j. destruct W1 as (-> & _). apply Hf.
  - intros n Hn. destruct (Hr n) as (k' & data' & ? & ?); [by right|]. exists k', data'. split; [done|].
    rewrite D1, lookup_delete_ne; [done|]. by intros ->.
  - exists s2. rewrite E2. split_and!; try congruence; [by eapply same_trans|].
    intros n. rewrite D2, D1. destruct (decide (n = name)) as [->|Hne].
    + rewrite (decide_True (P := name ∈ name :: names)) by left.
      case_decide; [done|]. by rewrite lookup_delete, decide_True.
    + rewrite lookup_delete_ne by done. do 2 case_decide; set_solver.
Qed.
Lemma elem_of_ReadDir f n : n ∈ ReadDir f ↔ is_Some (f_dir f !! n).
Proof.
  unfold ReadDir. rewrite merge_sort_Permutation, list_elem_of_fmap. split.
  - intros ([n' e] & -> & Hin%elem_of_map_to_list). eauto.
  - intros [e He]. exists (n, e). split; [done|]. by apply elem_of_map_to_list.
Qed.

Lemma NoDup_ReadDir f : NoDup (ReadDir f).
Proof. unfold ReadDir. rewrite merge_sort_Permutation. apply NoDup_fst_map_to_list. Qed.

Lemma elem_of_ready f n : n ∈ List.filter (is_ready f) (ReadDir f) ↔ is_ready f n = true.
Proof.
  rewrite list_elem_of_In, filter_In, <- list_elem_of_In, elem_of_ReadDir. split; [by intros []|].
  intros Hr. split; [|done]. unfold is_ready in Hr. destruct (spoolName n) as [[? []]|]; try done.
  by destruct (f_dir f !! n).
Qed.

Lemma pass_fine s :
  fine s → e_cancel (se s) = None → (∀ n, is_ready (sf s) n = true → is_Some (spoolKey n)) →
  ∃ s', pass s = (true, s') ∧ same_world s s' ∧ si s' = si s ∧
    f_active (sf s') = f_active (sf s) ∧ f_written (sf s') = f_written (sf s) ∧
    (∀ n, is_ready (sf s') n = false).
Proof.
  intros Hf Hc Hk. unfold pass, readyFiles, sys. rewrite Hf.
  set (names := List.filter _ _).
  destruct (pass_loop_fine names (on_env bump s)) as (s' & E & W & N & A & T & D); try done.
  - apply NoDup_ListNoDup, List.NoDup_filter, NoDup_ListNoDup, NoDup_ReadDir.
  - intros n Hn%elem_of_ready. destruct (Hk n Hn) as [k Hk']. exists k. unfold is_ready in Hn. cbn in *.
    destruct (spoolName n) as [[? []]|]; try done. destruct (f_dir (sf s) !! n) as [[data|]|]; try done. by exists data.
  - exists s'. split_and!; try done. intros n. destruct (is_ready (sf s') n) eqn:Er; [|done].
    unfold is_ready in Er. rewrite D in Er. destruct (decide (n ∈ names)) as [|Hni].
    + by destruct (spoolName n) as [[? []]|].
    + exfalso. apply Hni, elem_of_ready. exact Er.
Qed.

Lemma pass_loop_ok names clean s : finv (sf s) → finv (sf (pass_loop names clean s).2).
Proof.
  revert clean s. induction names as [|n names IH]; intros clean s Hi; [done|]. cbn [pass_loop].
  destruct (upCtx_ended s); [done|]. pose proof (uploadFile_ok n s Hi) as Hu.
  destruct (uploadFile n s) as [[up failed] s']. destruct Hu as [Hi' _]. destruct failed; [done|]. by apply IH.
Qed.

Lemma pass_ok s : finv (sf s) → finv (sf (pass s).2).
Proof.
  intros Hi. unfold pass, readyFiles, sys. destruct (e_script _ _).
  - by apply pass_loop_ok.
  - cbn [snd]. by rewrite (proj1 (ioWarn_frame _ _ _)).
Qed.

(** C35. From any reachable state, when system calls succeed, the upload context is not
    cancelled and every finished file has a name with an object key, [Drain] returns
    after one pass: the queue is empty, no finished file is left, every event that was
    queued has been written or counted as dropped, and of every file that lines were
    written to and whose name has a key, all the lines are in its object or in the
    unfinished file an earlier failed rename left. *)
Theorem drain_uploads_everything node e dir bucket y0 y n :
  first node e dir bucket y0 → run step y0 y →
  let s := sp y in
  fine s → clock_ok s → e_cancel (se s) = None →
  (∀ name, is_ready (sf (writer_end marshal maxFile maxBytes None (stop_intake s))) name = true →
     is_Some (spoolKey name)) →
  ∃ s', Drain marshal maxFile maxBytes (S n) None s = Some s' ∧
    i_queue (si s') = [] ∧ (∀ name, is_ready (sf s') name = false) ∧
    i_drops (si s') + len (f_written (sf s')) =
      i_drops (si s) + len (f_written (sf s)) + len (i_queue (si s)) ∧
    ∀ base l k, (base, l) ∈ f_written (sf s') → spoolKey (ready_name base) = Some k →
      ∃ data, lines (sf s') base `prefix_of` data ∧
        (f_bucket (sf s') !! k = Some data ∨ f_dir (sf s') !! part_name base = Some (Regular data)).
Proof.
  intros H0 Hr s Hf Hc Hcan Hk. destruct (runs_ok _ _ _ _ _ _ H0 Hr) as [Hi _]. fold s in Hi.
  destruct (writer_rest_ok (length (i_queue (si s))) (stop_intake s) Hi Hc eq_refl) as (I1 & W1 & Q1 & E1).
  remember (writer_end marshal maxFile maxBytes None (stop_intake s)) as s1 eqn:Es1.
  assert (finv (sf s1) ∧ same_world s s1 ∧ i_queue (si s1) = [] ∧
          i_drops (si s1) + len (f_written (sf s1)) = i_drops (si s) + len (f_written (sf s)) + len (i_queue (si s)))
    as (I2 & W2 & Q2 & E2).
  { rewrite Es1. unfold writer_end. cbn [abandoned Nat.ltb Nat.leb]. cbn [stop_intake si i_queue] in *.
    destruct (rotate_ok _ I1) as (? & [K1 K2 K3 K4] & _). rewrite K4, K3. split_and!; try done. by apply rotate_world. }
  destruct (pass_fine s1) as (s2 & E & W3 & N3 & A3 & T3 & R3); [..|done|].
  { intros j. destruct W2 as (-> & _). apply Hf. }
  { by destruct W2 as (_ & _ & ->). }
  pose proof (pass_ok s1 I2) as I3. rewrite E in I3. cbn [snd] in I3.
  unfold Drain. rewrite <- Es1. cbn [upload_rest]. rewrite E. cbn [orb mbind option_bind].
  unfold readyFiles, sys. assert (fine s2) as F2.
  { intros j. destruct W3 as (-> & _), W2 as (-> & _). apply Hf. }
  rewrite F2. set (s3 := match List.filter _ _ with [] => _ | _ :: _ => _ end).
  assert (sf s3 = sf s2 ∧ si s3 = si s2) as [S3 N4] by (unfold s3; by destruct (List.filter _ _)).
  destruct (flush_frame true s3) as [F1 F3]. eexists. split; [reflexivity|]. rewrite F1, F3, S3, N4, N3, T3.
  split_and!; try done. intros base l k Hin Hkey. destruct I3 as [I3 _].
  destruct (fi_live _ I3 base) as [data [Hd|[Hd|(k' & Hk' & Hd)]]].
  { apply (written_nonempty _ _ l); [done|]. by rewrite T3. }
  - exists data. split; [apply (fi_prefix _ I3); by left|by right].
  - exfalso. specialize (R3 (ready_name base)). unfold is_ready in R3. rewrite Hd in R3. unfold spoolKey in Hkey.
    by destruct (spoolName (ready_name base)) as [[? []]|].
  - rewrite Hk' in Hkey. simplify_eq. exists data. split; [|by left]. apply (fi_prefix _ I3). right; right. by exists k.
Qed.
End ops.

(** ** Witnesses: one event through an empty spool *)
Definition sample_env : env := Env (λ _, Fine) (λ k, Z.of_nat k * second) 0 None None 0 None [].
Definition sample_marshal (ev : bytes) : option bytes := Some ev.
Definition sample_event : bytes := [x7b; x7d].
Definition sample_line : bytes := [x7b; x7d; x0a].

Definition sample_first : system (Event := bytes) :=
  System (Spool.Spool (Files "ab" ∅ ∅ 0 None None []) (Env (λ _, Fine) (λ k, Z.of_nat k * second) 1 None None 0 None [])
            (Intake [] false false 0)) 0 0 0.
Definition sample_put : system := System (PutConnLog sample_event (sp sample_first)) 1 0 0.
Definition sample_written : system := with_sp (write_next sample_marshal spoolMaxFile spoolMaxBytes) sample_put.
Definition sample_base : string := base_of "ab" (1 * second).

Lemma sample_starts : first (Event := bytes) "ab" sample_env ∅ ∅ sample_first.
Proof. split; [|by eexists]. intros t _. by split_and!. Qed.

Lemma sample_clock s : e_clock (se s) = (λ k, Z.of_nat k * second) → clock_ok (Event := bytes) s.
Proof. intros E k. rewrite E. unfold second. lia. Qed.

Lemma sample_run_live : run (live sample_marshal spoolMaxFile spoolMaxBytes) sample_first sample_written.
Proof.
  eapply run_step; [apply (live_put _ _ _ sample_first sample_event)|].
  apply run_one, (live_write _ _ _ sample_put). by apply sample_clock.
Qed.

Lemma sample_run_put : run (step sample_marshal spoolMaxFile spoolMaxBytes) sample_first sample_put.
Proof. apply run_one, step_live, (live_put _ _ _ sample_first sample_event). Qed.

Lemma sample_spool_run : run (step sample_marshal spoolMaxFile spoolMaxBytes) sample_first sample_written.
Proof.
  eapply run_trans; [apply sample_run_put|]. apply run_one, step_live, (live_write _ _ _ sample_put).
  by apply sample_clock.
Qed.

Lemma written_lines_survive_witness :
  (∃ data, holds (sf (sp sample_written)) sample_base data) ∧
  ∀ data, holds (sf (sp sample_written)) sample_base data →
    lines (sf (sp sample_written)) sample_base `prefix_of` data ∧
    ∃ pre post, data = pre ++ sample_line ++ post ∧ (pre = [] ∨ ∃ b, pre = b ++ [x0a]).
Proof.
  apply (written_lines_survive sample_marshal spoolMaxFile spoolMaxBytes _ _ _ _ _ _ _ _ sample_starts sample_spool_run).
  vm_compute. left.
Defined.

Lemma every_event_accounted_witness :
  1 = past_drops sample_written + i_drops (si (sp sample_written)) + len (i_queue (si (sp sample_written))) +
      len (f_written (sf (sp sample_written))) + lost sample_written.
Proof. apply (every_event_accounted sample_marshal spoolMaxFile spoolMaxBytes _ _ _ _ _ _ sample_starts sample_spool_run). Defined.

Lemma spooled_bytes_exact_witness :
  sum_of size_of (f_dir (sf (sp sample_written))) - f_spooled (sf (sp sample_written)) =
    sum_of size_of (f_dir (sf (sp sample_first))) - f_spooled (sf (sp sample_first)) ∧
  f_spooled (sf (sp sample_written)) ≤ Z.max (f_spooled (sf (sp sample_first))) spoolMaxBytes.
Proof. apply (spooled_bytes_exact sample_marshal spoolMaxFile spoolMaxBytes _ _ _ _ _ _ sample_starts sample_run_live). Defined.

(** A file cut off in the middle of its second line. *)
Definition sample_cut : Spool.spool (Event := bytes) :=
  Spool.Spool (Files "ab" {[part_name "x" := Regular (sample_line ++ [x7b])]} ∅ 0 None None []) sample_env
    (Intake [] false false 0).

Lemma recoverPart_keeps_complete_lines_witness :
  let s' := recoverPart (part_name "x") sample_cut in
  f_dir (sf s') !! part_name "x" = None ∧
  f_dir (sf s') !! ready_name "x" =
    (if decide (sample_line = []) then f_dir (sf sample_cut) !! ready_name "x" else Some (Regular sample_line)) ∧
  (∀ n, n ≠ part_name "x" → n ≠ ready_name "x" → f_dir (sf s') !! n = f_dir (sf sample_cut) !! n) ∧
  f_spooled (sf s') = f_spooled (sf sample_cut) + len sample_line.
Proof.
  apply (recoverPart_keeps_complete_lines "x" sample_line [x7b] sample_cut); [done|done|set_solver|].
  right. by exists sample_event.
Defined.

Lemma sample_drained :
  f_dir (sf (writer_end sample_marshal spoolMaxFile spoolMaxBytes None (stop_intake (sp sample_put)))) =
    {[ready_name sample_base := Regular sample_line]}.
Proof. vm_compute. reflexivity. Qed.

Lemma drain_uploads_everything_witness :
  ∃ s', Drain sample_marshal spoolMaxFile spoolMaxBytes 1 None (sp sample_put) = Some s' ∧
    i_queue (si s') = [] ∧ (∀ name, is_ready (sf s') name = false) ∧
    i_drops (si s') + len (f_written (sf s')) = 1 ∧
    ∀ base l k, (base, l) ∈ f_written (sf s') → spoolKey (ready_name base) = Some k →
      ∃ data, lines (sf s') base `prefix_of` data ∧
        (f_bucket (sf s') !! k = Some data ∨ f_dir (sf s') !! part_name base = Some (Regular data)).
Proof.
  apply (drain_uploads_everything sample_marshal spoolMaxFile spoolMaxBytes _ _ _ _ _ _ 0 sample_starts sample_run_put);
    [done|by apply sample_clock|done|].
  intros name Hr. unfold is_ready in Hr. rewrite sample_drained in Hr.
  destruct (decide (name = ready_name sample_base)) as [->|Hne].
  { apply (bool_decide_unpack _). vm_compute. exact I. }
  rewrite lookup_singleton_ne in Hr by done. by destruct (spoolName name) as [[? []]|].
Defined.
End SpoolSafe.
