(* ===== verification/GoFloat.v ===== *)
(** * Go's [float64]

    The IEEE 754 binary64 numbers of the Standard Library's [SpecFloat], with
    the operations the budget code uses: arithmetic rounded to nearest even,
    the ordered comparisons, the built-in [min] and [max], [cmp.Compare], and
    the conversions from and to 64-bit integers.  What a conversion of a number
    outside the integer's range gives is left to the implementation by the
    language; what [strconv] prints and reads is a parameter with the documented
    round trip. *)
From Stdlib Require Import ZArith Lia Ascii String Floats.SpecFloat.
From stdpp Require Import countable.
From S2P Require Import Prelude.
Local Open Scope Z_scope.

Module GoFloat.
Definition float64 : Type := spec_float.

Definition fadd : float64 → float64 → float64 := SFadd 53 1024.
Definition fsub : float64 → float64 → float64 := SFsub 53 1024.
Definition fmul : float64 → float64 → float64 := SFmul 53 1024.
Definition fdiv : float64 → float64 → float64 := SFdiv 53 1024.

(** [float64(n)] of an integer. *)
Definition of_int (n : Z) : float64 := binary_normalize 53 1024 n 0 false.

Definition flt (x y : float64) : bool := SFltb x y.
Definition fle (x y : float64) : bool := SFleb x y.

Definition is_nan (x : float64) : bool := match x with S754_nan => true | _ => false end.
Definition sign_bit (x : float64) : bool :=
  match x with S754_zero s | S754_infinity s | S754_finite s _ _ => s | S754_nan => false end.

(** The built-in [min] and [max]: a NaN operand gives NaN, and -0 < +0. *)
Definition fmin (x y : float64) : float64 :=
  if is_nan x || is_nan y then S754_nan
  else if flt x y then x else if flt y x then y else if sign_bit x then x else y.
Definition fmax (x y : float64) : float64 :=
  if is_nan x || is_nan y then S754_nan
  else if flt x y then y else if flt y x then x else if sign_bit x then y else x.

(** [cmp.Compare]: a NaN is below every number and equal to a NaN. *)
Definition cmp_Compare (x y : float64) : comparison :=
  match SFcompare x y with
  | Some c => c
  | None => if is_nan x then (if is_nan y then Eq else Lt) else Gt
  end.

(** The integer part, towards zero. *)
Definition trunc (x : float64) : option Z :=
  match x with
  | S754_zero _ => Some 0
  | S754_finite s m e =>
      let n := if 0 <=? e then Z.pos m * 2 ^ e else Z.pos m / 2 ^ (- e) in
      Some (if s then - n else n)
  | _ => None
  end.

(** What Go leaves to the implementation or [strconv] provides. *)
Class FloatLib := {
  unrepresentable : float64 → Z;
  FormatFloat : float64 → string;
  ParseFloat : string → option float64
}.

(** [int64(x)], also as [int(x)] and [time.Duration(x)]. *)
Definition to_int `{FloatLib} (x : float64) : Z :=
  match trunc x with
  | Some n => if (min_int64 <=? n) && (n <=? max_int64) then n else wrap64 (unrepresentable x)
  | None => wrap64 (unrepresentable x)
  end.

Definition is_finite (x : float64) : bool :=
  match x with S754_zero _ | S754_finite _ _ _ => true | _ => false end.

(** [FormatFloat(x, 'f', -1, 64)] has enough digits to read [x] back. *)
Class FloatLaws `{FloatLib} : Prop :=
  parse_format : ∀ x, is_finite x = true → valid_binary 53 1024 x = true → ParseFloat (FormatFloat x) = Some x.

(** ** A concrete library

    It writes a number as the binary digits of its code, which satisfies the
    round trip. *)
Definition float_code (x : float64) : (bool + bool) + (unit + bool * positive * Z) :=
  match x with
  | S754_zero s => inl (inl s)
  | S754_infinity s => inl (inr s)
  | S754_nan => inr (inl tt)
  | S754_finite s m e => inr (inr (s, m, e))
  end.
Definition float_decode (c : (bool + bool) + (unit + bool * positive * Z)) : float64 :=
  match c with
  | inl (inl s) => S754_zero s
  | inl (inr s) => S754_infinity s
  | inr (inl _) => S754_nan
  | inr (inr (s, m, e)) => S754_finite s m e
  end.
#[export] Instance float_eq_dec : EqDecision float64.
Proof. intros x y. unfold Decision. repeat decide equality. Defined.
#[export] Program Instance float_countable : Countable float64 := inj_countable' float_code float_decode _.
Next Obligation. by intros []. Qed.

Fixpoint bits_of (p : positive) : string :=
  match p with xH => "" | xO p => String "0" (bits_of p) | xI p => String "1" (bits_of p) end.
Fixpoint of_bits (s : string) : positive :=
  match s with
  | "" => xH
  | String c s => if Ascii.eqb c "1" then xI (of_bits s) else xO (of_bits s)
  end%string.
Lemma of_bits_of p : of_bits (bits_of p) = p.
Proof. induction p as [p IH|p IH|]; simpl; by rewrite ?IH. Qed.

#[local] Instance bit_floats : FloatLib := {
  unrepresentable _ := min_int64;
  FormatFloat x := bits_of (encode x);
  ParseFloat s := decode (of_bits s)
}.
#[local] Instance bit_floats_laws : FloatLaws.
Proof. intros x _ _. simpl. by rewrite of_bits_of, decode_encode. Qed.
End GoFloat.
