(* ===== verification/Acme.v ===== *)
(** * ACME accounts, budgets and order tracking

    The data of [internal/acme] and the functions the issuing chain is made of:
    classified errors ([issuer.go]), the choice of budgets for an order or a
    request ([budget.go], with [Rate] and [Bucket] of [limit/acme_budget.go]),
    the record of one order that the chain shares with the request transport
    ([track.go]), and the exponential backoff ([chain.go]).

    The public suffix list is a parameter. *)
From Stdlib Require Import ZArith Lia Ascii String Floats.SpecFloat.
From S2P Require Import Prelude GoStr GoFloat.
Local Open Scope string_scope.
Local Open Scope list_scope.
Local Open Scope Z_scope.

Module Acme.
Import GoFloat.

(** ** Certificate authorities and accounts *)
Definition CALetsEncrypt : string := "letsencrypt".
Definition CAGTS : string := "gts".
Definition CAZeroSSL : string := "zerossl".

Record account := Account { a_ca : string; a_id : string; a_label : string; a_timeout : Z }.

(** ** Errors *)
Inductive Class_ := ClassRateLimited | ClassTransient | ClassPermanent | ClassLocal.

(** An error an issuer returns: its class and retry hint when it is classified,
    and whether a panic is in its chain. *)
Record issue_error := IssueError { ie_class : option (Class_ * Z); ie_panicked : bool }.

Definition localChallengeRetry : Z := 30 * second.

Definition panicked (e : issue_error) : issue_error := IssueError (Some (ClassLocal, localChallengeRetry)) true.

(** What [asIssuerError] finds; an error without a class is transient. *)
Definition class_of (e : issue_error) : Class_ * Z :=
  match ie_class e with Some c => c | None => (ClassTransient, 0) end.

(** ** Budgets *)
Record Rate := MkRate { r_Count : Z; r_Period : Z; r_Burst : Z }.
Record Bucket := MkBucket { b_Key : string; b_Capacity : float64; b_Refill : Z }.

Definition bucket (r : Rate) (key : string) : Bucket :=
  MkBucket key (of_int (r_Burst r)) (if 0 <? r_Count r then Z.quot (r_Period r) (r_Count r) else r_Period r).

Definition quote : string := String "034"%char "".
Definition no_bucket : Bucket := MkBucket "" (S754_zero false) 0.

Record Budgets := MkBudgets {
  bg_Domain : string;
  bg_LEDomain : Rate; bg_LEOrders : Rate; bg_LEName : Rate;
  bg_GTSOrders : Rate; bg_GTSRequests : Rate; bg_GTSCertPolls : Rate;
  bg_ZeroSSLOrders : Rate; bg_ZeroSSLRequests : Rate
}.

(** The public suffix list: the registered domain of a name. *)
Class PublicSuffix := EffectiveTLDPlusOne : string → option string.

Section budgets.
Context `{PublicSuffix} `{UnicodeCase}.
Implicit Type b : Budgets.

Definition registeredDomain (fqdn : string) : string :=
  let name := ToLower (TrimSuffix fqdn ".") in
  match EffectiveTLDPlusOne name with Some d => d | None => name end.

Definition leDomain b (fqdn : string) : Bucket := bucket (bg_LEDomain b) ("letsencrypt:domain:" +:+ registeredDomain fqdn).
Definition leOrders b (a : account) : Bucket := bucket (bg_LEOrders b) ("letsencrypt:orders:" +:+ a_id a).
Definition leName b (fqdn : string) : Bucket := bucket (bg_LEName b) ("letsencrypt:name:" +:+ fqdn).
Definition gtsOrders b (a : account) : Bucket := bucket (bg_GTSOrders b) ("gts:orders:" +:+ a_id a).
Definition gtsRequests b (a : account) : Bucket := bucket (bg_GTSRequests b) ("gts:requests:" +:+ a_id a).
Definition gtsCertPolls b (a : account) : Bucket := bucket (bg_GTSCertPolls b) ("gts:cert:" +:+ a_id a).
Definition zerosslOrders b (a : account) : Bucket := bucket (bg_ZeroSSLOrders b) ("zerossl:orders:" +:+ a_id a).
Definition zerosslRequests b (a : account) : Bucket := bucket (bg_ZeroSSLRequests b) ("zerossl:requests:" +:+ a_id a).

Definition gtsRequestsPerOrder : Z := 9.
Definition zerosslRequestsPerOrder : Z := 9.

Definition prepayBucket b (a : account) : Bucket * Z :=
  if String.eqb (a_ca a) CAGTS then (gtsRequests b a, gtsRequestsPerOrder)
  else if String.eqb (a_ca a) CAZeroSSL then (zerosslRequests b a, zerosslRequestsPerOrder)
  else (no_bucket, 0).

(** The budgets an order uses when it is created and when it succeeds. *)
Definition orderBuckets b (a : account) (fqdn : string) (leRenewal : bool) : list Bucket * list Bucket :=
  if String.eqb (a_ca a) CALetsEncrypt then
    if leRenewal then ([], [leName b fqdn]) else ([leOrders b a], [leName b fqdn; leDomain b fqdn])
  else if String.eqb (a_ca a) CAGTS then ([gtsOrders b a], [])
  else if String.eqb (a_ca a) CAZeroSSL then ([zerosslOrders b a], [])
  else ([], []).

Definition requestBuckets b (a : account) (path : string) : list Bucket :=
  if String.eqb (a_ca a) CAGTS then
    if Contains path "/cert/" then [gtsRequests b a; gtsCertPolls b a] else [gtsRequests b a]
  else if String.eqb (a_ca a) CAZeroSSL then [zerosslRequests b a]
  else [].

(** [track] holds the name and domain buckets of the order, when there is one. *)
Definition resyncBuckets b (a : account) (detail : string) (track : option (Bucket * Bucket)) : list Bucket :=
  if String.eqb (a_ca a) CALetsEncrypt then
    if Contains detail "#new-orders-per-account" then [leOrders b a]
    else match track with
         | None => []
         | Some (name, domain) =>
             if Contains detail "#new-certificates-per-registered-domain" && negb (String.eqb (b_Key domain) "")
             then [domain]
             else if Contains detail "#new-certificates-per-exact-set-of-identifiers" && negb (String.eqb (b_Key name) "")
             then [name] else []
         end
  else if String.eqb (a_ca a) CAGTS then
    if Contains detail ("resource " +:+ quote +:+ "cert" +:+ quote) then [gtsCertPolls b a] else [gtsRequests b a]
  else if String.eqb (a_ca a) CAZeroSSL then [zerosslRequests b a]
  else [].

Definition accountBuckets b (a : account) : list (string * Bucket) :=
  if String.eqb (a_ca a) CALetsEncrypt then [("domain", leDomain b (bg_Domain b)); ("orders", leOrders b a)]
  else if String.eqb (a_ca a) CAGTS then
    [("orders", gtsOrders b a); ("requests", gtsRequests b a); ("cert-polls", gtsCertPolls b a)]
  else if String.eqb (a_ca a) CAZeroSSL then [("orders", zerosslOrders b a); ("requests", zerosslRequests b a)]
  else [].

Definition ordersBucket b (a : account) : Bucket :=
  if String.eqb (a_ca a) CAGTS then gtsOrders b a
  else if String.eqb (a_ca a) CAZeroSSL then zerosslOrders b a
  else leOrders b a.
End budgets.

(** ** Backoff *)
Fixpoint backoff_loop (n : nat) (maxDur d : Z) : Z :=
  match n with
  | O => if maxDur <? d then maxDur else d
  | S n' =>
      let d := wrap64 (d * 2) in
      if maxDur <=? d then maxDur else backoff_loop n' maxDur d
  end.

(** The loop doubles [n - 1] times. *)
Definition backoff (initial maxDur : Z) (n : Z) : Z :=
  backoff_loop (Z.to_nat (Z.max n 1 - 1)) maxDur initial.

(** ** One order, as the chain and the transport see it *)
Record orderTrack := Track {
  t_name : Bucket; t_domain : Bucket;
  t_orderURL : string; t_finalizeURL : string;
  t_finalizedAt : option Z; t_lastPoll : option Z;
  t_created : bool; t_orderSent : bool; t_finalSent : bool;
  t_cleanups : nat;
  t_prepaidKey : string; t_prepaidMark : string; t_prepaid : Z;
  t_done : bool
}.

Record orderOutcome := Outcome { o_created : bool; o_finalized : bool; o_abandoned : bool }.
Inductive sentRequest := sentOther | sentOrder | sentFinalize.

Definition newOrderTrack (name domain : Bucket) : orderTrack :=
  Track name domain "" "" None None false false false 0 "" "" 0 false.

Definition with_prepaid (n : Z) (t : orderTrack) : orderTrack :=
  Track (t_name t) (t_domain t) (t_orderURL t) (t_finalizeURL t) (t_finalizedAt t) (t_lastPoll t) (t_created t)
    (t_orderSent t) (t_finalSent t) (t_cleanups t) (t_prepaidKey t) (t_prepaidMark t) n (t_done t).

Definition setPrepaid (key : string) (n : Z) (mark : string) (t : orderTrack) : orderTrack :=
  Track (t_name t) (t_domain t) (t_orderURL t) (t_finalizeURL t) (t_finalizedAt t) (t_lastPoll t) (t_created t)
    (t_orderSent t) (t_finalSent t) (t_cleanups t) key mark n (t_done t).

Definition dropPrepaid (mark : string) (known : bool) (t : orderTrack) : Z * orderTrack :=
  if known && (String.eqb mark "" || String.eqb mark (t_prepaidMark t)) then (0, t)
  else (t_prepaid t, with_prepaid 0 t).

Definition usePrepaid (t : orderTrack) : option string * orderTrack :=
  if t_prepaid t <=? 0 then (None, t) else (Some (t_prepaidKey t), with_prepaid (t_prepaid t - 1) t).

Definition returnPrepaid (t : orderTrack) : orderTrack := with_prepaid (t_prepaid t + 1) t.

Definition drainPrepaid (t : orderTrack) : Z * string * orderTrack := (t_prepaid t, t_prepaidMark t, with_prepaid 0 t).

Definition finalizeSent (t : orderTrack) : bool := t_finalSent t || bool_decide (is_Some (t_finalizedAt t)).

Definition abandon (t : orderTrack) : orderTrack :=
  Track (t_name t) (t_domain t) (t_orderURL t) (t_finalizeURL t) (t_finalizedAt t) (t_lastPoll t) (t_created t)
    (t_orderSent t) (t_finalSent t) (t_cleanups t) (t_prepaidKey t) (t_prepaidMark t) (t_prepaid t) true.

Definition onAbandon (t : orderTrack) : orderTrack :=
  Track (t_name t) (t_domain t) (t_orderURL t) (t_finalizeURL t) (t_finalizedAt t) (t_lastPoll t) (t_created t)
    (t_orderSent t) (t_finalSent t) (S (t_cleanups t)) (t_prepaidKey t) (t_prepaidMark t) (t_prepaid t) (t_done t).

Definition takeCleanups (t : orderTrack) : nat * orderTrack :=
  (t_cleanups t,
   Track (t_name t) (t_domain t) (t_orderURL t) (t_finalizeURL t) (t_finalizedAt t) (t_lastPoll t) (t_created t)
     (t_orderSent t) (t_finalSent t) 0 (t_prepaidKey t) (t_prepaidMark t) (t_prepaid t) (t_done t)).

Definition setOrder (orderURL finalizeURL : string) (t : orderTrack) : orderTrack :=
  Track (t_name t) (t_domain t) orderURL finalizeURL (t_finalizedAt t) (t_lastPoll t) true
    (t_orderSent t) (t_finalSent t) (t_cleanups t) (t_prepaidKey t) (t_prepaidMark t) (t_prepaid t) (t_done t).

Definition isFinalize (u : string) (t : orderTrack) : bool :=
  negb (String.eqb (t_finalizeURL t) "") && String.eqb u (t_finalizeURL t).

Definition markFinalized (at_ : Z) (t : orderTrack) : orderTrack :=
  Track (t_name t) (t_domain t) (t_orderURL t) (t_finalizeURL t) (Some at_) (t_lastPoll t) (t_created t)
    (t_orderSent t) (t_finalSent t) (t_cleanups t) (t_prepaidKey t) (t_prepaidMark t) (t_prepaid t) (t_done t).

Definition isPoll (u : string) (t : orderTrack) : bool :=
  bool_decide (is_Some (t_finalizedAt t)) && String.eqb u (t_orderURL t).

Definition pollDue (first every : Z) (t : orderTrack) : Z :=
  let due := match t_finalizedAt t with Some at_ => at_ | None => 0 end + first in
  match t_lastPoll t with
  | Some l => if due <? l + every then l + every else due
  | None => due
  end.

Definition markPoll (at_ : Z) (t : orderTrack) : orderTrack :=
  Track (t_name t) (t_domain t) (t_orderURL t) (t_finalizeURL t) (t_finalizedAt t) (Some at_) (t_created t)
    (t_orderSent t) (t_finalSent t) (t_cleanups t) (t_prepaidKey t) (t_prepaidMark t) (t_prepaid t) (t_done t).

Definition with_sent (order final : bool) (t : orderTrack) : orderTrack :=
  Track (t_name t) (t_domain t) (t_orderURL t) (t_finalizeURL t) (t_finalizedAt t) (t_lastPoll t) (t_created t)
    order final (t_cleanups t) (t_prepaidKey t) (t_prepaidMark t) (t_prepaid t) (t_done t).

Definition markSent (method u : string) (t : orderTrack) : sentRequest * orderTrack :=
  if isFinalize u t then (sentFinalize, with_sent (t_orderSent t) true t)
  else if negb (t_created t) && String.eqb method "POST" then (sentOrder, with_sent true (t_finalSent t) t)
  else (sentOther, t).

Definition markAnswered (r : sentRequest) (t : orderTrack) : orderTrack :=
  match r with
  | sentOrder => with_sent false (t_finalSent t) t
  | sentFinalize => with_sent (t_orderSent t) false t
  | sentOther => t
  end.

Definition outcome (t : orderTrack) : orderOutcome :=
  Outcome (t_created t || t_orderSent t) (bool_decide (is_Some (t_finalizedAt t)) || t_finalSent t) (t_done t).

(** ** Backoff is the exponential the comment states *)
Lemma backoff_loop_spec n maxDur d :
  0 < d → d ≤ maxDur < 2 ^ 62 →
  backoff_loop n maxDur d = Z.min (d * 2 ^ Z.of_nat n) maxDur.
Proof.
  revert d. induction n as [|n IH]; intros d Hd Hm; cbn [backoff_loop].
  { rewrite Z.mul_1_r. zcase. }
  rewrite wrap64_id by (unfold min_int64, max_int64; change (2 ^ 62) with 4611686018427387904 in Hm; lia).
  assert (0 < 2 ^ Z.of_nat n) by (apply Z.pow_pos_nonneg; lia).
  rewrite Nat2Z.inj_succ, Z.pow_succ_r by lia.
  destruct (Z.leb_spec maxDur (d * 2)); [nia|]. rewrite IH by lia. f_equal. ring.
Qed.

(** The backoff after [n] failures in a row is the initial one doubled [n - 1] times,
    capped, without overflow. *)
Lemma backoff_is_capped_exponential initial maxDur n :
  0 < initial → initial ≤ maxDur < 2 ^ 62 →
  backoff initial maxDur n = Z.min (initial * 2 ^ (Z.max n 1 - 1)) maxDur ∧
  initial ≤ backoff initial maxDur n ≤ maxDur.
Proof.
  intros Hi Hm. unfold backoff. rewrite backoff_loop_spec by done. rewrite Z2Nat.id by lia.
  split; [done|]. assert (0 < 2 ^ (Z.max n 1 - 1)) by (apply Z.pow_pos_nonneg; lia). nia.
Qed.

Lemma backoff_is_capped_exponential_witness :
  backoff minute hour 4 = Z.min (minute * 2 ^ 3) hour ∧ minute ≤ backoff minute hour 4 ≤ hour.
Proof. apply (backoff_is_capped_exponential minute hour 4); by vm_compute. Defined.

(** ** The prepaid requests of an order *)
Inductive track_op :=
| OpUse | OpReturn | OpDrop (mark : string) (known : bool)
| OpSent (method u : string) | OpAnswered (r : sentRequest) | OpOrder (orderURL finalizeURL : string)
| OpFinalized (at_ : Z) | OpPoll (at_ : Z) | OpAbandon | OpOnAbandon.

(** The prepaid requests in hand, and those dropped. *)
Definition track_step (op : track_op) (s : orderTrack * Z * Z) : orderTrack * Z * Z :=
  let '(t, used, dropped) := s in
  match op with
  | OpUse => match usePrepaid t with (Some _, t') => (t', used + 1, dropped) | (None, t') => (t', used, dropped) end
  | OpReturn => if 0 <? used then (returnPrepaid t, used - 1, dropped) else s
  | OpDrop mark known => let '(n, t') := dropPrepaid mark known t in (t', used, dropped + n)
  | OpSent method u => ((markSent method u t).2, used, dropped)
  | OpAnswered r => (markAnswered r t, used, dropped)
  | OpOrder o f => (setOrder o f t, used, dropped)
  | OpFinalized at_ => (markFinalized at_ t, used, dropped)
  | OpPoll at_ => (markPoll at_ t, used, dropped)
  | OpAbandon => (abandon t, used, dropped)
  | OpOnAbandon => (onAbandon t, used, dropped)
  end.

Definition track_run (ops : list track_op) (s : orderTrack * Z * Z) : orderTrack * Z * Z :=
  fold_left (λ s op, track_step op s) ops s.

Definition track_ok (n : Z) (s : orderTrack * Z * Z) : Prop :=
  let '(t, used, dropped) := s in
  0 ≤ t_prepaid t ∧ 0 ≤ used ∧ 0 ≤ dropped ∧ t_prepaid t + used + dropped = n.

Lemma track_step_ok n op s : track_ok n s → track_ok n (track_step op s).
Proof.
  destruct s as [[t used] dropped]. intros (H1 & H2 & H3 & H4). destruct op; simpl; try by split_and!.
  - unfold usePrepaid. destruct (Z.leb_spec (t_prepaid t) 0); simpl; split_and!; lia.
  - destruct (Z.ltb_spec 0 used); simpl; split_and!; lia.
  - unfold dropPrepaid. destruct (_ && _); simpl; split_and!; lia.
  - unfold markSent. destruct (isFinalize u t); [by split_and!|]. destruct (_ && _); by split_and!.
  - destruct r; by split_and!.
Qed.

(** However an order uses, returns and drops its prepaid requests, those used, dropped
    and drained at the end add up to those that were set aside. *)
Lemma prepaid_requests_conserved name domain key n mark ops :
  0 ≤ n →
  let '(t, used, dropped) := track_run ops (setPrepaid key n mark (newOrderTrack name domain), 0, 0) in
  let '(unused, _, t') := drainPrepaid t in
  0 ≤ unused ∧ 0 ≤ used ∧ unused + used + dropped = n ∧ t_prepaid t' = 0.
Proof.
  intros Hn. assert (track_ok n (setPrepaid key n mark (newOrderTrack name domain), 0, 0)) as H0 by (simpl; lia).
  unfold track_run. revert H0. generalize (setPrepaid key n mark (newOrderTrack name domain), 0, 0).
  induction ops as [|op ops IH]; intros [[t used] dropped] H0; simpl.
  - destruct H0 as (? & ? & ? & ?). by split_and!.
  - apply IH. exact (track_step_ok n op (t, used, dropped) H0).
Qed.

Lemma prepaid_requests_conserved_witness :
  let '(t, used, dropped) := track_run [OpUse; OpUse; OpReturn; OpDrop "m" true]
      (setPrepaid "k" 9 "old" (newOrderTrack no_bucket no_bucket), 0, 0) in
  let '(unused, _, t') := drainPrepaid t in
  0 ≤ unused ∧ 0 ≤ used ∧ unused + used + dropped = 9 ∧ t_prepaid t' = 0.
Proof.
  apply (prepaid_requests_conserved no_bucket no_bucket "k" 9 "old" [OpUse; OpUse; OpReturn; OpDrop "m" true]).
  by vm_compute.
Defined.
End Acme.
