(* ===== verification/ServeConfig.v ===== *)
(** * Flags of [tunneld serve]

    [config/config.go] (the flags, their derived values and [Validate]),
    [config/rate.go], the choice of [config/redis.go], and the log sinks of
    [logging/logging.go].  [Validate] is the list of its checks in order, the
    first that fails being the error.  The file system, the environment, host
    and address parsing and the Redis and Sentry libraries are [ConfigEnv].

    The main theorem lists what the other components rely on: a configuration
    that validates satisfies it. *)
From Stdlib Require Import ZArith Lia Ascii String Floats.SpecFloat.
From S2P Require Import Prelude GoStr GoFloat Wire Config Acme.
Local Open Scope string_scope.
Local Open Scope list_scope.
Local Open Scope Z_scope.

Module ServeConfig.
Import GoFloat Config Acme.

(** ** [time.ParseDuration] *)
Definition is_num (s : string) : bool :=
  match s with "" => false | String c _ => bool_decide (is_Some (digit_val c)) end.

(** Digits up to 2^63, or [None] on overflow. *)
Fixpoint leadingInt (s : string) (x : Z) : option (Z * string) :=
  match s with
  | "" => Some (x, "")
  | String c s' =>
      match digit_val c with
      | None => Some (x, s)
      | Some v =>
          if 2 ^ 63 / 10 <? x then None
          else if 2 ^ 63 <? x * 10 + v then None else leadingInt s' (x * 10 + v)
      end
  end.

(** Digits after the point, and the power of ten of those that were kept. *)
Fixpoint leadingFraction (s : string) (x : Z) (scale : float64) (overflow : bool) : Z * float64 * string :=
  match s with
  | "" => (x, scale, "")
  | String c s' =>
      match digit_val c with
      | None => (x, scale, s)
      | Some v =>
          if overflow || ((2 ^ 63 - 1) / 10 <? x) || (2 ^ 63 <? x * 10 + v) then leadingFraction s' x scale true
          else leadingFraction s' (x * 10 + v) (fmul scale (of_int 10)) false
      end
  end.

(** The unit: up to the next digit or point. *)
Fixpoint unit_text (s : string) : string * string :=
  match s with
  | "" => ("", "")
  | String c s' =>
      if Ascii.eqb c "." || bool_decide (is_Some (digit_val c)) then ("", s)
      else let '(u, r) := unit_text s' in (String c u, r)
  end.

Definition micro_sign : string := String "194" (String "181" "s").
Definition greek_mu : string := String "206" (String "188" "s").

Definition unit_of (u : string) : option Z :=
  if String.eqb u "ns" then Some 1
  else if String.eqb u "us" || String.eqb u micro_sign || String.eqb u greek_mu then Some 1000
  else if String.eqb u "ms" then Some millisecond
  else if String.eqb u "s" then Some second
  else if String.eqb u "m" then Some minute
  else if String.eqb u "h" then Some hour
  else None.

Fixpoint duration_loop (fuel : nat) (s : string) (d : Z) : option Z :=
  match s with
  | "" => Some d
  | String c _ =>
      match fuel with
      | O => None
      | S fuel' =>
          if negb (Ascii.eqb c "." || is_num s) then None
          else
            match leadingInt s 0 with
            | None => None
            | Some (v, s1) =>
                let pre := is_num s in
                let '(f, scale, s2, post) :=
                  match s1 with
                  | String "." s1' => let '(f, scale, s2) := leadingFraction s1' 0 (of_int 1) false in (f, scale, s2, is_num s1')
                  | _ => (0, of_int 1, s1, false)
                  end in
                if negb pre && negb post then None
                else
                  let '(u, s3) := unit_text s2 in
                  match unit_of u with
                  | None => None
                  | Some unit =>
                      if 2 ^ 63 / unit <? v then None
                      else
                        let v := v * unit in
                        let v := if 0 <? f
                                 then v + default 0 (trunc (fmul (of_int f) (fdiv (of_int unit) scale)))
                                 else v in
                        if 2 ^ 63 <? v then None
                        else if 2 ^ 63 <? d + v then None
                        else duration_loop fuel' s3 (d + v)
                  end
            end
      end
  end.

Definition ParseDuration (s : string) : option Z :=
  let '(neg, s') :=
    match s with
    | String c s' => if Ascii.eqb c "-" then (true, s') else if Ascii.eqb c "+" then (false, s') else (false, s)
    | "" => (false, s)
    end in
  if String.eqb s' "0" then Some 0
  else if String.eqb s' "" then None
  else match duration_loop (String.length s') s' 0 with
       | None => None
       | Some d => if neg then Some (- d) else if 2 ^ 63 - 1 <? d then None else Some d
       end.

(** ** [ParseRate] *)
Inductive rate_error := RateShape | RateCount | RatePeriod | RateBurst.

Definition positive_int (s : string) : option Z :=
  match ParseInt s with Ok n => if n <? 1 then None else Some n | Err _ => None end.

Definition ParseRate (s : string) : result rate_error Rate :=
  let '(spec, burst, hasBurst) := CutByte (TrimSpace s) ":" in
  let '(count, period, ok) := CutByte spec "/" in
  if negb ok then Err RateShape
  else match positive_int count with
       | None => Err RateCount
       | Some n =>
           match ParseDuration period with
           | None => Err RatePeriod
           | Some d =>
               if d <=? 0 then Err RatePeriod
               else if hasBurst : bool then
                 match positive_int burst with
                 | None => Err RateBurst
                 | Some b => Ok (MkRate n d b)
                 end
               else Ok (MkRate n d n)
           end
       end.

(** ** Log sinks *)
Inductive Level := LevelDebug | LevelInfo | LevelWarn | LevelError.
Record spec := Spec { sp_stdout : bool; sp_path : string; sp_level : Level; sp_json : bool; sp_maxSizeMB : Z; sp_maxFiles : Z }.

Section logging.
Context `{UnicodeCase}.

Definition parseLevel (v : string) : option Level :=
  let v := ToLower v in
  if String.eqb v "debug" then Some LevelDebug
  else if String.eqb v "info" then Some LevelInfo
  else if String.eqb v "warn" then Some LevelWarn
  else if String.eqb v "error" then Some LevelError
  else None.

Definition parseMaxSizeMB (v : string) : option Z :=
  let t := ToLower (TrimSpace v) in
  positive_int (TrimSuffix (TrimSuffix t "mb") "m").

(** The spec so far, whether an output was given, and the format if one was. *)
Record spec_acc := SpecAcc { sa_spec : spec; sa_output : bool; sa_format : option bool }.
Definition spec_start : spec_acc := SpecAcc (Spec false "" LevelInfo false 50 20) false None.

Definition spec_field (a : spec_acc) (f : string) : option spec_acc :=
  let f := TrimSpace f in
  if String.eqb f "" then Some a
  else
    let '(k, v, ok) := CutByte f "=" in
    if negb ok then None
    else
      let k := TrimSpace (ToLower k) in
      let v := TrimSpace v in
      let s := sa_spec a in
      if String.eqb k "output" then
        if sa_output a then None
        else if String.eqb v "std" then
          Some (SpecAcc (Spec true (sp_path s) (sp_level s) (sp_json s) (sp_maxSizeMB s) (sp_maxFiles s)) true (sa_format a))
        else if String.eqb v "" then None
        else Some (SpecAcc (Spec (sp_stdout s) v (sp_level s) (sp_json s) (sp_maxSizeMB s) (sp_maxFiles s)) true (sa_format a))
      else if String.eqb k "level" then
        match parseLevel v with
        | None => None
        | Some l => Some (SpecAcc (Spec (sp_stdout s) (sp_path s) l (sp_json s) (sp_maxSizeMB s) (sp_maxFiles s)) (sa_output a) (sa_format a))
        end
      else if String.eqb k "format" then
        let v := ToLower v in
        if String.eqb v "text" then Some (SpecAcc s (sa_output a) (Some false))
        else if String.eqb v "json" then Some (SpecAcc s (sa_output a) (Some true))
        else None
      else if String.eqb k "maxsize" then
        match parseMaxSizeMB v with
        | None => None
        | Some n => Some (SpecAcc (Spec (sp_stdout s) (sp_path s) (sp_level s) (sp_json s) n (sp_maxFiles s)) (sa_output a) (sa_format a))
        end
      else if String.eqb k "maxfiles" then
        match ParseInt v with
        | Ok n => if n <? 0 then None
                  else Some (SpecAcc (Spec (sp_stdout s) (sp_path s) (sp_level s) (sp_json s) (sp_maxSizeMB s) n) (sa_output a) (sa_format a))
        | Err _ => None
        end
      else None.

Fixpoint spec_fields (a : spec_acc) (fs : list string) : option spec_acc :=
  match fs with
  | [] => Some a
  | f :: fs' => match spec_field a f with None => None | Some a' => spec_fields a' fs' end
  end.

Definition parseSpec (raw : string) : option spec :=
  match spec_fields spec_start (SplitByte raw ";") with
  | None => None
  | Some a =>
      if negb (sa_output a) then None
      else
        let s := sa_spec a in
        Some (Spec (sp_stdout s) (sp_path s) (sp_level s)
                (match sa_format a with Some j => j | None => negb (sp_stdout s) end) (sp_maxSizeMB s) (sp_maxFiles s))
  end.

Fixpoint parse_specs (l : list string) : option (list spec) :=
  match l with
  | [] => Some []
  | raw :: l' =>
      match parseSpec raw with
      | None => None
      | Some s => match parse_specs l' with None => None | Some out => Some (s :: out) end
      end
  end.

Definition parseAll (specs : list string) : option (list spec) :=
  parse_specs (match specs with [] => ["output=std;level=info"] | _ => specs end).

Definition ParseSpecs (specs : list string) : bool := bool_decide (is_Some (parseAll specs)).
End logging.

(** ** The environment of [Validate] *)
Inductive stat_result := StatFile | StatDir | StatMissing | StatError.

(** What [redis.ParseFailoverURL] gives. *)
Record FailoverOptions := {
  fo_MasterName : string; fo_RouteByLatency : bool; fo_RouteRandomly : bool; fo_ReplicaOnly : bool
}.

Class ConfigEnv := {
  SplitHostPort : string → option (string * string);
  stat : string → stat_result;
  ParseAddr : string → option (bool * string);      (* unspecified, zone *)
  NewDsn : string → bool;
  Getenv : string → string;
  fold_unicode : string → string → bool;            (* [EqualFold] beyond ASCII *)
  has_master_name : string → option bool;           (* the URL's query, if it parses *)
  parse_single : string → bool;
  parse_failover : string → option FailoverOptions;
  config_case :: UnicodeCase
}.

Section validate.
Context `{ConfigEnv}.

Definition ascii_only (s : string) : bool := str_forall is_ascii_byte s.
Definition EqualFold (a b : string) : bool :=
  if ascii_only a && ascii_only b then String.eqb (str_map lower_byte a) (str_map lower_byte b) else fold_unicode a b.

(** [ParseRedisURL]: a [master_name] in the query selects the failover client. *)
Definition ParseRedisURL (u : string) : bool :=
  match has_master_name u with
  | None => false
  | Some false => parse_single u
  | Some true =>
      match parse_failover u with
      | None => false
      | Some f => negb (String.eqb (fo_MasterName f) "") && negb (fo_RouteByLatency f || fo_RouteRandomly f) && negb (fo_ReplicaOnly f)
      end
  end.

Definition ChallengeDNS01 : string := "dns-01".
Definition ChallengeHTTP01 : string := "http-01".
Definition ChallengeTLSALPN01 : string := "tls-alpn-01".
Definition bandwidthFloorBytesPerSec : Z := Wire.ChunkSize.
Definition shortlivedLifetime : Z := 160 * hour.
Definition MaxACMEAttemptTimeout : Z := 100 * second.

Record ServeCmd := {
  Listen : string; InternalListen : string; TunnelDomain : string; EnrollHost : string; ControlHost : string;
  NamePrefix : string; NameLength : Z; PublicIP : string; DialBackHTTPS : bool; DialBackMTLS : bool;
  MeshListen : string; MeshAdvertise : string; MeshPoolSize : Z; MeshCertTTL : Z; MaxClients : Z;
  RedisURL : string; CACert : string; CAKey : string; CertValidity : Z;
  S3Endpoint : string; S3Region : string; S3Bucket : string; S3AccessKey : string; S3SecretKey : string; S3ForcePathStyle : bool; ConnLogDir : string;
  RegistryClaimTimeout : Z; RegistryClaimSettle : Z;
  AttestSignerDigestFile : string; AttestRootURL : string; AttestStatusURL : string; AttestRefresh : Z;
  AttestStatusMaxStale : Z; AttestationOptional : bool;
  ACMEDirLE : string; ACMEDirGTS : string; ACMEDirZeroSSL : string; ACMEEmail : string; ACMELEProfile : string; ACMEGTSValidity : Z;
  ACMEEABZeroSSLKID : string; ACMEEABZeroSSLHMAC : string; ACMEAccountDir : string; ACMEDNSProvider : string;
  ACMEGTSAccounts : list string;
  ACMEBudgetLEDomain : string; ACMEBudgetLEOrders : string; ACMEBudgetLEName : string; ACMEBudgetGTSOrders : string;
  ACMEBudgetGTSRequests : string; ACMEBudgetGTSCertPolls : string; ACMEBudgetZeroSSLOrders : string; ACMEBudgetZeroSSLRequests : string;
  ACMEAttemptTimeoutLE : Z; ACMEAttemptTimeoutGTS : Z; ACMEAttemptTimeoutZeroSSL : Z;
  ACMEPollFirstLE : Z; ACMEPollFirstGTS : Z; ACMEPollFirstZeroSSL : Z; ACMEPollInterval : Z;
  ACMEChallengeLE : string; ACMEChallengeGTS : string; ACMEChallengeZeroSSL : string; ACMEHTTPListen : string;
  ACMEDNSResolvers : list string; ACMEDNSSkipPropagationCheck : bool;
  ACMECooldownDefault : Z; ACMEBackoffInitial : Z; ACMEBackoffMax : Z; ACMERenewMargin : Z; IssuePerWeek : Z;
  LimitTrafficDay : string; LimitTrafficWeek : string; LimitConnRate : Z; LimitStreamPending : Z; LimitDialBackTimeout : Z;
  LimitConnIdle : Z; LimitConnMinRate : string; LimitConnMinGrace : Z; LimitConnEvictIdle : Z; LimitConnProtectRate : string;
  HandshakeTimeout : Z; ControlPingInterval : Z; RouteTTL : Z; DBIPCountryLiteCSV : string; BanFile : list string; BanPoll : Z;
  LimitBandwidth : string; LimitPackets : Z; LimitConcurrent : Z; LimitEnrollHour : Z; LimitEnrollMinute : Z; LimitEnrollBody : string;
  PredrainWait : Z; ShutdownGrace : Z; Log : list string;
  SentryDSN : string; SentryEnvironment : string; SentryTracesSampleRate : float64
}.

Implicit Type c : ServeCmd.

(** ** Derived values *)
Definition set (s : string) : bool := negb (String.eqb s "").
Definition LEEnabled c : bool := set (ACMEDirLE c).
Definition GTSEnabled c : bool := negb (bool_decide (ACMEGTSAccounts c = [])).
Definition ZeroSSLEnabled c : bool := set (ACMEEABZeroSSLKID c) && set (ACMEEABZeroSSLHMAC c).

Definition UsesChallenge c (method : string) : bool :=
  (LEEnabled c && String.eqb (ACMEChallengeLE c) method) || (GTSEnabled c && String.eqb (ACMEChallengeGTS c) method) ||
  (ZeroSSLEnabled c && String.eqb (ACMEChallengeZeroSSL c) method).

Definition ServesPlainHTTP c : bool := UsesChallenge c ChallengeHTTP01 || negb (DialBackHTTPS c).

Definition drainGraceMargin : Z := 5 * second.
Definition DrainGrace c : Z := wrap64 (LimitConnIdle c + drainGraceMargin).

Definition JoinHostPort (host port : string) : string :=
  if ContainsByte host ":" then "[" +:+ host +:+ "]:" +:+ port else host +:+ ":" +:+ port.
Definition publicAddr (ip listen : string) : option string :=
  match SplitHostPort listen with None => None | Some (_, port) => Some (JoinHostPort ip port) end.
Definition EdgePublicAddr c : option string := publicAddr (PublicIP c) (Listen c).
Definition DialBackAddr c : option string :=
  if DialBackHTTPS c then EdgePublicAddr c else publicAddr (PublicIP c) (ACMEHTTPListen c).

(** ** The checks *)
Definition label_byte (b : ascii) : bool :=
  let z := cZ b in ((97 <=? z) && (z <=? 122)) || ((48 <=? z) && (z <=? 57)) || (z =? 45).

Definition hostPort (s : string) : bool := bool_decide (is_Some (SplitHostPort s)).

Definition numericPort (listen : string) : bool :=
  match SplitHostPort listen with
  | None => false
  | Some (_, port) => match ParseInt port with Ok p => (1 <=? p) && (p <=? 65535) | Err _ => false end
  end.

Definition checkReadable (path : string) : bool :=
  set path && match stat path with StatFile | StatDir => true | _ => false end.

Definition lower_alnum (b : ascii) : bool := label_byte b && negb (cZ b =? 45).
(** [gtsAccountRe]: a letter or digit and up to 62 more, or hyphens. *)
Definition gtsAccountRe (s : string) : bool :=
  match s with
  | "" => false
  | String b s' => lower_alnum b && str_forall label_byte s' && (String.length s' <=? 62)%nat
  end.

Fixpoint validGTSAccounts_from (seen ids : list string) : bool :=
  match ids with
  | [] => true
  | id :: ids' =>
      gtsAccountRe id && negb (String.eqb id "letsencrypt" || String.eqb id "zerossl") &&
      negb (bool_decide (id ∈ seen)) && validGTSAccounts_from (id :: seen) ids'
  end.
Definition validGTSAccounts : list string → bool := validGTSAccounts_from [].

Definition challengeOK (method : string) (allowALPN : bool) : bool :=
  String.eqb method ChallengeDNS01 || String.eqb method ChallengeHTTP01 || (allowALPN && String.eqb method ChallengeTLSALPN01).

Definition httpURL (u : string) : bool := HasPrefix u "http://" || HasPrefix u "https://".
Definition rateOK (s : string) : bool := is_ok (ParseRate s).
Definition sizeOK (s : string) : bool := match ParseByteSize s with Ok n => 1 <=? n | Err _ => false end.
Definition bytes_of (s : string) : Z := match ParseByteSize s with Ok n => n | Err _ => 0 end.
Definition resolverOK (r : string) : bool := set (TrimSpace r) && (negb (ContainsByte r ":") || hostPort r).

(** A check: the flag it reports, and whether it holds. *)
Definition checks_names c : list (string * bool) :=
  [("--name-length", (6 <=? NameLength c) && (NameLength c <=? 32));
   ("--name-prefix length", Z.of_nat (String.length (NamePrefix c)) + NameLength c <=? 63);
   ("--name-prefix", str_forall label_byte (ToLower (NamePrefix c)));
   ("--name-prefix hyphen", negb (HasPrefix (NamePrefix c) "-"));
   ("--listen", hostPort (Listen c)); ("--mesh-listen", hostPort (MeshListen c)); ("--internal-listen", hostPort (InternalListen c));
   ("--ca-cert", checkReadable (CACert c)); ("--ca-key", checkReadable (CAKey c));
   ("--attest-signer-digest-file", checkReadable (AttestSignerDigestFile c));
   ("--tunnel-domain", set (TunnelDomain c) && ContainsByte (TunnelDomain c) ".");
   ("--enroll-host", set (EnrollHost c) && ContainsByte (EnrollHost c) ".");
   ("--control-host", set (ControlHost c) && ContainsByte (ControlHost c) ".");
   ("--enroll-host and --control-host", negb (EqualFold (EnrollHost c) (ControlHost c)));
   ("--redis-url", ParseRedisURL (RedisURL c))].

Definition checks_serve c : list (string * bool) :=
  [("--mesh-advertise", set (MeshAdvertise c)); ("--s3-endpoint", set (S3Endpoint c)); ("--s3-bucket", set (S3Bucket c));
   ("--s3-access-key", set (S3AccessKey c)); ("--s3-secret-key", set (S3SecretKey c)); ("--acme-email", set (ACMEEmail c));
   ("--acme-account-dir", set (ACMEAccountDir c)); ("--conn-log-dir", set (ConnLogDir c)); ("--public-ip", set (PublicIP c));
   ("--public-ip", match ParseAddr (PublicIP c) with Some (unspecified, zone) => negb unspecified && String.eqb zone "" | None => false end);
   ("--listen", numericPort (Listen c));
   ("--acme-http-listen", DialBackHTTPS c || numericPort (ACMEHTTPListen c));
   ("--predrain-wait", 0 <=? PredrainWait c);
   ("--sentry-dsn", String.eqb (SentryDSN c) "" || NewDsn (SentryDSN c));
   ("--sentry-environment", String.eqb (SentryDSN c) "" || set (SentryEnvironment c));
   ("--sentry-traces-sample-rate", fle (of_int 0) (SentryTracesSampleRate c) && fle (SentryTracesSampleRate c) (of_int 1));
   ("--dialback-mtls", negb (DialBackMTLS c) || DialBackHTTPS c);
   ("--conn-log-dir", match stat (ConnLogDir c) with StatDir | StatMissing => true | _ => false end);
   ("--acme-challenge-le", challengeOK (ACMEChallengeLE c) true); ("--acme-challenge-gts", challengeOK (ACMEChallengeGTS c) true);
   ("--acme-challenge-zerossl", challengeOK (ACMEChallengeZeroSSL c) false);
   ("--acme-dns-provider", negb (UsesChallenge c ChallengeDNS01) || set (ACMEDNSProvider c));
   ("--acme-http-listen", negb (ServesPlainHTTP c) || hostPort (ACMEHTTPListen c));
   ("--acme-dir-gts", httpURL (ACMEDirGTS c)); ("--acme-dir-zerossl", httpURL (ACMEDirZeroSSL c));
   ("--attest-root-url", httpURL (AttestRootURL c)); ("--attest-status-url", httpURL (AttestStatusURL c));
   ("--s3-endpoint", httpURL (S3Endpoint c)); ("--acme-dir-le", negb (LEEnabled c) || httpURL (ACMEDirLE c));
   ("--mesh-pool-size", 1 <=? MeshPoolSize c);
   ("--acme-dns-resolver", forallb resolverOK (ACMEDNSResolvers c))].

Definition checks_limits c : list (string * bool) :=
  map (λ '(f, v), (f, 1 <=? v))
    [("--max-clients", MaxClients c); ("--limit-concurrent", LimitConcurrent c); ("--limit-packets", LimitPackets c);
     ("--limit-conn-rate", LimitConnRate c); ("--limit-stream-pending", LimitStreamPending c); ("--issue-per-week", IssuePerWeek c);
     ("--limit-enroll-hour", LimitEnrollHour c); ("--limit-enroll-minute", LimitEnrollMinute c)] ++
  map (λ '(f, v), (f, 0 <? v))
    [("--route-ttl", RouteTTL c); ("--shutdown-grace", ShutdownGrace c); ("--ban-poll", BanPoll c); ("--cert-validity", CertValidity c);
     ("--mesh-cert-ttl", MeshCertTTL c); ("--registry-claim-timeout", RegistryClaimTimeout c);
     ("--registry-claim-settle", RegistryClaimSettle c); ("--attest-refresh", AttestRefresh c);
     ("--attest-status-max-stale", AttestStatusMaxStale c); ("--acme-cooldown-default", ACMECooldownDefault c);
     ("--acme-backoff-initial", ACMEBackoffInitial c); ("--acme-backoff-max", ACMEBackoffMax c); ("--acme-renew-margin", ACMERenewMargin c);
     ("--acme-gts-validity", ACMEGTSValidity c); ("--limit-conn-idle", LimitConnIdle c); ("--limit-conn-min-grace", LimitConnMinGrace c);
     ("--limit-conn-evict-idle", LimitConnEvictIdle c); ("--limit-dialback-timeout", LimitDialBackTimeout c);
     ("--handshake-timeout", HandshakeTimeout c); ("--control-ping-interval", ControlPingInterval c);
     ("--acme-attempt-timeout-le", ACMEAttemptTimeoutLE c); ("--acme-attempt-timeout-gts", ACMEAttemptTimeoutGTS c);
     ("--acme-attempt-timeout-zerossl", ACMEAttemptTimeoutZeroSSL c); ("--acme-poll-first-le", ACMEPollFirstLE c);
     ("--acme-poll-first-gts", ACMEPollFirstGTS c); ("--acme-poll-first-zerossl", ACMEPollFirstZeroSSL c);
     ("--acme-poll-interval", ACMEPollInterval c)] ++
  map (λ '(f, v), (f, v <=? MaxACMEAttemptTimeout))
    [("--acme-attempt-timeout-le", ACMEAttemptTimeoutLE c); ("--acme-attempt-timeout-gts", ACMEAttemptTimeoutGTS c);
     ("--acme-attempt-timeout-zerossl", ACMEAttemptTimeoutZeroSSL c)] ++
  [("--control-ping-interval", ControlPingInterval c <=? Wire.MaxControlPingInterval)].

Definition budget_flags c : list (string * string) :=
  [("--acme-budget-le-domain", ACMEBudgetLEDomain c); ("--acme-budget-le-orders", ACMEBudgetLEOrders c);
   ("--acme-budget-le-name", ACMEBudgetLEName c); ("--acme-budget-gts-orders", ACMEBudgetGTSOrders c);
   ("--acme-budget-gts-requests", ACMEBudgetGTSRequests c); ("--acme-budget-gts-cert-polls", ACMEBudgetGTSCertPolls c);
   ("--acme-budget-zerossl-orders", ACMEBudgetZeroSSLOrders c); ("--acme-budget-zerossl-requests", ACMEBudgetZeroSSLRequests c)].

Definition checks_acme c : list (string * bool) :=
  map (λ '(f, v), (f, rateOK v)) (budget_flags c) ++
  [("--acme-gts-account", validGTSAccounts (ACMEGTSAccounts c));
   ("--acme-eab-zerossl", Bool.eqb (set (ACMEEABZeroSSLKID c)) (set (ACMEEABZeroSSLHMAC c)));
   ("no ACME CA", LEEnabled c || GTSEnabled c || ZeroSSLEnabled c);
   ("--attest-status-max-stale", AttestRefresh c <? AttestStatusMaxStale c);
   ("--acme-gts-validity", wrap64 (shortlivedLifetime - ACMERenewMargin c) <? ACMEGTSValidity c);
   ("--registry-claim-settle", RegistryClaimTimeout c <? RegistryClaimSettle c);
   ("--acme-backoff-initial", ACMEBackoffInitial c <=? ACMEBackoffMax c);
   ("--acme-renew-margin", ACMERenewMargin c <? shortlivedLifetime)].

Definition checks_traffic c : list (string * bool) :=
  [("--limit-bandwidth", match ParseBitrate (LimitBandwidth c) with Ok bw => bandwidthFloorBytesPerSec <=? bw | Err _ => false end);
   ("--limit-traffic-day", sizeOK (LimitTrafficDay c)); ("--limit-traffic-week", sizeOK (LimitTrafficWeek c));
   ("--limit-conn-min-rate", sizeOK (LimitConnMinRate c)); ("--limit-conn-protect-rate", sizeOK (LimitConnProtectRate c));
   ("--limit-enroll-body", sizeOK (LimitEnrollBody c));
   ("--limit-traffic-week", bytes_of (LimitTrafficDay c) <=? bytes_of (LimitTrafficWeek c));
   ("--attestation-optional", negb (AttestationOptional c) || String.eqb (Getenv "TUNNELD_ALLOW_ATTESTATION_OPTIONAL") "1");
   ("--log", ParseSpecs (Log c))].

Definition checks c : list (string * bool) :=
  checks_names c ++ checks_serve c ++ checks_limits c ++ checks_acme c ++ checks_traffic c.

Fixpoint first_failure (l : list (string * bool)) : option string :=
  match l with [] => None | (f, ok) :: l' => if ok : bool then first_failure l' else Some f end.

(** [None] when the configuration is accepted, or the flag that is refused. *)
Definition Validate c : option string := first_failure (checks c).

(** ** What a validated configuration guarantees *)
Lemma first_failure_None l : first_failure l = None → ∀ i f b, l !! i = Some (f, b) → b = true.
Proof.
  induction l as [|[f0 b0] l IH]; [done|]. cbn [first_failure]. destruct b0; [|done]. intros Hn [|i] f b; [by intros [= <- <-]|].
  by apply IH.
Qed.

Lemma first_failure_app l1 l2 : first_failure (l1 ++ l2) = None → first_failure l1 = None ∧ first_failure l2 = None.
Proof. induction l1 as [|[f b] l1 IH]; [done|]. cbn [first_failure app]. by destruct b. Qed.

Lemma validGTSAccounts_spec ids : ∀ seen, validGTSAccounts_from seen ids = true →
  NoDup ids ∧ ∀ id, id ∈ ids → id ∉ seen ∧ id ≠ "letsencrypt" ∧ id ≠ "zerossl" ∧ gtsAccountRe id = true.
Proof.
  induction ids as [|id ids IH]; intros seen; cbn [validGTSAccounts_from]; [intros _; split; [constructor|set_solver]|].
  rewrite !andb_true_iff, !negb_true_iff, orb_false_iff, !String.eqb_neq, bool_decide_eq_false.
  intros [[[Hre [Hle Hz]] Hseen] Hrest]. destruct (IH (id :: seen) Hrest) as [Hnd Hall]. split.
  - constructor; [|done]. intros Hin. destruct (Hall id Hin) as [Hn _]. set_solver.
  - intros id' [->|Hin]%elem_of_cons; [done|]. destruct (Hall id' Hin) as (Hn & ?). split; [set_solver|done].
Qed.

Definition good_rate (r : Rate) : Prop := 0 < r_Count r ∧ 0 < r_Period r ∧ 0 < r_Burst r.

Lemma ParseRate_good s r : ParseRate s = Ok r → good_rate r.
Proof.
  assert (∀ t n, positive_int t = Some n → 0 < n) as Hpos.
  { intros t n. unfold positive_int. destruct (ParseInt t) as [m|]; [|done]. destruct (Z.ltb_spec m 1); [done|]. intros [= <-]. lia. }
  unfold ParseRate. destruct (CutByte (TrimSpace s) ":") as [[sp burst] hasBurst]. destruct (CutByte sp "/") as [[count period] ok].
  destruct ok; [|done]. cbn [negb]. destruct (positive_int count) as [n|] eqn:En; [|done].
  destruct (ParseDuration period) as [d|]; [|done]. destruct (Z.leb_spec d 0); [done|]. apply Hpos in En.
  destruct hasBurst; [|by intros [= <-]]. destruct (positive_int burst) as [b|] eqn:Eb; [|done]. apply Hpos in Eb.
  by intros [= <-].
Qed.

Lemma hostPort_public ip listen : hostPort listen = true → is_Some (publicAddr ip listen).
Proof. unfold hostPort, publicAddr. rewrite bool_decide_eq_true. intros [[h p] ->]. by eexists. Qed.

Lemma numericPort_hostPort listen : numericPort listen = true → hostPort listen = true.
Proof. unfold numericPort, hostPort. intros Hn. apply bool_decide_eq_true. destruct (SplitHostPort listen) as [[h p]|]; [by eexists|done]. Qed.

(** What the components rely on. *)
Record runnable c : Prop := {
  rn_label : 6 ≤ NameLength c ≤ 32 ∧ Z.of_nat (String.length (NamePrefix c)) + NameLength c ≤ 63;
  rn_hosts : EqualFold (EnrollHost c) (ControlHost c) = false;
  rn_limits : 1 ≤ MaxClients c ∧ 1 ≤ LimitConcurrent c ∧ 1 ≤ LimitPackets c ∧ 1 ≤ LimitConnRate c ∧ 1 ≤ LimitStreamPending c ∧
    1 ≤ IssuePerWeek c ∧ 1 ≤ LimitEnrollHour c ∧ 1 ≤ LimitEnrollMinute c;
  rn_backoff : 0 < ACMEBackoffInitial c ≤ ACMEBackoffMax c ∧ 0 < ACMECooldownDefault c;
  rn_budgets : Forall (λ fv, ∃ r, ParseRate fv.2 = Ok r ∧ good_rate r) (budget_flags c);
  rn_accounts : NoDup (ACMEGTSAccounts c) ∧ "letsencrypt" ∉ ACMEGTSAccounts c ∧ "zerossl" ∉ ACMEGTSAccounts c;
  rn_some_ca : LEEnabled c || GTSEnabled c || ZeroSSLEnabled c = true;
  rn_ping : 0 < ControlPingInterval c ∧ 3 * ControlPingInterval c ≤ Wire.ControlSilenceTimeout;
  rn_bandwidth : ∃ bw, ParseBitrate (LimitBandwidth c) = Ok bw ∧ Wire.ChunkSize ≤ bw;
  rn_traffic : ∃ day week, ParseByteSize (LimitTrafficDay c) = Ok day ∧ ParseByteSize (LimitTrafficWeek c) = Ok week ∧ 1 ≤ day ≤ week;
  rn_timeouts : ACMEAttemptTimeoutLE c ≤ MaxACMEAttemptTimeout ∧ ACMEAttemptTimeoutGTS c ≤ MaxACMEAttemptTimeout ∧
    ACMEAttemptTimeoutZeroSSL c ≤ MaxACMEAttemptTimeout;
  rn_redis : ParseRedisURL (RedisURL c) = true;
  rn_sizes : ∃ minRate protect body, ParseByteSize (LimitConnMinRate c) = Ok minRate ∧
    ParseByteSize (LimitConnProtectRate c) = Ok protect ∧ ParseByteSize (LimitEnrollBody c) = Ok body ∧
    1 ≤ minRate ∧ 1 ≤ protect ∧ 1 ≤ body;
  rn_claim : 0 < RegistryClaimTimeout c < RegistryClaimSettle c;
  rn_attest : 0 < AttestRefresh c < AttestStatusMaxStale c ∧
    (AttestationOptional c = true → Getenv "TUNNELD_ALLOW_ATTESTATION_OPTIONAL" = "1");
  rn_dialback : (DialBackMTLS c = true → DialBackHTTPS c = true) ∧ is_Some (EdgePublicAddr c) ∧ is_Some (DialBackAddr c)
}.

Lemma sizeOK_bytes s : sizeOK s = true → ParseByteSize s = Ok (bytes_of s) ∧ 1 ≤ bytes_of s.
Proof. unfold sizeOK, bytes_of. destruct (ParseByteSize s) as [n|]; [|done]. intros Hn%Z.leb_le. done. Qed.

(** The check at a position of its list, as a comparison. *)
Ltac check H i :=
  first [exact (proj1 (Z.leb_le _ _) (H i _ _ eq_refl)) | exact (proj1 (Z.ltb_lt _ _) (H i _ _ eq_refl))].

(** What fail-fast validation buys: accepted flags are runnable. *)
Lemma validated_config_is_runnable c : Validate c = None → runnable c.
Proof.
  intros Hv. unfold Validate, checks in Hv.
  apply first_failure_app in Hv as [Hn Hv]. apply first_failure_app in Hv as [Hs Hv].
  apply first_failure_app in Hv as [Hl Hv]. apply first_failure_app in Hv as [Ha Ht].
  pose proof (first_failure_None _ Hn) as Hn'. pose proof (first_failure_None _ Hs) as Hs'. pose proof (first_failure_None _ Hl) as Hl'.
  pose proof (first_failure_None _ Ha) as Ha'. pose proof (first_failure_None _ Ht) as Ht'. clear Hn Hs Hl Ha Ht.
  split.
  - pose proof (Hn' 0%nat _ _ eq_refl) as H0. pose proof (Hn' 1%nat _ _ eq_refl) as H1.
    apply andb_true_iff in H0 as [?%Z.leb_le ?%Z.leb_le]. apply Z.leb_le in H1. done.
  - pose proof (Hn' 13%nat _ _ eq_refl) as H13. by apply negb_true_iff in H13.
  - split_and!; [check Hl' 0%nat|check Hl' 1%nat
      |check Hl' 2%nat|check Hl' 3%nat
      |check Hl' 4%nat|check Hl' 5%nat
      |check Hl' 6%nat|check Hl' 7%nat].
  - split_and!; [check Hl' 18%nat|check Ha' 14%nat
      |check Hl' 17%nat].
  - apply Forall_forall. intros [f v] Hin. apply list_elem_of_lookup in Hin as [i Hi].
    assert (rateOK v = true) as Hr.
    { apply (Ha' i f). unfold checks_acme. apply lookup_app_l_Some. by rewrite list_lookup_fmap, Hi. }
    unfold rateOK in Hr. simpl. destruct (ParseRate v) as [r|] eqn:Er; [|done]. exists r. split; [done|]. by eapply ParseRate_good.
  - destruct (validGTSAccounts_spec _ [] (Ha' 8%nat _ _ eq_refl)) as [Hnd Hall]. split_and!; [done| |];
      intros Hin; by destruct (Hall _ Hin) as (_ & ? & ? & _).
  - apply (Ha' 10%nat _ _ eq_refl).
  - pose proof (proj1 (Z.leb_le _ _) (Hl' 38%nat _ _ eq_refl)). unfold Wire.ControlSilenceTimeout.
    split; [check Hl' 27%nat|lia].
  - pose proof (Ht' 0%nat _ _ eq_refl) as Hb. destruct (ParseBitrate (LimitBandwidth c)) as [bw|]; [|done].
    exists bw. split; [done|]. by apply Z.leb_le.
  - destruct (sizeOK_bytes _ (Ht' 1%nat _ _ eq_refl)) as [E1 B1]. destruct (sizeOK_bytes _ (Ht' 2%nat _ _ eq_refl)) as [E2 B2].
    exists (bytes_of (LimitTrafficDay c)), (bytes_of (LimitTrafficWeek c)). split_and!; [done..|].
    check Ht' 6%nat.
  - split_and!; [check Hl' 35%nat|check Hl' 36%nat|check Hl' 37%nat].
  - apply (Hn' 14%nat _ _ eq_refl).
  - destruct (sizeOK_bytes _ (Ht' 3%nat _ _ eq_refl)) as [E1 B1]. destruct (sizeOK_bytes _ (Ht' 4%nat _ _ eq_refl)) as [E2 B2].
    destruct (sizeOK_bytes _ (Ht' 5%nat _ _ eq_refl)) as [E3 B3]. eexists _, _, _. split_and!; done.
  - split; [check Hl' 13%nat|check Ha' 13%nat].
  - split; [split; [check Hl' 15%nat|check Ha' 11%nat]|].
    intros Ho. pose proof (Ht' 7%nat _ _ eq_refl) as H7. rewrite Ho in H7. by apply String.eqb_eq.
  - pose proof (Hs' 16%nat _ _ eq_refl) as Hm. split_and!.
    + intros Hd. rewrite Hd in Hm. done.
    + apply hostPort_public, (Hn' 4%nat _ _ eq_refl).
    + unfold DialBackAddr. destruct (DialBackHTTPS c) eqn:Hd; [apply hostPort_public, (Hn' 4%nat _ _ eq_refl)|].
      pose proof (Hs' 11%nat _ _ eq_refl) as Hp. rewrite Hd in Hp. by apply hostPort_public, numericPort_hostPort.
Qed.
End validate.

Lemma duration_examples :
  ParseDuration "15.2s" = Some 15200000000 ∧ ParseDuration "1h30m" = Some (90 * minute) ∧ ParseDuration "168h" = Some (168 * hour) ∧
  ParseDuration "-1.5ms" = Some (-1500000) ∧ ParseDuration "3" = None ∧ ParseDuration "9223372036854775807ns" = Some max_int64 ∧
  ParseDuration "9223372036854775808ns" = None ∧ ParseRate "200/1h:40" = Ok (MkRate 200 hour 40) ∧
  ParseRate "120/1m" = Ok (MkRate 120 minute 120) ∧ ParseRate "0/1m" = Err RateCount.
Proof. vm_compute. by split_and!. Qed.

(** ** The defaults, with what has none filled in *)
#[local] Instance sample_config_env : ConfigEnv := {
  SplitHostPort s := let '(h, p, ok) := CutByte s ":" in if ok : bool then Some (h, p) else None;
  stat _ := StatDir;
  ParseAddr _ := Some (false, "");
  NewDsn _ := true;
  Getenv _ := "";
  fold_unicode := String.eqb;
  has_master_name _ := Some false;
  parse_single _ := true;
  parse_failover _ := None;
  config_case := {| unicode_lower := id; unicode_upper := id |}
}.

Definition default_config : ServeCmd := {|
  Listen := ":443"; InternalListen := ":9090"; TunnelDomain := "example.test"; EnrollHost := "enroll.example.test";
  ControlHost := "connect.example.test"; NamePrefix := ""; NameLength := 10; PublicIP := "192.0.2.1"; DialBackHTTPS := true;
  DialBackMTLS := true; MeshListen := ":9443"; MeshAdvertise := "10.0.0.1:9443"; MeshPoolSize := 4; MeshCertTTL := 24 * hour;
  MaxClients := 10000; RedisURL := "redis://localhost:6379/0"; CACert := "ca.pem"; CAKey := "ca.key"; CertValidity := 1440 * hour;
  S3Endpoint := "https://s3.example.test"; S3Region := "us-east-1"; S3Bucket := "b"; S3AccessKey := "k"; S3SecretKey := "s"; S3ForcePathStyle := true; ConnLogDir := "/log";
  RegistryClaimTimeout := 3 * second; RegistryClaimSettle := 5 * second;
  AttestSignerDigestFile := "signers"; AttestRootURL := "https://android.googleapis.com/attestation/root";
  AttestStatusURL := "https://android.googleapis.com/attestation/status"; AttestRefresh := hour; AttestStatusMaxStale := 24 * hour;
  AttestationOptional := false;
  ACMEDirLE := "https://acme-v02.api.letsencrypt.org/directory"; ACMEDirGTS := "https://dv.acme-v02.api.pki.goog/directory";
  ACMEDirZeroSSL := "https://acme.zerossl.com/v2/DV90"; ACMEEmail := "a@example.test"; ACMELEProfile := "shortlived"; ACMEGTSValidity := 168 * hour;
  ACMEEABZeroSSLKID := ""; ACMEEABZeroSSLHMAC := ""; ACMEAccountDir := "/acme"; ACMEDNSProvider := "";
  ACMEGTSAccounts := ["gts-1"; "gts-2"];
  ACMEBudgetLEDomain := "50/168h"; ACMEBudgetLEOrders := "300/3h"; ACMEBudgetLEName := "5/168h"; ACMEBudgetGTSOrders := "100/1h";
  ACMEBudgetGTSRequests := "120/1m"; ACMEBudgetGTSCertPolls := "50/1m"; ACMEBudgetZeroSSLOrders := "200/1h:40";
  ACMEBudgetZeroSSLRequests := "240/1m";
  ACMEAttemptTimeoutLE := 20 * second; ACMEAttemptTimeoutGTS := 60 * second; ACMEAttemptTimeoutZeroSSL := 90 * second;
  ACMEPollFirstLE := 2 * second; ACMEPollFirstGTS := 3 * second; ACMEPollFirstZeroSSL := 15200 * millisecond; ACMEPollInterval := 2 * second;
  ACMEChallengeLE := "tls-alpn-01"; ACMEChallengeGTS := "tls-alpn-01"; ACMEChallengeZeroSSL := "http-01"; ACMEHTTPListen := ":80";
  ACMEDNSResolvers := []; ACMEDNSSkipPropagationCheck := false;
  ACMECooldownDefault := hour; ACMEBackoffInitial := minute; ACMEBackoffMax := 6 * hour; ACMERenewMargin := 48 * hour; IssuePerWeek := 3;
  LimitTrafficDay := "1gb"; LimitTrafficWeek := "4gb"; LimitConnRate := 10; LimitStreamPending := 64; LimitDialBackTimeout := 10 * second;
  LimitConnIdle := 120 * second; LimitConnMinRate := "2kb"; LimitConnMinGrace := 60 * second; LimitConnEvictIdle := 10 * second;
  LimitConnProtectRate := "256kb"; HandshakeTimeout := 10 * second; ControlPingInterval := 30 * second; RouteTTL := 30 * second;
  DBIPCountryLiteCSV := ""; BanFile := []; BanPoll := 10 * second; LimitBandwidth := "1mbit"; LimitPackets := 100; LimitConcurrent := 4; LimitEnrollHour := 20;
  LimitEnrollMinute := 2; LimitEnrollBody := "16kb"; PredrainWait := 0; ShutdownGrace := 15 * second; Log := ["output=std;level=info"];
  SentryDSN := ""; SentryEnvironment := "production"; SentryTracesSampleRate := of_int 1
|}.

Lemma validated_config_is_runnable_witness : runnable default_config.
Proof. apply (validated_config_is_runnable default_config). vm_compute. reflexivity. Defined.
End ServeConfig.
