(* ===== verification/AcmeTransport.v ===== *)
(** * The budget transport

    [internal/acme/transport.go]: every HTTP request an ACME client sends goes
    through [RoundTrip], which waits out the account's cooldown, paces polls of
    a finalized order, takes the request's budgets (a prepaid request pays for
    one of them), sends the request, and reads what the answer says about rate
    limits and about the order.

    [TransportDeps] is the interface to the limiter, the clock, the network and
    the order's context; the methods are state-passing functions over it and the
    order's track.  The waiting loop of [before] ends when its environment lets
    it: it takes the number of turns as fuel, and [None] is a request that is
    still waiting after them. *)
From Stdlib Require Import ZArith Lia Ascii String Floats.SpecFloat.
From S2P Require Import Prelude GoStr GoFloat Acme.
Local Open Scope string_scope.
Local Open Scope list_scope.
Local Open Scope Z_scope.

Module AcmeTransport.
Import GoFloat Acme.

(** ** Requests and answers *)
Record request := Request { rq_method : string; rq_url : string; rq_path : string }.

(** An answer: its status, the headers the transport reads or changes, and what
    reading its body gives. *)
Record response := Response {
  rp_status : Z;
  rp_retryAfter : string;
  rp_location : string;
  rp_contentType : string;
  rp_links : list string;
  rp_body : option string
}.

Inductive trip_error :=
| errOrderAbandoned | errAccountCooling | errAccountBudget
| ErrContext             (* the context's cause *)
| ErrSend                (* the network's error *)
| ErrBody.               (* the body could not be read *)

(** How a sleep ends. *)
Inductive sleep_end := Slept | SleepContext | SleepAbandoned.

Class TransportDeps (E : Type) := {
  td_CAWaitState : E → result unit (Z * string) * E;
  td_TakeACME : list Bucket → E → result unit Z * E;
  td_ResyncACME : list Bucket → Z → E → E;
  td_SetCACooldown : Z → E → E;
  td_MarkCALimited : E → E;
  td_wait : Z → E → sleep_end * E;
  td_abandoned : E → bool * E;
  td_now : E → Z * E;
  td_send : request → E → result unit response * E
}.

(** [encoding/json] on the two fields the transport reads, and [http.ParseTime]. *)
Class AnswerText := {
  problem_detail : string → string;
  order_finalize : string → option string;
  ParseHTTPTime : string → option Z
}.

(** ** Retry-After *)
Definition retryAfter `{AnswerText} (v : string) (now : Z) : result unit Z :=
  let v := TrimSpace v in
  if String.eqb v "" then Ok 0
  else match ParseInt v with
       | Ok sec => Ok (wrap64 (sec * second))
       | Err _ => match ParseHTTPTime v with
                  | None => Err tt
                  | Some at_ => Ok (Z.max min_int64 (Z.min max_int64 (at_ - now)))
                  end
       end.

Definition validationPoll (ca : string) : string := if String.eqb ca CAGTS then "2" else "1".

(** ** Alternate chains

    [linkValue] is [<[^>]*>[^<]*]: from the first "<" that has a ">" after it up
    to the next "<". *)
Fixpoint until_byte (c : ascii) (s : string) : string * string :=
  match s with
  | "" => ("", "")
  | String d s' => if Ascii.eqb d c then ("", s) else let '(a, b) := until_byte c s' in (String d a, b)
  end.

Fixpoint link_values (fuel : nat) (s : string) : list string :=
  match fuel with
  | O => []
  | S fuel' =>
      let '(_, s1) := until_byte "<" s in
      let '(url, s2) := until_byte ">" s1 in
      match s2 with
      | "" => []
      | String gt s3 =>
          let '(params, s4) := until_byte "<" s3 in
          (url +:+ String gt "" +:+ params) :: link_values fuel' s4
      end
  end.

(** [strings.TrimRight(s, ",")] *)
Fixpoint trim_right_commas (s : string) : string :=
  match s with
  | "" => ""
  | String c s' =>
      match trim_right_commas s' with
      | "" => if Ascii.eqb c "," then "" else String c ""
      | t => String c t
      end
  end.

(** The bytes [\s] matches. *)
Definition is_re_space (c : ascii) : bool :=
  let z := cZ c in (z =? 32) || (z =? 9) || (z =? 10) || (z =? 12) || (z =? 13).
Fixpoint skip_re_space (s : string) : string :=
  match s with "" => "" | String c s' => if is_re_space c then skip_re_space s' else s end.

Definition rel_alternate : string := "rel=" +:+ quote +:+ "alternate" +:+ quote.

(** [;\s*rel="alternate"] somewhere in the text. *)
Fixpoint alternateRel (s : string) : bool :=
  match s with
  | "" => false
  | String c s' => (Ascii.eqb c ";" && HasPrefix (skip_re_space s') rel_alternate) || alternateRel s'
  end.

Definition link_texts (v : string) : list string :=
  map (λ lv, TrimSpace (trim_right_commas (TrimSpace lv))) (link_values (String.length v) v).

Definition dropAlternateChains (r : response) : response :=
  if negb (HasPrefix (rp_contentType r) "application/pem-certificate-chain") then r
  else Response (rp_status r) (rp_retryAfter r) (rp_location r) (rp_contentType r)
         (List.filter (λ lv, negb (alternateRel lv)) (flat_map link_texts (rp_links r))) (rp_body r).

Definition with_retryAfter (v : string) (r : response) : response :=
  Response (rp_status r) v (rp_location r) (rp_contentType r) (rp_links r) (rp_body r).

Record budgetTransport := Transport {
  bt_acct : account; bt_budgets : Budgets;
  bt_cooldown : Z; bt_firstPoll : Z; bt_pollEvery : Z
}.

(** ** What a request does, as a trace *)
Inductive tevent :=
| TWait (known : bool) (cool : Z)      (* the account's wait state was read *)
| TSlept (d : Z)
| TTook (bs : list Bucket) (ok : bool) (* budgets taken, or the check failed *)
| TDropped (n : Z)
| TSent (q : request) (at_ : Z)
| TLimited (d : Z)                     (* a 429: the cooldown that was set *)
| TMark | TResync (bs : list Bucket) (d : Z).

Section transport.
Context {E : Type} `{TransportDeps E} `{AnswerText} `{PublicSuffix} `{UnicodeCase} (t : budgetTransport).

(** The environment, the order's track and the trace. *)
Record tstate := TState { ts_env : E; ts_track : orderTrack; ts_trace : list tevent }.
Definition M A := tstate → A * tstate.
Definition ret {A} (a : A) : M A := λ s, (a, s).
Definition bind {A B} (m : M A) (f : A → M B) : M B := λ s, let '(a, s') := m s in f a s'.
Definition dep {A} (f : E → A * E) : M A := λ s, let '(a, e) := f (ts_env s) in (a, TState e (ts_track s) (ts_trace s)).
Definition act (f : E → E) : M unit := λ s, (tt, TState (f (ts_env s)) (ts_track s) (ts_trace s)).
Definition emit (e : tevent) : M unit := λ s, (tt, TState (ts_env s) (ts_track s) (ts_trace s ++ [e])).
Definition on_track {A} (f : orderTrack → A * orderTrack) : M A := λ s,
  let '(a, tr) := f (ts_track s) in (a, TState (ts_env s) tr (ts_trace s)).
Definition track_of {A} (f : orderTrack → A) : M A := λ s, (f (ts_track s), s).
Notation "'let!' x ':=' m 'in' k" := (bind m (λ x, k)) (at level 200, x pattern, right associativity).

Definition waitState : M (Z * string * bool) :=
  let! r := dep td_CAWaitState in
  let x := match r with Err _ => (0, "", false) | Ok (cool, mark) => (cool, mark, true) end in
  let! _ := emit (TWait x.2 x.1.1) in ret x.

(** [None] when the sleep ran its time. *)
Definition sleep (d : Z) : M (option trip_error) :=
  if d <=? 0 then ret None
  else
    let! r := dep (td_wait d) in
    match r with
    | Slept => let! _ := emit (TSlept d) in ret None
    | SleepContext => ret (Some ErrContext)
    | SleepAbandoned => ret (Some errOrderAbandoned)
    end.

(** The budgets were taken (or the check failed), or how long to wait. *)
Definition take (bs : list Bucket) : M (option Z) :=
  let! r := dep (td_TakeACME bs) in
  match r with
  | Err _ => let! _ := emit (TTook bs false) in ret None
  | Ok wait => if 0 <? wait then ret (Some wait) else let! _ := emit (TTook bs true) in ret None
  end.

(** ** Before a request of no order *)
Definition before_untracked (q : request) : M (option trip_error) :=
  let! x := waitState in
  let '(cool, _, _) := x in
  if 0 <? cool then ret (Some errAccountCooling)
  else
    let! w := take (requestBuckets (bt_budgets t) (bt_acct t) (rq_path q)) in
    ret match w with Some _ => Some errAccountBudget | None => None end.

(** ** Before a request of an order *)

(** The turns of the loop.  A turn first sleeps out a cooldown, then waits for
    the next poll, then pays. *)
Fixpoint before_loop (fuel : nat) (q : request) (poll : bool) (bs : list Bucket) (x : Z * string * bool)
    : M (option (result trip_error bool)) :=
  match fuel with
  | O => ret None
  | S fuel' =>
      let again d :=
        let! e := sleep d in
        match e with
        | Some e => ret (Some (Err e))
        | None => let! x := waitState in before_loop fuel' q poll bs x
        end in
      let '(cool, mark, known) := x in
      if 0 <? cool then again cool
      else
        let! due := (if poll : bool
                     then let! at_ := track_of (pollDue (bt_firstPoll t) (bt_pollEvery t)) in
                          let! n := dep td_now in ret (at_ - n)
                     else ret 0) in
        if 0 <? due then again due
        else
          let! n := on_track (dropPrepaid mark known) in
          let! _ := if 0 <? n then emit (TDropped n) else ret tt in
          let! key := on_track usePrepaid in
          let charge := match key with
                        | Some k => List.filter (λ b, negb (String.eqb (b_Key b) k)) bs
                        | None => bs
                        end in
          let paid := bool_decide (is_Some key) in
          let! w := take charge in
          match w with
          | None =>
              let! _ := if poll : bool then let! n := dep td_now in on_track (λ tr, (tt, markPoll n tr)) else ret tt in
              ret (Some (Ok paid))
          | Some wait =>
              let! _ := if paid then on_track (λ tr, (tt, returnPrepaid tr)) else ret tt in
              again wait
          end
  end.

Definition before (fuel : nat) (q : request) : M (option (result trip_error bool)) :=
  let! gone := dep td_abandoned in
  if gone : bool then ret (Some (Err errOrderAbandoned))
  else
    let! x := waitState in
    let! poll := track_of (isPoll (rq_url q)) in
    before_loop fuel q poll (requestBuckets (bt_budgets t) (bt_acct t) (rq_path q)) x.

(** ** Sending *)
Definition send (q : request) : M (result trip_error response) :=
  let! n := dep td_now in
  let! _ := emit (TSent q n) in
  let! r := dep (td_send q) in
  ret match r with Ok resp => Ok resp | Err _ => Err ErrSend end.

(** ** A 429 *)
Definition rateLimited (tracked : bool) (resp : response) : M (result trip_error response) :=
  let! n := dep td_now in
  let d := match retryAfter (rp_retryAfter resp) n with Ok d => d | Err _ => 0 end in
  let d := if d <=? 0 then bt_cooldown t else d in
  let! _ := emit (TLimited d) in
  let! _ := act (td_SetCACooldown d) in
  let! _ := emit TMark in
  let! _ := act td_MarkCALimited in
  match rp_body resp with
  | None => ret (Err ErrBody)
  | Some raw =>
      let! tr := track_of (λ tr, (t_name tr, t_domain tr)) in
      let bs := resyncBuckets (bt_budgets t) (bt_acct t) (problem_detail raw) (if tracked then Some tr else None) in
      let! _ := emit (TResync bs d) in
      let! _ := act (td_ResyncACME bs d) in
      let! _ := emit TMark in
      let! _ := act td_MarkCALimited in
      ret (Ok resp)
  end.

(** ** What an answer says about the order *)
Definition observe (q : request) (resp : response) : M (result trip_error response) :=
  let! fin := track_of (isFinalize (rq_url q)) in
  if fin : bool then
    let! _ := if Z.quot (rp_status resp) 100 =? 2
              then let! n := dep td_now in on_track (λ tr, (tt, markFinalized n tr)) else ret tt in
    ret (Ok resp)
  else
    let! has := track_of t_created in
    if negb (rp_status resp =? 201) || String.eqb (rp_location resp) "" || has then ret (Ok resp)
    else
      match rp_body resp with
      | None => ret (Err ErrBody)
      | Some raw =>
          match order_finalize raw with
          | None => ret (Ok resp)
          | Some fin =>
              let! _ := if negb (String.eqb fin "") then on_track (λ tr, (tt, setOrder (rp_location resp) fin tr)) else ret tt in
              ret (Ok resp)
          end
      end.

(** ** A round trip *)
Definition roundTrip_untracked (q : request) : M (result trip_error response) :=
  let! e := before_untracked q in
  match e with
  | Some e => ret (Err e)
  | None =>
      let! r := send q in
      match r with
      | Err e => ret (Err e)
      | Ok resp => if rp_status resp =? 429 then rateLimited false resp else ret (Ok resp)
      end
  end.

Definition answered (q : request) (sent : sentRequest) (resp : response) : M (result trip_error response) :=
  let! r :=
    if rp_status resp =? 429 then rateLimited true resp
    else
      let! r := observe q resp in
      ret match r with
          | Ok resp =>
              if Z.quot (rp_status resp) 100 =? 2 then
                let resp := if String.eqb (rp_retryAfter resp) "" then with_retryAfter (validationPoll (a_ca (bt_acct t))) resp else resp in
                Ok (dropAlternateChains resp)
              else Ok resp
          | Err e => Err e
          end in
  let! _ := if is_ok r then on_track (λ tr, (tt, markAnswered sent tr)) else ret tt in
  ret r.

Definition roundTrip (fuel : nat) (q : request) : M (option (result trip_error response)) :=
  let! b := before fuel q in
  match b with
  | None => ret None
  | Some (Err e) => ret (Some (Err e))
  | Some (Ok paid) =>
      let! sent := on_track (markSent (rq_method q) (rq_url q)) in
      let! gone := dep td_abandoned in
      if gone : bool then
        let! _ := on_track (λ tr, (tt, markAnswered sent tr)) in
        let! _ := if paid : bool then on_track (λ tr, (tt, returnPrepaid tr)) else ret tt in
        ret (Some (Err errOrderAbandoned))
      else
        let! r := send q in
        match r with
        | Err e => ret (Some (Err e))
        | Ok resp => let! r := answered q sent resp in ret (Some r)
        end
  end.
End transport.

(** ** Reading a trace *)
Definition sends (d : list tevent) : list request := flat_map (λ e, match e with TSent q _ => [q] | _ => [] end) d.
Definition drops (d : list tevent) : Z := fold_right (λ e n, match e with TDropped k => k + n | _ => n end) 0 d.
Definition waits (d : list tevent) : list Z := flat_map (λ e, match e with TWait _ c => [c] | _ => [] end) d.

Lemma sends_app a b : sends (a ++ b) = sends a ++ sends b.
Proof. apply flat_map_app. Qed.
Lemma waits_app a b : waits (a ++ b) = waits a ++ waits b.
Proof. apply flat_map_app. Qed.
Lemma drops_app a b : drops (a ++ b) = drops a + drops b.
Proof. induction a as [|e a IH]; [done|]. simpl. destruct e; simpl; rewrite ?IH; lia. Qed.

(** ** What a method does to the track and the trace *)
Section does.
Context {E : Type}.
#[local] Notation M := (M (E := E)).

Definition does {A} (tr : orderTrack) (m : M A) (Q : A → orderTrack → list tevent → Prop) : Prop :=
  ∀ s, ts_track s = tr → ∃ d, ts_trace (m s).2 = ts_trace s ++ d ∧ Q (m s).1 (ts_track (m s).2) d.

Lemma does_ret {A} tr (a : A) Q : Q a tr [] → does tr (ret a) Q.
Proof. intros HQ s <-. exists []. by rewrite app_nil_r. Qed.

Lemma does_mono {A} tr (m : M A) (Q Q' : A → orderTrack → list tevent → Prop) :
  does tr m Q → (∀ a tr' d, Q a tr' d → Q' a tr' d) → does tr m Q'.
Proof. intros Hm HQ s Hs. destruct (Hm s Hs) as (d & ? & ?). eauto. Qed.

Lemma does_bind {A B} tr (m : M A) (k : A → M B) Q1 Q :
  does tr m Q1 → (∀ a tr1 d1, Q1 a tr1 d1 → does tr1 (k a) (λ b tr2 d2, Q b tr2 (d1 ++ d2))) → does tr (bind m k) Q.
Proof.
  intros Hm Hk s Hs. unfold bind. destruct (Hm s Hs) as (d1 & E1 & Q1a). destruct (m s) as [a s1]. simpl in *.
  destruct (Hk a _ d1 Q1a s1 eq_refl) as (d2 & E2 & Q2). exists (d1 ++ d2). split; [|done]. by rewrite E2, E1, app_assoc.
Qed.

Lemma does_dep {A B} tr (f : E → A * E) (k : A → M B) Q : (∀ a, does tr (k a) Q) → does tr (bind (dep f) k) Q.
Proof.
  intros Hk s Hs. unfold bind, dep. destruct (f (ts_env s)) as [a e]. destruct (Hk a (TState e (ts_track s) (ts_trace s)) Hs) as (d & ?).
  by exists d.
Qed.

Lemma does_act {B} tr (f : E → E) (k : unit → M B) Q : does tr (k tt) Q → does tr (bind (act f) k) Q.
Proof. intros Hk s Hs. by apply (Hk (TState (f (ts_env s)) (ts_track s) (ts_trace s))). Qed.

Lemma does_emit {B} tr e (k : unit → M B) Q : does tr (k tt) (λ b tr' d, Q b tr' (e :: d)) → does tr (bind (emit e) k) Q.
Proof.
  intros Hk s Hs. destruct (Hk (TState (ts_env s) (ts_track s) (ts_trace s ++ [e])) Hs) as (d & Ed & HQ).
  exists (e :: d). split; [|done]. unfold bind, emit. rewrite Ed. symmetry. apply (app_assoc (ts_trace s) [e] d).
Qed.

Lemma does_track {A B} tr (f : orderTrack → A * orderTrack) (k : A → M B) Q :
  does (f tr).2 (k (f tr).1) Q → does tr (bind (on_track f) k) Q.
Proof.
  intros Hk s <-. unfold bind, on_track. destruct (f (ts_track s)) as [a tr']. 
  by apply (Hk (TState (ts_env s) tr' (ts_trace s))).
Qed.

Lemma does_track_end {A} tr (f : orderTrack → A * orderTrack) Q : Q (f tr).1 (f tr).2 [] → does tr (on_track f) Q.
Proof. intros HQ s <-. exists []. unfold on_track. destruct (f (ts_track s)). by rewrite app_nil_r. Qed.

Lemma does_read {A B} tr (f : orderTrack → A) (k : A → M B) Q : does tr (k (f tr)) Q → does tr (bind (track_of f) k) Q.
Proof. intros Hk s Hs. unfold bind, track_of. rewrite Hs. by apply Hk. Qed.
End does.

(** ** Waiting and paying *)
Section proofs.
Context {E : Type} `{TransportDeps E} `{AnswerText} `{PublicSuffix} `{UnicodeCase} (t : budgetTransport).

(** What waiting leaves as it was. *)
Record same_order (tr tr' : orderTrack) : Prop := {
  so_finalizeURL : t_finalizeURL tr' = t_finalizeURL tr;
  so_created : t_created tr' = t_created tr;
  so_key : t_prepaidKey tr' = t_prepaidKey tr
}.

Lemma same_order_refl tr : same_order tr tr.
Proof. done. Qed.
Lemma same_order_trans a b c : same_order a b → same_order b c → same_order a c.
Proof. intros [] []. split; congruence. Qed.

(** The buckets a request must take: all of its own, less the prepaid one. *)
Definition owed (bs : list Bucket) (key : string) (paid : bool) : list Bucket :=
  if paid then List.filter (λ b, negb (String.eqb (b_Key b) key)) bs else bs.

(** The last wait state read said that the account may go on, and every bucket
    owed was then taken (or could not be checked). *)
Definition allowed (bs : list Bucket) (key : string) (paid : bool) (d : list tevent) : Prop :=
  ∃ d1 known cool d2 ok, d = d1 ++ TWait known cool :: d2 ++ [TTook (owed bs key paid) ok] ∧ cool ≤ 0 ∧ waits d2 = [].

Record waited (bs : list Bucket) (tr : orderTrack) (r : option (result trip_error bool)) (tr' : orderTrack)
    (d : list tevent) : Prop := {
  wd_order : same_order tr tr';
  wd_sends : sends d = [];
  wd_prepaid : 0 ≤ t_prepaid tr → 0 ≤ t_prepaid tr' ∧
    t_prepaid tr = t_prepaid tr' + drops d + match r with Some (Ok true) => 1 | _ => 0 end;
  wd_allowed paid : r = Some (Ok paid) → allowed bs (t_prepaidKey tr) paid d
}.

Lemma waitState_does tr :
  does tr waitState (λ x tr' d, tr' = tr ∧ ∃ known cool, d = [TWait known cool] ∧ x.1.1 = cool).
Proof.
  unfold waitState. apply does_dep. intros r. apply does_emit, does_ret. by repeat eexists.
Qed.

Lemma sleep_does tr d0 : does tr (sleep d0) (λ _ tr' d, tr' = tr ∧ sends d = [] ∧ drops d = 0 ∧ waits d = []).
Proof.
  unfold sleep. destruct (d0 <=? 0); [by apply does_ret|]. apply does_dep. intros [];
    [apply does_emit, does_ret|apply does_ret..]; done.
Qed.

Lemma take_does tr bs :
  does tr (take bs) (λ r tr' d, tr' = tr ∧ match r with None => ∃ ok, d = [TTook bs ok] | Some w => 0 < w ∧ d = [] end).
Proof.
  unfold take. apply does_dep. intros [w|]; [|apply does_emit, does_ret; eauto].
  destruct (Z.ltb_spec 0 w); [by apply does_ret|]. apply does_emit, does_ret. eauto.
Qed.

(** A prefix of events that sends nothing and may drop prepaid requests. *)
Record idle (tr tr1 : orderTrack) (d : list tevent) : Prop := {
  id_order : same_order tr tr1;
  id_sends : sends d = [];
  id_prepaid : 0 ≤ t_prepaid tr → 0 ≤ t_prepaid tr1 ∧ t_prepaid tr = t_prepaid tr1 + drops d
}.

Lemma waited_idle bs tr tr1 r tr' d0 d : idle tr tr1 d0 → waited bs tr1 r tr' d → waited bs tr r tr' (d0 ++ d).
Proof.
  intros [I1 I2 I3] [W1 W2 W3 W4]. split.
  - by eapply same_order_trans.
  - by rewrite sends_app, I2, W2.
  - intros Hp. destruct (I3 Hp) as [Hp1 E1]. destruct (W3 Hp1) as [Hp2 E2]. rewrite drops_app. split; [done|lia].
  - intros paid Hr. destruct (W4 paid Hr) as (d1 & kn & c & d2 & ok & -> & Hc & Hw).
    rewrite (so_key _ _ I1). exists (d0 ++ d1), kn, c, d2, ok. by rewrite <- app_assoc.
Qed.

Lemma idle_end bs tr tr1 d r : idle tr tr1 d → (∀ paid, r ≠ Some (Ok paid)) → waited bs tr r tr1 d.
Proof.
  intros [I1 I2 I3] Hr. split; [done|done| |by intros paid Hp; destruct (Hr paid)].
  intros Hp. destruct (I3 Hp) as [Hp1 E1]. split; [done|]. destruct r as [[[]|]|]; try lia. by destruct (Hr true).
Qed.

Lemma idle_app tr tr1 tr2 d1 d2 : idle tr tr1 d1 → idle tr1 tr2 d2 → idle tr tr2 (d1 ++ d2).
Proof.
  intros [I1 I2 I3] [J1 J2 J3]. split; [by eapply same_order_trans|by rewrite sends_app, I2, J2|].
  intros Hp. destruct (I3 Hp) as [Hp1 E1]. destruct (J3 Hp1) as [Hp2 E2]. rewrite drops_app. split; [done|lia].
Qed.

Lemma idle_quiet tr d : sends d = [] → drops d = 0 → idle tr tr d.
Proof. intros Hs Hd. split; [done|done|]. rewrite Hd. split; [done|lia]. Qed.

(** Sleep, read the wait state again, and go on. *)
Lemma again_does bs tr tr1 d0 wait k :
  idle tr tr1 d0 →
  (∀ x known, does tr1 (k x) (λ r tr' d, waited bs tr1 r tr' (TWait known x.1.1 :: d))) →
  does tr1 (bind (sleep wait) (λ e, match e with Some e => ret (Some (Err e)) | None => bind waitState k end))
    (λ r tr' d, waited bs tr r tr' (d0 ++ d)).
Proof.
  intros Hi Hk. eapply does_bind; [apply sleep_does|]. intros e tr2 d1 (-> & S1 & S2 & S3).
  assert (idle tr tr1 (d0 ++ d1)) as Hi1 by (eapply idle_app; [done|by apply idle_quiet]).
  destruct e as [e|].
  { apply does_ret. rewrite app_nil_r. by apply idle_end. }
  eapply does_bind; [apply waitState_does|]. intros x tr2 d2 (-> & known & cool & -> & <-).
  eapply does_mono; [apply Hk|]. intros r tr' d Hw. cbn beta in Hw |- *.
  rewrite (app_assoc d0 d1). by eapply waited_idle.
Qed.

Lemma dropPrepaid_idle mark known tr :
  idle tr (dropPrepaid mark known tr).2 (if 0 <? (dropPrepaid mark known tr).1 then [TDropped (dropPrepaid mark known tr).1] else []).
Proof.
  unfold dropPrepaid. destruct (_ && _); [by apply idle_quiet|]. cbn [fst snd].
  destruct (Z.ltb_spec 0 (t_prepaid tr)); (split; [done|done|]); simpl; lia.
Qed.

Lemma usePrepaid_spec tr :
  let '(key, tr1) := usePrepaid tr in
  same_order tr tr1 ∧
  match key with
  | Some k => k = t_prepaidKey tr ∧ t_prepaid tr = t_prepaid tr1 + 1 ∧ 0 ≤ t_prepaid tr1
  | None => tr1 = tr
  end.
Proof. unfold usePrepaid. destruct (Z.leb_spec (t_prepaid tr) 0); [done|]. split_and!; simpl; [done|done|lia|lia]. Qed.

Lemma owed_key bs tr key tr1 :
  usePrepaid tr = (key, tr1) →
  match key with Some k => List.filter (λ b, negb (String.eqb (b_Key b) k)) bs | None => bs end =
  owed bs (t_prepaidKey tr) (bool_decide (is_Some key)).
Proof.
  intros E1. pose proof (usePrepaid_spec tr) as Hu. rewrite E1 in Hu. destruct key as [k|]; [|done].
  by destruct Hu as (_ & -> & _).
Qed.

Lemma before_loop_does fuel q poll bs : ∀ tr x known,
  does tr (before_loop t fuel q poll bs x) (λ r tr' d, waited bs tr r tr' (TWait known x.1.1 :: d)).
Proof.
  induction fuel as [|fuel IH]; intros tr [[cool mark] kn] known; cbn [before_loop fst].
  { apply does_ret, idle_end; [by apply idle_quiet|done]. }
  assert (∀ x known, does tr (before_loop t fuel q poll bs x) (λ r tr' d, waited bs tr r tr' (TWait known x.1.1 :: d))) as IHtr by auto.
  destruct (Z.ltb_spec 0 cool) as [_|Hcool].
  { apply (again_does bs tr tr [TWait known cool]); [by apply idle_quiet|done]. }
  eapply (does_bind _ _ _ (λ _ tr' d, tr' = tr ∧ d = [])).
  { destruct poll; [|by apply does_ret]. apply does_read, does_dep. intros n. by apply does_ret. }
  intros due tr0 d0 [-> ->]. cbn [app]. destruct (0 <? due).
  { apply (again_does bs tr tr [TWait known cool]); [by apply idle_quiet|done]. }
  apply does_track. pose proof (dropPrepaid_idle mark kn tr) as Hdrop.
  destruct (dropPrepaid mark kn tr) as [n tr1]. cbn [fst snd] in *.
  eapply (does_bind _ _ _ (λ _ tr' d, tr' = tr1 ∧ d = (if 0 <? n then [TDropped n] else []))).
  { destruct (0 <? n); [apply does_emit|]; by apply does_ret. }
  intros [] tr1' dd [-> ->]. set (dd := if 0 <? n then [TDropped n] else []) in *.
  assert (idle tr tr1 (TWait known cool :: dd)) as Hi1 by (apply (idle_app tr tr tr1 [_]); [by apply idle_quiet|done]).
  assert (waits dd = []) as Hdd by (unfold dd; by destruct (0 <? n)).
  apply does_track. pose proof (usePrepaid_spec tr1) as Huse.
  destruct (usePrepaid tr1) as [key tr2] eqn:Ekey. cbn [fst snd]. rewrite (owed_key bs tr1 key tr2 Ekey).
  assert (same_order tr1 tr2 ∧
    t_prepaid tr1 = t_prepaid tr2 + b2z (bool_decide (is_Some key)) ∧ (0 ≤ t_prepaid tr1 → 0 ≤ t_prepaid tr2)) as (So & Sp & Sn).
  { destruct key as [k|]; [|destruct Huse as [_ ->]; simpl; split_and!; [done|lia|done]].
    destruct Huse as (? & _ & ? & ?). rewrite bool_decide_true by by eexists. by split_and!. }
  clear Huse Ekey. eapply does_bind; [apply take_does|]. intros w tr3 dt (-> & Hw). destruct w as [wait|].
  - destruct Hw as [_ ->]. eapply (does_bind _ _ _ (λ _ tr' d, idle tr1 tr' [] ∧ d = [])).
    + destruct (bool_decide (is_Some key)) eqn:Ek; [apply does_track_end|apply does_ret]; (split; [|done]);
        (split; [by destruct So; split|done|]); simpl in *; lia.
    + intros [] tr4 d4 [Hi ->].
      assert (idle tr tr4 (TWait known cool :: dd)) as Hi4.
      { rewrite <- (app_nil_r (_ :: dd)). by eapply idle_app. }
      eapply does_mono; [apply (again_does bs tr tr4 (TWait known cool :: dd) wait _ Hi4)|].
      * intros x kn'. apply IH.
      * intros r tr' d Hr. exact Hr.
  - destruct Hw as [ok ->].
    eapply (does_bind _ _ _ (λ _ tr' d, d = [] ∧ same_order tr2 tr' ∧ t_prepaid tr' = t_prepaid tr2)).
    + destruct poll; [|by apply does_ret]. apply does_dep. intros m. by apply does_track_end.
    + intros [] tr4 d4 (-> & So4 & Sp4). apply does_ret. destruct Hi1 as [J1 J2 J3].
      set (took := TTook (owed bs (t_prepaidKey tr1) (bool_decide (is_Some key))) ok).
      assert (waited bs tr (Some (Ok (bool_decide (is_Some key)))) tr4 ((TWait known cool :: dd) ++ [took])) as Hend; [|exact Hend].
      split.
      * eapply same_order_trans; [|exact So4]. by eapply same_order_trans.
      * by rewrite sends_app, J2.
      * intros Hp. destruct (J3 Hp) as [Hp1 E1]. rewrite drops_app, Sp4. split; [auto|].
        change (drops [took]) with 0. destruct (bool_decide (is_Some key)); simpl in *; lia.
      * intros paid [= <-]. rewrite <- (so_key _ _ J1). exists [], known, cool, dd, ok. split_and!; [done|lia|done].
Qed.

Lemma before_does fuel q tr :
  does tr (before t fuel q) (waited (requestBuckets (bt_budgets t) (bt_acct t) (rq_path q)) tr).
Proof.
  unfold before. apply does_dep. intros [].
  { apply does_ret, idle_end; [by apply idle_quiet|done]. }
  eapply does_bind; [apply waitState_does|]. intros x tr1 d1 (-> & known & cool & -> & <-).
  apply does_read, before_loop_does.
Qed.

(** ** Sending and answers *)
Lemma send_does q tr :
  does tr (send q) (λ r tr' d, tr' = tr ∧ (∃ n, d = [TSent q n]) ∧ ∀ e, r = Err e → e = ErrSend).
Proof.
  unfold send. apply does_dep. intros n. apply does_emit, does_dep. intros r. apply does_ret.
  split_and!; [done|by eexists|]. intros e'. destruct r; by intros [= <-].
Qed.

(** What a 429 leaves in the trace. *)
Definition limited_trace (dd : Z) (d : list tevent) : Prop :=
  d = [TLimited dd; TMark] ∨ ∃ bs, d = [TLimited dd; TMark; TResync bs dd; TMark].

Lemma rateLimited_does tracked resp tr :
  does tr (rateLimited t tracked resp) (λ r tr' d, tr' = tr ∧ ∃ n dd,
    dd = (let d := match retryAfter (rp_retryAfter resp) n with Ok d => d | Err _ => 0 end in if d <=? 0 then bt_cooldown t else d) ∧
    limited_trace dd d ∧ r = match rp_body resp with Some _ => Ok resp | None => Err ErrBody end ∧
    (is_Some (rp_body resp) → ∃ bs, d = [TLimited dd; TMark; TResync bs dd; TMark])).
Proof.
  unfold rateLimited. apply does_dep. intros n. apply does_emit, does_act, does_emit, does_act.
  destruct (rp_body resp) as [raw|].
  - apply does_read, does_emit, does_act, does_emit, does_act, does_ret. split; [done|]. eexists n, _. split; [done|].
    split_and!; [right; by eexists|done|]. intros _. by eexists.
  - apply does_ret. split; [done|]. eexists n, _. split; [done|]. split_and!; [by left|done|]. by intros [].
Qed.

Lemma limited_no_sends dd d : limited_trace dd d → sends d = [] ∧ drops d = 0.
Proof. by intros [->|[bs ->]]. Qed.

Lemma observe_does q resp tr :
  does tr (observe q resp) (λ r tr' d, d = [] ∧ t_prepaid tr' = t_prepaid tr ∧ (∀ e, r = Err e → tr' = tr)).
Proof.
  unfold observe. apply does_read. destruct (isFinalize (rq_url q) tr).
  { eapply (does_bind _ _ _ (λ _ tr' d, d = [] ∧ t_prepaid tr' = t_prepaid tr)).
    - destruct (_ =? 2); [|by apply does_ret]. apply does_dep. intros n. by apply does_track_end.
    - intros [] tr1 d1 [-> Hp]. by apply does_ret. }
  apply does_read. destruct (_ || _ || _); [by apply does_ret|]. destruct (rp_body resp) as [raw|]; [|by apply does_ret].
  destruct (order_finalize raw) as [fin|]; [|by apply does_ret].
  eapply (does_bind _ _ _ (λ _ tr' d, d = [] ∧ t_prepaid tr' = t_prepaid tr)).
  - destruct (negb _); [by apply does_track_end|by apply does_ret].
  - intros [] tr1 d1 [-> Hp]. by apply does_ret.
Qed.

Lemma markAnswered_prepaid sent tr : t_prepaid (markAnswered sent tr) = t_prepaid tr.
Proof. by destruct sent. Qed.

Lemma answered_does q sent resp tr :
  does tr (answered t q sent resp) (λ r tr' d,
    sends d = [] ∧ drops d = 0 ∧ t_prepaid tr' = t_prepaid tr ∧ (∀ e, r = Err e → tr' = tr)).
Proof.
  unfold answered. eapply (does_bind _ _ _ (λ r tr' d,
    sends d = [] ∧ drops d = 0 ∧ t_prepaid tr' = t_prepaid tr ∧ (∀ e, r = Err e → tr' = tr))).
  - destruct (rp_status resp =? 429).
    + eapply does_mono; [apply rateLimited_does|]. intros r tr' d (-> & n & dd & _ & Hl & _).
      destruct (limited_no_sends dd d Hl) as [-> ->]. done.
    + eapply does_bind; [apply observe_does|]. intros r tr1 d1 (-> & Hp & He). apply does_ret. split_and!; [done..|].
      intros e. destruct r as [resp'|e']; [by destruct (_ =? 2)|]. intros [= <-]. by apply (He e').
  - intros r tr1 d1 (S1 & S2 & Sp & Se). eapply (does_bind _ _ _ (λ _ tr' d, d = [] ∧ t_prepaid tr' = t_prepaid tr1 ∧ (is_ok r = false → tr' = tr1))).
    + destruct (is_ok r); [|by apply does_ret]. apply does_track_end. split_and!; [done|apply markAnswered_prepaid|done].
    + intros [] tr2 d2 (-> & Hp2 & He2). apply does_ret. rewrite !app_nil_r. split_and!; [done|done|congruence|].
      intros e ->. rewrite He2 by done. by apply (Se e).
Qed.

(** ** Round trips *)
Record tripped (q : request) (tr : orderTrack) (r : option (result trip_error response)) (tr' : orderTrack)
    (d : list tevent) : Prop := {
  tp_paid :
    (sends d = [] ∧ (0 ≤ t_prepaid tr → 0 ≤ t_prepaid tr' ∧ t_prepaid tr = t_prepaid tr' + drops d)) ∨
    (∃ paid d1 n d2, d = d1 ++ TSent q n :: d2 ∧ sends d1 = [] ∧ sends d2 = [] ∧
       allowed (requestBuckets (bt_budgets t) (bt_acct t) (rq_path q)) (t_prepaidKey tr) paid d1 ∧
       (0 ≤ t_prepaid tr → 0 ≤ t_prepaid tr' ∧ t_prepaid tr = t_prepaid tr' + drops d + b2z paid));
  tp_lost e : r = Some (Err e) → sends d ≠ [] →
    if isFinalize (rq_url q) tr then o_finalized (outcome tr') = true
    else rq_method q = "POST" → o_created (outcome tr') = true;
  tp_ok resp : r = Some (Ok resp) → sends d = [q]
}.

Lemma markSent_prepaid method u tr : t_prepaid (markSent method u tr).2 = t_prepaid tr.
Proof. unfold markSent. destruct (isFinalize u tr); [done|]. by destruct (_ && _). Qed.

(** A request that was marked as sent and is not answered counts. *)
Lemma markSent_counts q tr :
  if isFinalize (rq_url q) tr then o_finalized (outcome (markSent (rq_method q) (rq_url q) tr).2) = true
  else rq_method q = "POST" → o_created (outcome (markSent (rq_method q) (rq_url q) tr).2) = true.
Proof.
  unfold markSent. destruct (isFinalize (rq_url q) tr); cbn; [by rewrite orb_true_r|].
  intros ->. cbn. rewrite andb_true_r. destruct (t_created tr) eqn:Hc; cbn; [by rewrite Hc|by rewrite orb_true_r].
Qed.

Lemma same_order_finalize u tr tr' : same_order tr tr' → isFinalize u tr' = isFinalize u tr.
Proof. intros [E1 _ _]. unfold isFinalize. by rewrite E1. Qed.

Lemma roundTrip_does fuel q tr : does tr (roundTrip t fuel q) (tripped q tr).
Proof.
  unfold roundTrip. eapply does_bind; [apply before_does|]. intros b tr1 d1 [W1 W2 W3 W4].
  destruct b as [[paid|e]|].
  2,3: apply does_ret; rewrite app_nil_r; split; [left|by intros; rewrite W2 in *|by intros];
       (split; [done|]); intros Hp; destruct (W3 Hp); split; [done|lia].
  assert (0 ≤ t_prepaid tr → 0 ≤ t_prepaid tr1 ∧ t_prepaid tr = t_prepaid tr1 + drops d1 + b2z paid) as Hpre.
  { intros Hp. destruct (W3 Hp) as [Hp1 E1]. by destruct paid. }
  apply does_track. pose proof (markSent_prepaid (rq_method q) (rq_url q) tr1) as Hms.
  pose proof (markSent_counts q tr1) as Hcount. rewrite (same_order_finalize _ _ _ W1) in Hcount.
  destruct (markSent (rq_method q) (rq_url q) tr1) as [sent tr2]. cbn [fst snd] in *.
  apply does_dep. intros [].
  { apply does_track. cbn [fst snd]. eapply (does_bind _ _ _ (λ _ tr' d, d = [] ∧ t_prepaid tr' = t_prepaid tr2 + b2z paid)).
    - destruct paid; [apply does_track_end|apply does_ret]; (split; [done|]); cbn; rewrite markAnswered_prepaid; lia.
    - intros [] tr3 d3 [-> Hp3]. apply does_ret. rewrite !app_nil_r. split; [left|by intros; rewrite W2 in *|done].
      split; [done|]. intros Hp. destruct (Hpre Hp). destruct paid; simpl in *; lia. }
  eapply does_bind; [apply send_does|]. intros r tr3 d3 (-> & [n ->] & Hr). destruct r as [resp|e].
  - eapply does_bind; [apply answered_does|]. intros r tr4 d4 (S1 & S2 & Sp & Se). apply does_ret. rewrite app_nil_r.
    split.
    + right. exists paid, d1, n, d4. split_and!; [done|done|done|by apply W4|]. intros Hp. destruct (Hpre Hp).
      rewrite drops_app. change (drops ([TSent q n] ++ d4)) with (drops d4). lia.
    + intros e [= ->] _. by rewrite (Se e eq_refl).
    + intros resp' _. rewrite sends_app, W2. change (sends ([TSent q n] ++ d4)) with (q :: sends d4). by rewrite S1.
  - apply does_ret. split.
    + right. exists paid, d1, n, []. split_and!; [done|done|done|by apply W4|]. intros Hp. destruct (Hpre Hp).
      rewrite drops_app. change (drops ([TSent q n] ++ [])) with 0. lia.
    + by intros e' _ _.
    + by intros resp' [=].
Qed.

(** C40. Whatever the limiter, the clock and the certificate authority answer, a round
    trip sends its request at most once. If it is sent, the last wait state read before
    it said that the account may go on (a check that fails counts as not waiting), and
    after that every bucket of the request was taken, less the one a prepaid request
    pays for, or a check of the budgets failed, and then the request is sent without
    them. The prepaid requests left are those there were, less the ones dropped and one
    if it paid for a request that was sent; a request that is not sent gives its prepaid
    request back. *)
Theorem request_paid_before_sent fuel q s :
  0 ≤ t_prepaid (ts_track s) → ts_trace s = [] →
  let '(r, s') := roundTrip t fuel q s in
  0 ≤ t_prepaid (ts_track s') ∧
  ((sends (ts_trace s') = [] ∧ t_prepaid (ts_track s) = t_prepaid (ts_track s') + drops (ts_trace s')) ∨
   (∃ paid d1 n d2, ts_trace s' = d1 ++ TSent q n :: d2 ∧ sends d1 = [] ∧ sends d2 = [] ∧
      allowed (requestBuckets (bt_budgets t) (bt_acct t) (rq_path q)) (t_prepaidKey (ts_track s)) paid d1 ∧
      t_prepaid (ts_track s) = t_prepaid (ts_track s') + drops (ts_trace s') + b2z paid)).
Proof.
  intros Hp Ht. destruct (roundTrip_does fuel q (ts_track s) s eq_refl) as (d & Ed & [[[P1 P2]|P1] _ _]); rewrite Ht in Ed;
    simpl in Ed; destruct (roundTrip t fuel q s) as [r s']; simpl in *; subst d.
  - destruct (P2 Hp) as [Hp' Hn]. split; [done|]. by left.
  - destruct P1 as (paid & d1 & n & d2 & Ed & S1 & S2 & Ha & Hn). destruct (Hn Hp) as [Hp' Hn']. split; [done|].
    right. exists paid, d1, n, d2. by split_and!.
Qed.

(** An order or finalize request that was sent and whose round trip failed counts as
    created or finalized, so that its budget is spent and not released. *)
Lemma lost_order_counts_as_created fuel q s e s' :
  roundTrip t fuel q s = (Some (Err e), s') → ts_trace s = [] → sends (ts_trace s') ≠ [] →
  if isFinalize (rq_url q) (ts_track s) then o_finalized (outcome (ts_track s')) = true
  else rq_method q = "POST" → o_created (outcome (ts_track s')) = true.
Proof.
  intros E1 Ht Hs. destruct (roundTrip_does fuel q (ts_track s) s eq_refl) as (d & Ed & [_ Hl _]).
  rewrite E1, Ht in *. simpl in *. subst d. by apply (Hl e).
Qed.

(** The seconds of a Retry-After header are taken as they are. *)
Lemma retryAfter_seconds n now : 0 ≤ n → n * second ≤ max_int64 → retryAfter (FormatInt n) now = Ok (n * second).
Proof.
  intros Hn Hm. unfold retryAfter. destruct (FormatInt_nonneg n Hn) as (Hne & Hpl & _).
  assert (n ≤ max_int64) as Hn' by (unfold second, max_int64 in *; lia).
  rewrite TrimSpace_plain by done. destruct (String.eqb_spec (FormatInt n) ""); [done|].
  rewrite ParseInt_FormatInt by done. rewrite wrap64_id; [done|]. unfold second, min_int64, max_int64 in *. lia.
Qed.

(** A 429 always leaves a positive cooldown, the one its header asks for when that is a
    number of seconds, marks the account before and after the budgets are
    resynchronised, and leaves the order alone. *)
Lemma rate_limit_recorded tracked resp s :
  0 < bt_cooldown t → ts_trace s = [] →
  let '(r, s') := rateLimited t tracked resp s in
  ts_track s' = ts_track s ∧
  ∃ d, 0 < d ∧ limited_trace d (ts_trace s') ∧
    (∀ n, rp_retryAfter resp = FormatInt n → 0 < n → n * second ≤ max_int64 → d = n * second) ∧
    (is_Some (rp_body resp) → r = Ok resp ∧ ∃ bs, TResync bs d ∈ ts_trace s').
Proof.
  intros Hc Ht. destruct (rateLimited_does tracked resp (ts_track s) s eq_refl) as (d & Ed & Htr & n & dd & Hdd & Hl & Hr & Hb).
  rewrite Ht in Ed. simpl in Ed. destruct (rateLimited t tracked resp s) as [r s']. simpl in *. subst d.
  split; [done|]. exists dd. split_and!.
  - rewrite Hdd. destruct (retryAfter (rp_retryAfter resp) n) as [d|]; simpl; [|done]. by destruct (Z.leb_spec d 0).
  - done.
  - intros m Hm Hpos Hmax. rewrite Hdd, Hm, retryAfter_seconds by lia. unfold second. zcase.
  - intros Hsome. split; [rewrite Hr; by destruct Hsome as [raw ->]|]. destruct (Hb Hsome) as [bs ->]. exists bs. set_solver.
Qed.
End proofs.

(** ** A concrete environment: the account cools down for two seconds, then one
    budget check is short by one second, and the answer is a 429. *)
Record sample_net := Net { sn_now : Z; sn_cool : Z; sn_short : nat; sn_answer : result unit response }.

#[local] Instance sample_transport : TransportDeps sample_net := {
  td_CAWaitState e := (Ok (sn_cool e, "m"), e);
  td_TakeACME _ e := match sn_short e with O => (Ok 0, e) | S n => (Ok second, Net (sn_now e) (sn_cool e) n (sn_answer e)) end;
  td_ResyncACME _ _ e := e;
  td_SetCACooldown _ e := e;
  td_MarkCALimited e := e;
  td_wait d e := (Slept, Net (sn_now e + d) (Z.max 0 (sn_cool e - d)) (sn_short e) (sn_answer e));
  td_abandoned e := (false, e);
  td_now e := (sn_now e, e);
  td_send _ e := (sn_answer e, e)
}.
#[local] Instance sample_text : AnswerText := {|
  problem_detail s := s; order_finalize s := Some s; ParseHTTPTime _ := None |}.
#[local] Instance transport_suffix : PublicSuffix := λ n, Some n.
#[local] Instance transport_case : UnicodeCase := {| unicode_lower := id; unicode_upper := id |}.

Definition transport_rate : Rate := MkRate 60 minute 20.
Definition sample_bt : budgetTransport := {|
  bt_acct := Account CAGTS "g" "main" minute;
  bt_budgets := MkBudgets "example.org" transport_rate transport_rate transport_rate transport_rate transport_rate
                  transport_rate transport_rate transport_rate;
  bt_cooldown := hour; bt_firstPoll := second; bt_pollEvery := second |}.
Definition sample_429 : response := Response 429 "120" "" "application/problem+json" [] (Some "slow down").
Definition sample_start (answer : result unit response) : tstate (E := sample_net) :=
  TState (Net 0 (2 * second) 1 answer) (setPrepaid "gts:requests:g" 9 "m" (newOrderTrack no_bucket no_bucket)) [].
Definition sample_post : request := Request "POST" "https://ca/new-order" "/new-order".

Lemma request_paid_before_sent_witness :
  let '(r, s') := roundTrip sample_bt 5 sample_post (sample_start (Ok sample_429)) in
  sends (ts_trace s') = [sample_post] ∧ t_prepaid (ts_track s') = 8 ∧ 0 ≤ t_prepaid (ts_track s').
Proof.
  pose proof (request_paid_before_sent sample_bt 5 sample_post (sample_start (Ok sample_429))) as T.
  destruct (roundTrip _ _ _ _) as [r s'] eqn:E. destruct T as [T _]; [by vm_compute|done|].
  vm_compute in E. injection E as <- <-. by split_and!.
Defined.

Lemma lost_order_counts_as_created_witness :
  ∃ s', roundTrip sample_bt 5 sample_post (sample_start (Err tt)) = (Some (Err ErrSend), s') ∧
    o_created (outcome (ts_track s')) = true.
Proof.
  destruct (roundTrip sample_bt 5 sample_post (sample_start (Err tt))) as [r s'] eqn:E.
  exists s'. pose proof E as E'. vm_compute in E. injection E as <- <-. split; [done|].
  by apply (lost_order_counts_as_created sample_bt 5 sample_post (sample_start (Err tt)) ErrSend _ E').
Defined.

Lemma rate_limit_recorded_witness :
  let '(r, s') := rateLimited sample_bt true sample_429 (sample_start (Ok sample_429)) in
  ts_track s' = ts_track (sample_start (Ok sample_429)) ∧
  ∃ d, 0 < d ∧ limited_trace d (ts_trace s') ∧
    (∀ n, rp_retryAfter sample_429 = FormatInt n → 0 < n → n * second ≤ max_int64 → d = n * second) ∧
    (is_Some (rp_body sample_429) → r = Ok sample_429 ∧ ∃ bs, TResync bs d ∈ ts_trace s').
Proof. apply (rate_limit_recorded sample_bt true sample_429 (sample_start (Ok sample_429))); done. Defined.
End AcmeTransport.
