(* ===== verification/AcmeBudget.v ===== *)
(** * The issuance budgets in Valkey

    [internal/limit/acme_budget.go]: token buckets that refill with time, kept
    as two fields of a hash, and the orders in flight of each node, kept as a
    sorted set of members by deadline.  Every read-modify-write runs under a
    lock per certificate authority; an order reserves a place in each of its
    buckets and later commits (spends a token) or releases it. *)
From Stdlib Require Import ZArith Lia Ascii String Floats.SpecFloat.
From S2P Require Import Prelude GoStr GoFloat Valkey Acme.
Local Open Scope string_scope.
Local Open Scope list_scope.
Local Open Scope Z_scope.

Module AcmeBudget.
Import GoFloat Acme.
Export ValkeyClient.

Definition budgetLockTTL : Z := 2 * second.
Definition budgetLockTries : nat := 100.
Definition budgetLockBackoff : Z := 10 * millisecond.
Definition budgetKeyMargin : Z := hour.
Definition inflightKeyMargin : Z := minute.

Inductive budget_error := ErrBudgetLockContended | BudgetCtx | BudgetRedis.

Definition budgetKey (b : Bucket) : string := "acme-budget:" +:+ b_Key b.
Definition inflightKey (b : Bucket) (node : string) : string := "acme:inflight:" +:+ b_Key b +:+ ":" +:+ node.
Definition budgetLockKey (ca : string) : string := "lock:acme-budget:" +:+ ca.

Record bucketState := BState { bs_tokens : float64; bs_at : Z }.

(** [t.Sub(u)] saturates. *)
Definition Sub (t u : Z) : Z := Z.max min_int64 (Z.min max_int64 (t - u)).

Definition one : float64 := of_int 1.
Definition zero : float64 := of_int 0.

Section buckets.
Context `{FloatLib}.
Implicit Types (b : Bucket) (s : bucketState).

Definition tokensAt b s (now : Z) : float64 :=
  if (now <? bs_at s) || (b_Refill b <=? 0) then bs_tokens s
  else fmin (b_Capacity b) (fadd (bs_tokens s) (fdiv (of_int (Sub now (bs_at s))) (of_int (b_Refill b)))).

Definition waitFor b s (now : Z) (need : float64) : Z :=
  if flt (b_Capacity b) need then b_Refill b
  else if now <? bs_at s then
    wrap64 (Sub (bs_at s) now + to_int (fmul (fsub need (bs_tokens s)) (of_int (b_Refill b))))
  else to_int (fmul (fsub need (tokensAt b s now)) (of_int (b_Refill b))).

Definition spendN b s (now : Z) (n : float64) : bucketState :=
  if now <? bs_at s then BState (fsub (bs_tokens s) n) (bs_at s) else BState (fsub (tokensAt b s now) n) now.

Definition spend b s (now : Z) : bucketState := spendN b s now one.

(** A bucket that is absent or does not read is full. *)
Definition parseBucket b (vals : list (option string)) (now : Z) : bucketState :=
  match vals with
  | [Some ts; Some as_] =>
      match ParseFloat ts, ParseInt as_ with
      | Some t, Ok at_ => BState t (at_ * millisecond)
      | _, _ => BState (b_Capacity b) now
      end
  | _ => BState (b_Capacity b) now
  end.

Definition write_ttl b s (now : Z) : Z :=
  let ttl := wrap64 (to_int (fmul (fsub (b_Capacity b) (fmin (bs_tokens s) (b_Capacity b))) (of_int (b_Refill b))) + budgetKeyMargin) in
  if now <? bs_at s then wrap64 (ttl + Sub (bs_at s) now) else ttl.

Definition writeBucket b s (now : Z) : list vcmd :=
  [HSet (budgetKey b) [("t", FormatFloat (bs_tokens s)); ("at", FormatInt (UnixMilli (bs_at s)))];
   PExpire (budgetKey b) (write_ttl b s now)].
End buckets.

Section operations.
Context {S : Type} `{ValkeyServer S} `{TokenSupply} `{FloatLib}.

(** ** The lock *)
Definition releaseBudgetLock (ca token : string) : M S unit :=
  let* r := call (Get (budgetLockKey ca)) in
  match r with
  | Err _ => ret tt
  | Ok v => if String.eqb (rstr v) token then let* _ := call (Del (budgetLockKey ca)) in ret tt else ret tt
  end.

Fixpoint lock_loop {A} (tries : nat) (ca token : string) (fn : M S (result budget_error A)) : M S (result budget_error A) :=
  match tries with
  | O => ret (Err ErrBudgetLockContended)
  | Datatypes.S n =>
      let* r := call (SetNX (budgetLockKey ca) token budgetLockTTL) in
      match r with
      | Err _ => ret (Err BudgetRedis)
      | Ok v =>
          if rbool v then
            let* x := fn in
            let* _ := releaseBudgetLock ca token in ret x
          else
            let* stop := sleep budgetLockBackoff in
            if (stop : bool) then ret (Err BudgetCtx) else lock_loop n ca token fn
      end
  end.

Definition withBudgetLock {A} (ca : string) (fn : M S (result budget_error A)) : M S (result budget_error A) :=
  let* token := mintToken in lock_loop budgetLockTries ca token fn.

(** ** Reading *)
Definition readBuckets (bs : list Bucket) (at_ : Z) : M S (result budget_error (list bucketState)) :=
  let* r := pipeline (map (λ b, HMGet (budgetKey b) ["t"; "at"]) bs) in
  ret match r with
      | Err _ => Err BudgetRedis
      | Ok rs => Ok (zip_with (λ b r, parseBucket b (rstrs r) at_) bs rs)
      end.

Definition count_cmds (live : list string) (floor : Z) (b : Bucket) : list vcmd :=
  flat_map (λ node, [ZRemRangeByScore (inflightKey b node) floor; ZCard (inflightKey b node)]) live.

(** Every other reply is a ZCARD's. *)
Fixpoint sum_cards (rs : list vreply) : Z :=
  match rs with _ :: r :: rs' => rint r + sum_cards rs' | _ => 0 end.

Fixpoint sums (n : nat) (bs : list Bucket) (rs : list vreply) : list Z :=
  match bs with [] => [] | _ :: bs' => sum_cards (take n rs) :: sums n bs' (drop n rs) end.

Definition inflightCounts (bs : list Bucket) (live : list string) (at_ : Z) : M S (result budget_error (list Z)) :=
  if bool_decide (live = []) then ret (Ok (map (λ _, 0) bs))
  else
    let* r := pipeline (flat_map (count_cmds live (UnixMilli at_)) bs) in
    ret match r with
        | Err _ => Err BudgetRedis
        | Ok rs => Ok (sums (2 * length live) bs rs)
        end.

(** ** Reserving, committing and releasing *)
Definition reserve_wait (at_ : Z) (wait : Z) (x : Bucket * (bucketState * Z)) : Z :=
  let '(b, (s, held)) := x in
  if flt (fsub (tokensAt b s at_) (of_int held)) one
  then Z.max wait (Z.max (waitFor b s at_ (fadd (of_int held) one)) second) else wait.

Definition reserve_cmds (bs : list Bucket) (node member : string) (deadline at_ : Z) : list vcmd :=
  flat_map (λ b,
    [ZAdd (inflightKey b node) (UnixMilli deadline) member;
     ExpireNX (inflightKey b node) (wrap64 (Sub deadline at_ + inflightKeyMargin));
     ExpireGT (inflightKey b node) (wrap64 (Sub deadline at_ + inflightKeyMargin))]) bs.

Definition reserve_locked (bs : list Bucket) (node member : string) (deadline : Z) (live : list string)
    : M S (result budget_error (bool * Z)) :=
  let* at_ := now in
  let* states := readBuckets bs at_ in
  match states with
  | Err e => ret (Err e)
  | Ok states =>
      let* held := inflightCounts bs live at_ in
      match held with
      | Err e => ret (Err e)
      | Ok held =>
          let wait := fold_left (reserve_wait at_) (zip bs (zip states held)) 0 in
          if 0 <? wait then ret (Ok (false, wait))
          else
            let* r := pipeline (reserve_cmds bs node member deadline at_) in
            ret match r with Err _ => Err BudgetRedis | Ok _ => Ok (true, 0) end
      end
  end.

Definition ReserveACME (ca : string) (bs : list Bucket) (node member : string) (deadline : Z) (live : list string)
    : M S (result budget_error (bool * Z)) :=
  if bool_decide (bs = []) then ret (Ok (true, 0))
  else withBudgetLock ca (reserve_locked bs node member deadline live).

Definition commit_locked (b : Bucket) (node member : string) : M S (result budget_error unit) :=
  let* at_ := now in
  let* states := readBuckets [b] at_ in
  match states with
  | Err e => ret (Err e)
  | Ok states =>
      let s := nth 0 states (BState zero 0) in
      let* r := pipeline (writeBucket b (spend b s at_) at_ ++ [ZRem (inflightKey b node) member]) in
      ret match r with Err _ => Err BudgetRedis | Ok _ => Ok tt end
  end.

Definition CommitACME (ca : string) (b : Bucket) (node member : string) : M S (result budget_error unit) :=
  withBudgetLock ca (commit_locked b node member).

Definition ReleaseACME (bs : list Bucket) (node member : string) : M S (result budget_error unit) :=
  if bool_decide (bs = []) then ret (Ok tt)
  else
    let* r := pipeline (map (λ b, ZRem (inflightKey b node) member) bs) in
    ret match r with Err _ => Err BudgetRedis | Ok _ => Ok tt end.

(** ** Requests *)
Definition take_wait (at_ : Z) (wait : Z) (x : Bucket * bucketState) : Z :=
  let '(b, s) := x in
  if flt (tokensAt b s at_) one then Z.max wait (Z.max (waitFor b s at_ one) millisecond) else wait.

Definition TakeACME (ca : string) (bs : list Bucket) : M S (result budget_error Z) :=
  if bool_decide (bs = []) then ret (Ok 0)
  else withBudgetLock ca (
    let* at_ := now in
    let* states := readBuckets bs at_ in
    match states with
    | Err e => ret (Err e)
    | Ok states =>
        let wait := fold_left (take_wait at_) (zip bs states) 0 in
        if 0 <? wait then ret (Ok wait)
        else
          let* r := pipeline (concat (zip_with (λ b s, writeBucket b (spend b s at_) at_) bs states)) in
          ret match r with Err _ => Err BudgetRedis | Ok _ => Ok 0 end
    end).

(** The requests set aside, or how long to wait. *)
Definition PrepayACME (ca : string) (b : Bucket) (n : Z) : M S (result budget_error (Z * Z)) :=
  let n := Z.min n (to_int (b_Capacity b)) in
  if n <=? 0 then ret (Ok (0, 0))
  else withBudgetLock ca (
    let* at_ := now in
    let* states := readBuckets [b] at_ in
    match states with
    | Err e => ret (Err e)
    | Ok states =>
        let s := nth 0 states (BState zero 0) in
        if flt (tokensAt b s at_) (of_int n) then ret (Ok (0, Z.max (waitFor b s at_ (of_int n)) millisecond))
        else
          let* r := pipeline (writeBucket b (spendN b s at_ (of_int n)) at_) in
          ret match r with Err _ => Err BudgetRedis | Ok _ => Ok (n, 0) end
    end).

Definition RefundACME (ca : string) (b : Bucket) (n : Z) : M S (result budget_error unit) :=
  if n <=? 0 then ret (Ok tt)
  else withBudgetLock ca (
    let* at_ := now in
    let* states := readBuckets [b] at_ in
    match states with
    | Err e => ret (Err e)
    | Ok states =>
        let s := nth 0 states (BState zero 0) in
        if at_ <? bs_at s then ret (Ok tt)
        else
          let* r := pipeline (writeBucket b (BState (fmin (b_Capacity b) (fadd (tokensAt b s at_) (of_int n))) at_) at_) in
          ret match r with Err _ => Err BudgetRedis | Ok _ => Ok tt end
    end).

(** After a 429 the buckets are empty until the certificate authority's hint. *)
Definition ResyncACME (ca : string) (bs : list Bucket) (retryAfter : Z) : M S (result budget_error unit) :=
  if bool_decide (bs = []) then ret (Ok tt)
  else withBudgetLock ca (
    let* at_ := now in
    let* r := pipeline (flat_map (λ b, writeBucket b (BState zero (at_ + wrap64 (retryAfter - b_Refill b))) at_) bs) in
    ret match r with Err _ => Err BudgetRedis | Ok _ => Ok tt end).

Definition ACMEBudgetLevel (b : Bucket) (live : list string) : M S (result budget_error float64) :=
  if fle (b_Capacity b) zero then ret (Ok zero)
  else
    let* at_ := now in
    let* states := readBuckets [b] at_ in
    match states with
    | Err e => ret (Err e)
    | Ok states =>
        let* held := inflightCounts [b] live at_ in
        match held with
        | Err e => ret (Err e)
        | Ok held =>
            let s := nth 0 states (BState zero 0) in
            ret (Ok (fmax zero (fmin one (fdiv (fsub (tokensAt b s at_) (of_int (nth 0 held 0))) (b_Capacity b)))))
        end
    end.
End operations.

(** ** Reading many keys at once *)
Section reading.
Context {S : Type} `{ValkeyServer S} `{!ValkeyLaws S} `{FloatLib}.
Implicit Types (w : world S) (s : S).

(** The same world but for what the server holds. *)
Record same_clock w w' : Prop := {
  sc_quiet : quiet w';
  sc_now : w_now w' = w_now w;
  sc_vms : w_vms w' = w_vms w;
  sc_done : w_done w' = w_done w
}.

Lemma same_clock_trans w1 w2 w3 : same_clock w1 w2 → same_clock w2 w3 → same_clock w1 w3.
Proof. intros [] []. split; congruence. Qed.

Lemma exec_list_app ms cs1 cs2 s :
  exec_list ms (cs1 ++ cs2) s =
    ((exec_list ms cs1 s).1 ++ (exec_list ms cs2 (exec_list ms cs1 s).2).1, (exec_list ms cs2 (exec_list ms cs1 s).2).2).
Proof. revert s. induction cs1 as [|c cs1 IH]; intros s; simpl; [by destruct (exec_list ms cs2 s)|]. by rewrite IH. Qed.

Definition readable (e : option entry) : Prop := is_Some (hash_of e).
Definition countable (e : option entry) : Prop := is_Some (zset_of e).

(** What the bucket's hash holds. *)
Definition bucket_fields (e : option entry) : list (option string) :=
  match hash_of e with Some (h, _) => [h !! "t"; h !! "at"] | None => [] end.
Definition bucket_at w (b : Bucket) : bucketState :=
  parseBucket b (bucket_fields (at_key w (budgetKey b))) (w_now w).

Lemma hmget_list ms bs s :
  Forall (λ b, readable (look s ms (budgetKey b))) bs →
  let r := exec_list ms (map (λ b, HMGet (budgetKey b) ["t"; "at"]) bs) s in
  r.1 = map (λ b, RStrs (bucket_fields (look s ms (budgetKey b)))) bs ∧ ∀ k, look r.2 ms k = look s ms k.
Proof.
  revert s. induction bs as [|b bs IH]; intros s Hall; [done|]. apply Forall_cons in Hall as [[h Hh] Hall].
  set (s1 := (exec ms (HMGet (budgetKey b) ["t"; "at"]) s).2).
  assert (∀ k, look s1 ms k = look s ms k) as Hs.
  { intros k. unfold s1. destruct (decide (k = budgetKey b)) as [->|]; by vk. }
  destruct (IH s1) as [I1 I2].
  { eapply Forall_impl; [exact Hall|]. intros b' Hb. by rewrite Hs. }
  cbn [map exec_list fst snd]. fold s1. split.
  - f_equal; [|rewrite I1; apply map_ext; intros b'; by rewrite Hs].
    vk. unfold bucket_fields. cbn [cmd_spec fst]. rewrite Hh. by destruct h.
  - intros k. by rewrite I2.
Qed.

Lemma first_err_strs {A} (f : A → list (option string)) l : first_err (map (λ x, RStrs (f x)) l) = None.
Proof. by induction l. Qed.

Lemma readBuckets_quiet bs w :
  quiet w → Forall (λ b, readable (at_key w (budgetKey b))) bs →
  ∃ w', readBuckets bs (w_now w) w = (Ok (map (bucket_at w) bs), w') ∧ same_clock w w' ∧ ∀ k, at_key w' k = at_key w k.
Proof.
  intros Hq Hall. destruct (hmget_list (w_vms w) bs (w_srv w) Hall) as [E1 E2].
  unfold readBuckets, bind. rewrite pipeline_quiet, E1, first_err_strs by done.
  eexists (with_srv w _). split; [|split; [by split|exact E2]]. unfold ret. do 2 f_equal.
  clear. induction bs as [|b bs IH]; [done|]. simpl. f_equal. apply IH.
Qed.

(** ** Counting the orders in flight *)
Definition fresh_members (floor : Z) (e : option entry) : gmap string Z :=
  match zset_of e with Some (z, _) => filter (λ ms, ¬ ms.2 ≤ floor) z | None => ∅ end.
Definition pruned (floor : Z) (e : option entry) : option entry :=
  match zset_of e with Some (z, ex) => zset_entry (filter (λ ms, ¬ ms.2 ≤ floor) z) ex | None => e end.
Definition held_in w (b : Bucket) (node : string) : Z :=
  Z.of_nat (size (fresh_members (UnixMilli (w_now w)) (at_key w (inflightKey b node)))).
Definition held_at w (live : list string) (b : Bucket) : Z :=
  fold_right Z.add 0 (map (held_in w b) live).

Lemma filter_fresh_idem floor (z : gmap string Z) :
  filter (λ ms, ¬ ms.2 ≤ floor) (filter (λ ms, ¬ ms.2 ≤ floor) z) = filter (λ ms, ¬ ms.2 ≤ floor) z.
Proof. apply map_filter_id. intros i x Hx. by apply map_lookup_filter_Some in Hx as [_ Hx]. Qed.

Lemma zset_of_entry z ex : ∃ ex', zset_of (zset_entry z ex) = Some (z, ex').
Proof. unfold zset_entry. case_decide as Hz; simpl; [rewrite Hz|]; eauto. Qed.

Lemma fresh_pruned floor e : fresh_members floor (pruned floor e) = fresh_members floor e.
Proof.
  unfold fresh_members, pruned. destruct (zset_of e) as [[z ex]|] eqn:E; [|by rewrite E].
  destruct (zset_of_entry (filter (λ ms, ¬ ms.2 ≤ floor) z) ex) as [ex' ->]. apply filter_fresh_idem.
Qed.

Lemma countable_pruned floor e : countable e → countable (pruned floor e).
Proof.
  unfold countable, pruned. intros [[z ex] E]. rewrite E.
  destruct (zset_of_entry (filter (λ ms, ¬ ms.2 ≤ floor) z) ex) as [ex' ->]. eauto.
Qed.

Lemma pruned_idem floor e : pruned floor (pruned floor e) = pruned floor e.
Proof.
  destruct (zset_of e) as [[z ex]|] eqn:E; [|by unfold pruned; rewrite E, E].
  assert (pruned floor e = zset_entry (filter (λ ms, ¬ ms.2 ≤ floor) z) ex) as -> by (unfold pruned; by rewrite E).
  unfold zset_entry. case_decide as Hz; unfold pruned; simpl.
  - rewrite map_filter_empty. unfold zset_entry. by rewrite decide_True.
  - rewrite filter_fresh_idem. unfold zset_entry. by rewrite decide_False.
Qed.

(** The replies of the ZCARDs. *)
Fixpoint cards (rs : list vreply) : list Z :=
  match rs with _ :: r :: rs' => rint r :: cards rs' | _ => [] end.

Lemma sum_cards_cards rs : sum_cards rs = fold_right Z.add 0 (cards rs).
Proof.
  enough (∀ n rs, (length rs ≤ n)%nat → sum_cards rs = fold_right Z.add 0 (cards rs)) as Hn by by eapply Hn.
  clear rs. induction n as [|n IH]; intros [|r1 [|r2 rs]] Hl; try done; simpl in *; [lia|]. rewrite IH by lia. done.
Qed.

Lemma cards_take n : ∀ rs, cards (take (2 * n) rs) = take n (cards rs).
Proof.
  induction n as [|n IH]; intros rs; [done|]. replace (2 * Datatypes.S n)%nat with (Datatypes.S (Datatypes.S (2 * n))) by lia.
  destruct rs as [|r1 [|r2 rs]]; [done..|]. cbn [take cards]. by rewrite IH.
Qed.

Lemma cards_drop n : ∀ rs, cards (drop (2 * n) rs) = drop n (cards rs).
Proof.
  induction n as [|n IH]; intros rs; [done|]. replace (2 * Datatypes.S n)%nat with (Datatypes.S (Datatypes.S (2 * n))) by lia.
  destruct rs as [|r1 [|r2 rs]]; [done..|]. cbn [drop cards]. by rewrite IH.
Qed.

Definition prune_cmds (floor : Z) (ks : list string) : list vcmd :=
  flat_map (λ k, [ZRemRangeByScore k floor; ZCard k]) ks.

Lemma prune_list ms floor ks s :
  Forall (λ k, countable (look s ms k)) ks →
  let r := exec_list ms (prune_cmds floor ks) s in
  cards r.1 = map (λ k, Z.of_nat (size (fresh_members floor (look s ms k)))) ks ∧ first_err r.1 = None ∧
  ∀ k, look r.2 ms k = if decide (k ∈ ks) then pruned floor (look s ms k) else look s ms k.
Proof.
  revert s. induction ks as [|k0 ks IH]; intros s Hall.
  { cbn. split_and!; [done|done|]. intros k. by rewrite decide_False by apply not_elem_of_nil. }
  apply Forall_cons in Hall as [[[z ex] Hz] Hall].
  set (s1 := (exec ms (ZCard k0) (exec ms (ZRemRangeByScore k0 floor) s).2).2).
  assert (∀ k, look s1 ms k = if decide (k = k0) then pruned floor (look s ms k) else look s ms k) as Hs.
  { intros k. unfold s1. destruct (decide (k = k0)) as [->|]; vk; [|done]. cbn [cmd_spec snd].
    unfold pruned. by rewrite Hz. }
  destruct (IH s1) as (I1 & I2 & I3).
  { eapply Forall_impl; [exact Hall|]. intros k Hk. rewrite Hs. case_decide; [by apply countable_pruned|done]. }
  unfold prune_cmds. cbn [flat_map app exec_list fst snd cards first_err]. fold s1. fold (prune_cmds floor ks).
  rewrite I1. split_and!.
  - cbn [map]. f_equal.
    + vk. cbn [cmd_spec fst snd]. rewrite Hz. cbn [snd].
      destruct (zset_of_entry (filter (λ ms, ¬ ms.2 ≤ floor) z) ex) as [ex' ->]. cbn. unfold fresh_members. by rewrite Hz.
    + apply map_ext. intros k. rewrite Hs. case_decide; [by rewrite fresh_pruned|done].
  - vk. cbn [cmd_spec fst snd]. rewrite Hz. cbn [fst snd reply_err].
    destruct (zset_of_entry (filter (λ ms, ¬ ms.2 ≤ floor) z) ex) as [ex' ->]. done.
  - intros k. rewrite I3, Hs. destruct (decide (k = k0)) as [->|Hne].
    + rewrite (decide_True (P := k0 ∈ k0 :: ks)) by left. case_decide; [by rewrite pruned_idem|done].
    + destruct (decide (k ∈ ks)); [by rewrite decide_True by (by right)|].
      by rewrite decide_False by (by apply not_elem_of_cons).
Qed.

Definition inflight_keys (live : list string) (bs : list Bucket) : list string :=
  flat_map (λ b, map (inflightKey b) live) bs.

Lemma count_cmds_prune live floor bs :
  flat_map (count_cmds live floor) bs = prune_cmds floor (inflight_keys live bs).
Proof.
  unfold prune_cmds, inflight_keys. induction bs as [|b bs IH]; [done|]. simpl. rewrite flat_map_app, IH. f_equal.
  unfold count_cmds. clear. induction live as [|n live IH]; [done|]. simpl. by rewrite IH.
Qed.

Lemma sums_cards {A} (f : Bucket → A → Z) (live : list A) bs : ∀ rs,
  cards rs = flat_map (λ b, map (f b) live) bs →
  sums (2 * length live) bs rs = map (λ b, fold_right Z.add 0 (map (f b) live)) bs.
Proof.
  induction bs as [|b bs IH]; intros rs Hrs; [done|]. cbn [sums map flat_map] in *.
  rewrite sum_cards_cards, cards_take, Hrs, take_app_length' by by rewrite length_map. f_equal.
  apply IH. by rewrite cards_drop, Hrs, drop_app_length' by by rewrite length_map.
Qed.

Lemma inflightCounts_quiet bs live w :
  quiet w → Forall (λ k, countable (at_key w k)) (inflight_keys live bs) →
  ∃ w', inflightCounts bs live (w_now w) w = (Ok (map (held_at w live) bs), w') ∧ same_clock w w' ∧
    ∀ k, at_key w' k = if decide (k ∈ inflight_keys live bs) then pruned (UnixMilli (w_now w)) (at_key w k) else at_key w k.
Proof.
  intros Hq Hall. unfold inflightCounts. case_bool_decide as Hl.
  { subst live. exists w. split_and!; [|by split|].
    - unfold ret. do 2 f_equal.
    - intros k. rewrite decide_False; [done|]. unfold inflight_keys. clear. induction bs; [apply not_elem_of_nil|done]. }
  destruct (prune_list (w_vms w) (UnixMilli (w_now w)) _ (w_srv w) Hall) as (E1 & E2 & E3).
  unfold bind. rewrite pipeline_quiet by done. rewrite count_cmds_prune, E2.
  eexists (with_srv w _). split; [|split; [by split|exact E3]]. unfold ret. do 2 f_equal.
  apply (sums_cards (held_in w)). rewrite E1. unfold inflight_keys, held_in, at_key. clear.
  induction bs as [|b bs IH]; [done|]. simpl. by rewrite map_app, map_map, IH.
Qed.
End reading.

(** ** Under the lock *)
Section locked.
Context {S : Type} `{ValkeyServer S} `{!ValkeyLaws S} `{TokenSupply} `{FloatLib}.
Implicit Types (w : world S).

Definition budget_free w (ca : string) : Prop := at_key w (budgetLockKey ca) = None.

Lemma releaseBudgetLock_own w ca tok ex :
  quiet w → at_key w (budgetLockKey ca) = Some (Entry (VStr tok) ex) →
  ∃ w', releaseBudgetLock ca tok w = (tt, w') ∧ same_clock w w' ∧ budget_free w' ca ∧
    ∀ k, k ≠ budgetLockKey ca → at_key w' k = at_key w k.
Proof.
  intros Hq Hl. unfold releaseBudgetLock, bind.
  destruct (call_spec (Get (budgetLockKey ca)) (budgetLockKey ca) w) as (w1 & -> & F1 & E1); [done..|].
  rewrite Hl in E1 |- *. spec_simpl. rewrite String.eqb_refl. destruct F1 as [Q1 N1 V1 _ D1 K1].
  destruct (call_spec (Del (budgetLockKey ca)) (budgetLockKey ca) w1) as (w2 & -> & F2 & E2); [done..|].
  spec_simpl. destruct F2 as [Q2 N2 V2 _ D2 K2].
  exists w2. split_and!; [done|split; congruence|done|]. intros k Hk. by rewrite K2, K1.
Qed.

Lemma withBudgetLock_run {A} ca (fn : M S (result budget_error A)) w (Q : result budget_error A → world S → Prop) :
  quiet w → budget_free w ca →
  (∀ w1, same_clock w w1 → (∀ k, k ≠ budgetLockKey ca → at_key w1 k = at_key w k) →
     ∃ x w2, fn w1 = (x, w2) ∧ same_clock w1 w2 ∧ at_key w2 (budgetLockKey ca) = at_key w1 (budgetLockKey ca) ∧ Q x w2) →
  ∃ x w2 w3, withBudgetLock ca fn w = (x, w3) ∧ same_clock w w3 ∧ budget_free w3 ca ∧ Q x w2 ∧
    ∀ k, k ≠ budgetLockKey ca → at_key w3 k = at_key w2 k.
Proof.
  intros Hq Hf Hfn. unfold withBudgetLock, bind at 1, mintToken. cbv beta iota zeta.
  set (tok := token (w_minted w)). set (w0 := World _ _ _ _ _ _).
  unfold budgetLockTries. cbn [lock_loop]. unfold bind at 1.
  destruct (call_spec (SetNX (budgetLockKey ca) tok budgetLockTTL) (budgetLockKey ca) w0) as (w1 & -> & F1 & E1); [done..|].
  assert (at_key w0 (budgetLockKey ca) = None) as Hf0 by done. rewrite Hf0 in E1 |- *.
  assert (prec_ms budgetLockTTL = 2000) as Hp by (change budgetLockTTL with (2000 * millisecond); by apply law_prec).
  spec_simpl. rewrite Hp in E1. unfold with_deadline in E1. destruct (Z.leb_spec (w_vms w0 + 2000) (w_vms w0)); [lia|].
  destruct F1 as [Q1 N1 V1 _ D1 K1]. destruct (Hfn w1) as (x & w2 & Ex & C2 & Hl2 & HQ); [by split|exact K1|].
  unfold bind at 1. rewrite Ex. unfold bind at 1. rewrite E1 in Hl2.
  destruct (releaseBudgetLock_own w2 ca tok _ (sc_quiet _ _ C2) Hl2) as (w3 & -> & C3 & F3 & K3).
  exists x, w2, w3. split_and!; [done| |done|done|done].
  eapply same_clock_trans; [|exact C3]. eapply same_clock_trans; [|exact C2]. by split.
Qed.

(** ** Entering the sets of orders in flight *)
Definition holds (member : string) (score : Z) (e : option entry) : Prop :=
  ∃ z ex, e = Some (Entry (VZSet z) ex) ∧ z !! member = Some score.

Definition enter_cmds (d score : Z) (member k : string) : list vcmd := [ZAdd k score member; ExpireNX k d; ExpireGT k d].

Lemma enter_one ms d score member k (s : S) :
  0 < sec_ms d → countable (look s ms k) →
  let r := exec_list ms (enter_cmds d score member k) s in
  first_err r.1 = None ∧ holds member score (look r.2 ms k) ∧ ∀ k', k' ≠ k → look r.2 ms k' = look s ms k'.
Proof.
  intros Hd [[z ex] Hz]. unfold enter_cmds. cbn [exec_list fst snd].
  assert (<[member := score]> z ≠ ∅) as Hne by apply insert_non_empty.
  set (z' := <[member := score]> z) in *. assert (z' !! member = Some score) as Hm by apply lookup_insert_eq.
  assert (∀ v, with_deadline ms (ms + sec_ms d) v = Some (Entry v (Some (ms + sec_ms d)))) as Hw.
  { intros v. unfold with_deadline. by destruct (Z.leb_spec (ms + sec_ms d) ms); [lia|]. }
  split_and!.
  - vk. cbn [cmd_spec fst snd]. rewrite Hz. cbn [fst snd]. fold z'. unfold zset_entry. rewrite decide_False by done.
    destruct ex as [ex|]; cbn [fst snd first_err reply_err]; rewrite ?Hw; cbn [fst snd]; by repeat case_match.
  - vk. cbn [cmd_spec fst snd]. rewrite Hz. cbn [fst snd]. fold z'. unfold zset_entry. rewrite decide_False by done.
    destruct ex as [ex|]; cbn [fst snd]; rewrite ?Hw; cbn [fst snd];
      (case_match; cbn [fst snd]; rewrite ?Hw; by repeat eexists).
  - intros k' Hk. by vk.
Qed.

Lemma enter_list ms d score member ks (s : S) :
  0 < sec_ms d → Forall (λ k, countable (look s ms k)) ks →
  let r := exec_list ms (flat_map (enter_cmds d score member) ks) s in
  first_err r.1 = None ∧ Forall (λ k, holds member score (look r.2 ms k)) ks ∧
  (∀ k, holds member score (look s ms k) → holds member score (look r.2 ms k)) ∧
  ∀ k, k ∉ ks → look r.2 ms k = look s ms k.
Proof.
  intros Hd. revert s. induction ks as [|k0 ks IH]; intros s Hall; [by cbn|].
  apply Forall_cons in Hall as [Hk0 Hall]. cbn [flat_map]. rewrite exec_list_app. cbn [fst snd].
  destruct (enter_one ms d score member k0 s Hd Hk0) as (E1 & E2 & E3).
  set (s1 := (exec_list ms (enter_cmds d score member k0) s).2) in *.
  assert (∀ k, holds member score (look s ms k) → holds member score (look s1 ms k)) as Hkeep.
  { intros k Hk. destruct (decide (k = k0)) as [->|]; [done|by rewrite E3]. }
  destruct (IH s1) as (I1 & I2 & I3 & I4).
  { eapply Forall_impl; [exact Hall|]. intros k Hk. destruct (decide (k = k0)) as [->|]; [|by rewrite E3].
    destruct E2 as (z & ex & -> & _). by eexists. }
  split_and!.
  - clear -E1 I1. induction (exec_list ms (enter_cmds d score member k0) s).1 as [|r rs IH]; [done|].
    simpl in *. by destruct (reply_err r); [|apply IH].
  - constructor; [by apply I3|done].
  - intros k Hk. by apply I3, Hkeep.
  - intros k [Hne Hk]%not_elem_of_cons. by rewrite I4, E3.
Qed.

Lemma reserve_cmds_enter bs node member deadline at_ :
  reserve_cmds bs node member deadline at_ =
    flat_map (enter_cmds (wrap64 (Sub deadline at_ + inflightKeyMargin)) (UnixMilli deadline) member)
      (map (λ b, inflightKey b node) bs).
Proof. unfold reserve_cmds. induction bs as [|b bs IH]; [done|]. simpl. by rewrite IH. Qed.

(** ** The decision *)
(** No token is left for one more order. *)
Definition short w (live : list string) (b : Bucket) : bool :=
  flt (fsub (tokensAt b (bucket_at w b) (w_now w)) (of_int (held_at w live b))) one.

Lemma reserve_wait_spec w live bs : ∀ wait, 0 ≤ wait →
  let r := fold_left (reserve_wait (w_now w)) (zip bs (zip (map (bucket_at w) bs) (map (held_at w live) bs))) wait in
  wait ≤ r ∧ (0 < r → 0 < wait ∨ Exists (λ b, short w live b = true) bs) ∧
  (Exists (λ b, short w live b = true) bs → second ≤ r).
Proof.
  induction bs as [|b bs IH]; intros wait Hw; cbn [map zip zip_with fold_left].
  { cbn. split_and!; [done|by left|]. by intros Hx%Exists_nil. }
  assert (∀ wt, reserve_wait (w_now w) wt (b, (bucket_at w b, held_at w live b)) =
    if short w live b then Z.max wt (Z.max (waitFor b (bucket_at w b) (w_now w) (fadd (of_int (held_at w live b)) one)) second)
    else wt) as -> by done.
  cbv zeta. rewrite Exists_cons.
  destruct (short w live b) eqn:Hs.
  - destruct (IH (Z.max wait (Z.max (waitFor b (bucket_at w b) (w_now w) (fadd (of_int (held_at w live b)) one)) second)))
      as (I1 & I2 & I3); [lia|]. split_and!; [lia|by right; left|]. intros _. lia.
  - destruct (IH wait Hw) as (I1 & I2 & I3). split_and!; [done| |by intros [?|?]; [done|apply I3]].
    intros Hr. destruct (I2 Hr); auto.
Qed.

Lemma key_prefixes ca b b' node :
  budgetKey b ≠ budgetLockKey ca ∧ inflightKey b node ≠ budgetLockKey ca ∧ budgetKey b' ≠ inflightKey b node.
Proof. by split_and!. Qed.

Lemma inflight_keys_elem live bs k : k ∈ inflight_keys live bs ↔ ∃ b node, b ∈ bs ∧ node ∈ live ∧ k = inflightKey b node.
Proof.
  unfold inflight_keys. rewrite list_elem_of_In, in_flat_map. split.
  - intros (b & Hb%list_elem_of_In & (node & <- & Hn%list_elem_of_In)%in_map_iff). eauto.
  - intros (b & node & Hb%list_elem_of_In & Hn%list_elem_of_In & ->). exists b. split; [done|]. by apply in_map.
Qed.

(** The keys a reservation reads have the types it expects. *)
Record well_typed w (bs : list Bucket) (node : string) (live : list string) : Prop := {
  wt_buckets : Forall (λ b, readable (at_key w (budgetKey b))) bs;
  wt_live : Forall (λ k, countable (at_key w k)) (inflight_keys live bs);
  wt_node : Forall (λ b, countable (at_key w (inflightKey b node))) bs
}.

(** What a reservation leaves behind. *)
Definition decided w (ca : string) (bs : list Bucket) (node member : string) (deadline : Z) (live : list string)
    (x : result budget_error (bool * Z)) (w' : world S) : Prop :=
  (∀ b, at_key w' (budgetKey b) = at_key w (budgetKey b)) ∧
  match x with
  | Ok (true, d) =>
      d = 0 ∧ Forall (λ b, short w live b = false) bs ∧
      Forall (λ b, holds member (UnixMilli deadline) (at_key w' (inflightKey b node))) bs
  | Ok (false, d) =>
      second ≤ d ∧ Exists (λ b, short w live b = true) bs ∧
      ∀ k, k ≠ budgetLockKey ca → at_key w' k = at_key w k ∨ at_key w' k = pruned (UnixMilli (w_now w)) (at_key w k)
  | Err _ => False
  end.

Lemma margin_positive deadline at_ :
  0 ≤ deadline - at_ < 2 ^ 62 → 0 < sec_ms (wrap64 (Sub deadline at_ + inflightKeyMargin)).
Proof.
  intros Hd. change (2 ^ 62) with 4611686018427387904 in Hd.
  assert (wrap64 (Sub deadline at_ + inflightKeyMargin) = deadline - at_ + inflightKeyMargin) as ->.
  { unfold Sub, min_int64, max_int64, inflightKeyMargin, minute, second. rewrite wrap64_id; unfold min_int64, max_int64; lia. }
  eapply Z.lt_le_trans; [|apply (law_sec_mono (60 * second))]; [rewrite law_sec; lia|].
  unfold inflightKeyMargin, minute. lia.
Qed.

Lemma held_at_agree w w1 live b :
  w_now w1 = w_now w → (∀ n, at_key w1 (inflightKey b n) = at_key w (inflightKey b n)) → held_at w1 live b = held_at w live b.
Proof. intros Hn K. unfold held_at, held_in. f_equal. apply map_ext. intros n. by rewrite Hn, K. Qed.

Lemma reserve_locked_decides w ca bs node member deadline live :
  quiet w → well_typed w bs node live → 0 ≤ deadline - w_now w < 2 ^ 62 →
  ∃ x w', reserve_locked bs node member deadline live w = (x, w') ∧ same_clock w w' ∧
    at_key w' (budgetLockKey ca) = at_key w (budgetLockKey ca) ∧ decided w ca bs node member deadline live x w'.
Proof.
  intros Hq [T1 T2 T3] Hdl. unfold reserve_locked, bind at 1, now. cbv beta iota.
  destruct (readBuckets_quiet bs w Hq T1) as (w1 & E1 & C1 & K1). unfold bind at 1. rewrite E1.
  assert (map (held_at w1 live) bs = map (held_at w live) bs) as Hheld.
  { apply map_ext. intros b. apply held_at_agree; [apply C1|]. intros n. apply K1. }
  destruct (inflightCounts_quiet bs live w1 (sc_quiet _ _ C1)) as (w2 & E2 & C2 & K2).
  { eapply Forall_impl; [exact T2|]. intros k. by rewrite K1. }
  assert (∀ k, at_key w2 k = if decide (k ∈ inflight_keys live bs) then pruned (UnixMilli (w_now w)) (at_key w k)
    else at_key w k) as K by (intros k; by rewrite K2, (sc_now _ _ C1), K1).
  rewrite (sc_now _ _ C1), Hheld in E2. unfold bind at 1. rewrite E2.
  pose proof (same_clock_trans _ _ _ C1 C2) as C. clear w1 E1 C1 K1 E2 C2 K2 Hheld.
  assert (∀ k, (∀ b n, k ≠ inflightKey b n) → at_key w2 k = at_key w k) as Kother.
  { intros k Hk. rewrite K, decide_False; [done|]. intros (b & n & _ & _ & ->)%inflight_keys_elem. by eapply Hk. }
  destruct (reserve_wait_spec w live bs 0) as (R1 & R2 & R3); [done|]. cbv zeta in *.
  destruct (Z.ltb_spec 0 (fold_left (reserve_wait (w_now w)) (zip bs (zip (map (bucket_at w) bs) (map (held_at w live) bs))) 0))
    as [Hwait|Hwait].
  - destruct (R2 Hwait) as [?|Hex]; [lia|]. eexists _, w2. split_and!; [done|done|by apply Kother|].
    split; [intros b; by apply Kother|]. split_and!; [by apply R3|done|]. intros k _. rewrite K. case_decide; auto.
  - assert (Forall (λ b, countable (at_key w2 (inflightKey b node))) bs) as T3'.
    { eapply Forall_impl; [exact T3|]. intros b Hb. simpl. rewrite K. case_decide; [by apply countable_pruned|done]. }
    destruct (enter_list (w_vms w2) (wrap64 (Sub deadline (w_now w) + inflightKeyMargin)) (UnixMilli deadline) member
      (map (λ b, inflightKey b node) bs) (w_srv w2)) as (N1 & N2 & _ & N4); [by apply margin_positive|by apply Forall_map|].
    unfold bind. rewrite reserve_cmds_enter, pipeline_quiet, N1 by apply C.
    eexists _, (with_srv w2 _). split_and!; [done|by destruct C; split| |].
    + rewrite <- (Kother (budgetLockKey ca)) by done. apply N4.
      intros (b & ? & _)%list_elem_of_fmap. by eapply (key_prefixes ca b b node).
    + split.
      * intros b. rewrite <- (Kother (budgetKey b)) by done. apply N4.
        intros (b' & ? & _)%list_elem_of_fmap. by eapply (key_prefixes ca b' b node).
      * split_and!; [done| |by apply (Forall_map (λ b, inflightKey b node)) in N2].
        apply Forall_forall. intros b Hb. destruct (short w live b) eqn:Hs; [|done].
        assert (second ≤ 0); [|done]. etrans; [|exact Hwait]. apply R3, Exists_exists. eauto.
Qed.

Lemma decided_agree w w1 ca bs node member deadline live x w2 :
  w_now w1 = w_now w → (∀ k, k ≠ budgetLockKey ca → at_key w1 k = at_key w k) →
  decided w1 ca bs node member deadline live x w2 → decided w ca bs node member deadline live x w2.
Proof.
  intros Hn K [D1 D2].
  assert (∀ b, at_key w1 (budgetKey b) = at_key w (budgetKey b)) as Kb by (intros b; apply K, (key_prefixes ca b b node)).
  assert (∀ b, short w1 live b = short w live b) as Hs.
  { intros b. unfold short, bucket_at. rewrite Hn, Kb, (held_at_agree w w1); [done|done|].
    intros n. by rewrite K by apply (key_prefixes ca b b n). }
  split; [intros b; by rewrite D1, Kb|]. destruct x as [[[] d]|]; [| |done].
  - destruct D2 as (-> & D3 & D4). split_and!; [done| |done]. eapply Forall_impl; [exact D3|]. intros b Hb. cbn beta in *. by rewrite <- Hs.
  - destruct D2 as (D3 & D4 & D5). split_and!; [done| |].
    + eapply Exists_impl; [exact D4|]. intros b Hb. cbn beta in *. by rewrite <- Hs.
    + intros k Hk. rewrite <- Hn, <- K by done. by apply D5.
Qed.

Lemma decided_after w ca bs node member deadline live x w2 w3 :
  (∀ k, k ≠ budgetLockKey ca → at_key w3 k = at_key w2 k) →
  decided w ca bs node member deadline live x w2 → decided w ca bs node member deadline live x w3.
Proof.
  intros K [D1 D2]. split; [intros b; by rewrite K by apply (key_prefixes ca b b node)|].
  destruct x as [[[] d]|]; [| |done].
  - destruct D2 as (-> & D3 & D4). split_and!; [done|done|]. eapply Forall_impl; [exact D4|]. intros b Hb.
    cbn beta. by rewrite K by apply (key_prefixes ca b b node).
  - destruct D2 as (D3 & D4 & D5). split_and!; [done|done|]. intros k Hk. rewrite K by done. by apply D5.
Qed.

Lemma well_typed_agree w w1 ca bs node live :
  (∀ k, k ≠ budgetLockKey ca → at_key w1 k = at_key w k) → well_typed w bs node live → well_typed w1 bs node live.
Proof.
  intros K [T1 T2 T3]. rewrite !Forall_forall in *. split; apply Forall_forall.
  - intros b Hb. rewrite K by apply (key_prefixes ca b b node). by apply T1.
  - intros k Hk. rewrite K; [by apply T2|]. apply inflight_keys_elem in Hk as (b & n & _ & _ & ->). apply (key_prefixes ca b b n).
  - intros b Hb. rewrite K by apply (key_prefixes ca b b node). by apply T3.
Qed.

(** An undisturbed reservation is refused exactly when some bucket has no token left for
    one more order, with a wait of at least a second and no budget changed; otherwise
    the order is in flight in every bucket. The lock is free afterwards. *)
Lemma ReserveACME_decides w ca bs node member deadline live :
  quiet w → bs ≠ [] → budget_free w ca → well_typed w bs node live → 0 ≤ deadline - w_now w < 2 ^ 62 →
  ∃ x w', ReserveACME ca bs node member deadline live w = (x, w') ∧ budget_free w' ca ∧
    decided w ca bs node member deadline live x w'.
Proof.
  intros Hq Hbs Hf Hwt Hdl. unfold ReserveACME. rewrite bool_decide_false by done.
  destruct (withBudgetLock_run ca (reserve_locked bs node member deadline live) w
    (decided w ca bs node member deadline live) Hq Hf) as (x & w2 & w3 & E & _ & Hf3 & HQ & K3).
  - intros w1 C1 K1. destruct (reserve_locked_decides w1 ca bs node member deadline live) as (x & w2 & E & C2 & L2 & D).
    + apply C1.
    + by eapply well_typed_agree.
    + by rewrite (sc_now _ _ C1).
    + exists x, w2. split_and!; [done..|]. eapply decided_agree; [apply C1|exact K1|done].
  - exists x, w3. split_and!; [done..|]. by eapply decided_after.
Qed.

(** ** In any world *)
Lemma lock_loop_ok {A} (P : A → Prop) (fn : M S (result budget_error A)) ca tok n :
  (∀ w x w', fn w = (Ok x, w') → P x) → ∀ w x w', lock_loop n ca tok fn w = (Ok x, w') → P x.
Proof.
  intros Hfn. induction n as [|n IH]; intros w x w'; cbn [lock_loop]; [by intros [=]|].
  unfold bind at 1. destruct (call _ w) as [[v|] w1]; [|by intros [=]]. destruct (rbool v).
  - unfold bind. destruct (fn w1) as [r w2] eqn:E. destruct (releaseBudgetLock ca tok w2) as [[] w3].
    intros [= -> _]. by eapply Hfn.
  - unfold bind. destruct (sleep _ w1) as [[] w2]; [by intros [=]|apply IH].
Qed.

(** A refusal always says how long to wait, whatever happens around it. *)
Lemma ReserveACME_refusal_waits ca bs node member deadline live w d w' :
  ReserveACME ca bs node member deadline live w = (Ok (false, d), w') → 0 < d.
Proof.
  unfold ReserveACME. case_bool_decide; [by intros [=]|]. unfold withBudgetLock, bind, mintToken. cbv beta iota zeta.
  intros Hl. refine (lock_loop_ok (λ x, x.1 = false → 0 < x.2) _ _ _ _ _ _ _ _ Hl eq_refl).
  clear. intros w x w'. unfold reserve_locked, bind, now. destruct (readBuckets _ _ w) as [[states|] w1]; [|by intros [=]].
  destruct (inflightCounts _ _ _ w1) as [[held|] w2]; [|by intros [=]].
  match goal with |- context [0 <? ?d] => destruct (Z.ltb_spec 0 d) end; [by intros [= <- _]|].
  destruct (pipeline _ w2) as [[rs|] w3]; by intros [= <- _].
Qed.

(** ** Spending *)
(** The members of a sorted set. *)
Definition members (e : option entry) : gmap string Z := match zset_of e with Some (z, _) => z | None => ∅ end.

Lemma hash_fields e h ex : hash_of e = Some (h, ex) → bucket_fields e = [h !! "t"; h !! "at"].
Proof. unfold bucket_fields. by intros ->. Qed.

Lemma parse_written `{!FloatLaws} b s at_ now (h : gmap string string) :
  is_finite (bs_tokens s) = true → valid_binary 53 1024 (bs_tokens s) = true →
  0 ≤ UnixMilli (bs_at s) ≤ max_int64 → at_ = UnixMilli (bs_at s) →
  let h' := <["at" := FormatInt at_]> (<["t" := FormatFloat (bs_tokens s)]> h) in
  parseBucket b [h' !! "t"; h' !! "at"] now = BState (bs_tokens s) (at_ * millisecond).
Proof.
  intros Hf Hv Ha -> h'. unfold h'. rewrite lookup_insert_ne, !lookup_insert_eq by done.
  unfold parseBucket. rewrite parse_format, ParseInt_FormatInt by done. done.
Qed.

Lemma write_commit `{!FloatLaws} w b s k member :
  quiet w → readable (at_key w (budgetKey b)) → countable (at_key w k) → k ≠ budgetKey b →
  is_finite (bs_tokens s) = true → valid_binary 53 1024 (bs_tokens s) = true →
  0 ≤ UnixMilli (bs_at s) ≤ max_int64 → 0 < prec_ms (write_ttl b s (w_now w)) →
  ∃ rs w', pipeline (writeBucket b s (w_now w) ++ [ZRem k member]) w = (Ok rs, w') ∧ same_clock w w' ∧
    bucket_at w' b = BState (bs_tokens s) (UnixMilli (bs_at s) * millisecond) ∧
    members (at_key w' k) = delete member (members (at_key w k)) ∧
    ∀ k', k' ≠ budgetKey b → k' ≠ k → at_key w' k' = at_key w k'.
Proof.
  intros Hq [[h ex] Hh] [[z zex] Hz] Hne Hf Hv Ha Ht. unfold at_key in *.
  rewrite pipeline_quiet by done. unfold writeBucket. cbn [app exec_list fst snd].
  assert (∀ v, with_deadline (w_vms w) (w_vms w + prec_ms (write_ttl b s (w_now w))) v =
    Some (Entry v (Some (w_vms w + prec_ms (write_ttl b s (w_now w)))))) as Hw.
  { intros v. unfold with_deadline. by destruct (Z.leb_spec (w_vms w + prec_ms (write_ttl b s (w_now w))) (w_vms w)); [lia|]. }
  eexists _, (with_srv w _). split_and!.
  - cbn [first_err]. vk. cbn [cmd_spec fst snd]. rewrite Hh. cbn [fst snd]. rewrite Hz. cbn [fst snd reply_err]. done.
  - by split.
  - unfold bucket_at, at_key. cbn [w_srv w_vms w_now with_srv]. vk. cbn [cmd_spec fst snd]. rewrite Hh. cbn [fst snd fold_left].
    rewrite Hw. erewrite hash_fields by done. by apply parse_written.
  - cbn [w_srv w_vms with_srv]. vk. cbn [cmd_spec fst snd]. unfold members. rewrite Hz. cbn [snd].
    by destruct (zset_of_entry (delete member z) zex) as [ex' ->].
  - intros k' Hk1 Hk2. cbn [w_srv w_vms with_srv]. by vk.
Qed.

Definition spent w (ca : string) (b : Bucket) (node member : string) (x : result budget_error unit) (w' : world S) : Prop :=
  let s := spend b (bucket_at w b) (w_now w) in
  x = Ok tt ∧ w_now w' = w_now w ∧ bucket_at w' b = BState (bs_tokens s) (UnixMilli (bs_at s) * millisecond) ∧
  members (at_key w' (inflightKey b node)) = delete member (members (at_key w (inflightKey b node))) ∧
  ∀ k, k ≠ budgetKey b → k ≠ inflightKey b node → k ≠ budgetLockKey ca → at_key w' k = at_key w k.

(** Committing a reservation takes one token from the bucket as refilled up to now,
    removes the member from the orders in flight, and touches nothing else. *)
Lemma CommitACME_spends `{!FloatLaws} w ca b node member :
  let s := spend b (bucket_at w b) (w_now w) in
  quiet w → budget_free w ca → readable (at_key w (budgetKey b)) → countable (at_key w (inflightKey b node)) →
  is_finite (bs_tokens s) = true → valid_binary 53 1024 (bs_tokens s) = true →
  0 ≤ UnixMilli (bs_at s) ≤ max_int64 → 0 < prec_ms (write_ttl b s (w_now w)) →
  ∃ x w', CommitACME ca b node member w = (x, w') ∧ budget_free w' ca ∧ spent w ca b node member x w'.
Proof.
  intros s Hq Hf Hr Hc Hfin Hv Ha Ht. unfold CommitACME.
  destruct (key_prefixes ca b b node) as (P1 & P2 & P3).
  destruct (withBudgetLock_run ca (commit_locked b node member) w (spent w ca b node member) Hq Hf)
    as (x & w2 & w3 & E & C3 & Hf3 & (-> & D0 & D1 & D2 & D3) & K3).
  - intros w1 C1 K1. unfold commit_locked, bind at 1, now. cbv beta iota.
    destruct (readBuckets_quiet [b] w1 (sc_quiet _ _ C1)) as (w2 & E2 & C2 & K2); [constructor; [by rewrite K1|done]|].
    unfold bind at 1. rewrite E2. cbn [map nth]. rewrite (sc_now _ _ C1).
    assert (bucket_at w1 b = bucket_at w b) as -> by (unfold bucket_at; by rewrite (sc_now _ _ C1), K1).
    pose proof (same_clock_trans _ _ _ C1 C2) as C. fold s. rewrite <- (sc_now _ _ C).
    destruct (write_commit w2 b s (inflightKey b node) member) as (rs & w3 & E3 & C3 & W1 & W2 & W3);
      [apply C|by rewrite K2, K1|by rewrite K2, K1|done|done|done|done|by rewrite (sc_now _ _ C)|].
    unfold bind. rewrite E3. exists (Ok tt), w3. split_and!; [done|by eapply same_clock_trans| |].
    + rewrite W3 by done. apply K2.
    + split_and!; [done| |done|by rewrite W2, K2, K1|].
      * by rewrite (sc_now _ _ C3), (sc_now _ _ C).
      * intros k Hk1 Hk2 Hk3. by rewrite W3, K2, K1.
  - exists (Ok tt), w3. split_and!; [done|done|]. split_and!; [done|apply C3| |by rewrite K3|].
    + rewrite <- D1. unfold bucket_at. by rewrite (sc_now _ _ C3), D0, K3.
    + intros k Hk1 Hk2 Hk3. rewrite K3 by done. by apply D3.
Qed.
End locked.

(** ** A concrete budget *)
#[local] Existing Instance bit_floats.
#[local] Existing Instance bit_floats_laws.
Definition two_orders : Bucket := MkBucket "gts:orders:a" (of_int 2) hour.

Lemma ReserveACME_decides_witness :
  ∃ x w', ReserveACME "gts" [two_orders] "n1" "m1" (1700000060 * second) ["n1"] sample_world = (x, w') ∧
    x = Ok (true, 0) ∧ budget_free w' "gts" ∧
    decided sample_world "gts" [two_orders] "n1" "m1" (1700000060 * second) ["n1"] x w'.
Proof.
  destruct (ReserveACME_decides sample_world "gts" [two_orders] "n1" "m1" (1700000060 * second) ["n1"])
    as (x & w' & E & F & D); [done|done|done| |by vm_compute|].
  - split; repeat constructor; by eexists.
  - exists x, w'. split_and!; [done| |done|done]. change x with (x, w').1. rewrite <- E. by vm_compute.
Defined.

Lemma CommitACME_spends_witness :
  ∃ x w', CommitACME "gts" two_orders "n1" "m1" sample_world = (x, w') ∧ budget_free w' "gts" ∧
    spent sample_world "gts" two_orders "n1" "m1" x w'.
Proof.
  apply (CommitACME_spends sample_world "gts" two_orders "n1" "m1"); try done.
  all: try by eexists.
Defined.
End AcmeBudget.
