(* ===== verification/AcmeChain.v ===== *)
(** * The issuing chain

    [internal/acme/chain.go]: a certificate is ordered from Let's Encrypt, then
    Google Trust Services, then ZeroSSL, over the accounts of each, skipping
    accounts that cool down or have no budget left.  An order reserves its
    budgets before it starts and settles them when it is over.

    [ChainDeps] is the interface to the limiter, the node registry and the ACME
    clients; the chain's methods are state-passing functions over it that record
    what they report and which budgets they touch. *)
From Stdlib Require Import ZArith Lia Ascii String Permutation Floats.SpecFloat.
From stdpp Require Import sorting.
From S2P Require Import Prelude GoStr GoFloat Acme.
Local Open Scope string_scope.
Local Open Scope list_scope.
Local Open Scope Z_scope.

Module AcmeChain.
Import GoFloat Acme.

(** What an ACME client's order came to. *)
Record obtained (C : Type) := Obtained {
  ob_result : result issue_error C;
  ob_panicked : bool;          (* the order's panic flag *)
  ob_track : orderTrack
}.
Arguments Obtained {C} _ _ _.
Arguments ob_result {C} _.
Arguments ob_panicked {C} _.
Arguments ob_track {C} _.

(** ** The interface *)
Class ChainDeps (B C : Type) := {
  cd_CACooldown : string → B → result unit Z * B;
  cd_ResetCAFailures : string → B → result unit unit * B;
  cd_BumpCAFailures : string → Z → B → result unit Z * B;
  cd_SetCACooldown : string → Z → B → result unit unit * B;
  cd_CAWaitState : string → B → result unit (Z * string) * B;
  cd_ReserveACME : string → list Bucket → string → string → Z → list string → B → result unit (bool * Z) * B;
  cd_PrepayACME : string → Bucket → Z → B → result unit (Z * Z) * B;
  cd_ReleaseACME : list Bucket → string → string → B → result unit unit * B;
  cd_CommitACME : string → Bucket → string → string → B → result unit unit * B;
  cd_RefundACME : string → Bucket → Z → B → result unit unit * B;
  cd_ACMEBudgetLevel : Bucket → list string → B → result unit float64 * B;
  cd_LiveNodeIDs : B → result unit (list string) * B;
  cd_prepare : account → Z → B → option issue_error * B;
  cd_obtain : account → orderTrack → Z → B → obtained C * B;
  cd_cleanups : nat → B → unit * B;
  cd_now : B → Z * B;
  cd_untilDeadline : B → Z * B;      (* time left of the run's budget *)
  cd_runEnded : B → bool * B;
  cd_Rand : Z → B → Z * B;
  cd_mintMember : B → string * B
}.

Class ChainLaws B C `{ChainDeps B C} := {
  (* a refused reservation says how long to wait *)
  law_reserve ca bs node member deadline live b b' w :
    cd_ReserveACME ca bs node member deadline live b = (Ok (false, w), b') → 0 < w;
  law_rand n b : 0 < n → 0 ≤ (cd_Rand n b).1 < n
}.

Record ChainConfig := {
  cc_CooldownDefault : Z; cc_BackoffInitial : Z; cc_BackoffMax : Z;
  cc_NodeID : string; cc_Budgets : Budgets; cc_FinalizeGrace : Z
}.

(** [NewChainIssuer]: the accounts by certificate authority, in order. *)
Definition ca_order : list string := [CALetsEncrypt; CAGTS; CAZeroSSL].
Definition group_of (accounts : list account) (ca : string) : list account :=
  List.filter (λ a, String.eqb (a_ca a) ca) accounts.
Definition groups (accounts : list account) : list (list account) :=
  List.filter (λ g, negb (bool_decide (g = []))) (map (group_of accounts) ca_order).

(** ** What the chain reports and does to budgets *)
Inductive cevent (C : Type) :=
| EvReserve (member : string) (bs : list Bucket)
| EvCommit (member : string) (b : Bucket)
| EvRelease (member : string) (bs : list Bucket)
| EvTry (a : account)
| EvCert (c : C)
| EvNote (d : Z)
| EvCooldown (ca : string)
| EvIssue (ca result : string).
Arguments EvReserve {C} _ _.
Arguments EvCommit {C} _ _.
Arguments EvRelease {C} _ _.
Arguments EvTry {C} _.
Arguments EvCert {C} _.
Arguments EvNote {C} _.
Arguments EvCooldown {C} _.
Arguments EvIssue {C} _ _.

(** How a run ends: by its context, with every account used up, on a local
    failure, or with a certificate authority's verdict. *)
Inductive chain_error :=
| CETransient
| CEExhausted (retry : Z)
| CELocal (retry : Z)
| CEPermanent (e : issue_error).

Section chain.
Context {B C : Type} `{ChainDeps B C} `{PublicSuffix} `{UnicodeCase} (cfg : ChainConfig).

Record chain_st := CState { cs_b : B; cs_trace : list (cevent C) }.
Definition M A := chain_st → A * chain_st.
Definition ret {A} (a : A) : M A := λ s, (a, s).
Definition bind {A A'} (m : M A) (f : A → M A') : M A' := λ s, let '(a, s') := m s in f a s'.
Definition dep {A} (f : B → A * B) : M A := λ s, let '(a, b) := f (cs_b s) in (a, CState b (cs_trace s)).
Definition emit (e : cevent C) : M unit := λ s, (tt, CState (cs_b s) (cs_trace s ++ [e])).
Notation "'let!' x ':=' m 'in' k" := (bind m (λ x, k)) (at level 200, x pattern, right associativity).

Fixpoint forM {A} (f : A → M unit) (l : list A) : M unit :=
  match l with [] => ret tt | a :: l' => let! _ := f a in forM f l' end.

(** ** Settling an order's budgets *)
Definition refund (a : account) (unused : Z) (mark : string) : M unit :=
  let! r := dep (cd_CAWaitState (a_id a)) in
  match r with
  | Err _ => ret tt
  | Ok (_, cur) =>
      if negb (String.eqb cur "") && negb (String.eqb cur mark) then ret tt
      else let! _ := dep (cd_RefundACME (a_ca a) (prepayBucket (cc_Budgets cfg) a).1 unused) in ret tt
  end.

Definition commit (a : account) (member : string) (b : Bucket) : M unit :=
  let! _ := emit (EvCommit member b) in
  let! _ := dep (cd_CommitACME (a_ca a) b (cc_NodeID cfg) member) in ret tt.

Definition release (member : string) (bs : list Bucket) : M unit :=
  let! _ := emit (EvRelease member bs) in
  let! _ := dep (cd_ReleaseACME bs (cc_NodeID cfg) member) in ret tt.

Definition settle (a : account) (member : string) (onCreate onSuccess : list Bucket) (tr : orderTrack)
    (out : orderOutcome) (ok : bool) : M unit :=
  let spend := (if ok || o_created out then onCreate else []) ++ (if ok || o_finalized out then onSuccess else []) in
  let give_back := (if ok || o_created out then [] else onCreate) ++ (if ok || o_finalized out then [] else onSuccess) in
  let! _ := forM (commit a member) spend in
  let! _ := release member give_back in
  let '(unused, mark, tr) := drainPrepaid tr in
  let! _ := if 0 <? unused then refund a unused mark else ret tt in
  if o_abandoned out then dep (cd_cleanups (takeCleanups tr).1) else ret tt.

(** ** One attempt: skipped for a while, or tried *)
Inductive attempted := Skipped (wait : Z) | Tried (r : result issue_error C) (ended : bool).

Definition attempt (a : account) (fqdn : string) (leRenewal : bool) (live : list string) : M attempted :=
  let! perr := dep (cd_prepare a (a_timeout a)) in
  match perr with
  | Some e => let! ended := dep cd_runEnded in ret (Tried (Err e) ended)
  | None =>
      let '(onCreate, onSuccess) := orderBuckets (cc_Budgets cfg) a fqdn leRenewal in
      let! member := dep cd_mintMember in
      let! until := dep cd_untilDeadline in
      let timeout := Z.min (a_timeout a) until in
      let reserved := onCreate ++ onSuccess in
      let! n := dep cd_now in
      let! r := dep (cd_ReserveACME (a_ca a) reserved (cc_NodeID cfg) member (n + timeout + cc_FinalizeGrace cfg) live) in
      match r with
      | Ok (false, wait) => ret (Skipped wait)
      | _ =>
          let! _ := emit (EvReserve member reserved) in
          let '(pb, perOrder) := prepayBucket (cc_Budgets cfg) a in
          let! st := if 0 <? perOrder then dep (cd_CAWaitState (a_id a)) else ret (Ok (0, "")) in
          let '(perOrder, mark) := match st with Ok (_, m) => (perOrder, m) | Err _ => (0, "") end in
          let! p := dep (cd_PrepayACME (a_ca a) pb perOrder) in
          let '(prepaid, pwait) := match p with Ok pw => pw | Err _ => (0, 0) end in
          if 0 <? pwait then
            let! _ := release member reserved in ret (Skipped pwait)
          else
            let '(nameBucket, domainBucket) :=
              if String.eqb (a_ca a) CALetsEncrypt
              then (leName (cc_Budgets cfg) fqdn, leDomain (cc_Budgets cfg) fqdn) else (no_bucket, no_bucket) in
            let tr := setPrepaid (b_Key pb) prepaid mark (newOrderTrack nameBucket domainBucket) in
            let! _ := emit (EvTry a) in
            let! ob := dep (cd_obtain a tr timeout) in
            let! _ := match ob_result ob with Ok c => emit (EvCert c) | Err _ => ret tt end in
            let r := match ob_result ob with
                     | Err e => Err (if ob_panicked ob then panicked e else e)
                     | Ok c => Ok c
                     end in
            let! ended := dep cd_runEnded in
            let! _ := settle a member onCreate onSuccess (abandon (ob_track ob)) (outcome (ob_track ob)) (is_ok r) in
            ret (Tried r ended)
      end
  end.

(** ** Cooldowns after a failure *)
Definition setCooldown (a : account) (d : Z) : M Z :=
  let! _ := emit (EvCooldown (a_ca a)) in
  let! r := dep (cd_SetCACooldown (a_id a) d) in
  match r with
  | Err _ => ret d
  | Ok _ =>
      let! r := dep (cd_CACooldown (a_id a)) in
      ret match r with Err _ => d | Ok cur => Z.max d cur end
  end.

(** The cooldown, and whether the error is permanent. *)
Definition handleFailure (a : account) (e : issue_error) : M (Z * bool) :=
  let '(class, retry) := class_of e in
  match class with
  | ClassPermanent => ret (0, true)
  | ClassRateLimited =>
      let! d := setCooldown a (if retry <=? 0 then cc_CooldownDefault cfg else retry) in ret (d, false)
  | _ =>
      let! r := dep (cd_CACooldown (a_id a)) in
      let cool := match r with Ok d => d | Err _ => 0 end in
      if 0 <? cool then ret (cool, false)
      else
        let! r := dep (cd_BumpCAFailures (a_id a) (cc_BackoffMax cfg)) in
        let n := match r with Ok n => n | Err _ => 0 end in
        let! d := setCooldown a (backoff (cc_BackoffInitial cfg) (cc_BackoffMax cfg) n) in ret (d, false)
  end.

(** ** Accounts of a group, fullest first *)
Fixpoint shuffle (i : nat) (l : list account) : M (list account) :=
  match i with
  | O => ret l
  | S i' =>
      let! j := dep (cd_Rand (Z.of_nat i + 1)) in
      match l !! i, l !! Z.to_nat j with
      | Some x, Some y => shuffle i' (<[Z.to_nat j := x]> (<[i := y]> l))
      | _, _ => shuffle i' l
      end
  end.

(** The levels of all accounts, or [None] when one cannot be read. *)
Fixpoint levels (l : list account) (live : list string) : M (option (list (account * float64))) :=
  match l with
  | [] => ret (Some [])
  | a :: l' =>
      let! r := dep (cd_ACMEBudgetLevel (ordersBucket (cc_Budgets cfg) a) live) in
      match r with
      | Err _ => ret None
      | Ok lv => let! rest := levels l' live in ret (match rest with Some rs => Some ((a, lv) :: rs) | None => None end)
      end
  end.

(** A stable sort by descending level. *)
Fixpoint insert_level (x : account * float64) (l : list (account * float64)) : list (account * float64) :=
  match l with
  | [] => [x]
  | y :: l' => match cmp_Compare y.2 x.2 with Gt => y :: insert_level x l' | _ => x :: l end
  end.

Definition ordered (group : list account) (live : list string) : M (list account) :=
  if (length group <? 2)%nat then ret group
  else
    let! out := shuffle (length group - 1) group in
    let! lv := levels out live in
    ret match lv with None => out | Some ls => (fold_right insert_level [] ls).*1 end.

Definition liveNodes : M (list string) :=
  let! r := dep cd_LiveNodeIDs in
  let ids := match r with Ok ids => ids | Err _ => [] end in
  ret (if bool_decide (cc_NodeID cfg ∈ ids) then ids else ids ++ [cc_NodeID cfg]).

(** ** The run *)
Definition note (d shortest : Z) : M Z :=
  if 0 <? d then
    let! _ := emit (EvNote d) in ret (if (shortest =? 0) || (d <? shortest) then d else shortest)
  else ret shortest.

(** Go on with the shortest wait seen, or return. *)
Inductive verdict := Next (shortest : Z) | Stop (r : result chain_error (option C)).

Definition run_account (name fqdn curCA : string) (live : list string) (a : account) (shortest : Z) : M verdict :=
  let! ended := dep cd_runEnded in
  if ended : bool then ret (Stop (Err CETransient))
  else
    let! cr := dep (cd_CACooldown (a_id a)) in
    let cool := match cr with Ok d => d | Err _ => 0 end in
    if 0 <? cool then let! s := note cool shortest in ret (Next s)
    else
      let! att := attempt a fqdn (String.eqb curCA CALetsEncrypt && String.eqb (a_ca a) CALetsEncrypt) live in
      match att with
      | Skipped wait =>
          if 0 <? wait then let! s := note wait shortest in ret (Next s)
          else
            let! _ := dep (cd_ResetCAFailures (a_id a)) in
            let! _ := emit (EvIssue (a_ca a) "ok") in ret (Stop (Ok None))
      | Tried (Ok c) _ =>
          let! _ := dep (cd_ResetCAFailures (a_id a)) in
          let! _ := emit (EvIssue (a_ca a) "ok") in ret (Stop (Ok (Some c)))
      | Tried (Err e) true => ret (Stop (Err CETransient))
      | Tried (Err e) false =>
          let '(class, retry) := class_of e in
          match class with
          | ClassLocal =>
              if ie_panicked e then let! s := note retry shortest in ret (Next s)
              else ret (Stop (Err (CELocal retry)))
          | _ =>
              let! _ := emit (EvIssue (a_ca a) match class with ClassRateLimited => "rate-limited" | _ => "fail" end) in
              let! f := handleFailure a e in
              let '(cool, permanent) := f in
              if permanent : bool then ret (Stop (Err (CEPermanent e)))
              else let! s := note cool shortest in ret (Next s)
          end
      end.

Fixpoint run_accounts (name fqdn curCA : string) (live : list string) (l : list account) (shortest : Z) : M verdict :=
  match l with
  | [] => ret (Next shortest)
  | a :: l' =>
      let! v := run_account name fqdn curCA live a shortest in
      match v with Next s => run_accounts name fqdn curCA live l' s | Stop r => ret (Stop r) end
  end.

Fixpoint run_groups (name fqdn curCA : string) (live : list string) (gs : list (list account)) (shortest : Z) : M verdict :=
  match gs with
  | [] => ret (Next shortest)
  | g :: gs' =>
      let! l := ordered g live in
      let! v := run_accounts name fqdn curCA live l shortest in
      match v with Next s => run_groups name fqdn curCA live gs' s | Stop r => ret (Stop r) end
  end.

(** The name of a CSR: its first DNS name, its common name, or the tunnel's. *)
Definition fqdn_of (csr : option (list string * string)) (name : string) : string :=
  match csr with
  | Some (dns :: _, _) => dns
  | Some ([], cn) => if String.eqb cn "" then name else cn
  | None => name
  end.

Definition run (accounts : list account) (csr : option (list string * string)) (name curCA : string)
    : M (result chain_error (option C)) :=
  let! live := liveNodes in
  let! v := run_groups name (fqdn_of csr name) curCA live (groups accounts) 0 in
  match v with
  | Stop r => ret r
  | Next shortest =>
      let! j := dep (cd_Rand 10) in
      let shortest := if shortest =? 0 then cc_CooldownDefault cfg else shortest in
      ret (Err (CEExhausted (shortest + (1 + j) * second)))
  end.

Definition Obtain (accounts : list account) (csr : option (list string * string)) (name : string) := run accounts csr name "".
Definition Renew (accounts : list account) (csr : option (list string * string)) (name curCA : string) :=
  run accounts csr name curCA.

(** ** The levels of all budgets *)
Fixpoint bucket_levels (a : account) (bs : list (string * Bucket)) (live : list string)
    : M (result unit (list (string * string * string * float64))) :=
  match bs with
  | [] => ret (Ok [])
  | (name, b) :: bs' =>
      let! r := dep (cd_ACMEBudgetLevel b live) in
      match r with
      | Err e => ret (Err e)
      | Ok lv =>
          let! rest := bucket_levels a bs' live in
          ret match rest with Ok ls => Ok ((a_ca a, a_label a, name, lv) :: ls) | Err e => Err e end
      end
  end.

Fixpoint all_levels (l : list account) (live : list string) : M (result unit (list (string * string * string * float64))) :=
  match l with
  | [] => ret (Ok [])
  | a :: l' =>
      let! r := bucket_levels a (accountBuckets (cc_Budgets cfg) a) live in
      match r with
      | Err e => ret (Err e)
      | Ok ls => let! rest := all_levels l' live in ret match rest with Ok ls' => Ok (ls ++ ls') | Err e => Err e end
      end
  end.

Definition ACMEBudgetLevels (accounts : list account) : M (result unit (list (string * string * string * float64))) :=
  let! r := dep cd_LiveNodeIDs in
  match r with
  | Err e => ret (Err e)
  | Ok ids =>
      all_levels (concat (groups accounts))
        (if bool_decide (cc_NodeID cfg ∈ ids) then ids else ids ++ [cc_NodeID cfg])
  end.
End chain.

(** ** Reading a trace *)
Section traces.
Context {C : Type}.
Implicit Type tr : list (cevent C).

Definition reserved tr : list (string * Bucket) :=
  flat_map (λ e, match e with EvReserve m bs => map (pair m) bs | _ => [] end) tr.
Definition settled tr : list (string * Bucket) :=
  flat_map (λ e, match e with EvCommit m b => [(m, b)] | EvRelease m bs => map (pair m) bs | _ => [] end) tr.
Definition certs tr : list C := flat_map (λ e, match e with EvCert c => [c] | _ => [] end) tr.
Definition tried tr : list account := flat_map (λ e, match e with EvTry a => [a] | _ => [] end) tr.
Definition notes tr : list Z := flat_map (λ e, match e with EvNote d => [d] | _ => [] end) tr.

Definition balanced tr : Prop := reserved tr ≡ₚ settled tr.

(** Nothing the theorems look at. *)
Definition silent tr : Prop := reserved tr = [] ∧ settled tr = [] ∧ certs tr = [] ∧ tried tr = [] ∧ notes tr = [].

Lemma reserved_app a b : reserved (a ++ b) = reserved a ++ reserved b.
Proof. apply flat_map_app. Qed.
Lemma settled_app a b : settled (a ++ b) = settled a ++ settled b.
Proof. apply flat_map_app. Qed.
Lemma certs_app a b : certs (a ++ b) = certs a ++ certs b.
Proof. apply flat_map_app. Qed.
Lemma tried_app a b : tried (a ++ b) = tried a ++ tried b.
Proof. apply flat_map_app. Qed.
Lemma notes_app a b : notes (a ++ b) = notes a ++ notes b.
Proof. apply flat_map_app. Qed.

Lemma silent_nil : silent [].
Proof. done. Qed.
Lemma silent_app a b : silent a → silent b → silent (a ++ b).
Proof.
  intros (A1 & A2 & A3 & A4 & A5) (B1 & B2 & B3 & B4 & B5). unfold silent.
  by rewrite reserved_app, settled_app, certs_app, tried_app, notes_app, A1, A2, A3, A4, A5, B1, B2, B3, B4, B5.
Qed.
Lemma balanced_app a b : balanced a → balanced b → balanced (a ++ b).
Proof. unfold balanced. rewrite reserved_app, settled_app. by intros -> ->. Qed.
Lemma silent_balanced a : silent a → balanced a.
Proof. intros (A1 & A2 & _). unfold balanced. by rewrite A1, A2. Qed.
End traces.
#[export] Hint Resolve silent_nil silent_app balanced_app silent_balanced : tunneld.

(** ** What an operation adds to the trace *)
Section adds.
Context {B C : Type}.
#[local] Notation M := (M (B := B) (C := C)).

Definition adds {A} (m : M A) (Q : A → list (cevent C) → Prop) : Prop :=
  ∀ s, ∃ d, cs_trace (m s).2 = cs_trace s ++ d ∧ Q (m s).1 d.

Lemma adds_ret {A} (a : A) Q : Q a [] → adds (ret a) Q.
Proof. intros HQ s. exists []. split; [by rewrite app_nil_r|done]. Qed.

Lemma adds_mono {A} (m : M A) (Q Q' : A → list (cevent C) → Prop) : adds m Q → (∀ a d, Q a d → Q' a d) → adds m Q'.
Proof. intros Hm HQ s. destruct (Hm s) as (d & ? & ?). eauto. Qed.

Lemma adds_bind {A A'} (m : M A) (k : A → M A') Q1 Q :
  adds m Q1 → (∀ a d1, Q1 a d1 → adds (k a) (λ x d2, Q x (d1 ++ d2))) → adds (bind m k) Q.
Proof.
  intros Hm Hk s. unfold bind. destruct (Hm s) as (d1 & E1 & Q1a). destruct (m s) as [a s1]. simpl in *.
  destruct (Hk a d1 Q1a s1) as (d2 & E2 & Q2). exists (d1 ++ d2). split; [|done]. by rewrite E2, E1, app_assoc.
Qed.

Lemma adds_dep {A} (f : B → A * B) Q : (∀ a, (∃ b b', f b = (a, b')) → Q a []) → adds (dep f) Q.
Proof.
  intros HQ s. unfold dep. destruct (f (cs_b s)) as [a b] eqn:E. exists []. split; [by rewrite app_nil_r|]. apply HQ. eauto.
Qed.

Lemma adds_dep_bind {A A'} (f : B → A * B) (k : A → M A') Q :
  (∀ a, (∃ b b', f b = (a, b')) → adds (k a) Q) → adds (bind (dep f) k) Q.
Proof. intros Hk. apply (adds_bind _ _ (λ a d, (∃ b b', f b = (a, b')) ∧ d = [])); [by apply adds_dep|]. intros a ? [? ->]. by apply Hk. Qed.

Lemma adds_emit_bind {A'} e (k : unit → M A') Q : adds (k tt) (λ x d, Q x (e :: d)) → adds (bind (emit e) k) Q.
Proof.
  intros Hk. apply (adds_bind _ _ (λ _ d, d = [e])).
  - intros s. by exists [e].
  - intros [] ? ->. done.
Qed.
End adds.

Ltac deps := repeat (apply adds_dep_bind; intros ? _).

Section proofs.
Context {B C : Type} `{ChainDeps B C} `{!ChainLaws B C} `{PublicSuffix} `{UnicodeCase} (cfg : ChainConfig).

Lemma refund_silent a unused mark : adds (refund cfg a unused mark) (λ _ d, silent (C := C) d).
Proof.
  unfold refund. deps. destruct a0 as [[? cur]|]; [|by apply adds_ret].
  destruct (_ && _); [by apply adds_ret|]. deps. by apply adds_ret.
Qed.

Lemma commits_add a member bs :
  adds (forM (commit cfg a member) bs) (λ _ d, d = map (EvCommit (C := C) member) bs).
Proof.
  induction bs as [|b bs IH]; [by apply adds_ret|]. cbn [forM].
  apply (adds_bind _ _ (λ _ d, d = [EvCommit member b])).
  - unfold commit. apply adds_emit_bind. deps. by apply adds_ret.
  - intros ? ? ->. eapply adds_mono; [apply IH|]. by intros ? ? ->.
Qed.

Lemma settled_commits member bs :
  settled (map (EvCommit (C := C) member) bs) = map (pair member) bs ∧ reserved (map (EvCommit (C := C) member) bs) = [] ∧
  certs (map (EvCommit (C := C) member) bs) = [] ∧ tried (map (EvCommit (C := C) member) bs) = [] ∧
  notes (map (EvCommit (C := C) member) bs) = [].
Proof. induction bs as [|b bs (I1 & I2 & I3 & I4 & I5)]; [done|]. simpl. by rewrite I1, I2, I3, I4, I5. Qed.

(** Settling touches each budget of the order once, and nothing else. *)
Definition settles (member : string) (bs : list Bucket) (d : list (cevent C)) : Prop :=
  settled d ≡ₚ map (pair member) bs ∧ reserved d = [] ∧ certs d = [] ∧ tried d = [] ∧ notes d = [].

Lemma settle_settles a member onCreate onSuccess tr out ok :
  adds (settle cfg a member onCreate onSuccess tr out ok) (λ _ d, settles member (onCreate ++ onSuccess) d).
Proof.
  unfold settle.
  set (spend := (if ok || o_created out then onCreate else []) ++ (if ok || o_finalized out then onSuccess else [])).
  set (back := (if ok || o_created out then [] else onCreate) ++ (if ok || o_finalized out then [] else onSuccess)).
  eapply adds_bind; [apply commits_add|]. intros ? ? ->.
  assert (map (pair member) spend ++ map (pair member) back ≡ₚ map (pair member) (onCreate ++ onSuccess)) as Hp.
  { rewrite <- map_app. apply Permutation_map. unfold spend, back.
    destruct ok, (o_created out), (o_finalized out); simpl; rewrite ?app_nil_r; try done; apply Permutation_app_comm. }
  clearbody spend back. destruct (settled_commits member spend) as (S1 & S2 & S3 & S4 & S5).
  eapply (adds_bind _ _ (λ _ d, d = [EvRelease member back])).
  { unfold release. apply adds_emit_bind. deps. by apply adds_ret. }
  intros ? ? ->. unfold drainPrepaid.
  eapply (adds_bind _ _ (λ _ d, silent d)).
  { destruct (0 <? _); [apply refund_silent|]. by apply adds_ret. }
  intros _ d3 (T1 & T2 & T3 & T4 & T5).
  assert (settles member (onCreate ++ onSuccess) (map (EvCommit member) spend ++ [EvRelease member back] ++ d3 ++ [])) as Hd.
  { unfold settles. rewrite app_nil_r, !settled_app, !reserved_app, !certs_app, !tried_app, !notes_app.
    rewrite S1, S2, S3, S4, S5, T1, T2, T3, T4, T5. simpl. by rewrite !app_nil_r. }
  destruct (o_abandoned out); [by apply adds_dep|by apply adds_ret].
Qed.

(** ** Attempts *)
Record attempt_adds (a : account) (r : attempted (C := C)) (d : list (cevent C)) : Prop := {
  aa_balanced : balanced d;
  aa_certs : certs d = match r with Tried (Ok c) _ => [c] | _ => [] end;
  aa_tried : tried d = [] ∨ tried d = [a];
  aa_notes : notes d = [];
  aa_skip w : r = Skipped w → 0 < w
}.

Lemma attempt_adds_nil a r :
  match r with Tried (Ok _) _ => False | Skipped w => 0 < w | _ => True end → attempt_adds a r [].
Proof.
  intros Hr. constructor; [by apply silent_balanced| |by left|done|].
  - by destruct r as [|[]].
  - by intros w ->.
Qed.

Lemma attempt_spec a fqdn leRenewal live : adds (attempt cfg a fqdn leRenewal live) (attempt_adds a).
Proof.
  unfold attempt. apply adds_dep_bind. intros [e|] _.
  { deps. apply adds_ret. by apply attempt_adds_nil. }
  destruct (orderBuckets _ a fqdn leRenewal) as [onCreate onSuccess].
  apply adds_dep_bind. intros member _. do 2 (apply adds_dep_bind; intros ? _).
  apply adds_dep_bind. intros r (b & b' & Hr).
  set (rest := bind (emit (EvReserve member _)) _).
  assert (adds rest (attempt_adds a)) as Hrest.
  2:{ destruct r as [[[] w]|]; [done| |done]. apply adds_ret, attempt_adds_nil. by eapply law_reserve. }
  clear r Hr. unfold rest. apply adds_emit_bind. destruct (prepayBucket _ a) as [pb perOrder].
  eapply (adds_bind _ _ (λ _ d, d = [])); [destruct (0 <? perOrder); [by apply adds_dep|by apply adds_ret]|].
  intros st ? ->. cbn [app]. destruct (match st with Ok (_, m) => (perOrder, m) | Err _ => (0, "") end) as [per mark].
  apply adds_dep_bind. intros p _. destruct (match p with Ok pw => pw | Err _ => (0, 0) end) as [prepaid pwait].
  destruct (Z.ltb_spec 0 pwait) as [Hw|_].
  { eapply (adds_bind _ _ (λ _ d, d = [EvRelease member (onCreate ++ onSuccess)])).
    { unfold release. apply adds_emit_bind. deps. by apply adds_ret. }
    intros ? ? ->. apply adds_ret. constructor; try done; [|by left|by intros ? [= <-]].
    unfold balanced. simpl. by rewrite !app_nil_r. }
  destruct (if String.eqb (a_ca a) CALetsEncrypt then _ else _) as [nb db].
  apply adds_emit_bind. apply adds_dep_bind. intros ob _.
  eapply (adds_bind _ _ (λ _ d, d = match ob_result ob with Ok c => [EvCert c] | Err _ => [] end)).
  { destruct (ob_result ob); [intros s; by eexists|by apply adds_ret]. }
  intros ? ? ->. apply adds_dep_bind. intros ended _.
  eapply adds_bind; [apply settle_settles|]. intros ? d2 (S1 & S2 & S3 & S4 & S5). apply adds_ret. rewrite app_nil_r.
  assert (∀ ev : list (cevent C), reserved ev = [] → settled ev = [] → tried ev = [] → notes ev = [] →
    balanced (EvReserve member (onCreate ++ onSuccess) :: EvTry a :: ev ++ d2) ∧
    tried (EvReserve member (onCreate ++ onSuccess) :: EvTry a :: ev ++ d2) = [a] ∧
    notes (EvReserve member (onCreate ++ onSuccess) :: EvTry a :: ev ++ d2) = [] ∧
    certs (EvReserve member (onCreate ++ onSuccess) :: EvTry a :: ev ++ d2) = certs ev) as Hev.
  { intros ev E1 E2 E3 E4. unfold balanced. cbn [reserved settled tried notes certs flat_map app].
    fold (reserved (ev ++ d2)) (settled (ev ++ d2)) (tried (ev ++ d2)) (notes (ev ++ d2)) (certs (ev ++ d2)).
    rewrite reserved_app, settled_app, tried_app, notes_app, certs_app, E1, E2, E3, E4, S2, S3, S4, S5.
    simpl. rewrite !app_nil_r. by rewrite S1. }
  destruct (ob_result ob) as [c|e].
  - destruct (Hev [EvCert c] eq_refl eq_refl eq_refl eq_refl) as (V1 & V2 & V3 & V4).
    constructor; [exact V1|exact V4|by right|exact V3|done].
  - destruct (Hev [] eq_refl eq_refl eq_refl eq_refl) as (V1 & V2 & V3 & V4).
    constructor; [exact V1|exact V4|by right|exact V3|done].
Qed.

(** ** Orders of the accounts *)
Lemma shuffle_spec i : ∀ l, adds (shuffle i l) (λ l' d, d = [] ∧ l' ≡ₚ l).
Proof.
  induction i as [|i IH]; intros l; cbn [shuffle]; [by apply adds_ret|].
  apply adds_dep_bind. intros j _. destruct (l !! Datatypes.S i) as [x|] eqn:Ex; [|apply IH].
  destruct (l !! Z.to_nat j) as [y|] eqn:Ey; [|apply IH].
  eapply adds_mono; [apply IH|]. intros l' d [-> Hp]. split; [done|].
  rewrite Hp. by apply Permutation_insert_swap.
Qed.

Lemma levels_spec live l :
  adds (levels cfg l live) (λ r d, d = [] ∧ match r with Some ls => ls.*1 = l | None => True end).
Proof.
  induction l as [|a l IH]; cbn [levels]; [by apply adds_ret|].
  apply adds_dep_bind. intros [lv|] _; [|by apply adds_ret].
  eapply adds_bind; [apply IH|]. intros r ? [-> Hr]. apply adds_ret.
  destruct r as [ls|]; [|done]. split; [done|]. rewrite <- Hr. done.
Qed.

Lemma insert_level_Permutation x l : insert_level x l ≡ₚ x :: l.
Proof.
  induction l as [|y l IH]; [done|]. cbn [insert_level]. destruct (cmp_Compare y.2 x.2); [done..|].
  rewrite IH. constructor.
Qed.

Lemma sort_levels_Permutation l : fold_right insert_level [] l ≡ₚ l.
Proof. induction l as [|x l IH]; [done|]. simpl. by rewrite insert_level_Permutation, IH. Qed.

Lemma ordered_spec g live : adds (ordered cfg g live) (λ l d, d = [] ∧ l ≡ₚ g).
Proof.
  unfold ordered. destruct (length g <? 2)%nat; [by apply adds_ret|].
  eapply adds_bind; [apply shuffle_spec|]. intros out ? [-> Hout].
  eapply adds_bind; [apply levels_spec|]. intros lv ? [-> Hlv]. apply adds_ret. split; [done|].
  destruct lv as [ls|]; [|done]. rewrite <- Hout, <- Hlv. by rewrite sort_levels_Permutation.
Qed.

(** ** One account *)
Definition shorter (s n : Z) : Z := if (s =? 0) || (n <? s) then n else s.

Record account_adds (sub : list account) (shortest : Z) (v : verdict (C := C)) (d : list (cevent C)) : Prop := {
  ac_balanced : balanced d;
  ac_tried : tried d `sublist_of` sub;
  ac_certs : match v with Stop (Ok (Some c)) => certs d = [c] | Stop (Ok None) => False | _ => certs d = [] end;
  ac_notes : Forall (λ n, 0 < n) (notes d);
  ac_shortest s : v = Next s → s = fold_left shorter (notes d) shortest;
  ac_stop retry : v ≠ Stop (Err (CEExhausted retry))
}.

Lemma setCooldown_silent a d0 : adds (setCooldown a d0) (λ _ d, silent (C := C) d).
Proof.
  unfold setCooldown. apply adds_emit_bind. apply adds_dep_bind. intros [] _; [|by apply adds_ret].
  apply adds_dep_bind. intros r _. by apply adds_ret.
Qed.

Lemma handleFailure_silent a e : adds (handleFailure cfg a e) (λ _ d, silent (C := C) d).
Proof.
  unfold handleFailure. destruct (class_of e) as [class retry].
  assert (∀ d0, adds (bind (setCooldown a d0) (λ d, ret (d, false))) (λ _ d, silent (C := C) d)) as Hset.
  { intros d0. eapply adds_bind; [apply setCooldown_silent|]. intros ? ? Hd. apply adds_ret. by rewrite app_nil_r. }
  destruct class; [apply Hset| |by apply adds_ret|];
    (apply adds_dep_bind; intros r _; destruct (0 <? _); [by apply adds_ret|];
     apply adds_dep_bind; intros ? _; apply Hset).
Qed.

Lemma note_spec d0 shortest :
  adds (C := C) (B := B) (note d0 shortest) (λ s d, ∃ ns, d = map EvNote ns ∧ Forall (λ n, 0 < n) ns ∧ s = fold_left shorter ns shortest).
Proof.
  unfold note. destruct (Z.ltb_spec 0 d0).
  - apply adds_emit_bind, adds_ret. exists [d0]. split_and!; [done|by repeat constructor|done].
  - apply adds_ret. by exists [].
Qed.

Lemma notes_of_notes (ns : list Z) :
  notes (C := C) (map EvNote ns) = ns ∧ reserved (C := C) (map EvNote ns) = [] ∧ settled (C := C) (map EvNote ns) = [] ∧
  certs (C := C) (map EvNote ns) = [] ∧ tried (C := C) (map EvNote ns) = [].
Proof. induction ns as [|n ns (I1 & I2 & I3 & I4 & I5)]; [done|]. simpl. by rewrite I1, I2, I3, I4, I5. Qed.

(** An attempt that brought no certificate. *)
Definition quiet (a : account) (d : list (cevent C)) : Prop :=
  balanced d ∧ tried d `sublist_of` [a] ∧ certs d = [] ∧ notes d = [].

Lemma quiet_nil a : quiet a [].
Proof. split_and!; [by apply silent_balanced|apply sublist_nil_l|done|done]. Qed.

Lemma quiet_silent a d1 d2 : quiet a d1 → silent d2 → quiet a (d1 ++ d2).
Proof.
  intros (Q1 & Q2 & Q3 & Q4) Hs. pose proof Hs as (_ & _ & S3 & S4 & S5). unfold quiet.
  rewrite tried_app, certs_app, notes_app, S3, S4, S5, Q3, Q4, app_nil_r. auto with tunneld.
Qed.

Lemma quiet_attempt a r d :
  attempt_adds a r d → match r with Tried (Ok _) _ => False | _ => True end → quiet a d.
Proof.
  intros [V1 V2 V3 V4 _] Hr. split_and!; [done| | |done].
  - destruct V3 as [->| ->]; [apply sublist_nil_l|done].
  - rewrite V2. by destruct r as [|[]].
Qed.

Lemma quiet_stop a shortest e d :
  (∀ retry, e ≠ CEExhausted retry) → quiet a d → account_adds [a] shortest (Stop (Err e)) d.
Proof. intros He (Q1 & Q2 & Q3 & Q4). constructor; try done; [by rewrite Q4|by intros r [= Hr]; apply (He r)]. Qed.

Lemma quiet_note a d1 d0 shortest :
  quiet a d1 →
  adds (B := B) (bind (note d0 shortest) (λ s, ret (Next s))) (λ v d2, account_adds [a] shortest v (d1 ++ d2)).
Proof.
  intros (Q1 & Q2 & Q3 & Q4). eapply adds_bind; [apply note_spec|]. intros s d2 (ns & -> & Hpos & ->).
  apply adds_ret. rewrite app_nil_r. destruct (notes_of_notes ns) as (N1 & N2 & N3 & N4 & N5).
  assert (notes (d1 ++ map EvNote ns) = ns) as Hn by by rewrite notes_app, Q4, N1.
  constructor; rewrite ?Hn; try done.
  - apply balanced_app; [done|]. unfold balanced. by rewrite N2, N3.
  - by rewrite tried_app, N5, app_nil_r.
  - by rewrite certs_app, N4, app_nil_r.
  - by intros s [= <-].
Qed.

Lemma run_account_spec name fqdn curCA live a shortest :
  adds (run_account cfg name fqdn curCA live a shortest) (account_adds [a] shortest).
Proof.
  unfold run_account. apply adds_dep_bind. intros [] _.
  { apply adds_ret, quiet_stop; [done|apply quiet_nil]. }
  apply adds_dep_bind. intros cr _. destruct (0 <? _); [apply (quiet_note a []), quiet_nil|].
  eapply adds_bind; [apply attempt_spec|]. intros [w|[c|e] ended] d1 Hd.
  - pose proof (aa_skip _ _ _ Hd w eq_refl) as Hw. apply Z.ltb_lt in Hw as ->.
    apply quiet_note. by eapply quiet_attempt.
  - apply adds_dep_bind. intros ? _. apply adds_emit_bind, adds_ret.
    destruct Hd as [V1 V2 V3 V4 _].
    constructor; rewrite ?tried_app, ?certs_app, ?notes_app, ?V2, ?V4; try done; [|].
    + by apply balanced_app; [|apply silent_balanced].
    + simpl. rewrite app_nil_r. destruct V3 as [->| ->]; [apply sublist_nil_l|done].
  - assert (quiet a d1) as Hq by by eapply quiet_attempt.
    destruct ended; [apply adds_ret; rewrite app_nil_r; by apply quiet_stop|].
    destruct (class_of e) as [class retry].
    assert (∀ res, adds (bind (emit (EvIssue (a_ca a) res)) (λ _, bind (handleFailure cfg a e) (λ '(cool, permanent),
        if permanent : bool then ret (Stop (Err (CEPermanent e))) else bind (note cool shortest) (λ s, ret (Next s)))))
        (λ v d2, account_adds [a] shortest v (d1 ++ d2))) as Hfail.
    { intros res. apply adds_emit_bind. eapply adds_bind; [apply handleFailure_silent|].
      intros [cool permanent] d2 Hs.
      assert (quiet a (d1 ++ EvIssue (a_ca a) res :: d2)) as Hq2.
      { apply quiet_silent; [done|]. by apply (silent_app [_]). }
      destruct permanent.
      - apply adds_ret. rewrite app_nil_r. by apply quiet_stop.
      - eapply adds_mono; [by apply quiet_note|]. intros v d3 Hv. cbn beta in Hv |- *. by rewrite <- (app_assoc d1) in Hv. }
    destruct class; [apply Hfail|apply Hfail|apply Hfail|].
    destruct (ie_panicked e); [by apply quiet_note|].
    apply adds_ret. rewrite app_nil_r. by apply quiet_stop.
Qed.

(** ** All accounts *)
Lemma account_adds_nil shortest : account_adds [] shortest (Next shortest) [].
Proof. constructor; try done; [by apply silent_balanced|by intros s [= <-]]. Qed.

Lemma account_adds_app l1 l2 shortest s v d1 d2 :
  account_adds l1 shortest (Next s) d1 → account_adds l2 s v d2 → account_adds (l1 ++ l2) shortest v (d1 ++ d2).
Proof.
  intros [A1 A2 A3 A4 A5 _] [B1 B2 B3 B4 B5 B6].
  constructor; rewrite ?tried_app, ?notes_app, ?certs_app, ?A3; try done.
  - by apply balanced_app.
  - by apply sublist_app.
  - by apply Forall_app.
  - intros s' Hv. rewrite fold_left_app, <- (A5 s eq_refl). by apply B5.
Qed.

Lemma account_adds_stop l1 l2 shortest r d :
  account_adds l1 shortest (Stop r) d → account_adds (l1 ++ l2) shortest (Stop r) d.
Proof. intros [A1 A2 A3 A4 A5 A6]. constructor; try done. by apply sublist_inserts_r. Qed.

Lemma run_accounts_spec name fqdn curCA live l :
  ∀ shortest, adds (run_accounts cfg name fqdn curCA live l shortest) (account_adds l shortest).
Proof.
  induction l as [|a l IH]; intros shortest; cbn [run_accounts]; [by apply adds_ret, account_adds_nil|].
  eapply adds_bind; [apply run_account_spec|]. intros [s|r] d1 Hd.
  - eapply adds_mono; [apply IH|]. intros v d2. by apply (account_adds_app [a]).
  - apply adds_ret. rewrite app_nil_r. by apply (account_adds_stop [a]).
Qed.

Lemma run_groups_spec name fqdn curCA live gs :
  ∀ shortest, adds (run_groups cfg name fqdn curCA live gs shortest) (λ v d,
    ∃ ls, Forall2 (≡ₚ) ls gs ∧ account_adds (concat ls) shortest v d).
Proof.
  induction gs as [|g gs IH]; intros shortest; cbn [run_groups].
  { apply adds_ret. exists []. split; [done|apply account_adds_nil]. }
  eapply adds_bind; [apply ordered_spec|]. intros l ? [-> Hl].
  eapply adds_bind; [apply run_accounts_spec|]. intros [s|r] d1 Hd.
  - eapply adds_mono; [apply IH|]. intros v d2 (ls & Hls & Hd2). exists (l :: ls). split; [by constructor|].
    apply (account_adds_app l (concat ls) shortest s _ d1); [exact Hd|exact Hd2].
  - apply adds_ret. exists (l :: gs). split; [by constructor|]. rewrite app_nil_r. by apply account_adds_stop.
Qed.

Lemma liveNodes_spec : adds (C := C) (liveNodes cfg) (λ _ d, d = []).
Proof. unfold liveNodes. apply adds_dep_bind. intros r _. by apply adds_ret. Qed.

(** What a whole run adds to the trace. *)
Record run_adds (accounts : list account) (r : result chain_error (option C)) (d : list (cevent C)) : Prop := {
  ra_balanced : balanced d;
  ra_tried : ∃ ls, Forall2 (≡ₚ) ls (groups accounts) ∧ tried d `sublist_of` concat ls;
  ra_certs : match r with Ok (Some c) => certs d = [c] | Ok None => False | Err _ => certs d = [] end;
  ra_exhausted retry : r = Err (CEExhausted retry) →
    ∃ j, 0 ≤ j < 10 ∧ Forall (λ n, 0 < n) (notes d) ∧
      retry = (if fold_left shorter (notes d) 0 =? 0 then cc_CooldownDefault cfg else fold_left shorter (notes d) 0)
              + (1 + j) * second
}.

Lemma run_spec accounts csr name curCA : adds (run cfg accounts csr name curCA) (run_adds accounts).
Proof.
  unfold run. eapply adds_bind; [apply liveNodes_spec|]. intros live ? ->.
  eapply adds_bind; [apply run_groups_spec|]. intros v d (ls & Hls & [A1 A2 A3 A4 A5 A6]).
  destruct v as [s|r].
  - apply adds_dep_bind. intros j (b & b' & Hj). apply adds_ret. rewrite app_nil_r. cbn [app]. constructor; [done|eauto|done|].
    intros retry [= <-]. exists j. rewrite <- (A5 s eq_refl). split_and!; [| |done|done].
    all: pose proof (law_rand 10 b) as Hr; rewrite Hj in Hr; simpl in Hr; lia.
  - apply adds_ret. rewrite app_nil_r. cbn [app]. constructor; [done|eauto|by destruct r as [[]|]|].
    intros retry ->. by destruct (A6 retry).
Qed.

(** A run from an empty trace. *)
Lemma run_from_empty accounts csr name curCA s r s' :
  run cfg accounts csr name curCA s = (r, s') → cs_trace s = [] → run_adds accounts r (cs_trace s').
Proof. intros E Hs. destruct (run_spec accounts csr name curCA s) as (d & Hd & Hr). rewrite E, Hs in *. simpl in *. by subst. Qed.

Lemma fold_shorter_pos ns : ∀ s, 0 < s → Forall (λ n, 0 < n) ns →
  0 < fold_left shorter ns s ∧ fold_left shorter ns s ∈ s :: ns ∧ (∀ n, n ∈ s :: ns → fold_left shorter ns s ≤ n).
Proof.
  induction ns as [|n ns IH]; intros s Hs Hpos.
  { simpl. split_and!; [done|set_solver|]. intros n ->%list_elem_of_singleton. lia. }
  apply Forall_cons in Hpos as [Hn Hpos]. cbn [fold_left].
  assert (shorter s n = Z.min s n) as -> by (unfold shorter; destruct (Z.eqb_spec s 0), (Z.ltb_spec n s); simpl; lia).
  destruct (IH (Z.min s n)) as (I1 & I2 & I3); [lia|done|]. split_and!; [done| |].
  - apply elem_of_cons in I2 as [->|]; [|set_solver]. destruct (Z.min_dec s n) as [->| ->]; set_solver.
  - intros m Hm. assert (m = s ∨ m = n ∨ m ∈ ns) as [->|[->|Hm']] by set_solver.
    + etrans; [apply I3; left|]. lia.
    + etrans; [apply I3; left|]. lia.
    + apply I3. by right.
Qed.

Lemma fold_shorter_min n ns :
  Forall (λ m, 0 < m) (n :: ns) →
  0 < fold_left shorter (n :: ns) 0 ∧ fold_left shorter (n :: ns) 0 ∈ n :: ns ∧
  (∀ m, m ∈ n :: ns → fold_left shorter (n :: ns) 0 ≤ m).
Proof. intros [Hn Hpos]%Forall_cons. cbn [fold_left]. by apply fold_shorter_pos. Qed.

(** C38. No reservation is forgotten and none is settled twice. In every run of the
    chain, over any limiter, any certificate authorities and any clock, the reservations
    of budgets that were made are, one for one, those that were then committed or
    released (a reservation whose call failed counts as made, and is settled too). *)
Theorem reservations_settled accounts csr name curCA s r s' :
  run cfg accounts csr name curCA s = (r, s') → cs_trace s = [] →
  reserved (cs_trace s') ≡ₚ settled (cs_trace s').
Proof. intros E Hs. by destruct (run_from_empty _ _ _ _ _ _ _ E Hs). Qed.

(** The run returns a certificate if and only if an order produced one, and that one; it
    never reports success without a certificate and never orders again after one. *)
Lemma certificate_never_discarded accounts csr name curCA s r s' :
  run cfg accounts csr name curCA s = (r, s') → cs_trace s = [] →
  match r with
  | Ok (Some c) => certs (cs_trace s') = [c]
  | Ok None => False
  | Err _ => certs (cs_trace s') = []
  end.
Proof. intros E Hs. by destruct (run_from_empty _ _ _ _ _ _ _ E Hs). Qed.

(** A run that used up every account asks to retry after the shortest wait any account
    named (or the default), plus one to ten seconds. *)
Lemma exhausted_retry_is_shortest_wait accounts csr name curCA s retry s' :
  run cfg accounts csr name curCA s = (Err (CEExhausted retry), s') → cs_trace s = [] →
  ∃ wait jitter, 1 ≤ jitter ≤ 10 ∧ retry = wait + jitter * second ∧
    match notes (cs_trace s') with
    | [] => wait = cc_CooldownDefault cfg
    | ns => 0 < wait ∧ wait ∈ ns ∧ ∀ n, n ∈ ns → wait ≤ n
    end.
Proof.
  intros E Hs. destruct (run_from_empty _ _ _ _ _ _ _ E Hs) as [_ _ _ Hx].
  destruct (Hx retry eq_refl) as (j & Hj & Hpos & ->). destruct (notes (cs_trace s')) as [|n ns].
  - exists (cc_CooldownDefault cfg), (1 + j). split_and!; [lia..|done|done].
  - destruct (fold_shorter_min n ns Hpos) as (F1 & F2 & F3). destruct (Z.eqb_spec (fold_left shorter (n :: ns) 0) 0); [lia|].
    exists (fold_left shorter (n :: ns) 0), (1 + j). split_and!; [lia|lia|reflexivity|]. cbv zeta. by split_and!.
Qed.

(** ** The order of the certificate authorities *)
Definition ca_rank (a : account) : nat :=
  if String.eqb (a_ca a) CALetsEncrypt then 0 else if String.eqb (a_ca a) CAGTS then 1 else 2.

Lemma sublist_StronglySorted {A} (R : A → A → Prop) l1 l2 : l1 `sublist_of` l2 → StronglySorted R l2 → StronglySorted R l1.
Proof.
  induction 1 as [|x l1 l2 Hs IH|x l1 l2 Hs IH]; [done| |]; rewrite ?StronglySorted_cons; intros [Hx Hl]; [|auto].
  split; [|auto]. rewrite Forall_forall in Hx |- *. eauto using elem_of_sublist.
Qed.

Lemma groups_concat_submseteq accounts cs :
  NoDup cs → concat (List.filter (λ g, negb (bool_decide (g = []))) (map (group_of accounts) cs)) ⊆+ accounts.
Proof.
  assert (∀ gs : list (list account), concat (List.filter (λ g, negb (bool_decide (g = []))) gs) = concat gs) as ->.
  { induction gs as [|[|x g] gs IH]; [done|done|]. simpl. by rewrite IH. }
  revert accounts. induction cs as [|c cs IH]; intros accounts Hnd; [apply submseteq_nil_l|].
  apply NoDup_cons in Hnd as [Hc Hnd]. cbn [map concat].
  set (rest := List.filter (λ a, negb (String.eqb (a_ca a) c)) accounts).
  assert (map (group_of accounts) cs = map (group_of rest) cs) as ->.
  { apply map_ext_in. intros c' Hin%list_elem_of_In. assert (c' ≠ c) as Hne by (by intros ->).
    unfold group_of, rest. clear -Hne. induction accounts as [|a l IH]; [done|]. simpl.
    destruct (String.eqb_spec (a_ca a) c) as [->|]; simpl.
    - destruct (String.eqb_spec c c'); [by subst|done].
    - destruct (String.eqb (a_ca a) c'); simpl; by rewrite IH. }
  assert (accounts ≡ₚ group_of accounts c ++ rest) as Hp.
  { unfold group_of, rest. clear. induction accounts as [|a l IH]; [done|]. simpl.
    destruct (String.eqb (a_ca a) c); simpl; [by constructor|]. by rewrite <- Permutation_middle; constructor. }
  rewrite Hp at 2. by apply submseteq_skips_l, IH.
Qed.

Lemma groups_sorted accounts ls :
  Forall2 (≡ₚ) ls (groups accounts) → StronglySorted (λ a b, ca_rank a ≤ ca_rank b)%nat (concat ls).
Proof.
  assert (∀ r c cs, (∀ a, a_ca a = c → ca_rank a = r) →
    (∀ ls, Forall2 (≡ₚ) ls (List.filter (λ g, negb (bool_decide (g = []))) (map (group_of accounts) cs)) →
       StronglySorted (λ a b, ca_rank a ≤ ca_rank b)%nat (concat ls) ∧ ∀ a, a ∈ concat ls → (r < ca_rank a)%nat) →
    ∀ ls, Forall2 (≡ₚ) ls (List.filter (λ g, negb (bool_decide (g = []))) (map (group_of accounts) (c :: cs))) →
       StronglySorted (λ a b, ca_rank a ≤ ca_rank b)%nat (concat ls) ∧ ∀ a, a ∈ concat ls → (r ≤ ca_rank a)%nat) as Hstep.
  { intros r c cs Hc IH ls'. cbn [map List.filter]. destruct (negb _).
    2:{ intros Hl. destruct (IH ls' Hl) as [I1 I2]. split; [done|]. intros a Ha%I2. lia. }
    intros (l & ls1 & Hl & Hls & ->)%Forall2_cons_inv_r. destruct (IH ls1 Hls) as [I1 I2]. cbn [concat].
    assert (∀ a, a ∈ l → ca_rank a = r) as Hr.
    { intros a Ha. apply Hc. rewrite Hl in Ha. unfold group_of in Ha.
      apply list_elem_of_In, List.filter_In in Ha as [_ Ha]. by apply String.eqb_eq. }
    split.
    - apply StronglySorted_app_2; [|clear -Hr|done].
      + intros a b Ha Hb%I2. rewrite (Hr a Ha). lia.
      + induction l as [|a l IH]; constructor; [apply IH; set_solver|].
        apply Forall_forall. intros b Hb. rewrite (Hr a), (Hr b) by set_solver. lia.
    - intros a [Ha|Ha]%elem_of_app; [by rewrite Hr|]. apply I2 in Ha. lia. }
  intros Hls. eapply (Hstep 0%nat CALetsEncrypt [CAGTS; CAZeroSSL]); [by intros a E; unfold ca_rank; rewrite E| |exact Hls].
  clear ls Hls. intros ls Hls.
  destruct (Hstep 1%nat CAGTS [CAZeroSSL]) with ls as [S1 R1]; [by intros a E; unfold ca_rank; rewrite E| |exact Hls|].
  - clear ls Hls. intros ls Hls.
    destruct (Hstep 2%nat CAZeroSSL []) with ls as [S2 R2]; [by intros a E; unfold ca_rank; rewrite E| |exact Hls|].
    + intros ls' ->%Forall2_nil_inv_r. split; [constructor|]. by intros a Ha%not_elem_of_nil.
    + split; [done|]. intros a Ha%R2. lia.
  - split; [done|]. intros a Ha%R1. lia.
Qed.

(** The orders of a run go to distinct accounts, Let's Encrypt before Google before
    ZeroSSL. *)
Lemma accounts_tried_once_in_order accounts csr name curCA s r s' :
  run cfg accounts csr name curCA s = (r, s') → cs_trace s = [] →
  tried (cs_trace s') ⊆+ accounts ∧ StronglySorted (λ a b, ca_rank a ≤ ca_rank b)%nat (tried (cs_trace s')).
Proof.
  intros E Hs. destruct (run_from_empty _ _ _ _ _ _ _ E Hs) as [_ (ls & Hls & Ht) _ _]. split.
  - etrans; [by apply sublist_submseteq|]. etrans; [|apply (groups_concat_submseteq _ ca_order)].
    + change (concat ls ⊆+ concat (groups accounts)). apply Permutation_submseteq. clear -Hls. revert Hls. generalize (groups accounts).
      induction 1 as [|l g ls gs Hl _ IH]; [done|]. simpl. by rewrite Hl, IH.
    + apply (bool_decide_unpack _). by vm_compute.
  - eapply sublist_StronglySorted; [done|]. by apply (groups_sorted accounts).
Qed.
End proofs.

(** ** A concrete environment *)
(** Google's account is rate-limited for an hour, ZeroSSL's order works, and
    Let's Encrypt cools down for five minutes. *)
#[local] Instance sample_deps : ChainDeps nat string := {
  cd_CACooldown id n := (Ok (if String.eqb id "le" then 5 * minute else 0), n);
  cd_ResetCAFailures _ n := (Ok tt, n);
  cd_BumpCAFailures _ _ n := (Ok 1, n);
  cd_SetCACooldown _ _ n := (Ok tt, n);
  cd_CAWaitState _ n := (Ok (0, ""), n);
  cd_ReserveACME ca _ _ _ _ _ n := (if String.eqb ca "none" then Ok (false, minute) else Ok (true, 0), n);
  cd_PrepayACME _ _ k n := (Ok (k, 0), n);
  cd_ReleaseACME _ _ _ n := (Ok tt, n);
  cd_CommitACME _ _ _ _ n := (Ok tt, n);
  cd_RefundACME _ _ _ n := (Ok tt, n);
  cd_ACMEBudgetLevel _ _ n := (Ok (S754_zero false), n);
  cd_LiveNodeIDs n := (Ok ["n1"], n);
  cd_prepare _ _ n := (None, n);
  cd_obtain a tr _ n :=
    (Obtained (if String.eqb (a_ca a) CAZeroSSL then Ok "pem"
               else Err (IssueError (Some (ClassRateLimited, hour)) false)) false tr, n);
  cd_cleanups _ n := (tt, n);
  cd_now n := (0, n);
  cd_untilDeadline n := (hour, n);
  cd_runEnded n := (false, n);
  cd_Rand k n := (0, n);
  cd_mintMember n := ("m", S n)
}.

#[local] Instance sample_laws : ChainLaws nat string.
Proof.
  split.
  - intros ca bs node member deadline live b b' w. simpl. destruct (String.eqb ca "none"); by intros [= <- _].
  - intros n b Hn. simpl. lia.
Defined.

#[local] Instance sample_suffix : PublicSuffix := λ n, Some n.
#[local] Instance sample_case : UnicodeCase := {| unicode_lower := id; unicode_upper := id |}.
Definition sample_rate : Rate := MkRate 1 hour 1.
Definition sample_cfg : ChainConfig := {|
  cc_CooldownDefault := hour; cc_BackoffInitial := minute; cc_BackoffMax := hour; cc_NodeID := "n1";
  cc_Budgets := MkBudgets "example.org" sample_rate sample_rate sample_rate sample_rate sample_rate sample_rate sample_rate sample_rate;
  cc_FinalizeGrace := 30 * second |}.
Definition sample_accounts : list account :=
  [Account CAGTS "gts" "main" minute; Account CAZeroSSL "z" "main" minute; Account CALetsEncrypt "le" "main" minute].

Lemma sample_chain_run :
  let '(r, s) := run sample_cfg sample_accounts None "t1" "" (CState 0%nat []) in
  r = Ok (Some "pem") ∧ length (reserved (cs_trace s)) = 2%nat ∧ map a_ca (tried (cs_trace s)) = [CAGTS; CAZeroSSL].
Proof. vm_compute. split_and!; reflexivity. Qed.

Definition short_accounts : list account :=
  [Account CALetsEncrypt "le" "main" minute; Account CAGTS "gts" "main" minute].

Lemma sample_exhausted_run :
  let '(r, s) := run sample_cfg short_accounts None "t1" "" (CState 0%nat []) in
  r = Err (CEExhausted (5 * minute + second)) ∧ notes (cs_trace s) = [5 * minute; hour].
Proof. vm_compute. split; reflexivity. Qed.

Lemma reservations_settled_witness :
  let '(r, s) := run sample_cfg sample_accounts None "t1" "" (CState 0%nat []) in
  length (reserved (cs_trace s)) = 2%nat ∧ reserved (cs_trace s) ≡ₚ settled (cs_trace s).
Proof.
  pose proof sample_chain_run as X. destruct (run _ _ _ _ _ _) as [r s] eqn:E. split; [apply X|].
  by apply (reservations_settled sample_cfg sample_accounts None "t1" "" (CState 0%nat []) r s).
Defined.

Lemma certificate_never_discarded_witness :
  let '(r, s) := run sample_cfg sample_accounts None "t1" "" (CState 0%nat []) in
  r = Ok (Some "pem") ∧ certs (cs_trace s) = ["pem"].
Proof.
  pose proof sample_chain_run as X. destruct (run _ _ _ _ _ _) as [r s] eqn:E. destruct X as [-> _]. split; [done|].
  exact (certificate_never_discarded sample_cfg sample_accounts None "t1" "" (CState 0%nat []) _ s E eq_refl).
Defined.

Lemma accounts_tried_once_in_order_witness :
  let '(r, s) := run sample_cfg sample_accounts None "t1" "" (CState 0%nat []) in
  map a_ca (tried (cs_trace s)) = [CAGTS; CAZeroSSL] ∧
  tried (cs_trace s) ⊆+ sample_accounts ∧ StronglySorted (λ a b, ca_rank a ≤ ca_rank b)%nat (tried (cs_trace s)).
Proof.
  pose proof sample_chain_run as X. destruct (run _ _ _ _ _ _) as [r s] eqn:E. split; [apply X|].
  exact (accounts_tried_once_in_order sample_cfg sample_accounts None "t1" "" (CState 0%nat []) r s E eq_refl).
Defined.

Lemma exhausted_retry_is_shortest_wait_witness :
  let '(r, s) := run sample_cfg short_accounts None "t1" "" (CState 0%nat []) in
  notes (cs_trace s) = [5 * minute; hour] ∧
  ∃ wait jitter, 1 ≤ jitter ≤ 10 ∧ 5 * minute + second = wait + jitter * second ∧
    match notes (cs_trace s) with
    | [] => wait = cc_CooldownDefault sample_cfg
    | ns => 0 < wait ∧ wait ∈ ns ∧ ∀ n, n ∈ ns → wait ≤ n
    end.
Proof.
  pose proof sample_exhausted_run as X. destruct (run _ _ _ _ _ _) as [r s] eqn:E. destruct X as [-> Hn]. split; [done|].
  exact (exhausted_retry_is_shortest_wait sample_cfg short_accounts None "t1" "" (CState 0%nat []) _ s E eq_refl).
Defined.
End AcmeChain.
