(* ===== verification/Issuance.v ===== *)
(** * The issuing chain over the limiter

    [server/server.go] builds the chain with the limiter and the node registry
    of the node.  [limiter_chain] is that composition: the interface of
    [AcmeChain] with the operations of [Limiter], [AcmeBudget] and [Router] in
    its place; only the ACME clients and the run's context remain parameters.
    [limiter_chain_laws] discharges what the chain asks of its limiter, so the
    chain's theorems hold of the composition; [issued_certificate_spends_budget]
    runs it against a concrete server. *)
From Stdlib Require Import ZArith Lia Ascii String Floats.SpecFloat.
From S2P Require Import Prelude GoStr GoFloat Valkey Limiter Router Acme AcmeBudget AcmeChain.
Local Open Scope string_scope.
Local Open Scope list_scope.
Local Open Scope Z_scope.

Module Issuance.
Import GoFloat Acme AcmeChain AcmeBudget.

(** The clients of the certificate authorities and the run's context, which may
    use the server and keep a state of their own. *)
Class IssueEnv (S R C : Type) := {
  ie_prepare : account → Z → world S * R → option issue_error * (world S * R);
  ie_obtain : account → orderTrack → Z → world S * R → obtained C * (world S * R);
  ie_cleanups : nat → world S * R → unit * (world S * R);
  ie_untilDeadline : world S * R → Z * (world S * R);
  ie_runEnded : world S * R → bool * (world S * R);
  ie_Rand : Z → world S * R → Z * (world S * R);
  ie_mintMember : world S * R → string * (world S * R)
}.

(** [liveNodeIDs.LiveNodeIDs] *)
Definition LiveNodeIDs {S} `{ValkeyServer S} (Unmarshal : string → option Router.NodeInfo) : M S (result Router.node_error (list string)) :=
  let* r := Router.LiveNodes Unmarshal in
  ret match r with Ok nodes => Ok (map fst (map_to_list nodes)) | Err e => Err e end.

Section composition.
Context {S R C : Type} `{ValkeyServer S} `{TokenSupply} `{FloatLib} `{IssueEnv S R C}.
Context (Unmarshal : string → option Router.NodeInfo).

(** A call to the limiter; the chain does not look at its errors. *)
Definition on_limiter {E A} (m : M S (result E A)) (b : world S * R) : result unit A * (world S * R) :=
  let '(r, w) := m b.1 in (match r with Ok a => Ok a | Err _ => Err tt end, (w, b.2)).

#[export] Instance limiter_chain : ChainDeps (world S * R) C := {
  cd_CACooldown id := on_limiter (Limiter.CACooldown id);
  cd_ResetCAFailures id := on_limiter (Limiter.ResetCAFailures id);
  cd_BumpCAFailures id d := on_limiter (Limiter.BumpCAFailures id d);
  cd_SetCACooldown id d := on_limiter (Limiter.SetCACooldown id d);
  cd_CAWaitState id := on_limiter (Limiter.CAWaitState id);
  cd_ReserveACME ca bs node member deadline live := on_limiter (ReserveACME ca bs node member deadline live);
  cd_PrepayACME ca b n := on_limiter (PrepayACME ca b n);
  cd_ReleaseACME bs node member := on_limiter (ReleaseACME bs node member);
  cd_CommitACME ca b node member := on_limiter (CommitACME ca b node member);
  cd_RefundACME ca b n := on_limiter (RefundACME ca b n);
  cd_ACMEBudgetLevel b live := on_limiter (ACMEBudgetLevel b live);
  cd_LiveNodeIDs := on_limiter (LiveNodeIDs Unmarshal);
  cd_prepare := ie_prepare;
  cd_obtain := ie_obtain;
  cd_cleanups := ie_cleanups;
  cd_now b := (w_now b.1, b);
  cd_untilDeadline := ie_untilDeadline;
  cd_runEnded := ie_runEnded;
  cd_Rand := ie_Rand;
  cd_mintMember := ie_mintMember
}.

(** The limiter keeps the chain's promise; the random source is the run's. *)
Context (rand_range : ∀ n b, 0 < n → 0 ≤ (ie_Rand (C := C) n b).1 < n).

#[export] Instance limiter_chain_laws : ChainLaws (world S * R) C.
Proof.
  split; [|exact rand_range].
  intros ca bs node member deadline live b b' d. simpl. unfold on_limiter.
  destruct (ReserveACME ca bs node member deadline live b.1) as [[x|] w] eqn:E; [|by intros [=]].
  intros [= -> _]. by apply ReserveACME_refusal_waits in E.
Qed.

(** C39. The chain built over the real limiter and registry, with any ACME clients,
    keeps the promises proved against its interface: over any server, with any failures
    and interference around each command, reservations are settled one for one and a
    run's result is exactly the certificate its orders produced. *)
Theorem chain_over_limiter `{PublicSuffix} `{UnicodeCase} (cfg : ChainConfig) accounts csr name curCA w env :
  let '(r, s) := AcmeChain.run cfg accounts csr name curCA (CState (w, env) []) in
  AcmeChain.balanced (cs_trace s) ∧
  match r with
  | Ok (Some c) => AcmeChain.certs (cs_trace s) = [c]
  | Ok None => False
  | Err _ => AcmeChain.certs (cs_trace s) = []
  end.
Proof.
  destruct (AcmeChain.run cfg accounts csr name curCA (CState (w, env) [])) as [r s] eqn:E.
  by destruct (run_from_empty cfg accounts csr name curCA _ r s E eq_refl).
Qed.
End composition.

(** ** A certificate against a concrete server *)
#[local] Existing Instance bit_floats.
#[local] Instance sample_env : IssueEnv mem_server nat string := {
  ie_prepare _ _ b := (None, b);
  ie_obtain a tr _ b :=
    (Obtained (if String.eqb (a_ca a) CAGTS then Err (IssueError (Some (ClassRateLimited, hour)) false) else Ok "pem")
       false tr, b);
  ie_cleanups _ b := (tt, b);
  ie_untilDeadline b := (minute, b);
  ie_runEnded b := (false, b);
  ie_Rand _ b := (0, b);
  ie_mintMember b := (FormatInt (Z.of_nat b.2), (b.1, S b.2))
}.

Lemma sample_rand (n : Z) (b : world mem_server * nat) : 0 < n → 0 ≤ (ie_Rand (C := string) n b).1 < n.
Proof. simpl. lia. Qed.

#[local] Instance identity_suffix : PublicSuffix := λ n, Some n.
#[local] Instance identity_case : UnicodeCase := {| unicode_lower := id; unicode_upper := id |}.
Definition two_per_hour : Rate := MkRate 2 hour 2.
Definition composed_cfg : ChainConfig := {|
  cc_CooldownDefault := hour; cc_BackoffInitial := minute; cc_BackoffMax := hour; cc_NodeID := "n1";
  cc_Budgets := MkBudgets "example.org" two_per_hour two_per_hour two_per_hour two_per_hour (MkRate 60 minute 20) two_per_hour
                  two_per_hour (MkRate 60 minute 20);
  cc_FinalizeGrace := 30 * second |}.
Definition composed_accounts : list account := [Account CAGTS "g" "main" minute; Account CAZeroSSL "z" "main" minute].

Definition composed_run : result chain_error (option string) * chain_st (B := world mem_server * nat) (C := string) :=
  run (H := limiter_chain (C := string) (λ _, None)) composed_cfg composed_accounts None "t1" "" (CState (sample_world, 0%nat) []).

(** The rate-limited account's tokens are untouched and it cools down; the other
    account's order has spent one of two tokens and left no order in flight. *)
Lemma issued_certificate_spends_budget :
  let z := Account CAZeroSSL "z" "main" minute in
  let g := Account CAGTS "g" "main" minute in
  let b := cc_Budgets composed_cfg in
  let w := (cs_b composed_run.2).1 in
  composed_run.1 = Ok (Some "pem") ∧
  bs_tokens (bucket_at w (zerosslOrders b z)) = of_int 1 ∧
  bs_tokens (bucket_at w (gtsOrders b g)) = of_int 2 ∧
  at_key w (inflightKey (zerosslOrders b z) "n1") = None ∧
  at_key w (inflightKey (gtsOrders b g) "n1") = None ∧
  (Limiter.CACooldown "g" w).1 = Ok hour ∧ (Limiter.CACooldown "z" w).1 = Ok 0.
Proof. vm_compute. split_and!; reflexivity. Qed.

Lemma chain_over_limiter_witness : 
  let '(r, s) := composed_run in
  balanced (cs_trace s) ∧
  match r with Ok (Some c) => certs (cs_trace s) = [c] | Ok None => False | Err _ => certs (cs_trace s) = [] end.
Proof.
  unfold composed_run.
  pose proof (chain_over_limiter (λ _, None) sample_rand composed_cfg composed_accounts None "t1" "" sample_world 0%nat) as T.
  revert T. generalize (run (H := limiter_chain (C := string) (λ _, None)) composed_cfg composed_accounts None "t1" ""
    (CState (sample_world, 0%nat) [])). intros [r s] T. exact T.
Defined.
End Issuance.
