(* ===== verification/Challenges.v ===== *)
(** * ACME challenges shared through Valkey

    [internal/acme/challenge_store.go], [challenge_providers.go] and
    [challenge_http.go].  Any node may be asked by a certificate authority to
    prove control of a host, so the answers to pending challenges are published
    in Valkey: by domain for tls-alpn-01, by domain and token for http-01.  The
    same store holds the lock under which one node orders a certificate for the
    service's own hosts, and the certificate it got.

    Building a challenge certificate out of a key authorization is a parameter. *)
From Stdlib Require Import ZArith Lia Ascii String.
From S2P Require Import Prelude GoStr Valkey.
Local Open Scope string_scope.
Local Open Scope list_scope.
Local Open Scope Z_scope.

Module Challenges.
Export ValkeyClient.

(** ** Addresses and headers *)
Fixpoint LastIndexByte (s : string) (c : ascii) : option nat :=
  match s with
  | "" => None
  | String d s' =>
      match LastIndexByte s' c with
      | Some i => Some (S i)
      | None => if Ascii.eqb d c then Some O else None
      end
  end.

(** [net.SplitHostPort]: the host, or [None] for its error. *)
Definition SplitHostPort (hostport : string) : option (string * string) :=
  match LastIndexByte hostport ":" with
  | None => None
  | Some i =>
      let port := str_drop (S i) hostport in
      match hostport with
      | String "[" rest =>
          match IndexByte hostport "]" with
          | None => None
          | Some e =>
              if negb (S e =? i)%nat then None
              else if ContainsByte rest "[" || ContainsByte (str_drop (S e) hostport) "]" then None
              else Some (str_take (e - 1) rest, port)
          end
      | _ =>
          let host := str_take i hostport in
          if ContainsByte host ":" || ContainsByte hostport "[" || ContainsByte hostport "]" then None
          else Some (host, port)
      end
  end.

(** [html.EscapeString]. *)
Definition escape_byte (c : ascii) : string :=
  if Ascii.eqb c "&" then "&amp;" else if Ascii.eqb c "'" then "&#39;"
  else if Ascii.eqb c "<" then "&lt;" else if Ascii.eqb c ">" then "&gt;"
  else if Ascii.eqb c (Zc 34) then "&#34;" else String c "".
Fixpoint EscapeString (s : string) : string :=
  match s with "" => "" | String c s' => escape_byte c +:+ EscapeString s' end.

Definition CutPrefix (s p : string) : string * bool :=
  if HasPrefix s p then (str_drop (String.length p) s, true) else (s, false).

(** ** The store *)
Inductive chal_error := StoreFailed | ErrChallengePending | BadCertificate.
#[export] Instance chal_error_eq_dec : EqDecision chal_error.
Proof. solve_decision. Defined.
#[export] Instance chal_result_eq_dec {A} `{EqDecision A} : EqDecision (result chal_error A).
Proof. solve_decision. Defined.

Record ChallengeStore := NewChallengeStore { cs_ttl : Z }.
Definition ChallengeTTL : Z := 10 * minute.
Definition selfLockTTL : Z := 10 * minute.

Section store.
Context {S C : Type} `{ValkeyServer S} `{TokenSupply} `{UnicodeCase}.
Context (challengeCertificate : string → string → result unit C) (s : ChallengeStore).

Definition alpnChallengeKey (domain : string) : string := "acme:alpn:" +:+ ToLower domain.
Definition httpChallengeKey (domain token : string) : string :=
  "acme:http:" +:+ ToLower domain +:+ ":" +:+ token.
Definition selfLockKey (host : string) : string := "lock:acme-self:" +:+ ToLower host.
Definition selfCertKey (host : string) : string := "acme:self-cert:" +:+ ToLower host.

(** [get]: [None] when the key is absent. *)
Definition get (key : string) : M S (result chal_error (option string)) :=
  let* r := call (Get key) in
  ret match r with
      | Err RedisNil => Ok None
      | Err RedisErr => Err StoreFailed
      | Ok v => Ok (Some (rstr v))
      end.

Definition deleteIfValue (key want : string) : M S (result chal_error unit) :=
  let* g := get key in
  match g with
  | Err e => ret (Err e)
  | Ok None => ret (Ok tt)
  | Ok (Some cur) =>
      if negb (String.eqb cur want) then ret (Ok tt)
      else
        let* d := call (Del key) in
        ret match d with Err _ => Err StoreFailed | Ok _ => Ok tt end
  end.

Fixpoint put_tries (n : nat) (key keyAuth : string) : M S (result chal_error unit) :=
  match n with
  | O => ret (Err ErrChallengePending)
  | Datatypes.S n' =>
      let* r := call (SetNX key keyAuth (cs_ttl s)) in
      match r with
      | Err _ => ret (Err StoreFailed)
      | Ok v =>
          if rbool v then ret (Ok tt)
          else
            let* g := call (Get key) in
            match g with
            | Ok cur => if String.eqb (rstr cur) keyAuth then ret (Ok tt) else ret (Err ErrChallengePending)
            | Err RedisErr => ret (Err StoreFailed)
            | Err RedisNil => put_tries n' key keyAuth
            end
      end
  end.

Definition PutTLSALPN (domain keyAuth : string) : M S (result chal_error unit) :=
  put_tries 2 (alpnChallengeKey domain) keyAuth.

Definition DeleteTLSALPN (domain keyAuth : string) : M S (result chal_error unit) :=
  deleteIfValue (alpnChallengeKey domain) keyAuth.

Definition TLSALPNCertificate (domain : string) : M S (result chal_error (option C)) :=
  let* g := get (alpnChallengeKey domain) in
  ret match g with
      | Err e => Err e
      | Ok None => Ok None
      | Ok (Some keyAuth) =>
          match challengeCertificate (ToLower domain) keyAuth with
          | Err _ => Err BadCertificate
          | Ok c => Ok (Some c)
          end
      end.

Definition PutHTTP (domain token keyAuth : string) : M S (result chal_error unit) :=
  let* r := call (Set_ (httpChallengeKey domain token) keyAuth (cs_ttl s)) in
  ret match r with Err _ => Err StoreFailed | Ok _ => Ok tt end.

Definition DeleteHTTP (domain token keyAuth : string) : M S (result chal_error unit) :=
  deleteIfValue (httpChallengeKey domain token) keyAuth.

Definition HTTPKeyAuth (domain token : string) : M S (result chal_error (option string)) :=
  get (httpChallengeKey domain token).

(** [LockSelf]: [Some token] when the lock was taken, for [unlockSelf]. *)
Definition LockSelf (host : string) : M S (result chal_error (option string)) :=
  let* tok := mintToken in
  let* r := call (SetNX (selfLockKey host) tok selfLockTTL) in
  ret match r with
      | Err _ => Err StoreFailed
      | Ok v => Ok (if rbool v then Some tok else None)
      end.

Definition unlockSelf (host tok : string) : M S (result chal_error unit) :=
  deleteIfValue (selfLockKey host) tok.

Definition SelfCert (host : string) : M S (result chal_error (option string)) := get (selfCertKey host).

Definition PutSelfCert (host bundle : string) (ttl : Z) : M S (result chal_error unit) :=
  if ttl <=? 0 then ret (Err StoreFailed)
  else
    let* r := call (Set_ (selfCertKey host) bundle ttl) in
    ret match r with Err _ => Err StoreFailed | Ok _ => Ok tt end.

(** ** The lego providers: what an order publishes and what it leaves to clean
    up when it is abandoned. *)
Inductive provider := TLSALPNProvider | HTTPProvider.

(** The result, and the cleanup registered with the order's track. *)
Definition Present (p : provider) (tracked : bool) (domain token keyAuth : string)
    : M S (result chal_error unit * option (M S (result chal_error unit))) :=
  match p with
  | TLSALPNProvider =>
      let* r := PutTLSALPN domain keyAuth in
      ret (r, if is_ok r && tracked then Some (DeleteTLSALPN domain keyAuth) else None)
  | HTTPProvider => let* r := PutHTTP domain token keyAuth in ret (r, None)
  end.

Definition CleanUp (p : provider) (domain token keyAuth : string) : M S (result chal_error unit) :=
  match p with
  | TLSALPNProvider => DeleteTLSALPN domain keyAuth
  | HTTPProvider => DeleteHTTP domain token keyAuth
  end.

(** ** The plain-HTTP handler *)
Definition httpChallengePrefix : string := "/.well-known/acme-challenge/".
Definition maxChallengeToken : nat := 256.
Definition maxChallengeHost : nat := 253.

Record request := Request { r_Method : string; r_Path : string; r_Host : string; r_RemoteAddr : string }.
Inductive response := NotFound | Unavailable | Served (contentType body : string).

Definition clientHost (remoteAddr : string) : string :=
  match SplitHostPort remoteAddr with None => remoteAddr | Some (host, _) => host end.

Definition challengeHost (hostHeader : string) : string :=
  let host := match SplitHostPort hostHeader with Some (h, _) => h | None => hostHeader end in
  let host := ToLower (TrimSuffix host ".") in
  if String.eqb host "" || (maxChallengeHost <? String.length host)%nat then "" else host.

Definition token_byte (c : ascii) : bool :=
  negb (((cZ c <? 97) || (122 <? cZ c)) && ((cZ c <? 65) || (90 <? cZ c)) &&
        ((cZ c <? 48) || (57 <? cZ c)) && negb (Ascii.eqb c "-") && negb (Ascii.eqb c "_")).
Definition validChallengeToken (token : string) : bool :=
  negb (String.eqb token "" || (maxChallengeToken <? String.length token)%nat) && str_forall token_byte token.

(** The answer, and the addresses reported to [onMiss]. *)
Definition HTTPChallengeHandler (r : request) : M S (response * list string) :=
  let ip := clientHost (r_RemoteAddr r) in
  let '(token, isChallenge) := CutPrefix (r_Path r) httpChallengePrefix in
  let host := challengeHost (r_Host r) in
  if (negb (String.eqb (r_Method r) "GET") && negb (String.eqb (r_Method r) "HEAD")) ||
     negb isChallenge || negb (validChallengeToken token) || String.eqb host ""
  then ret (NotFound, [ip])
  else
    let* g := HTTPKeyAuth host token in
    ret match g with
        | Err _ => (Unavailable, [])
        | Ok None => (NotFound, [ip])
        | Ok (Some keyAuth) => (Served "text/plain" (EscapeString keyAuth), [])
        end.
End store.

(** ** Strings *)
Lemma lower_byte_ascii c : is_ascii_byte c = true → is_ascii_byte (lower_byte c) = true.
Proof. destruct c as [[] [] [] [] [] [] [] []]; vm_compute; congruence. Qed.

Lemma lower_byte_idem c : lower_byte (lower_byte c) = lower_byte c.
Proof. destruct c as [[] [] [] [] [] [] [] []]; vm_compute; congruence. Qed.

Lemma length_str_map f s : String.length (str_map f s) = String.length s.
Proof. induction s; simpl; auto. Qed.

Lemma str_forall_map f p q s : (∀ c, p c = true → q (f c) = true) →
  str_forall p s = true → str_forall q (str_map f s) = true.
Proof. intros Hf. induction s as [|c s IH]; simpl; [done|]. intros [? ?]%andb_prop. by rewrite Hf, IH. Qed.

Definition is_ascii (s : string) : bool := str_forall is_ascii_byte s.

Section lower.
Context `{UnicodeCase}.

Lemma ToLower_idem s : is_ascii s = true → ToLower (ToLower s) = ToLower s.
Proof.
  intros Ha. unfold ToLower. unfold is_ascii in Ha. rewrite Ha.
  rewrite (str_forall_map lower_byte is_ascii_byte) by (done || apply lower_byte_ascii).
  clear Ha. induction s as [|c s IH]; simpl; [done|]. by rewrite lower_byte_idem, IH.
Qed.

Lemma length_ToLower s : is_ascii s = true → String.length (ToLower s) = String.length s.
Proof. intros Ha. unfold ToLower. unfold is_ascii in Ha. rewrite Ha. apply length_str_map. Qed.
End lower.

Lemma eqb_char_ne (a b : ascii) : a ≠ b → Ascii.eqb a b = false.
Proof. by destruct (Ascii.eqb_spec a b). Qed.

Lemma ContainsByte_cons c d s : ContainsByte (String d s) c = Ascii.eqb d c || ContainsByte s c.
Proof. unfold ContainsByte. simpl. destruct (Ascii.eqb d c); [done|]. by destruct (IndexByte s c). Qed.

Lemma ContainsByte_app c a b : ContainsByte (a +:+ b) c = ContainsByte a c || ContainsByte b c.
Proof.
  induction a as [|d a IH]; [done|].
  simpl. rewrite !ContainsByte_cons, IH. by destruct (Ascii.eqb d c).
Qed.

Lemma LastIndexByte_none s c : ContainsByte s c = false → LastIndexByte s c = None.
Proof.
  induction s as [|d s IH]; [done|]. rewrite ContainsByte_cons. intros [Hd Hs]%orb_false_iff.
  simpl. by rewrite IH, Hd.
Qed.

Lemma LastIndexByte_sep a b c : ContainsByte b c = false →
  LastIndexByte (a +:+ String c b) c = Some (String.length a).
Proof.
  intros Hb. induction a as [|d a IH]; simpl; [|by rewrite IH].
  by rewrite LastIndexByte_none, Ascii.eqb_refl.
Qed.

(** The last separator cuts a string in one way only. *)
Lemma cut_last_inj c a b t u :
  ContainsByte t c = false → ContainsByte u c = false →
  a +:+ String c t = b +:+ String c u → a = b ∧ t = u.
Proof.
  intros Ht Hu. revert b. induction a as [|d a IH]; intros [|e b]; simpl; intros [=]; subst; auto.
  - rewrite ContainsByte_app, ContainsByte_cons, Ascii.eqb_refl in Ht. by destruct (ContainsByte b e).
  - rewrite ContainsByte_app, ContainsByte_cons, Ascii.eqb_refl in Hu. by destruct (ContainsByte a c).
  - by destruct (IH b) as [-> ->].
Qed.

Lemma no_byte_forall p s c : p c = false → str_forall p s = true → ContainsByte s c = false.
Proof.
  intros Hc. induction s as [|d s IH]; [done|]. simpl. intros [Hd Hs]%andb_prop.
  rewrite ContainsByte_cons, IH by done. destruct (Ascii.eqb_spec d c); [|done]. congruence.
Qed.

Lemma valid_token_no_colon t : validChallengeToken t = true → ContainsByte t ":" = false.
Proof. intros [_ Hf]%andb_prop. apply (no_byte_forall token_byte); [by vm_compute|done]. Qed.

(** Key authorizations are a token, a dot and a thumbprint in the token's
    alphabet: escaping leaves them alone. *)
Definition key_auth_byte (c : ascii) : bool := token_byte c || Ascii.eqb c ".".

Lemma EscapeString_key_auth s : str_forall key_auth_byte s = true → EscapeString s = s.
Proof.
  induction s as [|c s IH]; simpl; [done|]. intros [Hc Hs]%andb_prop. rewrite IH by done.
  assert (escape_byte c = String c "") as ->; [|done].
  revert Hc. destruct c as [[] [] [] [] [] [] [] []]; vm_compute; congruence.
Qed.

(** The forms in which a Host header names a host: any letter case, with or
    without the root dot and a port. *)
Definition host_text (h : string) : Prop :=
  h ≠ "" ∧ is_ascii h = true ∧ (String.length h ≤ maxChallengeHost)%nat ∧ HasSuffix h "." = false ∧
  ContainsByte h ":" = false ∧ ContainsByte h "[" = false ∧ ContainsByte h "]" = false.

Definition port_text (p : string) : Prop :=
  p = "" ∨ ∃ n, p = ":" +:+ n ∧ ContainsByte n ":" = false ∧ ContainsByte n "[" = false ∧ ContainsByte n "]" = false.

Lemma SplitHostPort_plain h : ContainsByte h ":" = false → SplitHostPort h = None.
Proof. intros Hc. unfold SplitHostPort. by rewrite LastIndexByte_none. Qed.

Lemma SplitHostPort_port h n :
  ContainsByte h ":" = false → ContainsByte h "[" = false → ContainsByte h "]" = false →
  ContainsByte n ":" = false → ContainsByte n "[" = false → ContainsByte n "]" = false →
  SplitHostPort (h +:+ String ":" n) = Some (h, n).
Proof.
  intros H1 H2 H3 N1 N2 N3. unfold SplitHostPort. rewrite LastIndexByte_sep by done.
  assert (E : str_drop (S (String.length h)) (h +:+ String ":" n) = n).
  { clear. induction h; simpl; auto. }
  rewrite E, str_take_app, H1, !ContainsByte_app, !ContainsByte_cons, H2, H3, N2, N3. simpl.
  destruct h as [|c h]; simpl; [done|]. rewrite ContainsByte_cons in H2.
  apply orb_false_iff in H2 as [H2 _].
  destruct c as [[] [] [] [] [] [] [] []]; done.
Qed.

Section host.
Context `{UnicodeCase}.

Lemma TrimSuffix_dot h dot : HasSuffix h "." = false → dot = "" ∨ dot = "." → TrimSuffix (h +:+ dot) "." = h.
Proof.
  intros Hs [-> | ->]; [|apply TrimSuffix_app]. rewrite str_app_nil_r. unfold TrimSuffix. by rewrite Hs.
Qed.

Lemma challengeHost_names h dot port domain :
  host_text h → dot = "" ∨ dot = "." → port_text port → ToLower h = ToLower domain →
  challengeHost (h +:+ dot +:+ port) = ToLower domain.
Proof.
  intros (Hne & Ha & Hl & Hs & H1 & H2 & H3) Hd Hp Hdom. unfold challengeHost.
  assert (Hdot : ∀ c, c ≠ "."%char → ContainsByte dot c = false).
  { intros c Hc. destruct Hd as [-> | ->]; [done|]. rewrite ContainsByte_cons, eqb_char_ne by congruence. done. }
  assert (match SplitHostPort (h +:+ dot +:+ port) with
          | Some (h', _) => h' | None => h +:+ dot +:+ port end = h +:+ dot) as ->.
  { destruct Hp as [-> | (n & -> & N1 & N2 & N3)].
    - rewrite str_app_nil_r, SplitHostPort_plain; [done|]. by rewrite ContainsByte_app, H1, Hdot.
    - rewrite <- str_app_assoc. change (":" +:+ n) with (String ":" n).
      rewrite SplitHostPort_port; [done| | | |done..]; by rewrite ContainsByte_app, ?H1, ?H2, ?H3, Hdot. }
  rewrite TrimSuffix_dot by done. rewrite <- Hdom.
  rewrite length_ToLower by done. rewrite (proj2 (Nat.ltb_ge _ _)) by done.
  assert (ToLower h ≠ "") as Hnl.
  { intros E. apply (f_equal String.length) in E. rewrite length_ToLower in E by done. by destruct h. }
  by rewrite (eqb_empty _ Hnl).
Qed.
End host.

(** ** Single calls *)
Section calls.
Context {S C : Type} `{ValkeyServer S} `{!ValkeyLaws S} `{TokenSupply} `{UnicodeCase}.
Context (challengeCertificate : string → string → result unit C) (s : ChallengeStore).

(** What [get] makes of an entry. *)
Definition stored (e : option entry) : result chal_error (option string) :=
  match e with
  | None => Ok None
  | Some (Entry (VStr v) _) => Ok (Some v)
  | Some _ => Err StoreFailed
  end.

Lemma get_spec key (w : world S) : quiet w →
  ∃ w', get key w = (stored (at_key w key), w') ∧ frame key w w' ∧ at_key w' key = at_key w key.
Proof.
  intros Hq. unfold get, bind, ret.
  destruct (call_spec (Get key) key w Hq eq_refl) as (w' & -> & F & E). spec_simpl.
  exists w'. split; [|by split]. destruct (at_key w key) as [[[] ex]|]; done.
Qed.

Lemma deleteIfValue_spec key want (w : world S) : quiet w →
  ∃ w', deleteIfValue key want w =
          (match stored (at_key w key) with Err e => Err e | Ok _ => Ok tt end, w') ∧ frame key w w' ∧
        at_key w' key = if decide (stored (at_key w key) = Ok (Some want)) then None else at_key w key.
Proof.
  intros Hq. unfold deleteIfValue, bind at 1.
  destruct (get_spec key w Hq) as (w1 & -> & F1 & E1).
  destruct (stored (at_key w key)) as [[cur|]|e] eqn:Es;
    [|exists w1; split; [done|split; [done|by case_decide]]..].
  destruct (String.eqb_spec cur want) as [->|Hne]; simpl.
  - unfold bind. destruct (call_spec (Del key) key w1 (frame_quiet _ _ _ F1) eq_refl) as (w2 & -> & F2 & E2).
    spec_simpl. exists w2. split; [by destruct (at_key w1 key)|]. split; [by eapply frame_trans|]. by case_decide.
  - exists w1. split; [done|]. split; [done|]. case_decide; [congruence|done].
Qed.

Lemma set_spec key v d (w : world S) : quiet w → 0 < prec_ms d →
  ∃ w', call (Set_ key v d) w = (Ok ROk, w') ∧ frame key w w' ∧
        at_key w' key = Some (Entry (VStr v) (Some (w_vms w + prec_ms d))).
Proof.
  intros Hq Hd. destruct (call_spec (Set_ key v d) key w Hq eq_refl) as (w' & -> & F & E).
  spec_simpl. unfold with_deadline in E. revert E. zcase. intros E. by exists w'.
Qed.

(** ** tls-alpn-01 *)
Lemma put_tries_spec key keyAuth (w : world S) n : quiet w → 0 < prec_ms (cs_ttl s) →
  let holder := match stored (at_key w key) with Ok (Some v) => v | _ => keyAuth end in
  stored (at_key w key) ≠ Err StoreFailed →
  ∃ w', put_tries s (Datatypes.S n) key keyAuth w =
          (if String.eqb holder keyAuth then Ok tt else Err ErrChallengePending, w') ∧
        frame key w w' ∧ stored (at_key w' key) = Ok (Some holder).
Proof.
  intros Hq Hp holder Hs. unfold put_tries, bind at 1.
  destruct (call_spec (SetNX key keyAuth (cs_ttl s)) key w Hq eq_refl) as (w1 & -> & F1 & E1).
  spec_simpl. unfold holder. destruct (at_key w key) as [[v ex]|] eqn:Ek; spec_simpl.
  - destruct v as [v| | |]; simpl in Hs; try done. unfold bind.
    destruct (call_spec (Get key) key w1 (frame_quiet _ _ _ F1) eq_refl) as (w2 & -> & F2 & E2).
    rewrite E1 in *. spec_simpl. exists w2.
    split; [simpl; by destruct (String.eqb v keyAuth)|]. split; [by eapply frame_trans|by rewrite E2].
  - unfold with_deadline in E1. revert E1. zcase. intros E1. rewrite String.eqb_refl.
    exists w1. by rewrite E1.
Qed.

(** For one domain the first tls-alpn-01 order wins: a second order is told that one is
    pending, the certificate served is the first's, and only its own key authorization
    removes it. *)
Lemma alpn_first_order_wins domain keyAuth (w : world S) :
  quiet w → 0 < prec_ms (cs_ttl s) → stored (at_key w (alpnChallengeKey domain)) ≠ Err StoreFailed →
  let k := alpnChallengeKey domain in
  let holder := match stored (at_key w k) with Ok (Some v) => v | _ => keyAuth end in
  ∃ w', PutTLSALPN s domain keyAuth w =
          (if String.eqb holder keyAuth then Ok tt else Err ErrChallengePending, w') ∧ frame k w w' ∧
    (∀ d, ToLower d = ToLower domain →
       (TLSALPNCertificate challengeCertificate d w').1 =
         match challengeCertificate (ToLower domain) holder with
         | Ok c => Ok (Some c)
         | Err _ => Err BadCertificate
         end) ∧
    ∀ other, ∃ w'', DeleteTLSALPN domain other w' = (Ok tt, w'') ∧ frame k w' w'' ∧
      stored (at_key w'' k) = if String.eqb other holder then Ok None else Ok (Some holder).
Proof.
  intros Hq Hp Hs k holder. unfold PutTLSALPN.
  destruct (put_tries_spec k keyAuth w 1 Hq Hp Hs) as (w' & Hput & F & Hh). fold holder in Hput, Hh.
  exists w'. split; [done|]. split; [done|]. split.
  - intros d Hd. unfold TLSALPNCertificate, alpnChallengeKey, bind. rewrite Hd.
    destruct (get_spec k w' (frame_quiet _ _ _ F)) as (w2 & E & _). unfold k, alpnChallengeKey in E.
    rewrite E. fold (alpnChallengeKey domain). fold k. rewrite Hh. done.
  - intros other. unfold DeleteTLSALPN. fold k.
    destruct (deleteIfValue_spec k other w' (frame_quiet _ _ _ F)) as (w2 & E & F2 & E2).
    rewrite Hh in E, E2. exists w2. split; [done|]. split; [done|]. rewrite E2.
    destruct (String.eqb_spec other holder) as [->|Hne]; case_decide; simplify_eq/=; done.
Qed.

(** ** http-01 *)

(** The challenge a request asks for, when it is well formed. *)
Definition asked (r : request) : option (string * string) :=
  let '(token, isChallenge) := CutPrefix (r_Path r) httpChallengePrefix in
  let host := challengeHost (r_Host r) in
  if (negb (String.eqb (r_Method r) "GET") && negb (String.eqb (r_Method r) "HEAD")) ||
     negb isChallenge || negb (validChallengeToken token) || String.eqb host ""
  then None else Some (host, token).

Lemma handler_asked r (w : world S) : quiet w →
  (HTTPChallengeHandler r w).1 =
    match asked r with
    | None => (NotFound, [clientHost (r_RemoteAddr r)])
    | Some (h, t) =>
        match stored (at_key w (httpChallengeKey h t)) with
        | Err _ => (Unavailable, [])
        | Ok None => (NotFound, [clientHost (r_RemoteAddr r)])
        | Ok (Some keyAuth) => (Served "text/plain" (EscapeString keyAuth), [])
        end
    end.
Proof.
  intros Hq. unfold HTTPChallengeHandler, asked. destruct (CutPrefix _ _) as [t isC].
  destruct (_ || String.eqb (challengeHost _) "") eqn:E; [done|].
  unfold HTTPKeyAuth, bind.
  by destruct (get_spec (httpChallengeKey (challengeHost (r_Host r)) t) w Hq) as (w' & -> & _).
Qed.

Lemma asked_valid r h t : asked r = Some (h, t) → validChallengeToken t = true ∧ h = challengeHost (r_Host r).
Proof.
  unfold asked. destruct (CutPrefix _ _) as [t' isC].
  destruct (_ || String.eqb (challengeHost _) "") eqn:E; [done|]. intros [= <- <-].
  apply orb_false_iff in E as [E _]. apply orb_false_iff in E as [_ E].
  by destruct (validChallengeToken t').
Qed.

(** A certificate authority's request for a published challenge. *)
Record ca_request (domain token : string) (r : request) : Prop := {
  cr_method : r_Method r = "GET" ∨ r_Method r = "HEAD";
  cr_path : r_Path r = httpChallengePrefix +:+ token;
  cr_host : ∃ h dot port, r_Host r = h +:+ dot +:+ port ∧ host_text h ∧ (dot = "" ∨ dot = ".") ∧
              port_text port ∧ ToLower h = ToLower domain
}.

Lemma ca_request_asked domain token r :
  validChallengeToken token = true → ca_request domain token r → asked r = Some (ToLower domain, token).
Proof.
  intros Hv [Hm Hp (h & dot & port & Hh & Ht & Hd & Hpt & Hl)]. unfold asked, CutPrefix.
  rewrite Hp, HasPrefix_app, str_drop_app, Hh, (challengeHost_names h dot port domain), Hv by done.
  assert (ToLower domain ≠ "") as Hne.
  { rewrite <- Hl. intros E. apply (f_equal String.length) in E.
    destruct Ht as (Hne & Ha & _). rewrite length_ToLower in E by done. by destruct h. }
  rewrite (eqb_empty _ Hne). by destruct Hm as [-> | ->].
Qed.

Lemma httpChallengeKey_inj d t d' t' : validChallengeToken t = true → validChallengeToken t' = true →
  httpChallengeKey d t = httpChallengeKey d' t' → ToLower d = ToLower d' ∧ t = t'.
Proof.
  intros Ht Ht'. unfold httpChallengeKey. intros E%str_app_inv_l.
  by apply (cut_last_inj ":" _ _ t t') in E; [|apply valid_token_no_colon..].
Qed.

Lemma PutHTTP_spec domain token keyAuth (w : world S) : quiet w → 0 < prec_ms (cs_ttl s) →
  ∃ w', PutHTTP s domain token keyAuth w = (Ok tt, w') ∧ frame (httpChallengeKey domain token) w w' ∧
        stored (at_key w' (httpChallengeKey domain token)) = Ok (Some keyAuth).
Proof.
  intros Hq Hp. unfold PutHTTP, bind.
  destruct (set_spec (httpChallengeKey domain token) keyAuth (cs_ttl s) w Hq Hp) as (w' & -> & F & E).
  exists w'. split; [done|]. split; [done|]. by rewrite E.
Qed.

(** An http-01 challenge round trip: the answer put into the store is served to every
    request a certificate authority can make for it until it is withdrawn, and no other
    request sees a difference. *)
Lemma http_challenge_answered domain token keyAuth (w : world S) :
  quiet w → 0 < prec_ms (cs_ttl s) → is_ascii domain = true → validChallengeToken token = true →
  str_forall key_auth_byte keyAuth = true →
  ∃ w1 w2, PutHTTP s domain token keyAuth w = (Ok tt, w1) ∧ DeleteHTTP domain token keyAuth w1 = (Ok tt, w2) ∧
    (∀ r, ca_request domain token r →
       (HTTPChallengeHandler r w1).1 = (Served "text/plain" keyAuth, []) ∧
       (HTTPChallengeHandler r w2).1 = (NotFound, [clientHost (r_RemoteAddr r)])) ∧
    ∀ r, ¬ (∃ h, asked r = Some (h, token) ∧ ToLower h = ToLower domain) →
      (HTTPChallengeHandler r w1).1 = (HTTPChallengeHandler r w).1 ∧
      (HTTPChallengeHandler r w2).1 = (HTTPChallengeHandler r w).1.
Proof.
  intros Hq Hp Ha Hv Hk.
  destruct (PutHTTP_spec domain token keyAuth w Hq Hp) as (w1 & E1 & F1 & S1).
  pose proof (frame_quiet _ _ _ F1) as Q1. unfold DeleteHTTP.
  destruct (deleteIfValue_spec (httpChallengeKey domain token) keyAuth w1 Q1) as (w2 & E2 & F2 & S2).
  rewrite S1 in E2, S2. rewrite decide_True in S2 by done. pose proof (frame_quiet _ _ _ F2) as Q2.
  exists w1, w2. split; [done|]. split; [done|]. split.
  - intros r Hr. pose proof (ca_request_asked _ _ _ Hv Hr) as Hask.
    assert (httpChallengeKey (ToLower domain) token = httpChallengeKey domain token) as Hkey
      by (unfold httpChallengeKey; by rewrite ToLower_idem).
    rewrite !handler_asked by done. rewrite Hask, Hkey, S1, S2, EscapeString_key_auth by done. done.
  - intros r Hr. rewrite !handler_asked by done. destruct (asked r) as [[h t]|] eqn:Hask; [|done].
    apply asked_valid in Hask as Hval. destruct Hval as [Hvt _].
    assert (httpChallengeKey h t ≠ httpChallengeKey domain token) as Hne.
    { intros E. apply httpChallengeKey_inj in E as [? ->]; [|done..]. apply Hr. by exists h. }
    by rewrite (frame_keys _ _ _ F2), (frame_keys _ _ _ F1).
Qed.

(** ** The lock and the certificate of the service's own hosts *)
Lemma selfLockTTL_positive : 0 < prec_ms selfLockTTL.
Proof. replace selfLockTTL with (600000 * millisecond) by done. rewrite law_prec; lia. Qed.

Lemma LockSelf_spec host (w : world S) : quiet w →
  ∃ w', LockSelf host w = (Ok (if decide (at_key w (selfLockKey host) = None) then Some (token (w_minted w)) else None), w') ∧
    quiet w' ∧ w_now w' = w_now w ∧ w_vms w' = w_vms w ∧ w_done w' = w_done w ∧
    at_key w' (selfLockKey host) =
      (if decide (at_key w (selfLockKey host) = None)
       then Some (Entry (VStr (token (w_minted w))) (Some (w_vms w + prec_ms selfLockTTL)))
       else at_key w (selfLockKey host)) ∧
    ∀ k, k ≠ selfLockKey host → at_key w' k = at_key w k.
Proof.
  intros Hq. unfold LockSelf, bind, mintToken. set (w0 := World _ _ _ _ _ _).
  destruct (call_spec (SetNX (selfLockKey host) (token (w_minted w)) selfLockTTL) (selfLockKey host) w0)
    as (w' & -> & [] & E); [done..|].
  change (at_key w0) with (at_key w) in *. pose proof selfLockTTL_positive. exists w'.
  case_decide as Hn.
  - rewrite Hn in *. cbn in E. unfold with_deadline in E. revert E. change (w_vms w0) with (w_vms w).
    zcase. intros E. by repeat split.
  - destruct (at_key w (selfLockKey host)) as [e|] eqn:Ek; [|done]. cbn in E. by repeat split.
Qed.

(** While the lock of a host is held nobody else gets it, and only its own token frees
    it. *)
Lemma LockSelf_exclusive host tok (w : world S) ex : quiet w →
  at_key w (selfLockKey host) = Some (Entry (VStr tok) ex) →
  (LockSelf host w).1 = Ok None ∧
  ∀ other, ∃ w', unlockSelf host other w = (Ok tt, w') ∧ frame (selfLockKey host) w w' ∧
    at_key w' (selfLockKey host) = if String.eqb other tok then None else at_key w (selfLockKey host).
Proof.
  intros Hq Hl. split.
  - destruct (LockSelf_spec host w Hq) as (w' & -> & _). by rewrite decide_False by (by rewrite Hl).
  - intros other. unfold unlockSelf.
    destruct (deleteIfValue_spec (selfLockKey host) other w Hq) as (w' & E & F & E').
    rewrite Hl in E, E'. exists w'. split; [done|]. split; [done|]. rewrite E', Hl. clear E'. simpl.
    destruct (String.eqb_spec other tok) as [->|Hne]; case_decide; simplify_eq/=; done.
Qed.

Lemma SelfCert_spec host (w : world S) : quiet w →
  ∃ w', SelfCert host w = (stored (at_key w (selfCertKey host)), w') ∧ frame (selfCertKey host) w w' ∧
        at_key w' (selfCertKey host) = at_key w (selfCertKey host).
Proof. apply get_spec. Qed.

Lemma PutSelfCert_spec host bundle ttl (w : world S) : quiet w → 0 < ttl → 0 < prec_ms ttl →
  ∃ w', PutSelfCert host bundle ttl w = (Ok tt, w') ∧ frame (selfCertKey host) w w' ∧
        at_key w' (selfCertKey host) = Some (Entry (VStr bundle) (Some (w_vms w + prec_ms ttl))).
Proof.
  intros Hq Ht Hp. unfold PutSelfCert, bind. zcase.
  by destruct (set_spec (selfCertKey host) bundle ttl w Hq Hp) as (w' & -> & F & E); exists w'.
Qed.

(** The keys of different kinds never meet. *)
Lemma self_keys_differ h h' : selfLockKey h ≠ selfCertKey h'.
Proof. unfold selfLockKey, selfCertKey. intros [=]. Qed.
End calls.

(** ** Examples *)
Definition sample_store : ChallengeStore := NewChallengeStore ChallengeTTL.
Definition sample_challenge_cert (domain keyAuth : string) : result unit (string * string) := Ok (domain, keyAuth).

#[local] Existing Instance ascii_only_case.

Lemma alpn_first_order_wins_witness :
  let w1 := (PutTLSALPN sample_store "a.example" "one" sample_world).2 in
  (PutTLSALPN sample_store "A.example" "two" w1).1 = Err ErrChallengePending.
Proof.
  intros w1.
  destruct (alpn_first_order_wins sample_challenge_cert sample_store "A.example" "two" w1)
    as (w2 & E & _); [by vm_compute..|].
  rewrite E. by vm_compute.
Defined.

Definition sample_request : request :=
  Request "GET" "/.well-known/acme-challenge/tok-1" "A.Example.:80" "192.0.2.1:4711".

Lemma http_challenge_answered_witness :
  ∃ w1 w2, PutHTTP sample_store "a.example" "tok-1" "tok-1.th" sample_world = (Ok tt, w1) ∧
    DeleteHTTP "a.example" "tok-1" "tok-1.th" w1 = (Ok tt, w2) ∧
    (HTTPChallengeHandler sample_request w1).1 = (Served "text/plain" "tok-1.th", []) ∧
    (HTTPChallengeHandler sample_request w2).1 = (NotFound, ["192.0.2.1"]).
Proof.
  destruct (http_challenge_answered sample_store "a.example" "tok-1" "tok-1.th" sample_world)
    as (w1 & w2 & E1 & E2 & Hca & _); [by vm_compute..|].
  exists w1, w2. split; [done|]. split; [done|]. apply (Hca sample_request). split; [by left|done|].
  exists "A.Example", ".", ":80". split; [done|]. split.
  { split; [done|]. split; [by vm_compute|]. split; [unfold maxChallengeHost; simpl; lia|]. by repeat split; vm_compute. }
  split; [by right|]. split; [right; by exists "80"|by vm_compute].
Defined.

Lemma LockSelf_exclusive_witness :
  let w1 := (LockSelf "a.example" sample_world).2 in
  (LockSelf "a.example" w1).1 = Ok None ∧
  at_key (unlockSelf "a.example" "1" w1).2 (selfLockKey "a.example") = at_key w1 (selfLockKey "a.example").
Proof.
  intros w1.
  destruct (LockSelf_exclusive "a.example" "0" w1 (Some 1700000600000)) as [E Hu]; [by vm_compute..|].
  split; [done|]. destruct (Hu "1") as (w2 & -> & _ & E2). exact E2.
Defined.
End Challenges.
