(* ===== verification/Reserved.v ===== *)
(** * Certificates of the service's own hosts

    [internal/server/reserved.go].  A node keeps a certificate for each of its
    own host names: read from its disk at the start, adopted from the store all
    nodes share, or ordered under a lock that lets one node order at a time; it
    renews them, saves them in one file by a rename, and publishes them.

    [SelfDeps] is the interface to the lock, the shared store, the issuing
    chain, the clock and the system calls; every call may fail, and the process
    may die in any of them ([sd_died]), in the middle of a write included.
    [CertCodec] stands for PEM, X.509 and JSON.  Log lines are left out; the
    trace records locks, orders and the certificates that come into use. *)
From Stdlib Require Import ZArith Lia Ascii String.
From S2P Require Import Prelude GoStr Valkey Attest Limiter Enroll.
Local Open Scope string_scope.
Local Open Scope list_scope.
Local Open Scope Z_scope.

Module Reserved.
Import Enroll.

(** ** Data *)
Definition zero_time : Z := - 62135596800 * second.
Definition zero_info : CertInfo :=
  {| ci_CA := ""; ci_Serial := ""; ci_NotBefore := zero_time; ci_NotAfter := zero_time; ci_ARIID := "" |}.
Definition with_NotAfter (info : CertInfo) (t : Z) : CertInfo :=
  {| ci_CA := ci_CA info; ci_Serial := ci_Serial info; ci_NotBefore := ci_NotBefore info;
     ci_NotAfter := t; ci_ARIID := ci_ARIID info |}.

Record certBundle := Bundle { CertPEM : string; KeyPEM : string; Info : CertInfo }.

(** [t.Sub(u)], which saturates. *)
Definition time_sub (t u : Z) : Z := Z.max min_int64 (Z.min max_int64 (t - u)).

Definition selfLockWait : Z := 5 * minute.
Definition selfIssueTimeout : Z := 5 * minute.
Definition selfLockPoll : Z := 2 * second.
Definition renewalScanInterval : Z := hour.
Definition reservedDegradedRetry : Z := minute.

(** ** Interfaces *)
Class CertCodec (C : Type) := {
  X509KeyPair : string → string → option C;
  leafNotAfter : string → option Z;
  MarshalBundle : certBundle → option string;
  UnmarshalBundle : string → option certBundle;
  UnmarshalInfo : string → option CertInfo
}.

(** How writing a file may end: whole, after some bytes, or before the file
    was opened. *)
Inductive write_result := Written | Partial (n : nat) | Untouched.

Class SelfDeps (B : Type) := {
  sd_LockSelf : Z → string → B → result unit (option string) * B;   (* the lock context's deadline *)
  sd_unlock : string → string → B → result unit unit * B;
  sd_SelfCert : string → B → result unit (option string) * B;
  sd_PutSelfCert : string → string → Z → B → result unit unit * B;
  sd_obtain : Z → string → CertInfo → B → result unit (string * string * CertInfo) * B;
  sd_shouldRenew : CertInfo → B → result unit bool * B;
  sd_wait : option Z → Z → B → bool * B;   (* [true]: the context ended the wait *)
  sd_mkdir : B → bool * B;
  sd_write : B → write_result * B;
  sd_rename : B → bool * B;
  sd_read : B → bool * B;
  sd_clock : B → Z;
  sd_ended : B → bool;       (* the service's context has ended *)
  sd_died : B → bool         (* the process was killed *)
}.

(** What the trace records. *)
Inductive event (C : Type) :=
| EvLocked (host tok : string)
| EvUnlocked (host tok : string)
| EvAbandoned (host tok : string)            (* left to expire *)
| EvLockFailed (host : string)
| EvOrdered (host : string) (lock : option string)
| EvIssued (host : string) (c : C) (info : CertInfo)
| EvLoaded (host : string) (c : C) (info : CertInfo) (now : Z)
| EvAdopted (host : string) (c : C) (info : CertInfo) (now : Z) (old : option CertInfo).
Arguments EvLocked {C} _ _.
Arguments EvUnlocked {C} _ _.
Arguments EvAbandoned {C} _ _.
Arguments EvLockFailed {C} _.
Arguments EvOrdered {C} _ _.
Arguments EvIssued {C} _ _ _.
Arguments EvLoaded {C} _ _ _ _.
Arguments EvAdopted {C} _ _ _ _ _.

(** A run returns, is cut off by the death of the process, or (never, by
    [acquire_returns]) exhausts the fuel of the lock's polling loop. *)
Inductive outcome (A : Type) := Done (a : A) | Died | Stuck.
Arguments Done {A} _.
Arguments Died {A}.
Arguments Stuck {A}.

Section reserved.
Context {B C : Type} `{SelfDeps B} `{CertCodec C}.

Record reservedHost := Host { h_cur : option C; h_info : CertInfo }.
Definition new_host : reservedHost := Host None zero_info.

(** Files are named by their host's directory and their name in it. *)
Notation disk := (gmap (string * string) string).
Record state := State {
  st_b : B; st_disk : disk; st_hosts : gmap string reservedHost; st_trace : list (event C)
}.

Definition M A := state → outcome A * state.
Definition ret {A} (a : A) : M A := λ s, (Done a, s).
Definition bind {A A'} (m : M A) (f : A → M A') : M A' := λ s,
  match m s with
  | (Done a, s') => f a s'
  | (Died, s') => (Died, s')
  | (Stuck, s') => (Stuck, s')
  end.
Notation "'let!' x ':=' m 'in' k" := (bind m (λ x, k)) (at level 200, x pattern, right associativity).

(** A call that changes the disk by [g] of its result. *)
Definition sys {A} (f : B → A * B) (g : A → disk → disk) : M A := λ s,
  let '(a, b) := f (st_b s) in
  let s' := State b (g a (st_disk s)) (st_hosts s) (st_trace s) in
  if sd_died b then (Died, s') else (Done a, s').
Definition dep {A} (f : B → A * B) : M A := sys f (λ _ d, d).
Definition ask {A} (f : B → A) : M A := λ s, (Done (f (st_b s)), s).
Definition read_disk : M disk := λ s, (Done (st_disk s), s).
Definition emit (e : event C) : M unit := λ s,
  (Done tt, State (st_b s) (st_disk s) (st_hosts s) (st_trace s ++ [e])).
Definition stuck {A} : M A := λ s, (Stuck, s).

Definition host_of (host : string) : M reservedHost := λ s,
  (Done (default new_host (st_hosts s !! host)), s).

(** [store], recorded as [e]. *)
Definition store (host : string) (c : C) (info : CertInfo) (e : event C) : M unit := λ s,
  (Done tt, State (st_b s) (st_disk s) (<[host := Host (Some c) info]> (st_hosts s)) (st_trace s ++ [e])).

(** ** The disk cache *)
Definition bundle_file (host : string) : string * string := (host, "bundle.json").
Definition tmp_file (host : string) : string * string := (host, "bundle.json.tmp").

Definition readFile (path : string * string) : M (option string) :=
  let! ok := dep sd_read in
  let! d := read_disk in
  ret (if ok then d !! path else None).

Definition write_effect (path : string * string) (raw : string) (r : write_result) (d : disk) : disk :=
  match r with
  | Written => <[path := raw]> d
  | Partial n => <[path := str_take n raw]> d
  | Untouched => d
  end.
Definition writeFile (path : string * string) (raw : string) : M bool :=
  let! r := sys sd_write (write_effect path raw) in
  ret match r with Written => true | _ => false end.

Definition rename_effect (from to : string * string) (ok : bool) (d : disk) : disk :=
  match ok, d !! from with
  | true, Some x => <[to := x]> (delete from d)
  | _, _ => d
  end.
Definition rename (from to : string * string) : M unit :=
  let! _ := sys sd_rename (rename_effect from to) in ret tt.

Definition persist (host certPEM keyPEM : string) (info : CertInfo) : M unit :=
  let! ok := dep sd_mkdir in
  if negb ok then ret tt
  else
    match MarshalBundle (Bundle certPEM keyPEM info) with
    | None => ret tt
    | Some raw =>
        let! ok := writeFile (tmp_file host) raw in
        if negb ok then ret tt else rename (tmp_file host) (bundle_file host)
    end.

(** The certificate and details of a bundle, with the expiry date read off the
    certificate when the details have none: the checks [loadBundle] and
    [adoptShared] share. *)
Definition complete_info (certPEM : string) (info : CertInfo) : option CertInfo :=
  if ci_NotAfter info =? zero_time
  then (λ na, with_NotAfter info na) <$> leafNotAfter certPEM
  else Some info.

Definition parse_bundle (raw : string) : option (certBundle * C * CertInfo) :=
  b ← UnmarshalBundle raw;
  c ← X509KeyPair (CertPEM b) (KeyPEM b);
  info ← complete_info (CertPEM b) (Info b);
  Some (b, c, info).

Definition loadBundle (host : string) : M (option (C * CertInfo)) :=
  let! raw := readFile (bundle_file host) in
  ret (raw ← raw; '(_, c, info) ← parse_bundle raw; Some (c, info)).

Definition loadLegacyTriple (host : string) : M (option (C * CertInfo)) :=
  let! cert := readFile (host, "cert.pem") in
  match cert with
  | None => ret None
  | Some certPEM =>
      let! key := readFile (host, "key.pem") in
      match key with
      | None => ret None
      | Some keyPEM =>
          match X509KeyPair certPEM keyPEM with
          | None => ret None
          | Some c =>
              let! meta := readFile (host, "meta.json") in
              let info := match meta with
                          | Some raw => default zero_info (UnmarshalInfo raw)
                          | None => zero_info
                          end in
              ret (info ← complete_info certPEM info; Some (c, info))
          end
      end
  end.

Definition loadCached (host : string) : M (option (C * CertInfo)) :=
  let! b := loadBundle host in
  match b with Some x => ret (Some x) | None => loadLegacyTriple host end.

(** ** The shared store *)
Definition adoptShared (host : string) (requireNotDue : bool) : M bool :=
  let! r := dep (sd_SelfCert host) in
  match r with
  | Err _ | Ok None => ret false
  | Ok (Some raw) =>
      match parse_bundle raw with
      | None => ret false
      | Some (b, c, info) =>
          let! now := ask sd_clock in
          let! rh := host_of host in
          if negb (now <? ci_NotAfter info) then ret false
          else if bool_decide (is_Some (h_cur rh)) && negb (ci_NotAfter (h_info rh) <? ci_NotAfter info) then ret false
          else
            let! due := (if requireNotDue then dep (sd_shouldRenew info) else ret (Ok false)) in
            match due with
            | Err _ | Ok true => ret false
            | Ok false =>
                let! _ := store host c info (EvAdopted host c info now ((λ _, h_info rh) <$> h_cur rh)) in
                let! _ := persist host (CertPEM b) (KeyPEM b) info in
                ret true
            end
      end
  end.

Definition publish (host certPEM keyPEM : string) (info : CertInfo) : M unit :=
  match MarshalBundle (Bundle certPEM keyPEM info) with
  | None => ret tt
  | Some raw =>
      let! now := ask sd_clock in
      let! _ := dep (sd_PutSelfCert host raw (time_sub (ci_NotAfter info) now)) in ret tt
  end.

(** ** Issuing under the lock *)
Definition releaseLock (host tok : string) : M unit :=
  let! _ := emit (EvUnlocked host tok) in
  let! _ := dep (sd_unlock host tok) in ret tt.

(** Has a context with deadline [dl] derived from the service's ended? *)
Definition ctx_ended (dl : Z) (b : B) : bool := sd_ended b || (dl <=? sd_clock b).

Fixpoint acquire (fuel : nat) (dl : Z) (host : string) : M (result unit (option string)) :=
  match fuel with
  | O => stuck
  | S fuel' =>
      let! r := dep (sd_LockSelf dl host) in
      let! ended := ask (ctx_ended dl) in
      match r with
      | Err e => ret (if (ended : bool) then Ok None else Err e)
      | Ok (Some tok) => let! _ := emit (EvLocked host tok) in ret (Ok (Some tok))
      | Ok None =>
          let! stop := dep (sd_wait (Some dl) selfLockPoll) in
          if (stop : bool) then ret (Ok None) else acquire fuel' dl host
      end
  end.

(** Polls until the lock context's deadline: one more call than the polls that
    fit, and one that finds the context ended. *)
Definition acquire_fuel : nat := Z.to_nat (selfLockWait / selfLockPoll) + 2.

Definition unlock_if (host : string) (lock : option string) : M unit :=
  match lock with Some tok => releaseLock host tok | None => ret tt end.

(** The order itself: [lock] is the token of the lock, [None] without it. *)
Definition place (host : string) (lock : option string) : M unit :=
  let! now := ask sd_clock in
  let! rh := host_of host in
  let! _ := emit (EvOrdered host lock) in
  let! r := dep (sd_obtain (now + selfIssueTimeout) host (h_info rh)) in
  match r with
  | Err _ =>
      let! ended := ask sd_ended in
      let! issueEnded := ask (ctx_ended (now + selfIssueTimeout)) in
      match lock with
      | Some tok => if negb ended && issueEnded then emit (EvAbandoned host tok) else releaseLock host tok
      | None => ret tt
      end
  | Ok (certPEM, keyPEM, info) =>
      let! _ :=
        (match X509KeyPair certPEM keyPEM with
         | None => ret tt
         | Some c =>
             let! _ := store host c info (EvIssued host c info) in
             let! _ := persist host certPEM keyPEM info in
             publish host certPEM keyPEM info
         end) in
      unlock_if host lock
  end.

(** Another node may have issued while this one waited for the lock. *)
Definition order (host : string) (lock : option string) : M unit :=
  match lock with
  | None => place host None
  | Some tok =>
      let! adopted := adoptShared host true in
      if (adopted : bool) then releaseLock host tok else place host (Some tok)
  end.

Definition issue (host : string) : M unit :=
  let! now := ask sd_clock in
  let! r := acquire acquire_fuel (now + selfLockWait) host in
  let! ended := ask sd_ended in
  if (ended : bool) then match r with Ok (Some tok) => releaseLock host tok | _ => ret tt end
  else
    match r with
    | Err _ => let! _ := emit (EvLockFailed host) in order host None
    | Ok None => ret tt
    | Ok (Some tok) => order host (Some tok)
    end.

Definition maybeRenew (host : string) : M unit :=
  let! _ := adoptShared host false in
  let! rh := host_of host in
  match h_cur rh with
  | None => issue host
  | Some _ =>
      let! due := dep (sd_shouldRenew (h_info rh)) in
      match due with
      | Err _ | Ok false => ret tt
      | Ok true => issue host
      end
  end.

(** ** The manager *)
Fixpoint each (f : string → M unit) (hosts : list string) : M unit :=
  match hosts with [] => ret tt | h :: hosts' => let! _ := f h in each f hosts' end.

Definition load_host (host : string) : M unit :=
  let! x := loadCached host in
  let! now := ask sd_clock in
  let! _ := (match x with
             | Some (c, info) =>
                 if now <? ci_NotAfter info
                 then store host c info (EvLoaded host c info now)
                 else ret tt
             | None => ret tt
             end) in
  let! _ := adoptShared host false in ret tt.

(** The order of a Go map's iteration is not fixed: it is an argument. *)
Definition loadCache (hosts : list string) : M unit := each load_host hosts.

Definition degraded (hosts : gmap string reservedHost) : bool :=
  bool_decide (map_Exists (λ _ rh, h_cur rh = None) hosts).

(** [run], with the iteration order of each round; [true] when the context
    ended it, [false] when the rounds given are over. *)
Fixpoint run (renewEvery degradedEvery : Z) (rounds : list (list string)) : M bool :=
  match rounds with
  | [] => ret false
  | hosts :: rounds' =>
      let! _ := each maybeRenew hosts in
      let! wait := (λ s, (Done (if degraded (st_hosts s) then degradedEvery else renewEvery), s)) in
      let! stop := dep (sd_wait None wait) in
      if (stop : bool) then ret true else run renewEvery degradedEvery rounds'
  end.

Definition getCertificateFor (hosts : gmap string reservedHost) (host : string) : option C :=
  rh ← hosts !! host; h_cur rh.
Definition has (hosts : gmap string reservedHost) (host : string) : bool :=
  bool_decide (is_Some (getCertificateFor hosts host)).

Definition newReservedCerts (b : B) (d : disk) (hosts : list string) : state :=
  State b d (list_to_map (map (λ h, (h, new_host)) hosts)) [].

(** ** Runs that keep a relation

    [keeps R m Q]: [m] relates its start to its end by [R], even when it is cut
    off, and what it returns satisfies [Q]. *)
Definition keeps (R : relation state) {A} (m : M A) (Q : A → Prop) : Prop :=
  ∀ s, R s (m s).2 ∧ ∀ a, (m s).1 = Done a → Q a.
Definition any {A} (_ : A) : Prop := True.

Definition current (s : state) (host : string) : reservedHost := default new_host (st_hosts s !! host).

(** The certificate an event brings into use. *)
Definition use_of (e : event C) : option (string * C * CertInfo) :=
  match e with
  | EvIssued h c info | EvLoaded h c info _ | EvAdopted h c info _ _ => Some (h, c, info)
  | _ => None
  end.

Section keeps.
Context (R : relation state) `{!PreOrder R}.

Lemma keeps_ret {A} (a : A) (Q : A → Prop) : Q a → keeps R (ret a) Q.
Proof. intros HQ s. split; [done|]. by intros a' [= <-]. Qed.
Lemma keeps_ask {A} (f : B → A) : keeps R (ask f) any.
Proof. by intros s. Qed.
Lemma keeps_host host : keeps R (host_of host) any.
Proof. by intros s. Qed.
Lemma keeps_disk : keeps R read_disk any.
Proof. by intros s. Qed.
Lemma keeps_stuck {A} (Q : A → Prop) : keeps R stuck Q.
Proof. by intros s. Qed.
Lemma keeps_weaken {A} (m : M A) (Q Q' : A → Prop) : (∀ a, Q a → Q' a) → keeps R m Q → keeps R m Q'.
Proof. intros HQ Hm s. destruct (Hm s) as [? Ha]. eauto. Qed.

Lemma keeps_bind {A A'} (m : M A) (f : A → M A') Q Q' :
  keeps R m Q → (∀ a, Q a → keeps R (f a) Q') → keeps R (bind m f) Q'.
Proof.
  intros Hm Hf s. unfold bind. destruct (Hm s) as [HR HQ].
  destruct (m s) as [[a| |] s']; simpl in *; [|done..].
  destruct (Hf a (HQ a eq_refl) s') as [HR' HQ']. split; [by etrans|done].
Qed.

Lemma keeps_each f hosts : (∀ h, keeps R (f h) any) → keeps R (each f hosts) any.
Proof.
  intros Hf. induction hosts; simpl; [by apply keeps_ret|]. eapply keeps_bind; [apply Hf|]. auto.
Qed.

(** What a relation must allow: calls, trace entries, and the three ways a
    certificate comes into use and is saved. *)
Record respects : Prop := {
  rs_dep {A} (f : B → A * B) : keeps R (dep f) (λ a, ∃ b b', f b = (a, b'));
  rs_emit e : use_of e = None → keeps R (emit e) any;
  rs_load host certPEM keyPEM c info now s :
    X509KeyPair certPEM keyPEM = Some c → now < ci_NotAfter info →
    R s (store host c info (EvLoaded host c info now) s).2;
  rs_adopt host raw b c info now s :
    parse_bundle raw = Some (b, c, info) → now < ci_NotAfter info →
    (is_Some (h_cur (current s host)) → ci_NotAfter (h_info (current s host)) < ci_NotAfter info) →
    R s (store host c info (EvAdopted host c info now ((λ _, h_info (current s host)) <$> h_cur (current s host))) s).2;
  rs_adopt_persist host raw b c info :
    parse_bundle raw = Some (b, c, info) → keeps R (persist host (CertPEM b) (KeyPEM b) info) any;
  rs_issue host certPEM keyPEM c info s :
    X509KeyPair certPEM keyPEM = Some c → R s (store host c info (EvIssued host c info) s).2;
  rs_issue_persist host dl b cur b' certPEM keyPEM c info :
    sd_obtain dl host cur b = (Ok (certPEM, keyPEM, info), b') → X509KeyPair certPEM keyPEM = Some c →
    keeps R (persist host certPEM keyPEM info) any
}.

Context (Hr : respects).

Lemma keeps_dep {A} (f : B → A * B) : keeps R (dep f) any.
Proof. eapply keeps_weaken; [|apply (rs_dep Hr)]. done. Qed.

Lemma keeps_readFile path : keeps R (readFile path) any.
Proof.
  eapply keeps_bind; [apply keeps_dep|]. intros ok _.
  eapply keeps_bind; [apply keeps_disk|]. intros d _. by apply keeps_ret.
Qed.

#[local] Hint Resolve keeps_ask keeps_host keeps_disk keeps_stuck keeps_readFile keeps_dep : keeps.
#[local] Hint Extern 1 (keeps R (ret _) any) => by apply keeps_ret : keeps.
#[local] Hint Extern 1 (keeps R (emit _) _) => by apply (rs_emit Hr) : keeps.
Ltac keep1 := eapply keeps_bind; [solve [auto with keeps]|intros ? _].
Ltac keep := repeat keep1; auto with keeps.

Definition is_pair (c : C) : Prop := ∃ certPEM keyPEM, X509KeyPair certPEM keyPEM = Some c.

Lemma parse_bundle_pair raw b c info : parse_bundle raw = Some (b, c, info) →
  X509KeyPair (CertPEM b) (KeyPEM b) = Some c.
Proof. unfold parse_bundle. intros. by repeat (case_match || simplify_option_eq). Qed.

Lemma keeps_loadCached host : keeps R (loadCached host) (λ x, ∀ c info, x = Some (c, info) → is_pair c).
Proof.
  unfold loadCached. eapply (keeps_bind _ _ (λ x, ∀ c info, x = Some (c, info) → is_pair c)).
  - unfold loadBundle. keep. apply keeps_ret. intros c info Hx.
    destruct a as [raw|]; simplify_option_eq. destruct (parse_bundle raw) as [[[b c'] info']|] eqn:Hp; simplify_eq/=.
    eexists _, _. by eapply parse_bundle_pair.
  - intros [x|] Hx; [by apply keeps_ret|]. unfold loadLegacyTriple. keep.
    destruct a as [certPEM|]; [|by apply keeps_ret]. keep. destruct a as [keyPEM|]; [|by apply keeps_ret].
    destruct (X509KeyPair certPEM keyPEM) as [c|] eqn:Hc; [|by apply keeps_ret]. keep.
    apply keeps_ret. intros c' info Hi. simplify_option_eq. by exists certPEM, keyPEM.
Qed.

Lemma keeps_store_then {A} host c info e (k : M A) s Q :
  R s (store host c info e s).2 → keeps R k Q →
  R s (bind (store host c info e) (λ _, k) s).2 ∧
  ∀ a, (bind (store host c info e) (λ _, k) s).1 = Done a → Q a.
Proof.
  intros Hs Hk. unfold bind. destruct (Hk (store host c info e s).2) as [? ?]. simpl in *. split; [by etrans|done].
Qed.

Lemma dep_hosts {A} (f : B → A * B) s : st_hosts (dep f s).2 = st_hosts s.
Proof. unfold dep, sys. destruct (f (st_b s)) as [a b]. by destruct (sd_died b). Qed.

Lemma keeps_adoptShared host requireNotDue : keeps R (adoptShared host requireNotDue) any.
Proof.
  unfold adoptShared. keep. destruct a as [[raw|]|]; auto with keeps.
  destruct (parse_bundle raw) as [[[b c] info]|] eqn:Hp; auto with keeps.
  intros s. unfold bind at 1, ask. unfold bind at 1, host_of. fold (current s host).
  set (rh := current s host). set (now := sd_clock (st_b s)).
  destruct (now <? ci_NotAfter info) eqn:Hnow; [|done]. simpl.
  destruct (bool_decide _ && _) eqn:Hold; [done|].
  assert (Huse : ∀ s', st_hosts s' = st_hosts s →
    R s' (bind (store host c info (EvAdopted host c info now ((λ _, h_info rh) <$> h_cur rh)))
            (λ _, bind (persist host (CertPEM b) (KeyPEM b) info) (λ _, ret true)) s').2).
  { intros s' Hs. assert (rh = current s' host) as Hrh by (unfold rh, current; by rewrite Hs).
    rewrite Hrh. apply (keeps_store_then host c info _ _ s' any).
    - apply (rs_adopt Hr _ raw b); [done|by apply Z.ltb_lt|]. rewrite <- Hrh. intros Hc.
      rewrite bool_decide_eq_true_2 in Hold by done. by apply negb_false_iff, Z.ltb_lt in Hold.
    - eapply keeps_bind; [by eapply (rs_adopt_persist Hr)|]. intros ? _. by apply keeps_ret. }
  split; [|done]. destruct requireNotDue; [|by apply Huse]. unfold bind at 1.
  pose proof (dep_hosts (sd_shouldRenew info) s) as Hh. destruct (keeps_dep (sd_shouldRenew info) s) as [Hd _].
  destruct (dep (sd_shouldRenew info) s) as [[due| |] s']; simpl in *; [|done..].
  destruct due as [[|]|]; [done| |done]. etrans; [exact Hd|]. by apply Huse.
Qed.
#[local] Hint Resolve keeps_adoptShared : keeps.

Lemma keeps_publish host certPEM keyPEM info : keeps R (publish host certPEM keyPEM info) any.
Proof. unfold publish. case_match; keep. Qed.

Lemma keeps_releaseLock host tok : keeps R (releaseLock host tok) any.
Proof. unfold releaseLock. keep. Qed.
#[local] Hint Resolve keeps_publish keeps_releaseLock : keeps.

Lemma keeps_acquire fuel dl host : keeps R (acquire fuel dl host) any.
Proof.
  induction fuel as [|fuel IH]; simpl; auto with keeps. keep.
  destruct a as [[tok|]|]; auto with keeps; keep. by destruct a.
Qed.
#[local] Hint Resolve keeps_acquire : keeps.

Lemma keeps_unlock_if host lock : keeps R (unlock_if host lock) any.
Proof. destruct lock; simpl; auto with keeps. Qed.
#[local] Hint Resolve keeps_unlock_if : keeps.

Lemma keeps_place host lock : keeps R (place host lock) any.
Proof.
  unfold place. do 3 keep1. eapply keeps_bind; [apply (rs_dep Hr)|].
  intros r (b & b' & Hob). destruct r as [[[certPEM keyPEM] info]|e].
  - eapply (keeps_bind _ _ any); [|auto with keeps].
    destruct (X509KeyPair certPEM keyPEM) as [c|] eqn:Hc; auto with keeps. intros s.
    apply keeps_store_then; [by eapply (rs_issue Hr)|].
    eapply keeps_bind; [by eapply (rs_issue_persist Hr)|auto with keeps].
  - keep. destruct lock; auto with keeps. destruct (_ && _); auto with keeps.
Qed.
#[local] Hint Resolve keeps_place : keeps.

Lemma keeps_order host lock : keeps R (order host lock) any.
Proof. destruct lock; simpl; auto with keeps. keep1. destruct a; auto with keeps. Qed.
#[local] Hint Resolve keeps_order : keeps.

Lemma keeps_issue host : keeps R (issue host) any.
Proof.
  unfold issue. keep. destruct a1; [destruct a0 as [[]|]; auto with keeps|].
  destruct a0 as [[tok|]|]; [apply (keeps_order host (Some tok))|auto with keeps|].
  keep1. apply (keeps_order host None).
Qed.
#[local] Hint Resolve keeps_issue : keeps.

Lemma keeps_maybeRenew host : keeps R (maybeRenew host) any.
Proof.
  unfold maybeRenew. keep. destruct (h_cur a0); auto with keeps. keep.
  destruct a1 as [[]|]; auto with keeps.
Qed.

Lemma keeps_load_host host : keeps R (load_host host) any.
Proof.
  unfold load_host. eapply keeps_bind; [apply keeps_loadCached|]. intros x Hx. keep.
  eapply (keeps_bind _ _ any); [|intros ? _; keep].
  destruct x as [[c info]|]; auto with keeps. destruct (_ <? _) eqn:Hnow; auto with keeps.
  intros s. split; [|done]. destruct (Hx c info eq_refl) as (certPEM & keyPEM & Hc).
  eapply (rs_load Hr); [done|by apply Z.ltb_lt].
Qed.

(** Loading the cache and then any number of rounds. *)
Lemma keeps_run renewEvery degradedEvery rounds : keeps R (run renewEvery degradedEvery rounds) any.
Proof.
  induction rounds as [|hosts rounds IH]; simpl; auto with keeps.
  eapply keeps_bind; [apply keeps_each; apply keeps_maybeRenew|]. intros ? _.
  eapply (keeps_bind _ _ any); [by intros s|]. intros wait _. keep. destruct a0; auto with keeps.
Qed.

Lemma keeps_loadCache hosts : keeps R (loadCache hosts) any.
Proof. apply keeps_each. apply keeps_load_host. Qed.
End keeps.

(** ** Saving touches nothing but the disk *)
Definition disk_only (s s' : state) : Prop := st_hosts s' = st_hosts s ∧ st_trace s' = st_trace s.
#[local] Instance disk_only_preorder : PreOrder disk_only.
Proof. split; [done|]. intros s1 s2 s3 [] []. split; congruence. Qed.

Lemma sys_disk_only {A} (f : B → A * B) g : keeps disk_only (sys f g) (λ a, ∃ b b', f b = (a, b')).
Proof.
  intros s. unfold sys. destruct (f (st_b s)) as [a b] eqn:E.
  destruct (sd_died b); split; [done..|]. intros a' [= <-]. eauto.
Qed.

Lemma sys_same {A} (f : B → A * B) g : keeps disk_only (sys f g) any.
Proof. eapply keeps_weaken; [|apply sys_disk_only]. done. Qed.

Lemma persist_disk_only host certPEM keyPEM info : keeps disk_only (persist host certPEM keyPEM info) any.
Proof.
  unfold persist. eapply keeps_bind; [apply _|apply sys_same|]. intros [] _; simpl; [|by apply keeps_ret; [apply _|]].
  case_match; [|by apply keeps_ret; [apply _|]].
  eapply (keeps_bind _ _ _ any).
  - eapply keeps_bind; [apply _|apply sys_same|]. intros ? _. by apply keeps_ret; [apply _|].
  - intros [] _; simpl; [|by apply keeps_ret; [apply _|]].
    eapply keeps_bind; [apply _|apply sys_same|]. intros ? _. by apply keeps_ret; [apply _|].
Qed.

(** ** The certificates in use *)
Definition last_use (host : string) (tr : list (event C)) : option (C * CertInfo) :=
  fold_left (λ acc e, match use_of e with
                      | Some (h, c, info) => if String.eqb h host then Some (c, info) else acc
                      | None => acc
                      end) tr None.

(** The certificate and the details a host has are those of one event, and
    they are a key pair. *)
Definition in_use (s : state) : Prop := ∀ h x, st_hosts s !! h = Some x →
  match last_use h (st_trace s) with
  | Some (c, info) => x = Host (Some c) info ∧ is_pair c
  | None => x = new_host
  end.

Definition sound_event (e : event C) : Prop :=
  match e with
  | EvLoaded _ c info now => is_pair c ∧ now < ci_NotAfter info
  | EvAdopted _ c info now old =>
      is_pair c ∧ now < ci_NotAfter info ∧ ∀ o, old = Some o → ci_NotAfter o < ci_NotAfter info
  | EvIssued _ c _ => is_pair c
  | _ => True
  end.

Record serving (s s' : state) : Prop := Serving {
  sv_kept : ∀ h, has (st_hosts s) h = true → has (st_hosts s') h = true;
  sv_in_use : in_use s → in_use s';
  sv_trace : ∃ tr, st_trace s' = st_trace s ++ tr ∧ Forall sound_event tr
}.
#[local] Instance serving_preorder : PreOrder serving.
Proof.
  split.
  - intros s. split; [done..|]. exists []. by rewrite app_nil_r.
  - intros s1 s2 s3 [K1 I1 (t1 & E1 & F1)] [K2 I2 (t2 & E2 & F2)]. split; [auto..|].
    exists (t1 ++ t2). rewrite E2, E1, app_assoc. split; [done|]. by apply Forall_app.
Qed.

Lemma last_use_app host tr e :
  last_use host (tr ++ [e]) =
    match use_of e with
    | Some (h, c, info) => if String.eqb h host then Some (c, info) else last_use host tr
    | None => last_use host tr
    end.
Proof. unfold last_use. by rewrite fold_left_app. Qed.

Lemma serving_same s s' : disk_only s s' → serving s s'.
Proof.
  intros [Eh Et]. split.
  - by rewrite Eh.
  - unfold in_use. by rewrite Eh, Et.
  - exists []. by rewrite Et, app_nil_r.
Qed.

Lemma serving_store host c info e s :
  use_of e = Some (host, c, info) → sound_event e → is_pair c → serving s (store host c info e s).2.
Proof.
  intros Hu He Hc. split; simpl.
  - intros h. unfold has, getCertificateFor. destruct (decide (h = host)) as [->|Hne].
    + rewrite lookup_insert_eq. intros _. by apply bool_decide_eq_true_2.
    + by rewrite lookup_insert_ne by done.
  - intros Hi h x. simpl. rewrite last_use_app, Hu. destruct (decide (host = h)) as [->|Hne].
    + rewrite lookup_insert_eq, String.eqb_refl. by intros [= <-].
    + rewrite lookup_insert_ne by done. destruct (String.eqb_spec host h); [done|]. apply Hi.
  - exists [e]. by rewrite Forall_singleton.
Qed.

Lemma serving_respects : respects serving.
Proof.
  split.
  - intros A f s. destruct (sys_disk_only f (λ _ d, d) s) as [? ?]. split; [by apply serving_same|done].
  - intros e He s. split; [|done]. split; simpl; [done| |].
    + intros Hi h x Hx. simpl. rewrite last_use_app, He. by apply Hi.
    + exists [e]. split; [done|]. apply Forall_singleton. by destruct e.
  - intros. apply serving_store; [done| |by eexists _, _]. split; [by eexists _, _|done].
  - intros host raw b c info now s Hp Hn Ho. pose proof (parse_bundle_pair _ _ _ _ Hp).
    apply serving_store; [done| |by eexists _, _]. split; [by eexists _, _|]. split; [done|].
    intros o Heq. destruct (h_cur (current s host)) eqn:Ec; simplify_eq/=. by apply Ho.
  - intros host raw b c info _ s. split; [|done]. apply serving_same, persist_disk_only.
  - intros. apply serving_store; [done|by eexists _, _..].
  - intros host dl b cur b' certPEM keyPEM c info _ _ s. split; [|done]. apply serving_same, persist_disk_only.
Qed.

(** A node's life: it loads its cache and then checks its hosts in rounds. *)
Definition life (order : list string) (rounds : list (list string)) : M bool :=
  let! _ := loadCache order in run renewalScanInterval reservedDegradedRetry rounds.

Lemma keeps_life R `{!PreOrder R} order rounds : respects R → keeps R (life order rounds) any.
Proof.
  intros Hr. eapply keeps_bind; [apply _|by apply keeps_loadCache|]. intros ? _. by apply keeps_run.
Qed.

(** C18. The service never loses or worsens the certificate of its own hosts. In every
    life of a node, with any answers of Valkey, of the certificate authority, of the
    disk and of the clock, and cut off at any point, a host that has a certificate still
    has one; the one in use is the last that was put in use; and each was loaded from
    disk before its expiry, adopted from another node while valid and because it is
    valid longer than the one it replaces, or issued; and is a certificate with its key. *)
Theorem served_certificate_kept order rounds s : in_use s →
  let s' := (life order rounds s).2 in
  (∀ h, has (st_hosts s) h = true → has (st_hosts s') h = true) ∧ in_use s' ∧
  ∃ tr, st_trace s' = st_trace s ++ tr ∧ Forall sound_event tr.
Proof.
  intros Hi s'. destruct (keeps_life serving order rounds serving_respects s) as [[K I T] _]. by split_and!; auto.
Qed.

Lemma newReservedCerts_in_use b d hosts : in_use (newReservedCerts b d hosts).
Proof.
  intros h x Hx. simpl in *. apply elem_of_list_to_map_2, list_elem_of_fmap in Hx as (y & Hy & _). by simplify_eq.
Qed.

(** ** The file on disk *)

Lemma persist_cases host certPEM keyPEM info s d :
  d = st_disk (persist host certPEM keyPEM info s).2 →
  d = st_disk s ∨
  ∃ raw, MarshalBundle (Bundle certPEM keyPEM info) = Some raw ∧
    ((∃ r, d = write_effect (tmp_file host) raw r (st_disk s)) ∨
     ∃ ok, d = rename_effect (tmp_file host) (bundle_file host) ok (<[tmp_file host := raw]> (st_disk s))).
Proof.
  unfold persist, bind at 1, dep, sys at 1. destruct (sd_mkdir (st_b s)) as [ok b1].
  destruct (sd_died b1); simpl; [by left|]. destruct ok; simpl; [|by left].
  destruct (MarshalBundle _) as [raw|]; [|by left]. intros Hd. right. exists raw. split; [done|]. revert Hd.
  unfold writeFile. unfold bind at 1. unfold bind at 1, sys at 1. simpl. destruct (sd_write b1) as [r b2].
  destruct (sd_died b2); simpl; [intros ->; by left; eexists|]. destruct r; simpl.
  - unfold rename, bind, sys. simpl. destruct (sd_rename b2) as [ok b3]. intros Hd.
    right. exists ok. by destruct (sd_died b3).
  - left. by exists (Partial n).
  - left. by exists Untouched.
Qed.

(** Saving changes the host's bundle to the whole new one or not at all. *)
Lemma persist_effect host certPEM keyPEM info s d' :
  d' = st_disk (persist host certPEM keyPEM info s).2 →
  (∀ p, p ≠ tmp_file host → p ≠ bundle_file host → d' !! p = st_disk s !! p) ∧
  (d' !! bundle_file host = st_disk s !! bundle_file host ∨
   ∃ raw, MarshalBundle (Bundle certPEM keyPEM info) = Some raw ∧ d' !! bundle_file host = Some raw).
Proof.
  assert (bundle_file host ≠ tmp_file host) as Hbt by (unfold bundle_file, tmp_file; congruence).
  intros [-> | (raw & Hm & Hd)]%persist_cases; [by split; [|left]|].
  assert (Hw : ∀ r p, p ≠ tmp_file host → write_effect (tmp_file host) raw r (st_disk s) !! p = st_disk s !! p).
  { intros r p Hp. destruct r; simpl; [by rewrite lookup_insert_ne..|done]. }
  destruct Hd as [(r & ->) | (ok & ->)]; [by split; [|left]; intros; apply Hw|].
  unfold rename_effect. rewrite lookup_insert_eq. destruct ok; [|by split; [|left]; intros; apply (Hw Written)].
  split; [|right; exists raw; by rewrite lookup_insert_eq].
  intros p H1 H2. rewrite lookup_insert_ne, lookup_delete_ne by done. by apply (Hw Written).
Qed.

Definition saved (s : state) (host : string) : Prop :=
  ∃ raw x, st_disk s !! bundle_file host = Some raw ∧ parse_bundle raw = Some x.
Definition intact (s : state) (host : string) : Prop := st_disk s !! bundle_file host = None ∨ saved s host.

Definition caching (s s' : state) : Prop := ∀ h,
  (saved s h → saved s' h) ∧ (intact s h → intact s' h).
#[local] Instance caching_preorder : PreOrder caching.
Proof. split; [done|]. intros s1 s2 s3 H1 H2 h. destruct (H1 h), (H2 h). auto. Qed.

Lemma caching_same s s' : st_disk s' = st_disk s → caching s s'.
Proof. intros E h. unfold intact, saved. by rewrite E. Qed.

Lemma caching_persist host certPEM keyPEM info :
  (∀ raw, MarshalBundle (Bundle certPEM keyPEM info) = Some raw → ∃ x, parse_bundle raw = Some x) →
  keeps caching (persist host certPEM keyPEM info) any.
Proof.
  intros Hp s. split; [|done]. intros h.
  destruct (persist_effect host certPEM keyPEM info s _ eq_refl) as [Hother Hbundle].
  assert (Hs : saved s h → saved (persist host certPEM keyPEM info s).2 h).
  { intros (raw & x & Hraw & Hx). destruct (decide (h = host)) as [->|Hne].
    - destruct Hbundle as [E | (raw' & Hm & E)].
      + exists raw, x. by rewrite E.
      + destruct (Hp _ Hm) as [x' Hx']. by exists raw', x'.
    - exists raw, x. rewrite Hother; [done|unfold bundle_file, tmp_file; congruence..]. }
  split; [done|]. intros [Hn|Hsv]; [|by right; apply Hs].
  destruct (decide (h = host)) as [->|Hne].
  - destruct Hbundle as [E | (raw' & Hm & E)]; [left; by rewrite E|].
    right. destruct (Hp _ Hm) as [x' Hx']. by exists raw', x'.
  - left. rewrite Hother; [done|unfold bundle_file, tmp_file; congruence..].
Qed.

(** What is documented of JSON and of the issuing chain: texts (valid UTF-8)
    survive encoding and decoding, decoding gives texts, and an order's result
    is text whose leaf has an expiry date. *)
Record text_bundle (text : string → Prop) (b : certBundle) : Prop := {
  tb_cert : text (CertPEM b); tb_key : text (KeyPEM b); tb_CA : text (ci_CA (Info b));
  tb_Serial : text (ci_Serial (Info b)); tb_ARIID : text (ci_ARIID (Info b))
}.
Record codec_laws (text : string → Prop) : Prop := {
  cl_roundtrip b raw : text_bundle text b → MarshalBundle b = Some raw → UnmarshalBundle raw = Some b;
  cl_decoded raw b : UnmarshalBundle raw = Some b → text_bundle text b;
  cl_obtained dl host cur b b' certPEM keyPEM info :
    sd_obtain dl host cur b = (Ok (certPEM, keyPEM, info), b') →
    text_bundle text (Bundle certPEM keyPEM info) ∧ is_Some (complete_info certPEM info)
}.

Lemma complete_info_again certPEM info info' : complete_info certPEM info = Some info' →
  is_Some (complete_info certPEM info').
Proof.
  unfold complete_info. destruct (ci_NotAfter info =? zero_time) eqn:E.
  - intros Hl. destruct (leafNotAfter certPEM); [|done]. by case_match.
  - intros [= <-]. by rewrite E.
Qed.

Section codec.
Context (text : string → Prop) (Hcodec : codec_laws text).

Lemma encoded_parses certPEM keyPEM info c raw :
  text_bundle text (Bundle certPEM keyPEM info) → X509KeyPair certPEM keyPEM = Some c →
  is_Some (complete_info certPEM info) →
  MarshalBundle (Bundle certPEM keyPEM info) = Some raw → ∃ x, parse_bundle raw = Some x.
Proof.
  intros Ht Hc [info' Hi] Hm. unfold parse_bundle. rewrite (cl_roundtrip _ Hcodec _ _ Ht Hm). simpl.
  rewrite Hc. simpl. rewrite Hi. by eexists.
Qed.

Lemma parse_bundle_inv raw b c info : parse_bundle raw = Some (b, c, info) →
  UnmarshalBundle raw = Some b ∧ X509KeyPair (CertPEM b) (KeyPEM b) = Some c ∧
  complete_info (CertPEM b) (Info b) = Some info.
Proof. unfold parse_bundle. intros. by simplify_option_eq. Qed.

Lemma complete_info_texts certPEM keyPEM info info' :
  complete_info certPEM info = Some info' → text_bundle text (Bundle certPEM keyPEM info) →
  text_bundle text (Bundle certPEM keyPEM info').
Proof.
  unfold complete_info. case_match; intros E; simplify_option_eq; [|done].
  destruct (leafNotAfter certPEM); simplify_eq/=. intros []. by split.
Qed.

Lemma caching_respects : respects caching.
Proof.
  split.
  - intros A f s. destruct (sys_disk_only f (λ _ d, d) s) as [_ Hq]. split; [|done].
    apply caching_same. unfold dep, sys. destruct (f (st_b s)) as [a b]. by destruct (sd_died b).
  - intros e _ s. split; [by apply caching_same|done].
  - intros. by apply caching_same.
  - intros. by apply caching_same.
  - intros host raw b c info Hp. apply parse_bundle_inv in Hp as (Hu & Hc & Hi).
    apply caching_persist. intros raw' Hm.
    eapply encoded_parses; [|exact Hc|by eapply complete_info_again|exact Hm].
    eapply complete_info_texts; [exact Hi|]. destruct (cl_decoded _ Hcodec _ _ Hu). by split.
  - intros. by apply caching_same.
  - intros host dl b cur b' certPEM keyPEM c info Ho Hc.
    destruct (cl_obtained _ Hcodec _ _ _ _ _ _ _ _ Ho) as [Ht Hi].
    apply caching_persist. intros raw Hm. by eapply encoded_parses.
Qed.

(** C19. The certificate on disk survives crashes. In every life of a node, with partial
    writes, failing renames and death at any point, a bundle file that held a complete
    bundle, or was absent, still does, and a host with a saved bundle still has one. *)
Theorem cache_survives_crash order rounds s h :
  let s' := (life order rounds s).2 in
  (intact s h → intact s' h) ∧ (saved s h → saved s' h).
Proof. destruct (keeps_life caching order rounds caching_respects s) as [Hk _]. by destruct (Hk h). Qed.
End codec.

(** ** The lock protocol

    What the trace of locks and orders may look like: an order is placed under
    the lock, or after the lock itself could not be asked for; a lock is given
    back once, or left to expire after an order was placed under it. *)
Inductive lock_state :=
| Idle
| Locked (host tok : string)
| Ordering (host tok : string)
| Bare (host : string).

Definition lock_step (a : lock_state) (e : event C) : option lock_state :=
  match a, e with
  | _, EvIssued _ _ _ | _, EvLoaded _ _ _ _ | _, EvAdopted _ _ _ _ _ => Some a
  | Idle, EvLocked h t => Some (Locked h t)
  | Idle, EvLockFailed h => Some (Bare h)
  | Bare h, EvOrdered h' None => if String.eqb h h' then Some Idle else None
  | Locked h t, EvOrdered h' (Some t') => if String.eqb h h' && String.eqb t t' then Some (Ordering h t) else None
  | (Locked h t | Ordering h t), EvUnlocked h' t' => if String.eqb h h' && String.eqb t t' then Some Idle else None
  | Ordering h t, EvAbandoned h' t' => if String.eqb h h' && String.eqb t t' then Some Idle else None
  | _, _ => None
  end.

Definition lock_run (tr : list (event C)) : option lock_state :=
  fold_left (λ a e, a ≫= λ a, lock_step a e) tr (Some Idle).

Lemma lock_run_app tr e : lock_run (tr ++ [e]) = (lock_run tr ≫= λ a, lock_step a e).
Proof. unfold lock_run. by rewrite fold_left_app. Qed.

(** [m], started in the lock state [a], follows the protocol and returns only
    with a result and a lock state in [Q]. *)
Definition drives {A} (m : M A) (a : lock_state) (Q : A → lock_state → Prop) : Prop :=
  ∀ s, lock_run (st_trace s) = Some a →
    ∃ a', lock_run (st_trace (m s).2) = Some a' ∧ ∀ x, (m s).1 = Done x → Q x a'.
Definition stays {A} (a : lock_state) (_ : A) (a' : lock_state) : Prop := a' = a.

Lemma drives_bind {A A'} (m : M A) (f : A → M A') a Q Q' :
  drives m a Q → (∀ x a', Q x a' → drives (f x) a' Q') → drives (bind m f) a Q'.
Proof.
  intros Hm Hf s Hs. unfold bind. destruct (Hm s Hs) as (a' & Ha & HQ).
  destruct (m s) as [[x| |] s']; simpl in *; [|by exists a'..].
  by apply (Hf x a' (HQ x eq_refl)).
Qed.

Lemma drives_ret {A} (x : A) a (Q : A → lock_state → Prop) : Q x a → drives (ret x) a Q.
Proof. intros HQ s Hs. exists a. split; [done|]. by intros x' [= <-]. Qed.

Lemma drives_emit e a a' : lock_step a e = Some a' → drives (emit e) a (stays a').
Proof. intros He s Hs. exists a'. simpl. by rewrite lock_run_app, Hs. Qed.

Lemma drives_store host c info e x a : use_of e = Some x → drives (store host c info e) a (stays a).
Proof.
  intros He s Hs. exists a. simpl. rewrite lock_run_app, Hs. simpl. split; [|done]. by destruct a, e.
Qed.

(** Steps that leave the trace alone. *)
Lemma drives_silent {A} (m : M A) a : (∀ s, st_trace (m s).2 = st_trace s) → drives m a (stays a).
Proof. intros Hm s Hs. exists a. by rewrite Hm. Qed.

Lemma sys_silent {A} (f : B → A * B) g s : st_trace (sys f g s).2 = st_trace s.
Proof. by destruct (sys_disk_only f g s) as [[_ ?] _]. Qed.

Lemma drives_dep {A} (f : B → A * B) a : drives (dep f) a (stays a).
Proof. apply drives_silent. intros s. apply sys_silent. Qed.
Lemma drives_ask {A} (f : B → A) a : drives (ask f) a (stays a).
Proof. by apply drives_silent. Qed.
Lemma drives_host host a : drives (host_of host) a (stays a).
Proof. by apply drives_silent. Qed.
Lemma drives_persist host certPEM keyPEM info a : drives (persist host certPEM keyPEM info) a (stays a).
Proof. apply drives_silent. intros s. by destruct (persist_disk_only host certPEM keyPEM info s) as [[_ ?] _]. Qed.

Lemma drives_readFile path a : drives (readFile path) a (stays a).
Proof.
  eapply drives_bind; [apply drives_dep|]. intros ok a' ->.
  eapply drives_bind; [by apply (drives_silent read_disk)|]. intros d a' ->. by apply drives_ret.
Qed.

#[local] Hint Resolve drives_dep drives_ask drives_host drives_persist drives_readFile : drives.
#[local] Hint Extern 1 (drives (ret _) _ _) => apply drives_ret; reflexivity : drives.
#[local] Hint Extern 1 (drives (emit _) _ _) => apply drives_emit; simpl; by rewrite ?String.eqb_refl : drives.
#[local] Hint Extern 1 (drives (store _ _ _ _) _ _) => by eapply drives_store : drives.
Ltac drive1 := eapply drives_bind; [solve [auto with drives]|intros ? ? ->].
Ltac drive := repeat drive1; auto with drives.

Lemma drives_adoptShared host requireNotDue a : drives (adoptShared host requireNotDue) a (stays a).
Proof.
  unfold adoptShared. drive. destruct x as [[raw|]|]; auto with drives.
  destruct (parse_bundle raw) as [[[b c] info]|]; auto with drives. drive.
  destruct (negb _); auto with drives. destruct (_ && _); auto with drives.
  eapply (drives_bind _ _ _ (stays a)); [destruct requireNotDue; auto with drives|]. intros due ? ->.
  destruct due as [[|]|]; auto with drives. drive.
Qed.
#[local] Hint Resolve drives_adoptShared : drives.

Lemma drives_loadCached host a : drives (loadCached host) a (stays a).
Proof.
  unfold loadCached. eapply (drives_bind _ _ _ (stays a)); [unfold loadBundle; drive|]. intros x ? ->.
  destruct x; auto with drives. unfold loadLegacyTriple. drive.
  destruct x as [certPEM|]; auto with drives. drive. destruct x as [keyPEM|]; auto with drives.
  destruct (X509KeyPair _ _); auto with drives. drive.
Qed.
#[local] Hint Resolve drives_loadCached : drives.

Lemma drives_load_host host a : drives (load_host host) a (stays a).
Proof.
  unfold load_host. drive. eapply (drives_bind _ _ _ (stays a)).
  - destruct x as [[c info]|]; auto with drives. destruct (_ <? _); auto with drives.
  - intros ? ? ->. drive.
Qed.

Lemma drives_each f hosts a : (∀ h, drives (f h) a (stays a)) → drives (each f hosts) a (stays a).
Proof.
  intros Hf. induction hosts; simpl; auto with drives. eapply drives_bind; [apply Hf|]. by intros ? ? ->.
Qed.

Definition held (host : string) (lock : option string) : lock_state :=
  match lock with Some tok => Locked host tok | None => Idle end.

Lemma drives_acquire fuel dl host :
  drives (acquire fuel dl host) Idle (λ r a, a = held host match r with Ok l => l | Err _ => None end).
Proof.
  induction fuel as [|fuel IH]; simpl; [by intros s Hs; exists Idle|]. drive.
  destruct x as [[tok|]|].
  - eapply drives_bind; [auto with drives|]. intros ? ? ->. by apply drives_ret.
  - drive1. destruct x; [by apply drives_ret|exact IH].
  - apply drives_ret. by destruct x0.
Qed.

Lemma drives_releaseLock host tok a : a = Locked host tok ∨ a = Ordering host tok →
  drives (releaseLock host tok) a (stays Idle).
Proof.
  intros Ha. unfold releaseLock. eapply (drives_bind _ _ _ (stays Idle)).
  - apply drives_emit. destruct Ha as [-> | ->]; simpl; by rewrite !String.eqb_refl.
  - intros ? ? ->. drive.
Qed.

Lemma drives_publish host certPEM keyPEM info a : drives (publish host certPEM keyPEM info) a (stays a).
Proof. unfold publish. case_match; drive. Qed.
#[local] Hint Resolve drives_publish : drives.

(** The lock state while an order is under way. *)
Definition ordering (host : string) (lock : option string) : lock_state :=
  match lock with Some tok => Ordering host tok | None => Idle end.

Lemma drives_unlock_if host lock : drives (unlock_if host lock) (ordering host lock) (stays Idle).
Proof. destruct lock; simpl; auto with drives. apply drives_releaseLock. by right. Qed.

Lemma drives_place host lock :
  drives (place host lock) (match lock with Some tok => Locked host tok | None => Bare host end) (stays Idle).
Proof.
  unfold place. do 2 drive1. eapply (drives_bind _ _ _ (stays (ordering host lock))).
  { apply drives_emit. destruct lock; simpl; by rewrite !String.eqb_refl. }
  intros ? ? ->. drive1. destruct x2 as [[[certPEM keyPEM] info]|e].
  - eapply (drives_bind _ _ _ (stays (ordering host lock))); [|intros ? ? ->; apply drives_unlock_if].
    destruct (X509KeyPair _ _); auto with drives. drive1. drive.
  - drive. destruct lock as [tok|]; [|auto with drives]. destruct (_ && _).
    + apply drives_emit. simpl. by rewrite !String.eqb_refl.
    + apply drives_releaseLock. by right.
Qed.

Lemma drives_order host lock :
  drives (order host lock) (match lock with Some tok => Locked host tok | None => Bare host end) (stays Idle).
Proof.
  destruct lock as [tok|]; simpl; [|apply drives_place]. drive1. destruct x.
  - apply drives_releaseLock. by left.
  - apply (drives_place host (Some tok)).
Qed.

Lemma drives_issue host : drives (issue host) Idle (stays Idle).
Proof.
  unfold issue. drive1. eapply drives_bind; [apply drives_acquire|]. intros r ? ->. drive1.
  destruct x0; destruct r as [[tok|]|]; simpl; auto with drives.
  - apply drives_releaseLock. by left.
  - apply (drives_order host (Some tok)).
  - eapply (drives_bind _ _ _ (stays (Bare host))); [auto with drives|]. intros ? ? ->. apply (drives_order host None).
Qed.

Lemma drives_maybeRenew host : drives (maybeRenew host) Idle (stays Idle).
Proof.
  unfold maybeRenew. drive. destruct (h_cur x0); [|apply drives_issue]. drive1.
  destruct x1 as [[|]|]; auto with drives. apply drives_issue.
Qed.

Lemma drives_run renewEvery degradedEvery rounds : drives (run renewEvery degradedEvery rounds) Idle (stays Idle).
Proof.
  induction rounds as [|hosts rounds IH]; simpl; auto with drives.
  eapply drives_bind; [apply drives_each, drives_maybeRenew|]. intros ? ? ->.
  eapply drives_bind; [by apply drives_silent|]. intros wait ? ->. drive1. destruct x0; auto with drives.
Qed.

(** Orders for the service's own hosts are placed only under the order lock: the trace
    of a process's life follows [lock_run] from the idle state, and a life that ends has
    let go of the lock. *)
Lemma orders_only_under_lock order rounds s : lock_run (st_trace s) = Some Idle →
  let r := life order rounds s in
  ∃ a, lock_run (st_trace r.2) = Some a ∧ ∀ stop, r.1 = Done stop → a = Idle.
Proof.
  intros Hs r. unfold r, life.
  destruct (drives_bind (loadCache order) (λ _, run renewalScanInterval reservedDegradedRetry rounds)
              Idle (stays Idle) (stays Idle)) with s as (a & Ha & HQ);
    [apply drives_each; intros; apply drives_load_host| |done|by exists a].
  intros ? ? ->. apply drives_run.
Qed.

(** ** The polling loop ends

    The documented behaviour it relies on: a call under an ended context fails,
    a context that has ended stays so, and a wait that was not cut short took
    its time. *)
Record timing_laws : Prop := {
  tl_lock_time dl host b : sd_clock b ≤ sd_clock (sd_LockSelf dl host b).2;
  tl_lock_ended dl host b r b' : sd_LockSelf dl host b = (Ok r, b') → ctx_ended dl b = false;
  tl_wait dl d b b' : 0 ≤ d → sd_wait dl d b = (false, b') → sd_clock b + d ≤ sd_clock b'
}.

Definition returns {A} (m : M A) : Prop := ∀ s, (m s).1 ≠ Stuck.

Lemma life_returns_ret {A} (x : A) : returns (ret x).
Proof. by intros s. Qed.
Lemma life_returns_bind {A A'} (m : M A) (f : A → M A') : returns m → (∀ x, returns (f x)) → returns (bind m f).
Proof. intros Hm Hf s. unfold bind. specialize (Hm s). destruct (m s) as [[x| |] s']; [apply Hf|done..]. Qed.
Lemma returns_sys {A} (f : B → A * B) g : returns (sys f g).
Proof. intros s. unfold sys. destruct (f (st_b s)) as [a b]. by destruct (sd_died b). Qed.
Lemma returns_plain {A} (m : M A) : (∀ s, ∃ x, (m s).1 = Done x) → returns m.
Proof. intros Hm s. destruct (Hm s) as [x ->]. done. Qed.
#[local] Hint Resolve life_returns_ret returns_sys : returns.
#[local] Hint Extern 1 (returns (dep _)) => apply returns_sys : returns.
#[local] Hint Extern 2 (returns (ask _)) => apply returns_plain; by eexists : returns.
#[local] Hint Extern 2 (returns (host_of _)) => apply returns_plain; by eexists : returns.
#[local] Hint Extern 2 (returns read_disk) => apply returns_plain; by eexists : returns.
#[local] Hint Extern 2 (returns (emit _)) => apply returns_plain; by eexists : returns.
#[local] Hint Extern 2 (returns (store _ _ _ _)) => apply returns_plain; by eexists : returns.
Ltac returning := repeat (apply life_returns_bind; [solve [auto with returns]|intros ?]); auto with returns.

Lemma acquire_returns (Ht : timing_laws) fuel dl host s :
  dl - sd_clock (st_b s) < (Z.of_nat fuel - 1) * selfLockPoll → (0 < fuel)%nat →
  (acquire fuel dl host s).1 ≠ Stuck.
Proof.
  revert s. induction fuel as [|fuel IH]; intros s Hf H0'; [lia|]. simpl.
  unfold bind at 1, dep at 1, sys at 1. destruct (sd_LockSelf dl host (st_b s)) as [r b1] eqn:El.
  pose proof (tl_lock_time Ht dl host (st_b s)) as Hm. rewrite El in Hm. simpl in Hm.
  destruct (sd_died b1); [done|]. unfold bind at 1, ask. destruct r as [[tok|]|]; [done| |done].
  apply (tl_lock_ended Ht) in El. unfold ctx_ended in El. apply orb_false_iff in El as [_ El].
  apply Z.leb_gt in El. unfold bind at 1, dep, sys. simpl.
  destruct (sd_wait (Some dl) selfLockPoll b1) as [[] b2] eqn:Ew; destruct (sd_died b2); try done.
  apply (tl_wait Ht) in Ew; [|done]. assert (selfLockPoll = 2000000000) as Ep by done.
  apply IH; simpl; rewrite Ep in *; lia.
Qed.

Lemma returns_persist host certPEM keyPEM info : returns (persist host certPEM keyPEM info).
Proof.
  unfold persist, writeFile, rename. returning. destruct (negb _); auto with returns. case_match; auto with returns.
  apply life_returns_bind; [returning|]. intros []; simpl; returning.
Qed.

Lemma returns_readFile path : returns (readFile path).
Proof. unfold readFile. returning. Qed.
#[local] Hint Resolve returns_persist returns_readFile : returns.

Lemma returns_adoptShared host req : returns (adoptShared host req).
Proof.
  unfold adoptShared. returning. destruct x as [[raw|]|]; auto with returns.
  destruct (parse_bundle raw) as [[[b c] info]|]; auto with returns. returning.
  destruct (negb _); auto with returns. destruct (_ && _); auto with returns.
  apply life_returns_bind; [destruct req; auto with returns|]. intros [[|]|]; auto with returns. returning.
Qed.

Lemma returns_releaseLock host tok : returns (releaseLock host tok).
Proof. unfold releaseLock. returning. Qed.
#[local] Hint Resolve returns_adoptShared returns_releaseLock : returns.

Lemma returns_place host lock : returns (place host lock).
Proof.
  unfold place. returning. destruct x2 as [[[certPEM keyPEM] info]|].
  - apply life_returns_bind; [|destruct lock; simpl; auto with returns].
    destruct (X509KeyPair _ _); auto with returns. returning. unfold publish. case_match; returning.
  - returning. destruct lock; auto with returns. destruct (_ && _); auto with returns.
Qed.
#[local] Hint Resolve returns_place : returns.

Lemma returns_issue (Ht : timing_laws) host : returns (issue host).
Proof.
  assert (Hplace : ∀ lock, returns (order host lock)).
  { intros [tok|]; [|apply returns_place]. apply life_returns_bind; [apply returns_adoptShared|].
    intros []; [apply returns_releaseLock|apply returns_place]. }
  intros s. unfold issue. unfold bind at 1, ask. unfold bind at 1.
  assert (Ha : (acquire acquire_fuel (sd_clock (st_b s) + selfLockWait) host s).1 ≠ Stuck).
  { assert (Z.of_nat acquire_fuel = 152) as Ef by reflexivity.
    apply acquire_returns; [done| |lia].
    rewrite Ef. unfold selfLockWait, selfLockPoll, minute, second. lia. }
  revert Ha. generalize acquire_fuel. intros fuel Ha.
  destruct (acquire fuel _ host s) as [[r| |] s']; [|done|by destruct Ha].
  unfold bind at 1. destruct (sd_ended (st_b s')).
  - destruct r as [[tok|]|]; [apply returns_releaseLock|done..].
  - destruct r as [[tok|]|]; [apply (Hplace (Some tok))|done|]. unfold bind at 1, emit. apply (Hplace None).
Qed.

Lemma returns_each f hosts : (∀ h, returns (f h)) → returns (each f hosts).
Proof. intros Hf. induction hosts; simpl; auto with returns. by apply life_returns_bind. Qed.

Lemma returns_load_host host : returns (load_host host).
Proof.
  unfold load_host, loadCached, loadBundle, loadLegacyTriple. apply life_returns_bind.
  - apply life_returns_bind; [returning|]. intros []; auto with returns. returning.
    destruct x; auto with returns. returning. destruct x; auto with returns.
    destruct (X509KeyPair _ _); returning.
  - intros x. returning. apply life_returns_bind; [|intros; returning].
    destruct x as [[c info]|]; auto with returns. destruct (_ <? _); auto with returns.
Qed.

Lemma returns_maybeRenew (Ht : timing_laws) host : returns (maybeRenew host).
Proof.
  unfold maybeRenew. returning. destruct (h_cur x0); [|by apply returns_issue]. returning.
  destruct x1 as [[]|]; auto with returns. by apply returns_issue.
Qed.

(** When calls under an ended context fail and waits take the time they say, every life
    of a node returns: the polling loop of the lock ends. *)
Lemma life_returns (Ht : timing_laws) order rounds s : (life order rounds s).1 ≠ Stuck.
Proof.
  revert s. apply (life_returns_bind (loadCache order)); [apply returns_each; apply returns_load_host|].
  intros _. induction rounds as [|hosts rounds IH]; simpl; auto with returns.
  apply life_returns_bind; [apply returns_each; by apply returns_maybeRenew|]. intros _.
  apply life_returns_bind; [by apply returns_plain; eexists|]. intros wait. returning. destruct x; auto with returns.
Qed.
End reserved.

(** ** Examples

    A node whose calls all succeed: nothing is shared, and an order returns
    [sample_pair].  The codec knows that one bundle. *)
Record sample_node := SampleNode { sn_now : Z; sn_kill : Z }.   (* the process dies at [sn_kill] *)
Definition tick (b : sample_node) : sample_node := SampleNode (sn_now b + second) (sn_kill b).

Definition sample_now : Z := 1700000000 * second.
Definition sample_info : CertInfo :=
  {| ci_CA := "letsencrypt"; ci_Serial := "1f"; ci_NotBefore := sample_now;
     ci_NotAfter := sample_now + 160 * hour; ci_ARIID := "" |}.
Definition sample_bundle : certBundle := Bundle "CERT" "KEY" sample_info.

#[export] Instance sample_codec : CertCodec string := {
  X509KeyPair cert key := if String.eqb cert "CERT" && String.eqb key "KEY" then Some "pair" else None;
  leafNotAfter cert := if String.eqb cert "CERT" then Some (sample_now + 160 * hour) else None;
  MarshalBundle b :=
    if String.eqb (CertPEM b) "CERT" && String.eqb (KeyPEM b) "KEY" && (ci_NotAfter (Info b) =? ci_NotAfter sample_info)
       && String.eqb (ci_CA (Info b)) "letsencrypt" && String.eqb (ci_Serial (Info b)) "1f"
       && String.eqb (ci_ARIID (Info b)) "" && (ci_NotBefore (Info b) =? sample_now)
    then Some "{bundle}" else None;
  UnmarshalBundle raw := if String.eqb raw "{bundle}" then Some sample_bundle else None;
  UnmarshalInfo raw := None
}.

#[export] Instance sample_deps : SelfDeps sample_node := {
  sd_LockSelf dl host b := (if dl <=? sn_now b then Err tt else Ok (Some "token"), tick b);
  sd_unlock host tok b := (Ok tt, tick b);
  sd_SelfCert host b := (Ok None, tick b);
  sd_PutSelfCert host raw ttl b := (Ok tt, tick b);
  sd_obtain dl host cur b := (Ok ("CERT", "KEY", sample_info), tick b);
  sd_shouldRenew info b := (Ok (ci_NotAfter info <=? sn_now b + 48 * hour), tick b);
  sd_wait dl d b := (false, SampleNode (sn_now b + d) (sn_kill b));
  sd_mkdir b := (true, tick b);
  sd_write b := (Partial 3, tick b);
  sd_rename b := (true, tick b);
  sd_read b := (true, tick b);
  sd_clock := sn_now;
  sd_ended b := false;
  sd_died b := sn_kill b <=? sn_now b
}.

Lemma sample_codec_laws : codec_laws (B := sample_node) (λ _, True).
Proof.
  split.
  - intros [cp kp info] raw _. simpl. destruct (_ && _) eqn:E; [|done]. intros [= <-].
    repeat match goal with
           | H : _ && _ = true |- _ => apply andb_prop in H as [? ?]
           | H : String.eqb _ _ = true |- _ => apply String.eqb_eq in H
           | H : (_ =? _) = true |- _ => apply Z.eqb_eq in H
           end.
    destruct info; simpl in *; subst. done.
  - intros. by split.
  - intros dl host cur b b' cp kp info [= <- <- <- _]. split; [by split|]. by vm_compute; eexists.
Qed.

Lemma sample_timing : timing_laws (B := sample_node).
Proof.
  split; simpl.
  - unfold second. lia.
  - intros dl host b r b' [= Hr _]. unfold ctx_ended. simpl. by destruct (dl <=? sn_now b).
  - intros dl d b b' _ [= <-]. simpl. lia.
Qed.

Definition sample_start (kill : Z) (d : gmap (string * string) string) : state (C := string) :=
  newReservedCerts (SampleNode sample_now kill) d ["enroll.example"].

Lemma served_certificate_kept_witness :
  let s := (life ["enroll.example"] [["enroll.example"]] (sample_start (sample_now + hour) ∅)).2 in
  in_use s ∧ getCertificateFor (st_hosts s) "enroll.example" = Some "pair".
Proof.
  split; [|by vm_compute].
  apply (served_certificate_kept ["enroll.example"] [["enroll.example"]] (sample_start (sample_now + hour) ∅)).
  apply newReservedCerts_in_use.
Defined.

Lemma orders_only_under_lock_witness :
  let r := life ["enroll.example"] [["enroll.example"]] (sample_start (sample_now + 2 * hour) ∅) in
  ∃ a, lock_run (st_trace r.2) = Some a ∧ ∀ stop, r.1 = Done stop → a = Idle.
Proof. apply orders_only_under_lock. reflexivity. Defined.

(** The process dies in the middle of saving; the earlier bundle is still there. *)
Lemma cache_survives_crash_witness :
  let s := sample_start (sample_now + 6 * second) {[ ("enroll.example", "bundle.json") := "{bundle}" ]} in
  saved s "enroll.example" ∧ saved (life [] [["enroll.example"]; ["enroll.example"]] s).2 "enroll.example".
Proof.
  intros s. assert (Hs : saved s "enroll.example").
  { exists "{bundle}". eexists. split; [by vm_compute|]. reflexivity. }
  split; [exact Hs|].
  apply (cache_survives_crash (λ _, True) sample_codec_laws [] [["enroll.example"]; ["enroll.example"]] s). exact Hs.
Defined.

Lemma life_returns_witness :
  (life ["enroll.example"] [["enroll.example"]] (sample_start (sample_now + 2 * hour) ∅)).1 ≠ Stuck.
Proof. apply life_returns, sample_timing. Defined.
End Reserved.
