(* ===== verification/Renewal.v ===== *)
(** * When certificates are renewed, and the clients that renew them

    [ShouldRenew] and [byID] of [internal/acme/chain.go], the dates of
    [lego_client.go] and of [lazy.go], and the lazy construction of an ACME
    client: the first use builds it, callers that come meanwhile wait for that
    build, a caller that gives up leaves the build running, a failed build is
    tried again by the next caller and a successful one is kept.

    [resolve] is an interleaved system: each caller's two steps, the build's
    steps and cancellations are separate.  [singleflight] is modelled by its
    documentation: one execution at a time, whose result all its callers get. *)
From Stdlib Require Import ZArith Lia Ascii String.
From S2P Require Import Prelude GoStr Valkey Attest Limiter Enroll GoFloat Acme AcmeChain.
Local Open Scope string_scope.
Local Open Scope list_scope.
Local Open Scope Z_scope.

Module Renewal.
Import Enroll Acme AcmeChain.

(** ** Dates *)
Record LegoConfig := { UseARI : bool; Shortlived : Z; RenewMargin : Z }.

Definition due (now at_ : Z) : bool := negb (now <? at_).

Definition lego_shouldRenew (l : LegoConfig) (cur : CertInfo) (now : Z) : bool * Z :=
  if UseARI l then
    let at_ := ci_NotAfter cur + - RenewMargin l in (due now at_, at_)
  else
    let at_ := ci_NotBefore cur + (Shortlived l - RenewMargin l) in (due now at_, at_).

(** A client is built or not ([built] is the configuration it has then). *)
Record lazyCA := LazyCA { l_shortlived : Z; l_renewMargin : Z; l_built : option LegoConfig }.

Definition lazy_shouldRenew (l : lazyCA) (cur : CertInfo) (now : Z) : bool * Z :=
  match l_built l with
  | None =>
      let shortlived := if l_shortlived l <=? 0 then 160 * hour else l_shortlived l in
      let margin := if l_renewMargin l <=? 0 then 48 * hour else l_renewMargin l in
      let at_ := ci_NotBefore cur + (shortlived - margin) in (due now at_, at_)
  | Some c => lego_shouldRenew c cur now
  end.

Fixpoint byID (groups : list (list account)) (id : string) : option account :=
  match groups with
  | [] => None
  | g :: groups' =>
      match g with
      | a :: _ => if String.eqb (a_ca a) id then Some a else byID groups' id
      | [] => byID groups' id
      end
  end.

Definition ShouldRenew (accounts : list account) (issuer : account → lazyCA) (shortlivedLifetime renewMargin : Z)
    (cur : CertInfo) (now : Z) : bool * Z :=
  match byID (groups accounts) (ci_CA cur) with
  | None => let at_ := ci_NotBefore cur + (shortlivedLifetime - renewMargin) in (due now at_, at_)
  | Some a => lazy_shouldRenew (issuer a) cur now
  end.

(** [byID] finds an account of the authority, when there is one. *)
Lemma byID_some gs id a : byID gs id = Some a → a_ca a = id ∧ ∃ g, g ∈ gs ∧ a ∈ g.
Proof.
  induction gs as [|[|b g] gs IH]; simpl; [done| |].
  - intros (? & g & ? & ?)%IH. split; [done|]. exists g. split; [by constructor|done].
  - destruct (String.eqb_spec (a_ca b) id) as [<-|].
    + intros [= ->]. split; [done|]. exists (a :: g). split; by constructor.
    + intros (? & g' & ? & ?)%IH. split; [done|]. exists g'. split; [by constructor|done].
Qed.

(** What an account is configured with when the server builds the chain: one
    margin and one rotation period for all, and dates by the certificate's own
    expiry only at Let's Encrypt. *)
Definition configured (shortlived margin : Z) (l : lazyCA) : Prop :=
  l_shortlived l = shortlived ∧ l_renewMargin l = margin ∧
  ∀ c, l_built l = Some c → Shortlived c = shortlived ∧ RenewMargin c = margin.

(** Whether or not the client of the account is built, and whether or not it answers
    renewal information, a short-lived certificate is due from the same moment, the
    margin before its expiry. *)
Lemma renewal_date_uniform accounts issuer shortlived margin cur now :
  0 < shortlived → 0 < margin → (∀ a, configured shortlived margin (issuer a)) →
  ci_NotAfter cur = ci_NotBefore cur + shortlived →
  let '(d, at_) := ShouldRenew accounts issuer shortlived margin cur now in
  at_ = ci_NotAfter cur - margin ∧ (d = true ↔ ci_NotAfter cur - margin ≤ now).
Proof.
  intros Hs Hm Hc Hl.
  assert (Hdue : ∀ at_, due now at_ = true ↔ at_ ≤ now).
  { intros at_. unfold due. rewrite negb_true_iff, Z.ltb_ge. done. }
  unfold ShouldRenew. destruct (byID _ _) as [a|].
  - destruct (Hc a) as (Es & Em & Hb). unfold lazy_shouldRenew, lego_shouldRenew.
    destruct (l_built (issuer a)) as [c|].
    + destruct (Hb c eq_refl) as [-> ->]. destruct (UseARI c); rewrite Hdue; split; [lia..|lia|lia].
    + rewrite Es, Em. zcase. rewrite Hdue. split; lia.
  - rewrite Hdue. split; lia.
Qed.

(** ** Building a client on first use *)
Section resolve.
Context {E : Type} (classify : E → Class_).

Inductive flight := FCheck | FBuild | FDone (r : result E nat).
(** [None] as an error is the caller's own cancellation. *)
Inductive phase := Checked | Waiting | Returned (r : result (option E) nat).

Record lstate := LState {
  ls_inner : option nat;             (* the client, named by the build it came from *)
  ls_flight : option flight;
  ls_callers : gmap nat phase;
  ls_builds : nat;                   (* builds started *)
  ls_ok : list nat                   (* builds that succeeded *)
}.

Definition set_caller (c : nat) (p : phase) (s : lstate) : lstate :=
  LState (ls_inner s) (ls_flight s) (<[c := p]> (ls_callers s)) (ls_builds s) (ls_ok s).

(** The fast path of [resolve]: [cached]. *)
Definition begin (c : nat) (s : lstate) : lstate :=
  set_caller c (match ls_inner s with Some i => Returned (Ok i) | None => Checked end) s.

(** [group.DoChan]: start the function, or join the one that runs. *)
Definition do_chan (c : nat) (s : lstate) : lstate :=
  LState (ls_inner s) (Some (default FCheck (ls_flight s))) (<[c := Waiting]> (ls_callers s)) (ls_builds s) (ls_ok s).

(** The function: look again, then build. *)
Definition flight_check (s : lstate) : lstate :=
  match ls_inner s with
  | Some i => LState (ls_inner s) (Some (FDone (Ok i))) (ls_callers s) (ls_builds s) (ls_ok s)
  | None => LState None (Some FBuild) (ls_callers s) (S (ls_builds s)) (ls_ok s)
  end.

Definition flight_end (r : result E unit) (s : lstate) : lstate :=
  match r with
  | Ok _ => LState (Some (ls_builds s)) (Some (FDone (Ok (ls_builds s)))) (ls_callers s) (ls_builds s)
              (ls_ok s ++ [ls_builds s])
  | Err e => LState (ls_inner s) (Some (FDone (Err e))) (ls_callers s) (ls_builds s) (ls_ok s)
  end.

Definition received (r : result E nat) (p : phase) : phase :=
  match p with
  | Waiting => Returned (match r with Ok i => Ok i | Err e => Err (Some e) end)
  | _ => p
  end.
Definition deliver (r : result E nat) (s : lstate) : lstate :=
  LState (ls_inner s) None (received r <$> ls_callers s) (ls_builds s) (ls_ok s).

Inductive lstep : lstate → lstate → Prop :=
| LBegin c s : ls_callers s !! c = None → lstep s (begin c s)
| LDoChan c s : ls_callers s !! c = Some Checked → lstep s (do_chan c s)
| LCheck s : ls_flight s = Some FCheck → lstep s (flight_check s)
| LEnd r s : ls_flight s = Some FBuild → lstep s (flight_end r s)
| LDeliver r s : ls_flight s = Some (FDone r) → lstep s (deliver r s)
| LCancel c s : ls_callers s !! c = Some Waiting → lstep s (set_caller c (Returned (Err None)) s).

Definition lstart : lstate := LState None None ∅ 0 [].

(** [client]: what a caller makes of an error. *)
Definition client (cause : Class_) (r : result (option E) nat) : result Class_ nat :=
  match r with
  | Ok i => Ok i
  | Err e =>
      let k := match e with Some e => classify e | None => cause end in
      Err match k with ClassRateLimited => ClassRateLimited | ClassLocal => ClassLocal | _ => ClassTransient end
  end.

Record linv (s : lstate) : Prop := LInv {
  li_ok : ls_ok s = match ls_inner s with Some i => [i] | None => [] end;
  li_build : ls_flight s = Some FBuild → ls_inner s = None;
  li_done : ∀ i, ls_flight s = Some (FDone (Ok i)) → ls_inner s = Some i;
  li_returned : ∀ c i, ls_callers s !! c = Some (Returned (Ok i)) → ls_inner s = Some i;
  li_waiting : ∀ c, ls_callers s !! c = Some Waiting → is_Some (ls_flight s)
}.

Lemma linv_caller c p s : linv s →
  (∀ i, p = Returned (Ok i) → ls_inner s = Some i) → (p = Waiting → is_Some (ls_flight s)) →
  linv (set_caller c p s).
Proof.
  intros [I1 I2 I3 I4 I5] Hr Hw. split; simpl; try done.
  - intros c' i. destruct (decide (c' = c)) as [->|]; [rewrite lookup_insert_eq|rewrite lookup_insert_ne by done; apply I4].
    intros [= ->]. auto.
  - intros c'. destruct (decide (c' = c)) as [->|]; [rewrite lookup_insert_eq|rewrite lookup_insert_ne by done; apply I5].
    intros [= ->]. auto.
Qed.

Lemma linv_step s s' : lstep s s' → linv s → linv s'.
Proof.
  intros Hs Hi. pose proof Hi as [I1 I2 I3 I4 I5]. destruct Hs as [c s Hc|c s Hc|s Hf|[[]|e] s Hf|r s Hf|c s Hc].
  - apply linv_caller; [done| |]; destruct (ls_inner s) eqn:E'; naive_solver.
  - assert (linv (LState (ls_inner s) (Some (default FCheck (ls_flight s))) (ls_callers s) (ls_builds s) (ls_ok s))) as H'.
    { split; simpl; try done; destruct (ls_flight s) eqn:Ef; simpl; try done; naive_solver. }
    by apply (linv_caller c Waiting) in H'.
  - unfold flight_check. destruct (ls_inner s) as [i|] eqn:E'; split; simpl; try done; naive_solver.
  - split; simpl; try done; [by rewrite I1, (I2 Hf)|naive_solver|]. intros c i Hc.
    apply I4 in Hc. rewrite (I2 Hf) in Hc. done.
  - split; simpl; try done.
  - split; simpl; try done.
    + intros c i. rewrite lookup_fmap. destruct (ls_callers s !! c) as [[| |r']|] eqn:Ec; simpl; try done.
      * destruct r; [|done]. intros [= <-]. by apply I3.
      * intros [= ->]. by eapply I4.
    + intros c. rewrite lookup_fmap. destruct (ls_callers s !! c) as [[| |r']|]; simpl; congruence.
  - apply linv_caller; [done|done|done].
Qed.

(** In every interleaving of the callers of a lazy ACME client at most one build
    succeeds, all callers that got a client got the same one, nothing is built while
    there is a client, and a caller that waits is never stuck. *)
Lemma client_built_once s : Prelude.run lstep lstart s →
  (length (ls_ok s) ≤ 1)%nat ∧
  (∀ c c' i j, ls_callers s !! c = Some (Returned (Ok i)) → ls_callers s !! c' = Some (Returned (Ok j)) → i = j) ∧
  (∀ i, ls_inner s = Some i → ls_flight s ≠ Some FBuild) ∧
  (∀ c, ls_callers s !! c = Some Waiting → ∃ s', lstep s s' ∧ ls_flight s' ≠ ls_flight s).
Proof.
  intros Hr. assert (Hi : linv s).
  { apply (run_invariant lstep linv (λ s s' Hi Hs, linv_step s s' Hs Hi) _ _ Hr). split; simpl; try done. }
  destruct Hi as [I1 I2 I3 I4 I5]. split_and!.
  - rewrite I1. destruct (ls_inner s); simpl; lia.
  - intros c c' i j H1%I4 H2%I4. congruence.
  - intros i Hin Hf%I2. congruence.
  - intros c [f Hf]%I5. destruct f as [| |r].
    + exists (flight_check s). split; [by constructor|]. rewrite Hf. unfold flight_check. by destruct (ls_inner s).
    + exists (flight_end (Ok tt) s). split; [by constructor|]. by rewrite Hf.
    + exists (deliver r s). split; [by constructor|]. by rewrite Hf.
Qed.
End resolve.

(** ** Examples *)
Definition sample_account : account := Account CALetsEncrypt "le" "main" (2 * minute).
Definition sample_lazy : lazyCA := LazyCA (160 * hour) (48 * hour) None.
Definition sample_cert : CertInfo :=
  {| ci_CA := CALetsEncrypt; ci_Serial := "1"; ci_NotBefore := 0; ci_NotAfter := 160 * hour; ci_ARIID := "" |}.

Lemma renewal_date_uniform_witness :
  (ShouldRenew [sample_account] (λ _, sample_lazy) (160 * hour) (48 * hour) sample_cert (120 * hour)).1 = true.
Proof.
  pose proof (renewal_date_uniform [sample_account] (λ _, sample_lazy) (160 * hour) (48 * hour) sample_cert (120 * hour)) as H.
  destruct (ShouldRenew _ _ _ _ _ _) as [d at_].
  destruct H as [_ H]; [done|done|by intros; split_and!|done|]. apply H. done.
Defined.

(** Two callers meet; the first build fails, a later one succeeds. *)
Definition sample_callers : lstate (E := unit) :=
  deliver (Ok 2%nat) (flight_end (Ok tt) (flight_check (do_chan 3 (begin 3
    (deliver (Err tt) (flight_end (Err tt) (flight_check (do_chan 2 (do_chan 1 (begin 2 (begin 1 lstart))))))))))).

Lemma client_built_once_witness :
  ls_ok sample_callers = [2%nat] ∧ (length (ls_ok sample_callers) ≤ 1)%nat.
Proof.
  split; [reflexivity|]. apply client_built_once. unfold sample_callers.
  repeat (eapply run_trans; [|apply run_one; by constructor]). constructor.
Defined.
End Renewal.
