(* ===== verification/Fleet.v ===== *)
(** * One certificate for all nodes

    [Reserved] over the lock and the shared store of [Challenges] in Valkey and
    the renewal dates of [Renewal]: the instance of [SelfDeps] that the server
    wires together.  The theorems follow a certificate through the fleet: the
    first node orders it, the others adopt it, and a restart reads it from disk
    when Valkey has forgotten it.

    Ordering is a parameter (the issuing chain is [AcmeChain]); system calls
    succeed here (their failures are the subject of [Reserved]). *)
From Stdlib Require Import ZArith Lia Ascii String.
From S2P Require Import Prelude GoStr Valkey Attest Limiter Enroll GoFloat Acme AcmeChain Challenges Reserved Renewal.
Local Open Scope string_scope.
Local Open Scope list_scope.
Local Open Scope Z_scope.

Module Fleet.
Import Challenges.
Import Enroll Reserved.

Section fleet.
Context {S C : Type} `{ValkeyServer S} `{!ValkeyLaws S} `{TokenSupply} `{UnicodeCase} `{CertCodec C}.
Context (obtain : Z → string → CertInfo → world S → result unit (string * string * CertInfo) * world S).
Context (renew : CertInfo → Z → bool).

Definition ended (w : world S) : bool := match w_done w with Some t => t <=? w_now w | None => false end.

Definition plain_error {A} (p : result chal_error A * world S) : result unit A * world S :=
  (match p.1 with Ok a => Ok a | Err _ => Err tt end, p.2).

(** A wait under a context with a deadline of its own. *)
Definition earlier (a b : option Z) : option Z :=
  match a, b with Some x, Some y => Some (Z.min x y) | Some x, None => Some x | None, y => y end.
Definition with_done (w : world S) (d : option Z) : world S :=
  World (w_now w) (w_vms w) (w_srv w) (w_ticks w) (w_minted w) d.
Definition wait_until (dl : option Z) (d : Z) (w : world S) : bool * world S :=
  let '(stop, w') := sleep d (with_done w (earlier dl (w_done w))) in (stop, with_done w' (w_done w)).

#[export] Instance valkey_self : SelfDeps (world S) := {
  sd_LockSelf dl host w := if ended w || (dl <=? w_now w) then (Err tt, w) else plain_error (LockSelf host w);
  sd_unlock host tok w := plain_error (unlockSelf host tok w);
  sd_SelfCert host w := plain_error (SelfCert host w);
  sd_PutSelfCert host raw ttl w := plain_error (PutSelfCert host raw ttl w);
  sd_obtain := obtain;
  sd_shouldRenew info w := (Ok (renew info (w_now w)), w);
  sd_wait := wait_until;
  sd_mkdir w := (true, w);
  sd_write w := (Written, w);
  sd_rename w := (true, w);
  sd_read w := (true, w);
  sd_clock := w_now;
  sd_ended := ended;
  sd_died _ := false
}.

(** ** The interface's laws *)
Lemma send_clock c (w : world S) : w_now w ≤ w_now (send c w).2.
Proof.
  unfold send. destruct (exec _ _ _) as [r s']. destruct (tk_fault _) as [[]|]; simpl; lia.
Qed.

Lemma LockSelf_clock host (w : world S) : w_now w ≤ w_now (LockSelf host w).2.
Proof.
  unfold LockSelf, ValkeyClient.call, Valkey.bind, mintToken. simpl.
  set (w0 := World _ _ _ _ _ _). pose proof (send_clock (SetNX (selfLockKey host) (token (w_minted w)) selfLockTTL) w0) as Hc.
  destruct (send _ w0) as [r w1]. exact Hc.
Qed.

Lemma sleep_time d (w w' : world S) : sleep d w = (false, w') → w_now w + d ≤ w_now w'.
Proof. unfold sleep. repeat case_match; intros [= <-]; simpl; lia. Qed.

Lemma fleet_timing : timing_laws (B := world S).
Proof.
  split; simpl.
  - intros dl host b. destruct (ended b || _); simpl; [lia|]. apply LockSelf_clock.
  - intros dl host b r b'. unfold ctx_ended. simpl. by destruct (ended b || _).
  - intros dl d b b' Hd. unfold wait_until. destruct (sleep _ _) as [stop w'] eqn:E. intros [= -> <-].
    apply sleep_time in E. exact E.
Qed.

(** ** Single operations, undisturbed *)
Local Notation stateF := (@state (world S) C).

Definition on (w : world S) (d : gmap (string * string) string) (hs : gmap string (@reservedHost C))
    (tr : list (event C)) : stateF := State w d hs tr.

Definition after_save (host raw : string) (d : gmap (string * string) string) : gmap (string * string) string :=
  <[bundle_file host := raw]> (delete (tmp_file host) (<[tmp_file host := raw]> d)).

Lemma persist_ok host certPEM keyPEM info raw w d hs tr :
  MarshalBundle (Bundle certPEM keyPEM info) = Some raw →
  persist host certPEM keyPEM info (on w d hs tr) = (Done tt, on w (after_save host raw d) hs tr).
Proof.
  intros Hm. unfold persist, on, Reserved.bind at 1, dep, sys. simpl. rewrite Hm.
  unfold writeFile, rename, Reserved.bind, sys. simpl. by rewrite lookup_insert_eq.
Qed.

Lemma adopt_none host req w d hs tr : quiet w → at_key w (selfCertKey host) = None →
  ∃ w', adoptShared host req (on w d hs tr) = (Done false, on w' d hs tr) ∧
    frame (selfCertKey host) w w' ∧ at_key w' (selfCertKey host) = None.
Proof.
  intros Hq Hn. destruct (SelfCert_spec host w Hq) as (w' & E & F & K). rewrite Hn in E, K. exists w'.
  split; [|done]. unfold adoptShared, on, Reserved.bind at 1, dep, sys. simpl. unfold plain_error. by rewrite E.
Qed.

Lemma adopt_some host req raw ex b c info raw' w d hs tr : quiet w →
  at_key w (selfCertKey host) = Some (Entry (VStr raw) ex) → parse_bundle raw = Some (b, c, info) →
  w_now w < ci_NotAfter info → hs !! host = Some new_host → renew info (w_now w) = false →
  MarshalBundle (Bundle (CertPEM b) (KeyPEM b) info) = Some raw' →
  ∃ w', adoptShared host req (on w d hs tr) =
      (Done true, on w' (after_save host raw' d) (<[host := Host (Some c) info]> hs)
                    (tr ++ [EvAdopted host c info (w_now w) None])) ∧
    frame (selfCertKey host) w w' ∧ at_key w' (selfCertKey host) = at_key w (selfCertKey host).
Proof.
  intros Hq Hk Hp Hn Hh Hr Hm. destruct (SelfCert_spec host w Hq) as (w' & E & F & K). exists w'. split; [|done].
  rewrite Hk in E. pose proof (frame_now _ _ _ F) as En. rewrite <- En in Hn, Hr. rewrite <- En.
  unfold adoptShared. unfold Reserved.bind at 1, dep, sys. simpl. unfold plain_error. rewrite E. simpl. rewrite Hp.
  unfold Reserved.bind at 1, ask. unfold Reserved.bind at 1, host_of. simpl. rewrite Hh. simpl. zcase. simpl.
  destruct req; unfold Reserved.bind at 1, dep, sys; simpl; rewrite ?Hr;
    unfold Reserved.bind at 1, store; simpl; unfold Reserved.bind; by rewrite (persist_ok _ _ _ _ raw').
Qed.

Lemma acquire_ok fuel dl host w d hs tr : quiet w → at_key w (selfLockKey host) = None →
  ended w = false → w_now w < dl →
  ∃ w', acquire (Datatypes.S fuel) dl host (on w d hs tr) =
      (Done (Ok (Some (token (w_minted w)))), on w' d hs (tr ++ [EvLocked host (token (w_minted w))])) ∧
    quiet w' ∧ w_now w' = w_now w ∧ w_vms w' = w_vms w ∧ w_done w' = w_done w ∧
    stored (at_key w' (selfLockKey host)) = Ok (Some (token (w_minted w))) ∧
    ∀ k, k ≠ selfLockKey host → at_key w' k = at_key w k.
Proof.
  intros Hq Hl He Hd. destruct (LockSelf_spec host w Hq) as (w' & E & Q & N & V & D & K & O).
  rewrite decide_True in E by done. rewrite decide_True in K by done. exists w'. split.
  - unfold acquire, Reserved.bind at 1, dep, sys. simpl. rewrite He. simpl. zcase. unfold plain_error. by rewrite E.
  - split_and!; try done. by rewrite K.
Qed.

(** ** The life of one certificate *)

(** A world in which nothing else happens: the clocks stand and the keys of
    the host's lock and certificate are those of [w], but for what is said. *)
Record still (w w' : world S) : Prop := Still {
  still_quiet : quiet w';
  still_now : w_now w' = w_now w;
  still_vms : w_vms w' = w_vms w;
  still_done : w_done w' = w_done w
}.

Lemma still_frame k w w' : frame k w w' → still w w'.
Proof. intros []. by split. Qed.
Lemma still_trans w1 w2 w3 : still w1 w2 → still w2 w3 → still w1 w3.
Proof. intros [] []. split; congruence. Qed.
#[local] Hint Resolve still_frame still_quiet : core.

(** An order that is about to succeed, for a certificate worth sharing. *)
Record issuable (host : string) (now : Z) (certPEM keyPEM : string) (info : CertInfo) (c : C) (raw : string) : Prop := {
  is_obtain dl cur w : quiet w → w_now w = now →
    ∃ w', obtain dl host cur w = (Ok (certPEM, keyPEM, info), w') ∧ still w w' ∧
      at_key w' (selfLockKey host) = at_key w (selfLockKey host) ∧
      at_key w' (selfCertKey host) = at_key w (selfCertKey host);
  is_pair : X509KeyPair certPEM keyPEM = Some c;
  is_marshal : MarshalBundle (Bundle certPEM keyPEM info) = Some raw;
  is_unmarshal : UnmarshalBundle raw = Some (Bundle certPEM keyPEM info);
  is_dated : ci_NotAfter info ≠ zero_time;
  is_valid : now < ci_NotAfter info;
  is_ttl : 0 < prec_ms (time_sub (ci_NotAfter info) now);
  is_fresh : renew info now = false
}.

Lemma issuable_parses host now certPEM keyPEM info c raw :
  issuable host now certPEM keyPEM info c raw →
  parse_bundle raw = Some (Bundle certPEM keyPEM info, c, info).
Proof.
  intros [_ Hp _ Hu Hd _ _ _]. unfold parse_bundle. rewrite Hu. simpl. rewrite Hp. simpl.
  unfold complete_info. zcase. done.
Qed.

Lemma place_ok host tok certPEM keyPEM info c raw w d hs tr :
  issuable host (w_now w) certPEM keyPEM info c raw → quiet w →
  stored (at_key w (selfLockKey host)) = Ok (Some tok) →
  ∃ w', place host (Some tok) (on w d hs tr) =
      (Done tt, on w' (after_save host raw d) (<[host := Host (Some c) info]> hs)
                  (((tr ++ [EvOrdered host (Some tok)]) ++ [EvIssued host c info]) ++ [EvUnlocked host tok])) ∧
    still w w' ∧ at_key w' (selfLockKey host) = None ∧
    stored (at_key w' (selfCertKey host)) = Ok (Some raw).
Proof.
  intros Hi Hq Hl. pose proof (self_keys_differ host host) as Hk.
  destruct (is_obtain _ _ _ _ _ _ _ Hi (w_now w + selfIssueTimeout)
              (h_info (default new_host (hs !! host))) w Hq eq_refl) as (w1 & E1 & S1 & L1 & C1).
  unfold place. unfold Reserved.bind at 1, ask. unfold Reserved.bind at 1, host_of. unfold Reserved.bind at 1, emit.
  unfold Reserved.bind at 1, dep, sys. simpl. rewrite E1. rewrite (is_pair _ _ _ _ _ _ _ Hi).
  unfold Reserved.bind at 1. unfold Reserved.bind at 1, store. simpl. unfold Reserved.bind at 1.
  fold (on w1 d (<[host := Host (Some c) info]> hs) ((tr ++ [EvOrdered host (Some tok)]) ++ [EvIssued host c info])).
  rewrite (persist_ok _ _ _ _ raw) by apply Hi.
  unfold publish. rewrite (is_marshal _ _ _ _ _ _ _ Hi). unfold Reserved.bind at 1, ask. unfold Reserved.bind at 1, dep, sys. simpl.
  unfold plain_error. pose proof (is_valid _ _ _ _ _ _ _ Hi) as Hv. pose proof (is_ttl _ _ _ _ _ _ _ Hi) as Ht.
  rewrite <- (still_now _ _ S1) in Hv, Ht.
  destruct (PutSelfCert_spec host raw (time_sub (ci_NotAfter info) (w_now w1)) w1) as (w2 & -> & F2 & K2);
    [by eapply still_quiet|unfold time_sub, max_int64, min_int64; lia|done|]. simpl.
  unfold releaseLock. unfold Reserved.bind at 1, emit. unfold Reserved.bind, sys. simpl. unfold plain_error, unlockSelf.
  destruct (deleteIfValue_spec (selfLockKey host) tok w2 (frame_quiet _ _ _ F2)) as (w3 & -> & F3 & K3).
  rewrite (frame_keys _ _ _ F2), L1, Hl, decide_True in K3 by done.
  exists w3. split; [done|]. split; [by eauto using still_trans|]. split; [done|].
  rewrite (frame_keys _ _ _ F3), K2 by done. done.
Qed.

Definition is_order (e : event C) : bool := match e with EvOrdered _ _ => true | _ => false end.
Definition orders (tr : list (event C)) : nat := length (List.filter is_order tr).

Lemma order_first host certPEM keyPEM info c raw w d :
  issuable host (w_now w) certPEM keyPEM info c raw → quiet w → ended w = false →
  at_key w (selfLockKey host) = None → at_key w (selfCertKey host) = None →
  ∃ w' tr, maybeRenew host (newReservedCerts w d [host]) =
      (Done tt, on w' (after_save host raw d) {[host := Host (Some c) info]} tr) ∧ orders tr = 1%nat ∧
    still w w' ∧ at_key w' (selfLockKey host) = None ∧ stored (at_key w' (selfCertKey host)) = Ok (Some raw).
Proof.
  intros Hi Hq He Hl Hc. pose proof (self_keys_differ host host) as Hk.
  change (newReservedCerts w d [host]) with (on w d (<[host := new_host]> ∅) []).
  destruct (adopt_none host false w d (<[host := new_host]> ∅) [] Hq Hc) as (w1 & E1 & F1 & C1).
  unfold maybeRenew. unfold Reserved.bind at 1. rewrite E1. unfold Reserved.bind at 1, host_of.
  cbn [st_hosts on]. rewrite lookup_insert_eq. cbn [from_option id h_cur new_host].
  unfold issue. unfold Reserved.bind at 1, ask. unfold Reserved.bind at 1. cbn [st_b on].
  assert (Hfuel : acquire_fuel = Datatypes.S 151) by reflexivity. rewrite Hfuel.
  destruct (acquire_ok 151 (sd_clock w1 + selfLockWait) host w1 d (<[host := new_host]> ∅) [])
    as (w2 & -> & Q2 & N2 & V2 & D2 & L2 & O2); [eauto| | |simpl; unfold selfLockWait, minute, second; lia|].
  { by rewrite (frame_keys _ _ _ F1). }
  { unfold ended in *. by rewrite (frame_done _ _ _ F1), (frame_now _ _ _ F1). }
  unfold Reserved.bind at 1, ask. cbn [st_b on].
  assert (sd_ended w2 = false) as ->.
  { simpl. unfold ended in *. by rewrite D2, N2, (frame_done _ _ _ F1), (frame_now _ _ _ F1). }
  unfold order. unfold Reserved.bind at 1.
  destruct (adopt_none host true w2 d (<[host := new_host]> ∅) ([] ++ [EvLocked host (token (w_minted w1))]) Q2)
    as (w3 & -> & F3 & C3); [by rewrite O2|].
  assert (w_now w3 = w_now w) as En3 by (by rewrite (frame_now _ _ _ F3), N2, (frame_now _ _ _ F1)).
  destruct (place_ok host (token (w_minted w1)) certPEM keyPEM info c raw w3 d (<[host := new_host]> ∅)
              ([] ++ [EvLocked host (token (w_minted w1))])) as (w4 & -> & S4 & L4 & C4);
    [by rewrite En3|by eapply frame_quiet|by rewrite (frame_keys _ _ _ F3)|].
  eexists w4, _. split; [by rewrite insert_insert_eq|]. split; [done|]. split; [|done].
  destruct S4 as [SQ SN SV SD]. split; [done|congruence| |].
  - by rewrite SV, (frame_vms _ _ _ F3), V2, (frame_vms _ _ _ F1).
  - by rewrite SD, (frame_done _ _ _ F3), D2, (frame_done _ _ _ F1).
Qed.

Lemma stored_entry e v : stored e = Ok (Some v) → ∃ ex, e = Some (Entry (VStr v) ex).
Proof. destruct e as [[[] ex]|]; simpl; intros [=]; subst. by exists ex. Qed.

(** Another node finds the certificate in the shared store. *)
Lemma adopt_next host now certPEM keyPEM info c raw w d :
  issuable host now certPEM keyPEM info c raw → quiet w →
  w_now w < ci_NotAfter info → renew info (w_now w) = false →
  stored (at_key w (selfCertKey host)) = Ok (Some raw) →
  ∃ w' tr, maybeRenew host (newReservedCerts w d [host]) =
      (Done tt, on w' (after_save host raw d) {[host := Host (Some c) info]} tr) ∧ orders tr = 0%nat.
Proof.
  intros Hi Hq Hv Hr [ex Hk]%stored_entry. pose proof (issuable_parses _ _ _ _ _ _ _ Hi) as Hp.
  change (newReservedCerts w d [host]) with (on w d (<[host := new_host]> ∅) []).
  destruct (adopt_some host false raw ex (Bundle certPEM keyPEM info) c info raw w d (<[host := new_host]> ∅) []
              Hq Hk Hp) as (w1 & E1 & F1 & K1); [done|by rewrite lookup_insert_eq|done|apply Hi|].
  unfold maybeRenew. unfold Reserved.bind at 1. rewrite E1. unfold Reserved.bind at 1, host_of.
  cbn [st_hosts on]. rewrite insert_insert_eq, lookup_insert_eq. cbn [from_option id h_cur].
  unfold Reserved.bind, dep, sys. simpl. rewrite (frame_now _ _ _ F1), Hr. by eexists w1, _.
Qed.

(** A restart finds it on its disk. *)
Lemma restart_reads host now certPEM keyPEM info c raw w d :
  issuable host now certPEM keyPEM info c raw → quiet w →
  w_now w < ci_NotAfter info → renew info (w_now w) = false → at_key w (selfCertKey host) = None →
  ∃ w' tr, Reserved.bind (load_host host) (λ _, maybeRenew host) (newReservedCerts w (after_save host raw d) [host]) =
      (Done tt, on w' (after_save host raw d) {[host := Host (Some c) info]} tr) ∧ orders tr = 0%nat.
Proof.
  intros Hi Hq Hv Hr Hn. pose proof (issuable_parses _ _ _ _ _ _ _ Hi) as Hp.
  change (newReservedCerts w (after_save host raw d) [host]) with (on w (after_save host raw d) (<[host := new_host]> ∅) []).
  assert (Hb : after_save host raw d !! bundle_file host = Some raw) by apply lookup_insert_eq.
  assert (Hload : loadCached host (on w (after_save host raw d) (<[host := new_host]> ∅) []) =
                  (Done (Some (c, info)), on w (after_save host raw d) (<[host := new_host]> ∅) [])).
  { unfold loadCached, loadBundle, readFile, Reserved.bind, dep, sys, read_disk, on. simpl. rewrite Hb. simpl. by rewrite Hp. }
  unfold Reserved.bind at 1, load_host. unfold Reserved.bind at 1. rewrite Hload.
  unfold Reserved.bind at 1, ask. cbn [sd_clock valkey_self st_b on]. zcase.
  unfold Reserved.bind at 1, store. unfold Reserved.bind at 1. cbn [st_b st_disk st_hosts st_trace on].
  rewrite insert_insert_eq. fold (on w (after_save host raw d) (<[host := Host (Some c) info]> ∅)
    ([] ++ [EvLoaded host c info (w_now w)])).
  destruct (adopt_none host false w (after_save host raw d) (<[host := Host (Some c) info]> ∅)
    ([] ++ [EvLoaded host c info (w_now w)]) Hq Hn) as (w1 & -> & F1 & C1).
  unfold Reserved.ret at 1. unfold maybeRenew. unfold Reserved.bind at 1.
  destruct (adopt_none host false w1 (after_save host raw d) (<[host := Host (Some c) info]> ∅)
    ([] ++ [EvLoaded host c info (w_now w)]) (frame_quiet _ _ _ F1) C1) as (w2 & -> & F2 & C2).
  unfold Reserved.bind at 1, host_of. cbn [st_hosts on]. rewrite lookup_insert_eq. cbn [from_option id h_cur].
  unfold Reserved.bind, dep, sys. simpl. rewrite (frame_now _ _ _ F2), (frame_now _ _ _ F1), Hr. by eexists w2, _.
Qed.

(** One order serves the fleet. With the lock and the shared store of the challenge
    store over Valkey, a node that has no certificate for a host places one order,
    serves the certificate, shares it and gives the lock back; any other node that comes
    after it serves the same certificate and places no order, whatever is on its disk;
    and the first node, restarted after Valkey has forgotten everything, serves it from
    its disk and places no order as long as it is not due. *)
Lemma fleet_orders_once host certPEM keyPEM info c raw w dA :
  issuable host (w_now w) certPEM keyPEM info c raw → quiet w → ended w = false →
  at_key w (selfLockKey host) = None → at_key w (selfCertKey host) = None →
  ∃ sA, maybeRenew host (newReservedCerts w dA [host]) = (Done tt, sA) ∧
    getCertificateFor (st_hosts sA) host = Some c ∧ orders (st_trace sA) = 1%nat ∧
    at_key (st_b sA) (selfLockKey host) = None ∧
    (∀ dB, ∃ sB, maybeRenew host (newReservedCerts (st_b sA) dB [host]) = (Done tt, sB) ∧
       getCertificateFor (st_hosts sB) host = Some c ∧ orders (st_trace sB) = 0%nat) ∧
    (∀ w', quiet w' → at_key w' (selfCertKey host) = None →
       w_now w' < ci_NotAfter info → renew info (w_now w') = false →
       ∃ sR, Reserved.bind (load_host host) (λ _, maybeRenew host) (newReservedCerts w' (st_disk sA) [host]) = (Done tt, sR) ∧
         getCertificateFor (st_hosts sR) host = Some c ∧ orders (st_trace sR) = 0%nat).
Proof.
  intros Hi Hq He Hl Hc.
  assert (Hget : ∀ x : @reservedHost C, getCertificateFor {[host := x]} host = h_cur x).
  { intros x. unfold getCertificateFor. by rewrite lookup_singleton_eq. }
  destruct (order_first host certPEM keyPEM info c raw w dA Hi Hq He Hl Hc) as (w1 & tr & E & Ho & S1 & L1 & C1).
  eexists. split; [exact E|]. split; [apply Hget|]. split; [done|]. split; [done|]. split.
  - intros dB. destruct (adopt_next host (w_now w) certPEM keyPEM info c raw w1 dB) as (w2 & tr2 & E2 & O2);
      [done|by eapply still_quiet|rewrite (still_now _ _ S1); apply Hi..|done|].
    eexists. split; [exact E2|]. split; [apply Hget|done].
  - intros w' Hq' Hc' Hv' Hr'.
    destruct (restart_reads host (w_now w) certPEM keyPEM info c raw w' dA) as (w2 & tr2 & E2 & O2); [done..|].
    eexists. split; [exact E2|]. split; [apply Hget|done].
Qed.
End fleet.

(** ** Example: renewal dates as the chain computes them *)
#[local] Existing Instance ascii_only_case.
Definition sample_obtain (dl : Z) (host : string) (cur : CertInfo) (w : world mem_server)
    : result unit (string * string * CertInfo) * world mem_server := (Ok ("CERT", "KEY", sample_info), w).
Definition sample_renew (info : CertInfo) (now : Z) : bool :=
  (Renewal.ShouldRenew [Renewal.sample_account] (λ _, Renewal.sample_lazy) (160 * hour) (48 * hour) info now).1.

Lemma fleet_orders_once_witness :
  ∃ sA, maybeRenew (H := valkey_self sample_obtain sample_renew) "enroll.example"
          (newReservedCerts sample_world ∅ ["enroll.example"]) = (Done tt, sA) ∧
    getCertificateFor (st_hosts sA) "enroll.example" = Some "pair" ∧ orders (st_trace sA) = 1%nat.
Proof.
  assert (Hi : issuable sample_obtain sample_renew "enroll.example" (w_now sample_world) "CERT" "KEY" sample_info
                 "pair" "{bundle}").
  { split; [|vm_compute; congruence..]. intros dl cur w Hq Hn. exists w. by repeat split. }
  destruct (fleet_orders_once sample_obtain sample_renew "enroll.example" "CERT" "KEY" sample_info "pair" "{bundle}"
              sample_world ∅ Hi eq_refl eq_refl eq_refl eq_refl) as (sA & E & G & O & _).
  exists sA. exact (conj E (conj G O)).
Defined.
End Fleet.
