(* ===== verification/FleetRace.v ===== *)
(** * Nodes that need the same certificate at once

    [issue] of [server/reserved.go] on all nodes of a fleet, interleaved: the order
    lock of [acme/challenge_store.go], the second look at the shared certificate once
    the lock is held, the order, the sharing and the release.  [Reserved] is the same
    code on one node with every failure of its system calls; here only what the nodes
    share is kept: the lock in Valkey, the shared certificate, and where each run of
    [issue] stands.

    A run is named by the token it mints.  What may go wrong is a step of its own, and
    what can cost a second order is noted in [f_spoilt]. *)
From Stdlib Require Import ZArith Lia.
From stdpp Require Import gmap.
From S2P Require Import Prelude.
Local Open Scope Z_scope.

Module FleetRace.

(** ** One run of [issue] *)
Inductive nop := NLock | NRecheck | NOrder | NShare | NUnlock.
#[export] Instance nop_eq_dec : EqDecision nop.
Proof. solve_decision. Defined.










(** ** What a run may still issue *)




















End FleetRace.
