(* ===== verification/Mesh.v ===== *)
(** * The mesh between nodes

    [internal/mesh] and the cluster operations of [internal/server/serve.go].
    A node asks another to act on a tunnel by a control request over mutual TLS:
    send an OPEN to a phone, evict streams, free a stream slot, renew or
    terminate.  Here are the client's pools of connections (used by requests
    and reaped when idle, interleaved), the listener's checks and dispatch, the
    node's own controller, and the callers: opening a dial-back on the node that
    has the phone, freeing a slot somewhere in the cluster, and telling all
    nodes that a phone has gone.

    TLS, HTTP and JSON are parameters; a node's phone manager and edge are the
    class [NodeParts]. *)
From Stdlib Require Import ZArith Lia Ascii String Permutation.
From stdpp Require Import sorting.
From S2P Require Import Prelude GoStr.
Local Open Scope string_scope.
Local Open Scope list_scope.
Local Open Scope Z_scope.

Module Mesh.

(** ** The client's pools *)
Record peerPool := Pool { p_next : Z; p_lastUse : Z; p_active : Z }.

(** Pools are objects: a request keeps the one it got, whatever happens to the
    table.  [ms_closed] are the pools whose connections were closed. *)
Record mstate := MState {
  ms_objs : gmap nat peerPool;
  ms_pools : gmap string nat;
  ms_reqs : gmap nat nat;                 (* running request -> its pool *)
  ms_fresh : nat;
  ms_closed : gset nat
}.

(** [pool]: look up or create, stamp, and count the use, under the mutex. *)
Definition pool (peer : string) (now : Z) (s : mstate) : nat * mstate :=
  match ms_pools s !! peer with
  | Some id =>
      (id, MState (alter (λ p, Pool (p_next p) now (p_active p + 1)) id (ms_objs s)) (ms_pools s) (ms_reqs s)
             (ms_fresh s) (ms_closed s))
  | None =>
      let id := ms_fresh s in
      (id, MState (<[id := Pool 0 now 1]> (ms_objs s)) (<[peer := id]> (ms_pools s)) (ms_reqs s)
             (S id) (ms_closed s))
  end.

Definition control_begin (r : nat) (peer : string) (now : Z) (s : mstate) : mstate :=
  let '(id, s) := pool peer now s in
  MState (ms_objs s) (ms_pools s) (<[r := id]> (ms_reqs s)) (ms_fresh s) (ms_closed s).

Definition control_end (r id : nat) (s : mstate) : mstate :=
  MState (alter (λ p, Pool (p_next p) (p_lastUse p) (p_active p - 1)) id (ms_objs s)) (ms_pools s)
    (delete r (ms_reqs s)) (ms_fresh s) (ms_closed s).

(** One turn of the reaper's loop over the table. *)
Definition reap (peer : string) (cutoff : Z) (s : mstate) : mstate :=
  match ms_pools s !! peer with
  | None => s
  | Some id =>
      match ms_objs s !! id with
      | None => s
      | Some p =>
          if (cutoff <=? p_lastUse p) || (0 <? p_active p) then s
          else MState (ms_objs s) (delete peer (ms_pools s)) (ms_reqs s) (ms_fresh s) ({[id]} ∪ ms_closed s)
      end
  end.

Inductive mstep : mstate → mstate → Prop :=
| MBegin r peer now s : ms_reqs s !! r = None → mstep s (control_begin r peer now s)
| MEnd r id s : ms_reqs s !! r = Some id → mstep s (control_end r id s)
| MReap peer cutoff s : mstep s (reap peer cutoff s).

Definition mstart : mstate := MState ∅ ∅ ∅ 0 ∅.

(** The connection of a pool a request uses: [int(next.Add(1)) % len(clients)],
    [None] where Go would index out of range. *)
Definition pick (poolSize next : Z) : option Z * Z :=
  let n := (next + 1) `mod` 2 ^ 64 in
  let i := Z.rem (wrap64 n) poolSize in
  (if (0 <=? i) && (i <? poolSize) then Some i else None, n).

Definition pool_size (n : Z) : Z := if n <? 1 then 4 else n.

Definition users (s : mstate) (id : nat) : Z := count_if (λ id', bool_decide (id' = id)) (ms_reqs s).

Record minv (s : mstate) : Prop := MInv {
  mi_used : ∀ id p, ms_objs s !! id = Some p → p_active p = users s id;
  mi_reqs : ∀ r id, ms_reqs s !! r = Some id → ∃ peer, ms_pools s !! peer = Some id;
  mi_pools : ∀ peer id, ms_pools s !! peer = Some id → is_Some (ms_objs s !! id) ∧ id ∉ ms_closed s;
  mi_fresh : ∀ id, is_Some (ms_objs s !! id) → (id < ms_fresh s)%nat;
  mi_closed : ∀ id, id ∈ ms_closed s → (id < ms_fresh s)%nat;
  mi_inj : ∀ p p' id, ms_pools s !! p = Some id → ms_pools s !! p' = Some id → p = p'
}.

Lemma users_pos s r id : ms_reqs s !! r = Some id → 0 < users s id.
Proof.
  intros Hr. unfold users. rewrite <- (insert_delete_id _ _ _ Hr), count_if_insert, lookup_delete_eq.
  rewrite bool_decide_eq_true_2 by done. pose proof (count_if_nonneg (λ id', bool_decide (id' = id)) (delete r (ms_reqs s))).
  simpl. lia.
Qed.

(** One more request on pool [id]. *)
Lemma users_begin s r id id' objs pools fresh : ms_reqs s !! r = None →
  users (MState objs pools (<[r := id]> (ms_reqs s)) fresh (ms_closed s)) id' =
    users s id' + b2z (bool_decide (id = id')).
Proof. intros Hr. unfold users. simpl. rewrite count_if_insert, Hr. lia. Qed.

Lemma minv_begin_known r peer id now s : minv s → ms_reqs s !! r = None → ms_pools s !! peer = Some id →
  minv (control_begin r peer now s).
Proof.
  intros [I1 I2 I3 I4 I5 I6] Hr Hp. unfold control_begin, pool. rewrite Hp. split; simpl; try done.
  - intros id' p. rewrite users_begin by done. destruct (decide (id = id')) as [<-|Hne].
    + rewrite lookup_alter_eq. intros (q & Hq & ->)%fmap_Some. simpl. rewrite bool_decide_eq_true_2 by done.
      by rewrite (I1 _ _ Hq).
    + rewrite lookup_alter_ne by done. rewrite bool_decide_eq_false_2 by done. intros Hq. rewrite (I1 _ _ Hq). simpl. lia.
  - intros r' id'. destruct (decide (r' = r)) as [->|]; [rewrite lookup_insert_eq|rewrite lookup_insert_ne by done; apply I2].
    intros [= <-]. by exists peer.
  - intros p id' Hq. destruct (I3 _ _ Hq) as [Ho Hc]. split; [|done]. by apply lookup_alter_is_Some.
  - intros id' Ho. apply I4. by apply lookup_alter_is_Some in Ho.
Qed.

Lemma minv_begin_new r peer now s : minv s → ms_reqs s !! r = None → ms_pools s !! peer = None →
  minv (control_begin r peer now s).
Proof.
  intros [I1 I2 I3 I4 I5 I6] Hr Hp. unfold control_begin, pool. rewrite Hp.
  assert (Hnew : ∀ id, is_Some (ms_objs s !! id) → id ≠ ms_fresh s) by (intros id ?%I4; lia).
  assert (Hu : users s (ms_fresh s) = 0).
  { apply count_if_zero. intros r' id (p & Hq)%I2. apply I3 in Hq as [Ho _]. by apply bool_decide_eq_false_2, Hnew. }
  split; simpl.
  - intros id p. rewrite users_begin by done. destruct (decide (ms_fresh s = id)) as [<-|Hne].
    + rewrite lookup_insert_eq. intros [= <-]. by rewrite bool_decide_eq_true_2, Hu.
    + rewrite lookup_insert_ne by done. rewrite bool_decide_eq_false_2 by done. intros Hq. rewrite (I1 _ _ Hq). simpl. lia.
  - intros r' id. destruct (decide (r' = r)) as [->|].
    + rewrite lookup_insert_eq. intros [= <-]. exists peer. by rewrite lookup_insert_eq.
    + rewrite lookup_insert_ne by done. intros (p & Hq)%I2. exists p. rewrite lookup_insert_ne; [done|congruence].
  - intros p id. destruct (decide (p = peer)) as [->|].
    + rewrite lookup_insert_eq. intros [= <-]. rewrite lookup_insert_eq. split; [done|]. intros ?%I5. lia.
    + rewrite lookup_insert_ne by done. intros [Ho Hc]%I3. split; [|done]. rewrite lookup_insert_ne; [done|].
      intros E. by apply (Hnew _ Ho).
  - intros id. destruct (decide (id = ms_fresh s)) as [->|]; [lia|]. rewrite lookup_insert_ne by done. intros ?%I4. lia.
  - intros id ?%I5. lia.
  - intros p p' id. destruct (decide (p = peer)) as [->|], (decide (p' = peer)) as [->|]; try done;
      rewrite ?lookup_insert_eq, ?lookup_insert_ne by done; try by eauto.
    + intros [= <-] [Ho _]%I3. by destruct (Hnew _ Ho).
    + intros [Ho _]%I3 [= <-]. by destruct (Hnew _ Ho).
Qed.

Lemma minv_end r id s : minv s → ms_reqs s !! r = Some id → minv (control_end r id s).
Proof.
  intros [I1 I2 I3 I4 I5 I6] Hr. unfold control_end.
  assert (Hu : ∀ id', count_if (λ i, bool_decide (i = id')) (delete r (ms_reqs s)) = users s id' - b2z (bool_decide (id = id'))).
  { intros id'. unfold users, count_if. by rewrite (sum_of_delete _ _ _ _ Hr). }
  split; simpl; try done.
  - intros id' p. unfold users. simpl. rewrite Hu. destruct (decide (id = id')) as [<-|Hne].
    + rewrite lookup_alter_eq. intros (q & Hq & ->)%fmap_Some. simpl. rewrite bool_decide_eq_true_2 by done.
      by rewrite (I1 _ _ Hq).
    + rewrite lookup_alter_ne by done. rewrite bool_decide_eq_false_2 by done. intros Hq. rewrite (I1 _ _ Hq). simpl. lia.
  - intros r' id'. rewrite lookup_delete. case_decide; [done|]. apply I2.
  - intros p id' [Ho Hc]%I3. split; [|done]. by apply lookup_alter_is_Some.
  - intros id' Ho. apply I4. by apply lookup_alter_is_Some in Ho.
Qed.

Lemma minv_reap peer cutoff s : minv s → minv (reap peer cutoff s).
Proof.
  intros Hi. pose proof Hi as [I1 I2 I3 I4 I5 I6]. unfold reap. destruct (ms_pools s !! peer) as [id|] eqn:Hp; [|done].
  destruct (ms_objs s !! id) as [p|] eqn:Ho; [|done]. destruct (_ || _) eqn:Hb; [done|].
  apply orb_false_iff in Hb as [_ Ha%Z.ltb_ge]. rewrite (I1 _ _ Ho) in Ha.
  split; simpl; try done.
  - intros r id' Hr. destruct (I2 _ _ Hr) as (p' & Hp'). exists p'. rewrite lookup_delete_ne; [done|].
    intros <-. rewrite Hp in Hp'. injection Hp' as <-. pose proof (users_pos _ _ _ Hr). lia.
  - intros p' id'. rewrite lookup_delete. case_decide as Hne; [done|]. intros Hq. destruct (I3 _ _ Hq) as [Ho' Hc].
    split; [done|]. apply not_elem_of_union. split; [|done]. apply not_elem_of_singleton. intros ->. exact (Hne (I6 _ _ _ Hp Hq)).
  - intros id' [->%elem_of_singleton|?]%elem_of_union; [|auto]. apply I4. by rewrite Ho.
  - intros p1 p2 id'. rewrite !lookup_delete. repeat case_decide; try done. apply I6.
Qed.

Lemma minv_step s s' : minv s → mstep s s' → minv s'.
Proof.
  intros Hi Hs. revert Hi. destruct Hs as [r peer now s1 Hr|r id s1 Hr|peer cutoff s1]; intros Hi.
  - destruct (ms_pools s1 !! peer) eqn:E; [by eapply minv_begin_known|by apply minv_begin_new].
  - by apply minv_end.
  - by apply minv_reap.
Qed.

(** In every interleaving of requests with the reaper, the pool of a request in progress
    is not closed and still in the table, and its count of users is exact. *)
Lemma pool_in_use_kept s : run mstep mstart s →
  (∀ r id, ms_reqs s !! r = Some id → id ∉ ms_closed s ∧ ∃ peer, ms_pools s !! peer = Some id) ∧
  (∀ id p, ms_objs s !! id = Some p → p_active p = users s id).
Proof.
  intros Hr. assert (Hi : minv s).
  { apply (run_invariant mstep minv minv_step _ _ Hr).
    split; simpl; intros *; rewrite ?lookup_empty; done. }
  destruct Hi as [I1 I2 I3 _ _ _]. split; [|done]. intros r id (peer & Hp)%I2. split; [|by exists peer]. by apply (I3 peer).
Qed.

(** The connection picked exists, for the first 2^63 - 1 requests of a pool. *)
Lemma pick_in_range n next : 0 ≤ next < 2 ^ 63 - 1 →
  ∃ i, (pick (pool_size n) next).1 = Some i ∧ 0 ≤ i < pool_size n.
Proof.
  intros Hn. assert (1 ≤ pool_size n) by (unfold pool_size; zcase; lia).
  unfold pick. rewrite Z.mod_small by lia. rewrite wrap64_id by (unfold min_int64, max_int64; lia).
  rewrite Z.rem_mod_nonneg by lia. pose proof (Z.mod_pos_bound (next + 1) (pool_size n)).
  exists ((next + 1) `mod` pool_size n). simpl. zcase. simpl. split; [done|lia].
Qed.

(** ** Requests *)
Record OpenPayload := Open { o_Token : string; o_Addr : string; o_UseHTTPS : bool; o_UseMTLS : bool; o_ClientAddr : string }.
Record ControlRequest := Request {
  q_Op : string; q_Tunnel : string; q_ConnID : string; q_Reason : string; q_Open : option OpenPayload
}.
Record ControlResponse := Response { s_Applied : bool; s_IdleMS : Z }.

(** What a node's controller needs of its phone manager, its edge and its
    enrollment service. *)
Inductive open_error := NoConn | OpenFails.
Class NodeParts (N : Type) := {
  np_nonce : N → result unit string * N;
  np_SendRenewNudge : string → string → string → N → bool * N;
  np_Close : string → string → N → bool * N;
  np_SendOpen : string → string → OpenPayload → N → result open_error unit * N;
  np_evictStreams : string → N → N;
  np_evictConn : string → string → string → N → bool * N;
  np_slotCandidate : string → N → option Z;
  np_freeSlot : string → N → bool * N
}.

Definition CloseAdminTerminate : string := "admin-terminate".

Section control.
Context {N : Type} `{NodeParts N}.

(** ** The controller ([adminController]) *)
Definition Renew (tunnel : string) (n : N) : result unit bool * N :=
  let '(r, n) := np_nonce n in
  match r with
  | Err e => (Err e, n)
  | Ok nonceHex => let '(b, n) := np_SendRenewNudge tunnel nonceHex "" n in (Ok b, n)
  end.

Definition Terminate (tunnel : string) (n : N) : result unit bool * N :=
  let '(b, n) := np_Close tunnel CloseAdminTerminate (np_evictStreams tunnel n) in (Ok b, n).

Definition OpenHere (tunnel connID : string) (open : OpenPayload) (n : N) : result unit bool * N :=
  let '(r, n) := np_SendOpen tunnel connID open n in
  (match r with Ok _ => Ok true | Err NoConn => Ok false | Err OpenFails => Err tt end, n).

Definition Evict (tunnel connID reason : string) (n : N) : result unit bool * N :=
  let '(b, n) := np_evictConn tunnel connID reason n in (Ok b, n).

Definition SlotCandidate (tunnel : string) (n : N) : Z * bool :=
  match np_slotCandidate tunnel n with Some d => (d, true) | None => (0, false) end.

Definition Milliseconds (d : Z) : Z := Z.quot d millisecond.

(** ** The listener *)
Definition known_op (op : string) : bool :=
  existsb (String.eqb op) ["renew"; "terminate"; "open"; "evict"; "slot-candidate"; "free-slot"].

(** The status of a refusal, [None] when the request may run. *)
Definition refused (req : ControlRequest) : option Z :=
  if negb (known_op (q_Op req)) then Some 400
  else if String.eqb (q_Tunnel req) "" then Some 400
  else if (String.eqb (q_Op req) "open" || String.eqb (q_Op req) "evict") && String.eqb (q_ConnID req) "" then Some 400
  else if String.eqb (q_Op req) "open" &&
          match q_Open req with
          | None => true
          | Some o => String.eqb (o_Token o) "" || String.eqb (o_Addr o) ""
          end then Some 400
  else None.

Definition dispatch (req : ControlRequest) (n : N) : result unit ControlResponse * N :=
  let answer r := match r with Ok b => Ok (Response b 0) | Err e => Err e end in
  if String.eqb (q_Op req) "renew" then let '(r, n) := Renew (q_Tunnel req) n in (answer r, n)
  else if String.eqb (q_Op req) "terminate" then let '(r, n) := Terminate (q_Tunnel req) n in (answer r, n)
  else if String.eqb (q_Op req) "open" then
    match q_Open req with
    | Some o => let '(r, n) := OpenHere (q_Tunnel req) (q_ConnID req) o n in (answer r, n)
    | None => (Err tt, n)       (* refused before *)
    end
  else if String.eqb (q_Op req) "evict" then
    let '(r, n) := Evict (q_Tunnel req) (q_ConnID req) (q_Reason req) n in (answer r, n)
  else if String.eqb (q_Op req) "slot-candidate" then
    let '(idle, applied) := SlotCandidate (q_Tunnel req) n in (Ok (Response applied (Milliseconds idle)), n)
  else let '(b, n) := np_freeSlot (q_Tunnel req) n in (Ok (Response b 0), n).

(** The status of an answer, and its body when it is 200. *)
Definition answer := (Z * option ControlResponse)%type.

(** [encoding/json] on requests, cut at 4096 bytes on the way in. *)
Context (Decode : string → option ControlRequest).
Definition maxBody : nat := 4096.

Definition serveControl (method body : string) (n : N) : answer * N :=
  if negb (String.eqb method "POST") then ((405, None), n)
  else
    match Decode (str_take maxBody body) with
    | None => ((400, None), n)
    | Some req =>
        match refused req with
        | Some st => ((st, None), n)
        | None =>
            let '(r, n) := dispatch req n in
            (match r with Err _ => (502, None) | Ok resp => (200, Some resp) end, n)
        end
    end.

(** [meshRole]: the connection has a peer certificate with the mesh role. *)
Definition ServeHTTP (meshRole : bool) (path method body : string) (n : N) : answer * N :=
  if negb meshRole then ((403, None), n)
  else if negb (String.eqb path "/api/v1/mesh/control") then ((404, None), n)
  else serveControl method body n.

(** What a request must be for a node to act on it. *)
Definition acceptable (meshRole : bool) (path method body : string) (req : ControlRequest) : Prop :=
  meshRole = true ∧ path = "/api/v1/mesh/control" ∧ method = "POST" ∧ Decode (str_take maxBody body) = Some req ∧
  q_Tunnel req ≠ "" ∧
  ((q_Op req = "renew" ∨ q_Op req = "terminate" ∨ q_Op req = "slot-candidate" ∨ q_Op req = "free-slot") ∨
   (q_Op req = "evict" ∧ q_ConnID req ≠ "") ∨
   (q_Op req = "open" ∧ q_ConnID req ≠ "" ∧ ∃ o, q_Open req = Some o ∧ o_Token o ≠ "" ∧ o_Addr o ≠ "")).

Lemma refused_none req : refused req = None →
  q_Tunnel req ≠ "" ∧
  ((q_Op req = "renew" ∨ q_Op req = "terminate" ∨ q_Op req = "slot-candidate" ∨ q_Op req = "free-slot") ∨
   (q_Op req = "evict" ∧ q_ConnID req ≠ "") ∨
   (q_Op req = "open" ∧ q_ConnID req ≠ "" ∧ ∃ o, q_Open req = Some o ∧ o_Token o ≠ "" ∧ o_Addr o ≠ "")).
Proof.
  unfold refused, known_op. simpl. destruct req as [op tun cid reason o]. simpl.
  destruct (String.eqb_spec tun "") as [->|Ht]; [by destruct (negb _)|].
  destruct (String.eqb_spec op "renew") as [->|H1]; [by auto|]. simpl.
  destruct (String.eqb_spec op "terminate") as [->|H2]; [by auto|]. simpl.
  destruct (String.eqb_spec op "open") as [->|H3]; simpl.
  { destruct (String.eqb_spec cid ""); simpl; [done|]. destruct o as [o|]; [|done].
    destruct (String.eqb_spec (o_Token o) ""), (String.eqb_spec (o_Addr o) ""); simpl; try done.
    intros _. split; [done|]. right. right. split_and!; eauto. }
  destruct (String.eqb_spec op "evict") as [->|H4]; simpl.
  { destruct (String.eqb_spec cid ""); simpl; [done|]. by auto. }
  destruct (String.eqb_spec op "slot-candidate") as [->|H5]; simpl; [by auto 10|].
  destruct (String.eqb_spec op "free-slot") as [->|H6]; simpl; [by auto 10|done].
Qed.

Lemma acceptable_not_refused meshRole path method body req :
  acceptable meshRole path method body req → refused req = None.
Proof.
  intros (_ & _ & _ & _ & Ht & Hop). unfold refused, known_op. rewrite (eqb_empty _ Ht).
  destruct Hop as [[-> | [-> | [-> | ->]]] | [(-> & Hc) | (-> & Hc & o & -> & Ho & Ha)]]; simpl; try done.
  - by rewrite (eqb_empty _ Hc).
  - by rewrite (eqb_empty _ Hc), (eqb_empty _ Ho), (eqb_empty _ Ha).
Qed.

(** A node acts on a mesh request, and then as the operation says, exactly if the
    request is acceptable (a mesh certificate, the path, POST, a known operation with
    its fields); every other request is refused and changes nothing. *)
Lemma mesh_acts_only_when_acceptable meshRole path method body n :
  let '((st, resp), n') := ServeHTTP meshRole path method body n in
  (∃ req, acceptable meshRole path method body req ∧
     let '(r, n1) := dispatch req n in
     n' = n1 ∧ match r with Ok a => st = 200 ∧ resp = Some a | Err _ => st = 502 ∧ resp = None end) ∨
  ((∀ req, ¬ acceptable meshRole path method body req) ∧ n' = n ∧ resp = None ∧ 400 ≤ st ≤ 405).
Proof.
  unfold ServeHTTP, serveControl.
  destruct meshRole; cbn [negb]; [|right; split_and!; [by intros req [? _]|done..|lia|lia]].
  destruct (String.eqb_spec path "/api/v1/mesh/control") as [->|Hp]; cbn [negb];
    [|right; split_and!; [by intros req (_ & ? & _)|done..|lia|lia]].
  destruct (String.eqb_spec method "POST") as [->|Hm]; cbn [negb];
    [|right; split_and!; [by intros req (_ & _ & ? & _)|done..|lia|lia]].
  destruct (Decode (str_take maxBody body)) as [req|] eqn:Hd;
    [|right; split_and!; [intros req (_ & _ & _ & ? & _); congruence|done..|lia|lia]].
  destruct (refused req) as [st|] eqn:Hr.
  - right. assert (st = 400) as -> by (revert Hr; unfold refused; repeat case_match; congruence).
    split_and!; [|done..|lia|lia]. intros req' Ha. assert (req' = req) as -> by (destruct Ha as (_ & _ & _ & ? & _); congruence).
    apply acceptable_not_refused in Ha. congruence.
  - destruct (dispatch req n) as [r n1] eqn:Hdi.
    assert (acceptable true "/api/v1/mesh/control" "POST" body req) by (do 4 (split; [done|]); by apply refused_none).
    destruct r; left; exists req; rewrite Hdi; done.
Qed.

(** ** Asking another node

    The nodes by their advertised address.  [reaches] is whether a connection
    with both certificates comes about, [answers] whether the answer comes back
    (the request has run all the same). *)
Context (Encode : ControlRequest → option string).
Context (EncodeResp : ControlResponse → string) (DecodeResp : string → option ControlResponse).
Context (reaches answers : string → bool).
Definition cluster := gmap string N.

Definition Control (peer : string) (req : ControlRequest) (cl : cluster) : result unit ControlResponse * cluster :=
  match Encode req with
  | None => (Err tt, cl)
  | Some body =>
      match cl !! peer with
      | None => (Err tt, cl)
      | Some n =>
          if negb (reaches peer) then (Err tt, cl)
          else
            let '((st, resp), n') := ServeHTTP true "/api/v1/mesh/control" "POST" body n in
            (if negb (answers peer) || negb (st =? 200) then Err tt
             else match resp with
                  | None => Err tt
                  | Some r => match DecodeResp (str_take maxBody (EncodeResp r)) with Some r => Ok r | None => Err tt end
                  end, <[peer := n']> cl)
      end
  end.

(** [openAdapter.Open]: [self] is this node's own state, [base] what every OPEN
    says of the dial-back address. *)
Inductive open_result := Opened | NotHere | OpenError.

Definition Open_ (nodeID : string) (base : OpenPayload) (LookupNode : string → result unit (string * bool))
    (owner name connID token clientAddr : string) (self : N) (cl : cluster) : open_result * N * cluster :=
  let open := Open token (o_Addr base) (o_UseHTTPS base) (o_UseMTLS base) clientAddr in
  if String.eqb owner nodeID then
    let '(r, self) := np_SendOpen name connID open self in
    (match r with Ok _ => Opened | Err NoConn => NotHere | Err OpenFails => OpenError end, self, cl)
  else
    match LookupNode owner with
    | Err _ => (OpenError, self, cl)
    | Ok (_, false) => (NotHere, self, cl)
    | Ok (peer, true) =>
        let '(r, cl) := Control peer (Request "open" name connID "" (Some open)) cl in
        (match r with Err _ => OpenError | Ok res => if s_Applied res then Opened else NotHere end, self, cl)
    end.

Definition open_answer (r : result open_error unit) : open_result :=
  match r with Ok _ => Opened | Err NoConn => NotHere | Err OpenFails => OpenError end.

(** What JSON promises of the messages that are sent: small enough for the
    limits, and read back as they were. *)
Definition travels (req : ControlRequest) : Prop :=
  (∃ body, Encode req = Some body ∧ Decode (str_take maxBody body) = Some req) ∧
  ∀ b, DecodeResp (str_take maxBody (EncodeResp (Response b 0))) = Some (Response b 0).

(** C22. The mesh is transparent. If the owner of a tunnel is another node that is
    listed, reachable and answers, and requests survive JSON, then an OPEN sent through
    the mesh gives the caller the result of the owner's phone manager called directly
    with this node's address and scheme, changes the owner as that call does, and
    nothing else. *)
Theorem open_reaches_owner nodeID base LookupNode owner peer name connID token clientAddr self cl n :
  let open := Open token (o_Addr base) (o_UseHTTPS base) (o_UseMTLS base) clientAddr in
  owner ≠ nodeID → LookupNode owner = Ok (peer, true) → cl !! peer = Some n →
  reaches peer = true → answers peer = true → travels (Request "open" name connID "" (Some open)) →
  name ≠ "" → connID ≠ "" → token ≠ "" → o_Addr base ≠ "" →
  let '(r, n') := np_SendOpen name connID open n in
  Open_ nodeID base LookupNode owner name connID token clientAddr self cl = (open_answer r, self, <[peer := n']> cl).
Proof.
  intros open Hne Hl Hn Hre Han [(body & He & Hd) Hresp] Hname Hconn Htok Haddr. unfold Open_. fold open.
  destruct (String.eqb_spec owner nodeID); [done|]. rewrite Hl. unfold Control. rewrite He, Hn, Hre. cbn [negb].
  unfold ServeHTTP, serveControl. cbn [negb]. rewrite String.eqb_refl. cbn [negb]. rewrite String.eqb_refl. cbn [negb].
  rewrite Hd.
  assert (refused (Request "open" name connID "" (Some open)) = None) as ->.
  { unfold refused, known_op, open. simpl. by rewrite (eqb_empty _ Hname), (eqb_empty _ Hconn), (eqb_empty _ Htok), (eqb_empty _ Haddr). }
  unfold dispatch, OpenHere. cbn [q_Op q_Open q_Tunnel q_ConnID String.eqb Ascii.eqb Bool.eqb].
  destruct (np_SendOpen name connID open n) as [r n'] eqn:Es. rewrite Han.
  destruct r as [[]|[|]]; cbn [negb orb]; [rewrite Hresp|rewrite Hresp|]; done.
Qed.

(** ** Telling every node ([broadcastControl]) *)
Inductive told := Panicked | Failed | Answered (applied : bool).

(** The goroutines take the mutex in some order; [order] is it. *)
Definition broadcastControl (self : string) (order : list string) (outcome : string → told) : bool * gset string :=
  fold_left (λ acc id,
    if String.eqb id self then acc
    else match outcome id with
         | Panicked | Failed => (acc.1, {[id]} ∪ acc.2)
         | Answered b => (acc.1 || b, acc.2)
         end) order (false, ∅).

Lemma broadcastControl_spec self order outcome :
  ((broadcastControl self order outcome).1 = true ↔ ∃ id, id ∈ order ∧ id ≠ self ∧ outcome id = Answered true) ∧
  (∀ id, id ∈ (broadcastControl self order outcome).2 ↔
     id ∈ order ∧ id ≠ self ∧ (outcome id = Panicked ∨ outcome id = Failed)).
Proof.
  unfold broadcastControl. induction order as [|x order IH] using rev_ind; simpl.
  { split; [|set_solver]. split; [done|]. intros (id & ? & _). set_solver. }
  rewrite fold_left_app. simpl. destruct IH as [IH1 IH2].
  set (acc := fold_left _ order _) in *. destruct (String.eqb_spec x self) as [->|Hx].
  - split; [rewrite IH1|intros id; rewrite IH2]; set_solver.
  - destruct (outcome x) as [| |b] eqn:E; simpl.
    1,2: split; [rewrite IH1; split; [set_solver|]; intros (id & [?|?%list_elem_of_singleton]%elem_of_app & ? & ?);
      [by exists id|congruence]|]; intros id; rewrite elem_of_union, elem_of_singleton, IH2, elem_of_app, list_elem_of_singleton;
      naive_solver.
    split.
    + rewrite orb_true_iff, IH1. split; [intros [?| ->]; set_solver|].
      intros (id & [?|Ex%list_elem_of_singleton]%elem_of_app & ? & ?); [by left; exists id|right; subst; congruence].
    + intros id. rewrite IH2, elem_of_app, list_elem_of_singleton. split; [by intros (? & ? & ?); auto|].
      intros ([?| ->] & ? & Ho); [by auto|]. rewrite E in Ho. by destruct Ho.
Qed.
End control.

(** ** Freeing a slot somewhere else ([remoteSlots]) *)
Definition slotFreeConcurrency : Z := 32.
Record slotOffer := Offer { so_node : string; so_addr : string; so_idle : Z }.

(** The answers in the order they arrive: [None] when a node does not answer. *)
Definition offers_of (self : string) (answers : list (string * string * option ControlResponse)) : list slotOffer :=
  omap (λ a, let '(id, addr, r) := a in
    if String.eqb id self then None
    else match r with
         | Some res => if s_Applied res then Some (Offer id addr (wrap64 (s_IdleMS res * millisecond))) else None
         | None => None
         end) answers.

(** [slices.SortFunc]: the longest idle first, equal ones in any order. *)
Definition longer_idle (a b : slotOffer) : Prop := so_idle b ≤ so_idle a.
#[export] Instance longer_idle_dec : RelDecision longer_idle.
Proof. intros a b. unfold longer_idle. apply _. Defined.
Definition sorts (sort : list slotOffer → list slotOffer) : Prop :=
  ∀ l, Permutation (sort l) l ∧ Sorted longer_idle (sort l).

Section free.
Context {B : Type} (free : slotOffer → B → result unit bool * B) (sort : list slotOffer → list slotOffer).

(** The nodes asked, the last one first to settle it. *)
Fixpoint ask_offers (os : list slotOffer) (b : B) : bool * list slotOffer * B :=
  match os with
  | [] => (false, [], b)
  | o :: os' =>
      let '(r, b) := free o b in
      match r with
      | Err _ => (true, [o], b)
      | Ok true => (true, [o], b)
      | Ok false => let '(r, asked, b) := ask_offers os' b in (r, o :: asked, b)
      end
  end.

(** [nodes] is [None] when they could not be listed. *)
Definition FreeRemoteSlot (inflight : Z) (self : string)
    (nodes : option (list (string * string * option ControlResponse))) (b : B) : bool * list slotOffer * B :=
  if slotFreeConcurrency <=? inflight then (false, [], b)
  else match nodes with
       | None => (false, [], b)
       | Some answers => ask_offers (sort (offers_of self answers)) b
       end.

Lemma ask_offers_spec os b : let '(r, asked, _) := ask_offers os b in
  (∃ rest, os = asked ++ rest ∧ (r = false → rest = []) ∧ (os ≠ [] → asked ≠ [])) ∧
  (r = true → ∃ front last b1 b2, asked = front ++ [last] ∧ (free last b1 = (Ok true, b2) ∨ ∃ e, free last b1 = (Err e, b2))).
Proof.
  revert b. induction os as [|o os IH]; intros b; simpl.
  { split; [by exists []|done]. }
  destruct (free o b) as [[[|]|e] b'] eqn:E.
  - split; [by exists os|]. intros _. exists [], o, b, b'. by auto.
  - specialize (IH b'). destruct (ask_offers os b') as [[r asked] b2]. destruct IH as [(rest & -> & Hr & _) Ht].
    split; [exists rest; naive_solver|]. intros (front & last & b1 & b3 & -> & Hf)%Ht.
    exists (o :: front), last, b1, b3. done.
  - split; [by exists os|]. intros _. exists [], o, b, b'. naive_solver.
Qed.

(** A slot is asked for on other nodes in the order of idleness, the longest idle first,
    until one frees it; never on this node, and never by more than the allowed number of
    searches at once. *)
Lemma remote_slot_idlest_first (Hsort : sorts sort) inflight self answers b :
  let os := offers_of self answers in
  let '(r, asked, _) := FreeRemoteSlot inflight self (Some answers) b in
  (inflight < slotFreeConcurrency →
     (∀ o, asked !! 0%nat = Some o → o ∈ os ∧ ∀ o', o' ∈ os → so_idle o' ≤ so_idle o) ∧
     (os ≠ [] → asked ≠ []) ∧ (r = false → Permutation asked os)) ∧
  Sorted longer_idle asked ∧ (∀ o, o ∈ asked → so_node o ≠ self) ∧
  (slotFreeConcurrency ≤ inflight → r = false ∧ asked = []).
Proof.
  intros os. unfold FreeRemoteSlot. fold os. destruct (slotFreeConcurrency <=? inflight) eqn:Ei.
  { split; [intros ?; zbool; lia|]. split; [constructor|]. split; [set_solver|done]. }
  pose proof (ask_offers_spec (sort os) b) as Ha. destruct (ask_offers (sort os) b) as [[r asked] b'].
  destruct Ha as [(rest & Hs & Hf & Hne) _]. destruct (Hsort os) as [Hp Hso].
  assert (Hstrong : StronglySorted longer_idle (sort os)).
  { apply Sorted_StronglySorted; [|done]. intros x y z Hxy Hyz. unfold longer_idle in *. lia. }
  assert (Hin : ∀ o, o ∈ asked → o ∈ os).
  { intros o Ho. rewrite <- Hp, Hs. set_solver. }
  split; [|split; [|split]].
  - intros _. split; [|split].
    + intros o Ho. split; [apply Hin; by eapply list_elem_of_lookup_2|]. intros o' Ho'. rewrite <- Hp, Hs in Ho'.
      rewrite Hs in Hstrong. destruct asked as [|x asked]; [done|]. simpl in *. injection Ho as ->.
      apply StronglySorted_inv in Hstrong as [_ Hall]. rewrite Forall_forall in Hall.
      apply elem_of_cons in Ho' as [-> | Ho']; [done|]. by apply (Hall o').
    + intros Hos. apply Hne. intros E. apply Hos. apply Permutation_nil. by rewrite <- E, Hp.
    + intros Hr. rewrite <- Hp, Hs, (Hf Hr), app_nil_r. done.
  - rewrite Hs in Hso. clear -Hso. induction asked as [|x asked IH]; [constructor|].
    simpl in Hso. apply Sorted_inv in Hso as [Hso Hh]. constructor; [by apply IH|].
    destruct asked; [constructor|]. inversion Hh. by constructor.
  - intros o Ho%Hin. unfold os, offers_of in Ho. apply list_elem_of_omap in Ho as ([[id addr] r'] & _ & Ho).
    destruct (String.eqb_spec id self); [done|]. destruct r' as [res|]; [|done]. destruct (s_Applied res); [|done].
    by injection Ho as <-.
  - intros ?. zbool. lia.
Qed.
End free.

(** ** Closing the streams of a phone that has gone ([spliceEvictor])

    [PhoneConnClosed] evicts here and starts a broadcast, unless the node is
    shutting down; [Drain] turns that off and waits for the broadcasts. *)
Record evictor := Evictor {
  ev_draining : bool; ev_running : gset nat; ev_started : nat;
  ev_local : nat;                 (* local evictions *)
  ev_skipped : nat; ev_done : gset nat; ev_drained : bool
}.

Definition PhoneConnClosed (s : evictor) : evictor :=
  if ev_draining s
  then Evictor true (ev_running s) (ev_started s) (S (ev_local s)) (S (ev_skipped s)) (ev_done s) (ev_drained s)
  else Evictor false ({[ev_started s]} ∪ ev_running s) (S (ev_started s)) (S (ev_local s)) (ev_skipped s) (ev_done s) (ev_drained s).
Definition broadcast_end (k : nat) (s : evictor) : evictor :=
  Evictor (ev_draining s) (ev_running s ∖ {[k]}) (ev_started s) (ev_local s) (ev_skipped s) ({[k]} ∪ ev_done s) (ev_drained s).
Definition Drain_begin (s : evictor) : evictor :=
  Evictor true (ev_running s) (ev_started s) (ev_local s) (ev_skipped s) (ev_done s) (ev_drained s).
Definition Drain_end (s : evictor) : evictor :=
  Evictor (ev_draining s) (ev_running s) (ev_started s) (ev_local s) (ev_skipped s) (ev_done s) true.

Inductive estep : evictor → evictor → Prop :=
| EClosed s : estep s (PhoneConnClosed s)
| EEnd k s : k ∈ ev_running s → estep s (broadcast_end k s)
| EDrain s : estep s (Drain_begin s)
| EDrained s : ev_draining s = true → ev_running s = ∅ → estep s (Drain_end s).   (* [wg.Wait] *)

Definition estart : evictor := Evictor false ∅ 0 0 0 ∅ false.

Record einv (s : evictor) : Prop := EInv {
  ei_count : ev_local s = (ev_started s + ev_skipped s)%nat;
  ei_all : ∀ k, (k < ev_started s)%nat ↔ k ∈ ev_running s ∪ ev_done s;
  ei_once : ev_running s ## ev_done s;
  ei_skip : ev_skipped s ≠ 0%nat → ev_draining s = true;
  ei_drained : ev_drained s = true → ev_draining s = true ∧ ev_running s = ∅
}.

Lemma einv_step s s' : einv s → estep s s' → einv s'.
Proof.
  intros Hi Hs. revert Hi. destruct Hs as [s|k s Hk|s|s Hd Hr]; intros [I1 I2 I3 I4 I5].
  - unfold PhoneConnClosed. destruct (ev_draining s) eqn:Hd; split; simpl; try done; try lia.
    + intros k. rewrite <- (assoc_L (∪)), elem_of_union, <- I2, elem_of_singleton. lia.
    + assert (ev_started s ∉ ev_running s ∪ ev_done s) by (rewrite <- I2; lia). set_solver.
    + intros [? _]%I5. done.
  - split; simpl; try done.
    + intros k'. rewrite I2. destruct (decide (k' = k)); set_solver.
    + set_solver.
    + intros [? ->]%I5. set_solver.
  - split; simpl; try done. by intros [? ?]%I5.
  - by split.
Qed.

(** Once the evictor has drained, every broadcast that was started is over, and none is
    started afterwards; local evictions always happen. *)
Lemma drain_waits_for_broadcasts s : run estep estart s →
  ev_local s = (ev_started s + ev_skipped s)%nat ∧ (ev_draining s = false → ev_skipped s = 0%nat) ∧
  (ev_drained s = true → (∀ k, (k < ev_started s)%nat → k ∈ ev_done s) ∧
     ∀ s', run estep s s' → ev_started s' = ev_started s ∧ ev_running s' = ∅).
Proof.
  assert (H0 : einv estart) by (split; simpl; try done; intros k; split; [lia|set_solver]).
  intros Hr. pose proof (run_invariant estep einv einv_step _ _ Hr H0) as Hi. pose proof Hi as [I1 I2 I3 I4 I5].
  split; [done|]. split.
  { intros Hd. destruct (ev_skipped s) eqn:E; [done|]. rewrite I4 in Hd by lia. done. }
  intros Hd. destruct (I5 Hd) as [Hdr Hrun]. split.
  - intros k Hk%I2. rewrite Hrun in Hk. set_solver.
  - intros s' Hr'.
    assert (Hinv : ev_draining s' = true ∧ ev_running s' = ∅ ∧ ev_started s' = ev_started s); [|naive_solver].
    refine (run_invariant estep (λ s', ev_draining s' = true ∧ ev_running s' = ∅ ∧ ev_started s' = ev_started s)
              _ s s' Hr' _); [|by split_and!].
    intros s1 s2 (D & R & St) Hstep. revert D R St.
    destruct Hstep as [s1|k s1 Hk|s1|s1 _ _]; simpl; intros D R St; unfold PhoneConnClosed; rewrite ?D; simpl; split_and!; set_solver.
Qed.

(** ** Examples *)
Lemma pool_in_use_kept_witness :
  let s := reap "peer:1" 100 (control_begin 1 "peer:1" 5 mstart) in
  ms_pools s !! "peer:1" = Some 0%nat ∧ 0%nat ∉ ms_closed s.
Proof.
  intros s. split; [by vm_compute|].
  refine (proj1 (proj1 (pool_in_use_kept s _) 1%nat 0%nat _)); [|by vm_compute].
  eapply run_step; [by apply (MBegin 1 "peer:1" 5)|]. apply run_one. constructor.
Defined.

(** A node that records the OPENs sent to its phone [abc]. *)
#[export] Instance sample_parts : NodeParts (list OpenPayload) := {
  np_nonce n := (Ok "00", n);
  np_SendRenewNudge _ _ _ n := (true, n);
  np_Close _ _ n := (true, n);
  np_SendOpen name _ o n := if String.eqb name "abc" then (Ok tt, n ++ [o]) else (Err NoConn, n);
  np_evictStreams _ n := n;
  np_evictConn _ _ _ n := (false, n);
  np_slotCandidate _ _ := Some second;
  np_freeSlot _ n := (true, n)
}.
Definition sample_open : OpenPayload := Open "tok" "node-b:443" true false "192.0.2.1:9".
Definition sample_control : ControlRequest := Request "open" "abc" "c1" "" (Some sample_open).
Definition sample_resp (r : ControlResponse) : string := if s_Applied r then "true" else "false".

Lemma open_reaches_owner_witness :
  Open_ (λ _, Some sample_control) (λ _, Some "{}") sample_resp (λ s, Some (Response (String.eqb s "true") 0))
    (λ _, true) (λ _, true) "a" (Open "" "node-b:443" true false "") (λ _, Ok ("b:9443", true))
    "b" "abc" "c1" "tok" "192.0.2.1:9" [] {["b:9443" := []]}
  = (Opened, [], {["b:9443" := [sample_open]]}).
Proof.
  refine (open_reaches_owner (λ _, Some sample_control) (λ _, Some "{}") sample_resp
    (λ s, Some (Response (String.eqb s "true") 0)) (λ _, true) (λ _, true) "a" (Open "" "node-b:443" true false "")
    (λ _, Ok ("b:9443", true)) "b" "b:9443" "abc" "c1" "tok" "192.0.2.1:9" [] {["b:9443" := []]} [] _ _ _ _ _ _ _ _ _ _); try done.
  split; [by exists "{}"|]. by intros [].
Defined.

Lemma remote_slot_idlest_first_witness :
  let answers := [("b", "b:1", Some (Response true 5)); ("c", "c:1", Some (Response true 9)); ("a", "a:1", Some (Response true 99))] in
  let '(r, asked, _) := FreeRemoteSlot (λ o n, (Ok (String.eqb (so_node o) "b"), n)) (merge_sort longer_idle) 0 "a" (Some answers) tt in
  r = true ∧ so_node <$> asked = ["c"; "b"] ∧ Sorted longer_idle asked.
Proof.
  intros answers.
  assert (Hs : sorts (merge_sort longer_idle)).
  { intros l. split; [apply merge_sort_Permutation|]. apply Sorted_merge_sort. intros x y. unfold longer_idle. lia. }
  pose proof (remote_slot_idlest_first (λ o (n : unit), (Ok (String.eqb (so_node o) "b"), n)) (merge_sort longer_idle)
                Hs 0 "a" answers tt) as H. cbv zeta in H. revert H.
  set (x := FreeRemoteSlot _ _ _ _ _ _). assert (E : x.1.1 = true ∧ so_node <$> x.1.2 = ["c"; "b"]) by (by vm_compute).
  destruct x as [[r asked] b]. destruct E as [E1 E2]. intros (_ & Hso & _). exact (conj E1 (conj E2 Hso)).
Defined.

Lemma drain_waits_for_broadcasts_witness :
  let s := Drain_end (PhoneConnClosed (broadcast_end 0 (Drain_begin (PhoneConnClosed estart)))) in
  ev_drained s = true ∧ ev_skipped s = 1%nat ∧ ∀ k, (k < ev_started s)%nat → k ∈ ev_done s.
Proof.
  intros s. split; [done|]. split; [done|]. refine (proj1 (proj2 (proj2 (drain_waits_for_broadcasts s _)) _)); [|done].
  eapply run_step; [apply EClosed|]. eapply run_step; [apply EDrain|]. eapply run_step; [apply (EEnd 0); set_solver|].
  eapply run_step; [apply EClosed|]. apply run_one. apply EDrained; by vm_compute.
Defined.
End Mesh.
