(* ===== verification/ServerLoop.v ===== *)
(** * Shutting down, and the loops that run meanwhile

    [internal/server/drain.go] and [schedulers.go]: the drain that a stop signal
    starts (report the node as unavailable, wait, tell the phones to move, wait
    for what is left), the rotation of the node's mesh certificate, the
    heartbeat that keeps the node in the registry, and the watcher that nudges
    phones to renew.

    [DrainDeps] is the interface to the phone manager, the edge, the issuing
    service and the timers; [select] is a wake-up of the drain's loop. *)
From Stdlib Require Import ZArith Lia Ascii String Permutation.
From stdpp Require Import sorting.
From S2P Require Import Prelude GoStr Valkey Router.
Local Open Scope string_scope.
Local Open Scope list_scope.
Local Open Scope Z_scope.

Module ServerLoop.

(** ** The drain *)
Inductive phase := Serving | Stopping | Draining.
Definition phase_index (p : phase) : Z := match p with Serving => 0 | Stopping => 1 | Draining => 2 end.
Definition is_Stopping (p : phase) : bool := phase_index Stopping <=? phase_index p.
Definition is_Draining (p : phase) : bool := phase_index Draining <=? phase_index p.

Inductive wake := WEnded | WDeadline | WTick.

Class DrainDeps (B : Type) := {
  dd_ended : B → bool;                          (* the context has ended *)
  dd_timer : Z → B → bool * B;                  (* [false]: the context ended first *)
  dd_LiveNodes : B → result unit (gmap string Router.NodeInfo) * B;
  dd_StartDrain : list string → B → B;
  dd_RetryMoves : B → B;
  dd_LiveConns : B → Z * B;
  dd_InFlightConns : B → Z * B;
  dd_InFlightIssues : B → Z * B;
  dd_select : B → wake * B
}.

(** How a drain ends. *)
Inductive drain_end := EndCancelled | EndIdle | EndDeadline.

Inductive devent :=
| EvPhase (p : phase)
| EvStartDrain (addrs : list string)
| EvCounts (phones conns issues : option Z)     (* [None]: not read *)
| EvRetryMoves.

(** Text order, as [slices.Sort] uses it. *)
Definition str_le (a b : string) : Prop := String.leb a b = true.
#[export] Instance str_le_dec : RelDecision str_le.
Proof. intros a b. unfold str_le. apply _. Defined.

Section drain.
Context {B : Type} `{DrainDeps B} (nodeID : string) (predrain : Z).

Definition waitCtx (d : Z) (b : B) : bool * B :=
  if d <=? 0 then (negb (dd_ended b), b) else dd_timer d b.

Definition publics (nodes : gmap string Router.NodeInfo) : list string :=
  omap (λ kv, if String.eqb kv.1 nodeID then None else Some (Router.Public kv.2)) (map_to_list nodes).

Definition moveTargets (b : B) : list string * B :=
  let '(r, b) := dd_LiveNodes b in
  (match r with Err _ => [] | Ok nodes => merge_sort str_le (publics nodes) end, b).

(** The check of the loop, which stops reading at the first count that is not 0. *)
Definition idle_check (b : B) : bool * devent * B :=
  let '(phones, b) := dd_LiveConns b in
  if negb (phones =? 0) then (false, EvCounts (Some phones) None None, b)
  else
    let '(conns, b) := dd_InFlightConns b in
    if negb (conns =? 0) then (false, EvCounts (Some phones) (Some conns) None, b)
    else
      let '(issues, b) := dd_InFlightIssues b in
      (issues =? 0, EvCounts (Some phones) (Some conns) (Some issues), b).

(** [None] when [fuel] wake-ups did not end the loop. *)
Fixpoint drain_loop (fuel : nat) (tr : list devent) (b : B) : option drain_end * list devent * B :=
  match fuel with
  | O => (None, tr, b)
  | S fuel' =>
      let '(idle, e, b) := idle_check b in
      let tr := tr ++ [e] in
      if (idle : bool) then (Some EndIdle, tr, b)
      else
        let '(w, b) := dd_select b in
        match w with
        | WEnded => (Some EndCancelled, tr, b)
        | WDeadline => (Some EndDeadline, tr, b)
        | WTick => drain_loop fuel' (tr ++ [EvRetryMoves]) (dd_RetryMoves b)
        end
  end.

Definition drain_run (fuel : nat) (b : B) : option drain_end * list devent * B :=
  let tr := [EvPhase Stopping] in
  let '(ok, b) := waitCtx predrain b in
  if negb ok then (Some EndCancelled, tr, b)
  else
    let '(addrs, b) := moveTargets b in
    drain_loop fuel (tr ++ [EvPhase Draining; EvStartDrain addrs]) (dd_StartDrain addrs b).

(** *** What a drain does *)
Lemma moveTargets_spec b nodes b' : dd_LiveNodes b = (Ok nodes, b') →
  ∃ addrs, moveTargets b = (addrs, b') ∧ Sorted str_le addrs ∧
    ∀ a, a ∈ addrs ↔ ∃ id n, nodes !! id = Some n ∧ id ≠ nodeID ∧ a = Router.Public n.
Proof.
  intros E. unfold moveTargets. rewrite E. eexists. split; [done|]. split.
  - apply Sorted_merge_sort. intros x y. unfold str_le. destruct (String.leb_total x y); auto.
  - intros a. rewrite merge_sort_Permutation. unfold publics. rewrite list_elem_of_omap. split.
    + intros ([id n] & Hin%elem_of_map_to_list & Ho). simpl in Ho. destruct (String.eqb_spec id nodeID); [done|].
      exists id, n. by simplify_eq.
    + intros (id & n & Hl & Hne & ->). exists (id, n). split; [by apply elem_of_map_to_list|]. simpl.
      by destruct (String.eqb_spec id nodeID).
Qed.

(** The last three counts a trace shows. *)
Definition all_idle (e : devent) : Prop := e = EvCounts (Some 0) (Some 0) (Some 0).

Lemma idle_check_spec b : let '(idle, e, _) := idle_check b in
  (idle = true ↔ all_idle e) ∧ e ≠ EvRetryMoves ∧ (∀ p, e ≠ EvPhase p) ∧ ∀ a, e ≠ EvStartDrain a.
Proof.
  unfold idle_check, all_idle. destruct (dd_LiveConns b) as [p b1].
  destruct (Z.eqb_spec p 0) as [->|]; simpl; [|split; [split; [done|congruence]|done]].
  destruct (dd_InFlightConns b1) as [c b2].
  destruct (Z.eqb_spec c 0) as [->|]; simpl; [|split; [split; [done|congruence]|done]].
  destruct (dd_InFlightIssues b2) as [i b3]. split; [|done].
  destruct (Z.eqb_spec i 0) as [->|]; split; try done. congruence.
Qed.

(** A poll: the counts that kept the drain going, and the moves sent again. *)
Definition poll (tr : list devent) : Prop := ∃ e, tr = [e; EvRetryMoves] ∧ ¬ all_idle e.

Lemma drain_loop_spec fuel tr b : let '(r, tr', _) := drain_loop fuel tr b in
  ∃ polls rest, tr' = tr ++ concat polls ++ rest ∧ Forall poll polls ∧
    match r with
    | None => rest = []
    | Some EndIdle => ∃ e, rest = [e] ∧ all_idle e
    | Some _ => ∃ e, rest = [e] ∧ ¬ all_idle e
    end.
Proof.
  revert tr b. induction fuel as [|fuel IH]; intros tr b; simpl.
  { exists [], []. by rewrite app_nil_r. }
  pose proof (idle_check_spec b) as Hi. destruct (idle_check b) as [[idle e] b1]. destruct Hi as (Hi & _).
  destruct idle.
  { exists [], [e]. split; [done|]. split; [constructor|]. exists e. split; [done|]. by apply Hi. }
  assert (Hne : ¬ all_idle e) by (intros ?%Hi; done).
  destruct (dd_select b1) as [[| |] b2]; [by exists [], [e]; eauto..|].
  specialize (IH ((tr ++ [e]) ++ [EvRetryMoves]) (dd_RetryMoves b2)).
  destruct (drain_loop fuel _ _) as [[r tr'] b3]. destruct IH as (polls & rest & -> & Hp & Hr).
  exists ([e; EvRetryMoves] :: polls), rest. simpl. rewrite <- !app_assoc. split; [done|]. split; [|done].
  constructor; [|done]. by exists e.
Qed.

(** A drain first stops, then drains, then tells the phones to move, then polls; it ends
    as idle exactly when a poll saw no phone, no public connection and no issuance. *)
Lemma drain_in_order fuel b : let '(r, tr, _) := drain_run fuel b in
  (r = Some EndCancelled ∧ tr = [EvPhase Stopping]) ∨
  ∃ addrs polls rest,
    tr = [EvPhase Stopping; EvPhase Draining; EvStartDrain addrs] ++ concat polls ++ rest ∧ Forall poll polls ∧
    match r with
    | None => rest = []
    | Some EndIdle => ∃ e, rest = [e] ∧ all_idle e
    | Some _ => ∃ e, rest = [e] ∧ ¬ all_idle e
    end.
Proof.
  unfold drain_run. destruct (waitCtx predrain b) as [[|] b1]; simpl; [|by left].
  destruct (moveTargets b1) as [addrs b2].
  pose proof (drain_loop_spec fuel [EvPhase Stopping; EvPhase Draining; EvStartDrain addrs] (dd_StartDrain addrs b2)) as Hl.
  destruct (drain_loop _ _ _) as [[r tr] b3]. destruct Hl as (polls & rest & -> & Hp & Hr). right.
  by exists addrs, polls, rest.
Qed.

(** The deadline's timer fires after finitely many ticks: [left b] more. *)
Definition deadline_comes (left : B → nat) : Prop :=
  (∀ b b', dd_select b = (WTick, b') → (left b' < left b)%nat) ∧
  (∀ b, left (dd_RetryMoves b) = left b) ∧
  (∀ b, left (idle_check b).2 = left b).

(** A drain ends, at the latest at its deadline. *)
Lemma drain_ends left : deadline_comes left →
  ∀ b tr, ∃ r, (drain_loop (S (left b)) tr b).1.1 = Some r.
Proof.
  intros (Ht & Hr & Hi) b tr. assert (∀ fuel b tr, (left b < fuel)%nat → ∃ r, (drain_loop fuel tr b).1.1 = Some r) as Hgen;
    [|apply Hgen; lia].
  clear b tr. induction fuel as [|fuel IH]; intros b tr Hf; [lia|]. simpl.
  specialize (Hi b). destruct (idle_check b) as [[[] e] b1]; [by eexists|]. simpl in Hi.
  destruct (dd_select b1) as [[| |] b2] eqn:Es; [by eexists..|]. apply IH. rewrite Hr. apply Ht in Es. lia.
Qed.
End drain.

(** ** Rotating the mesh certificate *)
Definition meshRotateRetry : Z := 5 * minute.

Definition rotate_interval (ttl : Z) : Z :=
  let interval := Z.quot (wrap64 (ttl * 2)) 3 in if interval <=? 0 then hour else interval.

(** When the last attempt was made, the wait before the next one, and when the
    certificate in use was minted. *)
Record holder := Holder { h_at : Z; h_wait : Z; h_minted : Z }.

Definition newMeshCertHolder (ttl now : Z) (minted : bool) : option holder :=
  if minted then Some (Holder now (rotate_interval ttl) now) else None.

(** One turn of the loop: the timer fires [late] after its time, and the mint
    succeeds or not. *)
Definition rotate (ttl : Z) (h : holder) (turn : Z * bool) : holder :=
  let t := h_at h + h_wait h + turn.1 in
  if turn.2 then Holder t (rotate_interval ttl) t else Holder t meshRotateRetry (h_minted h).

Definition rotateLoop (ttl : Z) (h : holder) (turns : list (Z * bool)) : holder := fold_left (rotate ttl) turns h.

(** The failures since the last success, and how late their timers were. *)
Definition trouble (turns : list (Z * bool)) : Z * Z :=
  fold_left (λ acc turn, if (turn.2 : bool) then (0, 0) else (acc.1 + 1, acc.2 + turn.1)) turns (0, 0).

Lemma rotateLoop_age ttl now h turns : newMeshCertHolder ttl now true = Some h →
  let h' := rotateLoop ttl h turns in
  h_at h' + h_wait h' - h_minted h' =
    rotate_interval ttl + (trouble turns).1 * meshRotateRetry + (trouble turns).2.
Proof.
  intros [= <-]. unfold rotateLoop, trouble. induction turns as [|turn turns IH] using rev_ind; simpl; [lia|].
  rewrite !fold_left_app. simpl in *. set (h := fold_left (rotate ttl) turns _) in *.
  set (acc := fold_left _ turns (0, 0)) in *. unfold rotate. destruct turn as [late []]; simpl; lia.
Qed.

(** As long as failures in a row and late timers stay within a third of its lifetime,
    the mesh certificate is replaced before it expires. *)
Lemma mesh_cert_never_lapses ttl now h turns :
  newMeshCertHolder ttl now true = Some h → 3 * nanosecond ≤ ttl → ttl * 2 ≤ max_int64 →
  (trouble turns).1 * meshRotateRetry + (trouble turns).2 < ttl / 3 →
  let h' := rotateLoop ttl h turns in h_at h' + h_wait h' < h_minted h' + ttl.
Proof.
  intros Hh Hpos Hmax Ht h'. pose proof (rotateLoop_age ttl now h turns Hh) as Ha. fold h' in Ha. simpl in Ha.
  assert (rotate_interval ttl ≤ ttl - ttl / 3).
  { unfold rotate_interval, nanosecond in *. rewrite wrap64_id by (unfold min_int64, max_int64 in *; lia).
    rewrite Z.quot_div_nonneg by lia. assert (1 ≤ ttl * 2 / 3) by divmod. zcase. divmod. }
  lia.
Qed.

(** ** The node's heartbeat *)
Import Router.
Section heartbeat.
Context {S : Type} `{ValkeyServer S} `{!ValkeyLaws S}.
Context (Marshal : NodeInfo → option string) (Unmarshal : string → option NodeInfo).
Context (nodeID advertise public nodeHost version startedAt : string) (stamp : Z → string) (routeTTL : Z).

Definition info (now : Z) : NodeInfo := {|
  Advertise := advertise; Public := public; Hostname := nodeHost; Version := version;
  StartedAt := startedAt; LastHeartbeat := stamp now |}.

Definition heartbeat_interval : Z := let i := Z.quot routeTTL 3 in if i <=? 0 then second else i.

(** Errors are only logged. *)
Definition beat : M S unit :=
  let* t := now in let* _ := RegisterNode Marshal nodeID (info t) routeTTL in ret tt.

(** [heartbeatNode] for [n] ticks; it stops when the context ends. *)
Fixpoint heartbeat_loop (n : nat) : M S unit :=
  match n with
  | O => ret tt
  | Datatypes.S n' =>
      let* stop := sleep heartbeat_interval in
      if (stop : bool) then ret tt else let* _ := beat in heartbeat_loop n'
  end.
Definition heartbeatNode (n : nat) : M S unit := let* _ := beat in heartbeat_loop n.

(** Time that passes for the node and the server. *)
Definition later (w : world S) (d : Z) : world S :=
  World (w_now w + d) (w_vms w + d / millisecond) (w_srv w) (w_ticks w) (w_minted w) (w_done w).

(** The node's entry in the registry, with the time it has left. *)
Definition registered (w : world S) (left : Z) : Prop :=
  ∃ t b, at_key w (nodeKey nodeID) = Some (Entry (VStr b) (Some (w_vms w + left))) ∧
    Marshal (info t) = Some b ∧ is_Some (set_of (at_key w nodeSetKey)).

Lemma RegisterNode_spec t b (w : world S) : Marshal (info t) = Some b → quiet w →
  0 < prec_ms routeTTL → 0 < prec_ms (3 * routeTTL) → is_Some (set_of (at_key w nodeSetKey)) →
  ∃ w', RegisterNode Marshal nodeID (info t) routeTTL w = (Ok tt, w') ∧ quiet w' ∧
    w_now w' = w_now w ∧ w_vms w' = w_vms w ∧ w_done w' = w_done w ∧ registered w' (prec_ms routeTTL).
Proof.
  intros Hm Hq H1 H3 [[ms ex] Hs]. unfold RegisterNode. rewrite Hm. unfold bind. rewrite pipeline_quiet by done.
  assert (Hne : nodeSetKey ≠ nodeKey nodeID) by (unfold nodeSetKey, nodeKey; intros [=]).
  simpl exec_list. cbn [fst snd first_err].
  assert (E1 : ∀ s, (exec (w_vms w) (Set_ (nodeKey nodeID) b routeTTL) s).1 = ROk) by (intros s; by vk).
  rewrite E1. cbn [reply_err first_err].
  set (s1 := (exec (w_vms w) (Set_ (nodeKey nodeID) b routeTTL) (w_srv w)).2).
  assert (L1 : look s1 (w_vms w) nodeSetKey = look (w_srv w) (w_vms w) nodeSetKey) by (unfold s1; by vk).
  assert (L1' : look s1 (w_vms w) (nodeKey nodeID) = Some (Entry (VStr b) (Some (w_vms w + prec_ms routeTTL)))).
  { unfold s1. vk. simpl. unfold with_deadline. by zcase. }
  unfold at_key in Hs. rewrite <- L1 in Hs.
  rewrite (law_reply (w_vms w) (SAdd nodeSetKey nodeID) s1 nodeSetKey eq_refl). cbn [cmd_spec]. rewrite Hs. cbn [fst reply_err].
  set (s2 := (exec (w_vms w) (SAdd nodeSetKey nodeID) s1).2).
  assert (L2 : look s2 (w_vms w) nodeSetKey = Some (Entry (VSet ({[nodeID]} ∪ ms)) ex)).
  { unfold s2. rewrite (law_effect (w_vms w) (SAdd nodeSetKey nodeID) s1 nodeSetKey eq_refl). cbn [cmd_spec]. rewrite Hs. cbn [snd]. unfold set_entry.
    rewrite decide_False; [done|]. set_solver. }
  assert (L2' : look s2 (w_vms w) (nodeKey nodeID) = Some (Entry (VStr b) (Some (w_vms w + prec_ms routeTTL)))).
  { unfold s2. rewrite law_frame; [done|]. cbn [cmd_key]. congruence. }
  rewrite (law_reply (w_vms w) (PExpire nodeSetKey (3 * routeTTL)) s2 nodeSetKey eq_refl). cbn [cmd_spec]. rewrite L2.
  cbn [fst reply_err first_err].
  eexists. split; [reflexivity|]. split; [done|]. split; [done|]. split; [done|]. split; [done|].
  exists t, b. unfold at_key. cbn [w_srv w_vms with_srv]. split; [|split; [done|]].
  - rewrite law_frame; [done|]. cbn [cmd_key]. congruence.
  - rewrite (law_effect (w_vms w) (PExpire nodeSetKey (3 * routeTTL)) s2 nodeSetKey eq_refl). cbn [cmd_spec]. rewrite L2. cbn [snd]. unfold with_deadline. zcase. by eexists.
Qed.

(** The entry is there until its time is up. *)
Lemma registered_later (w : world S) left d : registered w left → 0 ≤ d → d / millisecond < left →
  registered (later w d) (left - d / millisecond).
Proof.
  intros (t & b & Hk & Hm & Hs) Hd Hl. exists t, b. unfold at_key, later in *. cbn [w_srv w_vms].
  assert (0 ≤ d / millisecond) by (unfold millisecond; apply Z.div_pos; lia).
  split; [|split; [done|]].
  - rewrite (law_time _ (w_vms w)) by lia. rewrite Hk. simpl. zcase. do 3 f_equal. lia.
  - rewrite (law_time _ (w_vms w)) by lia. destruct (look (w_srv w) (w_vms w) nodeSetKey) as [[v [e|]]|]; simpl in *; [|done..].
    zcase; [by eexists|done].
Qed.

Lemma registered_lookup (w : world S) left : quiet w → registered w left →
  (∀ t b, Marshal (info t) = Some b → Unmarshal b = Some (info t)) →
  (LookupNode Unmarshal nodeID w).1 = Ok (advertise, true).
Proof.
  intros Hq (t & b & Hk & Hm & _) Hu. unfold LookupNode, bind.
  destruct (call_spec (Get (nodeKey nodeID)) (nodeKey nodeID) w Hq eq_refl) as (w' & -> & _ & _).
  unfold spec_at. rewrite Hk. cbn. by rewrite (Hu t b Hm).
Qed.

Context (HM : ∀ t, is_Some (Marshal (info t))).

Lemma beat_spec (w : world S) : quiet w → 0 < prec_ms routeTTL → 0 < prec_ms (3 * routeTTL) →
  is_Some (set_of (at_key w nodeSetKey)) →
  ∃ w', beat w = (tt, w') ∧ quiet w' ∧ w_now w' = w_now w ∧ w_vms w' = w_vms w ∧ w_done w' = w_done w ∧
    registered w' (prec_ms routeTTL).
Proof.
  intros Hq H1 H3 Hs. destruct (HM (w_now w)) as [b Hb]. unfold beat, bind, now.
  by destruct (RegisterNode_spec (w_now w) b w Hb Hq H1 H3 Hs) as (w' & -> & Hw); exists w'.
Qed.

(** The time one tick takes of the entry's life. *)
Lemma interval_short n : 3 ≤ n → routeTTL = n * millisecond →
  0 ≤ heartbeat_interval ∧ heartbeat_interval / millisecond ≤ n / 3 ∧ n / 3 < prec_ms routeTTL ∧ 0 < prec_ms (3 * routeTTL).
Proof.
  intros Hn E. unfold heartbeat_interval. rewrite E, law_prec by lia.
  replace (3 * (n * millisecond)) with ((3 * n) * millisecond) by lia. rewrite law_prec by lia.
  unfold millisecond. rewrite Z.quot_div_nonneg by lia. assert (1 ≤ n * 1000000 / 3) by divmod. zcase. divmod.
Qed.

(** Between two heartbeats a node is always found in the registry under its advertised
    address. *)
Lemma heartbeat_keeps_node_listed n k d (w : world S) :
  3 ≤ n → routeTTL = n * millisecond → quiet w → w_done w = None →
  is_Some (set_of (at_key w nodeSetKey)) →
  (∀ t b, Marshal (info t) = Some b → Unmarshal b = Some (info t)) →
  0 ≤ d ≤ heartbeat_interval →
  let w' := (heartbeatNode k w).2 in
  w_now w' = w_now w + Z.of_nat k * heartbeat_interval ∧
  (LookupNode Unmarshal nodeID (later w' d)).1 = Ok (advertise, true).
Proof.
  intros Hn E Hq Hd Hs Hu Hdd. destruct (interval_short n Hn E) as (Hi0 & Hi1 & Hi2 & H3).
  assert (0 ≤ n / 3) by (apply Z.div_pos; lia).
  assert (Hloop : ∀ k (w : world S), quiet w → w_done w = None → registered w (prec_ms routeTTL) →
    ∃ w', heartbeat_loop k w = (tt, w') ∧ quiet w' ∧ w_now w' = w_now w + Z.of_nat k * heartbeat_interval ∧ registered w' (prec_ms routeTTL)).
  { clear w Hq Hd Hs k. induction k as [|k IH]; intros w Hq Hd Hr; [exists w; split_and!; [done|done|simpl; lia|done]|].
    assert (Hsl : sleep heartbeat_interval w = (false, later w heartbeat_interval))
      by (unfold sleep, later; destruct w; simpl in *; by subst).
    cbn [heartbeat_loop]. unfold bind at 1. rewrite Hsl.
    assert (Hl : registered (later w heartbeat_interval) (prec_ms routeTTL - heartbeat_interval / millisecond))
      by (apply registered_later; [done|done|lia]).
    destruct (beat_spec (later w heartbeat_interval)) as (w1 & E1 & Q1 & N1 & V1 & D1 & R1);
      [done|lia|done|by destruct Hl as (? & ? & _ & _ & ?)|].
    unfold bind. rewrite E1.
    destruct (IH w1 Q1) as (w2 & E2 & Q2 & N2 & R2); [by rewrite D1|done|]. exists w2. split_and!; [done|done| |done].
    rewrite N2, N1, Nat2Z.inj_succ, Z.mul_succ_l. unfold later. cbn [w_now]. lia. }
  unfold heartbeatNode, bind. destruct (beat_spec w Hq) as (w1 & -> & Q1 & N1 & V1 & D1 & R1); [lia|done|done|].
  destruct (Hloop k w1 Q1) as (w2 & -> & Q2 & N2 & R2); [by rewrite D1|done|]. rewrite <- N1. split; [done|].
  eapply registered_lookup; [done| |done]. apply registered_later; [done|lia|].
  assert (d / millisecond ≤ heartbeat_interval / millisecond); [|lia]. apply Z.div_le_mono; unfold millisecond; lia.
Qed.
End heartbeat.

(** ** Nudging phones to renew *)
Class WatchDeps (B CertInfo : Type) := {
  wd_ConnectedNames : B → list string * B;
  wd_CertInfo : string → B → result unit CertInfo * B;         (* [GetName], then [CertInfo] *)
  wd_ShouldRenew : CertInfo → B → result unit (bool * Z) * B;
  wd_nonce : B → result unit string * B;
  wd_SendRenewNudge : string → string → Z → B → B
}.

Inductive watched := StoreFails | DateFails | NotDue | NonceFails | Nudged (nonceHex : string) (at_ : Z).

Section watcher.
Context {B CertInfo : Type} `{WatchDeps B CertInfo}.

Definition watch_one (name : string) (b : B) : watched * B :=
  let '(r, b) := wd_CertInfo name b in
  match r with
  | Err _ => (StoreFails, b)
  | Ok cert =>
      let '(r, b) := wd_ShouldRenew cert b in
      match r with
      | Err _ => (DateFails, b)
      | Ok (false, _) => (NotDue, b)
      | Ok (true, at_) =>
          let '(r, b) := wd_nonce b in
          match r with
          | Err _ => (NonceFails, b)
          | Ok nonceHex => (Nudged nonceHex at_, wd_SendRenewNudge name nonceHex at_ b)
          end
      end
  end.

Fixpoint watch_all (names : list string) (b : B) : list (string * watched) * B :=
  match names with
  | [] => ([], b)
  | name :: names' =>
      let '(r, b) := watch_one name b in
      let '(rs, b) := watch_all names' b in ((name, r) :: rs, b)
  end.

Definition tick (b : B) : list (string * watched) * B :=
  let '(names, b) := wd_ConnectedNames b in watch_all names b.

(** No failure for one tunnel keeps the next from being looked at. *)
Lemma tick_visits_all b : (tick b).1.*1 = (wd_ConnectedNames b).1.
Proof.
  unfold tick. destruct (wd_ConnectedNames b) as [names b1]. simpl. clear b. revert b1.
  induction names as [|name names IH]; intros b; simpl; [done|].
  destruct (watch_one name b) as [r b1]. specialize (IH b1). destruct (watch_all names b1) as [rs b2]. cbn in *. by f_equal.
Qed.
End watcher.

(** ** Examples *)
#[export] Instance sample_drain : DrainDeps (nat * Z) := {
  dd_ended _ := false;
  dd_timer _ b := (true, b);
  dd_LiveNodes b := (Ok ∅, b);
  dd_StartDrain _ b := b;
  dd_RetryMoves b := b;
  dd_LiveConns b := (b.2, b);
  dd_InFlightConns b := (0, b);
  dd_InFlightIssues b := (0, b);
  dd_select b := match b.1 with O => (WDeadline, b) | S n => (WTick, (n, b.2)) end
}.

Lemma drain_ends_witness : ∃ r, (drain_loop 4 [] (3%nat, 1)).1.1 = Some r.
Proof.
  apply (drain_ends fst). split_and!; [|done|].
  - intros [[|n] z] b'; simpl; [done|]. intros [= <-]. simpl. lia.
  - intros [n z]. unfold idle_check. simpl. by destruct (z =? 0).
Defined.

(** A three-day certificate, minted at 0: twenty failures of five minutes. *)
Lemma mesh_cert_never_lapses_witness :
  let h' := rotateLoop (72 * hour) (Holder 0 (48 * hour) 0) (repeat (second, false) 20) in
  h_minted h' = 0 ∧ h_at h' + h_wait h' < 72 * hour.
Proof.
  intros h'. split; [reflexivity|].
  apply (mesh_cert_never_lapses (72 * hour) 0 (Holder 0 (48 * hour) 0) (repeat (second, false) 20)); by vm_compute.
Defined.

Definition sample_marshal (i : NodeInfo) : option string := Some (Router.LastHeartbeat i).
Definition sample_unmarshal (s : string) : option NodeInfo :=
  Some {| Advertise := "n1:9443"; Public := "n1:443"; Hostname := "n1"; Version := "1"; StartedAt := "0"; LastHeartbeat := s |}.

Lemma heartbeat_keeps_node_listed_witness :
  let w' := (heartbeatNode sample_marshal "n1" "n1:9443" "n1:443" "n1" "1" "0" FormatInt (30 * second) 5 sample_world).2 in
  (LookupNode sample_unmarshal "n1" (later w' (9 * second))).1 = Ok ("n1:9443", true).
Proof.
  refine (proj2 (heartbeat_keeps_node_listed sample_marshal sample_unmarshal "n1" "n1:9443" "n1:443" "n1" "1" "0" FormatInt
            (30 * second) _ 30000 5 (9 * second) sample_world _ _ _ _ _ _ _)).
  - by eexists.
  - done.
  - done.
  - done.
  - done.
  - by eexists.
  - intros t b [= <-]. done.
  - by vm_compute.
Defined.
End ServerLoop.
