(* ===== verification/Names.v ===== *)
(** * Tunnel names

    The generator of [internal/ca/name.go] (random base32 behind a prefix, never
    a reserved label), the check [validNameFunc] of [internal/server/serve.go]
    that a certificate's name could be one, and [firstLabel] of [node.go] that
    turns the service's own hosts into reserved labels.

    A draw of the random source is an argument; Unicode case folding of a label
    that is not ASCII is a parameter. *)
From Stdlib Require Import ZArith Lia Ascii String Strings.Byte.
From S2P Require Import Prelude GoStr.
Local Open Scope string_scope.
Local Open Scope list_scope.
Local Open Scope Z_scope.

Module Names.

(** ** base32 *)
Definition byte_bits (b : byte) : list bool := map (Z.testbit (bZ b)) [7; 6; 5; 4; 3; 2; 1; 0].

Definition bits_value (l : list bool) : Z := fold_left (λ n b, 2 * n + b2z b) l 0.

Definition base32_char (v : Z) : ascii := Zc (if v <? 26 then 65 + v else 50 + (v - 26)).

(** Five bits a character, the last ones padded with zeros. *)
Fixpoint encode_bits (l : list bool) : string :=
  match l with
  | [] => ""
  | a :: b :: c :: d :: e :: l' => String (base32_char (bits_value [a; b; c; d; e])) (encode_bits l')
  | _ => String (base32_char (bits_value (l ++ repeat false (5 - length l)))) ""
  end.

Definition EncodeToString (buf : bytes) : string := encode_bits (concat (map byte_bits buf)).

(** ** The generator *)
Definition reserved : list string :=
  ["enroll"; "connect"; "tunnel"; "grafana"; "prometheus"; "alertmanager"; "ntfy"; "www"; "api"; "admin"].

Definition label_byte (c : ascii) : bool :=
  ((97 <=? cZ c) && (cZ c <=? 122)) || ((48 <=? cZ c) && (cZ c <=? 57)) || Ascii.eqb c "-".
Definition labelRe (s : string) : bool :=
  (1 <=? String.length s)%nat && (String.length s <=? 63)%nat && str_forall label_byte s.

Inductive name_error := RandFails | NoName.

Section names.
Context `{UnicodeCase} (unicode_fold : string → string → bool).

Definition EqualFold (s t : string) : bool :=
  if str_forall is_ascii_byte s && str_forall is_ascii_byte t
  then String.eqb (str_map lower_byte s) (str_map lower_byte t) else unicode_fold s t.

Definition isExtraReserved (name : string) (extra : list string) : bool := existsb (EqualFold name) extra.

Definition name_bytes (length : Z) : Z := Z.quot (length * 5 + 7) 8.

(** One attempt with the bytes it drew: [None] to try again. *)
Definition candidate (prefix : string) (length : nat) (extra : list string) (buf : bytes) : option string :=
  let enc := ToLower (EncodeToString buf) in
  if (String.length enc <? length)%nat then None
  else
    let name := prefix +:+ str_take length enc in
    if existsb (String.eqb name) reserved || isExtraReserved name extra || negb (labelRe name) then None
    else Some name.

(** [draw] are the successive reads of the random source. *)
Fixpoint generate_tries (n : nat) (prefix : string) (length : nat) (extra : list string) (draw : nat → option bytes)
    : result name_error string :=
  match n with
  | O => Err NoName
  | S n' =>
      match draw (8 - n)%nat with
      | None => Err RandFails
      | Some buf =>
          match candidate prefix length extra buf with
          | Some name => Ok name
          | None => generate_tries n' prefix length extra draw
          end
      end
  end.

Definition generateName (prefix : string) (length : nat) (extra : list string) (draw : nat → option bytes)
    : result name_error string := generate_tries 8 prefix length extra draw.

(** ** Reserved labels and the check of a certificate's name *)
Definition firstLabel (host : string) : string :=
  let host := match IndexByte host ":" with Some i => str_take i host | None => host end in
  let host := match IndexByte host "." with Some i => str_take i host | None => host end in
  ToLower host.

Definition name_byte (c : ascii) : bool :=
  negb (((cZ c <? 97) || (122 <? cZ c)) && ((cZ c <? 50) || (55 <? cZ c))).

Definition validNameFunc (namePrefix : string) (nameLength : nat) (enrollHost controlHost name : string) : bool :=
  let el := firstLabel enrollHost in
  let cl := firstLabel controlHost in
  if negb (String.length name =? String.length namePrefix + nameLength)%nat then false
  else if negb (String.eqb (str_take (String.length namePrefix) name) namePrefix) then false
  else if String.eqb name el || String.eqb name cl then false
  else str_forall name_byte (str_drop (String.length namePrefix) name).

(** ** Generated names are valid *)
Lemma bits_value_range l : 0 ≤ bits_value l < 2 ^ Z.of_nat (length l).
Proof.
  unfold bits_value. induction l as [|b l IH] using rev_ind; [done|].
  rewrite fold_left_app, length_app. simpl. rewrite Nat2Z.inj_add, Z.pow_add_r by lia. destruct b; simpl; lia.
Qed.

Lemma base32_char_name v : 0 ≤ v < 32 → name_byte (lower_byte (base32_char v)) = true ∧ is_ascii_byte (base32_char v) = true.
Proof.
  intros Hv. assert (∃ n, (n < 32)%nat ∧ v = Z.of_nat n) as (n & Hn & ->) by (exists (Z.to_nat v); lia).
  do 32 (destruct n as [|n]; [by vm_compute|]). lia.
Qed.

Lemma encode_bits_name l : str_forall name_byte (str_map lower_byte (encode_bits l)) = true ∧
  str_forall is_ascii_byte (encode_bits l) = true.
Proof.
  assert (Hc : ∀ l : list bool, length l = 5%nat → 0 ≤ bits_value l < 32).
  { intros l' E. pose proof (bits_value_range l') as Hr. rewrite E in Hr. exact Hr. }
  assert (∀ n l, (length l < n)%nat → str_forall name_byte (str_map lower_byte (encode_bits l)) = true ∧
    str_forall is_ascii_byte (encode_bits l) = true) as Hgen; [|apply (Hgen (S (length l))); lia].
  clear l. induction n as [|n IH]; intros l Hl; [lia|].
  destruct l as [|a [|b [|c [|d [|e l]]]]]; [done| | | | |].
  1-4: cbn [encode_bits str_map str_forall];
    match goal with |- context [base32_char (bits_value ?x)] => destruct (base32_char_name _ (Hc x eq_refl)) as [-> ->] end; done.
  cbn [encode_bits str_map str_forall]. destruct (base32_char_name _ (Hc [a; b; c; d; e] eq_refl)) as [-> ->].
  apply IH. simpl in Hl. lia.
Qed.

Lemma ToLower_base32 buf : ToLower (EncodeToString buf) = str_map lower_byte (EncodeToString buf).
Proof. unfold ToLower, EncodeToString. by rewrite (proj2 (encode_bits_name _)). Qed.

Lemma EqualFold_refl s : str_forall is_ascii_byte s = true → EqualFold s s = true.
Proof. intros Hs. unfold EqualFold. rewrite Hs. simpl. by apply String.eqb_refl. Qed.

Lemma label_ascii c : label_byte c = true → is_ascii_byte c = true.
Proof. destruct c as [[] [] [] [] [] [] [] []]; vm_compute; congruence. Qed.

Lemma str_forall_take p n s : str_forall p s = true → str_forall p (str_take n s) = true.
Proof.
  revert s. induction n as [|n IH]; intros [|c s]; simpl; auto. intros [-> ?]%andb_prop. simpl. by apply IH.
Qed.

Lemma str_take_length n s : (n ≤ String.length s)%nat → String.length (str_take n s) = n.
Proof. revert s. induction n as [|n IH]; intros [|c s]; simpl; try lia. intros. rewrite IH; lia. Qed.

Lemma candidate_valid prefix length enrollHost controlHost buf name :
  candidate prefix length [firstLabel enrollHost; firstLabel controlHost] buf = Some name →
  validNameFunc prefix length enrollHost controlHost name = true ∧ labelRe name = true ∧ name ∉ reserved.
Proof.
  unfold candidate. destruct (Nat.ltb_spec (String.length (ToLower (EncodeToString buf))) length) as [|Hlen]; [done|].
  set (nm := prefix +:+ str_take length (ToLower (EncodeToString buf))).
  destruct (existsb (String.eqb nm) reserved) eqn:Hr; [done|]. rewrite orb_false_l.
  destruct (isExtraReserved nm [firstLabel enrollHost; firstLabel controlHost]) eqn:He; [done|]. rewrite orb_false_l. destruct (labelRe nm) eqn:Hl; [|done]. intros [= <-].
  assert (Hascii : str_forall is_ascii_byte nm = true).
  { unfold labelRe in Hl. apply andb_prop in Hl as [_ Hl]. by eapply str_forall_impl; [apply label_ascii|]. }
  assert (Hne : ∀ e, e ∈ [firstLabel enrollHost; firstLabel controlHost] → nm ≠ e).
  { intros e Hin <-. unfold isExtraReserved in He. apply not_true_iff_false in He. apply He, existsb_exists.
    exists nm. split; [by apply list_elem_of_In|]. by apply EqualFold_refl. }
  split; [|split; [done|]].
  - assert (Hnl : String.length nm = (String.length prefix + length)%nat)
      by (unfold nm; rewrite str_length_app, str_take_length; done).
    assert (Hp : str_take (String.length prefix) nm = prefix) by (unfold nm; apply str_take_app).
    assert (Hd : str_forall name_byte (str_drop (String.length prefix) nm) = true).
    { unfold nm. rewrite str_drop_app, ToLower_base32. apply str_forall_take, encode_bits_name. }
    unfold validNameFunc. rewrite Hnl, Nat.eqb_refl, Hp, String.eqb_refl, Hd.
    rewrite (proj2 (String.eqb_neq nm (firstLabel enrollHost))) by (apply Hne; by constructor).
    by rewrite (proj2 (String.eqb_neq nm (firstLabel controlHost))) by (apply Hne; by repeat constructor).
  - intros Hin. apply not_true_iff_false in Hr. apply Hr, existsb_exists. exists nm.
    split; [by apply list_elem_of_In|apply String.eqb_refl].
Qed.

(** A name the generator returns passes the check of certificate names, is a DNS label,
    and is neither a reserved label nor the label of one of the service's own hosts. *)
Lemma generated_name_valid prefix length enrollHost controlHost draw name :
  generateName prefix length [firstLabel enrollHost; firstLabel controlHost] draw = Ok name →
  validNameFunc prefix length enrollHost controlHost name = true ∧ labelRe name = true ∧ name ∉ reserved.
Proof.
  unfold generateName. generalize 8%nat at 1. intros n. induction n as [|n IH]; simpl; [done|].
  destruct (draw _) as [buf|]; [|done]. destruct (candidate _ _ _ buf) as [nm|] eqn:E; [|done].
  intros [= <-]. by eapply candidate_valid.
Qed.

(** The bytes drawn are always enough for the characters wanted, so an attempt
    fails only for a name that is reserved or no label. *)
Lemma encode_bits_length l : (length l ≤ 5 * String.length (encode_bits l))%nat.
Proof.
  assert (∀ n l, (length l < n)%nat → (length l ≤ 5 * String.length (encode_bits l))%nat) as Hgen; [|apply (Hgen (S (length l))); lia].
  clear l. induction n as [|n IH]; intros l Hl; [lia|].
  destruct l as [|a [|b [|c [|d [|e l]]]]]; simpl in *; try lia. specialize (IH l). lia.
Qed.

Lemma enough_bytes length buf : 0 ≤ length → Z.of_nat (List.length buf) = name_bytes length →
  (Z.to_nat length ≤ String.length (ToLower (EncodeToString buf)))%nat.
Proof.
  intros Hl Hb. rewrite ToLower_base32.
  assert (Hm : ∀ s, String.length (str_map lower_byte s) = String.length s) by (induction s; simpl; auto).
  rewrite Hm. unfold EncodeToString. pose proof (encode_bits_length (concat (map byte_bits buf))) as He.
  assert (List.length (concat (map byte_bits buf)) = 8 * List.length buf)%nat as Hc.
  { clear. induction buf as [|b buf IH]; [done|]. cbn [map concat]. rewrite length_app, IH. unfold byte_bits.
    rewrite length_map. simpl. lia. }
  rewrite Hc in He. unfold name_bytes in Hb. rewrite Z.quot_div_nonneg in Hb by lia.
  assert (length * 5 ≤ 8 * Z.of_nat (List.length buf)) by (rewrite Hb; divmod). lia.
Qed.

(** A reserved label that is as long as a generated name passes the check,
    although no draw can give it. *)
Lemma reserved_label_passes : validNameFunc "" 10 "enroll.example" "control.example" "prometheus" = true ∧
  ∀ extra draw, generateName "" 10 extra draw ≠ Ok "prometheus".
Proof.
  split; [by vm_compute|]. intros extra draw. unfold generateName. generalize 8%nat at 1. intros n.
  induction n as [|n IH]; cbn [generate_tries]; [done|]. destruct (draw _) as [buf|]; [|done].
  destruct (candidate _ _ _ buf) as [nm|] eqn:E; [|done]. intros [= ->]. unfold candidate in E.
  destruct (_ <? _)%nat; [done|]. revert E. generalize ("" +:+ str_take 10 (ToLower (EncodeToString buf))).
  intros nm. destruct (existsb (String.eqb nm) reserved) eqn:Ho; [done|]. destruct (_ || _); [done|].
  intros [= ->]. by vm_compute in Ho.
Qed.
End names.

Definition sample_draw (i : nat) : option bytes := Some (repeat x00 7).

Lemma generated_name_valid_witness :
  @validNameFunc ascii_only_case "t-" 10 "enroll.example:443" "control.example" "t-aaaaaaaaaa" = true ∧
  labelRe "t-aaaaaaaaaa" = true ∧ "t-aaaaaaaaaa" ∉ reserved.
Proof.
  apply (@generated_name_valid ascii_only_case String.eqb "t-" 10 "enroll.example:443" "control.example" sample_draw).
  by vm_compute.
Defined.
End Names.
