(* ===== verification/EnrollHTTP.v ===== *)
(** * The enrollment HTTP handler

    [internal/enroll/http.go]: the routes of the enrollment host in front of the
    service of [Enroll], with their order of checks (the source address, the ban,
    the drain, the read-only limit, the nonce for the follow-up request, then the
    enrollment itself) and the mapping of errors to statuses.

    Reading JSON, PEM and X.509 is a parameter of the handler; hexadecimal is
    modelled. *)
From Stdlib Require Import ZArith Lia Ascii String Strings.Byte.
From S2P Require Import Prelude GoStr GoFloat Valkey Limiter Attest Enroll Challenges.
Local Open Scope string_scope.
Local Open Scope list_scope.
Local Open Scope Z_scope.

Module EnrollHTTP.
Import ValkeyClient Limiter Enroll GoFloat.

(** ** Hexadecimal *)
Definition fromHexChar (c : ascii) : option Z :=
  if (48 <=? cZ c) && (cZ c <=? 57) then Some (cZ c - 48)
  else if (97 <=? cZ c) && (cZ c <=? 102) then Some (cZ c - 97 + 10)
  else if (65 <=? cZ c) && (cZ c <=? 70) then Some (cZ c - 65 + 10)
  else None.

(** [hex.DecodeString]: an odd length is an error. *)
Fixpoint decodeHex (s : string) : option bytes :=
  match s with
  | "" => Some []
  | String a (String b s') =>
      match fromHexChar a, fromHexChar b, decodeHex s' with
      | Some h, Some l, Some r => Some (Zb (h * 16 + l) :: r)
      | _, _, _ => None
      end
  | String _ "" => None
  end.

(** ** Requests and answers *)
Record http_request := Req {
  rq_method : string; rq_path : string; rq_remote : string;
  rq_body : option bytes                        (* [None]: reading it fails *)
}.

Record enrollRequestBody := MkBody { rb_Nonce : string; rb_AttestChainPEM : bytes; rb_IdentityCSR : bytes }.

Inductive answer :=
| AText (s : string)
| ANotFound
| ANonce (nonce : string)
| AEnrolled (name identityCert issueNonce : string)
| AError (reason : string) (retryable : bool) (retryAfter : Z).

(** What the recorder is told. *)
Inductive metric := MReject (reason tunnel ip : string) | MEnrollment (result_ : string).

Record response := Resp {
  rs_status : Z;
  rs_answer : answer;
  rs_close : bool;                              (* Connection: close *)
  rs_refused : bool;                            (* [report.Refuse] was called *)
  rs_metrics : list metric
}.

Definition drainingRetryAfterSeconds : Z := 1.

Definition statusForError (e : Error) : Z :=
  if String.eqb (Reason e) "unauthorized" then 401
  else if Retryable e then 503
  else 400.

Definition writeError (status : Z) (reason : string) (retryable : bool) (retryAfter : Z) : response :=
  Resp status (AError reason retryable retryAfter) false (refusal reason) [].

(** [d.Seconds()]: whole seconds and the rest, added as floats. *)
Definition Seconds (d : Z) : float64 :=
  fadd (of_int (Z.quot d second)) (fdiv (of_int (Z.rem d second)) (of_int 1000000000)).

Definition writeErr `{FloatLib} (e : Error) (status : Z) : response :=
  writeError status (Reason e) (Retryable e) (if 0 <? RetryAfter e then to_int (Seconds (RetryAfter e)) else 0).

Definition with_metrics (r : response) (ms : list metric) : response :=
  Resp (rs_status r) (rs_answer r) (rs_close r) (rs_refused r) (ms ++ rs_metrics r).

Definition peerIP (remoteAddr : string) : string :=
  match Challenges.SplitHostPort remoteAddr with Some (host, _) => host | None => remoteAddr end.

(** ** Certificates in a request *)
Section pem.
Context {C : Type} (pem_Decode : bytes → option (bytes * bytes)) (ParseCertificate : bytes → option C).

(** The blocks one after another; every block takes some of the input, so as
    many rounds as there are bytes see them all. *)
Fixpoint pem_loop (fuel : nat) (rest : bytes) (chain : list C) : option (list C) :=
  match fuel with
  | O => Some chain
  | S fuel =>
      match pem_Decode rest with
      | None => Some chain
      | Some (block, rest) =>
          match ParseCertificate block with
          | None => None
          | Some c => pem_loop fuel rest (chain ++ [c])
          end
      end
  end.
Definition parsePEMChain (pemBytes : bytes) : option (list C) := pem_loop (S (length pemBytes)) pemBytes [].

Definition parseCSR {R} (ParseCertificateRequest : bytes → option R) (pemBytes : bytes) : option R :=
  ParseCertificateRequest match pem_Decode pemBytes with Some (block, _) => block | None => pemBytes end.
End pem.

Definition newline : string := String "010"%char "".

(** ** The handler *)
Record lifecycle := Life { Stopping : bool; Draining : bool }.

Section handler.
Context {S N K : Type} `{ValkeyServer S} `{TokenSupply} `{NameStore N} `{FloatLib}.
Context (cfg : Config) (ParseAddr : string → option string).
Context (verify : list (Attest.Certificate K) → bytes → Z → result Attest.attest_error (Attest.Result K)).
Context (key_equal : K → K → bool) (keyFingerprint : K → string).
Context (sign : CSR K → string → result sign_error string).
Context (Unmarshal : bytes → option enrollRequestBody).
Context (pem_Decode : bytes → option (bytes * bytes)) (ParseCertificate : bytes → option (Attest.Certificate K)).
Context (ParseCertificateRequest : bytes → option (CSR K)).
Context (ban : option (string → bool)) (maxBody : nat) (life : lifecycle).

Abbreviation svc_enrollLimit := (enrollLimit (S := S) (N := N) cfg ParseAddr).
Abbreviation svc_enrollLimitCheck := (enrollLimitCheck (S := S) (N := N) cfg ParseAddr).
Abbreviation svc_Enroll := (Enroll (S := S) (N := N) cfg ParseAddr verify key_equal keyFingerprint sign).

Definition refuseDraining : option response :=
  if negb (Draining life) then None
  else Some (let r := writeError 503 "draining" true drainingRetryAfterSeconds in
             Resp (rs_status r) (rs_answer r) true (rs_refused r) (rs_metrics r)).

Definition handleHealth : response :=
  if Stopping life then Resp 503 (AText ("stopping" +:+ newline)) false false []
  else Resp 200 (AText ("ok" +:+ newline)) false false [].

(** [fresh] are the bytes [Nonce] reads off the random source. *)
Definition handleNonce (fresh : bytes) (ip : string) : E S N response :=
  let+ e := svc_enrollLimit ip in
  match e with
  | Some e => eret (writeErr e (if String.eqb (Reason e) "enroll_rate" then 429 else statusForError e))
  | None =>
      let+ n := valkey (Nonce fresh) in
      eret match n with
           | Err _ => writeError 503 "internal" true 0
           | Ok nonce => Resp 200 (ANonce (hex_encode nonce)) false false []
           end
  end.

(** The checks of the body that reach nothing outside the request. The service's
    request has a second CSR that an enrollment does not read. *)
Definition parse_enroll (body : option bytes) : result string (Request K) :=
  match body with
  | None => Err "bad_request"
  | Some body =>
      match Unmarshal (take maxBody body) with
      | None => Err "bad_json"
      | Some req =>
          match decodeHex (rb_Nonce req) with
          | None => Err "bad_nonce"
          | Some nonce =>
              match parsePEMChain pem_Decode ParseCertificate (rb_AttestChainPEM req) with
              | None => Err "bad_attestation_chain"
              | Some chain =>
                  match parseCSR pem_Decode ParseCertificateRequest (rb_IdentityCSR req) with
                  | None => Err "bad_identity_csr"
                  | Some idCSR => Ok (MkRequest nonce chain idCSR idCSR)
                  end
              end
          end
      end
  end.

Definition handleEnroll (fresh : bytes) (gen : nat → option string) (body : option bytes) (ip : string) : E S N response :=
  match parse_enroll body with
  | Err reason => eret (writeError 400 reason false 0)
  | Ok req =>
      let+ e := svc_enrollLimitCheck ip in
      match e with
      | Some e => eret (with_metrics (writeErr e (statusForError e)) [MEnrollment (Reason e)])
      | None =>
          let+ n := valkey (Nonce fresh) in
          match n with
          | Err _ => eret (with_metrics (writeError 503 "internal" true 0) [MEnrollment "internal"])
          | Ok issueNonce =>
              let+ res := svc_Enroll ip gen req in
              eret match res with
                   | Err ee => with_metrics (writeErr ee (statusForError ee)) [MEnrollment (Reason ee)]
                   | Ok res => Resp 200 (AEnrolled (Name_ res) (IdentityCert res) (hex_encode issueNonce))
                                 false false [MEnrollment "ok"]
                   end
          end
      end
  end.

Definition banned (addr : string) : bool := match ban with Some f => f addr | None => false end.

Definition ServeHTTP (fresh : bytes) (gen : nat → option string) (r : http_request) : E S N response :=
  let ip := peerIP (rq_remote r) in
  match ParseAddr ip with
  | None => eret (writeError 400 "bad_source_ip" false 0)
  | Some addr =>
      if banned addr then eret (with_metrics (writeError 403 "banned" false 0) [MReject "ban" "" ip])
      else if String.eqb (rq_method r) "GET" && String.eqb (rq_path r) "/api/v1/health" then eret handleHealth
      else if String.eqb (rq_method r) "GET" && String.eqb (rq_path r) "/api/v1/enroll/nonce" then
        match refuseDraining with Some d => eret d | None => handleNonce fresh ip end
      else if String.eqb (rq_method r) "POST" && String.eqb (rq_path r) "/api/v1/enroll" then
        match refuseDraining with Some d => eret d | None => handleEnroll fresh gen (rq_body r) ip end
      else eret (Resp 404 ANotFound false false [])
  end.
End handler.

(** ** Hexadecimal round trip *)
Lemma fromHexChar_digit d : 0 ≤ d < 16 → fromHexChar (hex_digit d) = Some d.
Proof.
  intros Hd. assert (∃ n, (n < 16)%nat ∧ d = Z.of_nat n) as (n & Hn & ->) by (exists (Z.to_nat d); lia).
  do 16 (destruct n as [|n]; [by vm_compute|]). lia.
Qed.

Lemma decodeHex_encode b : decodeHex (hex_encode b) = Some b.
Proof.
  induction b as [|x b IH]; [done|]. cbn [hex_encode decodeHex]. pose proof (bZ_range x) as Hx.
  rewrite !fromHexChar_digit, IH by (split; [apply Z.div_pos || apply Z.mod_pos_bound|
    apply Z.div_lt_upper_bound || apply Z.mod_pos_bound]; lia).
  f_equal. f_equal. rewrite <- (Zb_bZ x) at 3. f_equal. pose proof (Z.div_mod (bZ x) 16). lia.
Qed.

Lemma hex_encode_inj a b : hex_encode a = hex_encode b → a = b.
Proof. intros E. pose proof (decodeHex_encode a) as Ha. rewrite E, decodeHex_encode in Ha. by simplify_eq. Qed.

Lemma nonceKey_inj a b : a ≠ b → nonceKey (hex_encode a) ≠ nonceKey (hex_encode b).
Proof. intros Hne E. by apply Hne, hex_encode_inj, (str_app_inv_l "enroll-nonce:"). Qed.

(** ** What a run leaves alone

    [ekeeps k c]: in an undisturbed world the program leaves the key [k], the
    server's clock and the script as they were. *)
Section keeping.
Context {S N : Type} `{ValkeyServer S} `{!ValkeyLaws S}.

Definition kept (k : string) (w w' : world S) : Prop :=
  quiet w' ∧ w_vms w' = w_vms w ∧ at_key w' k = at_key w k.
Definition keeps {A} (k : string) (c : M S A) : Prop := ∀ w, quiet w → kept k w (c w).2.
Definition ekeeps {A} (k : string) (c : E S N A) : Prop := ∀ st, quiet (e_w st) → kept k (e_w st) (e_w (c st).2).

#[export] Instance kept_trans k : Transitive (kept k).
Proof. intros w1 w2 w3 (? & ? & ?) (? & ? & ?). split; [done|]. split; congruence. Qed.

Lemma preserves_ret {A} k (a : A) : keeps k (ret a).
Proof. by intros w. Qed.
Lemma preserves_now k : keeps k now.
Proof. by intros w. Qed.
Lemma preserves_bind {A B} k (c : M S A) (f : A → M S B) : keeps k c → (∀ a, keeps k (f a)) → keeps k (bind c f).
Proof.
  intros Hc Hf w Hq. unfold bind. specialize (Hc w Hq). destruct (c w) as [a w']. simpl in *.
  etrans; [exact Hc|]. apply Hf, Hc.
Qed.
Lemma preserves_call k c k' : cmd_key c = Some k' → k' ≠ k → keeps k (call c).
Proof.
  intros Hc Hne w Hq. destruct (call_spec c k' w Hq Hc) as (w' & -> & [] & _). simpl.
  split; [done|]. split; [done|]. by apply frame_keys0, not_eq_sym.
Qed.
Lemma preserves_get k k' : keeps k (call (Get k')).
Proof.
  intros w Hq. destruct (decide (k' = k)) as [->|]; [|by apply (preserves_call k _ k')].
  destruct (call_spec (Get k) k w Hq eq_refl) as (w' & -> & [] & E). by split.
Qed.
Lemma preserves_pipeline k cs k' : Forall (λ c, cmd_key c = Some k') cs → k' ≠ k → keeps k (pipeline cs).
Proof.
  intros Hc Hne w Hq. destruct (pipeline_spec cs k' w Hq Hc) as (w' & -> & [] & _). simpl.
  split; [done|]. split; [done|]. by apply frame_keys0, not_eq_sym.
Qed.

Lemma ekeeps_ret {A} k (a : A) : ekeeps k (eret a).
Proof. by intros st. Qed.
Lemma ekeeps_bind {A B} k (c : E S N A) (f : A → E S N B) : ekeeps k c → (∀ a, ekeeps k (f a)) → ekeeps k (ebind c f).
Proof.
  intros Hc Hf st Hq. unfold ebind. specialize (Hc st Hq). destruct (c st) as [a st']. simpl in *.
  etrans; [exact Hc|]. apply Hf, Hc.
Qed.
Lemma ekeeps_valkey {A} k (c : M S A) : keeps k c → ekeeps k (valkey c).
Proof. intros Hc st Hq. unfold valkey. specialize (Hc _ Hq). by destruct (c (e_w st)). Qed.
Lemma ekeeps_names {A} k (f : N → A * N) : ekeeps k (names f).
Proof. intros st Hq. unfold names. by destruct (f _). Qed.
Lemma ekeeps_report k e : ekeeps k (report e).
Proof. by intros st. Qed.
End keeping.

Create HintDb keep.

Ltac keep_step :=
  match goal with
  | |- ekeeps _ (eret _) => apply ekeeps_ret
  | |- ekeeps _ (names _) => apply ekeeps_names
  | |- ekeeps _ (report _) => apply ekeeps_report
  | |- ekeeps _ (valkey _) => apply ekeeps_valkey
  | |- ekeeps _ (ebind _ _) => apply ekeeps_bind; [|intros ?]
  | |- keeps _ (ret _) => apply preserves_ret
  | |- keeps _ now => apply preserves_now
  | |- keeps _ (call (Get _)) => apply preserves_get
  | |- keeps _ (bind _ _) => apply preserves_bind; [|intros ?]
  | |- context [match ?x with _ => _ end] => destruct x
  end.
Ltac keep := repeat keep_step.

(** Keys of the three kinds an enrollment writes. *)
Lemma window_not_nonce scope ip t b : windowKey scope ip t ≠ nonceKey b.
Proof. unfold windowKey, nonceKey. intros [=]. Qed.
Lemma claim_not_nonce n b : claimLockKey n ≠ nonceKey b.
Proof. unfold claimLockKey, nonceKey. intros [=]. Qed.
#[export] Hint Resolve window_not_nonce claim_not_nonce : keep.

(** The registry's documented read-after-write. *)
Class NameStoreLaws (N : Type) `{NameStore N} : Prop :=
  ns_put_get : ∀ name rec n n', ns_put name rec n = (true, n') → (ns_get name n').1 = Ok rec.

Section enrollment.
Context {S N K : Type} `{ValkeyServer S} `{!ValkeyLaws S} `{TokenSupply} `{NameStore N}.
Context (cfg : Config) (ParseAddr : string → option string).
Context (verify : list (Attest.Certificate K) → bytes → Z → result Attest.attest_error (Attest.Result K)).
Context (key_equal : K → K → bool) (keyFingerprint : K → string).
Context (sign : CSR K → string → result sign_error string).

Abbreviation enroll := (Enroll (S := S) (N := N) cfg ParseAddr verify key_equal keyFingerprint sign).

Lemma Allow_keeps_nonce b scope ip limit window : keeps (S := S) (nonceKey b) (Allow scope ip limit window).
Proof.
  unfold Allow. keep. eapply preserves_pipeline; [by repeat constructor|]. auto with keep.
Qed.

Lemma Over_keeps k scope ip limit window : keeps (S := S) k (Over scope ip limit window).
Proof. unfold Over. keep. Qed.

Lemma enrollLimit_keeps b ip : ekeeps (S := S) (N := N) (nonceKey b) (enrollLimit cfg ParseAddr ip).
Proof. unfold enrollLimit. keep; apply Allow_keeps_nonce. Qed.

Lemma enrollLimitCheck_keeps k ip : ekeeps (S := S) (N := N) k (enrollLimitCheck cfg ParseAddr ip).
Proof. unfold enrollLimitCheck. keep; apply Over_keeps. Qed.

Lemma enrollLimitCheck_names ip (st : est S N) : e_names (enrollLimitCheck cfg ParseAddr ip st).2 = e_names st.
Proof.
  unfold enrollLimitCheck, ebind, valkey, report, eret. destruct (ParseAddr ip); [|done].
  destruct (Over _ _ _ _ _) as [[[[] ra]|] w1]; cbn [fst snd e_w e_names e_trace]; try done;
    destruct (Over _ _ _ _ w1) as [[[[] ra']|] w2]; done.
Qed.

(** What a limit refuses with, and that it leaves the registry alone. *)
Lemma enrollLimitCheck_refuses ip addr (st : est S N) e : ParseAddr ip = Some addr →
  (enrollLimitCheck cfg ParseAddr ip st).1 = Some e → ∃ ra, e = MkError "enroll_rate" true ra.
Proof.
  unfold enrollLimitCheck, ebind, valkey, report, eret. intros ->.
  repeat case_match; intros [= <-]; by eexists.
Qed.
Lemma enrollLimit_refuses ip addr (st : est S N) : ParseAddr ip = Some addr →
  e_names (enrollLimit cfg ParseAddr ip st).2 = e_names st ∧
  ∀ e, (enrollLimit cfg ParseAddr ip st).1 = Some e → ∃ ra, e = MkError "enroll_rate" true ra.
Proof.
  unfold enrollLimit, ebind, valkey, report, eret. intros ->.
  repeat case_match; simplify_eq; (split; [done|]); intros e [= <-]; by eexists.
Qed.

Lemma attest_keeps k ip name req : ekeeps (S := S) (N := N) k (attestAndBind cfg verify key_equal ip name req).
Proof. unfold attestAndBind, recordRejection. keep. Qed.

Lemma claimName_keeps b gen rec : ekeeps (S := S) (N := N) (nonceKey b) (claimName cfg gen rec).
Proof.
  unfold claimName. generalize claimAttempts at 1 as n. induction n as [|n IH]; cbn [claimName_loop]; [keep|].
  unfold claimCandidate. keep; [|apply IH]. eapply preserves_call; [done|]. auto with keep.
Qed.

(** A name that is claimed is in the registry with the caller's key. *)
Lemma claimName_recorded gen rec (st : est S N) name st' :
  NameStoreLaws N → claimName cfg gen rec st = (Some name, st') →
  ∃ r, (ns_get name (e_names st')).1 = Ok r ∧ IdentityKeyFP r = IdentityKeyFP rec.
Proof.
  intros Hput. unfold claimName. generalize claimAttempts at 1 as n. intros n. revert st.
  induction n as [|n IH]; intros st; cbn [claimName_loop]; [done|].
  destruct (gen _) as [cand|]; [|done]. unfold ebind at 1.
  destruct (claimCandidate cfg cand rec st) as [[[] er] st1] eqn:E; cbn [fst]; [|apply IH].
  intros [= <- <-]. revert E. unfold claimCandidate, ebind, valkey, names, eret.
  destruct (call _ _) as [[v|] w1]; [|done]. destruct (rbool v); [|done]. cbn [negb e_names e_w].
  destruct (ns_get cand (e_names st)) as [[g|[]] n1]; [done| |done]. unfold now. cbn [e_names e_w].
  destruct (ns_put cand _ n1) as [[] n2] eqn:P; [|done]. intros [= _ <-]. eexists. split; [by eapply Hput|done].
Qed.

Lemma Nonce_run b (w : world S) : quiet w → ∃ w', Nonce b w = (Ok b, w') ∧ frame (nonceKey (hex_encode b)) w w' ∧
  at_key w' (nonceKey (hex_encode b)) ≠ None.
Proof.
  intros Hq. unfold Nonce, bind.
  destruct (call_spec (Set_ (nonceKey (hex_encode b)) "1" nonceTTL) (nonceKey (hex_encode b)) w)
    as (w1 & -> & F1 & A1); [done..|].
  spec_simpl. unfold with_deadline in A1. pose proof nonceTTL_positive. revert A1. zcase. intros A1.
  exists w1. split; [done|]. split; [done|]. by rewrite A1.
Qed.

(** An enrollment that succeeds: the name is registered with the CSR's key, the
    certificate is the signer's, the request's nonce is spent and no other is. *)
Lemma Enroll_succeeds ip gen req (st : est S N) res st' :
  NameStoreLaws N → quiet (e_w st) → enroll ip gen req st = (Ok res, st') →
  (∃ r, (ns_get (Name_ res) (e_names st')).1 = Ok r ∧ IdentityKeyFP r = keyFingerprint (csr_key (IdentityCSR req))) ∧
  sign (IdentityCSR req) (Name_ res) = Ok (IdentityCert res) ∧ quiet (e_w st') ∧
  at_key (e_w st') (nonceKey (hex_encode (Nonce_ req))) = None ∧
  ∀ b, b ≠ Nonce_ req → at_key (e_w st') (nonceKey (hex_encode b)) = at_key (e_w st) (nonceKey (hex_encode b)).
Proof.
  intros Hl Hq. unfold Enroll. unfold ebind at 1.
  assert (∀ b, kept (nonceKey b) (e_w st) (e_w (enrollLimit cfg ParseAddr ip st).2)) as K1
    by (intros b; by apply enrollLimit_keeps).
  destruct (enrollLimit cfg ParseAddr ip st) as [[e|] st1]; cbn [snd] in K1; [done|].
  unfold ebind at 1, valkey at 1.
  destruct (consumeNonce_spec (Nonce_ req) (e_w st1) (proj1 (K1 ""))) as (w2 & -> & F2 & A2).
  destruct (match at_key _ _ with Some _ => true | None => false end); [|done].
  set (st2 := ESt w2 _ _). unfold ebind at 1.
  assert (∀ b, kept b w2 (e_w (attestAndBind cfg verify key_equal ip "" req st2).2)) as K3
    by (intros b; apply attest_keeps, F2).
  destruct (attestAndBind cfg verify key_equal ip "" req st2) as [[att|e] st3]; cbn [snd] in K3; [|done].
  unfold ebind at 1. set (rec := {| Schema := 0 |}).
  assert (∀ b, kept (nonceKey b) (e_w st3) (e_w (claimName cfg gen rec st3).2)) as K4
    by (intros b; apply claimName_keeps; apply (K3 "")).
  destruct (claimName cfg gen rec st3) as [[name|] st4] eqn:C; cbn [snd] in K4; [|done].
  destruct (sign (IdentityCSR req) name) as [pem|e] eqn:Hs.
  2:{ unfold ebind, names, eret. by destruct (ns_delete _ _). }
  intros [= <- <-]. simpl. split; [by apply (claimName_recorded _ _ _ _ _ Hl C)|]. split; [done|].
  split; [apply (K4 "")|].
  split; [rewrite (proj2 (proj2 (K4 _))), (proj2 (proj2 (K3 _))); exact A2|].
  intros b Hb. rewrite (proj2 (proj2 (K4 _))), (proj2 (proj2 (K3 _))), (frame_keys _ _ _ F2) by by apply nonceKey_inj.
  apply K1.
Qed.
End enrollment.

(** ** The handler's promises *)
Section promises.
Context {S N K : Type} `{ValkeyServer S} `{!ValkeyLaws S} `{TokenSupply} `{NameStore N} `{FloatLib}.
Context (cfg : Config) (ParseAddr : string → option string).
Context (verify : list (Attest.Certificate K) → bytes → Z → result Attest.attest_error (Attest.Result K)).
Context (key_equal : K → K → bool) (keyFingerprint : K → string).
Context (sign : CSR K → string → result sign_error string).
Context (Unmarshal : bytes → option enrollRequestBody).
Context (pem_Decode : bytes → option (bytes * bytes)) (ParseCertificate : bytes → option (Attest.Certificate K)).
Context (ParseCertificateRequest : bytes → option (CSR K)).
Context (ban : option (string → bool)) (maxBody : nat) (life : lifecycle).

Abbreviation parse := (parse_enroll Unmarshal pem_Decode ParseCertificate ParseCertificateRequest maxBody).
Abbreviation serve := (ServeHTTP (S := S) (N := N) cfg ParseAddr verify key_equal keyFingerprint sign
  Unmarshal pem_Decode ParseCertificate ParseCertificateRequest ban maxBody life).

(** C14. What an enrolled phone is told is true and enough to go on. Over an undisturbed
    server and a registry that reads back what it stored, if the handler answers a
    request with a name, a certificate and a nonce, then the node is not draining, the
    name is in the registry with the key of the request's CSR, the certificate is the
    signer's for that name, the nonce decodes to the one that was minted and the next
    request that presents it is accepted, and the nonce of this request is not accepted
    again. *)
Theorem enrolled_phone_can_continue fresh gen r (st : est S N) resp st' name cert nonce :
  NameStoreLaws N → quiet (e_w st) → (∀ req, parse (rq_body r) = Ok req → Nonce_ req ≠ fresh) →
  serve fresh gen r st = (resp, st') → rs_answer resp = AEnrolled name cert nonce →
  ∃ req rec, parse (rq_body r) = Ok req ∧ rs_status resp = 200 ∧ Draining life = false ∧
    (ns_get name (e_names st')).1 = Ok rec ∧ IdentityKeyFP rec = keyFingerprint (csr_key (IdentityCSR req)) ∧
    sign (IdentityCSR req) name = Ok cert ∧
    decodeHex nonce = Some fresh ∧ (consumeNonce fresh (e_w st')).1 = Ok true ∧
    (consumeNonce (Nonce_ req) (e_w st')).1 = Ok false.
Proof.
  intros Hl Hq Hfresh. unfold ServeHTTP.
  destruct (ParseAddr _) as [addr|]; [|by intros [= <- <-]].
  destruct (banned ban addr); [by intros [= <- <-]|].
  destruct (String.eqb (rq_method r) "GET" && String.eqb (rq_path r) "/api/v1/health");
    [unfold eret, handleHealth; destruct (Stopping life); by intros [= <- <-]|].
  unfold refuseDraining. destruct (Draining life); cbn [negb].
  { destruct (_ && _); [by intros [= <- <-]|]. destruct (_ && _); by intros [= <- <-]. }
  destruct (_ && _).
  { unfold handleNonce, ebind, eret. destruct (enrollLimit _ _ _ _) as [[e|] st1]; [by intros [= <- <-]|].
    destruct (valkey _ st1) as [[n|e] st2]; by intros [= <- <-]. }
  destruct (_ && _); [|by intros [= <- <-]].
  unfold handleEnroll. destruct (parse (rq_body r)) as [req|e] eqn:Hp; [|by intros [= <- <-]].
  specialize (Hfresh req eq_refl). unfold ebind at 1.
  pose proof (enrollLimitCheck_keeps (N := N) cfg ParseAddr "" (peerIP (rq_remote r)) st Hq) as [Q1 _].
  destruct (enrollLimitCheck _ _ _ st) as [[e|] st1]; cbn [snd] in Q1; [by intros [= <- <-]|].
  unfold ebind at 1, valkey at 1. destruct (Nonce_run fresh (e_w st1) Q1) as (w2 & -> & F2 & A2).
  unfold ebind. set (st2 := ESt w2 _ _).
  destruct (Enroll _ _ _ _ _ _ _ _ req st2) as [[res|e] st3] eqn:HE; [|by intros [= <- <-]].
  intros [= <- <-] [= <- <- <-]. simpl.
  apply Enroll_succeeds in HE; [|done|apply F2]. destruct HE as ((rec & Hg & Hk) & Hs & Q3 & A3 & K3).
  exists req, rec. rewrite decodeHex_encode.
  destruct (consumeNonce_spec fresh (e_w st3) Q3) as (w4 & -> & _).
  destruct (consumeNonce_spec (Nonce_ req) (e_w st3) Q3) as (w5 & -> & _).
  rewrite A3, (K3 fresh) by done. cbn [e_w st2]. simpl. destruct (at_key w2 _); [|done]. auto 10.
Qed.

(** The two endpoints that change something. *)
Definition asks_nonce (r : http_request) : Prop := rq_method r = "GET" ∧ rq_path r = "/api/v1/enroll/nonce".
Definition asks_enroll (r : http_request) : Prop := rq_method r = "POST" ∧ rq_path r = "/api/v1/enroll".

(** The error answered, with its status. *)
Definition refused (resp : response) (status : Z) (reason : string) (retryable : bool) : Prop :=
  rs_status resp = status ∧ ∃ n, rs_answer resp = AError reason retryable n.

(** A request that is admitted: its address can be read and is not banned. *)
Definition admitted (r : http_request) : Prop :=
  ∃ addr, ParseAddr (peerIP (rq_remote r)) = Some addr ∧ banned ban addr = false.

(** Behind the checks of the address. *)
Lemma serve_admitted fresh gen r (st : est S N) : admitted r →
  (asks_nonce r → serve fresh gen r st =
     match refuseDraining life with
     | Some d => (d, st)
     | None => handleNonce cfg ParseAddr fresh (peerIP (rq_remote r)) st
     end) ∧
  (asks_enroll r → serve fresh gen r st =
     match refuseDraining life with
     | Some d => (d, st)
     | None => handleEnroll cfg ParseAddr verify key_equal keyFingerprint sign Unmarshal pem_Decode ParseCertificate
                 ParseCertificateRequest maxBody fresh gen (rq_body r) (peerIP (rq_remote r)) st
     end).
Proof.
  intros (addr & Ha & Hb). unfold ServeHTTP. rewrite Ha, Hb. split; intros [-> ->]; cbn; by destruct (refuseDraining life).
Qed.

(** C15. Refusals come before effects. Each with its status and reason: a request whose
    address cannot be read (400), from a banned address (403), to a draining node (503,
    closing the connection) or with a malformed enrollment (400) leaves Valkey, the
    registry and the reports as they were; an enrollment from an address over its limit
    (503) changes no key and no name; a request for a nonce from an address over its
    limit (429) changes no nonce and no name, its rate windows alone may have counted
    it. *)
Theorem refused_before_effect fresh gen r (st : est S N) resp st' :
  quiet (e_w st) → serve fresh gen r st = (resp, st') →
  (ParseAddr (peerIP (rq_remote r)) = None → refused resp 400 "bad_source_ip" false ∧ st' = st) ∧
  (∀ addr, ParseAddr (peerIP (rq_remote r)) = Some addr → banned ban addr = true →
     refused resp 403 "banned" false ∧ st' = st) ∧
  (admitted r → asks_nonce r ∨ asks_enroll r → Draining life = true →
     refused resp 503 "draining" true ∧ rs_close resp = true ∧ st' = st) ∧
  (admitted r → asks_enroll r → Draining life = false → ∀ reason, parse (rq_body r) = Err reason →
     refused resp 400 reason false ∧ st' = st) ∧
  (admitted r → asks_enroll r → Draining life = false → is_ok (parse (rq_body r)) = true →
   (enrollLimitCheck cfg ParseAddr (peerIP (rq_remote r)) st).1 ≠ None →
     refused resp 503 "enroll_rate" true ∧ e_names st' = e_names st ∧ ∀ k, at_key (e_w st') k = at_key (e_w st) k) ∧
  (admitted r → asks_nonce r → Draining life = false →
   (enrollLimit cfg ParseAddr (peerIP (rq_remote r)) st).1 ≠ None →
     refused resp 429 "enroll_rate" true ∧ e_names st' = e_names st ∧
     ∀ b, at_key (e_w st') (nonceKey b) = at_key (e_w st) (nonceKey b)).
Proof.
  intros Hq E. split_and!.
  - intros Ha. unfold ServeHTTP in E. rewrite Ha in E. injection E as <- <-. split; [|done]. split; [done|]. by eexists.
  - intros addr Ha Hb. unfold ServeHTTP in E. rewrite Ha, Hb in E. injection E as <- <-. split; [|done]. split; [done|]. by eexists.
  - intros Ha Hw Hd. destruct (serve_admitted fresh gen r st Ha) as [Hn He]. unfold refuseDraining in *. rewrite Hd in *.
    cbn [negb] in *. rewrite E in *.
    destruct Hw as [Hw|Hw]; [injection (Hn Hw) as -> ->|injection (He Hw) as -> ->]; (split; [split; [done|by eexists]|done]).
  - intros Ha Hw Hd reason Hp. destruct (serve_admitted fresh gen r st Ha) as [_ He]. specialize (He Hw).
    unfold refuseDraining in He. rewrite Hd in He. cbn [negb] in He. unfold handleEnroll in He. rewrite Hp in He.
    unfold eret in He. rewrite E in He. injection He as -> ->. split; [split; [done|by eexists]|done].
  - intros Ha Hw Hd Hp Hl. destruct (serve_admitted fresh gen r st Ha) as [_ He]. specialize (He Hw).
    unfold refuseDraining in He. rewrite Hd in He. cbn [negb] in He. unfold handleEnroll in He.
    destruct (parse (rq_body r)) as [req|]; [|done]. unfold ebind at 1 in He. destruct Ha as (addr & Ha & _).
    pose proof (λ e, enrollLimitCheck_refuses (S := S) (N := N) cfg ParseAddr (peerIP (rq_remote r)) addr st e Ha) as Hr.
    pose proof (λ k, enrollLimitCheck_keeps (N := N) cfg ParseAddr k (peerIP (rq_remote r)) st Hq) as K1.
    pose proof (enrollLimitCheck_names (S := S) (N := N) cfg ParseAddr (peerIP (rq_remote r)) st) as Kn.
    destruct (enrollLimitCheck _ _ _ st) as [[e|] st1]; cbn [fst snd] in *; [|done].
    destruct (Hr e eq_refl) as [ra ->]. unfold eret in He. rewrite E in He. injection He as -> ->.
    split; [split; [done|by eexists]|]. split; [done|]. intros k. apply K1.
  - intros Ha Hw Hd Hl. destruct (serve_admitted fresh gen r st Ha) as [Hn _]. specialize (Hn Hw).
    unfold refuseDraining in Hn. rewrite Hd in Hn. cbn [negb] in Hn. unfold handleNonce in Hn. unfold ebind at 1 in Hn.
    destruct Ha as (addr & Ha & _).
    destruct (enrollLimit_refuses (S := S) (N := N) cfg ParseAddr _ addr st Ha) as [Kn Hr].
    pose proof (λ b, enrollLimit_keeps (N := N) cfg ParseAddr b (peerIP (rq_remote r)) st Hq) as K1.
    destruct (enrollLimit _ _ _ st) as [[e|] st1]; cbn [fst snd] in *; [|done].
    destruct (Hr e eq_refl) as [ra ->]. unfold eret in Hn. rewrite E in Hn. injection Hn as -> ->.
    split; [split; [done|by eexists]|]. split; [done|]. intros b. apply K1.
Qed.
End promises.

(** ** Witnesses *)
#[local] Existing Instance map_names.
#[local] Existing Instance bit_floats.

#[local] Instance map_names_laws : NameStoreLaws (gmap string NameRecord).
Proof. intros name rec n n' [= <-]. simpl. by rewrite lookup_insert_eq. Qed.

Definition sample_post : http_request := Req "POST" "/api/v1/enroll" "192.0.2.1:4242" (Some []).
Definition sample_serve (ban : option (string → bool)) : http_request →
    E mem_server (gmap string NameRecord) response :=
  ServeHTTP sample_config Some (λ _ _ _, Err Attest.ErrEmptyChain) (λ _ _, true) (λ _, "fp") (λ _ _, Ok "identity")
    (λ _, Some (MkBody "2a" [] [])) (λ _, None) (λ _, None) (λ _, Some sample_csr) ban 65536 (Life false false)
    [x11; x22] (λ _, Some "xyz").

Lemma enrolled_phone_can_continue_witness :
  ∃ req rec, parse_enroll (K := unit) (λ _, Some (MkBody "2a" [] [])) (λ _, None) (λ _, None) (λ _, Some sample_csr)
      65536 (rq_body sample_post) = Ok req ∧
    rs_status (sample_serve None sample_post sample_est).1 = 200 ∧ Draining (Life false false) = false ∧
    (ns_get "xyz" (e_names (sample_serve None sample_post sample_est).2)).1 = Ok rec ∧ IdentityKeyFP rec = "fp" ∧
    (Ok "identity" : result sign_error string) = Ok "identity" ∧
    decodeHex "1122" = Some [x11; x22] ∧
    (consumeNonce [x11; x22] (e_w (sample_serve None sample_post sample_est).2)).1 = Ok true ∧
    (consumeNonce (Nonce_ req) (e_w (sample_serve None sample_post sample_est).2)).1 = Ok false.
Proof.
  apply (enrolled_phone_can_continue sample_config Some (λ _ _ _, Err Attest.ErrEmptyChain) (λ _ _, true) (λ _, "fp")
    (λ _ _, Ok "identity") (λ _, Some (MkBody "2a" [] [])) (λ _, None) (λ _, None) (λ _, Some sample_csr) None 65536
    (Life false false) [x11; x22] (λ _, Some "xyz") sample_post sample_est
    (sample_serve None sample_post sample_est).1 (sample_serve None sample_post sample_est).2 "xyz" "identity" "1122").
  - apply map_names_laws.
  - done.
  - intros req. vm_compute. intros [= <-]. done.
  - by vm_compute.
  - by vm_compute.
Defined.

(** A banned address, and an address that used up its minute asking for a nonce. *)
Definition sample_banned : option (string → bool) := Some (String.eqb "192.0.2.1").
Definition sample_get : http_request := Req "GET" "/api/v1/enroll/nonce" "192.0.2.1:4242" None.
Definition sample_spent : est mem_server (gmap string NameRecord) :=
  (sample_serve None sample_get (sample_serve None sample_get sample_est).2).2.

Lemma refused_before_effect_witness :
  ((sample_serve sample_banned sample_post sample_est).2 = sample_est ∧
   refused (sample_serve sample_banned sample_post sample_est).1 403 "banned" false) ∧
  refused (sample_serve None sample_get sample_spent).1 429 "enroll_rate" true ∧
  at_key (e_w (sample_serve None sample_get sample_spent).2) (nonceKey (hex_encode [x2a])) =
    at_key (e_w sample_spent) (nonceKey (hex_encode [x2a])).
Proof.
  split.
  - destruct (refused_before_effect sample_config Some (λ _ _ _, Err Attest.ErrEmptyChain) (λ _ _, true) (λ _, "fp")
      (λ _ _, Ok "identity") (λ _, Some (MkBody "2a" [] [])) (λ _, None) (λ _, None) (λ _, Some sample_csr)
      sample_banned 65536 (Life false false) [x11; x22] (λ _, Some "xyz") sample_post sample_est
      (sample_serve sample_banned sample_post sample_est).1 (sample_serve sample_banned sample_post sample_est).2)
      as (_ & Hb & _); [done|by vm_compute|]. destruct (Hb "192.0.2.1") as [? ?]; [done|done|]. by split.
  - destruct (refused_before_effect sample_config Some (λ _ _ _, Err Attest.ErrEmptyChain) (λ _ _, true) (λ _, "fp")
      (λ _ _, Ok "identity") (λ _, Some (MkBody "2a" [] [])) (λ _, None) (λ _, None) (λ _, Some sample_csr)
      None 65536 (Life false false) [x11; x22] (λ _, Some "xyz") sample_get sample_spent
      (sample_serve None sample_get sample_spent).1 (sample_serve None sample_get sample_spent).2)
      as (_ & _ & _ & _ & _ & Hl); [by vm_compute|by vm_compute|].
    destruct Hl as (H1 & _ & H2); [by exists "192.0.2.1"|done|done|by vm_compute|]. split; [exact H1|apply H2].
Defined.
End EnrollHTTP.
