(* ===== verification/Refresh.v ===== *)
(** * Attestation roots and revocation status

    [internal/attest/refreshers.go]: the root pool and the revocation list the
    verifier of [Attest] reads, each fetched at start and then periodically, a
    failed fetch leaving the last good copy in place; and what an accepted
    attestation therefore says of the lists that were published.

    The HTTP client's answers are inputs of a run.  Decoding JSON and reading
    certificates off PEM are parameters. *)
From Stdlib Require Import ZArith Lia Ascii String Strings.Byte.
From stdpp Require Import gmap.
From S2P Require Import Prelude GoStr Attest.
Local Open Scope string_scope.
Local Open Scope list_scope.
Local Open Scope Z_scope.

Module Refresh.

(** ** Fetching *)
Record http_answer := HTTP {
  ha_status : Z;
  ha_body : option bytes;                     (* [None]: reading it fails *)
  ha_close : bool                             (* closing the body succeeds *)
}.

Definition body_limit : nat := Z.to_nat (8 * 2 ^ 20).

(** [None] when the request fails, the status is not 200, or reading or closing
    the body fails. *)
Definition httpGet (answer : option http_answer) : option bytes :=
  match answer with
  | None => None
  | Some a =>
      if negb (ha_status a =? 200) then None
      else match ha_body a with
           | None => None
           | Some b => if ha_close a then Some (take body_limit b) else None
           end
  end.

(** ** Serial numbers *)
Definition trimHexPrefix (s : string) : string :=
  match s with
  | String "0" (String c s') => if Ascii.eqb c "x" || Ascii.eqb c "X" then s' else s
  | _ => s
  end.

Fixpoint hex_bytes (s : string) : string :=
  match s with
  | "" => ""
  | String c s' =>
      if (65 <=? cZ c) && (cZ c <=? 70) then String (Zc (cZ c - 65 + 97)) (hex_bytes s')
      else if ((48 <=? cZ c) && (cZ c <=? 57)) || ((97 <=? cZ c) && (cZ c <=? 102)) then String c (hex_bytes s')
      else hex_bytes s'
  end.

Definition normalizeSerial (s : string) : string := hex_bytes (trimHexPrefix s).

Section refreshers.
Context {C : Type}.
(** [pool.AppendCertsFromPEM]: the certificates it adds, [None] for none. *)
Context (certs_of_pem : string → option (list C)).
Context (Unmarshal_pems : bytes → option (list string)).
(** The members of the published object, in the order the map is walked. *)
Context (Unmarshal_status : bytes → option (list (string * string))).

(** ** The root pool *)
Fixpoint append_pems (pems : list string) (pool : list C) : option (list C) :=
  match pems with
  | [] => Some pool
  | p :: pems' => match certs_of_pem p with None => None | Some cs => append_pems pems' (pool ++ cs) end
  end.

Definition root_fetch (answer : option http_answer) : option (list C) :=
  match httpGet answer with
  | None => None
  | Some body =>
      match Unmarshal_pems body with
      | None | Some [] => None
      | Some pems => append_pems pems []
      end
  end.

Definition NewRootSet (answer : option http_answer) : list C := default [] (root_fetch answer).

Definition root_tick (pool : list C) (answer : option http_answer) : list C := default pool (root_fetch answer).

(** ** The revocation list *)
Record statusSnapshot := Snap { sn_entries : gmap string string; sn_fetchedAt : Z }.

Definition status_fetch (answer : option http_answer) (now : Z) : option statusSnapshot :=
  match httpGet answer with
  | None => None
  | Some body =>
      match Unmarshal_status body with
      | None => None
      | Some entries =>
          Some (Snap (fold_left (λ m e, <[normalizeSerial e.1 := e.2]> m) entries ∅) now)
      end
  end.

Definition status_tick (snap : option statusSnapshot) (tick : Z * option http_answer) : option statusSnapshot :=
  match status_fetch tick.2 tick.1 with Some s => Some s | None => snap end.

Definition NewStatusList (first : Z * option http_answer) : option statusSnapshot := status_tick None first.

Definition Revoked (snap : option statusSnapshot) (serialHex : string) : bool :=
  match snap with
  | None => true
  | Some s => match sn_entries s !! normalizeSerial serialHex with Some _ => true | None => false end
  end.

Definition FetchedAt (snap : option statusSnapshot) : option Z := sn_fetchedAt <$> snap.

(** ** A node's run: the fetch at start and those of the ticks *)
Definition refresh_every (every : Z) : Z := if every <=? 0 then hour else every.

Definition roots_after (first : option http_answer) (ticks : list (option http_answer)) : list C :=
  fold_left root_tick ticks (NewRootSet first).
Definition status_after (first : Z * option http_answer) (ticks : list (Z * option http_answer))
    : option statusSnapshot := fold_left status_tick ticks (NewStatusList first).

(** The verifier of [Attest] over the two. *)
Definition NewVerifier (pool : list C) (snap : option statusSnapshot) (signers : option (gset string)) (maxStale : Z)
    : Attest.Verifier (Pool := list C) := {|
  Attest.roots := Some pool; Attest.signers := signers; Attest.fetchedAt := FetchedAt snap;
  Attest.revoked := match snap with Some s => dom (sn_entries s) | None => ∅ end;
  Attest.maxStale := maxStale |}.

(** ** Normal forms *)
Lemma hex_bytes_idem s : hex_bytes (hex_bytes s) = hex_bytes s.
Proof.
  induction s as [|c s IH]; [done|]. cbn [hex_bytes].
  destruct ((65 <=? cZ c) && (cZ c <=? 70)) eqn:E1.
  - assert (∀ t, hex_bytes (String (Zc (cZ c - 65 + 97)) t) = String (Zc (cZ c - 65 + 97)) (hex_bytes t)) as ->.
    { destruct c as [[] [] [] [] [] [] [] []]; vm_compute in E1; try done; by vm_compute. }
    by rewrite IH.
  - destruct (_ || _) eqn:E2; [|done]. cbn [hex_bytes]. by rewrite E1, E2, IH.
Qed.

Lemma trimHexPrefix_hex s : ∃ t, trimHexPrefix s = t ∧ (s = t ∨ s = "0x" +:+ t ∨ s = "0X" +:+ t).
Proof.
  eexists. split; [done|]. destruct s as [|c [|d s]]; [by left| |].
  - left. by destruct c as [[] [] [] [] [] [] [] []].
  - unfold trimHexPrefix. destruct (Ascii.eqb_spec c "0") as [->|Hc].
    + destruct (Ascii.eqb_spec d "x") as [->|]; [right; by left|].
      destruct (Ascii.eqb_spec d "X") as [->|]; [right; by right|]. by left.
    + left. destruct c as [[] [] [] [] [] [] [] []]; done.
Qed.

(** However a serial is published, upper or lower case, with or without a prefix,
    its normal form is its lower-case digits. *)
Definition lower_hex (c : ascii) : bool := ((48 <=? cZ c) && (cZ c <=? 57)) || ((97 <=? cZ c) && (cZ c <=? 102)).

Lemma hex_bytes_upper s : str_forall lower_hex s = true → hex_bytes (str_map upper_byte s) = s ∧ hex_bytes s = s.
Proof.
  induction s as [|c s IH]; [done|]. cbn [str_forall str_map]. intros [Hc Hs]%andb_prop.
  destruct (IH Hs) as [I1 I2].
  assert (∀ t, hex_bytes (String (upper_byte c) t) = String c (hex_bytes t) ∧
    hex_bytes (String c t) = String c (hex_bytes t)) as Hb.
  { destruct c as [[] [] [] [] [] [] [] []]; vm_compute in Hc; try done; by vm_compute. }
  by rewrite (proj1 (Hb _)), (proj2 (Hb _)), I1, I2.
Qed.

Lemma normalizeSerial_published s : str_forall lower_hex s = true →
  normalizeSerial s = s ∧ normalizeSerial ("0x" +:+ s) = s ∧ normalizeSerial ("0X" +:+ str_map upper_byte s) = s.
Proof.
  intros Hs. destruct (hex_bytes_upper s Hs) as [Hu Hl]. unfold normalizeSerial. simpl. split; [|done].
  destruct (trimHexPrefix_hex s) as (t & -> & [-> | [-> | ->]]); [done|by vm_compute in Hs..].
Qed.

(** How a published entry may write a serial: its hexadecimal digits in either case, in
    order, with anything else between them, behind an optional [0x] or [0X].  Leading
    zeros are digits. *)
Inductive digits : string → string → Prop :=
| dg_nil : digits "" ""
| dg_digit c p s : lower_hex (lower_byte c) = true → digits p s → digits (String c p) (String (lower_byte c) s)
| dg_other c p s : lower_hex (lower_byte c) = false → digits p s → digits (String c p) s.
Definition prefixed (p t : string) : Prop := p = "0x" +:+ t ∨ p = "0X" +:+ t.
Definition spells (p s : string) : Prop :=
  (∃ t, prefixed p t ∧ digits t s) ∨ ((∀ t, ¬ prefixed p t) ∧ digits p s).

Lemma hex_bytes_digits p s : digits p s → hex_bytes p = s.
Proof.
  induction 1 as [|c p s Hc _ IH|c p s Hc _ IH]; [done|..].
  - assert (∀ t, hex_bytes (String c t) = String (lower_byte c) (hex_bytes t)) as ->; [|by rewrite IH].
    destruct c as [[] [] [] [] [] [] [] []]; vm_compute in Hc; try done; by vm_compute.
  - assert (∀ t, hex_bytes (String c t) = hex_bytes t) as ->; [|done].
    destruct c as [[] [] [] [] [] [] [] []]; vm_compute in Hc; try done; by vm_compute.
Qed.

Lemma normalizeSerial_spells p s : spells p s → normalizeSerial p = s.
Proof.
  unfold normalizeSerial. intros [(t & [-> | ->] & Hd)|[Hn Hd]]; [by apply hex_bytes_digits..|].
  apply hex_bytes_digits. destruct (trimHexPrefix_hex p) as (t & -> & [<- | Hp]); [done|]. by destruct (Hn t).
Qed.

(** Digits are compared, not numbers: a leading zero makes another serial. *)
Example leading_zero_is_another_serial : normalizeSerial "0x0AB" ≠ normalizeSerial "ab".
Proof. by vm_compute. Qed.

(** ** What the lists hold *)
Lemma entries_listed entries (m : gmap string string) k :
  k ∈ dom (fold_left (λ m e, <[normalizeSerial e.1 := e.2]> m) entries m) ↔
  k ∈ dom m ∨ ∃ e, e ∈ entries ∧ normalizeSerial e.1 = k.
Proof.
  revert m. induction entries as [|e entries IH]; intros m; simpl.
  - split; [by left|]. intros [?|(e & He & _)]; [done|]. by apply elem_of_nil in He.
  - rewrite IH, dom_insert, elem_of_union, elem_of_singleton. split.
    + intros [[->|]|(e' & He & <-)]; [|by left|].
      * right. exists e. split; [by constructor|done].
      * right. exists e'. split; [by constructor|done].
    + intros [|(e' & [->|He]%elem_of_cons & <-)]; [by left; right|by left; left|]. right. by exists e'.
Qed.

(** The copy held is that of the last fetch that succeeded. *)
Lemma status_last_good first ticks snap : status_after first ticks = Some snap →
  ∃ pre tick post, first :: ticks = pre ++ tick :: post ∧ status_fetch tick.2 tick.1 = Some snap ∧
    Forall (λ t, status_fetch t.2 t.1 = None) post.
Proof.
  unfold status_after, NewStatusList. change (fold_left status_tick ticks (status_tick None first))
    with (fold_left status_tick (first :: ticks) None). generalize (first :: ticks). clear first ticks. intros l.
  induction l as [|t l IH] using rev_ind; [done|]. rewrite fold_left_app. cbn [fold_left].
  unfold status_tick at 1. destruct (status_fetch t.2 t.1) as [s|] eqn:E.
  - intros [= <-]. exists l, t, []. split; [done|]. split; [done|constructor].
  - intros Hs. destruct (IH Hs) as (pre & tick & post & -> & Hf & Hn). exists pre, tick, (post ++ [t]).
    split; [by rewrite <- app_assoc|]. split; [done|]. apply Forall_app. split; [done|]. by repeat constructor.
Qed.

Lemma roots_last_good first ticks :
  roots_after first ticks = [] ∨
  ∃ pre a post, first :: ticks = pre ++ a :: post ∧ root_fetch a = Some (roots_after first ticks) ∧
    Forall (λ a, root_fetch a = None) post.
Proof.
  unfold roots_after, NewRootSet. change (fold_left root_tick ticks (default [] (root_fetch first)))
    with (fold_left root_tick (first :: ticks) []). generalize (first :: ticks). clear first ticks. intros l.
  induction l as [|a l IH] using rev_ind; [by left|]. rewrite fold_left_app. cbn [fold_left].
  unfold root_tick at 1 3. destruct (root_fetch a) as [p|] eqn:E; simpl.
  - right. exists l, a, []. split; [done|]. split; [done|constructor].
  - destruct IH as [|(pre & a' & post & -> & Hf & Hn)]; [by left|]. right. exists pre, a', (post ++ [a]).
    split; [by rewrite <- app_assoc|]. split; [done|]. apply Forall_app. split; [done|]. by repeat constructor.
Qed.
End refreshers.

(** ** Composition with the verifier *)
Section composition.
Context `{Attest.ASN1} `{UnicodeCase} {K : Type}.
Context (verify_chain : list (Attest.Certificate K) → Attest.Certificate K → list (Attest.Certificate K) → Z → bool).
Context (certs_of_pem : string → option (list (Attest.Certificate K))).
Context (Unmarshal_pems : bytes → option (list string)).
Context (Unmarshal_status : bytes → option (list (string * string))).

Abbreviation pool_of := (roots_after certs_of_pem Unmarshal_pems).
Abbreviation status_of := (status_after Unmarshal_status).

(** The gates of [Verify] that read the two lists. *)
Lemma Verify_reads_lists v chain nonce now r :
  Attest.Verify verify_chain v chain nonce now = Ok r →
  (∃ pool leaf inter, Attest.roots v = Some pool ∧ verify_chain pool leaf inter now = true) ∧
  (∃ t, Attest.fetchedAt v = Some t ∧ now - t ≤ Attest.maxStale v) ∧
  ∀ c, c ∈ chain → Attest.SerialHex c ∉ Attest.revoked v.
Proof.
  unfold Attest.Verify. destruct chain as [|leaf inter]; [done|].
  destruct (Attest.has_dup _ _); [done|]. destruct (Attest.roots v) as [pool|]; [|done].
  destruct (verify_chain pool leaf inter now) eqn:Hv; simpl; [|done].
  destruct (Attest.ParseKeyDescription _) as [kd|]; [|done].
  do 6 (match goal with |- (if ?b then _ else _) = _ → _ => destruct b; [done|] end).
  destruct (Attest.stale v now) eqn:Hs; [done|]. destruct (_ || existsb _ _) eqn:Hr; [done|]. intros _.
  split; [by exists pool, leaf, inter|]. split.
  - unfold Attest.stale in Hs. destruct (Attest.fetchedAt v) as [t|]; [|done]. zbool. exists t. split; [done|lia].
  - intros c Hc Hin. apply not_true_iff_false in Hr. apply Hr.
    apply (proj2 (existsb_exists (λ c, bool_decide (Attest.SerialHex c ∈ Attest.revoked v)) (leaf :: inter))). exists c.
    split; [by apply list_elem_of_In|]. by apply bool_decide_eq_true.
Qed.

(** C16. The verifier over its refreshers fails closed. Whatever the two URLs answer
    over time, if an attestation is accepted then some fetch of the revocation list
    succeeded, all later ones failed, it is not older than the limit, and none of its
    entries spells the serial of a certificate of the chain: the same digits in either
    case, in order, with anything else between them, behind an optional 0x or 0X (an
    entry with additional leading zeros has other digits); and the roots come from a
    fetch that gave some. It is used that no chain verifies against an empty pool. *)
Theorem accepted_not_on_published_list rfirst rticks sfirst sticks signers maxStale chain nonce now r :
  (∀ leaf inter t, verify_chain [] leaf inter t = false) →
  Attest.Verify verify_chain (NewVerifier (pool_of rfirst rticks) (status_of sfirst sticks) signers maxStale)
    chain nonce now = Ok r →
  (∃ pre t answer post body entries, sfirst :: sticks = pre ++ (t, answer) :: post ∧
     Forall (λ tk, status_fetch Unmarshal_status tk.2 tk.1 = None) post ∧
     httpGet answer = Some body ∧ Unmarshal_status body = Some entries ∧ now - t ≤ maxStale ∧
     ∀ c serial status, c ∈ chain → (serial, status) ∈ entries →
       ¬ spells serial (Attest.SerialHex c)) ∧
  (∃ pre answer post, rfirst :: rticks = pre ++ answer :: post ∧
     root_fetch certs_of_pem Unmarshal_pems answer = Some (pool_of rfirst rticks) ∧ pool_of rfirst rticks ≠ []).
Proof.
  intros Hempty (( pool & leaf & inter & [= <-] & Hv) & (t & Ht & Hst) & Hrev)%Verify_reads_lists. simpl in *.
  split.
  - destruct (status_of sfirst sticks) as [snap|] eqn:E; [|done]. simpl in *. injection Ht as Ht.
    destruct (status_last_good _ _ _ _ E) as (pre & [t' answer] & post & Hl & Hf & Hn). simpl in Hf.
    unfold status_fetch in Hf. destruct (httpGet answer) as [body|] eqn:Hb; [|done].
    destruct (Unmarshal_status body) as [entries|] eqn:Hu; [|done]. injection Hf as <-. simpl in *. subst t'.
    exists pre, t, answer, post, body, entries. do 5 (split; [done|]).
    intros c serial status Hc Hin Heq%normalizeSerial_spells. apply (Hrev c Hc), entries_listed. right. by exists (serial, status).
  - destruct (roots_last_good certs_of_pem Unmarshal_pems rfirst rticks) as [Hz|(pre & a & post & Hl & Hf & _)].
    + by rewrite Hz, Hempty in Hv.
    + exists pre, a, post. split; [done|]. split; [done|]. intros Hz. by rewrite Hz, Hempty in Hv.
Qed.
End composition.

(** The verifier's view of the list is what [Revoked] answers; without a list
    [Revoked] refuses, as the staleness gate before it does. *)
Lemma Revoked_as_verified {C} (pool : list C) snap signers maxStale serial :
  str_forall lower_hex serial = true →
  Revoked snap serial = true ↔
    serial ∈ Attest.revoked (NewVerifier pool snap signers maxStale) ∨
    Attest.fetchedAt (NewVerifier pool snap signers maxStale) = None.
Proof.
  intros Hs. destruct (normalizeSerial_published _ Hs) as (N1 & _). destruct snap as [s|]; simpl; [|tauto].
  rewrite N1, elem_of_dom. destruct (sn_entries s !! serial); split; try done.
  - intros _. left. by eexists.
  - by intros [[? ?]|?].
Qed.

(** ** Witness *)
#[local] Existing Instance Attest.sample_asn1.
#[local] Existing Instance ascii_only_case.

Definition sample_ok (body : bytes) : option http_answer := Some (HTTP 200 (Some body) true).
Definition sample_roots (p : string) : option (list (Attest.Certificate unit)) := Some [Attest.MkCert [x09] "09" tt None].
Definition sample_chain_check (pool : list (Attest.Certificate unit)) (leaf : Attest.Certificate unit)
  (inter : list (Attest.Certificate unit)) (t : Z) : bool := match pool with [] => false | _ => true end.
Definition sample_status (b : bytes) : option (list (string * string)) := Some [("0xFF", "REVOKED")].

Lemma accepted_not_on_published_list_witness :
  ∃ pre t answer post body entries,
     [(0, sample_ok []); (minute, None)] = pre ++ (t, answer) :: post ∧
     Forall (λ tk, status_fetch sample_status tk.2 tk.1 = None) post ∧
     httpGet answer = Some body ∧ sample_status body = Some entries ∧ 2 * minute - t ≤ hour ∧
     ∀ c serial status, c ∈ Attest.sample_chain → (serial, status) ∈ entries → ¬ spells serial (Attest.SerialHex c).
Proof.
  destruct (Attest.Verify sample_chain_check
    (NewVerifier (roots_after sample_roots (λ _, Some [""]) (sample_ok []) [None])
       (status_after sample_status (0, sample_ok []) [(minute, None)]) (Some {["abcd"]}) hour)
    Attest.sample_chain [x2a] (2 * minute)) as [r|] eqn:E; [|by vm_compute in E].
  by apply (accepted_not_on_published_list sample_chain_check sample_roots (λ _, Some [""]) sample_status
    (sample_ok []) [None] (0, sample_ok []) [(minute, None)] (Some {["abcd"]}) hour Attest.sample_chain [x2a]
    (2 * minute) r).
Defined.
End Refresh.
