(* ===== verification/Client.v ===== *)
(** * The Go client

    Package [client], the reference phone: enrollment and certificate requests
    with their retries ([enroll.go], [issue_retry.go], [renew.go]), the control
    connection's frame loop, and following MOVE orders from node to node
    ([control.go], [datastream.go]).

    The answers to HTTP requests, the connections' byte streams and whether a
    sleep is interrupted are inputs of a run; what the client did is recorded in
    a trace.  Keys, CSRs and JSON are parameters. *)
From Stdlib Require Import ZArith Lia Ascii String Strings.Byte.
From S2P Require Import Prelude GoStr Wire Challenges.
Local Open Scope string_scope.
Local Open Scope list_scope.
Local Open Scope Z_scope.

Module Client.
Import Wire.

(** ** HTTP exchanges *)
Record answer := Answer {
  an_status : Z;
  an_body : option bytes;                     (* [None]: reading it fails *)
  an_close : bool                             (* closing the body succeeds *)
}.

Inductive cev :=
| GotNonce (a : option answer)                (* GET /api/v1/enroll/nonce *)
| PostedEnroll (nonce : string) (a : option answer)
| PostedIssue (nonce : string) (a : option answer)
| Slept (d : Z).

Record cst := CSt {
  c_script : list (option answer);            (* [None]: the exchange fails; also when it runs out *)
  c_sleeps : list bool;                       (* whether a sleep is interrupted *)
  c_trace : list cev
}.

Definition C (A : Type) : Type := cst → A * cst.
Definition cret {A} (a : A) : C A := λ s, (a, s).
Definition cbind {A B} (c : C A) (k : A → C B) : C B := λ s, let '(a, s') := c s in k a s'.
Notation "'let-' x := c 'in' k" := (cbind c (λ x, k)) (at level 10, x pattern, c at level 200, k at level 200).

Definition exchange (ev : option answer → cev) : C (option answer) := λ s,
  let a := match c_script s with a :: _ => a | [] => None end in
  (a, CSt (tail (c_script s)) (c_sleeps s) (c_trace s ++ [ev a])).

(** [sleepCtx]: [false] when the context ends the wait. *)
Definition sleepCtx (d : Z) : C bool := λ s,
  let stopped := match c_sleeps s with b :: _ => b | [] => false end in
  (negb stopped, CSt (c_script s) (tail (c_sleeps s)) (c_trace s ++ [Slept d])).

(** ** Errors *)
Inductive cerror :=
| EnrollError (status : Z) (reason : string) (retryable : bool) (retryAfter : Z)
| TransportError
| OtherError
| Interrupted (e : cerror).                   (* joined with the sleep's error *)

Definition read_answer (limit : nat) (a : option answer) : option (Z * bytes) :=
  match a with
  | None => None
  | Some a =>
      match an_body a with
      | Some b => if an_close a then Some (an_status a, take limit b) else None
      | None => None
      end
  end.

Record enrollResponse := ER { er_Name : string; er_IdentityCert : string; er_IssueNonce : string }.
Record issueResponse := IR { ir_IdentityCert : string; ir_PublicCert : string; ir_CA : string }.

Definition nonce_limit : nat := Z.to_nat (2 ^ 16).
Definition answer_limit : nat := Z.to_nat (2 ^ 20).
Definition IssueRetries : nat := 3.
Definition EnrollRetries : nat := 3.
Definition EnrollRefusalWait : Z := second.
Definition EnrollNetworkWait : Z := 2 * second.

Section requests.
Context {Key : Type}.
Context (dec_nonce : bytes → option string) (dec_enroll : bytes → option enrollResponse).
Context (dec_issue : bytes → option issueResponse) (dec_error : bytes → option (string * bool * Z)).

Record Identity := MkIdentity {
  Name : string; IdentityCertPEM : string; IdentityKey : Key;
  PublicCertPEM : string; PublicCertKey : option Key; CA : string
}.

(** Key pair, CSR and attestation for a request; [None] when one fails. *)
Context (prepare_enroll : string → option Key) (prepare_issue : string → string → option (Key * Key)).
(** [tlsCertificate]. *)
Context (tlsCertificate : Identity → bool).

Definition errorFromResponse (status : Z) (raw : bytes) : cerror :=
  match dec_error raw with
  | None => EnrollError status "" false 0
  | Some (reason, retryable, after) => EnrollError status reason retryable (wrap64 (after * second))
  end.

Definition fetchNonce : C (result cerror string) :=
  let- a := exchange GotNonce in
  cret match read_answer nonce_limit a with
       | None => Err TransportError
       | Some (status, raw) =>
           if negb (status =? 200) then Err (errorFromResponse status raw)
           else match dec_nonce raw with None => Err OtherError | Some n => Ok n end
       end.

(** The phone cannot tell what became of a POST that failed: no [TransportError]. *)
Definition postEnroll (nonce : string) : C (result cerror enrollResponse) :=
  let- a := exchange (PostedEnroll nonce) in
  cret match read_answer answer_limit a with
       | None => Err OtherError
       | Some (status, raw) =>
           if negb (status =? 200) then Err (errorFromResponse status raw)
           else match dec_enroll raw with None => Err OtherError | Some r => Ok r end
       end.

Definition enrollOnce : C (result cerror (enrollResponse * Key)) :=
  let- n := fetchNonce in
  match n with
  | Err e => cret (Err e)
  | Ok nonce =>
      match prepare_enroll nonce with
      | None => cret (Err OtherError)
      | Some bootKey =>
          let- r := postEnroll nonce in
          cret match r with Err e => Err e | Ok er => Ok (er, bootKey) end
      end
  end.

Definition issueCerts (name caFallback nonce : string) : C (result cerror Identity) :=
  match prepare_issue name nonce with
  | None => cret (Err OtherError)
  | Some (idKey, tlsKey) =>
      let- a := exchange (PostedIssue nonce) in
      cret match read_answer answer_limit a with
           | None => Err TransportError
           | Some (status, raw) =>
               if negb (status =? 200) then Err (errorFromResponse status raw)
               else match dec_issue raw with
                    | None => Err OtherError
                    | Some ir =>
                        Ok (MkIdentity name (ir_IdentityCert ir) idKey (ir_PublicCert ir) (Some tlsKey)
                              (if String.eqb (ir_CA ir) "" then caFallback else ir_CA ir))
                    end
           end
  end.

(** ** Retries *)
Definition issueRetryWait (e : cerror) (retry : Z) : option Z :=
  match e with
  | EnrollError _ _ retryable after =>
      if negb retryable then None else if 0 <? after then Some after else Some (IssueRetryWait retry)
  | TransportError => Some (IssueRetryWait retry)
  | _ => None
  end.

Definition enrollRetryWait (e : cerror) : option Z :=
  match e with
  | EnrollError _ _ retryable after =>
      if negb retryable then None else if 0 <? after then Some after else Some EnrollRefusalWait
  | TransportError => Some EnrollNetworkWait
  | _ => None
  end.

(** [left] retries remain. *)
Fixpoint enroll_loop {A} (left : nat) (attempt : C (result cerror A)) : C (result cerror A) :=
  let- r := attempt in
  match r with
  | Ok a => cret (Ok a)
  | Err e =>
      match enrollRetryWait e, left with
      | Some wait, S left' =>
          let- ok := sleepCtx wait in
          if (ok : bool) then enroll_loop left' attempt else cret (Err (Interrupted e))
      | _, _ => cret (Err e)
      end
  end.
Definition enrollWithRetries {A} (attempt : C (result cerror A)) : C (result cerror A) :=
  enroll_loop EnrollRetries attempt.

Fixpoint issue_loop (left : nat) (r : result cerror Identity) (issue : string → C (result cerror Identity))
    (freshNonce : C (result cerror string)) : C (result cerror Identity) :=
  match r with
  | Ok id => cret (Ok id)
  | Err e =>
      match issueRetryWait e (Z.of_nat (IssueRetries - left)), left with
      | Some wait, S left' =>
          let- ok := sleepCtx wait in
          if (ok : bool) then
            let- n := freshNonce in
            match n with
            | Err e => issue_loop left' (Err e) issue freshNonce
            | Ok n => let- r := issue n in issue_loop left' r issue freshNonce
            end
          else cret (Err (Interrupted e))
      | _, _ => cret (Err e)
      end
  end.
Definition issueWithRetries (nonce : string) (issue : string → C (result cerror Identity))
    (freshNonce : C (result cerror string)) : C (result cerror Identity) :=
  let- r := issue nonce in issue_loop IssueRetries r issue freshNonce.

(** ** Enrolling and renewing *)

(** The identity, also on an error of the second phase, and the error. *)
Definition enroll : C (option Identity * option cerror) :=
  let- r := enrollWithRetries enrollOnce in
  match r with
  | Err e => cret (None, Some e)
  | Ok (er, bootKey) =>
      let bootIdent := MkIdentity (er_Name er) (er_IdentityCert er) bootKey "" None "" in
      if negb (tlsCertificate bootIdent) then cret (None, Some OtherError)
      else
        let- i := issueWithRetries (er_IssueNonce er) (issueCerts (er_Name er) "") fetchNonce in
        cret match i with Err e => (Some bootIdent, Some e) | Ok id => (Some id, None) end
  end.

(** The client's current identity, swapped when the renewal is complete. *)
Definition Renew (ident : Identity) (nonceHex : string) : C (option cerror * Identity) :=
  let- r := issueWithRetries nonceHex (issueCerts (Name ident) (CA ident)) fetchNonce in
  cret match r with
       | Err e => (Some e, ident)
       | Ok next => if tlsCertificate next then (None, next) else (Some OtherError, ident)
       end.

(** ** What the requests do *)
Definition is_post_enroll (e : cev) : bool := match e with PostedEnroll _ _ => true | _ => false end.
Definition is_post_issue (e : cev) : bool := match e with PostedIssue _ _ => true | _ => false end.
Definition count (p : cev → bool) (l : list cev) : nat := length (filter (λ e, p e = true) l).

(** The server refused and said that the request may be repeated. *)
Definition refused_retryably (a : option answer) : Prop :=
  ∃ status raw reason after, read_answer answer_limit a = Some (status, raw) ∧ status ≠ 200 ∧
    dec_error raw = Some (reason, true, after).

Lemma count_app p l l' : count p (l ++ l') = (count p l + count p l')%nat.
Proof. unfold count. by rewrite filter_app, length_app. Qed.

(** One attempt: a nonce, then at most one POST; a retry is only considered after
    a POST when the server refused it retryably. *)
Lemma enrollOnce_spec s : ∃ evs r, enrollOnce s = (r, CSt (c_script (enrollOnce s).2) (c_sleeps s) (c_trace s ++ evs)) ∧
  ((∃ g, evs = [GotNonce g]) ∧ is_ok r = false ∨
   ∃ g n a, evs = [GotNonce g; PostedEnroll n a] ∧
     match r with
     | Ok (er, _) => ∃ raw, read_answer answer_limit a = Some (200, raw) ∧ dec_enroll raw = Some er
     | Err e => enrollRetryWait e ≠ None → refused_retryably a
     end).
Proof.
  unfold enrollOnce, fetchNonce, cbind, exchange, cret. set (g := match c_script s with a :: _ => a | [] => None end).
  destruct (read_answer nonce_limit g) as [[st raw]|]; [|eexists _, _; split; [done|]; left; eauto].
  destruct (st =? 200); cbn [negb]; [|eexists _, _; split; [done|]; left; eauto].
  destruct (dec_nonce raw) as [n|]; [|eexists _, _; split; [done|]; left; eauto].
  destruct (prepare_enroll n) as [k|]; [|eexists _, _; split; [done|]; left; eauto].
  unfold postEnroll, cbind, exchange, cret. cbn [c_script c_sleeps c_trace].
  set (a := match tail (c_script s) with a :: _ => a | [] => None end).
  eexists [GotNonce g; PostedEnroll n a], _. split; [rewrite <- app_assoc; reflexivity|]. right. exists g, n, a. split; [done|].
  destruct (read_answer answer_limit a) as [[st' raw']|] eqn:Ea; [|done].
  destruct (Z.eqb_spec st' 200) as [->|Hne]; cbn [negb].
  - destruct (dec_enroll raw') as [er|] eqn:Ed; [|done]. by exists raw'.
  - unfold errorFromResponse. destruct (dec_error raw') as [[[reason []] after]|] eqn:Ee; simpl; [|done..].
    intros _. by exists st', raw', reason, after.
Qed.

(** A POST that is not the last one of the run. *)
Definition resent_after_refusal (evs : list cev) : Prop :=
  ∀ pre n a post, evs = pre ++ PostedEnroll n a :: post → count is_post_enroll post ≠ 0%nat → refused_retryably a.

Lemma split_after {A} (l1 l2 pre post : list A) x : l1 ++ l2 = pre ++ x :: post →
  (∃ mid, l1 = pre ++ x :: mid ∧ post = mid ++ l2) ∨ (∃ pre', pre = l1 ++ pre' ∧ l2 = pre' ++ x :: post).
Proof.
  intros E. destruct (decide (length l1 ≤ length pre)%nat) as [Hl|Hl].
  - right. exists (drop (length l1) pre).
    pose proof (f_equal (take (length l1)) E) as E1. rewrite take_app_length, take_app_le in E1 by done.
    pose proof (take_drop (length l1) pre) as T. rewrite <- E1 in T. split; [done|].
    rewrite <- T, <- app_assoc in E. by apply app_inv_head in E.
  - left. exists (drop (S (length pre)) l1).
    pose proof (f_equal (take (S (length pre))) E) as E1.
    rewrite take_app_le in E1 by lia.
    replace (pre ++ x :: post) with ((pre ++ [x]) ++ post) in E1 by by rewrite <- app_assoc.
    rewrite take_app_length' in E1 by (rewrite length_app; simpl; lia).
    pose proof (take_drop (S (length pre)) l1) as T. rewrite E1, <- app_assoc in T. split; [done|].
    rewrite <- T, <- !app_assoc in E. simpl in E. apply app_inv_head in E. by injection E.
Qed.

Lemma one_post_resent evs : (count is_post_enroll evs ≤ 1)%nat → resent_after_refusal evs.
Proof.
  intros Hc pre n a post -> Hp. rewrite count_app in Hc. unfold count at 2 in Hc. simpl in Hc.
  change (length (filter (λ e0, is_post_enroll e0 = true) post)) with (count is_post_enroll post) in Hc. lia.
Qed.

Lemma resent_app evs1 evs2 :
  (∀ pre n a post, evs1 = pre ++ PostedEnroll n a :: post → refused_retryably a) →
  resent_after_refusal evs2 → resent_after_refusal (evs1 ++ evs2).
Proof.
  intros H1 H2 pre n a post Hs Hp. destruct (split_after _ _ _ _ _ Hs) as [(mid & E & _)|(pre' & _ & E)]; eauto.
Qed.

Lemma enroll_loop_step {A} left (attempt : C (result cerror A)) s r s1 : attempt s = (r, s1) →
  enroll_loop left attempt s =
    match r with
    | Ok a => (Ok a, s1)
    | Err e =>
        match enrollRetryWait e, left with
        | Some wait, S left' =>
            let '(ok, s2) := sleepCtx wait s1 in
            if ok : bool then enroll_loop left' attempt s2 else (Err (Interrupted e), s2)
        | _, _ => (Err e, s1)
        end
    end.
Proof.
  intros E. destruct left; cbn [enroll_loop]; unfold cbind at 1; rewrite E; destruct r as [|e]; try done;
    destruct (enrollRetryWait e); try done. unfold cbind. destruct (sleepCtx z s1) as [[] s2]; done.
Qed.

(** An enrollment is posted at most as often as the attempts allow, again only after an
    answer that shows the last POST took no effect, and a success is the answer to the
    last POST. *)
Lemma enrollment_posts_once left s :
  ∃ evs, c_trace (enroll_loop left enrollOnce s).2 = c_trace s ++ evs ∧
    (count is_post_enroll evs ≤ S left)%nat ∧ resent_after_refusal evs ∧
    ∀ er k, (enroll_loop left enrollOnce s).1 = Ok (er, k) →
      ∃ pre n a raw, evs = pre ++ [PostedEnroll n a] ∧ read_answer answer_limit a = Some (200, raw) ∧
        dec_enroll raw = Some er.
Proof.
  revert s. induction left as [|left IH]; intros s;
    destruct (enrollOnce_spec s) as (evs & r & E & Hr); rewrite (enroll_loop_step _ _ _ _ _ E); clear E.
  all: assert (count is_post_enroll evs ≤ 1)%nat as Hc
    by (destruct Hr as [[(g & ->) _]|(g & n & a & -> & _)]; vm_compute; lia).
  all: pose proof (one_post_resent _ Hc) as Hone; destruct r as [[er k]|e]; cbn [fst snd c_trace].
  - exists evs. do 3 (split; [done|]). destruct Hr as [[_ ?]|(g & n & a & -> & raw & Ha & Hd)]; [done|].
    intros ?? [= <- <-]. by exists [GotNonce g], n, a, raw.
  - exists evs. destruct (enrollRetryWait e); by repeat split.
  - exists evs. split; [done|]. split; [lia|]. split; [done|].
    destruct Hr as [[_ ?]|(g & n & a & -> & raw & Ha & Hd)]; [done|]. intros ?? [= <- <-].
    by exists [GotNonce g], n, a, raw.
  - destruct (enrollRetryWait e) as [wait|] eqn:Hw; [|exists evs; simpl; split; [done|]; split; [lia|done]].
    unfold sleepCtx. cbn [c_script c_sleeps c_trace]. set (st := match c_sleeps s with b :: _ => b | [] => false end).
    destruct st; cbn [negb].
    { exists (evs ++ [Slept wait]). cbn [fst snd c_trace]. rewrite app_assoc. split; [done|].
      assert (count is_post_enroll (evs ++ [Slept wait]) ≤ 1)%nat as Hc' 
        by (rewrite count_app; change (count is_post_enroll [Slept wait]) with 0%nat; lia).
      split; [lia|]. split; [by apply one_post_resent|done]. }
    destruct (IH (CSt (c_script (enrollOnce s).2) (tail (c_sleeps s)) ((c_trace s ++ evs) ++ [Slept wait])))
      as (evs' & -> & Hcount & Hres & Hok). cbn [c_trace].
    exists (evs ++ [Slept wait] ++ evs'). split; [by rewrite <- !app_assoc|].
    split; [rewrite !count_app; change (count is_post_enroll [Slept wait]) with 0%nat; lia|]. split.
    + apply resent_app.
      * intros pre n a post Hs. destruct Hr as [[(g & ->) _]|(g & n' & a' & -> & Href)].
        -- by destruct pre as [|? []].
        -- destruct pre as [|? [|? []]]; try done. simpl in Hs. simplify_eq. by apply Href.
      * apply (resent_app [Slept wait]); [|done]. intros pre n a post Hs. by destruct pre as [|? []].
    + intros er k Hr'. destruct (Hok er k Hr') as (pre & n & a & raw & -> & Hd).
      exists (evs ++ [Slept wait] ++ pre), n, a, raw. by rewrite <- !app_assoc.
Qed.

(** *** Certificate requests *)
Definition nonce_from (g : option answer) (n : string) : Prop :=
  ∃ raw, read_answer nonce_limit g = Some (200, raw) ∧ dec_nonce raw = Some n.

Definition certificates_from (a : option answer) (name : string) (id : Identity) : Prop :=
  Name id = name ∧ ∃ raw ir, read_answer answer_limit a = Some (200, raw) ∧ dec_issue raw = Some ir ∧
    IdentityCertPEM id = ir_IdentityCert ir ∧ PublicCertPEM id = ir_PublicCert ir.

Lemma fetchNonce_spec s : ∃ g r s', fetchNonce s = (r, s') ∧ c_trace s' = c_trace s ++ [GotNonce g] ∧
  ∀ n, r = Ok n → nonce_from g n.
Proof.
  unfold fetchNonce, cbind, exchange, cret. set (g := match c_script s with a :: _ => a | [] => None end).
  exists g. do 2 eexists. split; [done|]. split; [done|]. intros n.
  destruct (read_answer nonce_limit g) as [[st raw]|] eqn:E; [|done].
  destruct (Z.eqb_spec st 200) as [->|]; simpl; [|done]. destruct (dec_nonce raw) as [n'|] eqn:D; [|done].
  intros [= ->]. by exists raw.
Qed.

Lemma issueCerts_spec name ca n s : ∃ evs r s', issueCerts name ca n s = (r, s') ∧ c_trace s' = c_trace s ++ evs ∧
  (evs = [] ∧ is_ok r = false ∨ ∃ a, evs = [PostedIssue n a] ∧ ∀ id, r = Ok id → certificates_from a name id).
Proof.
  unfold issueCerts. destruct (prepare_issue name n) as [[k1 k2]|].
  2:{ exists []. do 2 eexists. split; [done|]. split; [by rewrite app_nil_r|]. by left. }
  unfold cbind, exchange, cret. set (a := match c_script s with a :: _ => a | [] => None end).
  do 3 eexists. split; [done|]. split; [done|]. right. exists a. split; [done|]. intros id.
  destruct (read_answer answer_limit a) as [[st raw]|] eqn:E; [|done].
  destruct (Z.eqb_spec st 200) as [->|]; simpl; [|done]. destruct (dec_issue raw) as [ir|] eqn:D; [|done].
  intros [= <-]. split; [done|]. by exists raw, ir.
Qed.

(** Every POST carries the nonce that was fetched just before it. *)
Definition fresh_nonces (evs : list cev) : Prop :=
  ∀ pre n a post, evs = pre ++ PostedIssue n a :: post → ∃ pre' g, pre = pre' ++ [GotNonce g] ∧ nonce_from g n.

Lemma fresh_none evs : count is_post_issue evs = 0%nat → fresh_nonces evs.
Proof. intros Hc pre n a post ->. rewrite count_app in Hc. unfold count at 2 in Hc. simpl in Hc. lia. Qed.

Lemma fresh_app evs1 evs2 : fresh_nonces evs1 → fresh_nonces evs2 → fresh_nonces (evs1 ++ evs2).
Proof.
  intros H1 H2 pre n a post Hs. destruct (split_after _ _ _ _ _ Hs) as [(mid & E & _)|(pre' & -> & E)].
  - by eapply H1.
  - destruct (H2 _ _ _ _ E) as (pre'' & g & -> & Hn). exists (evs1 ++ pre''), g. by rewrite <- app_assoc.
Qed.

Lemma fresh_round d g n a : nonce_from g n → fresh_nonces [Slept d; GotNonce g; PostedIssue n a].
Proof.
  intros Hn pre n' a' post Hs. destruct pre as [|? [|? [|? []]]]; simplify_eq/=. by exists [Slept d], g.
Qed.

Lemma issue_loop_spec left r name ca s :
  ∃ evs, c_trace (issue_loop left r (issueCerts name ca) fetchNonce s).2 = c_trace s ++ evs ∧
    (count is_post_issue evs ≤ left)%nat ∧ fresh_nonces evs ∧
    (is_ok r = true → evs = []) ∧
    ∀ id, (issue_loop left r (issueCerts name ca) fetchNonce s).1 = Ok id → r = Ok id ∨
      ∃ pre n a, evs = pre ++ [PostedIssue n a] ∧ certificates_from a name id.
Proof.
  revert r s. induction left as [|left IH]; intros [id|e] s; cbn [issue_loop].
  1,3: exists []; rewrite app_nil_r; split; [done|]; split; [vm_compute; lia|]; split; [by apply fresh_none|]; split; [done|];
    intros ? [= ->]; by left.
  { exists []. rewrite app_nil_r. destruct (issueRetryWait e _); simpl; (split; [done|]); (split; [vm_compute; lia|]);
      (split; [by apply fresh_none|]); by split. }
  destruct (issueRetryWait e _) as [wait|].
  2:{ exists []. rewrite app_nil_r. split; [done|]. split; [vm_compute; lia|]. split; [by apply fresh_none|]. by split. }
  unfold cbind at 1 4. unfold sleepCtx.
  destruct (match c_sleeps s with b :: _ => b | [] => false end); cbn [negb].
  { exists [Slept wait]. split; [done|]. split; [vm_compute; lia|]. split; [by apply fresh_none|]. by split. }
  unfold cbind at 1 3. match goal with |- context [fetchNonce ?s1] =>
    destruct (fetchNonce_spec s1) as (g & [n|e'] & s2 & -> & T2 & Hn) end; cbn [c_trace] in T2.
  - unfold cbind. destruct (issueCerts_spec name ca n s2) as (evs1 & r1 & s3 & -> & T3 & Hr).
    destruct (IH r1 s3) as (evs' & -> & Hc & Hf & Hnil & Hok).
    exists ([Slept wait; GotNonce g] ++ evs1 ++ evs'). rewrite T3, T2, <- !app_assoc. split; [done|].
    destruct Hr as [[-> Hr]|(a & -> & Hr)].
    + split; [exact (le_S _ _ Hc)|]. split; [by apply fresh_app; [apply fresh_none|]|]. split; [done|].
      intros id Hid. destruct (Hok id Hid) as [->|(pre & n' & a & -> & Hf')]; [done|]. right.
      by exists ([Slept wait; GotNonce g] ++ pre), n', a.
    + split; [rewrite !count_app; change (count is_post_issue [Slept wait; GotNonce g]) with 0%nat;
        change (count is_post_issue [PostedIssue n a]) with 1%nat; lia|].
      split; [apply (fresh_app [Slept wait; GotNonce g; PostedIssue n a]); [by apply fresh_round, Hn|done]|]. split; [done|].
      intros id Hid. right. destruct (Hok id Hid) as [->|(pre & n' & a' & -> & Hf')].
      * rewrite (Hnil eq_refl). exists [Slept wait; GotNonce g], n, a. split; [done|]. by apply Hr.
      * by exists ([Slept wait; GotNonce g; PostedIssue n a] ++ pre), n', a'.
  - destruct (IH (Err e') s2) as (evs' & -> & Hc & Hf & _ & Hok).
    exists ([Slept wait; GotNonce g] ++ evs'). rewrite T2, <- !app_assoc. split; [done|].
    split; [exact (le_S _ _ Hc)|]. split; [by apply fresh_app; [apply fresh_none|]|]. split; [done|].
    intros id Hid. destruct (Hok id Hid) as [?|(pre & n' & a & -> & Hf')]; [done|]. right.
    by exists ([Slept wait; GotNonce g] ++ pre), n', a.
Qed.

(** A renewal posts the nonce it was given and then, after each wait, one it has just
    fetched, at most four times; it ends with the identity unchanged, or with one of the
    same name from the last answer. *)
Lemma renewal_spends_each_nonce_once ident nonce s :
  let '((err, ident'), s') := Renew ident nonce s in
  ∃ first rest, c_trace s' = c_trace s ++ first ++ rest ∧
    (first = [] ∨ ∃ a, first = [PostedIssue nonce a]) ∧ fresh_nonces rest ∧
    (count is_post_issue (first ++ rest) ≤ 4)%nat ∧
    match err with
    | Some _ => ident' = ident
    | None => Name ident' = Name ident ∧ tlsCertificate ident' = true ∧
        ∃ pre n a, first ++ rest = pre ++ [PostedIssue n a] ∧ certificates_from a (Name ident) ident'
    end.
Proof.
  unfold Renew, issueWithRetries, cbind. destruct (issueCerts_spec (Name ident) (CA ident) nonce s) as (first & r & s1 & -> & T1 & Hr).
  destruct (issue_loop_spec IssueRetries r (Name ident) (CA ident) s1) as (rest & T2 & Hc & Hf & Hnil & Hok).
  destruct (issue_loop _ _ _ _ s1) as [r' s2]. cbn [fst snd] in T2, Hok. unfold cret. unfold IssueRetries in Hc.
  assert (first = [] ∨ ∃ a, first = [PostedIssue nonce a]) as Hfirst by (destruct Hr as [[-> _]|(a & -> & _)]; eauto).
  assert (count is_post_issue (first ++ rest) ≤ 4)%nat as Hcount.
  { rewrite count_app. assert (count is_post_issue first ≤ 1)%nat; [|lia]. destruct Hfirst as [->|(a & ->)]; vm_compute; lia. }
  assert (∀ id, r' = Ok id → ∃ pre n a, first ++ rest = pre ++ [PostedIssue n a] ∧ certificates_from a (Name ident) id) as Hid.
  { intros id ->. destruct (Hok id eq_refl) as [->|(pre & n & a & -> & Hfrom)].
    - rewrite (Hnil eq_refl), app_nil_r. destruct Hr as [[_ ?]|(a & -> & Hr)]; [done|]. exists [], nonce, a. split; [done|]. by apply Hr.
    - exists (first ++ pre), n, a. by rewrite <- app_assoc. }
  destruct r' as [id|e]; [destruct (tlsCertificate id) eqn:Ht|]; exists first, rest; rewrite T2, T1, <- app_assoc; (split; [done|]);
    (split; [done|]); (split; [done|]); (split; [done|]); try done.
  destruct (Hid id eq_refl) as (pre & n & a & E & Hn & Hrest). split; [done|]. split; [done|]. exists pre, n, a. by split.
Qed.
End requests.
Arguments Identity : clear implicits.

(** ** The frame loop *)
Record OpenPayload := MkOpen { op_Token : string; op_Addr : string; op_UseHTTPS : bool; op_UseMTLS : bool; op_ClientAddr : string }.

Inductive action :=
| DialBack (op : OpenPayload)
| SendPong
| RenewWith (nonce : string).

Inductive pump_end := PumpEOF | PumpTooLarge | PumpMalformed.

Section pump.
Context (dec_open : bytes → option OpenPayload) (dec_nudge : bytes → option string) (dec_move : bytes → option (list string)).

(** [readControlFrame] of the client, which decodes as well. *)
Definition read_control (r : bytes) : result pump_end (byte * bytes * bytes) :=
  match readControlFrame r with
  | Err ReadEOF => Err PumpEOF
  | Err ReadTooLarge => Err PumpTooLarge
  | Ok (frame, rest) =>
      match DecodeControl frame with Ok (t, p) => Ok (t, p, rest) | Err _ => Err PumpMalformed end
  end.

(** [handleOpen] up to the dial: [None] when the order is ignored. *)
Definition handleOpen (payload : bytes) : option action :=
  match dec_open payload with
  | None => None
  | Some op =>
      if String.eqb (op_Token op) "" || String.eqb (op_Addr op) "" || String.eqb (op_ClientAddr op) ""
         || (op_UseMTLS op && negb (op_UseHTTPS op))
      then None else Some (DialBack op)
  end.

Definition nudge (payload : bytes) : option action :=
  match dec_nudge payload with
  | None => None
  | Some n => if String.eqb n "" then None else Some (RenewWith n)
  end.

Definition move_order (payload : bytes) : option (list string) :=
  match dec_move payload with None | Some [] => None | Some addrs => Some addrs end.

(** What a frame makes the client do, and the MOVE it carries. *)
Definition handle (t : byte) (payload : bytes) : option action * option (list string) :=
  if Byte.eqb t CtrlOpen then (handleOpen payload, None)
  else if Byte.eqb t CtrlPing then (Some SendPong, None)
  else if Byte.eqb t CtrlRenewNudge then (nudge payload, None)
  else if Byte.eqb t CtrlMove then (None, move_order payload)
  else (None, None).

(** The channel takes the first MOVE; who waits for it takes only that one. *)
Definition first_move (m m' : option (list string)) : option (list string) :=
  match m with Some _ => m | None => m' end.

Fixpoint pump (fuel : nat) (r : bytes) (acts : list action) (moved : option (list string))
    : list action * option (list string) * pump_end :=
  match fuel with
  | O => (acts, moved, PumpEOF)
  | S fuel =>
      match read_control r with
      | Err e => (acts, moved, e)
      | Ok (t, payload, rest) =>
          let '(a, m) := handle t payload in
          pump fuel rest (acts ++ from_option (λ a, [a]) [] a) (first_move moved m)
      end
  end.

(** ** Moving between nodes *)
Definition moveTargets (addrs : list string) : list string :=
  filter (λ a, match Challenges.SplitHostPort a with
               | Some (host, port) => negb (String.eqb host "") && negb (String.eqb port "")
               | None => false
               end = true) addrs.

(** A dialled address: refused (and whether the context is over), or a stream. *)
Inductive connection := NotOpened (ctx_over : bool) | Opened (stream : bytes).

Record rst := RSt {
  r_conns : list connection;                  (* [NotOpened false] when it runs out *)
  r_sleeps : list bool;                       (* whether a sleep is interrupted *)
  r_dials : list (string * connection)
}.

Definition serveConn (addr : string) (s : rst) : connection * rst :=
  let c := match r_conns s with c :: _ => c | [] => NotOpened false end in
  (c, RSt (tail (r_conns s)) (r_sleeps s) (r_dials s ++ [(addr, c)])).

(** The MOVE a connection ended with. *)
Definition next_of (c : connection) : option (list string) :=
  match c with NotOpened _ => None | Opened stream => (pump (S (length stream)) stream [] None).1.2 end.

(** The targets in turn: the MOVE of the one that opened ([Some None]: it ended
    without), [None] when none did; [true] when the context is over. *)
Fixpoint try_targets (addrs : list string) (s : rst) : option (option (list string)) * bool * rst :=
  match addrs with
  | [] => (None, false, s)
  | addr :: addrs' =>
      let '(c, s) := serveConn addr s in
      match c with
      | Opened _ => (Some (next_of c), false, s)
      | NotOpened true => (None, true, s)
      | NotOpened false => try_targets addrs' s
      end
  end.

Definition sleep_move (s : rst) : bool * rst :=
  (negb match r_sleeps s with b :: _ => b | [] => false end, RSt (r_conns s) (tail (r_sleeps s)) (r_dials s)).

Definition move (dialAddr : string) (addrs : list string) (s : rst) : option (list string) * rst :=
  let '(r, over, s) := try_targets (moveTargets addrs) s in
  match r with
  | Some next => (next, s)
  | None =>
      if over then (None, s)
      else
        let '(c, s) := serveConn dialAddr s in
        match next_of c with
        | None => (None, s)
        | Some next => let '(ok, s) := sleep_move s in (if ok then Some next else None, s)
        end
  end.

Fixpoint run_moves (fuel : nat) (dialAddr : string) (next : option (list string)) (s : rst) : option rst :=
  match next with
  | None => Some s
  | Some addrs =>
      match fuel with
      | O => None
      | S fuel => let '(next, s) := move dialAddr addrs s in run_moves fuel dialAddr next s
      end
  end.

(** [Run] returns with the state it reached; [None] when the fuel is not enough. *)
Definition Run (fuel : nat) (dialAddr : string) (s : rst) : option rst :=
  let '(c, s) := serveConn dialAddr s in run_moves fuel dialAddr (next_of c) s.

(** ** The loop serves the frames the server encoded *)
Definition end_of (e : read_error) : pump_end := match e with ReadEOF => PumpEOF | ReadTooLarge => PumpTooLarge end.
Definition sent (tb : byte * bytes) (f : bytes) : Prop := EncodeControl (λ b : bytes, Some b) tb.1 (Some tb.2) = Ok f.

Lemma read_sent tb f rest : sent tb f → read_control (f ++ rest) = Ok (tb.1, tb.2, rest).
Proof.
  intros (body & -> & Hlen & [= Hb])%encode_shape. subst body. unfold read_control.
  rewrite <- app_comm_cons, <- (app_assoc (put_be32 _)), read_frame_prefix, decode_frame by done. done.
Qed.

Lemma pump_sent tbs fs tail e fuel acts moved :
  Forall2 sent tbs fs → readControlFrame tail = Err e → (length tbs < fuel)%nat →
  pump fuel (concat fs ++ tail) acts moved =
    (acts ++ omap (λ tb, (handle tb.1 tb.2).1) tbs,
     first_move moved (head (omap (λ tb, (handle tb.1 tb.2).2) tbs)), end_of e).
Proof.
  intros Hs Ht. revert fuel acts moved. induction Hs as [|tb f tbs fs Hf Hs IH]; intros [|fuel] acts moved Hfuel; simpl in Hfuel; try lia.
  - cbn [pump concat]. simpl. unfold read_control. rewrite Ht, app_nil_r. destruct e, moved; done.
  - cbn [pump concat]. rewrite <- app_assoc, (read_sent tb) by done.
    destruct (handle tb.1 tb.2) as [a m] eqn:Hh. rewrite IH by lia. simpl. rewrite Hh. simpl.
    destruct a, m, moved; simpl; by rewrite <- ?app_assoc, ?app_nil_r.
Qed.

Lemma sent_length tbs fs : Forall2 sent tbs fs → (length tbs ≤ length (concat fs))%nat.
Proof.
  induction 1 as [|tb f tbs fs Hf Hs IH]; [done|]. cbn [concat]. rewrite length_app.
  apply encode_shape in Hf as (body & -> & _). simpl. lia.
Qed.

(** The frames a server wrote are read back and handled by the client in order, each
    once; the first MOVE is followed, and the pump ends as the stream does. *)
Lemma frames_served_in_order tbs fs tail e :
  Forall2 sent tbs fs → readControlFrame tail = Err e →
  let stream := concat fs ++ tail in
  pump (S (length stream)) stream [] None =
    (omap (λ tb, (handle tb.1 tb.2).1) tbs, head (omap (λ tb, (handle tb.1 tb.2).2) tbs), end_of e).
Proof.
  intros Hs Ht stream. unfold stream. rewrite (pump_sent tbs fs tail e); [done..|].
  pose proof (sent_length tbs fs Hs). rewrite length_app. lia.
Qed.

(** ** Following MOVE orders *)
Definition known_address (dialAddr : string) (dials : list (string * connection)) (addr : string) : Prop :=
  addr = dialAddr ∨ ∃ a c l, (a, c) ∈ dials ∧ next_of c = Some l ∧ addr ∈ moveTargets l.

(** Every dial is to the configured address or to a target of an earlier MOVE. *)
Definition dials_known (dialAddr : string) (dials : list (string * connection)) : Prop :=
  ∀ pre addr c post, dials = pre ++ (addr, c) :: post → known_address dialAddr pre addr.

(** Why a run ended: the connection it was on ended, or the context did, or the
    configured address would not open, or the wait before the next move was cut. *)
Definition stopped (dialAddr : string) (interrupted : bool) (dials : list (string * connection)) : Prop :=
  ∃ pre addr c, dials = pre ++ [(addr, c)] ∧
    match c with
    | Opened _ => next_of c = None ∨ addr = dialAddr ∧ interrupted = true
    | NotOpened over => over = true ∨ addr = dialAddr
    end.

Lemma dials_known_snoc dialAddr dials addr c : dials_known dialAddr dials → known_address dialAddr dials addr →
  dials_known dialAddr (dials ++ [(addr, c)]).
Proof.
  intros Hd Hk pre a c' post Hs. destruct (split_after _ _ _ _ _ Hs) as [(mid & E & _)|(pre' & -> & E)]; [by eapply Hd|].
  destruct pre' as [|? []]; simplify_eq/=. by rewrite app_nil_r.
Qed.

Lemma known_address_mono dialAddr dials dials' addr : known_address dialAddr dials addr →
  known_address dialAddr (dials ++ dials') addr.
Proof. intros [->|(a & c & l & Hin & Hn & Ha)]; [by left|]. right. exists a, c, l. split; [set_solver|done]. Qed.

Lemma try_targets_spec dialAddr targets s r over s' :
  dials_known dialAddr (r_dials s) → Forall (known_address dialAddr (r_dials s)) targets →
  try_targets targets s = (r, over, s') →
  dials_known dialAddr (r_dials s') ∧ r_sleeps s' = r_sleeps s ∧ (length (r_conns s') ≤ length (r_conns s))%nat ∧
  (∀ l, r = Some (Some l) → (length (r_conns s') < length (r_conns s))%nat ∧
     ∃ a c, (a, c) ∈ r_dials s' ∧ next_of c = Some l) ∧
  (r = Some None ∨ over = true → ∀ b, stopped dialAddr b (r_dials s')).
Proof.
  revert s. induction targets as [|addr targets IH]; intros s Hd Hk; simpl.
  { intros [= <- <- <-]. repeat split; try done. by intros [|]. }
  inversion Hk as [|? ? Ha Hk']; subst.
  set (c := match r_conns s with c :: _ => c | [] => NotOpened false end).
  pose proof (dials_known_snoc dialAddr _ addr c Hd Ha) as Hd'.
  assert (length (tail (r_conns s)) ≤ length (r_conns s))%nat as Hle by (destruct (r_conns s); simpl; lia).
  destruct c as [[]|stream] eqn:Hc.
  - intros [= <- <- <-]. split; [done|]. split; [done|]. split; [done|]. split; [done|].
    intros _ b. eexists _, _, _. split; [done|]. by left.
  - intros Ht. apply IH in Ht as (I1 & I2 & I3 & I4 & I5);
      [|done|eapply Forall_impl; [exact Hk'|]; intros; by apply known_address_mono].
    cbn [r_conns r_sleeps] in *. split; [done|]. split; [done|]. split; [lia|]. split; [|done].
    intros l Hl. destruct (I4 l Hl) as [? ?]. split; [lia|done].
  - assert (length (tail (r_conns s)) < length (r_conns s))%nat as Hlt.
    { unfold c in Hc. destruct (r_conns s); simpl; [done|lia]. }
    cbv zeta iota. intros [= <- <- <-]. split; [done|]. split; [done|]. split; [done|]. split.
    + intros l [= Hl]. split; [done|]. exists addr, (Opened stream). split; [apply elem_of_app; right; by constructor|done].
    + intros [[= Hn]|?] b; [|done]. eexists _, _, _. split; [done|]. by left.
Qed.

(** [has_interrupt]: some wait of the run is cut. *)
Definition has_interrupt (sleeps : list bool) : bool := existsb id sleeps.

Lemma move_spec dialAddr addrs s next s' :
  dials_known dialAddr (r_dials s) → (∃ a c, (a, c) ∈ r_dials s ∧ next_of c = Some addrs) →
  move dialAddr addrs s = (next, s') →
  dials_known dialAddr (r_dials s') ∧ (has_interrupt (r_sleeps s') = true → has_interrupt (r_sleeps s) = true) ∧
  match next with
  | Some l => (length (r_conns s') < length (r_conns s))%nat ∧ ∃ a c, (a, c) ∈ r_dials s' ∧ next_of c = Some l
  | None => stopped dialAddr (has_interrupt (r_sleeps s)) (r_dials s')
  end.
Proof.
  intros Hd (a & c & Hin & Hn). unfold move.
  destruct (try_targets (moveTargets addrs) s) as [[r over] s1] eqn:Ht.
  apply (try_targets_spec dialAddr) in Ht as (D1 & S1 & L1 & N1 & E1); [|done|].
  2:{ apply Forall_forall. intros x Hx. right. by exists a, c, addrs. }
  destruct r as [[l|]|].
  { intros [= <- <-]. rewrite S1. split; [done|]. split; [done|]. by apply N1. }
  { intros [= <- <-]. rewrite S1. split; [done|]. split; [done|]. apply E1. by left. }
  destruct over.
  { intros [= <- <-]. rewrite S1. split; [done|]. split; [done|]. apply E1. by right. }
  unfold serveConn, sleep_move. cbn [r_conns r_sleeps r_dials]. rewrite S1.
  set (c' := match r_conns s1 with c :: _ => c | [] => NotOpened false end).
  assert (dials_known dialAddr (r_dials s1 ++ [(dialAddr, c')])) as D2 by (apply dials_known_snoc; [done|by left]).
  destruct (next_of c') as [l|] eqn:Hc.
  - destruct (r_sleeps s) as [|[] sl] eqn:Hs; cbn [negb tail]; intros [= <- <-]; cbn [r_dials r_sleeps r_conns].
    2:{ split; [done|]. split; [done|]. eexists _, _, _. split; [done|]. destruct c'; [done|by right]. }
    all: split; [done|]; split; [done|]; split;
      [unfold c' in Hc; destruct (r_conns s1); simpl in *; [done|lia]|];
      exists dialAddr, c'; split; [apply elem_of_app; right; by constructor|done].
  - intros [= <- <-]. split; [done|]. split; [done|]. eexists _, _, _. split; [done|]. destruct c'; [by right|by left].
Qed.

Lemma run_moves_spec fuel dialAddr next s :
  dials_known dialAddr (r_dials s) → (length (r_conns s) < fuel)%nat →
  match next with
  | Some l => ∃ a c, (a, c) ∈ r_dials s ∧ next_of c = Some l
  | None => stopped dialAddr (has_interrupt (r_sleeps s)) (r_dials s)
  end →
  ∃ s', run_moves fuel dialAddr next s = Some s' ∧ dials_known dialAddr (r_dials s') ∧
        stopped dialAddr (has_interrupt (r_sleeps s)) (r_dials s').
Proof.
  revert next s. induction fuel as [|fuel IH]; intros next s Hd Hf Hn; [lia|].
  destruct next as [addrs|]; cbn [run_moves]; [|by exists s].
  destruct (move dialAddr addrs s) as [next s1] eqn:Hm.
  destruct (move_spec dialAddr addrs s next s1 Hd Hn Hm) as (D1 & I1 & M1).
  assert (∀ dials, stopped dialAddr (has_interrupt (r_sleeps s1)) dials → stopped dialAddr (has_interrupt (r_sleeps s)) dials) as Hmono.
  { intros dials (pre & addr & c & E & Hc). exists pre, addr, c. split; [done|]. destruct c; [done|].
    destruct Hc as [?|[? Hi]]; [by left|right; auto]. }
  destruct next as [l|]; [|by destruct fuel; exists s1].
  destruct M1 as [Hl Hex]. destruct (IH (Some l) s1 D1 ltac:(lia) Hex) as (s' & -> & D2 & St). exists s'. auto.
Qed.

(** C23. Following MOVE orders ends, and strands no phone. With fuel above the number of
    connections the network will open, the run returns; every address it dialled is the
    configured one or a well-formed target of a MOVE received on an earlier connection;
    and the last thing that happened is that the connection in use ended without a MOVE,
    that the configured address would not open, that the context was over, or that the
    wait before following a MOVE was cut short. *)
Theorem moves_followed fuel dialAddr s :
  r_dials s = [] → (length (r_conns s) < fuel)%nat →
  ∃ s', Run fuel dialAddr s = Some s' ∧ dials_known dialAddr (r_dials s') ∧
        stopped dialAddr (has_interrupt (r_sleeps s)) (r_dials s').
Proof.
  intros Hnil Hf. unfold Run, serveConn. set (c := match r_conns s with c :: _ => c | [] => NotOpened false end).
  rewrite Hnil. apply (run_moves_spec fuel dialAddr (next_of c) (RSt (tail (r_conns s)) (r_sleeps s) ([] ++ [(dialAddr, c)]))).
  - apply dials_known_snoc; [|by left]. intros pre ? ? ? E. by destruct pre.
  - simpl. destruct (r_conns s); simpl in *; lia.
  - cbn [r_dials r_sleeps]. destruct (next_of c) as [l|] eqn:Hc.
    + exists dialAddr, c. split; [by constructor|done].
    + exists [], dialAddr, c. split; [done|]. destruct c; [by right|by left].
Qed.
End pump.

(** ** Renewals one at a time

    [renew] runs in its own goroutine; the flag lets one in. *)
Record renewals := RSet { rn_flag : bool; rn_running : nat }.
Inductive renew_step : renewals → renewals → Prop :=
| renew_enter n : renew_step (RSet false n) (RSet true (S n))          (* CompareAndSwap succeeds *)
| renew_ignored n : renew_step (RSet true n) (RSet true n)
| renew_leave n : renew_step (RSet true (S n)) (RSet false n).

Definition renew_inv (s : renewals) : Prop := rn_running s = if rn_flag s then 1%nat else 0%nat.

Lemma renew_inv_steps s0 s : rtc renew_step s0 s → renew_inv s0 → renew_inv s.
Proof.
  unfold renew_inv. induction 1 as [|x y z Hst Hs IH]; [done|]. intros Hx. apply IH.
  inversion Hst; subst; simpl in *; lia.
Qed.

Lemma one_renewal_at_a_time s : rtc renew_step (RSet false 0) s → (rn_running s ≤ 1)%nat.
Proof. intros Hs. pose proof (renew_inv_steps _ _ Hs eq_refl) as Hi. red in Hi. destruct (rn_flag s); lia. Qed.

(** ** Witnesses *)
Lemma frames_served_in_order_witness :
  let stream := concat [ping_frame; ping_frame] ++ [] in
  pump (λ _, None) (λ _, None) (λ _, None) (S (length stream)) stream [] None =
    (omap (λ tb, (handle (λ _, None) (λ _, None) (λ _, None) tb.1 tb.2).1)
       [(CtrlPing, [x7b; x7d]); (CtrlPing, [x7b; x7d])],
     head (omap (λ tb, (handle (λ _, None) (λ _, None) (λ _, None) tb.1 tb.2).2)
       [(CtrlPing, [x7b; x7d]); (CtrlPing, [x7b; x7d])]), end_of ReadEOF).
Proof.
  apply (frames_served_in_order (λ _, None) (λ _, None) (λ _, None)
    [(CtrlPing, [x7b; x7d]); (CtrlPing, [x7b; x7d])] [ping_frame; ping_frame] [] ReadEOF); [|done].
  repeat constructor.
Defined.

(** A node that sends the phone to another, which then ends. *)
Definition move_frame : bytes := [x05; x00; x00; x00; x01; x31].
Definition sample_moves (b : bytes) : option (list string) := Some ["192.0.2.7:443"].
Definition sample_run : rst := RSt [Opened move_frame; Opened []] [] [].

Lemma moves_followed_witness :
  ∃ s', Run (λ _, None) (λ _, None) sample_moves 3 "tunnel.example:443" sample_run = Some s' ∧
    dials_known (λ _, None) (λ _, None) sample_moves "tunnel.example:443" (r_dials s') ∧
    stopped (λ _, None) (λ _, None) sample_moves "tunnel.example:443" (has_interrupt []) (r_dials s').
Proof.
  apply (moves_followed (λ _, None) (λ _, None) sample_moves 3 "tunnel.example:443" sample_run); [done|].
  simpl. lia.
Defined.

Example sample_run_dials :
  map fst (from_option r_dials [] (Run (λ _, None) (λ _, None) sample_moves 3 "tunnel.example:443" sample_run)) =
  ["tunnel.example:443"; "192.0.2.7:443"].
Proof. by vm_compute. Qed.
End Client.
