(* ===== verification/LegoOrder.v ===== *)
(** * One order through the lego client

    [obtain], the classes of its errors and the checks of the chain it returns
    ([internal/acme/lego_client.go]).  The order runs in a goroutine of its own so
    that a caller whose context ends, or who is told of a rate limit, need not
    wait for it; a certificate that comes too late must not vanish without a
    trace.

    The lego library is a parameter: what an order ends with, and what
    [errors.Is] and [errors.As] find in its error.  So are PEM blocks and X.509. *)
From Stdlib Require Import ZArith Lia Ascii String.
From S2P Require Import Prelude GoStr Attest Enroll GoFloat Acme.
Local Open Scope string_scope.
Local Open Scope list_scope.
Local Open Scope Z_scope.

Module LegoOrder.
Import Enroll Acme.

(** ** Classes of errors *)
Record lego_error := LegoError {
  le_panicked : bool;                        (* errors.Is report.ErrPanicked *)
  le_store : bool;                           (* errors.Is ErrChallengeStore *)
  le_limited : option Z;                     (* a RateLimitedError and its Retry-After *)
  le_problem : option (Z * string)           (* ProblemDetails: HTTPStatus, Type *)
}.

Fixpoint Contains (s sub : string) : bool :=
  HasPrefix s sub || match s with "" => false | String _ s' => Contains s' sub end.

Definition rateLimited (retry : Z) : issue_error := IssueError (Some (ClassRateLimited, retry)) false.
Definition transient : issue_error := IssueError (Some (ClassTransient, 0)) false.
Definition permanent : issue_error := IssueError (Some (ClassPermanent, 0)) false.
Definition local_ (retry : Z) : issue_error := IssueError (Some (ClassLocal, retry)) false.

Definition classifyLego (e : lego_error) : issue_error :=
  if le_panicked e then panicked transient
  else if le_store e then local_ localChallengeRetry
  else match le_limited e with
  | Some d => rateLimited d
  | None =>
      match le_problem e with
      | Some (status, type) =>
          if (status =? 429) || Contains type "rateLimited" then rateLimited 0
          else if 500 <=? status then transient
          else if Contains type "badCSR" || Contains type "malformed" || Contains type "rejectedIdentifier"
                  || Contains type "unsupportedIdentifier" then permanent
          else transient
      | None => transient
      end
  end.

(** ** The chain *)
Definition pemCertificateType : string := "CERTIFICATE".
Definition pemBlockBegin : string := "-----BEGIN ".
Definition minChainCerts : nat := 2.

(** [bytes.Count]: instances that do not overlap; [skip] bytes belong to the last one. *)
Fixpoint count_from (skip : nat) (s sep : string) : nat :=
  match s with
  | "" => 0
  | String _ s' =>
      match skip with
      | S n => count_from n s' sep
      | O => if HasPrefix s sep then S (count_from (String.length sep - 1) s' sep) else count_from 0 s' sep
      end
  end.
Definition Count (s sep : string) : nat := count_from 0 s sep.

Inductive chain_error :=
| StrayBlock (type : string)
| BadCertificate (i : nat)
| BlocksUnparsed (blocks parsed : nat)
| ChainTooShort (n : nat)
| NotSignedByNext (i : nat).

Section chain.
Context {X : Type}.
Context (pem_Decode : string → option (string * string * string))       (* type, bytes, rest *)
        (pem_Encode : string → string)                                  (* a certificate block *)
        (ParseCertificate : string → option X) (CheckSignatureFrom : X → X → bool).
Context (SerialText : X → string) (NotBefore NotAfter : X → Z).

(** The blocks of a text; a block takes some of it, so that its length is fuel enough. *)
Fixpoint blocks_from (fuel : nat) (rest : string) : list (string * string) :=
  match fuel with
  | O => []
  | S fuel => match pem_Decode rest with
              | None => []
              | Some (type, der, rest) => (type, der) :: blocks_from fuel rest
              end
  end.
Definition pem_blocks (s : string) : list (string * string) := blocks_from (S (String.length s)) s.

Definition is_certificate (b : string * string) : bool := String.eqb b.1 pemCertificateType.

Definition chainCertCount (pemChain : string) : nat :=
  length (filter (λ b, is_certificate b = true) (pem_blocks pemChain)).

Definition adjacentChain (issued : string) : string :=
  let pemChain := fold_right (λ b acc, pem_Encode b.2 +:+ acc) ""
                    (filter (λ b, is_certificate b = true) (pem_blocks issued)) in
  if negb (chainCertCount pemChain =? Count issued pemBlockBegin)%nat then issued else pemChain.

Fixpoint parse_blocks (blocks : list (string * string)) (certs : list X) : result chain_error (list X) :=
  match blocks with
  | [] => Ok certs
  | b :: blocks' =>
      if negb (is_certificate b) then Err (StrayBlock b.1)
      else match ParseCertificate b.2 with
           | None => Err (BadCertificate (length certs))
           | Some c => parse_blocks blocks' (certs ++ [c])
           end
  end.

Fixpoint unsigned_from (i : nat) (certs : list X) : option nat :=
  match certs with
  | c :: (d :: _) as rest => if CheckSignatureFrom c d then unsigned_from (S i) rest else Some i
  | _ => None
  end.

Definition chainIssue (issued : string) : option chain_error :=
  match parse_blocks (pem_blocks issued) [] with
  | Err e => Some e
  | Ok certs =>
      if negb (Count issued pemBlockBegin =? length certs)%nat
      then Some (BlocksUnparsed (Count issued pemBlockBegin) (length certs))
      else if (length certs <? minChainCerts)%nat then Some (ChainTooShort (length certs))
      else NotSignedByNext <$> unsigned_from 0 certs
  end.

Definition certInfoFromPEM (caID pemChain : string) : option CertInfo :=
  match pem_Decode pemChain with
  | None => None
  | Some (_, der, _) =>
      match ParseCertificate der with
      | None => None
      | Some c => Some {| ci_CA := caID; ci_Serial := SerialText c; ci_NotBefore := NotBefore c;
                          ci_NotAfter := NotAfter c; ci_ARIID := "" |}
      end
  end.

(** ** The order and its caller *)

(** What the goroutine ends with: the answer of lego, or a panic. *)
Inductive ending := Finished (r : result lego_error string) | Panicking.

Definition result_of (e : ending) : result lego_error string :=
  match e with Finished r => r | Panicking => Err (LegoError true false None None) end.

Inductive stop := ContextDone (cause : lego_error) | Limited (d : Z).
Inductive caller := Waiting | Stopped (s : stop) | Received (r : result lego_error string).

Record ost := OSt {
  os_ended : option ending;                  (* [None] while the goroutine runs *)
  os_chan : option (result lego_error string);
  os_abandoned : bool;
  os_caller : caller;
  os_logged : list (result lego_error string);   (* [logAbandoned] *)
  os_track : bool                            (* the order's track, if it has one, was abandoned *)
}.
Definition ostart : ost := OSt None None false Waiting [] false.

(** The goroutine's end, under the mutex. *)
Definition finish (e : ending) (s : ost) : ost :=
  if os_abandoned s then
    OSt (Some e) (os_chan s) true (os_caller s)
      (match e with Finished r => os_logged s ++ [r] | Panicking => os_logged s end) (os_track s)
  else OSt (Some e) (Some (result_of e)) false (os_caller s) (os_logged s) (os_track s).

(** [abandon], under the mutex, and then the track. *)
Definition abandon (why : stop) (s : ost) : ost :=
  match os_chan s with
  | Some r => OSt (os_ended s) None true (Stopped why) (os_logged s ++ [r]) true
  | None => OSt (os_ended s) None true (Stopped why) (os_logged s) true
  end.

Definition receive (r : result lego_error string) (s : ost) : ost :=
  OSt (os_ended s) None (os_abandoned s) (Received r) (os_logged s) (os_track s).

Inductive ostep : ost → ost → Prop :=
| OFinish e s : os_ended s = None → ostep s (finish e s)
| OStop why s : os_caller s = Waiting → ostep s (abandon why s)
| OReceive r s : os_caller s = Waiting → os_chan s = Some r → ostep s (receive r s).

(** What [obtain] returns to a caller in that state. *)
Definition returned (caID : string) (c : caller) : option (result issue_error (string * CertInfo)) :=
  match c with
  | Waiting => None
  | Stopped (ContextDone cause) => Some (Err (classifyLego cause))
  | Stopped (Limited d) => Some (Err (rateLimited d))
  | Received (Err e) => Some (Err (classifyLego e))
  | Received (Ok issued) =>
      Some match certInfoFromPEM caID issued with
           | None => Err permanent
           | Some info => Ok (adjacentChain issued, info)
           end
  end.

Record oinv (s : ost) : Prop := OInv {
  oi_running : os_ended s = None → os_chan s = None ∧ os_logged s = [] ∧ ∀ r, os_caller s ≠ Received r;
  oi_abandoned : os_abandoned s = true ↔ ∃ why, os_caller s = Stopped why;
  oi_track : os_track s = os_abandoned s;
  oi_ended : ∀ e, os_ended s = Some e →
    match os_caller s with
    | Waiting => os_chan s = Some (result_of e) ∧ os_logged s = []
    | Received r => r = result_of e ∧ os_chan s = None ∧ os_logged s = []
    | Stopped _ => os_chan s = None ∧ (os_logged s = [result_of e] ∨ e = Panicking ∧ os_logged s = [])
    end
}.

Lemma oinv_start : oinv ostart.
Proof. split; simpl; try done. split; [done|]. by intros [? ?]. Qed.

Lemma oinv_finish e s : os_ended s = None → oinv s → oinv (finish e s).
Proof.
  intros He [I1 I2 I3 I4]. destruct s as [en ch ab ca lo tr]; simpl in *. subst en.
  destruct (I1 eq_refl) as (-> & -> & Hr). unfold finish. destruct ab; simpl.
  - destruct (proj1 I2 eq_refl) as [why ->]. split; simpl; try done. intros e' [= <-]. split; [done|]. destruct e; auto.
  - split; simpl; try done. intros e' [= <-]. destruct ca as [|why|r]; [done| |by destruct (Hr r)].
    assert (false = true) by (apply I2; by exists why). done.
Qed.

Lemma oinv_abandon why s : os_caller s = Waiting → oinv s → oinv (abandon why s).
Proof.
  intros Hw [I1 I2 I3 I4]. destruct s as [en ch ab ca lo tr]; simpl in *. subst ca. unfold abandon.
  destruct en as [e|]; simpl.
  - destruct (I4 e eq_refl) as [-> ->]. split; simpl; try done.
    + split; [by exists why|done].
    + intros e' [= <-]. split; [done|]. by left.
  - destruct (I1 eq_refl) as (-> & -> & _). split; simpl; try done. split; [by exists why|done].
Qed.

Lemma oinv_receive r s : os_caller s = Waiting → os_chan s = Some r → oinv s → oinv (receive r s).
Proof.
  intros Hw Hc [I1 I2 I3 I4]. destruct s as [en ch ab ca lo tr]; simpl in *. subst ca ch. unfold receive.
  destruct en as [e|]; [|by destruct (I1 eq_refl)]. destruct (I4 e eq_refl) as [[= ->] ->].
  assert (ab = false) as -> by (destruct ab; [destruct (proj1 I2 eq_refl); done|done]).
  split; simpl; try done.
  - split; [done|]. by intros [? ?].
  - by intros e' [= <-].
Qed.

Lemma oinv_step s s' : oinv s → ostep s s' → oinv s'.
Proof. intros Hi Hs. destruct Hs; [by apply oinv_finish|by apply oinv_abandon|by apply oinv_receive]. Qed.

(** The result of an order is reported once. In every interleaving of the order with its
    caller: a result is given to the caller or logged, never both and never twice, and
    one that was waiting when the caller gave up is logged. *)
Lemma order_result_reported_once s : Prelude.run ostep ostart s →
  (* the goroutine is never held up by its channel *)
  (os_ended s = None → os_chan s = None) ∧
  (* a result is in one place *)
  (∀ e, os_ended s = Some e →
     match os_caller s with
     | Waiting => os_chan s = Some (result_of e) ∧ os_logged s = []
     | Received r => r = result_of e ∧ os_logged s = []
     | Stopped _ => os_logged s = [result_of e] ∨ e = Panicking ∧ os_logged s = []
     end) ∧
  (* the order's track is abandoned exactly for a caller that stopped *)
  (os_track s = true ↔ ∃ why, os_caller s = Stopped why) ∧
  (* whoever waits can go on once the order has ended *)
  (os_caller s = Waiting → os_ended s ≠ None → ∃ r, ostep s (receive r s)).
Proof.
  intros Hr. destruct (run_invariant ostep oinv oinv_step _ _ Hr oinv_start) as [I1 I2 I3 I4]. split_and!.
  - intros He. by destruct (I1 He).
  - intros e He. specialize (I4 e He). destruct (os_caller s); naive_solver.
  - by rewrite I3.
  - intros Hw He. destruct (os_ended s) as [e|] eqn:E; [|done]. specialize (I4 e eq_refl). rewrite Hw in I4.
    exists (result_of e). constructor; [done|]. by destruct I4.
Qed.

(** ** What the checks of a chain mean *)
Definition signed_in_order (certs : list X) : Prop :=
  ∀ i c d, certs !! i = Some c → certs !! S i = Some d → CheckSignatureFrom c d = true.

Lemma unsigned_from_none i certs : unsigned_from i certs = None ↔ signed_in_order certs.
Proof.
  revert i. induction certs as [|c [|d certs] IH]; intros i.
  - split; [|done]. by intros _ ? ? ?.
  - split; [|done]. by intros _ [|j] c' d' Hc Hd.
  - change (unsigned_from i (c :: d :: certs)) with
      (if CheckSignatureFrom c d then unsigned_from (S i) (d :: certs) else Some i).
    destruct (CheckSignatureFrom c d) eqn:E.
    + rewrite IH. split.
      * intros Hs [|j] c' d' Hc Hd; [by simplify_eq/=|]. by apply (Hs j).
      * intros Hs j. apply (Hs (S j)).
    + split; [done|]. intros Hs. by rewrite (Hs 0%nat c d) in E.
Qed.

Lemma parse_blocks_ok blocks acc certs : parse_blocks blocks acc = Ok certs ↔
  ∃ cs, certs = acc ++ cs ∧ Forall2 (λ b c, is_certificate b = true ∧ ParseCertificate b.2 = Some c) blocks cs.
Proof.
  revert acc. induction blocks as [|b blocks IH]; intros acc; simpl.
  - split.
    + intros [= <-]. exists []. by rewrite app_nil_r.
    + intros (cs & -> & Hf). inversion Hf. by rewrite app_nil_r.
  - destruct (is_certificate b) eqn:Eb; simpl; [|split; [done|]; intros (cs & _ & Hf); inversion Hf as [|? ? ? ? [? ?]]; congruence].
    destruct (ParseCertificate b.2) as [c|] eqn:Ec; [|split; [done|]; intros (cs & _ & Hf); inversion Hf as [|? ? ? ? [? ?]]; congruence].
    rewrite IH. split.
    + intros (cs & -> & Hf). exists (c :: cs). rewrite <- app_assoc. split; [done|]. by constructor.
    + intros (cs & -> & Hf). inversion Hf as [|? c' ? cs' [_ Hc] Hf']; subst. rewrite Ec in Hc. simplify_eq.
      exists cs'. by rewrite <- app_assoc.
Qed.

(** No complaint means: nothing but certificates, all of them read, at least two,
    each signed by the next. *)
Lemma chainIssue_none issued : chainIssue issued = None ↔
  ∃ certs, Forall2 (λ b c, is_certificate b = true ∧ ParseCertificate b.2 = Some c) (pem_blocks issued) certs ∧
    Count issued pemBlockBegin = length certs ∧ (2 ≤ length certs)%nat ∧ signed_in_order certs.
Proof.
  unfold chainIssue. split.
  - destruct (parse_blocks _ _) as [certs|] eqn:Hp; [|done]. apply parse_blocks_ok in Hp as (cs & -> & Hf). simpl.
    destruct (Nat.eqb_spec (Count issued pemBlockBegin) (length cs)); simpl; [|done].
    destruct (Nat.ltb_spec (length cs) minChainCerts); [done|]. intros Hu. exists cs.
    split; [done|]. split; [done|]. split; [done|]. destruct (unsigned_from 0 cs) eqn:E; [done|]. by apply unsigned_from_none in E.
  - intros (cs & Hf & Hc & Hl & Hs). rewrite (proj2 (parse_blocks_ok (pem_blocks issued) [] cs)) by by exists cs.
    rewrite Hc, Nat.eqb_refl. simpl. destruct (Nat.ltb_spec (length cs) minChainCerts); [unfold minChainCerts in *; lia|].
    by rewrite (proj2 (unsigned_from_none 0 cs)).
Qed.

(** The chain handed on: what was issued, or its certificates one after another and
    as many as the text has blocks. *)
Lemma adjacentChain_cases issued : adjacentChain issued = issued ∨
  chainCertCount (adjacentChain issued) = Count issued pemBlockBegin.
Proof.
  unfold adjacentChain. set (p := fold_right _ _ _). destruct (Nat.eqb_spec (chainCertCount p) (Count issued pemBlockBegin)); auto.
Qed.
End chain.

(** ** Witness *)
Definition sample_race : ost := finish (Finished (Ok "pem")) (abandon (Limited minute) ostart).

Lemma order_result_reported_once_witness :
  (os_ended sample_race = None → os_chan sample_race = None) ∧
  (∀ e, os_ended sample_race = Some e →
     match os_caller sample_race with
     | Waiting => os_chan sample_race = Some (result_of e) ∧ os_logged sample_race = []
     | Received r => r = result_of e ∧ os_logged sample_race = []
     | Stopped _ => os_logged sample_race = [result_of e] ∨ e = Panicking ∧ os_logged sample_race = []
     end) ∧
  (os_track sample_race = true ↔ ∃ why, os_caller sample_race = Stopped why) ∧
  (os_caller sample_race = Waiting → os_ended sample_race ≠ None → ∃ r, ostep sample_race (receive r sample_race)).
Proof.
  apply (order_result_reported_once sample_race).
  eapply run_trans; [apply run_one, (OStop (Limited minute)); reflexivity|].
  apply run_one, (OFinish (Finished (Ok "pem"))). reflexivity.
Defined.

Example sample_chain_count : Count "-----BEGIN A-----BEGIN B-----" pemBlockBegin = 2%nat.
Proof. by vm_compute. Qed.
End LegoOrder.
