(* ===== verification/CrashGuard.v ===== *)
(** * Crashes contained per request

    [internal/report/report.go]: the handler every HTTP listener is wrapped in.
    A panic of the code behind it is reported and answered, the process goes on;
    what the client already got decides whether it is answered with an error or
    cut off.  Also the scope of attributes a request's reports carry, and the
    guards of TLS callbacks.

    What a handler does with its writer is an input: a list of operations and
    how it ends.  Sentry is what is captured and which transactions are sent. *)
From Stdlib Require Import ZArith Lia Ascii String.
From S2P Require Import Prelude GoStr Challenges.
Local Open Scope string_scope.
Local Open Scope list_scope.
Local Open Scope Z_scope.

Module CrashGuard.

(** ** The writer *)
Inductive wire_op :=                          (* what reaches the real writer *)
| WHeader (code : Z)
| WBody (s : string)
| WFlush
| WHijack.

Record trackingWriter := Tracking {
  tw_wrote : bool;
  tw_status : Z;
  tw_hijacked : bool;
  tw_wire : list wire_op
}.
Definition new_writer : trackingWriter := Tracking false 0 false [].

Definition WriteHeader (code : Z) (t : trackingWriter) : trackingWriter :=
  Tracking true (if tw_wrote t then tw_status t else code) (tw_hijacked t) (tw_wire t ++ [WHeader code]).

Definition Write (s : string) (t : trackingWriter) : trackingWriter :=
  Tracking true (if tw_wrote t then tw_status t else 200) (tw_hijacked t) (tw_wire t ++ [WBody s]).

(** [flusher]: the real writer is an [http.Flusher]. *)
Definition Flush (flusher : bool) (t : trackingWriter) : trackingWriter :=
  Tracking true (if tw_wrote t then tw_status t else 200) (tw_hijacked t)
    (if flusher then tw_wire t ++ [WFlush] else tw_wire t).

(** [ok]: the real writer gives the connection away. *)
Definition Hijack (ok : bool) (t : trackingWriter) : trackingWriter :=
  if ok then Tracking true (tw_status t) true (tw_wire t ++ [WHijack])
  else Tracking (tw_wrote t) (tw_status t) (tw_hijacked t) (tw_wire t ++ [WHijack]).

Definition statusCode (t : trackingWriter) : Z := if tw_status t =? 0 then 200 else tw_status t.

(** ** Attributes of a scope *)
Definition attr := (string * string)%type.

Fixpoint set_attr (attrs : list attr) (a : attr) : list attr :=
  match attrs with
  | [] => [a]
  | b :: attrs' => if String.eqb b.1 a.1 then a :: attrs' else b :: set_attr attrs' a
  end.

Record scope := Scope { sc_attrs : list attr; sc_refused : bool }.

(** [None]: the context has no scope, and nothing happens. *)
Definition SetAttrs (new : list attr) (s : option scope) : option scope :=
  (λ s, Scope (fold_left set_attr new (sc_attrs s)) (sc_refused s)) <$> s.
Definition Refuse (s : option scope) : option scope := (λ s, Scope (sc_attrs s) true) <$> s.
Definition refused (s : option scope) : bool := match s with Some s => sc_refused s | None => false end.
Definition scopeAttrs (s : option scope) : list attr := match s with Some s => sc_attrs s | None => [] end.
Definition WithScope (s : option scope) : option scope := Some (Scope (scopeAttrs s) false).

Definition clientAttrs (remoteAddr : string) : list attr :=
  match Challenges.SplitHostPort remoteAddr with
  | None => [("client_ip", remoteAddr)]
  | Some (host, port) => [("client_ip", host); ("client_port", port)]
  end.

Definition maxTagLength : nat := 200.

(** The tags of a Sentry scope, a map. *)
Definition setTags (tags : gmap string string) (attrs : list attr) : gmap string string :=
  fold_left (λ m a, if (String.length a.2 <=? maxTagLength)%nat then <[a.1 := a.2]> m else m) attrs tags.

(** ** The wrapped handler *)
Inductive hop :=                              (* what a handler does *)
| HWriteHeader (code : Z)
| HWrite (s : string)
| HFlush (flusher : bool)
| HHijack (ok : bool)
| HRefuse
| HSetAttrs (attrs : list attr).

Inductive ending := Returns | Panics (v : string) | Aborts.     (* [Aborts]: http.ErrAbortHandler *)

Record hstate := HState { hs_w : trackingWriter; hs_scope : option scope }.

Definition do_op (s : hstate) (o : hop) : hstate :=
  match o with
  | HWriteHeader c => HState (WriteHeader c (hs_w s)) (hs_scope s)
  | HWrite b => HState (Write b (hs_w s)) (hs_scope s)
  | HFlush f => HState (Flush f (hs_w s)) (hs_scope s)
  | HHijack ok => HState (Hijack ok (hs_w s)) (hs_scope s)
  | HRefuse => HState (hs_w s) (Refuse (hs_scope s))
  | HSetAttrs l => HState (hs_w s) (SetAttrs l (hs_scope s))
  end.
Definition next_ServeHTTP (ops : list hop) (s : hstate) : hstate := fold_left do_op ops s.

Definition quoted (s : string) : string := String (Zc 34) (s +:+ String (Zc 34) "").
Definition internalErrorBody : string :=
  "{" +:+ quoted "reason" +:+ ":" +:+ quoted "internal_error" +:+ "," +:+ quoted "retryable" +:+ ":true}" +:+
  String "010"%char "".

Record served := Served {
  sv_wire : list wire_op;
  sv_hijack_closed : bool;
  sv_abort : bool;                            (* a panic leaves: it is, or wraps, ErrAbortHandler *)
  sv_crashes : list (string * list attr);     (* [handlePanic], with the scope's attributes *)
  sv_transaction : option Z                   (* the status of the transaction that is sent *)
}.

(** [trace]: Sentry is on and the request is traced; [outer]: the scope of the
    context the request comes with. *)
Definition Handler (trace : bool) (outer : option scope) (remoteAddr : string) (ops : list hop) (e : ending) : served :=
  let s := next_ServeHTTP ops (HState new_writer (SetAttrs (clientAttrs remoteAddr) (WithScope outer))) in
  let t := hs_w s in
  let crash := match e with Panics v => [(v, scopeAttrs (hs_scope s))] | _ => [] end in
  let '(t', abort) :=
    match e with
    | Returns => (t, false)
    | Aborts => (t, true)
    | Panics _ =>
        if tw_wrote t then (t, true)
        else (Write internalErrorBody (WriteHeader 500 t), false)
    end in
  let panicked := match e with Panics _ => true | _ => false end in
  Served (tw_wire t')
    (match e with Returns => false | _ => tw_hijacked t end)
    abort crash
    (if trace && negb (refused (hs_scope s) && negb panicked) then Some (statusCode t') else None).

(** ** Guards of TLS callbacks: a panic is an error *)
Inductive callback_error := ErrPanicked | CallbackError.
Definition guard {A} (call : option (result callback_error A)) : result callback_error A :=   (* [None]: it panics *)
  match call with Some r => r | None => Err ErrPanicked end.

(** ** What the operations amount to *)
Definition writes (o : hop) : bool :=
  match o with HWriteHeader _ | HWrite _ | HFlush _ | HHijack true => true | _ => false end.
Definition takes_over (o : hop) : bool := match o with HHijack true => true | _ => false end.
Definition op_wire (o : hop) : list wire_op :=
  match o with
  | HWriteHeader c => [WHeader c]
  | HWrite b => [WBody b]
  | HFlush true => [WFlush]
  | HHijack _ => [WHijack]
  | _ => []
  end.
(** The status of the first operation that decides it. *)
Definition op_status (o : hop) : option Z :=
  match o with HWriteHeader c => Some c | HWrite _ | HFlush _ => Some 200 | HHijack true => Some 0 | _ => None end.

Lemma next_spec ops s :
  tw_wire (hs_w (next_ServeHTTP ops s)) = tw_wire (hs_w s) ++ concat (map op_wire ops) ∧
  tw_wrote (hs_w (next_ServeHTTP ops s)) = tw_wrote (hs_w s) || existsb writes ops ∧
  tw_hijacked (hs_w (next_ServeHTTP ops s)) = tw_hijacked (hs_w s) || existsb takes_over ops.
Proof.
  revert s. induction ops as [|o ops IH]; intros s; simpl; [by rewrite app_nil_r, !orb_false_r|].
  destruct (IH (do_op s o)) as (-> & -> & ->). destruct s as [t sc], o as [c|b|[]|[]| |l]; simpl;
    rewrite <- ?app_assoc, ?orb_true_r, ?app_nil_r; simpl; rewrite ?orb_true_r; by destruct (tw_wrote t), (tw_hijacked t).
Qed.

Lemma status_kept ops s : tw_wrote (hs_w s) = true → tw_status (hs_w (next_ServeHTTP ops s)) = tw_status (hs_w s).
Proof.
  revert s. induction ops as [|o ops IH]; intros s Hw; [done|]. cbn [next_ServeHTTP fold_left].
  change (fold_left do_op ops (do_op s o)) with (next_ServeHTTP ops (do_op s o)).
  destruct s as [t sc], o as [c|b|[]|[]| |l]; simpl in *; rewrite IH; simpl; by rewrite ?Hw.
Qed.

Lemma next_status ops s : tw_wrote (hs_w s) = false →
  tw_status (hs_w (next_ServeHTTP ops s)) = default (tw_status (hs_w s)) (head (omap op_status ops)) ∨
  (∃ o ops', ops = o ++ HHijack true :: ops' ∧ existsb writes o = false).
Proof.
  revert s. induction ops as [|o ops IH]; intros s Hw; [by left|]. cbn [next_ServeHTTP fold_left].
  change (fold_left do_op ops (do_op s o)) with (next_ServeHTTP ops (do_op s o)).
  destruct (writes o) eqn:Ho.
  - destruct s as [t sc], o as [c|b|f|[]| |l]; simpl in *; try done.
    all: try (left; rewrite status_kept by done; simpl; by rewrite Hw).
    right. by exists [], ops.
  - assert (tw_wrote (hs_w (do_op s o)) = false) as Hw'.
    { destruct s as [t sc], o as [c|b|f|[]| |l]; simpl in *; done. }
    destruct (IH (do_op s o) Hw') as [->|(o' & ops' & -> & Hn)].
    + left. destruct s as [t sc], o as [c|b|f|[]| |l]; simpl in *; done.
    + right. exists (o :: o'), ops'. simpl. by rewrite Ho.
Qed.

(** C30. Crashes are contained. For everything a handler may do with its writer and
    every way it may end: a handler that returns or aborts has its operations passed on
    unchanged and nothing is reported; a panic is reported once, a connection that was
    taken over is closed, a traced request is always sent, and the client gets the 500
    answer after what was sent if that decided nothing yet, and is cut off if it did. *)
Theorem crash_contained trace outer remoteAddr ops e :
  let r := Handler trace outer remoteAddr ops e in
  let sent := concat (map op_wire ops) in
  match e with
  | Returns => sv_wire r = sent ∧ sv_abort r = false ∧ sv_crashes r = []
  | Aborts => sv_wire r = sent ∧ sv_abort r = true ∧ sv_crashes r = [] ∧ sv_hijack_closed r = existsb takes_over ops
  | Panics v =>
      map fst (sv_crashes r) = [v] ∧ sv_hijack_closed r = existsb takes_over ops ∧
      (trace = true → sv_transaction r ≠ None) ∧
      if existsb writes ops then sv_wire r = sent ∧ sv_abort r = true
      else sv_wire r = sent ++ [WHeader 500; WBody internalErrorBody] ∧ sv_abort r = false ∧
           (trace = true → sv_transaction r = Some 500)
  end.
Proof.
  unfold Handler. set (s0 := HState new_writer _). destruct (next_spec ops s0) as (Hw & Ho & Hh). simpl in Hw, Ho, Hh.
  destruct e as [|v|]; simpl.
  - by rewrite Hw.
  - rewrite Ho, Hh, andb_false_r, andb_true_r. destruct (existsb writes ops) eqn:E; simpl.
    + split; [done|]. split; [done|]. split; [by intros ->|]. by rewrite Hw.
    + rewrite Hw. simpl. split; [done|]. split; [done|]. split; [by intros ->|].
      split; [by rewrite <- app_assoc|]. split; [done|]. intros ->. unfold statusCode. simpl. by rewrite Ho.
  - by rewrite Hw.
Qed.

(** ** Scopes *)
Lemma set_attr_lookup attrs a k :
  list_find (λ b, b.1 = k) (set_attr attrs a) = None ↔ list_find (λ b, b.1 = k) attrs = None ∧ a.1 ≠ k.
Proof.
  rewrite !list_find_None. induction attrs as [|b attrs IH]; simpl; [split; [intros Hf; inversion Hf; by split|intros [? ?]; by repeat constructor]|].
  destruct (String.eqb_spec b.1 a.1) as [E|].
  - rewrite !Forall_cons. rewrite E. tauto.
  - rewrite !Forall_cons, IH. tauto.
Qed.

Lemma set_attr_keys attrs a : NoDup (map fst attrs) → NoDup (map fst (set_attr attrs a)) ∧ a ∈ set_attr attrs a.
Proof.
  induction attrs as [|b attrs IH]; simpl; [intros _; split; [by repeat constructor; set_solver|by constructor]|].
  intros [Hb Hn]%NoDup_cons. destruct (String.eqb_spec b.1 a.1) as [E|Hne]; simpl.
  - split; [|by constructor]. apply NoDup_cons. by rewrite <- E.
  - destruct (IH Hn) as [IH1 IH2]. split; [|by constructor]. apply NoDup_cons. split; [|done].
    intros (c & Hc & Hin)%list_elem_of_fmap. assert (∀ x, x ∈ set_attr attrs a → x = a ∨ x ∈ attrs) as Hsub.
    { clear. induction attrs as [|b attrs IH]; simpl; [set_solver|]. destruct (String.eqb b.1 a.1); set_solver. }
    destruct (Hsub c Hin) as [->|Hin']; [done|]. apply Hb, list_elem_of_fmap. by exists c.
Qed.

(** A scope has one value per attribute, the last one set. *)
Lemma SetAttrs_last new s s' : SetAttrs new (Some s) = Some s' → NoDup (map fst (sc_attrs s)) →
  NoDup (map fst (sc_attrs s')) ∧ ∀ a, last new = Some a → a ∈ sc_attrs s'.
Proof.
  intros [= <-] Hn. simpl. induction new as [|a new IH] using rev_ind; [by split|].
  rewrite fold_left_app. simpl. destruct IH as [IH _]. destruct (set_attr_keys _ a IH) as [H1 H2].
  split; [done|]. intros b. rewrite last_snoc. by intros [= <-].
Qed.
End CrashGuard.
