(* ===== verification/RefusedList.v ===== *)
(** * The list of refused attempts

    What the daily report keeps of every refused enrollment ([attempts.go] of
    [infra/refused-apps]): the list of attempts per app, when two records are the
    same attempt, and what a record of a refusal says about the app.

    PEM, X.509 and the decoding of the key description are parameters. *)
From Stdlib Require Import ZArith Lia Ascii String.
From stdpp Require Import gmap.
From S2P Require Import Prelude GoStr Attest.
Local Open Scope string_scope.
Local Open Scope list_scope.
Local Open Scope Z_scope.

Module RefusedList.

(** ** Attempts *)
Record attempt := Attempt { At : Z; IP : string; Key : string; Version : Z; Verified : bool }.
#[export] Instance attempt_eq_dec : EqDecision attempt.
Proof. solve_decision. Defined.

Record attemptList := AttemptList { LastReport : string; Apps : gmap string (list attempt) }.

Definition attemptID := (string * Z * string * string)%type.
Definition idOf (app : string) (a : attempt) : attemptID := (app, At a, IP a, Key a).

Definition index (l : attemptList) : gset attemptID :=
  list_to_set (concat (map (λ kv, map (idOf kv.1) kv.2) (map_to_list (Apps l)))).

(** [sort.SliceStable] by time. *)
Fixpoint insert_stable (a : attempt) (l : list attempt) : list attempt :=
  match l with
  | [] => [a]
  | b :: l' => if At b <? At a then b :: insert_stable a l' else a :: l
  end.
Definition sort_stable (l : list attempt) : list attempt := fold_right insert_stable [] l.

Definition add (idx : gset attemptID) (app : string) (a : attempt) (l : attemptList)
    : bool * gset attemptID * attemptList :=
  let id := idOf app a in
  if decide (id ∈ idx) then (false, idx, l)
  else (true, {[id]} ∪ idx,
        AttemptList (LastReport l) (<[app := sort_stable (default [] (Apps l !! app) ++ [a])]> (Apps l))).

Definition without (hidden : gset string) (l : attemptList) : attemptList :=
  AttemptList (LastReport l) (filter (λ kv, kv.1 ∉ hidden) (Apps l)).

Definition count (l : attemptList) : nat := map_fold (λ _ l n, (length l + n)%nat) 0%nat (Apps l).

(** *** What a record of a refusal says *)
Record RejectedEnrollment := Rejected {
  TS : Z; SrcIP : string; Reason : string; ClaimedPackage : string; SignerDigestHex : string; AttestChainPEM : string
}.

Definition chainTrusted (reason : string) : bool :=
  existsb (String.eqb reason)
    ["attest-challenge"; "attest-signer"; "attest-security-level"; "attest-boot"; "attest-device-unlocked";
     "attest-stale"; "csr-mismatch"].

Section attempts.
Context `{Attest.ASN1} {K : Type}.
Context (pem_Decode : string → option (string * string)) (ParseCertificate : string → option (Attest.Certificate K)).

(** Every block is a certificate; a block takes some of the text, so that its
    length is fuel enough. *)
Fixpoint parse_loop (fuel : nat) (rest : string) (chain : list (Attest.Certificate K)) : option (list (Attest.Certificate K)) :=
  match fuel with
  | O => Some chain
  | S fuel =>
      match pem_Decode rest with
      | None => Some chain
      | Some (der, rest) =>
          match ParseCertificate der with
          | None => None
          | Some c => parse_loop fuel rest (chain ++ [c])
          end
      end
  end.
Definition parseChain (chainPEM : string) : option (list (Attest.Certificate K)) :=
  parse_loop (S (String.length chainPEM)) chainPEM [].

Definition anyRevoked (chain : list (Attest.Certificate K)) (revoked : string → bool) : bool :=
  existsb (λ c, revoked (Attest.SerialHex c)) chain.

Definition toAttempt (ev : RejectedEnrollment) (revoked : string → bool) : string * attempt :=
  let a := Attempt (TS ev) (SrcIP ev) (SignerDigestHex ev) 0 false in
  match parseChain (AttestChainPEM ev) with
  | None | Some [] => (ClaimedPackage ev, a)
  | Some ((leaf :: _) as chain) =>
      match Attest.ParseKeyDescription (Attest.AttestExt leaf) with
      | None => (ClaimedPackage ev, a)
      | Some kd =>
          let key := match Key a, Attest.SignatureDigests kd with
                     | "", d :: _ => hex_encode d
                     | k, _ => k
                     end in
          (Attest.Package kd,
           Attempt (TS ev) (SrcIP ev) key (Attest.PackageVersion kd)
             (chainTrusted (Reason ev) && (Attest.SecurityTrustedEnvironment <=? Attest.SecurityLevel kd)
              && Attest.HasRootOfTrust kd && Attest.DeviceLocked kd
              && (Attest.VerifiedBootState kd =? Attest.BootVerified) && negb (anyRevoked chain revoked)))
      end
  end.
End attempts.

(** ** The attempts that are new *)
Definition newAttempt := (string * attempt)%type.
Definition new_id (f : newAttempt) : attemptID := idOf f.1 f.2.

(** The loop over the records, in the order they are listed. *)
Fixpoint collect (hidden : gset string) (evs : list newAttempt) (idx : gset attemptID) (l : attemptList)
    (fresh : list newAttempt) : list newAttempt * gset attemptID * attemptList :=
  match evs with
  | [] => (fresh, idx, l)
  | (app, a) :: evs' =>
      let '(added, idx, l) := add idx app a l in
      collect hidden evs' idx l
        (if (added : bool) && negb (bool_decide (app ∈ hidden)) then fresh ++ [(app, a)] else fresh)
  end.

Lemma elem_of_sort_stable l a : a ∈ sort_stable l ↔ a ∈ l.
Proof.
  assert (Hins : ∀ x l, a ∈ insert_stable x l ↔ a = x ∨ a ∈ l).
  { intros x l'. induction l' as [|b l' IH]; simpl; [set_solver|]. destruct (_ <? _); set_solver. }
  induction l as [|x l IH]; simpl; [done|]. rewrite Hins, IH. set_solver.
Qed.

Lemma elem_of_index l id : id ∈ index l ↔ ∃ app la a, Apps l !! app = Some la ∧ a ∈ la ∧ id = idOf app a.
Proof.
  unfold index. rewrite elem_of_list_to_set, list_elem_of_In, in_concat. split.
  - intros (x & (kv & <- & Hkv%list_elem_of_In)%in_map_iff & Hid%list_elem_of_In).
    apply list_elem_of_fmap in Hid as (a & -> & Ha). destruct kv as [app la]. apply elem_of_map_to_list in Hkv.
    by exists app, la, a.
  - intros (app & la & a & Hl & Ha & ->). exists (map (idOf app) la). split.
    + apply in_map_iff. exists (app, la). split; [done|]. by apply list_elem_of_In, elem_of_map_to_list.
    + apply list_elem_of_In, list_elem_of_fmap. by exists a.
Qed.

(** The index the loop keeps is that of the list. *)
Lemma add_index app a l : index (add (index l) app a l).2 = (add (index l) app a l).1.2.
Proof.
  unfold add. case_decide as Hid; [done|]. simpl. apply set_eq. intros id. rewrite elem_of_union, elem_of_singleton.
  rewrite !elem_of_index. simpl. split.
  - intros (app' & la & b & Hl & Hb & ->). destruct (decide (app' = app)) as [->|Hne].
    + rewrite lookup_insert_eq in Hl. injection Hl as <-. apply elem_of_sort_stable, elem_of_app in Hb as [Hb|Hb].
      * right. destruct (Apps l !! app) as [la|] eqn:E; simpl in Hb; [by exists app, la, b|by apply elem_of_nil in Hb].
      * apply list_elem_of_singleton in Hb as ->. by left.
    + rewrite lookup_insert_ne in Hl by done. right. by exists app', la, b.
  - intros [->|(app' & la & b & Hl & Hb & ->)].
    + exists app. eexists. exists a. rewrite lookup_insert_eq. split; [done|]. split; [|done]. apply elem_of_sort_stable, elem_of_app. right.
      by apply list_elem_of_singleton.
    + destruct (decide (app' = app)) as [->|Hne].
      * exists app. eexists. exists b. rewrite lookup_insert_eq. split; [done|]. split; [|done]. apply elem_of_sort_stable, elem_of_app. left.
        by rewrite Hl.
      * exists app', la, b. by rewrite lookup_insert_ne by done.
Qed.

(** What is new: the records, less those on file, less repetitions, less hidden apps. *)
Fixpoint news (hidden : gset string) (seen : gset attemptID) (evs : list newAttempt) : list newAttempt :=
  match evs with
  | [] => []
  | f :: evs' =>
      if decide (new_id f ∈ seen) then news hidden seen evs'
      else (if decide (f.1 ∈ hidden) then [] else [f]) ++ news hidden ({[new_id f]} ∪ seen) evs'
  end.

Lemma collect_spec hidden evs l fresh :
  let '(fresh', idx', l') := collect hidden evs (index l) l fresh in
  fresh' = fresh ++ news hidden (index l) evs ∧ idx' = index l' ∧
  index l' = index l ∪ list_to_set (map new_id evs) ∧ LastReport l' = LastReport l.
Proof.
  revert l fresh. induction evs as [|[app a] evs IH]; intros l fresh; cbn [collect].
  { simpl. rewrite app_nil_r. split; [done|]. split; [done|]. split; [set_solver|done]. }
  pose proof (add_index app a l) as Hi. unfold add in *. cbn [news].
  change (new_id (app, a)) with (idOf app a). case_decide as Hid.
  - specialize (IH l fresh). simpl. destruct (collect _ evs _ _ _) as [[fresh' idx'] l'].
    destruct IH as (I1 & I2 & I3 & I4). split; [done|]. split; [done|]. split; [|done].
    rewrite I3. change (new_id (app, a)) with (idOf app a). set_solver.
  - cbn [fst snd] in Hi. cbn [andb]. rewrite <- Hi.
    match goal with |- context [collect hidden evs _ ?l1 ?f1] => specialize (IH l1 f1);
      destruct (collect hidden evs (index l1) l1 f1) as [[fresh' idx'] l'] end.
    destruct IH as (I1 & I2 & I3 & I4). split.
    + rewrite I1, Hi. cbn [fst]. destruct (decide (app ∈ hidden)) as [Hh|Hh].
      * by rewrite (bool_decide_eq_true_2 _ Hh).
      * rewrite (bool_decide_eq_false_2 _ Hh). simpl. by rewrite <- app_assoc.
    + split; [done|]. split; [|done]. rewrite I3, Hi. cbn [map list_to_set]. change (new_id (app, a)) with (idOf app a). set_solver.
Qed.

Lemma news_spec hidden seen evs :
  NoDup (map new_id (news hidden seen evs)) ∧
  ∀ f, f ∈ news hidden seen evs → f ∈ evs ∧ new_id f ∉ seen ∧ f.1 ∉ hidden.
Proof.
  revert seen. induction evs as [|f evs IH]; intros seen; cbn [news]; [split; [constructor|set_solver]|].
  case_decide as Hs; [destruct (IH seen) as [I1 I2]; split; [done|]; intros g Hg; destruct (I2 g Hg); set_solver|].
  destruct (IH ({[new_id f]} ∪ seen)) as [I1 I2]. case_decide as Hh; simpl.
  - split; [done|]. intros g Hg. destruct (I2 g Hg) as (? & ? & ?). set_solver.
  - split.
    + apply NoDup_cons. split; [|done]. intros (g & Hg & Hin)%list_elem_of_fmap. destruct (I2 g Hin) as (_ & Hn & _).
      apply Hn. rewrite <- Hg. set_solver.
    + intros g [->|Hg]%elem_of_cons; [set_solver|]. destruct (I2 g Hg) as (? & ? & ?). set_solver.
Qed.

Lemma news_again hidden seen evs : list_to_set (map new_id evs) ⊆ seen → news hidden seen evs = [].
Proof.
  intros Hsub. induction evs as [|f evs IH]; [done|]. cbn [news]. simpl in Hsub.
  rewrite decide_True by set_solver. apply IH. set_solver.
Qed.

End RefusedList.
