(* ===== verification/RefusedReport.v ===== *)
(** * The text of the refused-apps report

    [report.go] of [infra/refused-apps]: the new attempts grouped by day, app,
    variant and source, the tables of the report, and how they are packed into
    messages a chat accepts.

    The time zone is a parameter (the civil dates and times of an instant, and
    their texts), and so is the Unicode category of format characters. *)
From Stdlib Require Import ZArith Lia Ascii String.
From stdpp Require Import gmap.
From stdpp Require Import sorting.
From S2P Require Import Prelude GoStr ClientHello Challenges RefusedList.
Local Open Scope string_scope.
Local Open Scope list_scope.
Local Open Scope Z_scope.

Module RefusedReport.
Import RefusedList.

(** ** Packing rows into messages *)

(** Bytes of the first rune of a text; one for a byte that starts none. *)
Definition cont (c : ascii) : bool := (128 <=? cZ c) && (cZ c <=? 191).
Definition between (lo hi : Z) (c : ascii) : bool := (lo <=? cZ c) && (cZ c <=? hi).
Definition rune_len (s : string) : nat :=
  match s with
  | String a (String b r) =>
      if between 194 223 a && cont b then 2
      else match r with
           | String c r' =>
               if ((between 225 236 a || between 238 239 a) && cont b || between 224 224 a && between 160 191 b
                   || between 237 237 a && between 128 159 b) && cont c then 3
               else match r' with
                    | String d _ =>
                        if (between 241 243 a && cont b || between 240 240 a && between 144 191 b
                            || between 244 244 a && between 128 143 b) && cont c && cont d then 4 else 1
                    | "" => 1
                    end
           | "" => 1
           end
  | _ => 1
  end.
Fixpoint runes_from (skip : nat) (s : string) : nat :=
  match s with
  | "" => 0
  | String _ s' => match skip with
                   | S n => runes_from n s'
                   | O => S (runes_from (rune_len s - 1) s')
                   end
  end.
(** [utf8.RuneCountInString] *)
Definition RuneCount (s : string) : Z := Z.of_nat (runes_from 0 s).

Record section_ := Section_ { heading : string; note : string; columns : list string; rows : list (list string) }.
Record messageLimits := Limits { lim_blocks : Z; lim_runes : Z }.
Definition partRoom : Z := 32.
Definition tableStart : string := "<table bordered striped compact>".
Definition tableEnd : string := "</table>".

Definition cells (tag : string) (l : list string) : string :=
  fold_right (λ c acc, "<" +:+ tag +:+ ">" +:+ Challenges.EscapeString c +:+ "</" +:+ tag +:+ ">" +:+ acc) "" l.

(** The head, its blocks, and the rows. *)
Definition render (s : section_) : string * Z * list string :=
  let noted := negb (String.eqb (note s) "") in
  ("<h4>" +:+ Challenges.EscapeString (heading s) +:+ "</h4>" +:+
   (if noted then "<p>" +:+ Challenges.EscapeString (note s) +:+ "</p>" else "") +:+
   tableStart +:+ "<tr>" +:+ cells "th" (columns s) +:+ "</tr>",
   if noted then 4 else 3,
   map (λ row, "<tr>" +:+ cells "td" row +:+ "</tr>") (rows s)).

(** A part of a table in a message: its head, the blocks that counts for, and some rows. *)
Record chunk := Chunk { ch_head : string; ch_blocks : Z; ch_rows : list string }.
Definition chunk_text (c : chunk) : string := ch_head c +:+ fold_right (λ r acc, r +:+ acc) "" (ch_rows c) +:+ tableEnd.

Record pstate := PState { p_bodies : list (list chunk); p_cur : list chunk; p_blocks : Z; p_runes : Z }.

Section pack.
Context (introRunes : Z) (lim : messageLimits).

(** [start], given the bodies there are. *)
Definition start (bodies : list (list chunk)) : pstate :=
  PState bodies [] 1 (partRoom + RuneCount "<p></p>" + (if (length bodies =? 0)%nat then introRunes else 0)).
Definition flush (p : pstate) : pstate := start (p_bodies p ++ [p_cur p]).

(** The rows that still fit. *)
Fixpoint fitting (b n : Z) (rows : list string) : nat * Z * Z :=
  match rows with
  | [] => (O, b, n)
  | r :: rows' =>
      if (b + 1 <=? lim_blocks lim) && (n + RuneCount r <=? lim_runes lim)
      then let '(k, b', n') := fitting (b + 1) (n + RuneCount r) rows' in (S k, b', n')
      else (O, b, n)
  end.

Definition put (head : string) (headBlocks : Z) (rs : list string) (b n : Z) (p : pstate) : pstate :=
  PState (p_bodies p) (p_cur p ++ [Chunk head headBlocks rs]) b n.

(** The loop over the rows of a section; a turn that takes none follows one that
    flushed, so that two turns a row are enough. *)
Fixpoint pack_rows (fuel : nat) (head : string) (headBlocks : Z) (rows : list string) (p : pstate) : pstate :=
  match fuel, rows with
  | S fuel, r :: _ =>
      let '(k, b, n) := fitting (p_blocks p + headBlocks)
                          (p_runes p + RuneCount head + Z.of_nat (String.length tableEnd)) rows in
      if (k =? 0)%nat && (0 <? length (p_cur p))%nat then pack_rows fuel head headBlocks rows (flush p)
      else
        let '(k, b, n) := if (k =? 0)%nat then (1%nat, b + 1, n + RuneCount r) else (k, b, n) in
        let p := put head headBlocks (take k rows) b n p in
        let rows := drop k rows in
        pack_rows fuel head headBlocks rows (match rows with [] => p | _ => flush p end)
  | _, _ => p
  end.

Definition pack_section (p : pstate) (s : section_) : pstate :=
  let '(head, headBlocks, rows) := render s in pack_rows (2 * length rows) head headBlocks rows p.

Definition pack_bodies (sections : list section_) : list (list chunk) :=
  let p := fold_left pack_section sections (start []) in p_bodies p ++ [p_cur p].

(** *** Every row once, in order, within the limits *)
Definition content (bodies : list (list chunk)) : list (string * string) :=
  concat (map (λ c, map (pair (ch_head c)) (ch_rows c)) (concat bodies)).

Definition sumZ (l : list Z) : Z := fold_right Z.add 0 l.
Definition body_blocks (body : list chunk) : Z := 1 + sumZ (map (λ c, ch_blocks c + Z.of_nat (length (ch_rows c))) body).
Definition body_runes (first : bool) (body : list chunk) : Z :=
  partRoom + RuneCount "<p></p>" + (if first then introRunes else 0) +
  sumZ (map (λ c, RuneCount (ch_head c) + Z.of_nat (String.length tableEnd) + sumZ (map RuneCount (ch_rows c))) body).

(** Within the limits, unless it is a single row that fits nowhere. *)
Definition fits (first : bool) (body : list chunk) : Prop :=
  body = [] ∨ (body_blocks body ≤ lim_blocks lim ∧ body_runes first body ≤ lim_runes lim) ∨
  ∃ head hb r, body = [Chunk head hb [r]].

Lemma sumZ_app l l' : sumZ (l ++ l') = sumZ l + sumZ l'.
Proof. induction l; simpl; lia. Qed.
Lemma sumZ_one x : sumZ [x] = x.
Proof. unfold sumZ. simpl. lia. Qed.

Lemma fitting_spec b n rows k b' n' : fitting b n rows = (k, b', n') →
  (k ≤ length rows)%nat ∧ b' = b + Z.of_nat k ∧ n' = n + sumZ (map RuneCount (take k rows)) ∧
  ((0 < k)%nat → b' ≤ lim_blocks lim ∧ n' ≤ lim_runes lim).
Proof.
  revert b n k b' n'. induction rows as [|r rows IH]; intros b n k b' n'; cbn [fitting].
  { intros [= <- <- <-]. simpl. lia. }
  destruct (Z.leb_spec (b + 1) (lim_blocks lim)) as [Hb|]; cbn [andb]; [|intros [= <- <- <-]; simpl; lia].
  destruct (Z.leb_spec (n + RuneCount r) (lim_runes lim)) as [Hn|]; [|intros [= <- <- <-]; simpl; lia].
  destruct (fitting _ _ rows) as [[k1 b1] n1] eqn:E. intros [= <- <- <-].
  destruct (IH _ _ _ _ _ E) as (I1 & I2 & I3 & I4). cbn [take map sumZ fold_right length].
  change (fold_right Z.add 0 (map RuneCount (take k1 rows))) with (sumZ (map RuneCount (take k1 rows))).
  split; [lia|]. split; [lia|]. split; [lia|]. intros _.
  destruct k1; [|by apply I4; lia]. assert (sumZ (map RuneCount (take 0 rows)) = 0) by done. lia.
Qed.

Record pinv (p : pstate) : Prop := PInv {
  pi_blocks : p_blocks p = body_blocks (p_cur p);
  pi_runes : p_runes p = body_runes (length (p_bodies p) =? 0)%nat (p_cur p);
  pi_bodies : ∀ i body, p_bodies p !! i = Some body → fits (i =? 0)%nat body;
  pi_cur : fits (length (p_bodies p) =? 0)%nat (p_cur p)
}.

Lemma pinv_flush p : pinv p → pinv (flush p).
Proof.
  intros [I1 I2 I3 I4]. unfold flush, start. split; simpl.
  - done.
  - unfold body_runes. simpl. lia.
  - intros i body [Hi|[Hi Hb]]%lookup_app_Some; [by apply I3|].
    destruct (i - length (p_bodies p))%nat as [|j] eqn:Ej; [|by destruct j]. simpl in Hb. injection Hb as <-.
    replace i with (length (p_bodies p)) by lia. exact I4.
  - by left.
Qed.

Lemma pinv_put head hb rs b n p : pinv p →
  b = p_blocks p + hb + Z.of_nat (length rs) →
  n = p_runes p + RuneCount head + Z.of_nat (String.length tableEnd) + sumZ (map RuneCount rs) →
  (b ≤ lim_blocks lim ∧ n ≤ lim_runes lim) ∨ (p_cur p = [] ∧ ∃ r, rs = [r]) →
  pinv (put head hb rs b n p).
Proof.
  intros [I1 I2 I3 I4] Hb Hn Hf. unfold put.
  assert (Eb : b = body_blocks (p_cur p ++ [Chunk head hb rs])).
  { unfold body_blocks in *. rewrite map_app, sumZ_app. cbn [map sumZ fold_right ch_blocks ch_rows]. lia. }
  assert (En : n = body_runes (length (p_bodies p) =? 0)%nat (p_cur p ++ [Chunk head hb rs])).
  { unfold body_runes in *. rewrite map_app, sumZ_app. cbn [map ch_head ch_rows].
    rewrite sumZ_one. lia. }
  split; cbn [p_blocks p_runes p_bodies p_cur]; [done|done|done|].
  right. destruct Hf as [[? ?]|[-> (r & ->)]]; [left; lia|right; by exists head, hb, r].
Qed.

Lemma content_snoc bodies cur : content (bodies ++ [cur]) = content bodies ++ content [cur].
Proof. unfold content. by rewrite concat_app, map_app, concat_app. Qed.

Lemma pack_rows_spec fuel head hb rows p :
  pinv p → (2 * length rows ≤ fuel + (if decide (p_cur p = []) then 1 else 0))%nat →
  let p' := pack_rows fuel head hb rows p in
  pinv p' ∧ content (p_bodies p' ++ [p_cur p']) = content (p_bodies p ++ [p_cur p]) ++ map (pair head) rows.
Proof.
  revert rows p. induction fuel as [|fuel IH]; intros rows p Hi Hf.
  { destruct rows as [|r rows]; simpl in *; [by rewrite app_nil_r|]. case_decide; lia. }
  destruct rows as [|r rows]; cbn [pack_rows]; [by rewrite app_nil_r|]. set (all := r :: rows) in *.
  destruct (fitting _ _ all) as [[k b] n] eqn:E. destruct (fitting_spec _ _ _ _ _ _ E) as (F1 & F2 & F3 & F4).
  assert (Hflush : ∀ q, content (p_bodies (flush q) ++ [p_cur (flush q)]) = content (p_bodies q ++ [p_cur q])).
  { intros q. rewrite content_snoc. unfold flush, start. simpl. unfold content at 2. simpl. by rewrite app_nil_r. }
  destruct ((k =? 0)%nat && (0 <? length (p_cur p))%nat) eqn:Hk.
  - apply andb_prop in Hk as [_ Hc%Nat.ltb_lt]. destruct (IH all (flush p) (pinv_flush p Hi)) as [J1 J2].
    { unfold flush, start. simpl p_cur. rewrite decide_True by done. case_decide as Hd; [rewrite Hd in Hc; simpl in Hc; lia|lia]. }
    split; [done|]. by rewrite J2, Hflush.
  - assert (∃ k' b' n', (if (k =? 0)%nat then (1%nat, b + 1, n + RuneCount r) else (k, b, n)) = (k', b', n') ∧
      (0 < k')%nat ∧ pinv (put head hb (take k' all) b' n' p)) as (k' & b' & n' & -> & Hk' & Hi').
    { destruct (Nat.eqb_spec k 0) as [->|Hne].
      - simpl in Hk. apply Nat.ltb_ge in Hk. assert (p_cur p = []) as Hc by (destruct (p_cur p); simpl in Hk; [done|lia]).
        exists 1%nat, (b + 1), (n + RuneCount r). split; [done|]. split; [lia|]. subst b n. simpl in *.
        apply pinv_put; [done|simpl; lia|simpl; lia|]. right. split; [done|by exists r].
      - exists k, b, n. split; [done|]. split; [lia|]. apply pinv_put; [done| |lia|left; apply F4; lia].
        rewrite length_take. lia. }
    set (p1 := put head hb (take k' all) b' n' p) in *.
    assert (Hc1 : content (p_bodies p1 ++ [p_cur p1]) = content (p_bodies p ++ [p_cur p]) ++ map (pair head) (take k' all)).
    { unfold p1, put. simpl. rewrite !content_snoc, <- app_assoc. f_equal. unfold content. simpl.
      rewrite !app_nil_r, map_app, concat_app. simpl. by rewrite app_nil_r. }
    destruct (IH (drop k' all) (match drop k' all with [] => p1 | _ => flush p1 end)) as [J1 J2].
    { destruct (drop k' all); [done|by apply pinv_flush]. }
    { rewrite length_drop. destruct (drop k' all) eqn:Ed.
      - assert (length (drop k' all) = 0%nat) as Hl by by rewrite Ed. rewrite length_drop in Hl. lia.
      - unfold flush, start. simpl p_cur. rewrite decide_True by done. case_decide; lia. }
    split; [done|]. rewrite J2.
    assert (map (pair head) all = map (pair head) (take k' all) ++ map (pair head) (drop k' all)) as ->
      by by rewrite <- map_app, take_drop.
    rewrite app_assoc, <- Hc1. f_equal.
    destruct (drop k' all); [done|by apply Hflush].
Qed.

Lemma packed_within_limits sections :
  let bodies := pack_bodies sections in
  content bodies = concat (map (λ s, let '(head, _, rs) := render s in map (pair head) rs) sections) ∧
  ∀ i body, bodies !! i = Some body → fits (i =? 0)%nat body.
Proof.
  assert (Hgen : ∀ p, pinv p →
    let p' := fold_left pack_section sections p in
    pinv p' ∧ content (p_bodies p' ++ [p_cur p']) = content (p_bodies p ++ [p_cur p]) ++
      concat (map (λ s, let '(head, _, rs) := render s in map (pair head) rs) sections)).
  { induction sections as [|s sections IH]; intros p Hi; cbn [fold_left map concat]; [by rewrite app_nil_r|].
    destruct (render s) as [[head hb] rs] eqn:Er.
    assert (pack_section p s = pack_rows (2 * length rs) head hb rs p) as -> by (unfold pack_section; by rewrite Er).
    destruct (pack_rows_spec (2 * length rs) head hb rs p Hi) as [H1 H2]; [lia|].
    destruct (IH _ H1) as [J1 J2]. split; [done|]. by rewrite J2, H2, <- app_assoc. }
  assert (Hs : pinv (start [])).
  { split; simpl; [done|unfold body_runes; simpl; lia|done|by left]. }
  unfold pack_bodies. destruct (Hgen (start []) Hs) as [H1 H2]. simpl in H2. split; [done|].
  exact (pi_bodies _ (pinv_flush _ H1)).
Qed.
End pack.

Fixpoint join (sep : string) (l : list string) : string :=
  match l with [] => "" | [s] => s | s :: l' => s +:+ sep +:+ join sep l' end.

Definition message (n i : nat) (intro : string) (body : list chunk) : string :=
  "<p>" +:+ join "<br>"
    ((if (1 <? n)%nat then ["Part " +:+ FormatInt (Z.of_nat (i + 1)) +:+ " of " +:+ FormatInt (Z.of_nat n)] else [])
     ++ (if (i =? 0)%nat then [intro] else []))
  +:+ "</p>" +:+ fold_right (λ c acc, chunk_text c +:+ acc) "" body.

Definition pack (lead : list string) (sections : list section_) (lim : messageLimits) : list string :=
  let intro := join "<br>" (map Challenges.EscapeString lead) in
  let bodies := pack_bodies (RuneCount intro) lim sections in
  imap (λ i body, message (length bodies) i intro body) bodies.

(** ** Untrusted text *)
Fixpoint runes_acc (skip : nat) (s : string) : list string :=
  match s with
  | "" => []
  | String _ s' => match skip with
                   | S n => runes_acc n s'
                   | O => String.substring 0 (rune_len s) s :: runes_acc (rune_len s - 1) s'
                   end
  end.
Definition runes (s : string) : list string := runes_acc 0 s.

Definition replacement : string := String "239" (String "191" (String "189" "")).   (* U+FFFD *)
Definition ellipsis : string := String "226" (String "128" (String "166" "")).      (* U+2026 *)
Definition en_dash : string := String "226" (String "128" (String "147" "")).       (* U+2013 *)

(** A byte that starts no rune stands alone and is not ASCII. *)
Definition valid_rune (r : string) : bool :=
  match r with String c "" => cZ c <? 128 | _ => true end.
Definition strcat (l : list string) : string := fold_right String.append "" l.

Definition clip (s : string) (n : nat) : string :=
  if RuneCount s <=? Z.of_nat n then s
  else strcat (map (λ r, if valid_rune r then r else replacement) (take n (runes s))) +:+ ellipsis.

(** [strings.ToValidUTF8]: a run of invalid bytes becomes one replacement. *)
Fixpoint valid_from (bad : bool) (rs : list string) : list string :=
  match rs with
  | [] => []
  | r :: rs' => if valid_rune r then r :: valid_from false rs'
                else if bad then valid_from true rs' else replacement :: valid_from true rs'
  end.
Definition ToValidUTF8 (s : string) : list string := valid_from false (runes s).

(** [unicode.IsControl]: U+0000 to U+001F and U+007F to U+009F. *)
Definition IsControl (r : string) : bool :=
  match r with
  | String c "" => (cZ c <? 32) || (cZ c =? 127)
  | String c (String d "") => (cZ c =? 194) && between 128 159 d
  | _ => false
  end.

(** ** Dates *)
Class Zone := {
  z_name : string;
  z_date : Z → string;                       (* the civil date, 2006-01-02 *)
  z_midnight : Z → Z;                        (* the start of that date *)
  z_days : Z → Z;                            (* its number, counted in UTC *)
  z_minus : Z → Z → Z;                       (* AddDate by so many days back *)
  z_day : Z → string;                        (* Mon 2 Jan 2006 *)
  z_short : Z → string;                      (* Mon 2 Jan *)
  z_clock : Z → string;                      (* 15:04 *)
  z_parse : string → option Z                (* ParseInLocation of a date *)
}.

Definition keyShown : nat := 12.
Definition retentionDays : Z := 30.
Definition cellRunes : nat := 256.

(** [Sub] saturates at the largest [Duration]; [Hours() / 24] is cut to a whole number. *)
Definition day_ns : Z := 24 * 3600 * second.
Definition plural (n : Z) (one many : string) : string := if n =? 1 then one else many.

Section report.
Context `{Zone} (format_rune : string → bool).

Definition display (s : string) : string :=
  strcat (map (λ r, if IsControl r || format_rune r then replacement else r) (ToValidUTF8 s)).

Definition daysBetween (from to : Z) : Z :=
  Z.quot (Z.max min_int64 (Z.min max_int64 ((z_days to - z_days from) * day_ns))) day_ns.

Context (node : string) (today : Z) (lastReport : string) (known : gset string).

Definition first : bool := String.eqb lastReport "".

Definition intro (fresh : list newAttempt) : option (list string) :=
  let n := Z.of_nat (length fresh) in
  let close lines :=
    lines ++ [if n =? 0 then "No new attempts." else FormatInt n +:+ " new " +:+ plural n "attempt" "attempts" +:+ "."] in
  let line := "Refused apps, report of " +:+ z_day today +:+ " from " +:+ node +:+ " (times in " +:+ z_name +:+ ")." in
  if first then
    Some (close [line; "This is the first report, so it lists every refused attempt still on file. Refusal records are deleted after "
                         +:+ FormatInt retentionDays +:+ " days."])
  else
    match z_parse lastReport with
    | None => None
    | Some last =>
        let gap := daysBetween last today in
        Some (close ([line]
          ++ (if 1 <? gap then
                ["The last report was sent on " +:+ z_day last +:+ "; this one also covers the " +:+ FormatInt (gap - 1) +:+ " "
                 +:+ plural (gap - 1) "day" "days" +:+ " in between."] else [])
          ++ (if retentionDays <=? gap then
                ["Refusal records are deleted after " +:+ FormatInt retentionDays +:+ " days, so attempts made before "
                 +:+ z_day (z_minus today retentionDays) +:+ " may be missing."] else [])))
    end.

Definition appName (name : string) : string :=
  (if String.eqb name "" then "(no app named in the attestation)" else clip (display name) cellRunes) +:+
  (if negb first && negb (bool_decide (name ∈ known)) then " (first time seen)" else "").

(** ** Groups *)
Record variant := Variant { v_key : string; v_version : Z; v_verified : bool }.
#[export] Instance variant_eq_dec : EqDecision variant.
Proof using. solve_decision. Defined.
#[export] Instance variant_countable : Countable variant.
Proof using. refine (inj_countable' (λ v, (v_key v, v_version v, v_verified v)) (λ '(k, n, b), Variant k n b) _). by intros []. Defined.

Definition keyText (v : variant) : string :=
  if String.eqb (v_key v) "" then "none" else clip (display (v_key v)) keyShown.
Definition describe (v : variant) : string :=
  if String.eqb (v_key v) "" && (v_version v =? 0) then "no signing key or version in the attestation, not verified"
  else (if String.eqb (v_key v) "" then "no signing key" else "key " +:+ keyText v)
       +:+ ", version " +:+ FormatInt (v_version v) +:+ ", " +:+ (if v_verified v then "verified" else "not verified").

Record sourceGroup := SourceGroup { sg_ip : string; sg_times : list Z }.
Record variantGroup := VariantGroup { vg_variant : variant; vg_sources : list sourceGroup }.
Record appGroup := AppGroup { ag_name : string; ag_variants : list variantGroup }.
Record dayGroup := DayGroup { dg_date : Z; dg_apps : list appGroup }.

Definition span (s : sourceGroup) : string :=
  let first := z_clock (hd 0 (sg_times s)) in
  let last := z_clock (List.last (sg_times s) 0) in
  if String.eqb first last then first else first +:+ en_dash +:+ last.

Record groupKey := GroupKey { g_date : string; g_app : string; g_variant : variant; g_ip : string }.
#[export] Instance groupKey_eq_dec : EqDecision groupKey.
Proof using. solve_decision. Defined.
#[export] Instance groupKey_countable : Countable groupKey.
Proof using.
  refine (inj_countable' (λ k, (g_date k, g_app k, g_variant k, g_ip k)) (λ '(d, a, v, i), GroupKey d a v i) _). by intros [].
Defined.

Definition group_of (f : newAttempt) : groupKey :=
  GroupKey (z_date (At f.2)) f.1 (Variant (Key f.2) (Version f.2) (Verified f.2)) (IP f.2).

Definition push {K} `{Countable K} {A} (k : K) (x : A) (m : gmap K (list A)) : gmap K (list A) :=
  <[k := default [] (m !! k) ++ [x]]> m.
Definition times_of (fresh : list newAttempt) : gmap groupKey (list Z) :=
  fold_left (λ m f, push (group_of f) (At f.2) m) fresh ∅.
Definition dates_of (fresh : list newAttempt) : gmap string Z :=
  fold_left (λ m f, <[z_date (At f.2) := z_midnight (At f.2)]> m) fresh ∅.

Definition str_lt (a b : string) : bool := negb (ClientHello.str_leb b a).
Definition key_lt (a b : groupKey) : bool :=
  if negb (String.eqb (g_date a) (g_date b)) then str_lt (g_date a) (g_date b)
  else if negb (String.eqb (g_app a) (g_app b)) then str_lt (g_app a) (g_app b)
  else let v := g_variant a in let w := g_variant b in
  if negb (String.eqb (v_key v) (v_key w)) then str_lt (v_key v) (v_key w)
  else if negb (v_version v =? v_version w) then v_version v <? v_version w
  else if negb (Bool.eqb (v_verified v) (v_verified w)) then v_verified w
  else str_lt (g_ip a) (g_ip b).
Definition key_le (a b : groupKey) : Prop := key_lt b a = false.
#[export] Instance key_le_dec : RelDecision key_le.
Proof using. intros a b. unfold key_le. apply _. Defined.

(** The last element if it is the one meant, or a new one behind it. *)
Fixpoint on_last {A} (same : A → bool) (new : A) (f : A → A) (l : list A) : list A :=
  match l with
  | [] => [f new]
  | [x] => if same x then [f x] else [x; f new]
  | x :: l' => x :: on_last same new f l'
  end.

Definition place (date : Z) (k : groupKey) (ts : list Z) (days : list dayGroup) : list dayGroup :=
  on_last (λ d, dg_date d =? date) (DayGroup date [])
    (λ d, DayGroup (dg_date d)
       (on_last (λ a, String.eqb (ag_name a) (g_app k)) (AppGroup (g_app k) [])
          (λ a, AppGroup (ag_name a)
             (on_last (λ v, bool_decide (vg_variant v = g_variant k)) (VariantGroup (g_variant k) [])
                (λ v, VariantGroup (vg_variant v) (vg_sources v ++ [SourceGroup (g_ip k) ts])) (ag_variants a))) (dg_apps d)))
    days.

Definition groupByDay (fresh : list newAttempt) : list dayGroup :=
  let times := times_of fresh in
  fold_left (λ days k, place (default 0 (dates_of fresh !! g_date k)) k (merge_sort Z.le (default [] (times !! k))) days)
    (merge_sort key_le (map fst (map_to_list times))) [].

(** ** Sections *)
Definition byApp_columns : list string := ["Day"; "Time"; "IP"; "Tries"].
Definition source_row (date : Z) (s : sourceGroup) : list string :=
  [z_short date; span s; clip (display (sg_ip s)) cellRunes; FormatInt (Z.of_nat (length (sg_times s)))].

Record bstate := BState { b_index : gmap (string * variant) nat; b_sections : list section_ }.

Definition add_rows (rs : list (list string)) (s : section_) : section_ :=
  Section_ (heading s) (note s) (columns s) (rows s ++ rs).
Definition visit (d : dayGroup) (a : appGroup) (st : bstate) (v : variantGroup) : bstate :=
  let k := (ag_name a, vg_variant v) in
  let '(i, st) :=
    match b_index st !! k with
    | Some i => (i, st)
    | None =>
        let i := length (b_sections st) in
        (i, BState (<[k := i]> (b_index st))
              (b_sections st ++ [Section_ (appName (ag_name a)) (describe (vg_variant v)) byApp_columns []]))
    end in
  BState (b_index st) (alter (add_rows (map (source_row (dg_date d)) (vg_sources v))) i (b_sections st)).
Definition byApp (days : list dayGroup) : list section_ :=
  b_sections (fold_left (λ st d, fold_left (λ st a, fold_left (visit d a) (ag_variants a) st) (dg_apps d) st) days (BState ∅ [])).

Definition messages (fresh : list newAttempt) (lim : messageLimits) : option (list string) :=
  (λ lead, pack lead (byApp (groupByDay fresh)) lim) <$> intro fresh.

(** ** Every new attempt is told *)
Definition row_html (row : list string) : string := "<tr>" +:+ cells "td" row +:+ "</tr>".

(** The flattened groups, and the rows of some sections. *)
Definition entry := (Z * string * variant * sourceGroup)%type.
Definition flat (days : list dayGroup) : list entry :=
  flat_map (λ d, flat_map (λ a, flat_map (λ v, map (λ s, (dg_date d, ag_name a, vg_variant v, s)) (vg_sources v))
    (ag_variants a)) (dg_apps d)) days.
Definition table (ss : list section_) : list (string * string * list string) :=
  flat_map (λ s, map (pair (heading s, note s)) (rows s)) ss.
Definition entry_row (e : entry) : string * string * list string :=
  let '(date, app, v, s) := e in (appName app, describe v, source_row date s).

Lemma on_last_flat {A B} (g : A → list B) same new f extra l :
  (∀ x, same x = true → g (f x) = g x ++ extra) → g (f new) = extra →
  flat_map g (on_last same new f l) = flat_map g l ++ extra.
Proof.
  intros Hs Hn. induction l as [|x l IH]; cbn [on_last flat_map app]; [by rewrite Hn, app_nil_r|].
  destruct l as [|y l]; [|cbn [flat_map] in *; by rewrite IH, app_assoc].
  destruct (same x) eqn:E; cbn [flat_map]; rewrite !app_nil_r; [by apply Hs|by rewrite Hn].
Qed.

Lemma place_flat date k ts days :
  flat (place date k ts days) = flat days ++ [(date, g_app k, g_variant k, SourceGroup (g_ip k) ts)].
Proof.
  unfold flat, place. apply on_last_flat; [|done]. intros d ->%Z.eqb_eq. cbn [dg_date dg_apps].
  apply on_last_flat; [|done]. intros a ->%String.eqb_eq. cbn [ag_name ag_variants].
  apply on_last_flat; [|done]. intros v Hv%bool_decide_eq_true. cbn [vg_variant vg_sources].
  by rewrite map_app, Hv.
Qed.

Lemma push_flat {K A} `{Countable K} (k : K) (x : A) m :
  flat_map (λ kv, map (pair kv.1) kv.2) (map_to_list (push k x m)) ≡ₚ
  flat_map (λ kv, map (pair kv.1) kv.2) (map_to_list m) ++ [(k, x)].
Proof.
  unfold push. destruct (m !! k) as [l|] eqn:E; cbn [default from_option id].
  - rewrite <- insert_delete_eq, map_to_list_insert by apply lookup_delete_eq.
    rewrite <- (map_to_list_delete m k l E). cbn [flat_map fst snd]. rewrite map_app, <- !app_assoc.
    apply Permutation_app_head, Permutation_app_comm.
  - rewrite map_to_list_insert by done. cbn [flat_map fst snd map app]. apply Permutation_cons_append.
Qed.

Lemma times_of_spec fresh :
  flat_map (λ kv, map (pair kv.1) kv.2) (map_to_list (times_of fresh)) ≡ₚ map (λ f, (group_of f, At f.2)) fresh ∧
  ∀ k ts, times_of fresh !! k = Some ts → ts ≠ [].
Proof.
  unfold times_of. induction fresh as [|f fresh [I1 I2]] using rev_ind; [by split|].
  rewrite fold_left_app, map_app. cbn [fold_left map]. split; [by rewrite push_flat, I1|].
  intros k ts. unfold push. rewrite lookup_insert_Some. intros [[_ <-]|[_ Hk]]; [by destruct (default _ _)|by eapply I2].
Qed.

Record binv (st : bstate) : Prop := BInv {
  bi_columns : Forall (λ s, columns s = byApp_columns) (b_sections st);
  bi_index : ∀ app v i, b_index st !! (app, v) = Some i →
    ∃ s, b_sections st !! i = Some s ∧ heading s = appName app ∧ note s = describe v
}.

Lemma table_add ss i s rs : ss !! i = Some s →
  table (alter (add_rows rs) i ss) ≡ₚ table ss ++ map (pair (heading s, note s)) rs.
Proof.
  unfold table. revert i. induction ss as [|t ss IH]; intros [|i] Hi; [done..| |]; simpl in Hi.
  - injection Hi as ->. change (alter (add_rows rs) 0%nat (s :: ss)) with (add_rows rs s :: ss).
    cbn [flat_map add_rows heading note rows]. rewrite map_app, <- !app_assoc.
    apply Permutation_app_head, Permutation_app_comm.
  - change (alter (add_rows rs) (S i) (t :: ss)) with (t :: alter (add_rows rs) i ss).
    cbn [flat_map]. by rewrite (IH i Hi), app_assoc.
Qed.

(** After the section of the variant was looked up or opened. *)
Lemma add_rows_inv st app v i s rs : binv st → b_index st !! (app, v) = Some i → b_sections st !! i = Some s →
  binv (BState (b_index st) (alter (add_rows rs) i (b_sections st))).
Proof.
  intros [I1 I2] Hk Hs. split; cbn [b_sections b_index].
  - by apply Forall_alter.
  - intros app' v' j Hj. destruct (I2 _ _ _ Hj) as (s' & Hs' & Hh & Hn). destruct (decide (i = j)) as [<-|Hne].
    + exists (add_rows rs s'). rewrite list_lookup_alter_eq, Hs'. done.
    + exists s'. by rewrite list_lookup_alter_ne.
Qed.

Lemma visit_spec d a st v : binv st →
  binv (visit d a st v) ∧
  table (b_sections (visit d a st v)) ≡ₚ
    table (b_sections st) ++ map (λ s, entry_row (dg_date d, ag_name a, vg_variant v, s)) (vg_sources v).
Proof.
  intros Hi. unfold visit. destruct (b_index st !! (ag_name a, vg_variant v)) as [i|] eqn:E.
  - destruct (bi_index _ Hi _ _ _ E) as (s & Hs & Hh & Hn). split; [by eapply add_rows_inv|]. cbn [b_sections].
    rewrite (table_add _ _ _ _ Hs), Hh, Hn, map_map. done.
  - set (s := Section_ _ _ _ _). set (st1 := BState _ (b_sections st ++ [s])).
    assert (Hs : b_sections st1 !! length (b_sections st) = Some s) by by apply list_lookup_middle.
    assert (Hi1 : binv st1).
    { destruct Hi as [I1 I2]. split; cbn [st1 b_sections b_index]; [apply Forall_app; by repeat constructor|].
      intros app' v' j [[[= <- <-] <-]|[_ Hj]]%lookup_insert_Some; [by exists s|].
      destruct (I2 _ _ _ Hj) as (s' & Hs' & ?). exists s'. split; [by apply lookup_app_l_Some|done]. }
    assert (E1 : b_index st1 !! (ag_name a, vg_variant v) = Some (length (b_sections st))) by apply lookup_insert_eq.
    split; [by eapply add_rows_inv|]. cbn [b_sections]. rewrite (table_add _ _ _ _ Hs), map_map.
    cbn [s heading note]. unfold st1. cbn [b_sections]. unfold table at 1. rewrite flat_map_app. cbn [flat_map map rows s app].
    by rewrite app_nil_r.
Qed.

Lemma fold_table {A} (step : bstate → A → bstate) g l st :
  (∀ st x, binv st → binv (step st x) ∧ table (b_sections (step st x)) ≡ₚ table (b_sections st) ++ g x) → binv st →
  binv (fold_left step l st) ∧ table (b_sections (fold_left step l st)) ≡ₚ table (b_sections st) ++ flat_map g l.
Proof.
  intros Hstep. revert st. induction l as [|x l IH]; intros st Hi; cbn [fold_left flat_map]; [by rewrite app_nil_r|].
  destruct (Hstep st x Hi) as [H1 H2]. destruct (IH _ H1) as [J1 J2]. split; [done|]. by rewrite J2, H2, app_assoc.
Qed.

Lemma map_of_flat_map {A B C} (f : B → C) (g : A → list B) l : map f (flat_map g l) = flat_map (λ x, map f (g x)) l.
Proof. induction l as [|x l IH]; [done|]. cbn [flat_map]. by rewrite map_app, IH. Qed.

Lemma byApp_spec days :
  table (byApp days) ≡ₚ map entry_row (flat days) ∧ Forall (λ s, columns s = byApp_columns) (byApp days).
Proof.
  unfold byApp. destruct (fold_table
    (λ st d, fold_left (λ st a, fold_left (visit d a) (ag_variants a) st) (dg_apps d) st)
    (λ d, flat_map (λ a, flat_map (λ v, map (λ s, entry_row (dg_date d, ag_name a, vg_variant v, s)) (vg_sources v))
       (ag_variants a)) (dg_apps d)) days (BState ∅ [])) as [H1 H2].
  - intros st d Hi. apply fold_table; [|done]. intros st' a Hi'. apply fold_table; [|done]. intros; by apply visit_spec.
  - by split.
  - split; [|exact (bi_columns _ H1)]. rewrite H2. cbn [b_sections table flat_map app]. unfold flat.
    rewrite map_of_flat_map. erewrite flat_map_ext; [done|]. intros d. cbn beta.
    rewrite map_of_flat_map. apply flat_map_ext. intros a. rewrite map_of_flat_map. apply flat_map_ext. intros v.
    by rewrite map_map.
Qed.

(** The rows of a group: the key, its day, and its times in order. *)
Definition group_row (fresh : list newAttempt) (g : groupKey * list Z) : string * string * list string :=
  entry_row (default 0 (dates_of fresh !! g_date g.1), g_app g.1, g_variant g.1, SourceGroup (g_ip g.1) g.2).

Lemma groupByDay_flat fresh :
  flat (groupByDay fresh) = map (λ k, (default 0 (dates_of fresh !! g_date k), g_app k, g_variant k,
      SourceGroup (g_ip k) (merge_sort Z.le (default [] (times_of fresh !! k)))))
    (merge_sort key_le (map fst (map_to_list (times_of fresh)))).
Proof.
  unfold groupByDay. set (keys := merge_sort key_le _). clearbody keys.
  assert (Hgen : ∀ days f, flat (fold_left (λ days k, place (default 0 (dates_of fresh !! g_date k)) k (f k) days) keys days) =
    flat days ++ map (λ k, (default 0 (dates_of fresh !! g_date k), g_app k, g_variant k, SourceGroup (g_ip k) (f k))) keys).
  { intros days f. revert days. induction keys as [|k keys IH]; intros days; cbn [fold_left map]; [by rewrite app_nil_r|].
    by rewrite IH, place_flat, <- app_assoc. }
  by rewrite Hgen.
Qed.

(** The groups: those of [times_of], each with its times in order. *)
Definition groups_of (fresh : list newAttempt) : list (groupKey * list Z) :=
  map (λ kv, (kv.1, merge_sort Z.le kv.2)) (map_to_list (times_of fresh)).

Lemma groups_spec fresh :
  NoDup (map fst (groups_of fresh)) ∧
  (∀ k ts, (k, ts) ∈ groups_of fresh → ts ≠ [] ∧ Sorted Z.le ts) ∧
  flat_map (λ g, map (pair g.1) g.2) (groups_of fresh) ≡ₚ map (λ f, (group_of f, At f.2)) fresh ∧
  map entry_row (flat (groupByDay fresh)) ≡ₚ map (group_row fresh) (groups_of fresh).
Proof.
  destruct (times_of_spec fresh) as [Ht Hne]. unfold groups_of. split; [|split; [|split]].
  - rewrite map_map. cbn [fst]. apply NoDup_fst_map_to_list.
  - intros k ts ([k' ts'] & [= -> ->] & Hk%elem_of_map_to_list)%list_elem_of_fmap. split.
    + intros E. apply (Hne _ _ Hk), Permutation_nil. by rewrite <- E, merge_sort_Permutation.
    + apply Sorted_merge_sort; apply _.
  - rewrite <- Ht. clear Ht. induction (map_to_list (times_of fresh)) as [|kv l IH]; [done|]. cbn [map flat_map fst snd].
    by rewrite IH, merge_sort_Permutation.
  - rewrite groupByDay_flat, map_map, merge_sort_Permutation, !map_map. erewrite map_ext_in; [done|].
    intros [k ts] Hk%list_elem_of_In%elem_of_map_to_list. unfold group_row. cbn [fst snd]. by rewrite Hk.
Qed.

(** A row as a message shows it: under the head of its table. *)
Definition shown (r : string * string * list string) : string * string :=
  let '(h, n, cells) := r in
  let '(head, _, _) := render (Section_ h n byApp_columns []) in (head, row_html cells).

Lemma shown_sections ss : Forall (λ s, columns s = byApp_columns) ss →
  concat (map (λ s, let '(head, _, rs) := render s in map (pair head) rs) ss) = map shown (table ss).
Proof.
  unfold table. induction 1 as [|s ss Hc _ IH]; [done|]. cbn [map concat flat_map]. rewrite map_app, IH. f_equal.
  unfold render, shown. rewrite Hc, !map_map. done.
Qed.

(** The report tells every new attempt, once. The new attempts fall into groups by day,
    app, variant and source; the tables of the messages hold one row for each group,
    under the head of its app and variant, with its times in order and their number; and
    every message is within the limits of the chat, unless it is a single row that fits
    nowhere. *)
Lemma report_tells_every_attempt introRunes lim fresh :
  let bodies := pack_bodies introRunes lim (byApp (groupByDay fresh)) in
  ∃ groups,
    NoDup (map fst groups) ∧
    (∀ k ts, (k, ts) ∈ groups → ts ≠ [] ∧ Sorted Z.le ts) ∧
    flat_map (λ g, map (pair g.1) g.2) groups ≡ₚ map (λ f, (group_of f, At f.2)) fresh ∧
    content bodies ≡ₚ map (λ g, shown (group_row fresh g)) groups ∧
    ∀ i body, bodies !! i = Some body → fits introRunes lim (i =? 0)%nat body.
Proof.
  destruct (groups_spec fresh) as (G1 & G2 & G3 & G4). destruct (byApp_spec (groupByDay fresh)) as [B1 B2].
  destruct (packed_within_limits introRunes lim (byApp (groupByDay fresh))) as [P1 P2].
  exists (groups_of fresh). split; [done|]. split; [done|]. split; [done|]. split; [|done].
  rewrite P1, (shown_sections _ B2), B1, G4, map_map. done.
Qed.
End report.
End RefusedReport.
