(* ===== verification/RefusedApps.v ===== *)
(** * The refused-apps job

    The job under [infra/refused-apps] that reports, once a day, the apps whose
    enrollment was refused: the order in which it loads, sends, saves and
    publishes, the messages to the chat and their retries, and the file the
    dashboard reads.

    The store, the chat's server, the file system and JSON are parameters. *)
From Stdlib Require Import ZArith Lia Ascii String.
From stdpp Require Import gmap sorting.
From S2P Require Import Prelude GoStr Attest ClientHello Challenges RefusedList RefusedReport.
Local Open Scope string_scope.
Local Open Scope list_scope.
Local Open Scope Z_scope.

Module RefusedApps.
Import RefusedList RefusedReport.

(** ** The dashboard file *)
Record rowKey := RowKey { rk_app : string; rk_key : string; rk_version : Z; rk_ip : string }.
#[export] Instance rowKey_eq_dec : EqDecision rowKey.
Proof. solve_decision. Defined.
#[export] Instance rowKey_countable : Countable rowKey.
Proof.
  refine (inj_countable' (λ k, (rk_app k, rk_key k, rk_version k, rk_ip k)) (λ '(a, k, v, i), RowKey a k v i) _). by intros [].
Defined.
Record row := Row { row_key : rowKey; row_count : Z; firstSeen : Z; lastSeen : Z }.

Definition key_of (f : newAttempt) : rowKey := RowKey f.1 (Key f.2) (Version f.2) (IP f.2).
(** [Unix]: whole seconds. *)
Definition Unix (t : Z) : Z := t / second.

Definition attempts_on (l : attemptList) : list newAttempt :=
  flat_map (λ kv, map (pair kv.1) kv.2) (map_to_list (Apps l)).

Definition bump (m : gmap rowKey row) (f : newAttempt) : gmap rowKey row :=
  let k := key_of f in
  let at_ := Unix (At f.2) in
  let r := default (Row k 0 at_ at_) (m !! k) in
  <[k := Row (row_key r) (row_count r + 1) (Z.min (firstSeen r) at_) (Z.max (lastSeen r) at_)]> m.
Definition byKey (fs : list newAttempt) : gmap rowKey row := fold_left bump fs ∅.

Definition row_lt (r s : row) : bool :=
  let a := row_key r in let b := row_key s in
  if negb (String.eqb (rk_app a) (rk_app b)) then str_lt (rk_app a) (rk_app b)
  else if negb (String.eqb (rk_key a) (rk_key b)) then str_lt (rk_key a) (rk_key b)
  else if negb (rk_version a =? rk_version b) then rk_version a <? rk_version b
  else str_lt (rk_ip a) (rk_ip b).
Definition row_le (r s : row) : Prop := row_lt s r = false.
#[export] Instance row_le_dec : RelDecision row_le.
Proof. intros r s. unfold row_le. apply _. Defined.

Definition dashboard_rows (l : attemptList) : list row :=
  merge_sort row_le (map snd (map_to_list (byKey (attempts_on l)))).

Definition quote : string := String "034" "".
Definition newline : string := String "010" "".
Definition backslash : string := String "092" "".
Definition label_byte (c : ascii) : string :=
  if cZ c =? 92 then backslash +:+ backslash
  else if cZ c =? 34 then backslash +:+ quote
  else if cZ c =? 10 then backslash +:+ "n" else String c "".
Fixpoint replace_bytes (s : string) : string :=
  match s with "" => "" | String c s' => label_byte c +:+ replace_bytes s' end.
Definition labelValue (s : string) : string := replace_bytes (strcat (ToValidUTF8 s)).

Definition series (name : string) (value : row → Z) (r : row) : string :=
  let k := row_key r in
  name +:+ "{app=" +:+ quote +:+ labelValue (rk_app k) +:+ quote +:+ ",key=" +:+ quote +:+ labelValue (rk_key k) +:+ quote
  +:+ ",version=" +:+ quote +:+ FormatInt (rk_version k) +:+ quote +:+ ",ip=" +:+ quote +:+ labelValue (rk_ip k) +:+ quote
  +:+ "} " +:+ FormatInt (value r) +:+ newline.
Definition family (rs : list row) (f : string * string * (row → Z)) : string :=
  let '(name, help, value) := f in
  "# HELP " +:+ name +:+ " " +:+ help +:+ newline +:+ "# TYPE " +:+ name +:+ " gauge" +:+ newline
  +:+ strcat (map (series name value) rs).
Definition metrics (l : attemptList) : string :=
  let rs := dashboard_rows l in
  strcat (map (family rs)
    [("arc_refused_app_attempts", "Refused enrollment attempts per app, signing key, app version and source address.", row_count);
     ("arc_refused_app_first_seen_timestamp_seconds",
      "Time of the first refused enrollment attempt per app, signing key, app version and source address.", firstSeen);
     ("arc_refused_app_last_seen_timestamp_seconds",
      "Time of the last refused enrollment attempt per app, signing key, app version and source address.", lastSeen)]).

(** A row stands for all the attempts of its key, and tells their span. *)
Definition seen_at (f : newAttempt) : Z := Unix (At f.2).
Definition row_of (k : rowKey) (fs : list newAttempt) : option row :=
  match map seen_at (filter (λ f, key_of f = k) fs) with
  | [] => None
  | t :: ts => Some (Row k (Z.of_nat (S (length ts))) (fold_left Z.min ts t) (fold_left Z.max ts t))
  end.

Lemma byKey_spec fs k : byKey fs !! k = row_of k fs.
Proof.
  unfold byKey. induction fs as [|f fs IH] using rev_ind; [done|]. rewrite fold_left_app. cbn [fold_left].
  set (m := fold_left bump fs ∅) in *. unfold bump, row_of in *. rewrite filter_app, map_app.
  destruct (decide (key_of f = k)) as [<-|Hne].
  - rewrite lookup_insert_eq, IH. rewrite filter_cons_True, filter_nil by done. cbn [map].
    change (Unix (At f.2)) with (seen_at f).
    destruct (map seen_at (filter _ fs)) as [|t ts]; cbn [app default from_option id row_key row_count firstSeen lastSeen].
    + f_equal. cbn [length fold_left]. f_equal; lia.
    + rewrite length_app, !fold_left_app. cbn [length fold_left]. f_equal. f_equal; lia.
  - rewrite lookup_insert_ne by done. rewrite filter_cons_False, filter_nil by done. cbn [map]. by rewrite app_nil_r, IH.
Qed.

(** The rows of the file are those of the keys on the list, one each. *)
Lemma dashboard_rows_spec l r :
  (r ∈ dashboard_rows l ↔ row_of (row_key r) (attempts_on l) = Some r) ∧ NoDup (dashboard_rows l).
Proof.
  assert (Hk : ∀ k r, byKey (attempts_on l) !! k = Some r → row_key r = k).
  { intros k r'. rewrite byKey_spec. unfold row_of. destruct (map _ _); [done|]. by intros [= <-]. }
  split.
  - unfold dashboard_rows. rewrite merge_sort_Permutation, list_elem_of_fmap. split.
    + intros ([k r'] & -> & Hm%elem_of_map_to_list). cbn [snd]. rewrite (Hk _ _ Hm). by rewrite <- byKey_spec.
    + rewrite <- byKey_spec. intros Hm. exists (row_key r, r). split; [done|]. by apply elem_of_map_to_list.
  - unfold dashboard_rows. rewrite merge_sort_Permutation.
    apply NoDup_fmap_2_strong; [|apply NoDup_map_to_list].
    intros [k1 r1] [k2 r2] H1%elem_of_map_to_list H2%elem_of_map_to_list E. cbn [snd] in E. subst r2.
    by rewrite <- (Hk _ _ H1), <- (Hk _ _ H2).
Qed.

(** ** The world of the job *)
Inductive get_error := NotFound | GetFails.
Definition listKey : string := "refused-apps/attempts.json".
Definition evidencePrefix : string := "rejected-enroll/".

(** The store, the messenger, the timer, the revocation list and the file system;
    [true] is success. *)
Class JobDeps (B : Type) := {
  jd_Get : string → B → result get_error string * B;
  jd_List : string → B → option (list string) * B;
  jd_Put : string → string → B → bool * B;
  jd_Send : string → B → bool * B;
  jd_sleep : Z → B → bool * B;
  jd_Revocations : B → option (string → bool) * B;
  jd_CreateTemp : string → B → option string * B;        (* next to the file of that path *)
  jd_WriteString : string → string → B → bool * B;
  jd_Chmod : string → B → bool * B;
  jd_Close : string → B → bool * B;
  jd_Rename : string → string → B → bool * B;
  jd_Remove : string → B → bool * B
}.

(** What the file operations may do to the contents of files: each touches only
    the files it names, a successful write gives a new file its text, and a rename
    moves a file or leaves its target alone. *)
Class FileLaws (B : Type) `{JobDeps B} (file : B → string → option string) : Prop := {
  fl_create p b n b' : jd_CreateTemp p b = (Some n, b') → n ≠ p ∧ file b' n = Some EmptyString ∧ file b' p = file b p;
  fl_create_fails p b b' : jd_CreateTemp p b = (None, b') → file b' p = file b p;
  fl_write n t b ok b' : jd_WriteString n t b = (ok, b') →
    (∀ p, p ≠ n → file b' p = file b p) ∧ (ok = true → file b n = Some EmptyString → file b' n = Some t);
  fl_chmod n b ok b' p : jd_Chmod n b = (ok, b') → file b' p = file b p;
  fl_close n b ok b' p : jd_Close n b = (ok, b') → p ≠ n ∨ ok = true → file b' p = file b p;
  fl_rename n p b ok b' : jd_Rename n p b = (ok, b') → file b' p = if (ok : bool) then file b n else file b p;
  fl_remove n b ok b' p : jd_Remove n b = (ok, b') → p ≠ n → file b' p = file b p
}.

Section textfile.
Context {B : Type} `{JobDeps B}.

(** The deferred [Remove] after an error; its own error only joins the first. *)
Definition removing (tmp : string) (b : B) : bool * B := (false, (jd_Remove tmp b).2).

Definition writeTextfile (path : string) (l : attemptList) (b : B) : bool * B :=
  let '(created, b) := jd_CreateTemp path b in
  match created with
  | None => (false, b)
  | Some tmp =>
      let '(ok, b) := jd_WriteString tmp (metrics l) b in
      if negb ok then removing tmp (jd_Close tmp b).2
      else
        let '(ok, b) := jd_Chmod tmp b in
        if negb ok then removing tmp (jd_Close tmp b).2
        else
          let '(ok, b) := jd_Close tmp b in
          if negb ok then removing tmp b
          else
            let '(ok, b) := jd_Rename tmp path b in
            if negb ok then removing tmp b else (true, b)
  end.

(** The dashboard's file is replaced whole or not at all. *)
Lemma writeTextfile_whole `{FL : !FileLaws B file} path l b ok b' : writeTextfile path l b = (ok, b') →
  file b' path = if ok then Some (metrics l) else file b path.
Proof.
  unfold writeTextfile, removing. destruct (jd_CreateTemp path b) as [[tmp|] b1] eqn:E1.
  2:{ intros [= <- <-]. by apply fl_create_fails. }
  destruct (fl_create _ _ _ _ E1) as (Hne & Fe & F1).
  assert (Hrm : ∀ c, file (jd_Remove tmp c).2 path = file c path).
  { intros c. destruct (jd_Remove tmp c) eqn:E. by eapply fl_remove. }
  assert (Hcl : ∀ c, file (jd_Close tmp c).2 path = file c path).
  { intros c. destruct (jd_Close tmp c) eqn:E. eapply fl_close; [done|by left]. }
  destruct (jd_WriteString tmp (metrics l) b1) as [[] b2] eqn:E2; cbn [negb]; destruct (fl_write _ _ _ _ _ E2) as [W1 W2].
  2:{ intros [= <- <-]. by rewrite Hrm, Hcl, W1. }
  destruct (jd_Chmod tmp b2) as [[] b3] eqn:E3; cbn [negb].
  2:{ intros [= <- <-]. by rewrite Hrm, Hcl, (fl_chmod _ _ _ _ _ E3), W1. }
  specialize (Hcl b3). destruct (jd_Close tmp b3) as [[] b4] eqn:E4; cbn [negb snd] in *.
  2:{ intros [= <- <-]. by rewrite Hrm, Hcl, (fl_chmod _ _ _ _ _ E3), W1. }
  destruct (jd_Rename tmp path b4) as [[] b5] eqn:E5; cbn [negb]; intros [= <- <-].
  - rewrite (fl_rename _ _ _ _ _ E5), (fl_close _ _ _ _ _ E4), (fl_chmod _ _ _ _ _ E3) by by right. by apply W2.
  - by rewrite Hrm, (fl_rename _ _ _ _ _ E5), Hcl, (fl_chmod _ _ _ _ _ E3), W1.
Qed.
End textfile.

(** ** The job *)
Inductive jev :=
| JSent (msg : string)
| JPut (key body : string)
| JTextfile (l : attemptList).

Inductive job_error := LoadFails | RevocationsFail | ListFails | RecordFails | MessagesFail | SendFails | EncodeFails
| SaveFails | TextfileFails.

Definition richMessageBlocks : Z := 500.
Definition richMessageRunes : Z := 32768.
Definition pause : Z := second.

Section job.
Context {B : Type} `{JobDeps B} `{Attest.ASN1} {K : Type} `{Zone} (format_rune : string → bool).
Context (pem_Decode : string → option (string * string)) (ParseCertificate : string → option (Attest.Certificate K)).
Context (MarshalList : attemptList → option string) (UnmarshalList : string → option attemptList).
Context (UnmarshalRecord : string → option RejectedEnrollment).
Context (node textfile : string) (hidden : gset string).

Record jst := JSt { j_b : B; j_trace : list jev }.

Definition load (b : B) : result job_error attemptList * B :=
  let '(r, b) := jd_Get listKey b in
  (match r with
   | Err NotFound => Ok (AttemptList "" ∅)
   | Err GetFails => Err LoadFails
   | Ok body => match UnmarshalList body with Some l => Ok l | None => Err LoadFails end
   end, b).

(** The records: those deleted since they were listed are skipped. *)
Fixpoint records (keys : list string) (revoked : string → bool) (b : B) : option (list newAttempt) * B :=
  match keys with
  | [] => (Some [], b)
  | key :: keys' =>
      let '(r, b) := jd_Get key b in
      match r with
      | Err NotFound => records keys' revoked b
      | Err GetFails => (None, b)
      | Ok body =>
          match UnmarshalRecord body with
          | None => (None, b)
          | Some ev =>
              let '(evs, b) := records keys' revoked b in
              (match evs with
               | Some evs => Some (toAttempt pem_Decode ParseCertificate ev revoked :: evs)
               | None => None
               end, b)
          end
      end
  end.

(** [first]: no wait before the first message. *)
Fixpoint send_from (first : bool) (msgs : list string) (s : jst) : bool * jst :=
  match msgs with
  | [] => (true, s)
  | m :: msgs' =>
      let '(slept, b) := if first then (true, j_b s) else jd_sleep pause (j_b s) in
      if negb slept then (false, JSt b (j_trace s))
      else
        let '(ok, b) := jd_Send m b in
        if (ok : bool) then send_from false msgs' (JSt b (j_trace s ++ [JSent m])) else (false, JSt b (j_trace s))
  end.

Definition save (day : string) (l : attemptList) (s : jst) : result job_error unit * jst :=
  let l := AttemptList day (Apps l) in
  match MarshalList l with
  | None => (Err EncodeFails, s)
  | Some body =>
      let '(ok, b) := jd_Put listKey body (j_b s) in
      if negb ok then (Err SaveFails, JSt b (j_trace s))
      else
        let s := JSt b (j_trace s ++ [JPut listKey body]) in
        let '(ok, b) := writeTextfile textfile (without hidden l) (j_b s) in
        if (ok : bool) then (Ok tt, JSt b (j_trace s ++ [JTextfile (without hidden l)]))
        else (Err TextfileFails, JSt b (j_trace s))
  end.

(** The records are read before the first is added to the list, which nobody else sees. *)
Definition run (now : Z) (s : jst) : result job_error unit * jst :=
  let day := z_date now in
  let '(r, b) := load (j_b s) in
  match r with
  | Err e => (Err e, JSt b (j_trace s))
  | Ok l =>
      if String.eqb (LastReport l) day then (Ok tt, JSt b (j_trace s))
      else
        let '(rev, b) := jd_Revocations b in
        match rev with
        | None => (Err RevocationsFail, JSt b (j_trace s))
        | Some revoked =>
            let '(keys, b) := jd_List evidencePrefix b in
            match keys with
            | None => (Err ListFails, JSt b (j_trace s))
            | Some keys =>
                let '(evs, b) := records keys revoked b in
                match evs with
                | None => (Err RecordFails, JSt b (j_trace s))
                | Some evs =>
                    let '(fresh, _, l') := collect hidden evs (index l) l [] in
                    match messages format_rune node now (LastReport l) (dom (Apps l)) fresh
                            (Limits richMessageBlocks richMessageRunes) with
                    | None => (Err MessagesFail, JSt b (j_trace s))
                    | Some msgs =>
                        let '(ok, s) := send_from true msgs (JSt b (j_trace s)) in
                        if (ok : bool) then save day l' s else (Err SendFails, s)
                    end
                end
            end
        end
  end.










(** ** Configuration and exit *)
Inductive config_error := StoreMissing | MessagesMissing | RevocationsMissing | NodeEmpty | LocationMissing | TextfileEmpty
| LoggerMissing | HiddenAppEmpty.
Record jobConfig := JobConfig {
  jc_Store : bool; jc_Messages : bool; jc_Revocations : bool; jc_Node : string; jc_Location : bool; jc_Textfile : string;
  jc_HideApps : list string; jc_Logger : bool
}.

(** The hidden apps of the new job. *)
Definition newJob (cfg : jobConfig) : result config_error (gset string) :=
  if negb (jc_Store cfg) then Err StoreMissing
  else if negb (jc_Messages cfg) then Err MessagesMissing
  else if negb (jc_Revocations cfg) then Err RevocationsMissing
  else if String.eqb (jc_Node cfg) "" then Err NodeEmpty
  else if negb (jc_Location cfg) then Err LocationMissing
  else if String.eqb (jc_Textfile cfg) "" then Err TextfileEmpty
  else if negb (jc_Logger cfg) then Err LoggerMissing
  else if existsb (λ app, String.eqb app "") (jc_HideApps cfg) then Err HiddenAppEmpty
  else Ok (list_to_set (jc_HideApps cfg)).
End job.

Record cli := Cli { c_Node : string; c_TelegramToken : string; c_TelegramChat : Z; c_Textfile : string; c_HideApps : list string }.
Inductive exec_error := ZoneFails | ConfigFails (e : config_error) | RunFails (e : job_error).
Definition failureErrorRunes : nat := 4096.

Section execute.
Context {B : Type} `{JobDeps B} `{Attest.ASN1} {K : Type} (format_rune : string → bool).
Context (pem_Decode : string → option (string * string)) (ParseCertificate : string → option (Attest.Certificate K)).
Context (MarshalList : attemptList → option string) (UnmarshalList : string → option attemptList).
Context (UnmarshalRecord : string → option RejectedEnrollment).
(** The time zone of the setting, if it can be loaded, and the texts of errors. *)
Context (zone : option Zone) (error_text : exec_error → string).

Definition runOnce (c : cli) (now : Z) (s : jst (B := B)) : result exec_error unit * jst :=
  match zone with
  | None => (Err ZoneFails, s)
  | Some z =>
      match newJob (JobConfig true true true (c_Node c) true (c_Textfile c) (c_HideApps c) true) with
      | Err e => (Err (ConfigFails e), s)
      | Ok hidden =>
          let '(r, s) := run format_rune pem_Decode ParseCertificate MarshalList UnmarshalList UnmarshalRecord
                           (c_Node c) (c_Textfile c) hidden now s in
          (match r with Ok u => Ok u | Err e => Err (RunFails e) end, s)
      end
  end.

Definition failure_message (c : cli) (e : exec_error) : string :=
  "<p>The refused-apps report failed on " +:+ Challenges.EscapeString (c_Node c) +:+
  ". The next scheduled run tries again.</p><p>Error: " +:+
  Challenges.EscapeString (clip (error_text e) failureErrorRunes) +:+ "</p>".

(** The exit code. *)
Definition execute (c : cli) (now : Z) (s : jst (B := B)) : Z * jst :=
  if String.eqb (c_TelegramToken c) "" || (c_TelegramChat c =? 0) then (1, s)
  else
    let '(r, s) := runOnce c now s in
    match r with
    | Ok _ => (0, s)
    | Err e =>
        let '(ok, b) := jd_Send (failure_message c e) (j_b s) in
        (1, JSt b (if (ok : bool) then j_trace s ++ [JSent (failure_message c e)] else j_trace s))
    end.

Lemma newJob_ok cfg hidden : newJob cfg = Ok hidden →
  jc_Node cfg ≠ "" ∧ jc_Textfile cfg ≠ "" ∧ "" ∉ jc_HideApps cfg ∧ hidden = list_to_set (jc_HideApps cfg).
Proof.
  unfold newJob. destruct (jc_Store cfg), (jc_Messages cfg), (jc_Revocations cfg); cbn [negb]; try done.
  destruct (String.eqb_spec (jc_Node cfg) ""); [done|]. destruct (jc_Location cfg); cbn [negb]; [|done].
  destruct (String.eqb_spec (jc_Textfile cfg) ""); [done|]. destruct (jc_Logger cfg); cbn [negb]; [|done].
  destruct (existsb _ _) eqn:E; [done|]. intros [= <-]. repeat split; try done.
  intros Hin%list_elem_of_In. rewrite <- not_true_iff_false, existsb_exists in E. apply E. by exists "".
Qed.
End execute.

(** ** The chat *)
Definition telegramRetries : nat := 3.
Definition telegramMaxBackoff : Z := 60 * second.

Record telegramResponse := TelegramResponse { tr_OK : bool; tr_Description : string; tr_RetryAfter : Z }.
Inductive http_outcome := BuildFails | DoFails | ReadFails | Answered (status : Z) (raw : string).
Inductive post_error := PostFails | DecodeFails (status : Z) | Refused (status : Z) (why : string).
Inductive tev := TPost (err : option post_error) | TSleep (d : Z).

Class ChatDeps (B : Type) := {
  cd_Do : string → B → http_outcome * B;
  cd_sleep : Z → B → bool * B
}.

Section telegram.
Context {B : Type} `{ChatDeps B} (MarshalMessage : string → option string) (UnmarshalResponse : string → option telegramResponse).

(** The wait the chat asks for, 0 for none, and the error. *)
Definition post (body : string) (b : B) : Z * option post_error * B :=
  let '(o, b) := cd_Do body b in
  (match o with
   | BuildFails | DoFails | ReadFails => (0, Some PostFails)
   | Answered status raw =>
       match UnmarshalResponse raw with
       | None => (0, Some (DecodeFails status))
       | Some a =>
           if tr_OK a then (0, None)
           else ((if status =? 429 then wrap64 (tr_RetryAfter a * second) else 0), Some (Refused status (tr_Description a)))
       end
   end, b).

Record tst := TSt { t_b : B; t_trace : list tev }.

(** [more]: the tries after this one. *)
Fixpoint send_tries (more : nat) (body : string) (s : tst) : bool * tst :=
  let '(wait, err, b) := post body (t_b s) in
  let s := TSt b (t_trace s ++ [TPost err]) in
  match err with
  | None => (true, s)
  | Some _ =>
      if (wait <=? 0) || (telegramMaxBackoff <? wait) then (false, s)
      else match more with
      | O => (false, s)
      | S more =>
          let '(slept, b) := cd_sleep wait (t_b s) in
          let s := TSt b (t_trace s ++ [TSleep wait]) in
          if (slept : bool) then send_tries more body s else (false, s)
      end
  end.
Definition Send (html : string) (s : tst) : bool * tst :=
  match MarshalMessage html with
  | None => (false, s)
  | Some body => send_tries telegramRetries body s
  end.

Lemma post_wait body b wait err b' : post body b = (wait, err, b') → 0 < wait → ∃ why, err = Some (Refused 429 why).
Proof.
  unfold post. destruct (cd_Do body b) as [[| | |status raw] b1]; [by intros [= <- <- <-]..|].
  destruct (UnmarshalResponse raw) as [a|]; [|by intros [= <- <- <-]]. destruct (tr_OK a); [by intros [= <- <- <-]|].
  destruct (Z.eqb_spec status 429) as [->|]; [|by intros [= <- <- <-]]. intros [= <- <- <-] _. by eexists.
Qed.

(** A message is posted again only after the chat refused it and named a wait of
    at most a minute, which was waited; an accepted message is posted no more. *)
Lemma Send_retries html s ok s' : Send html s = (ok, s') →
  ∃ waits last, t_trace s' = t_trace s ++ flat_map (λ '(why, d), [TPost (Some (Refused 429 why)); TSleep d]) waits ++ last ∧
    (length waits ≤ telegramRetries)%nat ∧ Forall (λ '(_, d), 0 < d ≤ telegramMaxBackoff) waits ∧
    (if ok then last = [TPost None] else last = [] ∨ ∃ e, last = [TPost (Some e)]).
Proof.
  unfold Send. destruct (MarshalMessage html) as [body|].
  2:{ intros [= <- <-]. exists [], []. rewrite app_nil_r. simpl. repeat split; [lia|constructor|by left]. }
  generalize telegramRetries. intros more. revert s. induction more as [|more IH]; intros s; cbn [send_tries].
  all: destruct (post body (t_b s)) as [[wait [e|]] b] eqn:Ep.
  all: try (intros [= <- <-]; exists [], [TPost None]; repeat split; [simpl; lia|constructor]).
  all: destruct (Z.leb_spec wait 0); cbn [orb]; [intros [= <- <-]; exists [], [TPost (Some e)];
    repeat split; [simpl; lia|constructor|right; by exists e]|].
  all: destruct (Z.ltb_spec telegramMaxBackoff wait); [intros [= <- <-]; exists [], [TPost (Some e)];
    repeat split; [simpl; lia|constructor|right; by exists e]|].
  { intros [= <- <-]. exists [], [TPost (Some e)]. repeat split; [simpl; lia|constructor|right; by exists e]. }
  destruct (post_wait _ _ _ _ _ Ep) as [why [= ->]]; [lia|]. cbn [t_b t_trace].
  destruct (cd_sleep wait b) as [[] b'].
  - intros E. destruct (IH _ E) as (waits & last & T & Hl & Hw & Hr). cbn [t_trace] in T.
    exists ((why, wait) :: waits), last. rewrite T, <- !app_assoc. cbn [flat_map app length].
    repeat split; [lia|constructor; [lia|done]|done].
  - intros [= <- <-]. exists [(why, wait)], []. cbn [t_trace flat_map app length]. rewrite <- app_assoc.
    repeat split; [lia|repeat constructor; lia|by left].
Qed.
End telegram.

(** ** The bucket *)
Definition maxObjectBytes : Z := Z.shiftl 64 20.
Inductive s3_error := NoSuchKey | S3NotFound | APIError (code : string) | OtherError.
Definition isNotFound (e : s3_error) : bool :=
  match e with
  | NoSuchKey | S3NotFound => true
  | APIError code => String.eqb code "NoSuchKey" || String.eqb code "NotFound"
  | OtherError => false
  end.

(** What [GetObject] gives: a body, whether reading it fails, and whether closing it does.
    The limited reader stops one byte past the limit, which is enough to tell. *)
Record object_body := ObjectBody { ob_bytes : string; ob_read_fails : bool; ob_close_fails : bool }.
Definition bucket_Get (r : result s3_error object_body) : result get_error string :=
  match r with
  | Err e => Err (if isNotFound e then NotFound else GetFails)
  | Ok o =>
      if ob_read_fails o then Err GetFails
      else if maxObjectBytes <? Z.of_nat (String.length (ob_bytes o)) then Err GetFails
      else if ob_close_fails o then Err GetFails else Ok (ob_bytes o)
  end.

(** The pages of a listing, as the paginator gives them. *)
Fixpoint bucket_List (pages : list (option (list string))) (keys : list string) : option (list string) :=
  match pages with
  | [] => Some keys
  | None :: _ => None
  | Some page :: pages' => bucket_List pages' (keys ++ page)
  end.

Lemma bucket_List_spec pages keys : bucket_List pages keys = (λ ps, keys ++ concat ps) <$> mapM id pages.
Proof.
  revert keys. induction pages as [|[page|] pages IH]; intros keys; simpl; [by rewrite app_nil_r| |done].
  rewrite IH. destruct (mapM id pages); simpl; [by rewrite <- app_assoc|done].
Qed.

(** ** A world to run in *)
#[local] Instance sample_asn1 : Attest.ASN1 := {|
  Attest.raw_value _ := None; Attest.dec_keyDescription _ := None; Attest.dec_rootOfTrust _ := None; Attest.dec_octets _ := None;
  Attest.dec_appID _ := None; Attest.dec_int _ := None |}.

Record world := World { w_objects : gmap string string; w_files : gmap string string; w_chat : list string }.
Definition world_file (b : world) (p : string) : option string := w_files b !! p.
Definition set_file (f : gmap string string → gmap string string) (b : world) : world :=
  World (w_objects b) (f (w_files b)) (w_chat b).

#[local] Instance world_deps : JobDeps world := {|
  jd_Get key b := (match w_objects b !! key with Some o => Ok o | None => Err NotFound end, b);
  jd_List prefix b := (Some (filter (λ k, HasPrefix k prefix = true) (map fst (map_to_list (w_objects b)))), b);
  jd_Put key body b := (true, World (<[key := body]> (w_objects b)) (w_files b) (w_chat b));
  jd_Send m b := (true, World (w_objects b) (w_files b) (w_chat b ++ [m]));
  jd_sleep _ b := (true, b);
  jd_Revocations b := (Some (λ _, false), b);
  jd_CreateTemp p b := let n := p +:+ ".1" in (Some n, set_file <[n := EmptyString]> b);
  jd_WriteString n t b := (true, set_file (alter (λ old, old +:+ t) n) b);
  jd_Chmod _ b := (true, b);
  jd_Close _ b := (true, b);
  jd_Rename n p b :=
    match w_files b !! n with
    | Some t => (true, set_file (λ m, if decide (n = p) then m else delete n (<[p := t]> m)) b)
    | None => (false, b)
    end;
  jd_Remove n b := (true, set_file (delete n) b)
|}.

Lemma temp_differs p : p +:+ ".1" ≠ p.
Proof. intros E. apply (f_equal String.length) in E. rewrite str_length_app in E. simpl in E. lia. Qed.

#[local] Instance world_file_laws : FileLaws world world_file.
Proof.
  split; unfold world_file; cbn; intros *.
  - intros [= <- <-]. cbn. split; [apply temp_differs|]. rewrite lookup_insert_eq, lookup_insert_ne by apply temp_differs. done.
  - done.
  - intros [= <- <-]. cbn. split; [intros p Hp; by rewrite lookup_alter_ne|]. intros _ Hn. by rewrite lookup_alter_eq, Hn.
  - by intros _ b ok b' p [= <- <-].
  - by intros [= <- <-].
  - destruct (w_files b !! n) as [t|] eqn:E; intros [= <- <-]; [|done]. cbn. case_decide as Hd; [by subst|].
    rewrite lookup_delete_ne, lookup_insert_eq by done. done.
  - intros [= <- <-] Hp. cbn. by rewrite lookup_delete_ne.
Qed.

#[local] Instance sample_zone : Zone := {|
  z_name := "UTC"; z_date t := FormatInt (t / day_ns); z_midnight t := t / day_ns * day_ns; z_days t := t / day_ns;
  z_minus t n := t - n * day_ns; z_day t := FormatInt (t / day_ns); z_short t := FormatInt (t / day_ns);
  z_clock t := FormatInt (t mod day_ns); z_parse _ := None
|}.

(** Two records of one attempt, and one of a hidden app. *)
Definition sample_world : world := World
  {[ "rejected-enroll/1" := "a"; "rejected-enroll/2" := "a"; "rejected-enroll/3" := "b"; "conn-logs/1" := "a" ]} ∅ [].
Definition sample_record (body : string) : option RejectedEnrollment :=
  Some (Rejected 5 "192.0.2.1" "attest-signer" (if String.eqb body "a" then "com.example" else "com.hidden") "abcd" EmptyString).
Definition sample_run : result job_error unit * jst (B := world) :=
  run (λ _, false) (λ _, None) (λ _, None : option (Attest.Certificate unit)) (λ l, Some (LastReport l)) (λ _, None) sample_record
    "node" "/prom" {["com.hidden"]} (3 * day_ns) (JSt sample_world []).

Example sample_run_reports :
  sample_run.1 = Ok tt ∧ length (j_trace sample_run.2) = 3%nat ∧
  match w_chat (j_b sample_run.2) with
  | [m] => RuneCount m =? Z.of_nat (String.length m) = true
  | _ => False
  end.
Proof. vm_compute. auto. Qed.

End RefusedApps.
