(* ===== verification/TunnelCA.v ===== *)
(** * The internal certificate authority

    [internal/ca]: loading the signing material ([ca.go]), signing a phone's
    identity and a node's mesh certificate ([e2e.go]) and the fingerprint of a key
    ([verify.go]).  One authority signs both kinds; each listener takes only its
    own, which is what keeps a phone from acting as a node and a node from acting
    as a phone.

    X.509, PEM, ECDSA and SHA-256 are parameters ([X509] with the laws
    [X509Laws]: a certificate that was created parses to its template and key). *)
From Stdlib Require Import ZArith Lia Ascii String.
From S2P Require Import Prelude GoStr PhoneConn Mesh.
Local Open Scope string_scope.
Local Open Scope list_scope.
Local Open Scope Z_scope.

Module TunnelCA.

Definition MeshRoleOU : string := "tunneld-mesh".

Inductive extKeyUsage := ClientAuth | ServerAuth.

(** The fields of a certificate the code sets or reads. *)
Record Certificate := MkCertificate {
  SerialNumber : Z; CommonName : string; OrganizationalUnit : list string; DNSNames : list string;
  NotBefore : Z; NotAfter : Z; DigitalSignature : bool; ExtKeyUsage : list extKeyUsage;
  BasicConstraintsValid : bool; IsCA : bool
}.

Definition HasMeshRole (cert : Certificate) : bool := existsb (String.eqb MeshRoleOU) (OrganizationalUnit cert).

(** Public and private keys, and what the standard library does with them. *)
(** [Der] is what is signed and marshalled, [Pem] its text. *)
Class X509 (Pub Priv Der Pem : Type) := {
  x_P256 : Pub → bool;                                   (* an ECDSA key on P-256 *)
  x_Public : Priv → Pub;
  x_Equal : Pub → Pub → option bool;                     (* [None]: the first has no [Equal] *)
  x_Create : Certificate → Certificate → Pub → Priv → option Der;   (* template, parent *)
  x_Parse : Der → option (Certificate * Pub);
  x_MarshalEC : Priv → option Der;
  x_ParseEC : Der → option Priv;
  x_ParsePKCS8 : Der → option (option Priv);          (* [Some None]: no [crypto.Signer] *)
  x_MarshalPKIX : Pub → option Der;
  x_SHA256 : Der → bytes;
  pem_Decode : Pem → option (string * Der * Pem);        (* type, bytes, rest *)
  pem_Encode : string → Der → Pem                        (* type, bytes *)
}.

(** The times of a certificate are whole seconds. *)
Definition whole (t : Z) : Z := t / second * second.
Definition encoded (c : Certificate) : Certificate :=
  MkCertificate (SerialNumber c) (CommonName c) (OrganizationalUnit c) (DNSNames c) (whole (NotBefore c)) (whole (NotAfter c))
    (DigitalSignature c) (ExtKeyUsage c) (BasicConstraintsValid c) (IsCA c).

Class X509Laws (Pub Priv Der Pem : Type) `{X509 Pub Priv Der Pem} : Prop := {
  xl_create tmpl parent pub key der : x_Create tmpl parent pub key = Some der → x_Parse der = Some (encoded tmpl, pub);
  xl_pem type der : ∃ rest, pem_Decode (pem_Encode type der) = Some (type, der, rest)
}.

Section ca.
Context {Pub Priv Der Pem : Type} `{X509 Pub Priv Der Pem}.

Record CA := MkCA { ca_cert : Certificate; ca_key : Priv; ca_validity : Z }.

Inductive ca_error := ReadCert | ReadKey | ParseCert | NotCA | ParseKey | KeyMismatch
| CSRSignature | ErrUnsupportedKeyType | SerialFails | CreateFails | GenerateFails | MarshalFails.

(** ** Loading *)
Definition parseCertPEM (data : Pem) : option (Certificate * Pub) :=
  match pem_Decode data with
  | Some (type, der, _) => if String.eqb type "CERTIFICATE" then x_Parse der else None
  | None => None
  end.

Definition parsePrivateKeyPEM (data : Pem) : option Priv :=
  match pem_Decode data with
  | None => None
  | Some (_, der, _) =>
      match x_ParseEC der with
      | Some k => Some k
      | None => match x_ParsePKCS8 der with Some (Some k) => Some k | _ => None end
      end
  end.

Definition publicKeyMatches (a b : Pub) : bool := match x_Equal a b with Some e => e | None => false end.

(** The contents of the two files, [None] when one cannot be read. *)
Definition Load (certFile keyFile : option Pem) (validity : Z) : result ca_error CA :=
  match certFile with
  | None => Err ReadCert
  | Some certPEM =>
      match keyFile with
      | None => Err ReadKey
      | Some keyPEM =>
          match parseCertPEM certPEM with
          | None => Err ParseCert
          | Some (cert, pub) =>
              if negb (IsCA cert) || negb (BasicConstraintsValid cert) then Err NotCA
              else match parsePrivateKeyPEM keyPEM with
                   | None => Err ParseKey
                   | Some key => if negb (publicKeyMatches pub (x_Public key)) then Err KeyMismatch
                                 else Ok (MkCA cert key validity)
                   end
          end
      end
  end.

(** ** Signing *)
Record CertificateRequest := MkCSR { csr_SignatureOK : bool; csr_PublicKey : Pub }.

(** The certificate of an authority, as far as its end-entity template goes. *)
Definition identityTemplate (serial now validity : Z) (name : string) : Certificate :=
  MkCertificate serial name [] [] (now - 5 * minute) (now + validity) true [ClientAuth] true false.
Definition meshTemplate (serial now ttl : Z) (nodeID : string) : Certificate :=
  MkCertificate serial nodeID [MeshRoleOU] [nodeID] (now - 5 * minute) (now + ttl) true [ClientAuth; ServerAuth] true false.

(** [serial]: the draw of [rand.Int], below 2^128. *)
Definition SignIdentity (c : CA) (serial : option Z) (now : Z) (csr : CertificateRequest) (name : string)
    : result ca_error Pem :=
  if negb (csr_SignatureOK csr) then Err CSRSignature
  else if negb (x_P256 (csr_PublicKey csr)) then Err ErrUnsupportedKeyType
  else match serial with
  | None => Err SerialFails
  | Some serial =>
      match x_Create (identityTemplate serial now (ca_validity c) name) (ca_cert c) (csr_PublicKey csr) (ca_key c) with
      | None => Err CreateFails
      | Some der => Ok (pem_Encode "CERTIFICATE" der)
      end
  end.

(** [key]: the key that is generated. *)
Definition SignMesh (c : CA) (key : option Priv) (serial : option Z) (now : Z) (nodeID : string) (ttl : Z)
    : result ca_error (Pem * Pem) :=
  match key with
  | None => Err GenerateFails
  | Some key =>
      match serial with
      | None => Err SerialFails
      | Some serial =>
          match x_Create (meshTemplate serial now ttl nodeID) (ca_cert c) (x_Public key) (ca_key c) with
          | None => Err CreateFails
          | Some der =>
              match x_MarshalEC key with
              | None => Err MarshalFails
              | Some keyDER => Ok (pem_Encode "CERTIFICATE" der, pem_Encode "EC PRIVATE KEY" keyDER)
              end
          end
      end
  end.

Definition KeyFingerprint (pub : Pub) : option string :=
  (λ der, "sha256:" +:+ hex_encode (x_SHA256 der)) <$> x_MarshalPKIX pub.

(** ** The mesh between nodes ([server/schedulers.go]) *)

(** A certificate is replaced only by one that was signed and loads with its key. *)
Definition mint {Cert} (X509KeyPair : Pem → Pem → option Cert) (signed : result ca_error (Pem * Pem)) (cur : option Cert)
    : bool * option Cert :=
  match signed with
  | Err _ => (false, cur)
  | Ok (certPEM, keyPEM) =>
      match X509KeyPair certPEM keyPEM with None => (false, cur) | Some cert => (true, Some cert) end
  end.

(** [Verify leaf intermediates usages]: the chain to the authority. *)
Inductive verify_error := NoPeerCertificate | NotTrusted | NoMeshRole.
Definition meshVerifyConnection (Verify : Certificate → list Certificate → list extKeyUsage → bool)
    (PeerCertificates : list Certificate) : result verify_error unit :=
  match PeerCertificates with
  | [] => Err NoPeerCertificate
  | leaf :: inter =>
      if negb (Verify leaf inter [ServerAuth]) then Err NotTrusted
      else if negb (HasMeshRole leaf) then Err NoMeshRole
      else Ok tt
  end.

(** ** What the phone listener sees of a peer's certificate

    A key without a fingerprint is logged with an empty one. *)
Definition peer (serialText : Z → string) (leaf : Certificate) (pub : Pub) : PhoneConn.client_cert :=
  {| PhoneConn.cc_CN := CommonName leaf; PhoneConn.cc_mesh := HasMeshRole leaf;
     PhoneConn.cc_keyFP := default EmptyString (KeyFingerprint pub);
     PhoneConn.cc_serial := serialText (SerialNumber leaf); PhoneConn.cc_notAfter := NotAfter leaf |}.

Context `{!X509Laws Pub Priv Der Pem}.

Lemma SignIdentity_spec c serial now csr name pem : SignIdentity c serial now csr name = Ok pem →
  ∃ n, serial = Some n ∧ x_P256 (csr_PublicKey csr) = true ∧
    parseCertPEM pem = Some (encoded (identityTemplate n now (ca_validity c) name), csr_PublicKey csr).
Proof.
  unfold SignIdentity. destruct (csr_SignatureOK csr); [|done]. destruct (x_P256 _) eqn:E; cbn [negb]; [|done].
  destruct serial as [n|]; [|done]. destruct (x_Create _ _ _ _) as [der|] eqn:Ec; [|done]. intros [= <-].
  exists n. split; [done|]. split; [done|]. unfold parseCertPEM. destruct (xl_pem "CERTIFICATE" der) as [rest ->].
  cbn. by apply xl_create in Ec.
Qed.

Lemma SignMesh_spec c key serial now nodeID ttl pem keyPEM : SignMesh c key serial now nodeID ttl = Ok (pem, keyPEM) →
  ∃ k n, key = Some k ∧ serial = Some n ∧ parseCertPEM pem = Some (encoded (meshTemplate n now ttl nodeID), x_Public k).
Proof.
  unfold SignMesh. destruct key as [k|]; [|done]. destruct serial as [n|]; [|done].
  destruct (x_Create _ _ _ _) as [der|] eqn:Ec; [|done]. destruct (x_MarshalEC k); [|done]. intros [= <- _].
  exists k, n. split; [done|]. split; [done|]. unfold parseCertPEM. destruct (xl_pem "CERTIFICATE" der) as [rest ->].
  cbn. by apply xl_create in Ec.
Qed.

(** Signing material is taken only if it can sign for its certificate. *)
Lemma Load_ok certFile keyFile validity c : Load certFile keyFile validity = Ok c →
  IsCA (ca_cert c) = true ∧ BasicConstraintsValid (ca_cert c) = true ∧ ca_validity c = validity ∧
  ∃ certPEM pub, certFile = Some certPEM ∧ parseCertPEM certPEM = Some (ca_cert c, pub) ∧
    x_Equal pub (x_Public (ca_key c)) = Some true.
Proof.
  unfold Load, publicKeyMatches. destruct certFile as [certPEM|]; [|done]. destruct keyFile as [keyPEM|]; [|done].
  destruct (parseCertPEM certPEM) as [[cert pub]|] eqn:Ep; [|done].
  destruct (IsCA cert) eqn:E1; [|done]. destruct (BasicConstraintsValid cert) eqn:E2; cbn [negb orb]; [|done].
  destruct (parsePrivateKeyPEM keyPEM) as [key|]; [|done].
  destruct (x_Equal pub (x_Public key)) as [[]|] eqn:Ee; cbn [negb]; [|done..]. intros [= <-]. cbn.
  repeat split; try done. by exists certPEM, pub.
Qed.

(** ** The two kinds of certificates are kept apart *)

(** C17. One authority, two roles that do not mix. If [SignIdentity] and [SignMesh]
    succeed, what they return parses; the phone's certificate carries the key of its
    CSR, every mesh request made with it is refused with 403 and changes nothing, and on
    the phone listener it opens a control stream or asks for a certificate only under
    the name it was signed for, with its own expiry and fingerprint; the node's
    certificate has the mesh role and on the phone listener, whatever the request and
    the ban lists, it opens no control stream and gets no certificate. *)
Theorem roles_kept_apart c serial now csr name pem key serial' nodeID ttl mpem keyPEM :
  SignIdentity c serial now csr name = Ok pem →
  SignMesh c key serial' now nodeID ttl = Ok (mpem, keyPEM) →
  ∃ leaf mleaf mpub,
    parseCertPEM pem = Some (leaf, csr_PublicKey csr) ∧ parseCertPEM mpem = Some (mleaf, mpub) ∧
    (** A phone's certificate: the mesh does nothing for it, and the phone listener
        takes it for the name it was signed for and no other. *)
    (∀ N (np : Mesh.NodeParts N) Decode path method body (n : N),
       Mesh.ServeHTTP Decode (HasMeshRole leaf) path method body n = ((403, None), n)) ∧
    (∀ text ParseAddr banIP banTunnel validName path method proto from,
       let r := PhoneConn.ServeHTTP ParseAddr banIP banTunnel validName
                  {| PhoneConn.r_path := path; PhoneConn.r_method := method; PhoneConn.r_protoMajor := proto;
                     PhoneConn.r_peer := from; PhoneConn.r_cert := Some (peer text leaf (csr_PublicKey csr)) |} in
       (∀ id, r = PhoneConn.ServeControl id → PhoneConn.cc_CN id = name ∧ PhoneConn.cc_notAfter id = whole (now + ca_validity c) ∧
          PhoneConn.cc_keyFP id = default EmptyString (KeyFingerprint (csr_PublicKey csr))) ∧
       (∀ name', r = PhoneConn.ServeIssue name' → name' = name)) ∧
    (** A node's certificate: it has the mesh role, and the phone listener gives it
        neither a control stream nor a certificate. *)
    HasMeshRole mleaf = true ∧
    (∀ text ParseAddr banIP banTunnel validName path method proto from,
       let r := PhoneConn.ServeHTTP ParseAddr banIP banTunnel validName
                  {| PhoneConn.r_path := path; PhoneConn.r_method := method; PhoneConn.r_protoMajor := proto;
                     PhoneConn.r_peer := from; PhoneConn.r_cert := Some (peer text mleaf mpub) |} in
       (∀ id, r ≠ PhoneConn.ServeControl id) ∧ ∀ name', r ≠ PhoneConn.ServeIssue name').
Proof.
  intros (n & _ & _ & Hp)%SignIdentity_spec (k & n' & _ & _ & Hm)%SignMesh_spec.
  eexists _, _, _. split; [exact Hp|]. split; [exact Hm|]. split; [done|]. split; [|split; [done|]].
  - intros text ParseAddr banIP banTunnel validName path method proto from. unfold peer, PhoneConn.ServeHTTP, PhoneConn.identity. cbn.
    split; intros ?; repeat (case_match; try done).
    all: intros; simplify_eq; done.
  - intros text ParseAddr banIP banTunnel validName path method proto from. unfold peer, PhoneConn.ServeHTTP, PhoneConn.identity. cbn.
    split; intros ?; repeat (case_match; try done).
Qed.

(** A node connects only to nodes: a phone's certificate is refused whatever the
    chain says, and a node's is accepted exactly if it is trusted. *)
Lemma only_nodes_serve_mesh c serial now csr name pem key serial' nodeID ttl mpem keyPEM Verify inter :
  SignIdentity c serial now csr name = Ok pem →
  SignMesh c key serial' now nodeID ttl = Ok (mpem, keyPEM) →
  ∃ leaf pub mleaf mpub, parseCertPEM pem = Some (leaf, pub) ∧ parseCertPEM mpem = Some (mleaf, mpub) ∧
    meshVerifyConnection Verify (leaf :: inter) ≠ Ok tt ∧
    (meshVerifyConnection Verify (mleaf :: inter) = Ok tt ↔ Verify mleaf inter [ServerAuth] = true).
Proof.
  intros (n & _ & _ & Hp)%SignIdentity_spec (k & n' & _ & _ & Hm)%SignMesh_spec.
  eexists _, _, _, _. split; [exact Hp|]. split; [exact Hm|]. unfold meshVerifyConnection. split.
  - by destruct (Verify (encoded (identityTemplate _ _ _ _)) inter _).
  - by destruct (Verify (encoded (meshTemplate _ _ _ _)) inter _).
Qed.

(** A mint that fails leaves the certificate in use. *)
Lemma mint_keeps_current {Cert} (load : Pem → Pem → option Cert) signed cur :
  let '(ok, cur') := mint load signed cur in (ok = false → cur' = cur) ∧ (ok = true → is_Some cur').
Proof. unfold mint. destruct signed as [[a b]|e]; [|done]. destruct (load a b); cbn; by eauto. Qed.
End ca.

(** ** Witness: keys without contents, certificates that stand for themselves *)
#[local] Instance sample_x509 : X509 unit unit (option (Certificate * unit)) (string * option (Certificate * unit)) := {|
  x_P256 _ := true; x_Public _ := tt; x_Equal _ _ := Some true;
  x_Create tmpl _ pub _ := Some (Some (encoded tmpl, pub)); x_Parse der := der; x_MarshalEC _ := Some None;
  x_ParseEC _ := Some tt; x_ParsePKCS8 _ := None; x_MarshalPKIX _ := Some None; x_SHA256 _ := [];
  pem_Decode p := Some (p.1, p.2, p); pem_Encode type der := (type, der)
|}.
#[local] Instance sample_x509_laws : X509Laws unit unit (option (Certificate * unit)) (string * option (Certificate * unit)).
Proof. split; [by intros * [= <-]|]. intros type der. by exists (type, der). Qed.

Definition sample_ca : CA (Priv := unit) :=
  MkCA (MkCertificate 1 "ca" [] [] 0 (1000 * hour) true [] true true) tt (90 * hour).
Definition sample_pem : string * option (Certificate * unit) :=
  ("CERTIFICATE", Some (encoded (identityTemplate 2 hour (90 * hour) "abc"), tt)).
Definition sample_mpem : string * option (Certificate * unit) :=
  ("CERTIFICATE", Some (encoded (meshTemplate 3 hour hour "node"), tt)).

Lemma roles_kept_apart_witness :
  ∃ leaf mleaf (mpub : unit), parseCertPEM sample_pem = Some (leaf, tt) ∧ parseCertPEM sample_mpem = Some (mleaf, mpub) ∧
    HasMeshRole leaf = false ∧ HasMeshRole mleaf = true.
Proof.
  destruct (roles_kept_apart sample_ca (Some 2) hour (MkCSR true tt) "abc" sample_pem (Some tt) (Some 3) "node" hour
    sample_mpem ("EC PRIVATE KEY", None)) as (leaf & mleaf & mpub & Hp & Hm & _ & _ & Hr & _); [reflexivity..|].
  exists leaf, mleaf, mpub. split; [exact Hp|]. split; [exact Hm|]. split; [|exact Hr].
  cbv in Hp. injection Hp as <-. reflexivity.
Defined.
End TunnelCA.
