(* ===== verification/PlainHTTP.v ===== *)
(** * The plain HTTP port

    [server/acmehttp.go]: the listener in front of the http-01 handler.  A
    goroutine accepts, one goroutine per connection checks it (address, ban,
    rate, the ceiling of client connections it shares with the edge) and offers
    it to the HTTP server, and a shutdown may come at any time.

    The goroutines interleave as the steps of [gstep].  The listener takes its
    slots from the edge's ceiling: every run of it is a run of the ceiling of
    [Edge]. *)
From Stdlib Require Import ZArith Lia Ascii String.
From S2P Require Import Prelude GoStr Limiter Edge.
Local Open Scope string_scope.
Local Open Scope list_scope.
Local Open Scope Z_scope.

Module PlainHTTP.

(** An answer of the limiter; one that fails lets the connection pass. *)
Definition connRateAllow {E W} (r : result E (bool * W)) : bool :=
  match r with Err _ => true | Ok (ok, _) => ok end.

(** The wait after a failed accept; a success resets it to 0. *)
Definition next_delay (delay : Z) : Z := Z.min (Z.max (2 * delay) (5 * millisecond)) second.

(** ** Connections *)
Inductive phase :=
| Checking              (* accepted, its goroutine runs *)
| Passed                (* neither banned nor too many *)
| Adding (n : Z)        (* inside [admit]: the add returned [n] *)
| Pending               (* admitted, offered to the server *)
| Served (released : bool)   (* taken by [Accept]; the flag of [slotConn] *)
| Refused               (* closed before it was admitted *)
| Full                  (* no slot was left *)
| Dropped.              (* admitted, but the listener closed first *)

Record gconn := GConn {
  g_remote : string;
  g_phase : phase;
  g_closed : bool;               (* the socket *)
  g_rejects : list string        (* reasons reported *)
}.

Record gstate := GState {
  g_open : bool;                 (* the listener underneath *)
  g_stop : bool;                 (* the channel [closed] *)
  g_count : Z;                   (* clients of the edge *)
  g_conns : gmap nat gconn
}.
Definition gstart : gstate := GState true false 0 ∅.

Section listener.
Context (cfg : Edge.Config) (ParseAddr : string → option string) (ban : string → bool).

(** [check] up to the ceiling, given the limiter's answer. *)
Definition check_early (remote : string) (allow : bool) : phase * list string :=
  match ParseAddr (Edge.peerAddr remote) with
  | None => (Refused, [])
  | Some ip =>
      if ban ip then (Refused, ["ban"])
      else if negb allow then (Refused, ["conn-rate"])
      else (Passed, [])
  end.

Definition with_phase (p : phase) (c : gconn) : gconn := GConn (g_remote c) p (g_closed c) (g_rejects c).
Definition finished (p : phase) (reasons : list string) (c : gconn) : gconn :=
  GConn (g_remote c) p true (g_rejects c ++ reasons).

Definition on_conn (i : nat) (c : gconn) (n : Z) (s : gstate) : gstate :=
  GState (g_open s) (g_stop s) n (<[i := c]> (g_conns s)).

Inductive gstep : gstate → gstate → Prop :=
| gs_accept s i remote : g_open s = true → g_conns s !! i = None →
    gstep s (on_conn i (GConn remote Checking false []) (g_count s) s)
| gs_early s i c allow p reasons : g_conns s !! i = Some c → g_phase c = Checking →
    check_early (g_remote c) allow = (p, reasons) →
    gstep s (on_conn i (match p with Refused => finished p reasons c | _ => with_phase p c end) (g_count s) s)
| gs_panic s i c : g_conns s !! i = Some c → g_phase c = Checking ∨ g_phase c = Passed →   (* Recover *)
    gstep s (on_conn i (finished Refused [] c) (g_count s) s)
| gs_add s i c : g_conns s !! i = Some c → g_phase c = Passed →
    gstep s (on_conn i (with_phase (Adding (Edge.admit_add (g_count s))) c) (Edge.admit_add (g_count s)) s)
| gs_full s i c n : g_conns s !! i = Some c → g_phase c = Adding n → Edge.admit_ok cfg n = false →
    gstep s (on_conn i (finished Full ["max-clients"] c) (g_count s - 1) s)
| gs_admit s i c n : g_conns s !! i = Some c → g_phase c = Adding n → Edge.admit_ok cfg n = true →
    gstep s (on_conn i (with_phase Pending c) (g_count s) s)
| gs_hand s i c : g_conns s !! i = Some c → g_phase c = Pending →                           (* Accept takes it *)
    gstep s (on_conn i (with_phase (Served false) c) (g_count s) s)
| gs_drop s i c : g_conns s !! i = Some c → g_phase c = Pending → g_stop s = true →
    gstep s (on_conn i (finished Dropped [] c) (Edge.edge_release (g_count s)) s)
| gs_close s i c released : g_conns s !! i = Some c → g_phase c = Served released →         (* slotConn.Close *)
    gstep s (on_conn i (finished (Served true) [] c) (if (released : bool) then g_count s else Edge.edge_release (g_count s)) s)
| gs_stop s : gstep s (GState (g_open s) true (g_count s) (g_conns s))                      (* Close, first half *)
| gs_unlisten s : g_stop s = true → gstep s (GState false true (g_count s) (g_conns s)).    (* Close, second half *)

(** ** The listener and the ceiling *)
Definition slot (c : gconn) : option Edge.conn_phase :=
  match g_phase c with
  | Checking | Passed | Refused => None
  | Adding n => Some (Edge.Adding n)
  | Pending | Served false => Some Edge.Inside
  | Full | Dropped | Served true => Some Edge.Left_
  end.
Definition slots (s : gstate) : Edge.ceiling := Edge.Ceiling (g_count s) (omap slot (g_conns s)).

Lemma slots_on_conn i c n s :
  slots (on_conn i c n s) =
  Edge.Ceiling n (match slot c with Some p => <[i := p]> (omap slot (g_conns s)) | None => delete i (omap slot (g_conns s)) end).
Proof.
  unfold slots, on_conn. cbn. f_equal. destruct (slot c) as [p|] eqn:E; [by apply omap_insert_Some|by apply omap_insert_None].
Qed.

Lemma slot_at s i c p : g_conns s !! i = Some c → slot c = Some p → Edge.c_conns (slots s) !! i = Some p.
Proof. intros Hi Hs. cbn. by rewrite lookup_omap, Hi. Qed.

(** A change the ceiling does not see. *)
Lemma slots_same s i c c' : g_conns s !! i = Some c → slot c' = slot c → slots (on_conn i c' (g_count s) s) = slots s.
Proof.
  intros Hi Hs. rewrite slots_on_conn, Hs. unfold slots. f_equal. assert (omap slot (g_conns s) !! i = slot c) as Hl
    by by rewrite lookup_omap, Hi. destruct (slot c) as [p|]; [by apply insert_id|by apply delete_id].
Qed.

(** A step of the listener is one of the ceiling, or invisible to it. *)
Lemma gstep_refines s s' : gstep s s' → slots s' = slots s ∨ Edge.ceiling_step cfg (slots s) (slots s').
Proof.
  destruct 1 as [s i remote _ Hi|s i c allow p reasons Hi Hp He|s i c Hi Hp|s i c Hi Hp|s i c n Hi Hp Hok|s i c n Hi Hp Hok|s i c Hi Hp
    |s i c Hi Hp _|s i c [] Hi Hp|s|s _].
  - left. rewrite slots_on_conn. unfold slots. f_equal. cbn. apply delete_id. by rewrite lookup_omap, Hi.
  - left. eapply slots_same; [done|]. unfold check_early in He. unfold slot at 2. rewrite Hp. repeat case_match; by simplify_eq.
  - left. eapply slots_same; [done|]. unfold slot at 2. by destruct Hp as [-> | ->].
  - right. rewrite slots_on_conn. cbn. apply (Edge.cs_add cfg (slots s)). cbn. rewrite lookup_omap, Hi. cbn. unfold slot. by rewrite Hp.
  - right. rewrite slots_on_conn. cbn. apply (Edge.cs_out cfg (slots s) i n); [|done]. eapply slot_at; [done|]. unfold slot. by rewrite Hp.
  - right. rewrite slots_on_conn. cbn. apply (Edge.cs_in cfg (slots s) i n); [|done]. eapply slot_at; [done|]. unfold slot. by rewrite Hp.
  - left. eapply slots_same; [done|]. unfold slot at 2. by rewrite Hp.
  - right. rewrite slots_on_conn. cbn. apply (Edge.cs_release cfg (slots s)). eapply slot_at; [done|]. unfold slot. by rewrite Hp.
  - left. eapply slots_same; [done|]. unfold slot at 2. by rewrite Hp.
  - right. rewrite slots_on_conn. cbn. apply (Edge.cs_release cfg (slots s)). eapply slot_at; [done|]. unfold slot. by rewrite Hp.
  - by left.
  - by left.
Qed.

Lemma listener_refines_ceiling s s' : run gstep s s' → run (Edge.ceiling_step cfg) (slots s) (slots s').
Proof.
  induction 1 as [|s1 s2 s3 Hs _ IH]; [constructor|].
  destruct (gstep_refines _ _ Hs) as [E|Hc]; [by rewrite <- E|by eapply run_step].
Qed.

(** ** What becomes of a connection *)
Definition over (c : gconn) : bool :=
  match g_phase c with Refused | Full | Dropped | Served true => true | _ => false end.

Definition conn_ok (c : gconn) : Prop :=
  g_closed c = over c ∧
  match g_phase c with
  | Refused => g_rejects c = [] ∨ g_rejects c = ["ban"] ∨ g_rejects c = ["conn-rate"]
  | Full => g_rejects c = ["max-clients"]
  | _ => g_rejects c = []
  end.

Lemma conn_ok_step s s' : map_Forall (λ _, conn_ok) (g_conns s) → gstep s s' → map_Forall (λ _, conn_ok) (g_conns s').
Proof.
  intros Hall Hs.
  destruct Hs as [s i remote _ Hi|s i c allow p reasons Hi Hp He|s i c Hi Hp|s i c Hi Hp|s i c n Hi Hp _|s i c n Hi Hp _|s i c Hi Hp
    |s i c Hi Hp _|s i c rel Hi Hp|s|s _]; cbn; try done;
    (apply map_Forall_insert_2; [|done]); [done|..]; destruct (Hall i c Hi) as [Hc Hr]; destruct c as [rem ph cl rj]; cbn in *.
  - subst ph. cbn in *. subst. unfold check_early in He. cbn in He.
    destruct (ParseAddr _); [|simplify_eq; by (split; cbn; auto)]. destruct (ban _); [simplify_eq; by (split; cbn; auto)|].
    destruct allow; cbn [negb] in He; simplify_eq; by (split; cbn; auto).
  - destruct Hp as [-> | ->]; cbn in *; subst; by (split; cbn; auto).
  - subst ph. cbn in *. by split.
  - subst ph. cbn in *. subst. by split.
  - subst ph. cbn in *. by split.
  - subst ph. cbn in *. by split.
  - subst ph. cbn in *. subst. by split.
  - subst ph. destruct rel; cbn in *; subst; by split.
Qed.

(** The plain HTTP port settles its slots. Every run of it is a run of the edge's
    ceiling, so that the ceiling's theorems hold of it; a connection is closed exactly
    when it is over, with one reason reported if it was refused by a ban, a rate or the
    ceiling; when all are over the count is back at 0; and an admitted connection that
    is still offered when the listener closes can be closed and its slot given back. *)
Lemma plain_http_slots_settled s : 0 ≤ Edge.MaxClients cfg → run gstep gstart s →
  run (Edge.ceiling_step cfg) (Edge.Ceiling 0 ∅) (slots s) ∧
  (∀ i c, g_conns s !! i = Some c → conn_ok c) ∧
  ((∀ i c, g_conns s !! i = Some c → over c = true) → g_count s = 0) ∧
  (∀ i c, g_stop s = true → g_conns s !! i = Some c → g_phase c = Pending → ∃ s', gstep s s' ∧
     (c' ← g_conns s' !! i; Some (g_closed c')) = Some true ∧ g_count s' = g_count s - 1).
Proof.
  intros Hm Hr. split; [exact (listener_refines_ceiling _ _ Hr)|]. split; [|split].
  - intros i c Hi. assert (map_Forall (λ _, conn_ok) (g_conns s)) as Hall; [|exact (Hall i c Hi)].
    eapply (run_invariant _ (λ s, map_Forall (λ _, conn_ok) (g_conns s))); [exact conn_ok_step|exact Hr|apply map_Forall_empty].
  - intros Hover. assert (Edge.ceiling_inv cfg (slots s)) as [Hc _].
    { eapply run_invariant; [exact (Edge.ceiling_inv_step cfg)|exact (listener_refines_ceiling _ _ Hr)|]. by split. }
    cbn in Hc. rewrite Hc. apply count_if_zero. intros i p Hi. rewrite lookup_omap in Hi.
    destruct (g_conns s !! i) as [c|] eqn:Ec; [|done]. specialize (Hover i c Ec). cbn in Hi. unfold slot in Hi. unfold over in Hover.
    destruct (g_phase c) as [| | | |[]| | |]; try done; by injection Hi as <-.
  - intros i c Hs Hi Hp. eexists. split; [by eapply gs_drop|]. cbn. by rewrite lookup_insert_eq.
Qed.
End listener.
End PlainHTTP.
