(* ===== verification/LogSinks.v ===== *)
(** * Log sinks

    [logging/handlers.go]: a record goes to every sink that admits its level, and
    the failures of sinks are themselves reported on standard error, at most once
    a minute per sink, with the number of those that were held back.
    [report/tee.go]: error records become Sentry events, with their attributes
    flattened, unless they report a crash that was captured already.

    The handlers below (text, JSON, files, Sentry's own) are parameters: whether
    they admit a level and whether they fail. *)
From Stdlib Require Import ZArith Lia Ascii String.
From stdpp Require Import gmap.
From S2P Require Import Prelude GoStr CrashGuard.
Local Open Scope string_scope.
Local Open Scope list_scope.
Local Open Scope Z_scope.

Module LogSinks.

(** ** The health of sinks *)
Definition sinkReportEvery : Z := minute.

(** [ss_lastReport]: [None] is the zero time. *)
Record sinkStatus := SinkStatus { ss_lastReport : option Z; ss_suppressed : Z }.

(** A line on standard error and the failures it stands for. *)
Inductive line :=
| LFailed (sink : string) (more : Z)       (* one failure, and [more] since the last report *)
| LSummary (sink : string) (n : Z).

Record sinkHealth := SinkHealth {
  sh_errs : Z;
  sh_pending : bool;
  sh_status : gmap string sinkStatus;
  sh_lines : list line
}.
Definition newSinkHealth : sinkHealth := SinkHealth 0 false ∅ [].

Definition recent (now : Z) (st : sinkStatus) : bool :=
  match ss_lastReport st with Some t => now - t <? sinkReportEvery | None => false end.

(** [writes]: standard error takes the line. *)
Definition failed (name : string) (now : Z) (writes : bool) (s : sinkHealth) : sinkHealth :=
  let st := default (SinkStatus None 0) (sh_status s !! name) in
  if recent now st || negb writes then
    SinkHealth (sh_errs s + 1) true
      (<[name := SinkStatus (ss_lastReport st) (ss_suppressed st + 1)]> (sh_status s)) (sh_lines s)
  else
    SinkHealth (sh_errs s + 1) (sh_pending s) (<[name := SinkStatus (Some now) 0]> (sh_status s))
      (sh_lines s ++ [LFailed name (ss_suppressed st)]).

(** One sink of a sweep: its new status, the line, and whether something is still held back. *)
Definition sweep_one (force : bool) (now : Z) (writes : string → bool) (name : string) (st : sinkStatus)
    : sinkStatus * list line * bool :=
  if ss_suppressed st =? 0 then (st, [], false)
  else if negb force && recent now st then (st, [], true)
  else if negb (writes name) then (st, [], true)
  else (SinkStatus (Some now) 0, [LSummary name (ss_suppressed st)], false).

(** The sinks in some order; each is visited once. *)
Fixpoint sweep_all (force : bool) (now : Z) (writes : string → bool) (l : list (string * sinkStatus)) (s : sinkHealth)
    (still : bool) : sinkHealth :=
  match l with
  | [] => SinkHealth (sh_errs s) still (sh_status s) (sh_lines s)
  | (name, st) :: l' =>
      let '(st', out, held) := sweep_one force now writes name st in
      sweep_all force now writes l'
        (SinkHealth (sh_errs s) (sh_pending s) (<[name := st']> (sh_status s)) (sh_lines s ++ out)) (still || held)
  end.

Definition sweep (force : bool) (now : Z) (writes : string → bool) (s : sinkHealth) : sinkHealth :=
  if negb (sh_pending s) then s else sweep_all force now writes (map_to_list (sh_status s)) s false.

(** ** The fan-out *)

(** A sink: its name, the levels it admits, and whether writing a record fails. *)
Record sink := Sink { sk_name : string; sk_enabled : Z → bool; sk_fails : bool }.

Definition Enabled (children : list sink) (level : Z) : bool := existsb (λ c, sk_enabled c level) children.

(** The sinks that got the record, the errors, and the health; [writes] says for each
    failure whether it could be reported. *)
Fixpoint dispatch (children : list sink) (level now : Z) (writes : string → bool) (s : sinkHealth)
    : list string * list string * sinkHealth :=
  match children with
  | [] => ([], [], s)
  | c :: children' =>
      if negb (sk_enabled c level) then dispatch children' level now writes s
      else
        let s := if sk_fails c then failed (sk_name c) now (writes (sk_name c)) s else s in
        let '(got, errs, s) := dispatch children' level now writes s in
        (sk_name c :: got, if sk_fails c then sk_name c :: errs else errs, s)
  end.
Definition Handle (children : list sink) (level now : Z) (writes : string → bool) (s : sinkHealth)
    : list string * list string * sinkHealth :=
  let '(got, errs, s) := dispatch children level now writes s in (got, errs, sweep false now writes s).

(** *** Standard output and error *)
Definition LevelWarn : Z := 4.
Definition LevelError : Z := 8.
Inductive std := Stdout | Stderr.
Definition stdSplit (level : Z) : std := if LevelWarn <=? level then Stderr else Stdout.

(** ** Failures are all told *)
Definition stands_for (l : line) : Z := match l with LFailed _ more => more + 1 | LSummary _ n => n end.
Definition told (s : sinkHealth) : Z := fold_right (λ l n, stands_for l + n) 0 (sh_lines s).
Definition held (s : sinkHealth) : Z := sum_of ss_suppressed (sh_status s).

Record hinv (s : sinkHealth) : Prop := HInv {
  hi_count : sh_errs s = told s + held s;
  hi_held : ∀ name st, sh_status s !! name = Some st → 0 ≤ ss_suppressed st;
  hi_pending : sh_pending s = false → ∀ name st, sh_status s !! name = Some st → ss_suppressed st = 0
}.

Lemma told_snoc errs pending status lines l :
  told (SinkHealth errs pending status (lines ++ [l])) = told (SinkHealth errs pending status lines) + stands_for l.
Proof. unfold told. cbn. induction lines; cbn; lia. Qed.

Lemma hinv_start : hinv newSinkHealth.
Proof. split; [done|by intros n st; cbn; rewrite lookup_empty|by intros _ n st; cbn; rewrite lookup_empty]. Qed.

Lemma failed_inv name now writes s : hinv s → hinv (failed name now writes s) ∧ sh_errs (failed name now writes s) = sh_errs s + 1.
Proof.
  intros [I1 I2 I3]. unfold failed. set (st := default _ _).
  assert (Hst : ss_suppressed st = match sh_status s !! name with Some a => ss_suppressed a | None => 0 end)
    by (unfold st; by destruct (sh_status s !! name)).
  assert (Hpos : 0 ≤ ss_suppressed st).
  { rewrite Hst. destruct (sh_status s !! name) as [a|] eqn:E; [by eapply I2|done]. }
  destruct (recent now st || negb writes); split; [|done| |done]; split; cbn [sh_errs sh_pending sh_status].
  - unfold held, told in *. cbn [sh_status sh_lines]. rewrite sum_of_insert, <- Hst. cbn [ss_suppressed]. lia.
  - intros n a [[_ <-]|[_ Ha]]%lookup_insert_Some; [cbn; lia|by eapply I2].
  - done.
  - rewrite told_snoc. unfold held in *. cbn [sh_status sh_lines stands_for]. rewrite sum_of_insert, <- Hst. cbn [ss_suppressed].
    unfold told in *. cbn [sh_lines]. lia.
  - intros n a [[_ <-]|[_ Ha]]%lookup_insert_Some; [done|by eapply I2].
  - intros Hp n a [[_ <-]|[_ Ha]]%lookup_insert_Some; [done|by eapply I3].
Qed.

(** One sink: the failures held back are told or still held. *)
Lemma sweep_one_spec force now writes name st st' out held_ : 0 ≤ ss_suppressed st →
  sweep_one force now writes name st = (st', out, held_) →
  ss_suppressed st' + fold_right (λ l n, stands_for l + n) 0 out = ss_suppressed st ∧ 0 ≤ ss_suppressed st' ∧
  (held_ = false → ss_suppressed st' = 0) ∧ (force = true → writes name = true → held_ = false).
Proof.
  intros H0. unfold sweep_one. destruct (Z.eqb_spec (ss_suppressed st) 0) as [E|]; [intros [= <- <- <-]; cbn; repeat split; auto; lia|].
  destruct (negb force && recent now st) eqn:Er.
  { intros [= <- <- <-]. cbn. repeat split; [lia|done|done|]. intros ->. done. }
  destruct (writes name) eqn:Ew; cbn [negb]; intros [= <- <- <-]; cbn; repeat split; try done; lia.
Qed.

Lemma fold_lines_app l l' : fold_right (λ l n, stands_for l + n) 0 (l ++ l') =
  fold_right (λ l n, stands_for l + n) 0 l + fold_right (λ l n, stands_for l + n) 0 l'.
Proof. induction l; cbn; lia. Qed.

Lemma sweep_all_spec force now writes l s still :
  NoDup l.*1 → (∀ name st, (name, st) ∈ l → sh_status s !! name = Some st) →
  sh_errs s = told s + held s → (∀ name st, sh_status s !! name = Some st → 0 ≤ ss_suppressed st) →
  (still = false → ∀ name st, sh_status s !! name = Some st → name ∉ l.*1 → ss_suppressed st = 0) →
  let s' := sweep_all force now writes l s still in
  hinv s' ∧ sh_errs s' = sh_errs s ∧
  (force = true → (∀ name, name ∈ l.*1 → writes name = true) → sh_pending s' = still).
Proof.
  revert s still. induction l as [|[name st] l IH]; intros s still Hnd Hl Hc Hp Hz; cbn [sweep_all].
  { split; [|done]. split; [done|done|]. cbn. intros Hs n a Ha. apply (Hz Hs n a Ha). set_solver. }
  apply NoDup_cons in Hnd as [Hn Hnd]. assert (Hst : sh_status s !! name = Some st) by (apply Hl; set_solver).
  destruct (sweep_one force now writes name st) as [[st' out] h] eqn:E.
  destruct (sweep_one_spec _ _ _ _ _ _ _ _ (Hp _ _ Hst) E) as (S1 & S2 & S3 & S4).
  set (s1 := SinkHealth _ _ _ _). destruct (IH s1 (still || h)) as (J1 & J2 & J3).
  - done.
  - intros n a Hin. cbn. rewrite lookup_insert_ne; [apply Hl; set_solver|]. intros <-. apply Hn, list_elem_of_fmap. by exists (name, a).
  - unfold s1, told, held in *. cbn [sh_errs sh_status sh_lines]. rewrite fold_lines_app, sum_of_insert, Hst. lia.
  - cbn. intros n a [[_ <-]|[_ Ha]]%lookup_insert_Some; [done|by eapply Hp].
  - cbn. intros [-> ->]%orb_false_elim n a [[<- <-]|[Hne Ha]]%lookup_insert_Some Hnin; [by apply S3|].
    apply (Hz eq_refl n a Ha). cbn. set_solver.
  - split; [done|]. split; [done|]. intros Hf Hw. rewrite J3; [|done|intros n Hin; apply Hw; set_solver].
    rewrite S4; [by rewrite orb_false_r|done|]. apply Hw. set_solver.
Qed.

Lemma sweep_inv force now writes s : hinv s →
  hinv (sweep force now writes s) ∧ sh_errs (sweep force now writes s) = sh_errs s ∧
  (force = true → (∀ name, writes name = true) → sh_pending (sweep force now writes s) = false).
Proof.
  intros Hi. unfold sweep. destruct (sh_pending s) eqn:Ep; cbn [negb]; [|done]. destruct Hi as [I1 I2 I3].
  destruct (sweep_all_spec force now writes (map_to_list (sh_status s)) s false) as (J1 & J2 & J3).
  - apply NoDup_fst_map_to_list.
  - intros n a Hin. by apply elem_of_map_to_list.
  - done.
  - done.
  - intros _ n a Ha Hnin. destruct Hnin. apply list_elem_of_fmap. exists (n, a). split; [done|]. by apply elem_of_map_to_list.
  - split; [done|]. split; [done|]. intros Hf Hw. by apply J3.
Qed.

Lemma dispatch_inv children level now writes s : hinv s →
  let '(got, errs, s') := dispatch children level now writes s in
  hinv s' ∧ got = map sk_name (filter (λ c, sk_enabled c level = true) children) ∧
  errs = map sk_name (filter (λ c, sk_enabled c level = true ∧ sk_fails c = true) children) ∧
  sh_errs s' = sh_errs s + Z.of_nat (length errs).
Proof.
  revert s. induction children as [|c children IH]; intros s Hi; cbn [dispatch]; [by rewrite Z.add_0_r|].
  rewrite !filter_cons. destruct (sk_enabled c level) eqn:Ee; cbn [negb].
  2:{ specialize (IH s Hi). destruct (dispatch children level now writes s) as [[got errs] s'].
      rewrite decide_False by done. rewrite decide_False by naive_solver. done. }
  set (s1 := if sk_fails c then _ else s). assert (hinv s1 ∧ sh_errs s1 = sh_errs s + b2z (sk_fails c)) as [Hi1 He1].
  { unfold s1. destruct (sk_fails c); [by apply failed_inv|]. split; [done|]. cbn. lia. }
  specialize (IH s1 Hi1). destruct (dispatch children level now writes s1) as [[got errs] s'].
  destruct IH as (J1 & -> & -> & J4). rewrite decide_True by done. destruct (sk_fails c) eqn:Ef.
  - rewrite decide_True by done. cbn [map length]. split; [done|]. split; [done|]. split; [done|]. rewrite J4, He1, ?Ef. unfold b2z. cbn [length]. lia.
  - rewrite decide_False by naive_solver. cbn [map]. split; [done|]. split; [done|]. split; [done|]. rewrite J4, He1, ?Ef. unfold b2z. cbn [length]. lia.
Qed.

(** ** A life: records and a last sweep *)
Inductive event :=
| ERecord (children : list sink) (level now : Z) (writes : string → bool)
| ESweep (force : bool) (now : Z) (writes : string → bool).
Definition play (s : sinkHealth) (e : event) : sinkHealth :=
  match e with
  | ERecord children level now writes => (Handle children level now writes s).2
  | ESweep force now writes => sweep force now writes s
  end.
Definition failures (e : event) : Z :=
  match e with
  | ERecord children level _ _ => Z.of_nat (length (filter (λ c, sk_enabled c level = true ∧ sk_fails c = true) children))
  | ESweep _ _ _ => 0
  end.

Lemma play_inv s e : hinv s → hinv (play s e) ∧ sh_errs (play s e) = sh_errs s + failures e.
Proof.
  intros Hi. destruct e as [children level now writes|force now writes]; cbn [play failures].
  - unfold Handle. pose proof (dispatch_inv children level now writes s Hi) as Hd.
    destruct (dispatch children level now writes s) as [[got errs] s']. destruct Hd as (J1 & _ & -> & J4).
    destruct (sweep_inv false now writes s' J1) as (K1 & K2 & _). cbn [snd]. split; [done|]. rewrite K2, J4, length_map. done.
  - destruct (sweep_inv force now writes s Hi) as (K1 & K2 & _). split; [done|]. lia.
Qed.

(** Failures of log sinks are all told. For every sequence of records and sweeps, with
    any sinks failing and standard error failing too, the failures counted are those
    that happened, and they are the ones the lines stand for and the ones held back; a
    forced sweep that can write tells the rest. *)
Lemma sink_failures_all_told events now :
  let s := fold_left play events newSinkHealth in
  let s' := sweep true now (λ _, true) s in
  sh_errs s = fold_right (λ e n, failures e + n) 0 events ∧ sh_errs s = told s + held s ∧
  sh_errs s' = sh_errs s ∧ told s' = sh_errs s.
Proof.
  assert (Hgen : ∀ s, hinv s → hinv (fold_left play events s) ∧
    sh_errs (fold_left play events s) = sh_errs s + fold_right (λ e n, failures e + n) 0 events).
  { induction events as [|e events IH]; intros s Hi; cbn [fold_left fold_right]; [split; [done|lia]|].
    destruct (play_inv s e Hi) as [J1 J2]. destruct (IH _ J1) as [K1 K2]. split; [done|]. rewrite K2, J2. lia. }
  destruct (Hgen newSinkHealth hinv_start) as [H1 H2]. cbn zeta. set (s := fold_left play events newSinkHealth) in *.
  destruct (sweep_inv true now (λ _, true) s H1) as (S1 & S2 & S3).
  split; [exact H2|]. split; [exact (hi_count _ H1)|]. split; [done|]. rewrite <- S2, (hi_count _ S1).
  assert (held (sweep true now (λ _, true) s) = 0) as ->; [|lia].
  specialize (hi_pending _ S1 (S3 eq_refl (λ _, eq_refl))). intros Hz. unfold held.
  assert (Hle : sum_of ss_suppressed (sh_status (sweep true now (λ _, true) s)) =
    sum_of (λ _, 0) (sh_status (sweep true now (λ _, true) s))).
  { apply Z.le_antisymm; apply sum_of_mono; intros k a Hk; by rewrite (Hz k a Hk). }
  rewrite Hle. generalize (sh_status (sweep true now (λ _, true) s)). intros m. clear.
  induction m as [|k a m Hk _ IH] using map_first_key_ind; [done|]. by rewrite sum_of_fresh, IH.
Qed.

(** ** Error records as Sentry events *)

(** A resolved attribute value: one of the kinds kept as they are, another kind
    (kept as text), or a group. *)
Inductive value :=
| VPlain (text : string)
| VOther (text : string)
| VGroup (attrs : list (string * value)).
Definition attribute := (string * value)%type.

Inductive field := FAny (text : string) | FText (text : string).

(** The leaves of a value under their dotted keys, in order. *)
Fixpoint flatten (key : string) (v : value) : list (string * field) :=
  match v with
  | VPlain t => [(key, FAny t)]
  | VOther t => [(key, FText t)]
  | VGroup attrs =>
      (fix go l := match l with
                   | [] => []
                   | (k, v') :: l' => flatten (if String.eqb key "" then k else key +:+ "." +:+ k) v' ++ go l'
                   end) attrs
  end.

Definition text_of (f : field) : string := match f with FAny t | FText t => t end.
Definition eventIDKey : string := "sentry_event_id".

Fixpoint join_dots (l : list string) : string :=
  match l with [] => "" | [g] => g | g :: l' => g +:+ "." +:+ join_dots l' end.
Definition groupPrefix (groups : list string) : string :=
  match groups with [] => "" | _ => join_dots groups +:+ "." end.

Record teeHandler := Tee { th_attrs : list attribute; th_groups : list string }.

Record sentry_event := SentryEvent { ev_Message : string; ev_Tags : gmap string string; ev_log : gmap string field }.

Definition leaves (h : teeHandler) (attrs : list attribute) : list (string * field) :=
  flat_map (λ a, flatten a.1 a.2) (th_attrs h) ++ flat_map (λ a, flatten (groupPrefix (th_groups h) +:+ a.1) a.2) attrs.

(** [None]: the record carries the id of an event that was captured already. *)
Definition capture (h : teeHandler) (message : string) (attrs : list attribute) : option sentry_event :=
  if existsb (λ a, String.eqb a.1 eventIDKey) attrs then None
  else
    let ls := leaves h attrs in
    Some (SentryEvent message
      (fold_left (λ m l, if (String.length (text_of l.2) <=? CrashGuard.maxTagLength)%nat then <[l.1 := text_of l.2]> m else m) ls ∅)
      (fold_left (λ m l, <[l.1 := l.2]> m) ls ∅)).

Definition WithAttrs (attrs : list attribute) (h : teeHandler) : teeHandler :=
  match attrs with
  | [] => h
  | _ => Tee (th_attrs h ++ map (λ a, (groupPrefix (th_groups h) +:+ a.1, a.2)) attrs) (th_groups h)
  end.
Definition WithGroup (name : string) (h : teeHandler) : teeHandler :=
  if String.eqb name "" then h else Tee (th_attrs h) (th_groups h ++ [name]).

(** Which handlers get a record, and the event. *)
Definition tee_Handle (base logs : Z → bool) (h : teeHandler) (level : Z) (message : string) (attrs : list attribute)
    : bool * bool * option sentry_event :=
  (base level, logs level, if LevelError <=? level then capture h message attrs else None).

(** The attributes of the record that reports a crash. *)
Definition handlePanic (what v stack : string) (scope : list CrashGuard.attr) (eventID : string) : list attribute :=
  [("where", VPlain what); ("panic", VPlain v); ("stack", VPlain stack)] ++ map (λ a, (a.1, VPlain a.2)) scope ++
  (if String.eqb eventID "" then [] else [(eventIDKey, VPlain eventID)]).

(** A crash Sentry has captured is not captured again through the log; one it has not is. *)
Lemma crash_captured_once h message what v stack scope eventID :
  (eventID ≠ "" → capture h message (handlePanic what v stack scope eventID) = None) ∧
  (¬ eventIDKey ∈ map fst scope → eventID = "" →
     ∃ ev, capture h message (handlePanic what v stack scope eventID) = Some ev ∧ ev_Message ev = message).
Proof.
  unfold capture, handlePanic. split.
  - intros Hid. apply String.eqb_neq in Hid as ->. rewrite !existsb_app. cbn. by rewrite !orb_true_r.
  - intros Hn ->. rewrite !existsb_app. cbn [existsb orb fst].
    destruct (existsb (λ a : attribute, String.eqb a.1 eventIDKey) (map (λ a : CrashGuard.attr, (a.1, VPlain a.2)) scope)) eqn:E.
    + apply existsb_exists in E as (a & (b & <- & Hb)%in_map_iff & He%String.eqb_eq). destruct Hn.
      apply list_elem_of_fmap. exists b. split; [by rewrite <- He|by apply list_elem_of_In].
    + change attribute with (string * value)%type in E. change CrashGuard.attr with (string * string)%type in E.
      rewrite E. by eexists.
Qed.

(** Attributes bound to a logger are those of every record after them. *)
Lemma leaves_bound h bound attrs : leaves (WithAttrs bound h) attrs = leaves h (bound ++ attrs).
Proof.
  unfold leaves, WithAttrs. destruct bound as [|b bound]; [done|]. cbn [th_attrs th_groups].
  rewrite !flat_map_app, <- !app_assoc. f_equal. f_equal. generalize (b :: bound). intros l.
  induction l as [|a l IH]; [done|]. cbn [map flat_map fst snd]. by rewrite IH.
Qed.

(** Tags are short enough for Sentry. *)
Lemma capture_tags h message attrs ev k t : capture h message attrs = Some ev → ev_Tags ev !! k = Some t →
  (String.length t ≤ CrashGuard.maxTagLength)%nat.
Proof.
  unfold capture. destruct (existsb _ _); [done|]. intros [= <-]. cbn [ev_Tags].
  assert (Hgen : ∀ ls (m : gmap string string), map_Forall (λ _ t, String.length t ≤ CrashGuard.maxTagLength)%nat m →
    map_Forall (λ _ t, String.length t ≤ CrashGuard.maxTagLength)%nat
      (fold_left (λ m l, if (String.length (text_of l.2) <=? CrashGuard.maxTagLength)%nat then <[l.1 := text_of l.2]> m else m) ls m)).
  { induction ls as [|l ls IH]; intros m Hm; [done|]. cbn [fold_left]. apply IH.
    destruct (Nat.leb_spec (String.length (text_of l.2)) CrashGuard.maxTagLength); [by apply map_Forall_insert_2|done]. }
  intros Hk. eapply (Hgen (leaves h attrs) ∅); [apply map_Forall_empty|exact Hk].
Qed.
End LogSinks.
