(* ===== verification/S3Store.v ===== *)
(** * The S3 store

    [store/s3.go] and [store/rejected.go]: the name registry and the evidence of
    refused enrollments as plain S3 objects.  The service is a parameter ([S3]
    with its documented read-after-write, [S3Laws]); so is JSON.

    The store is the [NameStore] that enrollment is proved against, and the keys
    of its evidence are what the refused-apps job lists, in time order. *)
From Stdlib Require Import ZArith Lia Ascii String.
From stdpp Require Import gmap.
From S2P Require Import Prelude GoStr GoTime Enroll EnrollHTTP Challenges RefusedList RefusedApps.
Local Open Scope string_scope.
Local Open Scope list_scope.
Local Open Scope Z_scope.

Module S3Store.
Import Enroll.

(** Errors of the SDK, as [errors.AsType] sees them. *)
Inductive s3_error := NoSuchKey | S3NotFound | APIError (code : string) | OtherError.

(** Only the absence of the key, never that of the bucket. *)
Definition isNotFound (e : s3_error) : bool :=
  match e with
  | NoSuchKey | S3NotFound => true
  | APIError code => String.eqb code "NoSuchKey" || String.eqb code "NotFound"
  | OtherError => false
  end.

(** The plain calls; a body comes with whether closing it fails. *)
Class S3 (N : Type) := {
  s3_Get : string → N → result s3_error (string * bool) * N;
  s3_Put : string → string → string → N → option s3_error * N;      (* key, body, content type *)
  s3_Delete : string → N → option s3_error * N
}.
Class S3Laws (N : Type) `{S3 N} : Prop :=
  s3_put_get : ∀ key body type n n', s3_Put key body type n = (None, n') → (s3_Get key n').1 = Ok (body, false).

Definition nameKey (name : string) : string := "names/" +:+ name.
Definition json_type : string := "application/json".

Section store.
Context {N : Type} `{S3 N}.
Context (Marshal : NameRecord → option string) (Decode : string → option NameRecord).
Context (MarshalRejected : RefusedList.RejectedEnrollment → option string).

Definition GetName (name : string) (n : N) : result store_error NameRecord * N :=
  let '(r, n) := s3_Get (nameKey name) n in
  (match r with
   | Err e => Err (if isNotFound e then StoreNotFound else StoreFails)
   | Ok (body, close_fails) =>
       match Decode body with
       | None => Err StoreFails
       | Some rec => if (close_fails : bool) then Err StoreFails else Ok rec
       end
   end, n).

Definition PutName (name : string) (rec : NameRecord) (n : N) : bool * N :=
  match Marshal rec with
  | None => (false, n)
  | Some body =>
      let '(e, n) := s3_Put (nameKey name) body json_type n in
      (match e with None => true | Some _ => false end, n)
  end.

Definition DeleteName (name : string) (n : N) : bool * N :=
  let '(e, n) := s3_Delete (nameKey name) n in
  (match e with None => true | Some e => isNotFound e end, n).

Definition PutConnLogFile (key body : string) (n : N) : bool * N :=
  let '(e, n) := s3_Put key body "application/x-ndjson" n in
  (match e with None => true | Some _ => false end, n).

(** ** Evidence *)
Definition dir_text (ymd : Z * Z * Z) : string :=
  let '(y, m, d) := ymd in GoTime.year_text y +:+ "/" +:+ GoTime.pad 2 m +:+ "/" +:+ GoTime.pad 2 d.

(** [r]: two random bytes. *)
Definition RejectedKey (ts : Z) (r : bytes) : string :=
  "rejected-enroll/" +:+ dir_text (GoTime.civil (ts / GoTime.day_ns)) +:+ "/" +:+ GoTime.format_nanos ts +:+ "-" +:+
  hex_encode r +:+ ".json".

Definition PutRejectedEnrollment (ev : RefusedList.RejectedEnrollment) (r : bytes) (n : N) : bool * N :=
  match MarshalRejected ev with
  | None => (false, n)
  | Some body =>
      let '(e, n) := s3_Put (RejectedKey (RefusedList.TS ev) r) body json_type n in
      (match e with None => true | Some _ => false end, n)
  end.

(** ** The store as enrollment needs it *)
#[export] Instance s3_names : NameStore N := {| ns_get := GetName; ns_put := PutName; ns_delete := DeleteName |}.

Lemma s3_names_laws `{!S3Laws N} : (∀ rec body, Marshal rec = Some body → Decode body = Some rec) → EnrollHTTP.NameStoreLaws N.
Proof.
  intros Hjson name rec n n'. unfold ns_put, ns_get, s3_names, PutName, GetName.
  destruct (Marshal rec) as [body|] eqn:Em; [|done]. destruct (s3_Put _ _ _ _) as [[e|] n1] eqn:Ep; [done|]. intros [= <-].
  pose proof (s3_put_get _ _ _ _ _ Ep) as Hg. destruct (s3_Get (nameKey name) n1) as [r n2]. cbn in Hg. subst r. cbn.
  by rewrite (Hjson _ _ Em).
Qed.

(** An outage does not make a name unknown. *)
Lemma GetName_not_found name n : (GetName name n).1 = Err StoreNotFound →
  ∃ e, (s3_Get (nameKey name) n).1 = Err e ∧ isNotFound e = true.
Proof.
  unfold GetName. destruct (s3_Get (nameKey name) n) as [[[body []]|e] n']; cbn; [by destruct (Decode body)..|].
  destruct (isNotFound e) eqn:E; [|done]. by exists e.
Qed.

(** ** Evidence is found, and in time order *)
Lemma evidence_listed ts r : HasPrefix (RejectedKey ts r) RefusedApps.evidencePrefix = true.
Proof. apply HasPrefix_app. Qed.

Lemma dir_text_compare y m d y' m' d' x x' :
  0 ≤ y ≤ 9999 → 0 ≤ m < 100 → 0 ≤ d < 100 → 0 ≤ y' ≤ 9999 → 0 ≤ m' < 100 → 0 ≤ d' < 100 →
  String.compare (dir_text (y, m, d) +:+ x) (dir_text (y', m', d') +:+ x') =
  GoTime.then_cmp (GoTime.date_num (y, m, d) ?= GoTime.date_num (y', m', d')) (String.compare x x').
Proof.
  intros. rewrite <- GoTime.date_text_compare by lia. unfold dir_text, GoTime.date_text. rewrite !GoTime.year_text_4 by lia.
  rewrite !str_app_assoc, !GoTime.cmp_app, !GoTime.cmp_same, !GoTime.cmp_app, !GoTime.cmp_same, !GoTime.cmp_app
    by (by rewrite !GoTime.length_pad).
  by destruct (String.compare (GoTime.pad 4 y) _), (String.compare (GoTime.pad 2 m) _), (String.compare (GoTime.pad 2 d) _).
Qed.

Lemma length_format_nanos t : GoTime.four_digit_year t → String.length (GoTime.format_nanos t) = 26%nat.
Proof.
  unfold GoTime.four_digit_year, GoTime.format_nanos. destruct (GoTime.civil _) as [[y m] d]. cbn [fst]. intros Hy.
  rewrite str_length_app, (GoTime.length_date_text y m d) by lia. unfold GoTime.clock_text.
  rewrite !str_length_app, !GoTime.length_pad. done.
Qed.

(** The keys of refusals sort by time. *)
Lemma RejectedKey_order a b r r' : GoTime.four_digit_year a → GoTime.four_digit_year b → a < b →
  String.compare (RejectedKey a r) (RejectedKey b r') = Lt.
Proof.
  intros Ya Yb Hab. pose proof (GoTime.format_nanos_compare a b Ya Yb) as Hn.
  pose proof (length_format_nanos a Ya) as La. pose proof (length_format_nanos b Yb) as Lb. unfold GoTime.four_digit_year in *.
  assert (a / GoTime.day_ns ≤ b / GoTime.day_ns) as Hle by (apply Z.div_le_mono; [done|lia]).
  unfold RejectedKey. rewrite GoTime.cmp_same. set (u := a / GoTime.day_ns) in *. set (v := b / GoTime.day_ns) in *.
  pose proof (GoTime.civil_mono u v) as M. destruct (GoTime.civil u) as [[y m] d] eqn:Eu, (GoTime.civil v) as [[y' m'] d'] eqn:Ev.
  apply GoTime.civil_valid in Eu as Vu. apply GoTime.civil_valid in Ev as Vv.
  pose proof (GoTime.daysIn_31 m y). pose proof (GoTime.daysIn_31 m' y'). simpl in Ya, Yb.
  rewrite dir_text_compare by lia. destruct (decide (u = v)) as [E|Hne].
  - rewrite E, Ev in Eu. simplify_eq. rewrite Z.compare_refl. cbn [GoTime.then_cmp]. rewrite GoTime.cmp_same, GoTime.cmp_app, Hn.
    + by rewrite (proj2 (Z.compare_lt_iff a b) Hab).
    + by rewrite La, Lb.
  - by rewrite (proj2 (Z.compare_lt_iff _ _) (M ltac:(lia))).
Qed.
End store.
End S3Store.
