(* ===== verification/Admin.v ===== *)
(** * The admin view of tunnels

    [admin/tunnels.go]: pages of tunnel names, and for given names what the router
    and the limiter know, merged for the tunnels that have a live route. *)
From Stdlib Require Import ZArith Lia Ascii String.
From stdpp Require Import gmap.
From S2P Require Import Prelude GoStr Valkey Limiter Router.
Local Open Scope string_scope.
Local Open Scope list_scope.
Local Open Scope Z_scope.

Module Admin.
Import ValkeyClient.

Record TunnelStats := MkStats {
  st_Node : string; st_BytesIn : Z; st_BytesOut : Z; st_Conc : Z; st_BwIn : Z; st_BwOut : Z;
  st_DayIn : Z; st_DayOut : Z; st_WeekIn : Z; st_WeekOut : Z
}.

(** A missing entry of a Go map is the zero value. *)
Definition no_windows : Limiter.TunnelStat := {|
  Limiter.Conc := 0; Limiter.BwIn := 0; Limiter.BwOut := 0; Limiter.DayIn := 0; Limiter.DayOut := 0; Limiter.WeekIn := 0;
  Limiter.WeekOut := 0 |}.

Definition merged (m : Router.TunnelMetaInfo) (w : Limiter.TunnelStat) : TunnelStats :=
  MkStats (Router.Node m) (Router.BytesIn m) (Router.BytesOut m) (Limiter.Conc w) (Limiter.BwIn w) (Limiter.BwOut w)
    (Limiter.DayIn w) (Limiter.DayOut w) (Limiter.WeekIn w) (Limiter.WeekOut w).

Section admin.
Context {S : Type} `{ValkeyServer S}.
Context (scan : Z → string → Z → M S (result rerr (list string * Z))).

Definition List_ (cursor count : Z) : M S (result rerr (list string * Z)) := Router.ScanTunnels scan cursor count.

Definition Stats (names : list string) : M S (result rerr (gmap string TunnelStats)) :=
  let* meta := Router.TunnelMeta names in
  match meta with
  | Err e => ret (Err e)
  | Ok meta =>
      let* win := Limiter.TunnelWindows names in
      match win with
      | Err e => ret (Err e)
      | Ok win => ret (Ok (map_imap (λ name m, Some (merged m (default no_windows (win !! name)))) meta))
      end
  end.

(** Exactly the live tunnels are shown, each with its own windows. *)
Lemma Stats_live_only names w out w' : Stats names w = (Ok out, w') →
  ∃ meta w1 win, Router.TunnelMeta names w = (Ok meta, w1) ∧ Limiter.TunnelWindows names w1 = (Ok win, w') ∧
    dom out = dom meta ∧ ∀ name m, meta !! name = Some m → out !! name = Some (merged m (default no_windows (win !! name))).
Proof.
  unfold Stats, bind, ret. destruct (Router.TunnelMeta names w) as [[meta|e] w1]; [|done].
  destruct (Limiter.TunnelWindows names w1) as [[win|e] w2] eqn:Ew; [|done]. intros [= <- <-].
  exists meta, w1, win. split; [done|]. split; [done|]. split.
  - apply set_eq. intros name. rewrite !elem_of_dom, map_lookup_imap. destruct (meta !! name); cbn; [split; by eexists|done].
  - intros name m Hm. by rewrite map_lookup_imap, Hm.
Qed.
End admin.
End Admin.
