(* ===== verification/Recorder.v ===== *)
(** * The recorder of metrics and traffic counters

    [observ/recorder.go], [metrics/recorder.go], [metrics/metrics.go] and
    [metrics/acme_budget.go].  Prometheus is the list of updates it is sent; the
    traffic of each tunnel is added up in memory and saved by a flusher.

    The calls of the data plane interleave with the flusher's steps as [fstep];
    [flush] is one flush in a row, over any sink of traffic. *)
From Stdlib Require Import ZArith Lia Ascii String.
From S2P Require Import Prelude GoStr Wire Caplog.
Local Open Scope string_scope.
Local Open Scope list_scope.
Local Open Scope Z_scope.

Module Recorder.

(** ** Labels *)
Definition RejectReasons : list string := [
  "ban"; "no-route"; "handshake-timeout"; "conn-rate"; "max-clients"; "quota-day"; "quota-week";
  "stream-cap"; "attest-untrusted"; "attest-challenge"; "attest-signer"; "attest-security-level";
  "attest-boot"; "attest-device-unlocked"; "attest-revoked"; "attest-stale"; "csr-mismatch";
  "enroll-limit"; "issuance-cap"; "acme-failed"; "acme-http-miss"].
Definition ACMECAs : list string := ["letsencrypt"; "gts"; "zerossl"].
Definition ACMERenewAllCAs : string := "all".
Definition EnrollResults : list string := [
  "ok"; "internal"; "bad_source_ip"; "enroll_rate"; "invalid_nonce"; "unauthorized"; "name_unavailable";
  "unsupported_key_type"; "identity_sign_failed"].
Definition AttestResults : list string := [
  "ok"; "attest-untrusted"; "attest-challenge"; "attest-signer"; "attest-security-level"; "attest-boot";
  "attest-device-unlocked"; "attest-revoked"; "attest-stale"].
Definition QuotaWindows : list string := ["day"; "week"].
Definition ByteDirections : list string := ["in"; "out"].

(** The families of [NewMetrics] that carry labels, and its gauges. *)
Inductive family :=
| enrollments | rejections | bytesTotal | quotaExhausted | attestVerify
| acmeIssue | acmeRenew | acmeCooldown | acmeRateLimited
| meshPoolSize | publicConnsUp | phoneConnsUp | streamsActive | perConnMem.
#[export] Instance family_eq_dec : EqDecision family.
Proof. solve_decision. Defined.

(** Updates of a family at a list of label values. *)
Inductive mupd :=
| Touch (f : family) (labels : list string)      (* [WithLabelValues] alone *)
| Inc (f : family) (labels : list string)
| Dec (f : family) (labels : list string)
| Add (f : family) (labels : list string) (n : Z)
| SetTo (f : family) (labels : list string) (n : Z).
#[export] Instance mupd_eq_dec : EqDecision mupd.
Proof. solve_decision. Defined.

Definition perConnMemEstimateBytes : Z := 2 * Wire.ChunkSize.

(** The updates of [NewMetrics] itself. *)
Definition ca_labels (ca : string) : list mupd := [
  Touch acmeIssue [ca; "ok"]; Touch acmeIssue [ca; "fail"]; Touch acmeIssue [ca; "rate-limited"];
  Touch acmeRenew [ca; "ok"]; Touch acmeCooldown [ca]; Touch acmeRateLimited [ca]].
Definition NewMetrics : list mupd :=
  map (λ r, Touch rejections [r]) RejectReasons ++
  concat (map ca_labels ACMECAs) ++
  [Touch acmeRenew [ACMERenewAllCAs; "fail"]] ++
  map (λ r, Touch enrollments [r]) EnrollResults ++
  map (λ r, Touch attestVerify [r]) AttestResults ++
  map (λ w, Touch quotaExhausted [w]) QuotaWindows ++
  map (λ d, Touch bytesTotal [d]) ByteDirections ++
  [SetTo perConnMem [] perConnMemEstimateBytes].

(** ** The recorder *)
Record aggEntry := Agg { bytesIn : Z; bytesOut : Z }.
#[export] Instance aggEntry_eq_dec : EqDecision aggEntry.
Proof. solve_decision. Defined.

Inductive line :=
| CapLine (l : Caplog.line)
| UnknownReason (reason tunnel : string)
| RefusedDebug (sni clientIP : string)
| NotSaved (tunnel : string).

Record PromRecorder := MkRecorder {
  m : list mupd;
  caplog : Caplog.Logger;
  agg : gmap string aggEntry;
  log : list line
}.

Definition NewPromRecorder (cl : Caplog.Logger) : PromRecorder := MkRecorder NewMetrics cl ∅ [].

Definition metric (u : mupd) (p : PromRecorder) : PromRecorder := MkRecorder (m p ++ [u]) (caplog p) (agg p) (log p).
Definition logged (ls : list line) (p : PromRecorder) : PromRecorder := MkRecorder (m p) (caplog p) (agg p) (log p ++ ls).
Definition hit (now : Z) (tunnel reason ip : string) (p : PromRecorder) : PromRecorder :=
  let '(cl, ls) := Caplog.Hit (caplog p) now tunnel reason ip [] in
  MkRecorder (m p) cl (agg p) (log p ++ map CapLine ls).

Definition Reject (now : Z) (reason tunnelName clientIP : string) (p : PromRecorder) : PromRecorder :=
  if negb (bool_decide (reason ∈ RejectReasons)) then logged [UnknownReason reason tunnelName] p
  else
    let p := metric (Inc rejections [reason]) p in
    if String.eqb reason "no-route" then logged [RefusedDebug tunnelName clientIP] p
    else hit now tunnelName reason clientIP p.

Definition QuotaExhausted (now : Z) (tunnelName window : string) (p : PromRecorder) : PromRecorder :=
  hit now tunnelName ("quota-" +:+ window) EmptyString (metric (Inc quotaExhausted [window]) p).

(** The additions are on int64. *)
Definition agg_add (d e : aggEntry) : aggEntry :=
  Agg (wrap64 (bytesIn e + bytesIn d)) (wrap64 (bytesOut e + bytesOut d)).
Definition accum_map (name : string) (d : aggEntry) (a : gmap string aggEntry) : gmap string aggEntry :=
  if String.eqb name EmptyString then a
  else <[name := agg_add d (default (Agg 0 0) (a !! name))]> a.
Definition delta (direction : string) (n : Z) : aggEntry :=
  if String.eqb direction "in" then Agg n 0 else Agg 0 n.
Definition accum (name : string) (d : aggEntry) (p : PromRecorder) : PromRecorder :=
  MkRecorder (m p) (caplog p) (accum_map name d (agg p)) (log p).
Definition Bytes (tunnelName direction : string) (n : Z) (p : PromRecorder) : PromRecorder :=
  accum tunnelName (delta direction n) (metric (Add bytesTotal [direction] n) p).

Definition PublicConnOpen := metric (Inc publicConnsUp []).
Definition PublicConnClose (reason : string) := metric (Dec publicConnsUp []).
Definition PhoneConnOpen := metric (Inc phoneConnsUp []).
Definition PhoneConnClose (reason : string) := metric (Dec phoneConnsUp []).
Definition StreamOpen := metric (Inc streamsActive []).
Definition StreamClose := metric (Dec streamsActive []).
Definition EnrollmentResult (result_ : string) := metric (Inc enrollments [result_]).
Definition AttestVerify (result_ : string) := metric (Inc attestVerify [result_]).
Definition ACMEIssue (ca result_ : string) := metric (Inc acmeIssue [ca; result_]).
Definition ACMERenew (ca result_ : string) := metric (Inc acmeRenew [ca; result_]).
Definition ACMECooldown (ca : string) := metric (Inc acmeCooldown [ca]).
Definition ACMERateLimited (ca : string) := metric (Inc acmeRateLimited [ca]).
Definition MeshPool (peer : string) (size : Z) := metric (SetTo meshPoolSize [peer] size).

Definition FlushCapLog (p : PromRecorder) : PromRecorder :=
  let '(cl, ls) := Caplog.Flush (caplog p) in MkRecorder (m p) cl (agg p) (log p ++ map CapLine ls).

(** ** One flush, over a sink *)
Definition is_zero (e : aggEntry) : bool := (bytesIn e =? 0) && (bytesOut e =? 0).

Section flush.
Context {W : Type} (AddTraffic : string → Z → Z → W → bool * W).

Fixpoint save_all (drained : list (string * aggEntry)) (p : PromRecorder) (w : W) : PromRecorder * W :=
  match drained with
  | [] => (p, w)
  | (name, e) :: rest =>
      if is_zero e then save_all rest p w
      else
        let '(ok, w) := AddTraffic name (bytesIn e) (bytesOut e) w in
        save_all rest (if ok then p else logged [NotSaved name] (accum name e p)) w
  end.

Definition flush (p : PromRecorder) (w : W) : PromRecorder * W :=
  save_all (map_to_list (agg p)) (MkRecorder (m p) (caplog p) ∅ (log p)) w.
Definition FinalFlush := flush.
End flush.

(** ** Flushing while bytes arrive *)
Inductive dir := In_ | Out_.
Definition sel (d : dir) (e : aggEntry) : Z := match d with In_ => bytesIn e | Out_ => bytesOut e end.
Definition at_ (d : dir) (name : string) (a : gmap string aggEntry) : Z :=
  match a !! name with Some e => sel d e | None => 0 end.

Record fstate := FState {
  f_agg : gmap string aggEntry;                  (* [agg] *)
  f_flushes : gmap nat (gmap string aggEntry);   (* what each flush has left to save *)
  f_saved : string → dir → Z;                    (* added to the counters in the sink *)
  f_doubled : string → dir → Z;                  (* of that, by calls that reported an error *)
  f_recorded : string → dir → Z                  (* given to [Bytes] *)
}.
Definition fstart : fstate := FState ∅ ∅ (λ _ _, 0) (λ _ _, 0) (λ _ _, 0).

Definition bump (name : string) (e : aggEntry) (g : string → dir → Z) : string → dir → Z :=
  λ n d, if String.eqb n name then g n d + sel d e else g n d.

(** [AddTraffic] sends its increments in a plain pipeline: when it reports an error,
    either of them may have been applied. *)
Definition applied (took : bool * bool) (e : aggEntry) : aggEntry :=
  Agg (if took.1 then bytesIn e else 0) (if took.2 then bytesOut e else 0).

Inductive fstep : fstate → fstate → Prop :=
| fs_bytes s name direction n : 0 ≤ n →
    fstep s (FState (accum_map name (delta direction n) (f_agg s)) (f_flushes s) (f_saved s) (f_doubled s)
                    (bump name (delta direction n) (f_recorded s)))
| fs_begin s f : f_flushes s !! f = None →
    fstep s (FState ∅ (<[f := f_agg s]> (f_flushes s)) (f_saved s) (f_doubled s) (f_recorded s))
| fs_skip s f left name e : f_flushes s !! f = Some left → left !! name = Some e → is_zero e = true →
    fstep s (FState (f_agg s) (<[f := delete name left]> (f_flushes s)) (f_saved s) (f_doubled s) (f_recorded s))
| fs_saved s f left name e : f_flushes s !! f = Some left → left !! name = Some e → is_zero e = false →
    fstep s (FState (f_agg s) (<[f := delete name left]> (f_flushes s)) (bump name e (f_saved s)) (f_doubled s) (f_recorded s))
| fs_failed s f left name e took : f_flushes s !! f = Some left → left !! name = Some e → is_zero e = false →
    fstep s (FState (accum_map name e (f_agg s)) (<[f := delete name left]> (f_flushes s))
                    (bump name (applied took e) (f_saved s)) (bump name (applied took e) (f_doubled s)) (f_recorded s))
| fs_end s f : f_flushes s !! f = Some ∅ →
    fstep s (FState (f_agg s) (delete f (f_flushes s)) (f_saved s) (f_doubled s) (f_recorded s)).

Definition under_way (s : fstate) (name : string) (d : dir) : Z := sum_of (at_ d name) (f_flushes s).

(** Nothing is lost, and no sum wraps while the total fits an int64. *)
Definition balanced (s : fstate) (name : string) (d : dir) : Prop :=
  f_recorded s name d ≤ max_int64 →
  0 ≤ at_ d name (f_agg s) ∧ 0 ≤ f_doubled s name d ≤ f_saved s name d ∧
  (∀ f left, f_flushes s !! f = Some left → 0 ≤ at_ d name left) ∧
  f_saved s name d + at_ d name (f_agg s) + under_way s name d = f_recorded s name d + f_doubled s name d.

Lemma sel_applied took e d : 0 ≤ sel d e → 0 ≤ sel d (applied took e).
Proof. destruct took as [[] []], d; cbn; lia. Qed.

Lemma sel_delta_nonneg direction n d : 0 ≤ n → 0 ≤ sel d (delta direction n).
Proof. intros. unfold delta. destruct (String.eqb _ _), d; simpl; lia. Qed.

Lemma sel_agg_add d e1 e2 : sel d (agg_add e1 e2) = wrap64 (sel d e2 + sel d e1).
Proof. by destruct d. Qed.

Lemma at_accum d n name e a : name ≠ EmptyString →
  at_ d n (accum_map name e a) = if String.eqb n name then wrap64 (at_ d n a + sel d e) else at_ d n a.
Proof.
  intros Hne. unfold accum_map, at_. destruct (String.eqb_spec name EmptyString); [done|].
  destruct (String.eqb_spec n name) as [->|Hn]; [|by rewrite lookup_insert_ne].
  rewrite lookup_insert_eq, sel_agg_add. destruct (a !! name); simpl; [done|]. f_equal. by destruct d.
Qed.

Lemma at_delete d n name a : at_ d n (delete name a) = if String.eqb n name then 0 else at_ d n a.
Proof.
  unfold at_. destruct (String.eqb_spec n name) as [->|Hn]; [by rewrite lookup_delete_eq|by rewrite lookup_delete_ne].
Qed.

Lemma at_some d name (a : gmap string aggEntry) e : a !! name = Some e → at_ d name a = sel d e.
Proof. intros H. unfold at_. by rewrite H. Qed.

Lemma at_empty d name : at_ d name ∅ = 0.
Proof. unfold at_. by rewrite lookup_empty. Qed.

Lemma at_zero d name (a : gmap string aggEntry) e : a !! name = Some e → is_zero e = true → at_ d name a = 0.
Proof. intros H Hz. rewrite (at_some _ _ _ _ H). unfold is_zero in Hz. destruct d; simpl; lia. Qed.

Lemma flush_takes d n (fl : gmap nat (gmap string aggEntry)) f left nm :
  fl !! f = Some left → (∀ g l, fl !! g = Some l → 0 ≤ at_ d n l) →
  (∀ g l, <[f := delete nm left]> fl !! g = Some l → 0 ≤ at_ d n l) ∧
  sum_of (at_ d n) (<[f := delete nm left]> fl) = sum_of (at_ d n) fl - (if String.eqb n nm then at_ d n left else 0).
Proof.
  intros Hf Hall. pose proof (Hall _ _ Hf). split.
  - intros g l. rewrite lookup_insert_Some. intros [[_ <-]|[_ Hg]]; [|eauto].
    rewrite at_delete. by destruct (String.eqb _ _).
  - rewrite sum_of_insert, Hf, at_delete. destruct (String.eqb _ _); lia.
Qed.

Lemma flush_part d n (fl : gmap nat (gmap string aggEntry)) f left :
  fl !! f = Some left → (∀ g l, fl !! g = Some l → 0 ≤ at_ d n l) → at_ d n left ≤ sum_of (at_ d n) fl.
Proof. intros Hf Hall. by apply (sum_of_part (at_ d n) fl f). Qed.

Lemma fstep_balanced name d s s' : name ≠ EmptyString → balanced s name d → fstep s s' → balanced s' name d.
Proof.
  intros Hname Hb Hs. unfold balanced, under_way in *. destruct Hs as [s nm di n Hn|s f Hf|s f left nm e Hf Hl Hz|s f left nm e Hf Hl Hz|s f left nm e took Hf Hl Hz|s f Hf]; cbn.
  - intros Hr. unfold bump in *.
    destruct (String.eqb_spec name nm) as [<-|Hne].
    + pose proof (sel_delta_nonneg di n d Hn). destruct Hb as (Ha & Hs & Hfl & E); [lia|].
      pose proof (sum_of_nonneg (at_ d name) _ Hfl).
      rewrite at_accum, String.eqb_refl by done. rewrite wrap64_id by (unfold min_int64 in *; lia).
      repeat split; try lia. exact Hfl.
    + destruct (String.eqb_spec nm EmptyString) as [->|Hnm]; [by apply Hb|].
      rewrite at_accum by done. destruct (String.eqb_spec name nm); [done|]. by apply Hb.
  - intros Hr. destruct (Hb Hr) as (Ha & Hs & Hfl & E). rewrite sum_of_fresh by done.
    repeat split; [done|lia|lia| |rewrite at_empty; lia].
    intros g l. rewrite lookup_insert_Some. intros [[_ <-]|[_ Hg]]; eauto.
  - intros Hr. destruct (Hb Hr) as (Ha & Hs & Hfl & E). destruct (flush_takes d name _ f left nm Hf Hfl) as [H1 H2].
    rewrite H2. repeat split; try done; try lia. destruct (String.eqb_spec name nm) as [->|]; [|lia].
    rewrite (at_zero d _ _ _ Hl Hz). lia.
  - intros Hr. destruct (Hb Hr) as (Ha & Hs & Hfl & E). pose proof (Hfl _ _ Hf) as H0.
    destruct (flush_takes d name _ f left nm Hf Hfl) as [H1 H2]. unfold bump. rewrite H2.
    destruct (String.eqb_spec name nm) as [->|]; [rewrite (at_some d _ _ _ Hl) in *|]; repeat split; try done; lia.
  - intros Hr. destruct (Hb Hr) as (Ha & Hs & Hfl & E). pose proof (Hfl _ _ Hf) as H0.
    destruct (flush_takes d name _ f left nm Hf Hfl) as [H1 H2]. pose proof (flush_part d name _ f left Hf Hfl).
    rewrite H2. unfold bump. destruct (String.eqb_spec nm EmptyString) as [->|Hnm].
    { destruct (String.eqb_spec name EmptyString); [done|]. repeat split; try done; cbn in *; lia. }
    rewrite at_accum by done. destruct (String.eqb_spec name nm) as [->|]; [|repeat split; try done; lia].
    rewrite (at_some d _ _ _ Hl) in *. pose proof (sel_applied took e d H0).
    rewrite wrap64_id by (unfold min_int64 in *; lia). repeat split; try done; lia.
  - intros Hr. destruct (Hb Hr) as (Ha & Hs & Hfl & E). rewrite (sum_of_delete _ _ _ _ Hf).
    repeat split; [done|lia|lia| |rewrite at_empty; lia].
    intros g l [_ Hg]%lookup_delete_Some. eauto.
Qed.

(** C25. Traffic is conserved. In every interleaving of [Bytes] with any number of
    flushes, each of which takes the counts, writes them name by name and puts back
    those whose write failed, where a failed write may have applied either increment:
    for every tunnel and direction whose total fits an int64, what was saved, what waits
    for the next flush and what a flush holds add up to what was recorded plus what
    failed writes applied, and none of them is negative. *)
Theorem traffic_conserved s name d : run fstep fstart s → name ≠ EmptyString → f_recorded s name d ≤ max_int64 →
  f_saved s name d + at_ d name (f_agg s) + under_way s name d = f_recorded s name d + f_doubled s name d ∧
  0 ≤ f_doubled s name d ≤ f_saved s name d ∧ 0 ≤ at_ d name (f_agg s) ∧ 0 ≤ under_way s name d.
Proof.
  intros Hr Hname Hmax.
  assert (balanced s name d) as Hb.
  { apply (run_invariant fstep (λ s, balanced s name d)) with (s := fstart); [|exact Hr|].
    - intros s1 s2 H1 H2. by apply (fstep_balanced name d s1).
    - intros _. cbn. unfold under_way. cbn. rewrite at_empty. repeat split; try done. }
  destruct (Hb Hmax) as (Ha & Hs & Hfl & E). pose proof (sum_of_nonneg (at_ d name) _ Hfl). done.
Qed.

(** ** A flush in a row is a run *)
Section flush_run.
Context {W : Type} (AddTraffic : string → Z → Z → W → bool * W) (took : string → Z → Z → W → bool * bool).

(** What the calls of [save_all] add to the sink, and what of it those that report an error add. *)
Fixpoint added (drained : list (string * aggEntry)) (w : W) (g h : string → dir → Z) : (string → dir → Z) * (string → dir → Z) :=
  match drained with
  | [] => (g, h)
  | (name, e) :: rest =>
      if is_zero e then added rest w g h
      else
        let a := applied (took name (bytesIn e) (bytesOut e) w) e in
        let '(ok, w) := AddTraffic name (bytesIn e) (bytesOut e) w in
        if ok then added rest w (bump name e g) h else added rest w (bump name a g) (bump name a h)
  end.

Lemma left_after name e (rest : list (string * aggEntry)) (fl : gmap nat (gmap string aggEntry)) f : name ∉ rest.*1 →
  <[f := delete name (<[name := e]> (list_to_map rest))]> (<[f := <[name := e]> (list_to_map rest)]> fl)
  = <[f := list_to_map rest]> fl.
Proof.
  intros Hfresh. rewrite insert_insert_eq, delete_insert_eq, delete_id; [done|]. by apply not_elem_of_list_to_map_1.
Qed.

Lemma save_all_run drained p w fl f saved doubled recorded : NoDup drained.*1 →
  run fstep (FState (agg p) (<[f := list_to_map drained]> fl) saved doubled recorded)
            (FState (agg (save_all AddTraffic drained p w).1) (<[f := ∅]> fl)
                    (added drained w saved doubled).1 (added drained w saved doubled).2 recorded).
Proof.
  revert p w saved doubled. induction drained as [|[name e] rest IH]; intros p w saved doubled Hnd; cbn; [apply run_refl|].
  inversion Hnd as [|? ? Hfresh Hrest]; subst. pose proof (left_after name e rest fl f Hfresh) as El.
  set (s0 := FState _ _ _ _ _).
  assert (f_flushes s0 !! f = Some (<[name := e]> (list_to_map rest))) as Hf by apply lookup_insert_eq.
  assert (<[name := e]> (list_to_map rest : gmap string aggEntry) !! name = Some e) as Hn by apply lookup_insert_eq.
  destruct (is_zero e) eqn:Ez; [|destruct (AddTraffic name (bytesIn e) (bytesOut e) w) as [[] w'] eqn:Ea].
  - eapply run_step; [exact (fs_skip s0 f _ name e Hf Hn Ez)|]. cbn. rewrite El. by apply IH.
  - eapply run_step; [exact (fs_saved s0 f _ name e Hf Hn Ez)|]. cbn. rewrite El. by apply IH.
  - eapply run_step; [exact (fs_failed s0 f _ name e (took name (bytesIn e) (bytesOut e) w) Hf Hn Ez)|]. cbn. rewrite El.
    by apply (IH (logged [NotSaved name] (accum name e p))).
Qed.

(** The flush of the code, started while no flush runs, is a run of the steps. *)
Lemma flush_run p w saved doubled recorded :
  run fstep (FState (agg p) ∅ saved doubled recorded)
            (FState (agg (flush AddTraffic p w).1) ∅ (added (map_to_list (agg p)) w saved doubled).1
                    (added (map_to_list (agg p)) w saved doubled).2 recorded).
Proof.
  eapply run_step; [apply (fs_begin _ 0%nat); apply lookup_empty|]. cbn.
  eapply run_trans.
  - rewrite <- (list_to_map_to_list (agg p)) at 1.
    apply (save_all_run _ (MkRecorder (m p) (caplog p) ∅ (log p)) w). apply NoDup_fst_map_to_list.
  - apply run_one. unfold flush. rewrite <- (delete_insert_id ∅ 0%nat ∅) at 2 by apply lookup_empty.
    apply (fs_end (FState _ _ _ _ _) 0%nat). apply lookup_insert_eq.
Qed.

(** A sink that accepts every call empties the counters. *)
Lemma flush_empties p w : (∀ name i o w, (AddTraffic name i o w).1 = true) →
  agg (flush AddTraffic p w).1 = ∅.
Proof.
  intros Hok. unfold flush. set (p0 := MkRecorder _ _ _ _). assert (agg p0 = ∅) as E by done. clearbody p0.
  revert p0 w E. generalize (map_to_list (agg p)). intros l.
  induction l as [|[name e] rest IH]; intros p0 w E; cbn; [done|].
  destruct (is_zero e); [by apply IH|]. specialize (Hok name (bytesIn e) (bytesOut e) w).
  destruct (AddTraffic _ _ _ _) as [ok w']; cbn in *. subst. by apply IH.
Qed.
End flush_run.

(** ** Rejections *)
Definition counted (reason : string) (us : list mupd) : nat := length (filter (λ u, u = Inc rejections [reason]) us).

Record rejection := MkRejection { rj_now : Z; rj_reason : string; rj_tunnel : string; rj_ip : string }.
Definition rejects (rs : list rejection) (p : PromRecorder) : PromRecorder :=
  fold_left (λ p r, Reject (rj_now r) (rj_reason r) (rj_tunnel r) (rj_ip r) p) rs p.

Lemma Reject_metrics now reason tunnel ip p :
  m (Reject now reason tunnel ip p) =
  m p ++ (if bool_decide (reason ∈ RejectReasons) then [Inc rejections [reason]] else []).
Proof.
  unfold Reject. destruct (bool_decide _); cbn; [|by rewrite app_nil_r].
  destruct (String.eqb _ _); [done|]. unfold hit. by destruct (Caplog.Hit _ _ _ _ _ _).
Qed.

(** A known reason is counted once per rejection; any other is counted nowhere. *)
Lemma rejections_counted_exactly reason rs p :
  counted reason (m (rejects rs p)) =
  (counted reason (m p) +
   if bool_decide (reason ∈ RejectReasons) then length (filter (λ r, rj_reason r = reason) rs) else 0)%nat.
Proof.
  revert p. induction rs as [|r rs IH]; intros p; [cbn; destruct (bool_decide _); lia|].
  unfold rejects in *. cbn [fold_left]. rewrite IH, Reject_metrics. unfold counted. rewrite filter_app, length_app, filter_cons.
  destruct (decide (rj_reason r = reason)) as [<-|Hne].
  - destruct (bool_decide (rj_reason r ∈ RejectReasons)); [|simpl; lia].
    rewrite (filter_cons_True _ (Inc rejections [rj_reason r]) []) by done. simpl. lia.
  - assert (filter (λ u, u = Inc rejections [reason])
              (if bool_decide (rj_reason r ∈ RejectReasons) then [Inc rejections [rj_reason r]] else []) = []) as ->.
    { destruct (bool_decide (rj_reason r ∈ RejectReasons)); [|reflexivity]. rewrite filter_cons_False; [reflexivity|congruence]. }
    simpl. destruct (bool_decide (reason ∈ RejectReasons)); lia.
Qed.

(** Names of connections without a route, which the client chooses, never reach
    the deduplicating log's table. *)
Lemma no_route_not_tracked now tunnel ip p : caplog (Reject now "no-route" tunnel ip p) = caplog p.
Proof. done. Qed.

(** A flush of the counters leaves the metrics and the pending summaries alone. *)
Lemma flush_keeps {W} (AddTraffic : string → Z → Z → W → bool * W) p w :
  m (flush AddTraffic p w).1 = m p ∧ caplog (flush AddTraffic p w).1 = caplog p.
Proof.
  unfold flush. set (p0 := MkRecorder _ _ _ _). assert (m p0 = m p ∧ caplog p0 = caplog p) as E by done. clearbody p0.
  revert p0 w E. generalize (map_to_list (agg p)). intros l.
  induction l as [|[name e] rest IH]; intros p0 w E; cbn; [done|].
  destruct (is_zero e); [by apply IH|]. destruct (AddTraffic _ _ _ _) as [[] w']; by apply IH.
Qed.

(** ** Budgets missing from a scrape *)
Definition acmeBudgetWarnEvery : Z := minute.
Record acmeBudgetSource := Source { warned : option Z; suppressed : Z }.   (* [None]: the zero time *)
Inductive bline := Missing (suppressed_since_last_report : Z) | MoreMissing (count : Z).

Definition recently (now : Z) (s : acmeBudgetSource) : bool :=
  match warned s with None => false | Some t => now - t <? acmeBudgetWarnEvery end.
Definition warn (now : Z) (s : acmeBudgetSource) : acmeBudgetSource * list bline :=
  if recently now s then (Source (warned s) (suppressed s + 1), [])
  else (Source (Some now) 0, [Missing (suppressed s)]).
Definition reportSuppressed (now : Z) (s : acmeBudgetSource) : acmeBudgetSource * list bline :=
  if (suppressed s =? 0) || recently now s then (s, [])
  else (Source (Some now) 0, [MoreMissing (suppressed s)]).

(** A scrape: the levels, or an error; [bad] levels cannot be sent. *)
Fixpoint send_levels {L} (valid : L → bool) (now : Z) (ls : list L) (s : acmeBudgetSource)
    : list L * acmeBudgetSource * list bline :=
  match ls with
  | [] => ([], s, [])
  | l :: ls =>
      if valid l then
        let '(sent, s, out) := send_levels valid now ls s in (l :: sent, s, out)
      else
        let '(s, o1) := warn now s in
        let '(sent, s, o2) := send_levels valid now ls s in (sent, s, o1 ++ o2)
  end.
Definition Collect {L} (valid : L → bool) (now : Z) (levels : option (list L)) (s : acmeBudgetSource)
    : list L * acmeBudgetSource * list bline :=
  match levels with
  | None => let '(s, out) := warn now s in ([], s, out)
  | Some ls =>
      let '(s, o1) := reportSuppressed now s in
      let '(sent, s, o2) := send_levels valid now ls s in (sent, s, o1 ++ o2)
  end.

Definition bline_count (l : bline) : Z := match l with Missing n => n + 1 | MoreMissing n => n end.
Definition told (ls : list bline) : Z := foldr Z.add 0 (map bline_count ls).
Lemma told_app a b : told (a ++ b) = told a + told b.
Proof. induction a; cbn; [done|]. unfold told in *. lia. Qed.

Definition failures {L} (valid : L → bool) (levels : option (list L)) : Z :=
  match levels with None => 1 | Some ls => Z.of_nat (length (List.filter (λ l, negb (valid l)) ls)) end.

Lemma warn_told now s : let '(s', out) := warn now s in told out + suppressed s' = suppressed s + 1.
Proof. unfold warn. destruct (recently now s); cbn; lia. Qed.

Lemma send_levels_told {L} (valid : L → bool) now ls s :
  let '(sent, s', out) := send_levels valid now ls s in
  sent = List.filter valid ls ∧ told out + suppressed s' = suppressed s + failures valid (Some ls).
Proof.
  revert s. induction ls as [|l ls IH]; intros s; cbn; [split; [done|lia]|].
  destruct (valid l); cbn.
  - specialize (IH s). destruct (send_levels valid now ls s) as [[sent s'] out]. destruct IH as [-> IH]. done.
  - pose proof (warn_told now s) as Hw. destruct (warn now s) as [s1 o1]. specialize (IH s1).
    destruct (send_levels valid now ls s1) as [[sent s'] out]. destruct IH as [-> IH]. split; [done|].
    rewrite told_app. cbn in IH. lia.
Qed.

(** Every failure of a scrape is in a line of the log, at once or as a count
    still to be reported, and the levels that can be sent are sent. *)
Lemma Collect_told {L} (valid : L → bool) now levels s :
  let '(sent, s', out) := Collect valid now levels s in
  sent = match levels with None => [] | Some ls => List.filter valid ls end ∧
  told out + suppressed s' = suppressed s + failures valid levels.
Proof.
  unfold Collect. destruct levels as [ls|].
  - assert (let '(s', out) := reportSuppressed now s in told out + suppressed s' = suppressed s) as Hr.
    { unfold reportSuppressed. destruct (_ || _); cbn; lia. }
    destruct (reportSuppressed now s) as [s1 o1]. pose proof (send_levels_told valid now ls s1) as Hs.
    destruct (send_levels valid now ls s1) as [[sent s2] o2]. destruct Hs as [-> Hs]. split; [done|]. rewrite told_app. lia.
  - pose proof (warn_told now s). destruct (warn now s). by split.
Qed.

(** ** Example: a failing and a working save around more traffic *)
Definition sample_sink (name : string) (i o : Z) (w : list bool * Z) : bool * (list bool * Z) :=
  match w.1 with
  | false :: rest => (false, (rest, w.2))
  | _ => (true, (tl w.1, w.2 + i + o))
  end.
Definition sample_recorder : PromRecorder :=
  Bytes "abc" "out" 5 (Bytes "abc" "in" 7 (NewPromRecorder {| Caplog.window := minute; Caplog.states := ∅ |})).

Example sample_failed_save_kept :
  let '(p1, w1) := flush sample_sink sample_recorder ([false], 0) in
  let '(p2, w2) := flush sample_sink (Bytes "abc" "in" 1 p1) w1 in
  agg p1 !! "abc" = Some (Agg 7 5) ∧ agg p2 = ∅ ∧ w2.2 = 13.
Proof. vm_compute. repeat split. Qed.

(** Seven bytes in, five out; the first flush fails after the increment of the bytes
    in was applied, three more bytes come, the second flush succeeds: the ten bytes
    in are counted as seventeen. *)
Definition after_bytes : fstate :=
  FState (agg sample_recorder) ∅ (λ _ _, 0) (λ _ _, 0) (bump "abc" (delta "out" 5) (bump "abc" (delta "in" 7) (λ _ _, 0))).
Lemma after_bytes_run : run fstep fstart after_bytes.
Proof.
  eapply run_step; [apply (fs_bytes fstart "abc" "in" 7); lia|]. apply run_one.
  apply (fs_bytes (FState (accum_map "abc" (delta "in" 7) ∅) ∅ _ _ _) "abc" "out" 5). lia.
Qed.

Definition half (name : string) (i o : Z) (w : list bool * Z) : bool * bool := (true, false).
Definition flushed_twice : fstate :=
  let '(p1, w1) := flush sample_sink sample_recorder ([false], 0) in
  let '(s1, d1) := added sample_sink half (map_to_list (agg sample_recorder)) ([false], 0) (λ _ _, 0) (λ _ _, 0) in
  let p2 := Bytes "abc" "in" 3 p1 in
  let '(s2, d2) := added sample_sink half (map_to_list (agg p2)) w1 s1 d1 in
  FState (agg (flush sample_sink p2 w1).1) ∅ s2 d2 (bump "abc" (delta "in" 3) (f_recorded after_bytes)).
Lemma flushed_twice_run : run fstep fstart flushed_twice.
Proof.
  eapply run_trans; [exact after_bytes_run|].
  eapply run_trans; [exact (flush_run sample_sink half sample_recorder ([false], 0) (λ _ _, 0) (λ _ _, 0) _)|].
  eapply run_step; [apply (fs_bytes (FState _ _ _ _ _) "abc" "in" 3); lia|].
  exact (flush_run sample_sink half (Bytes "abc" "in" 3 (flush sample_sink sample_recorder ([false], 0)).1)
    (flush sample_sink sample_recorder ([false], 0)).2 _ _ _).
Qed.

Lemma traffic_conserved_witness :
  let s := flushed_twice in
  (f_saved s "abc" In_ = 17 ∧ f_doubled s "abc" In_ = 7 ∧ f_recorded s "abc" In_ = 10) ∧
  (f_saved s "abc" Out_ = 5 ∧ f_doubled s "abc" Out_ = 0 ∧ f_recorded s "abc" Out_ = 5) ∧
  f_saved s "abc" In_ + at_ In_ "abc" (f_agg s) + under_way s "abc" In_ = f_recorded s "abc" In_ + f_doubled s "abc" In_.
Proof.
  split; [vm_compute; repeat split|]. split; [vm_compute; repeat split|].
  apply (traffic_conserved flushed_twice "abc" In_ flushed_twice_run); [discriminate|vm_compute; discriminate].
Defined.
End Recorder.
