(* ===== verification/Labels.v ===== *)
(** * What the components tell the recorder

    [Recorder.Reject] counts only the reasons of [observ.RejectReasons], and
    the metric families are created with one series per known label.  Here the
    handlers of the edge, the plain port and the enrollment service are shown to
    report nothing else, and a name chosen by a client to reach the
    deduplicating log only once it has a route. *)
From Stdlib Require Import ZArith Lia Ascii String.
From S2P Require Import Prelude GoStr Valkey Limiter Edge Bridge Attest Enroll GoFloat EnrollHTTP PlainHTTP Challenges Recorder.
Local Open Scope string_scope.
Local Open Scope list_scope.
Local Open Scope Z_scope.

Module Labels.
Import Recorder.

Definition known (reason : string) : Prop := reason ∈ RejectReasons.

Ltac known := unfold known, RejectReasons, AttestResults, EnrollResults; set_solver.

(** ** The edge *)
Lemma edge_reasons `{UnicodeCase} sha ParseAddr ban {B} `{StreamLimiter B} cfg remote input clients (b : B) r t ip :
  Edge.Reject r t ip ∈ (Edge.handleConn sha ParseAddr ban cfg remote input clients b).1.1 → known r.
Proof.
  unfold Edge.handleConn. destruct (ParseAddr _); [|set_solver].
  destruct (Edge.banned _ _); cbn; [known|]. destruct (Edge.connRate _ _ _) as [[] b1]; cbn; [|known].
  destruct (Edge.edge_admit _ _) as [[] c1]; cbn; [|known].
  destruct (Edge.peekClientHello _ _) as [[info pc]|]; cbn; [|known].
  repeat (case_match; cbn; [set_solver|]). set_solver.
Qed.

(** ** Tunnel connections *)
Section tunnels.
Context `{UnicodeCase} {B : Type} `{!StreamLimiter B} `{!Bridge.EdgeDeps B} (cfg : Edge.Config).
Import Bridge.

(** A rejection of [handleTunnel]: the reason is known, and unless it is
    ["no-route"] the name is the tunnel's and the router had a route for it. *)
Definition fair_rejection (sni reason tunnel : string) : Prop :=
  known reason ∧
  (reason ≠ "no-route" →
   Edge.tunnelName cfg sni = Some tunnel ∧ ∃ b node cid, (ed_LookupRoute tunnel b).1 = Ok (node, cid, true)).

Definition rejects_fairly {A} (sni : string) (c : T B A) : Prop :=
  ∀ st, ∃ tr, t_trace (c st).2 = t_trace st ++ tr ∧
    ∀ r n, ERejected r n ∈ tr → fair_rejection sni r n.

Lemma fair_inner {A} sni (c : T B A) : inner_only c → rejects_fairly sni c.
Proof.
  intros Hc st. destruct (Hc st) as (tr & E & F). exists tr. split; [done|]. intros r n Hin.
  apply forallb_forall with (x := ERejected r n) in F; [done|]. by apply list_elem_of_In.
Qed.

Lemma fair_bind {A C} sni (c : T B A) (k : A → T B C) :
  rejects_fairly sni c → (∀ a, rejects_fairly sni (k a)) → rejects_fairly sni (tbind c k).
Proof.
  intros Hc Hk st. unfold tbind. destruct (Hc st) as (t1 & E1 & F1). destruct (c st) as [a st1]. simpl in E1.
  destruct (Hk a st1) as (t2 & E2 & F2). exists (t1 ++ t2). rewrite E2, E1, app_assoc. split; [done|].
  intros r n [Hin|Hin]%elem_of_app; auto.
Qed.

Lemma fair_dep {A C} sni (f : B → A * B) (k : A → T B C) :
  (∀ a b, (f b).1 = a → rejects_fairly sni (k a)) → rejects_fairly sni (tbind (dep f) k).
Proof.
  intros Hk st. unfold tbind, dep. destruct (f (t_b st)) as [a b] eqn:E.
  destruct (Hk a (t_b st) ltac:(by rewrite E) (TSt b (t_streams st) (t_next st) (t_trace st))) as (tr & E2 & F2). by exists tr.
Qed.

Lemma fair_refuse sni reason n : fair_rejection sni reason n → rejects_fairly sni (refuse reason n).
Proof.
  intros Hf st. exists [ERejected reason n; ECloseClient]. unfold refuse, tbind, emit. simpl.
  rewrite <- app_assoc. split; [done|]. intros r m. rewrite !elem_of_cons. intros [[= -> ->]|[[=]|[]%elem_of_nil]]. done.
Qed.

Lemma fair_refused sni reason n (k : T B (option string)) :
  fair_rejection sni reason n → inner_only k → rejects_fairly sni (tbind (refuse reason n) (λ _, k)).
Proof. intros Hf Hk. apply fair_bind; [by apply fair_refuse|]. intros _. by apply fair_inner. Qed.

Lemma no_route_fair sni n : fair_rejection sni "no-route" n.
Proof. split; [known|done]. Qed.

Lemma outer_rejected r n tr : ERejected r n ∈ tr → ERejected r n ∈ outer tr.
Proof. intros Hin. unfold outer. apply list_elem_of_In, filter_In. by rewrite <- list_elem_of_In. Qed.

Lemma handleTunnel_rejects_fairly sni addr sched : rejects_fairly sni (handleTunnel cfg sni addr sched).
Proof.
  assert (∀ n, rejects_fairly sni (let! _ := refuse "no-route" n in tret (None : option string))) as Hno
    by (intros; apply fair_refused; [apply no_route_fair|apply inner_ret]).
  unfold handleTunnel. destruct (Edge.tunnelName cfg sni) as [name|] eqn:Hname; [|apply Hno].
  apply fair_dep. intros ready _ _. destruct ready; cbn; [|apply Hno].
  apply fair_dep. intros route b Hroute. destruct route as [[[node cid] []]|]; [|apply Hno..].
  assert (∀ reason, known reason → fair_rejection sni reason name) as Hfair.
  { intros reason Hk. split; [done|]. intros _. split; [done|]. by exists b, node, cid. }
  apply fair_dep. intros quota _ _. destruct (quota_reason quota) as [reason|] eqn:Hq.
  { apply fair_refused; [apply Hfair|apply inner_ret]. unfold quota_reason in Hq.
    destruct quota as [[dayOver weekOver]|]; [|done]. destruct (_ || _); [|done]. destruct weekOver; simplify_eq; known. }
  apply fair_dep. intros token _ _. apply fair_dep. intros acq _ _.
  apply fair_bind; [apply fair_inner; destruct acq as [[]|]; auto using inner_ret, inner_evictAndAcquire|].
  intros []; cbn; [|apply fair_refused; [apply Hfair; known|apply inner_ret]].
  apply fair_bind; [apply fair_inner, inner_open|]. intros [[via on]|].
  - intros st. pose proof (run_stream_trace cfg name token via on sched st) as Ht.
    destruct (run_stream cfg name token via on sched st) as [r st2]. destruct Ht as (tr & conn & Htr & Hr).
    exists tr. split; [done|]. intros r' n Hin%outer_rejected. exfalso. destruct r as [reason|].
    + destruct Hr as (_ & _ & bi & bo & Hs). rewrite Hs in Hin. unfold served in Hin. set_solver.
    + rewrite Hr in Hin. set_solver.
  - apply fair_refused; [apply no_route_fair|]. apply inner_bind; [apply inner_do_release|]. intros; apply inner_ret.
Qed.
End tunnels.

(** ** The plain port *)
Lemma plain_port_reasons cfg ParseAddr ban s i c :
  run (PlainHTTP.gstep cfg ParseAddr ban) PlainHTTP.gstart s → PlainHTTP.g_conns s !! i = Some c →
  Forall known (PlainHTTP.g_rejects c).
Proof.
  intros Hr. revert i c. apply (run_invariant (PlainHTTP.gstep cfg ParseAddr ban)
    (λ s, ∀ i c, PlainHTTP.g_conns s !! i = Some c → Forall known (PlainHTTP.g_rejects c))) with (s := PlainHTTP.gstart);
    [|exact Hr|intros i c; cbn; by rewrite lookup_empty].
  clear s Hr. intros s s' IH Hs. destruct Hs; try exact IH;
    intros j c'; cbn; rewrite lookup_insert_Some; intros [[_ <-]|[_ Hj]]; try (by eapply IH);
    cbn; rewrite ?app_nil_r; try (by eapply IH).
  - constructor.
  - unfold PlainHTTP.check_early in *. repeat case_match; simplify_eq/=; rewrite ?app_nil_r; try (by eapply IH);
      (apply Forall_app; split; [by eapply IH|]); repeat constructor; known.
  - apply Forall_app; split; [by eapply IH|]. repeat constructor; known.
Qed.

(** The handler behind the listener, with the [onMiss] the server gives it: the reason
    and the address of each report. *)
Definition plain_handler_reports `{UnicodeCase} {S} `{Valkey.ValkeyServer S} (r : Challenges.request) (w : Valkey.world S)
    : list (string * string) :=
  map (λ ip, ("acme-http-miss", ip)) (Challenges.HTTPChallengeHandler r w).1.2.

Lemma plain_handler_reasons `{UnicodeCase} {S} `{Valkey.ValkeyServer S} r (w : Valkey.world S) reason ip :
  (reason, ip) ∈ plain_handler_reports r w → known reason ∧ ip = Challenges.clientHost (Challenges.r_RemoteAddr r).
Proof.
  unfold plain_handler_reports. intros (ip' & [= -> ->] & Hin)%list_elem_of_fmap. split; [known|]. revert Hin.
  unfold Challenges.HTTPChallengeHandler. destruct (Challenges.CutPrefix _ _) as [token c]. case_match; cbn; [set_solver|].
  unfold Valkey.bind. destruct (Challenges.HTTPKeyAuth _ _ w) as [[[k|]|e] w']; cbn; set_solver.
Qed.

(** ** The enrollment service *)
Section enrollment.
Import Limiter Enroll.
Context {S N K : Type} `{ValkeyServer S} `{TokenSupply} `{NameStore N}.

Definition label_ok (e : event) : Prop :=
  match e with
  | ERejected reason _ _ => known reason
  | EEvidence _ _ => True
  | EAttest verdict => verdict ∈ AttestResults
  | ERenew ca verdict => (ca = ACMERenewAllCAs ∧ verdict = "fail") ∨ verdict = "ok"
  end.

(** [tells Q c]: the events [c] adds carry known labels, and its value is in [Q]. *)
Definition tells {A} (Q : A → Prop) (c : E S N A) : Prop :=
  ∀ st, Q (c st).1 ∧ ∃ tr, e_trace (c st).2 = e_trace st ++ tr ∧ Forall label_ok tr.

Lemma tells_ret {A} (Q : A → Prop) a : Q a → tells Q (eret a).
Proof. intros Ha st. split; [done|]. exists []. by rewrite app_nil_r. Qed.
Lemma tells_bind {A C} (Q : A → Prop) (R : C → Prop) (c : E S N A) k :
  tells Q c → (∀ a, Q a → tells R (k a)) → tells R (ebind c k).
Proof.
  intros Hc Hk st. unfold ebind. destruct (Hc st) as (Ha & t1 & E1 & F1). destruct (c st) as [a st1]. simpl in *.
  destruct (Hk a Ha st1) as (Hr & t2 & E2 & F2). split; [done|]. exists (t1 ++ t2).
  rewrite E2, E1, app_assoc. split; [done|]. by apply Forall_app.
Qed.
Lemma tells_valkey {A} (c : M S A) : tells (λ _, True) (valkey c).
Proof. intros st. unfold valkey. destruct (c (e_w st)). split; [done|]. exists []. by rewrite app_nil_r. Qed.
Lemma tells_names {A} (f : N → A * N) : tells (λ _, True) (names f).
Proof. intros st. unfold names. destruct (f (e_names st)). split; [done|]. exists []. by rewrite app_nil_r. Qed.
Lemma tells_report e : label_ok e → tells (λ _, True) (report e).
Proof. intros He st. split; [done|]. exists [e]. split; [done|]. by constructor. Qed.

Definition any {A} : A → Prop := λ _, True.
Definition reason_known (e : option Error) : Prop := match e with Some e => Reason e ∈ EnrollResults | None => True end.
Definition result_known {A} (r : result Error A) : Prop := match r with Err e => Reason e ∈ EnrollResults | Ok _ => True end.

Ltac tell_step :=
  match goal with
  | |- tells _ (eret _) => apply tells_ret
  | |- tells _ (ebind (valkey _) _) => eapply tells_bind; [apply tells_valkey|intros ? _]
  | |- tells _ (ebind (names _) _) => eapply tells_bind; [apply tells_names|intros ? _]
  | |- tells _ (ebind (report _) _) => eapply tells_bind; [apply tells_report|intros ? _]
  | |- tells _ (report _) => apply tells_report
  | |- tells _ (match ?x with _ => _ end) => destruct x
  | |- label_ok _ => cbn; known
  end.
Ltac tell := repeat tell_step.

Context (cfg : Config) (ParseAddr : string → option string).
Context (verify : list (Attest.Certificate K) → bytes → Z → result Attest.attest_error (Attest.Result K)).
Context (key_equal : K → K → bool) (isECDSAP256 : K → bool) (keyFingerprint : K → string).
Context (sign : CSR K → string → result sign_error string).

Lemma attestReason_known e : known (attestReason e) ∧ attestReason e ∈ AttestResults.
Proof. destruct e; split; cbn; known. Qed.

Lemma enrollLimit_tells ip : tells reason_known (enrollLimit (S := S) (N := N) cfg ParseAddr ip).
Proof. unfold enrollLimit. tell; try done; cbn; known. Qed.
Lemma enrollLimitCheck_tells ip : tells reason_known (enrollLimitCheck (S := S) (N := N) cfg ParseAddr ip).
Proof. unfold enrollLimitCheck. tell; try done; cbn; known. Qed.

Lemma recordRejection_tells ip name reason : known reason → tells any (recordRejection (S := S) (N := N) ip name reason).
Proof. intros. unfold recordRejection. tell; done. Qed.

Lemma rejected_tells {A} (Q : A → Prop) ip name reason a : known reason → Q a →
  tells Q (let+ _ := recordRejection (S := S) (N := N) ip name reason in eret a).
Proof. intros. eapply tells_bind; [by apply recordRejection_tells|]. intros ? _. by apply tells_ret. Qed.

Lemma attest_tells ip name req :
  tells result_known (attestAndBind (S := S) (N := N) cfg verify key_equal ip name req).
Proof.
  unfold attestAndBind. tell_step. eapply (tells_bind result_known).
  - case_match; [by tell|]. destruct (verify _ _ _) as [r|e]; [tell; try done|].
    destruct (attestReason_known e). eapply tells_bind; [by apply tells_report|]. intros ? _.
    apply rejected_tells; [done|]. cbn. known.
  - intros [att|e] Hatt; [|by tell]. cbn.
    destruct (csr_signed _); cbn; [|apply rejected_tells; [known|cbn; known]].
    case_match; [apply rejected_tells; [known|cbn; known]|]. by tell.
Qed.

Lemma claimName_tells gen rec : tells any (claimName (S := S) (N := N) cfg gen rec).
Proof.
  unfold claimName. generalize claimAttempts at 1. intros n. induction n as [|n IH]; cbn [claimName_loop]; [by tell|].
  destruct (gen _); [|by tell]. eapply (tells_bind any); [unfold claimCandidate; by tell|]. intros [[] er] _; [by tell|]. exact IH.
Qed.

Lemma signError_known e : Reason (signError e) ∈ EnrollResults.
Proof. destruct e; cbn; known. Qed.

Lemma Enroll_tells ip gen req :
  tells result_known (Enroll (S := S) (N := N) cfg ParseAddr verify key_equal keyFingerprint sign ip gen req).
Proof.
  unfold Enroll. eapply tells_bind; [apply enrollLimit_tells|]. intros [e|] He; [by tell|]. tell_step.
  destruct a as [[]|]; [|by tell; cbn; known..].
  eapply tells_bind; [apply attest_tells|]. intros [att|e] Hatt; [|by tell].
  eapply tells_bind; [apply claimName_tells|]. intros [name|] _; [|by tell; cbn; known].
  destruct (sign _ _) as [pem|e]; [by tell|]. tell. cbn. apply signError_known.
Qed.

Context (obtain : CSR K → string → order) (renew : CSR K → string → CertInfo → order).

Lemma recordCert_tells name cur req info dev :
  tells any (recordCert (S := S) (N := N) keyFingerprint name cur req info dev).
Proof. unfold recordCert. by tell. Qed.

Lemma issue_locked_tells name ip orderID cur att req :
  tells any (issue_locked (S := S) (N := N) keyFingerprint sign obtain renew name ip orderID cur att req).
Proof.
  unfold issue_locked. destruct (sign _ _); [|by tell]. tell_step. destruct (o_result _) as [[chain info]|e].
  - eapply (tells_bind any); [case_match; by tell|]. intros _ _. do 2 tell_step.
    eapply (tells_bind any); [case_match; [by tell|apply recordCert_tells]|]. intros _ _. by tell.
  - destruct (o_crashed _); [by tell|]. tell_step; [tell_step|].
    eapply (tells_bind any); [case_match; by tell|]. intros _ _. by tell.
Qed.

Lemma Issue_tells name ip req :
  tells any (Issue (S := S) (N := N) cfg verify key_equal isECDSAP256 keyFingerprint sign obtain renew name ip req).
Proof.
  unfold Issue. tell_step. destruct a as [[]|]; [|by tell..].
  eapply tells_bind; [apply attest_tells|]. intros [att|e] _; [|by tell].
  do 3 (case_match; [apply rejected_tells; [known|done]|]).
  tell_step. destruct a as [cur|[]]; [|by tell..]. tell_step.
  destruct a as [[[[] orderID] retry]|[]]; [|by tell..].
  eapply tells_bind; [apply issue_locked_tells|]. intros res _. by tell.
Qed.

(** ** The enrollment handlers *)
Import GoFloat EnrollHTTP.
Context `{FloatLib} (Unmarshal : bytes → option enrollRequestBody).
Context (pem_Decode : bytes → option (bytes * bytes)) (ParseCertificate : bytes → option (Attest.Certificate K)).
Context (ParseCertificateRequest : bytes → option (CSR K)).
Context (ban : option (string → bool)) (maxBody : nat) (life : lifecycle).

Definition metric_ok (m : metric) : Prop :=
  match m with MReject reason _ _ => known reason | MEnrollment result_ => result_ ∈ EnrollResults end.
Definition answer_ok (r : response) : Prop := Forall metric_ok (rs_metrics r).

Lemma writeErr_ok e status : Reason e ∈ EnrollResults →
  answer_ok (with_metrics (writeErr e status) [MEnrollment (Reason e)]).
Proof. intros He. constructor; [done|]. constructor. Qed.

Lemma handleEnroll_tells fresh gen body ip :
  tells answer_ok (handleEnroll (S := S) (N := N) cfg ParseAddr verify key_equal keyFingerprint sign
    Unmarshal pem_Decode ParseCertificate ParseCertificateRequest maxBody fresh gen body ip).
Proof.
  unfold handleEnroll. destruct (parse_enroll _ _ _ _ _ _) as [req|reason]; [|tell; constructor].
  eapply tells_bind; [apply enrollLimitCheck_tells|]. intros [e|] He.
  { tell. by apply writeErr_ok. }
  tell_step. destruct a as [nonce|]; [|tell; repeat constructor; cbn; known].
  eapply tells_bind; [apply Enroll_tells|]. intros [res|e] Hr; tell; [|by apply writeErr_ok].
  repeat constructor; cbn; known.
Qed.

Lemma handler_tells fresh gen r :
  tells answer_ok (ServeHTTP (S := S) (N := N) cfg ParseAddr verify key_equal keyFingerprint sign
    Unmarshal pem_Decode ParseCertificate ParseCertificateRequest ban maxBody life fresh gen r).
Proof.
  unfold ServeHTTP, refuseDraining, handleHealth. destruct (ParseAddr _); [|tell; constructor].
  case_match; [tell; repeat constructor; cbn; known|].
  case_match; [destruct (Stopping life); tell; constructor|].
  case_match; [destruct (Draining life); cbn [negb]; [tell; constructor|]|].
  { unfold handleNonce. eapply tells_bind; [apply enrollLimit_tells|]. intros [e|] _; [tell; constructor|].
    tell. case_match; constructor. }
  case_match; [destruct (Draining life); cbn [negb]; [tell; constructor|apply handleEnroll_tells]|]. tell; constructor.
Qed.
End enrollment.

(** ** No report is dropped *)

(** C26. The components and the recorder agree on labels. For every connection, tunnel,
    plain HTTP run, request to the challenge handler and enrollment request, whatever
    the environment answers: each rejection is reported with one of [RejectReasons], a
    tunnel is named only as the report allows, and each enrollment and attestation
    result is one of [EnrollResults] and [AttestResults], so that no report is refused
    as a bug and no series outside the pre-registered ones appears. *)
Theorem reports_carry_known_labels
    `{UnicodeCase} sha ParseAddr ban {B} `{!StreamLimiter B} `{!Bridge.EdgeDeps B} (cfg : Edge.Config)
    {S N K} `{Valkey.ValkeyServer S} `{ValkeyClient.TokenSupply} `{Enroll.NameStore N} `{GoFloat.FloatLib}
    ecfg verify key_equal isECDSAP256 keyFingerprint sign obtain renew
    Unmarshal pem_Decode ParseCertificate ParseCertificateRequest eban maxBody life :
  (∀ remote input clients (b : B) r t ip,
     Edge.Reject r t ip ∈ (Edge.handleConn sha ParseAddr ban cfg remote input clients b).1.1 → known r) ∧
  (∀ sni addr sched (st : Bridge.tst B), ∃ tr,
     Bridge.t_trace (Bridge.handleTunnel cfg sni addr sched st).2 = Bridge.t_trace st ++ tr ∧
     ∀ r n, Bridge.ERejected r n ∈ tr → fair_rejection cfg sni r n) ∧
  (∀ pban s i c, run (PlainHTTP.gstep cfg ParseAddr pban) PlainHTTP.gstart s →
     PlainHTTP.g_conns s !! i = Some c → Forall known (PlainHTTP.g_rejects c)) ∧
  (∀ r (w : Valkey.world S) reason ip, (reason, ip) ∈ plain_handler_reports r w →
     known reason ∧ ip = Challenges.clientHost (Challenges.r_RemoteAddr r)) ∧
  (∀ fresh gen r (st : Enroll.est S N),
     let '(ans, st') := EnrollHTTP.ServeHTTP (K := K) ecfg ParseAddr verify key_equal keyFingerprint sign
       Unmarshal pem_Decode ParseCertificate ParseCertificateRequest eban maxBody life fresh gen r st in
     answer_ok ans ∧ ∃ tr, Enroll.e_trace st' = Enroll.e_trace st ++ tr ∧ Forall label_ok tr) ∧
  (∀ name ip req (st : Enroll.est S N), ∃ tr,
     Enroll.e_trace (Enroll.Issue (K := K) ecfg verify key_equal isECDSAP256 keyFingerprint sign obtain renew name ip req st).2 =
     Enroll.e_trace st ++ tr ∧ Forall label_ok tr).
Proof.
  split; [intros; by eapply edge_reasons|]. split; [intros; apply handleTunnel_rejects_fairly|].
  split; [intros; by eapply plain_port_reasons|]. split; [intros; by eapply plain_handler_reasons|]. split.
  - intros fresh gen r st. pose proof (handler_tells ecfg ParseAddr verify key_equal keyFingerprint sign
      Unmarshal pem_Decode ParseCertificate ParseCertificateRequest eban maxBody life fresh gen r st) as Hh.
    by destruct (EnrollHTTP.ServeHTTP _ _ _ _ _ _ _ _ _ _ _ _ _ _ _ _ st).
  - intros. apply (Issue_tells ecfg ParseAddr).
Qed.
End Labels.
