(* ===== verification/Lifecycle.v ===== *)
(** * The life of the process

    [server.Run] ([server/server.go]) and the helpers of [server/serve.go] it
    serves with.  The process is built in a fixed order of steps that may fail,
    with deferred cleanups; its sockets are bound last; it serves until its
    context ends or a worker fails; then it drains and stops in a fixed order.

    [Run] is that program in a monad of visible actions and deferred ones.  The
    steps decided by the flags are the real ones ([Config], [ServeConfig]); the
    others fail as an oracle says.  What runs meanwhile is a set of producers of
    log events, traffic and refusals that may report between any two actions. *)
From Stdlib Require Import ZArith Lia Ascii String.
From S2P Require Import Prelude GoStr Wire Config Limiter Edge Attest Enroll ServeConfig Names.
Local Open Scope string_scope.
Local Open Scope list_scope.
Local Open Scope Z_scope.

Module Lifecycle.
Import Config ServeConfig.

(** ** Small helpers of [serve.go] *)
Inductive ClientAuthType := RequireAndVerifyClientCert | VerifyClientCertIfGiven.
Definition controlClientAuth (mtls : bool) : ClientAuthType :=
  if mtls then RequireAndVerifyClientCert else VerifyClientCertIfGiven.

(** [DialBackReady]: over TLS a dial-back needs the control host's certificate. *)
Definition DialBackReady (https : bool) (has : string → bool) (host : string) : bool := negb https || has host.

(** Which requests are traced. *)
Definition traceIssue (method path : string) : bool := String.eqb method "POST" && String.eqb path "/api/v1/issue".
Definition traceEnroll (method path : string) : bool :=
  (String.eqb method "POST" && String.eqb path "/api/v1/enroll") ||
  (String.eqb method "GET" && String.eqb path "/api/v1/enroll/nonce").

(** How [Serve] ends; [closeLogged] and [shutdownLogged] log any error but a closed listener. *)
Inductive serve_error := ErrServerClosed | ErrNetClosed | ErrOther.
Definition serveTLS (end_ : option serve_error) : option serve_error :=
  match end_ with Some ErrOther => Some ErrOther | _ => None end.
Definition closeLogged (e : option serve_error) : bool :=      (* a warning is logged *)
  match e with None | Some ErrNetClosed => false | Some _ => true end.

Definition DialBackPath : string := "/api/v1/data".

(** Who answers a request on the plain port. *)
Inductive plain_handler := PhoneHandler | Challenges_.
Definition plain_route (c : ServeCmd) (path : string) : plain_handler :=
  if negb (DialBackHTTPS c) && String.eqb path DialBackPath then PhoneHandler else Challenges_.

(** ** The steps of the construction *)
Inductive listener := RawLn | MeshLn | InternalLn | AcmeHTTPLn.
#[export] Instance listener_eq_dec : EqDecision listener.
Proof. solve_decision. Defined.
Definition listener_index (l : listener) : nat := match l with RawLn => 0 | MeshLn => 1 | InternalLn => 2 | AcmeHTTPLn => 3 end.
Definition listener_at (n : nat) : listener :=
  match n with 0%nat => RawLn | 1%nat => MeshLn | 2%nat => InternalLn | _ => AcmeHTTPLn end.
#[export] Instance listener_countable : Countable listener.
Proof. apply (inj_countable' listener_index listener_at). by intros []. Defined.

Inductive step :=
| SRedisURL | SReport | SCA | SRegistry
| SBandwidth | STrafficDay | STrafficWeek | SConnMinRate | SConnProtectRate | SEnrollBody
| SStore | SLogSinkErrors | SValkeyPool | SConnLogSpool | SVerifier | SACMEChain | SACMEBudgets
| SMeshCert | SResolve | SDialBackAddr | SEdgePublicAddr | SMeshHandler
| SListen (l : listener).

Inductive server := EnrollSrv | ControlSrv | MeshSrv | InternalSrv | AcmeHTTPSrv.
#[export] Instance server_eq_dec : EqDecision server.
Proof. solve_decision. Defined.

(** The goroutines of the group. *)
Inductive worker :=
| WServe (s : server) | WEdgeAccept | WRecorderFlusher | WMeshJanitor
| WAttestRoots | WAttestStatus | WSignerWatch | WHeartbeat | WMeshRotation | WReservedRenewal | WPhoneRenewal | WBanWatcher.
#[export] Instance worker_eq_dec : EqDecision worker.
Proof. solve_decision. Defined.

Inductive act :=
| ABanInitial | ALoadReserved
| ABind (l : listener) | AClose (l : listener)
| AGo (w : worker)
| ADrainPhones                 (* [drainer.run] *)
| AStopServing                 (* the group's context ends *)
| ACloseAll                    (* [phoneMgr.CloseAll] *)
| AShutdown (s : server) | AWaitEdge | AWaitGuarded | AJoin
| ADrainLogs | AFinalFlush | AFlushCapLog | ADeregister | ADrainEvictions
| AReportClose | ACloseValkey.
#[export] Instance act_eq_dec : EqDecision act.
Proof. solve_decision. Defined.

(** ** Programs with deferred actions *)
Inductive failure := FStep (s : step) | FGroup.
Record pst := PSt { p_trace : list act; p_defers : list act }.     (* innermost defer first *)
Definition R (A : Type) : Type := pst → result failure A * pst.
Definition rret {A} (a : A) : R A := λ s, (Ok a, s).
Definition rfail {A} (e : failure) : R A := λ s, (Err e, s).
Definition rbind {A B} (c : R A) (k : A → R B) : R B := λ s,
  match c s with (Ok a, s) => k a s | (Err e, s) => (Err e, s) end.
Notation "'let%' x := c 'in' k" := (rbind c (λ x, k)) (at level 10, x pattern, c at level 200, k at level 200).
Definition do (a : act) : R unit := λ s, (Ok tt, PSt (p_trace s ++ [a]) (p_defers s)).
Fixpoint do_all (l : list act) : R unit := match l with [] => rret tt | a :: l => let% _ := do a in do_all l end.
Definition defer (a : act) : R unit := λ s, (Ok tt, PSt (p_trace s) (a :: p_defers s)).
Definition ran {A} (c : R A) : result failure A * list act :=
  let '(r, s) := c (PSt [] []) in (r, p_trace s ++ p_defers s).

(** ** The configuration in force *)
Section run.
Context `{ConfigEnv}.

(** Hosts and the name prefix are lowered once. *)
Definition normalize (c : ServeCmd) : string * string * string * string :=
  (ToLower (TunnelDomain c), ToLower (EnrollHost c), ToLower (ControlHost c), ToLower (NamePrefix c)).

Definition limiter_of (c : ServeCmd) (bw day week : Z) : Limiter.Limiter := {|
  Limiter.bwRate := bw; Limiter.pktCap := LimitPackets c; Limiter.dayCap := day; Limiter.weekCap := week;
  Limiter.streamTTL := wrap64 (3 * LimitConnIdle c) |}.

Definition edge_of (c : ServeCmd) (minRate protectRate : Z) : Edge.Config := {|
  Edge.EnrollHost := ToLower (EnrollHost c); Edge.ControlHost := ToLower (ControlHost c);
  Edge.TunnelDomain := ToLower (TunnelDomain c);
  Edge.MaxClients := MaxClients c; Edge.ConnRate := LimitConnRate c; Edge.Concurrent := LimitConcurrent c;
  Edge.HandshakeTimeout := HandshakeTimeout c; Edge.DialBackTimeout := LimitDialBackTimeout c;
  Edge.IdleTimeout := LimitConnIdle c; Edge.MinRate := minRate; Edge.MinGrace := LimitConnMinGrace c;
  Edge.EvictIdle := LimitConnEvictIdle c; Edge.ProtectRate := protectRate |}.

Definition enroll_of (c : ServeCmd) : Enroll.Config := {|
  Enroll.TunnelDomain := ToLower (TunnelDomain c);
  Enroll.IssuePerWeek := IssuePerWeek c; Enroll.EnrollHour := LimitEnrollHour c; Enroll.EnrollMinute := LimitEnrollMinute c;
  Enroll.ClaimTimeout := RegistryClaimTimeout c; Enroll.ClaimSettle := RegistryClaimSettle c;
  Enroll.AttestOptional := AttestationOptional c |}.

Record assembled := Assembled {
  as_limiter : Limiter.Limiter; as_edge : Edge.Config; as_enroll : Enroll.Config;
  as_enrollBody : Z; as_dialBackAddr : string; as_edgePublicAddr : string
}.

Context (fails : step → bool).

Definition try (s : step) : R unit := if fails s then rfail (FStep s) else rret tt.
Definition flag {E A} (s : step) (r : result E A) : R A := match r with Ok a => rret a | Err _ => rfail (FStep s) end.
Definition addr (s : step) (r : option string) : R string := match r with Some a => rret a | None => rfail (FStep s) end.

(** *** Up to the limiter *)
Definition open_clients (c : ServeCmd) : R unit :=
  let% _ := (if ParseRedisURL (RedisURL c) then rret tt else rfail (FStep SRedisURL)) in
  let% _ := defer ACloseValkey in
  let% _ := try SReport in
  let% _ := defer AReportClose in
  let% _ := try SCA in
  let% _ := do ABanInitial in
  try SRegistry.

Definition parse_limits (c : ServeCmd) : R (Limiter.Limiter * Edge.Config * Z) :=
  let% bw := flag SBandwidth (ParseBitrate (LimitBandwidth c)) in
  let% day := flag STrafficDay (ParseByteSize (LimitTrafficDay c)) in
  let% week := flag STrafficWeek (ParseByteSize (LimitTrafficWeek c)) in
  let% minRate := flag SConnMinRate (ParseByteSize (LimitConnMinRate c)) in
  let% protectRate := flag SConnProtectRate (ParseByteSize (LimitConnProtectRate c)) in
  let% body := flag SEnrollBody (ParseByteSize (LimitEnrollBody c)) in
  rret (limiter_of c bw day week, edge_of c minRate protectRate, body).

(** *** Stores, metrics, the connection log and the issuers *)
Definition open_stores : R unit :=
  let% _ := try SStore in
  let% _ := try SLogSinkErrors in
  let% _ := try SValkeyPool in
  let% _ := try SConnLogSpool in
  defer ADrainLogs.

Definition build_issuers : R unit :=
  let% _ := try SVerifier in
  let% _ := try SACMEChain in
  let% _ := try SACMEBudgets in
  try SMeshCert.

(** *** The edge and the servers *)
Definition build_edge (c : ServeCmd) : R (string * string) :=
  let% _ := try SResolve in
  let% _ := do ALoadReserved in
  let% dialBack := addr SDialBackAddr (DialBackAddr c) in
  let% public := addr SEdgePublicAddr (EdgePublicAddr c) in
  let% _ := try SMeshHandler in
  rret (dialBack, public).

Definition construct (c : ServeCmd) : R assembled :=
  let% _ := open_clients c in
  let% (lim, edge, body) := parse_limits c in
  let% _ := open_stores in
  let% _ := build_issuers in
  let% (dialBack, public) := build_edge c in
  rret (Assembled lim edge (enroll_of c) body dialBack public).

(** *** Listeners, last; a failure closes the ones bound before it *)
Definition listen (l : listener) (earlier : list listener) : R unit :=
  if fails (SListen l) then let% _ := do_all (map AClose earlier) in rfail (FStep (SListen l))
  else do (ABind l).

Definition bind_all (c : ServeCmd) : R unit :=
  let% _ := listen RawLn [] in
  let% _ := listen MeshLn [RawLn] in
  let% _ := listen InternalLn [RawLn; MeshLn] in
  if ServesPlainHTTP c then listen AcmeHTTPLn [RawLn; MeshLn; InternalLn] else rret tt.

(** *** The group of workers *)
Definition workers (c : ServeCmd) : list worker :=
  [WServe EnrollSrv; WServe ControlSrv; WServe MeshSrv; WServe InternalSrv; WEdgeAccept] ++
  (if ServesPlainHTTP c then [WServe AcmeHTTPSrv] else []) ++
  [WRecorderFlusher; WMeshJanitor; WAttestRoots; WAttestStatus; WSignerWatch;
   WHeartbeat; WMeshRotation; WReservedRenewal; WPhoneRenewal; WBanWatcher].

(** Why the process stops, and the first error of the group. *)
Inductive stop_cause := CtxDone | GroupDone.
Inductive group_error := GCanceled | GOther.

Definition stop_accepting (c : ServeCmd) (cause : stop_cause) : list act :=
  (match cause with CtxDone => [ADrainPhones] | GroupDone => [] end) ++
  [AStopServing; AClose RawLn] ++ (if ServesPlainHTTP c then [AClose AcmeHTTPLn] else []).
Definition stop_servers (c : ServeCmd) : list act :=
  [ACloseAll; AShutdown EnrollSrv; AShutdown ControlSrv; AShutdown MeshSrv; AShutdown InternalSrv] ++
  (if ServesPlainHTTP c then [AShutdown AcmeHTTPSrv] else []).
Definition join_and_flush (c : ServeCmd) : list act :=
  [AWaitEdge] ++ (if ServesPlainHTTP c then [AWaitGuarded] else []) ++
  [AJoin; ADrainLogs; AFinalFlush; AFlushCapLog; ADeregister; ADrainEvictions].

Definition shutdown (c : ServeCmd) (cause : stop_cause) : list act :=
  stop_accepting c cause ++ stop_servers c ++ join_and_flush c.

Definition Run (c : ServeCmd) (cause : stop_cause) (werr : option group_error) : R unit :=
  let% _ := construct c in
  let% _ := bind_all c in
  let% _ := do_all (map AGo (workers c)) in
  let% _ := do_all (shutdown c cause) in
  match werr with Some GOther => rfail FGroup | _ => rret tt end.

(** ** Sockets *)

(** [Shutdown] closes the listeners its server was serving on. *)
Definition closes (a : act) : list listener :=
  match a with
  | AClose l => [l]
  | AShutdown MeshSrv => [MeshLn]
  | AShutdown InternalSrv => [InternalLn]
  | AShutdown AcmeHTTPSrv => [AcmeHTTPLn]
  | _ => []
  end.
Definition binds (a : act) : list listener := match a with ABind l => [l] | _ => [] end.
Definition bound_after (ls : gset listener) (a : act) : gset listener :=
  (ls ∪ list_to_set (binds a)) ∖ list_to_set (closes a).

(** ** What runs meanwhile *)
Inductive producer := PRequests (s : server) | PPublic | PGuard | PWorkers.
#[export] Instance producer_eq_dec : EqDecision producer.
Proof. solve_decision. Defined.
Inductive report := RLog | RTraffic | RRefusal.

(** Reports of one kind: how many were made, how many wait, were saved, were lost. *)
Record tally := Tally { reported : nat; waiting : nat; saved : nat; lost : nat }.
Definition none : tally := Tally 0 0 0 0.
Definition accept (t : tally) : tally := Tally (S (reported t)) (S (waiting t)) (saved t) (lost t).
Definition refuse (t : tally) : tally := Tally (S (reported t)) (waiting t) (saved t) (S (lost t)).
(** A save that fails for [n] of them keeps those for a next save; a drain abandons them. *)
Definition save (n : nat) (t : tally) : tally :=
  Tally (reported t) (min n (waiting t)) (saved t + (waiting t - min n (waiting t))) (lost t).
Definition abandon (n : nat) (t : tally) : tally :=
  Tally (reported t) 0 (saved t + (waiting t - min n (waiting t))) (lost t + min n (waiting t)).

Record live := Live {
  l_bound : gset listener;
  l_phones_closed : bool;
  l_drained : bool;                                    (* the connection log takes no more events *)
  l_prod : list producer;
  l_logs : tally; l_traffic : tally; l_refusals : tally
}.
Definition lstart : live := Live ∅ false false [] none none none.

Definition starts (a : act) : list producer :=
  match a with
  | AGo (WServe AcmeHTTPSrv) => [PRequests AcmeHTTPSrv; PGuard; PWorkers]
  | AGo (WServe s) => [PRequests s; PWorkers]
  | AGo WEdgeAccept => [PPublic; PWorkers]
  | AGo _ => [PWorkers]
  | _ => []
  end.

Context (complete : act → bool) (unsaved : act → nat).

(** What has returned when an action ends.  The waits are bounded by the grace, and
    the edge's wait knows only the connections the accept loop has counted
    ([wait_misses_uncounted] of [EdgeListen]): [complete a] says that the wait of
    [a] was not cut off and missed nothing.  A control stream never idles, so its
    server stops only once the phones are closed, and handlers can be awaited only
    once nothing more is accepted. *)
Definition joins (a : act) (l : live) : list producer :=
  match a with
  | AShutdown ControlSrv => if complete a && l_phones_closed l then [PRequests ControlSrv] else []
  | AShutdown s => if complete a then [PRequests s] else []
  | AWaitEdge => if complete a && negb (bool_decide (RawLn ∈ l_bound l)) then [PPublic] else []
  | AWaitGuarded => if complete a && negb (bool_decide (AcmeHTTPLn ∈ l_bound l)) then [PGuard] else []
  | AJoin => [PWorkers]
  | _ => []
  end.

(** [unsaved a] is how many of the waiting reports the flush [a] cannot save: a drain
    of the connection log past its deadline drops what is queued (and is done once),
    a traffic counter whose write fails is kept for a next save.  The summaries of
    refusals are in memory and go to the log, which cannot fail. *)
Definition perform (a : act) (l : live) : live := Live
  (bound_after (l_bound l) a) (l_phones_closed l || bool_decide (a = ACloseAll))
  (l_drained l || bool_decide (a = ADrainLogs))
  (filter (λ p, p ∉ joins a l) (l_prod l ++ starts a))
  (if bool_decide (a = ADrainLogs) && negb (l_drained l) then abandon (unsaved a) (l_logs l) else l_logs l)
  (if bool_decide (a = AFinalFlush) then save (unsaved a) (l_traffic l) else l_traffic l)
  (if bool_decide (a = AFlushCapLog) then save 0 (l_refusals l) else l_refusals l).

Definition emit (l : live) (pk : producer * report) : live :=
  if bool_decide (pk.1 ∈ l_prod l) then
    let keep := Live (l_bound l) (l_phones_closed l) (l_drained l) (l_prod l) in
    match pk.2 with
    | RLog => keep ((if l_drained l then refuse else accept) (l_logs l)) (l_traffic l) (l_refusals l)
    | RTraffic => keep (l_logs l) (accept (l_traffic l)) (l_refusals l)
    | RRefusal => keep (l_logs l) (l_traffic l) (accept (l_refusals l))
    end
  else l.

(** Before each action, the reports of [sched]. *)
Fixpoint exec (tr : list act) (sched : list (list (producer * report))) (l : live) : live :=
  match tr with
  | [] => l
  | a :: tr => exec tr (tl sched) (perform a (fold_left emit (hd [] sched) l))
  end.














(** ** The runs of the process *)





(** What a program leaves when it succeeds. *)
Definition leaves (tr df : list act) {A} (c : R A) : Prop :=
  ∀ s a s', c s = (Ok a, s') → s' = PSt (p_trace s ++ tr) (df ++ p_defers s).

Lemma leaves_quiet {A} (c : R A) : (∀ s, (c s).2 = s) → leaves [] [] c.
Proof. intros Hc [tr df] a s' E. specialize (Hc (PSt tr df)). rewrite E in Hc. cbn in *. by rewrite app_nil_r. Qed.
Lemma leaves_bind t1 d1 t2 d2 {A B} (c : R A) (k : A → R B) :
  leaves t1 d1 c → (∀ a, leaves t2 d2 (k a)) → leaves (t1 ++ t2) (d2 ++ d1) (rbind c k).
Proof.
  intros Hc Hk s b s'. unfold rbind. destruct (c s) as [[a|e] s1] eqn:E; [|done]. intros E2.
  apply Hc in E. apply Hk in E2. subst. cbn. by rewrite !app_assoc.
Qed.
Lemma leaves_do a : leaves [a] [] (do a).
Proof. by intros [tr df] [] s' [= <-]. Qed.
Lemma leaves_defer a : leaves [] [a] (defer a).
Proof. intros [tr df] [] s' [= <-]. cbn. by rewrite app_nil_r. Qed.
Lemma leaves_try s : leaves [] [] (try s).
Proof. apply leaves_quiet. intros st. unfold try. by destruct (fails s). Qed.
Lemma leaves_flag {E A} s (r : result E A) : leaves [] [] (flag s r).
Proof. apply leaves_quiet. intros st. unfold flag. by destruct r. Qed.
Lemma leaves_addr s r : leaves [] [] (addr s r).
Proof. apply leaves_quiet. intros st. unfold addr. by destruct r. Qed.
Lemma leaves_ret {A} (a : A) : leaves [] [] (rret a).
Proof. by apply leaves_quiet. Qed.

Lemma leaves_eq tr df tr' df' {A} (c : R A) : leaves tr df c → tr = tr' → df = df' → leaves tr' df' c.
Proof. by intros ? <- <-. Qed.

Ltac leaves := eapply leaves_eq; [repeat first
  [apply leaves_try | apply leaves_flag | apply leaves_addr | apply leaves_ret | apply leaves_do | apply leaves_defer
  | eapply leaves_bind; [|intros]]|reflexivity|reflexivity].

(** *** Who is to blame for a failure *)
Definition flags_ok {A} (Q : A → Prop) (c : R A) : Prop :=
  ∀ st, match (c st).1 with Ok a => Q a | Err (FStep s) => fails s = true | Err FGroup => False end.

Lemma flags_ok_ret {A} (Q : A → Prop) a : Q a → flags_ok Q (rret a).
Proof. by intros Ha st. Qed.
Lemma flags_ok_bind {A B} (Q : A → Prop) (P : B → Prop) (c : R A) k :
  flags_ok Q c → (∀ a, Q a → flags_ok P (k a)) → flags_ok P (rbind c k).
Proof. intros Hc Hk st. unfold rbind. specialize (Hc st). destruct (c st) as [[a|e] s1]; [by apply Hk|done]. Qed.
Lemma flags_ok_act {A} (c : R A) : (∀ st, is_ok (c st).1 = true) → flags_ok (λ _, True) c.
Proof. intros Hc st. specialize (Hc st). by destruct ((c st).1). Qed.
Lemma flags_ok_try s : flags_ok (λ _, True) (try s).
Proof. intros st. unfold try. by destruct (fails s) eqn:E. Qed.
Lemma flags_ok_flag {E A} s (r : result E A) a : r = Ok a → flags_ok (λ b, b = a) (flag s r).
Proof. by intros -> st. Qed.
Lemma flags_ok_addr s r : is_Some r → flags_ok (λ a, r = Some a) (addr s r).
Proof. by intros [a ->] st. Qed.

Ltac blames := repeat first
  [apply flags_ok_try | eapply flags_ok_bind; [first [apply flags_ok_try | by apply flags_ok_act]|intros ? _]].

(** What the components are built with: every field is the value of its own flag, the
    sizes and rates as their parsers read them, the hosts in lower case; and the values
    are in the ranges the components rely on. *)
Record well_assembled (c : ServeCmd) (a : assembled) : Prop := {
  wa_rates : ParseBitrate (LimitBandwidth c) = Ok (Limiter.bwRate (as_limiter a)) ∧
    Limiter.pktCap (as_limiter a) = LimitPackets c ∧
    ParseByteSize (LimitTrafficDay c) = Ok (Limiter.dayCap (as_limiter a)) ∧
    ParseByteSize (LimitTrafficWeek c) = Ok (Limiter.weekCap (as_limiter a)) ∧
    Limiter.streamTTL (as_limiter a) = wrap64 (3 * LimitConnIdle c);
  wa_rates_in_range : Wire.ChunkSize ≤ Limiter.bwRate (as_limiter a) ∧ 1 ≤ Limiter.pktCap (as_limiter a) ∧
    1 ≤ Limiter.dayCap (as_limiter a) ≤ Limiter.weekCap (as_limiter a);
  wa_hosts : Edge.EnrollHost (as_edge a) = ToLower (EnrollHost c) ∧ Edge.ControlHost (as_edge a) = ToLower (ControlHost c) ∧
    Edge.TunnelDomain (as_edge a) = ToLower (TunnelDomain c) ∧ Enroll.TunnelDomain (as_enroll a) = ToLower (TunnelDomain c);
  wa_edge_limits : Edge.MaxClients (as_edge a) = MaxClients c ∧ Edge.ConnRate (as_edge a) = LimitConnRate c ∧
    Edge.Concurrent (as_edge a) = LimitConcurrent c ∧
    ParseByteSize (LimitConnMinRate c) = Ok (Edge.MinRate (as_edge a)) ∧
    ParseByteSize (LimitConnProtectRate c) = Ok (Edge.ProtectRate (as_edge a)) ∧
    ParseByteSize (LimitEnrollBody c) = Ok (as_enrollBody a);
  wa_edge_in_range : 1 ≤ Edge.MaxClients (as_edge a) ∧ 1 ≤ Edge.Concurrent (as_edge a) ∧ 1 ≤ Edge.ConnRate (as_edge a) ∧
    1 ≤ Edge.MinRate (as_edge a) ∧ 1 ≤ Edge.ProtectRate (as_edge a) ∧ 1 ≤ as_enrollBody a;
  wa_edge_timeouts : Edge.HandshakeTimeout (as_edge a) = HandshakeTimeout c ∧
    Edge.DialBackTimeout (as_edge a) = LimitDialBackTimeout c ∧ Edge.IdleTimeout (as_edge a) = LimitConnIdle c ∧
    Edge.MinGrace (as_edge a) = LimitConnMinGrace c ∧ Edge.EvictIdle (as_edge a) = LimitConnEvictIdle c;
  wa_enroll : Enroll.IssuePerWeek (as_enroll a) = IssuePerWeek c ∧ Enroll.EnrollHour (as_enroll a) = LimitEnrollHour c ∧
    Enroll.EnrollMinute (as_enroll a) = LimitEnrollMinute c ∧ Enroll.ClaimTimeout (as_enroll a) = RegistryClaimTimeout c ∧
    Enroll.ClaimSettle (as_enroll a) = RegistryClaimSettle c ∧ Enroll.AttestOptional (as_enroll a) = AttestationOptional c;
  wa_enroll_in_range : 0 < Enroll.ClaimTimeout (as_enroll a) < Enroll.ClaimSettle (as_enroll a) ∧
    1 ≤ Enroll.IssuePerWeek (as_enroll a) ∧ 1 ≤ Enroll.EnrollHour (as_enroll a) ∧ 1 ≤ Enroll.EnrollMinute (as_enroll a);
  wa_addresses : publicAddr (PublicIP c) (Listen c) = Some (as_edgePublicAddr a) ∧
    publicAddr (PublicIP c) (if DialBackHTTPS c then Listen c else ACMEHTTPListen c) = Some (as_dialBackAddr a)
}.

Lemma construct_flags_ok c : runnable c → flags_ok (well_assembled c) (construct c).
Proof.
  intros Hr. destruct (rn_bandwidth c Hr) as (bw & Ebw & Hbw). destruct (rn_traffic c Hr) as (day & week & Ed & Ew & Hdw).
  destruct (rn_sizes c Hr) as (mr & pr & body & Em & Ep & Eb & Hm & Hp & Hb). destruct (rn_limits c Hr) as (L1 & L2 & L3 & L4 & _ & L6 & L7 & L8).
  destruct (rn_dialback c Hr) as (_ & Hpub & Hdial).
  unfold construct. eapply flags_ok_bind.
  { unfold open_clients. rewrite (rn_redis c Hr). eapply flags_ok_bind; [by apply (flags_ok_ret (λ _, True))|]. intros ? _. blames. }
  intros ? _. eapply flags_ok_bind.
  { unfold parse_limits. do 6 (eapply flags_ok_bind; [by eapply flags_ok_flag|intros ? ->]).
    by apply (flags_ok_ret (λ r, r = (limiter_of c bw day week, edge_of c mr pr, body))). }
  intros ? ->. eapply flags_ok_bind; [unfold open_stores; blames; by apply flags_ok_act|]. intros ? _.
  eapply flags_ok_bind; [unfold build_issuers; blames|]. intros ? _. eapply (flags_ok_bind (λ p, DialBackAddr c = Some p.1 ∧ EdgePublicAddr c = Some p.2)).
  { unfold build_edge. blames. eapply flags_ok_bind; [by apply flags_ok_addr|]. intros dialBack Ed1.
    eapply flags_ok_bind; [by apply flags_ok_addr|]. intros public Ed2. blames. by apply flags_ok_ret. }
  intros [dialBack public] [Ed1 Ed2]. apply flags_ok_ret. pose proof (rn_claim c Hr).
  split; cbn; try (split_and!; first [done | lia]).
  split; [exact Ed2|]. unfold DialBackAddr, EdgePublicAddr in *. by destruct (DialBackHTTPS c).
Qed.


(** *** Binding *)
Definition sockets (c : ServeCmd) : list listener :=
  [RawLn; MeshLn; InternalLn] ++ (if ServesPlainHTTP c then [AcmeHTTPLn] else []).


(** *** The two ways a run goes *)
Definition served_trace (c : ServeCmd) (cause : stop_cause) : list act :=
  [ABanInitial; ALoadReserved] ++ map ABind (sockets c) ++ map AGo (workers c) ++ shutdown c cause ++
  [ADrainLogs; AReportClose; ACloseValkey].



(** ** What a stopped process leaves *)



End run.




(** C29. What fail-fast validation buys. For flags that pass [Validate]: the
    configuration is runnable; and the construction of the process, which parses sizes,
    rates and addresses again, fails only at a step the environment makes fail, never at
    a flag; if it succeeds, each field of the configuration of the limiter, the edge and
    the enrollment service is the value of its own flag, as [well_assembled] lists them,
    and they are in the ranges the components rely on. *)
Theorem validated_flags_start `{ConfigEnv} fails c : Validate c = None →
  runnable c ∧
  (∀ st, match (construct fails c st).1 with
         | Ok a => well_assembled c a
         | Err (FStep s) => fails s = true
         | Err FGroup => False
         end).
Proof. intros Hv. pose proof (validated_config_is_runnable c Hv). split; [done|]. by apply construct_flags_ok. Qed.


(** ** Examples *)
#[local] Existing Instance sample_config_env.

(** A mesh port in use: the public port is closed again, and the spool, the
    reporter and the Valkey client are closed in that order. *)
Example mesh_port_in_use :
  ran (Run (λ s, match s with SListen MeshLn => true | _ => false end) default_config CtxDone None) =
  (Err (FStep (SListen MeshLn)),
   [ABanInitial; ALoadReserved; ABind RawLn; AClose RawLn; ADrainLogs; AReportClose; ACloseValkey]).
Proof. vm_compute. reflexivity. Qed.

(** Without the wait for the public handlers their last log event would be lost
    to the drain: here the wait runs out, and an event comes after the drains. *)
Example late_handler_loses_events :
  l_logs (exec (λ a, negb (bool_decide (a = AWaitEdge))) (λ _, 0%nat) (served_trace default_config CtxDone)
    (replicate 37 [] ++ [[(PPublic, RLog)]]) lstart) = Tally 1 0 0 1.
Proof. vm_compute. reflexivity. Qed.

Lemma validated_flags_start_witness : runnable default_config ∧
  match (construct (λ _, false) default_config (PSt [] [])).1 with
  | Ok a => well_assembled default_config a
  | Err _ => False
  end.
Proof.
  destruct (validated_flags_start (λ _, false) default_config) as [Hr Hc]; [vm_compute; reflexivity|]. split; [exact Hr|].
  specialize (Hc (PSt [] [])).
  assert (is_ok (construct (λ _, false) default_config (PSt [] [])).1 = true) as E by (vm_compute; reflexivity).
  by destruct (construct (λ _, false) default_config (PSt [] [])).1.
Defined.

End Lifecycle.
