(* ===== verification/IssueHTTP.v ===== *)
(** * Certificate requests of phones

    [serveIssue] of [phoneconn/listener.go] with [issueFunc], [challengeFunc]
    and the PEM readers of [server/serve.go]: the mTLS endpoint behind the
    dispatch of [PhoneConn], over the issuance of [Enroll].  JSON, PEM blocks and
    X.509 are parameters.

    The handlers and the drain share a counter of requests in progress; they
    interleave as [dstep], each handler running the operations of
    [issue_program]. *)
From Stdlib Require Import ZArith Lia Ascii String Strings.Byte.
From S2P Require Import Prelude GoStr GoFloat Valkey Limiter Attest Enroll Edge EnrollHTTP PhoneConn.
Local Open Scope string_scope.
Local Open Scope list_scope.
Local Open Scope Z_scope.

Module IssueHTTP.
Import ValkeyClient Limiter Enroll GoFloat.

(** ** Answers *)
Record IssueRequest := MkIssue { ir_Nonce : string; ir_Chain : bytes; ir_IdentityCSR : bytes; ir_TLSCSR : bytes }.
Record IssueError := MkIssueError { ie_Reason : string; ie_Retryable : bool; ie_Unauthorized : bool; ie_RetryAfter : Z }.

Inductive body :=
| BError (reason : string) (retryable : bool) (retry_after_seconds : option Z)
| BCerts (identity public ca : string).
Record issue_answer := Answer {
  ia_status : Z; ia_body : body;
  ia_close : bool;                  (* Connection: close *)
  ia_refused : bool                 (* [report.Refuse] was called *)
}.
Definition is_certs (b : body) : bool := match b with BCerts _ _ _ => true | _ => false end.
Definition refuse (status : Z) (b : body) (close : bool) : issue_answer := Answer status b close true.

(** ** Certificates and requests in PEM *)
Section pem.
Context {C R : Type} (pem_Decode : bytes → option (string * bytes * bytes)).   (* type, contents, rest *)
Context (ParseCertificate : bytes → option C) (ParseCertificateRequest : bytes → option R).

Fixpoint chain_loop (fuel : nat) (rest : bytes) (chain : list C) : option (list C) :=
  match fuel with
  | O => Some chain
  | S fuel =>
      match pem_Decode rest with
      | None => Some chain
      | Some (type, block, rest) =>
          if negb (String.eqb type "CERTIFICATE") then chain_loop fuel rest chain
          else match ParseCertificate block with
               | None => None
               | Some c => chain_loop fuel rest (chain ++ [c])
               end
      end
  end.
Definition parseCertChainPEM (pemData : bytes) : option (list C) :=
  match chain_loop (S (length pemData)) pemData [] with
  | Some [] | None => None
  | Some chain => Some chain
  end.
Definition parseCSRPEM (pemStr : bytes) : option R :=
  match pem_Decode pemStr with None => None | Some (_, block, _) => ParseCertificateRequest block end.

(** A block takes some of the input, so the rounds of [parseCertChainPEM] see them all. *)
Lemma chain_loop_enough rest chain k :
  (∀ b t c r, pem_Decode b = Some (t, c, r) → (length r < length b)%nat) →
  chain_loop (S (length rest) + k) rest chain = chain_loop (S (length rest)) rest chain.
Proof.
  intros Hdec. remember (length rest) as n eqn:En. revert rest chain k En.
  induction (lt_wf n) as [n _ IH]. intros rest chain k En. cbn [Nat.add chain_loop].
  destruct (pem_Decode rest) as [[[t c] r]|] eqn:Ed; [|done]. pose proof (Hdec _ _ _ _ Ed) as Hlt.
  assert (∀ ch, chain_loop (n + k) r ch = chain_loop n r ch) as Hr.
  { intros ch. replace (n + k)%nat with (S (length r) + (n - S (length r) + k))%nat by lia.
    rewrite (IH (length r)) by lia. symmetry. replace n with (S (length r) + (n - S (length r)))%nat at 1 by lia. apply IH; lia. }
  destruct (negb _); [apply Hr|]. destruct (ParseCertificate c); [apply Hr|done].
Qed.
End pem.

(** ** The endpoint *)
Section issue.
Context {S N K : Type} `{ValkeyServer S} `{TokenSupply} `{NameStore N} `{FloatLib}.
Context (cfg : Config).
Context (verify : list (Attest.Certificate K) → bytes → Z → result Attest.attest_error (Attest.Result K)).
Context (key_equal : K → K → bool) (isECDSAP256 : K → bool) (keyFingerprint : K → string).
Context (sign : CSR K → string → result sign_error string).
Context (obtain : CSR K → string → order) (renew : CSR K → string → CertInfo → order).
Context (Unmarshal : bytes → option IssueRequest).
Context (pem_Decode : bytes → option (string * bytes * bytes)).
Context (ParseCertificate : bytes → option (Attest.Certificate K)) (ParseCertificateRequest : bytes → option (CSR K)).

Abbreviation svc_Issue := (Issue (S := S) (N := N) cfg verify key_equal isECDSAP256 keyFingerprint sign obtain renew).

(** The request as the service takes it. *)
Definition parse_issue (req : IssueRequest) : result string (Request K) :=
  match EnrollHTTP.decodeHex (ir_Nonce req) with
  | None => Err "bad_nonce"
  | Some nonce =>
      match parseCertChainPEM pem_Decode ParseCertificate (ir_Chain req) with
      | None => Err "bad_attestation"
      | Some chain =>
          match parseCSRPEM pem_Decode ParseCertificateRequest (ir_IdentityCSR req) with
          | None => Err "bad_identity_csr"
          | Some idCSR =>
              match parseCSRPEM pem_Decode ParseCertificateRequest (ir_TLSCSR req) with
              | None => Err "bad_tls_csr"
              | Some tlsCSR => Ok (MkRequest nonce chain idCSR tlsCSR)
              end
          end
      end
  end.

(** The flag: whether [report.Refuse] was called. *)
Definition issueFunc (name ip : string) (req : IssueRequest) : E S N (result IssueError Result_ * bool) :=
  match parse_issue req with
  | Err reason => eret (Err (MkIssueError reason false false 0), true)
  | Ok r =>
      let+ res := svc_Issue name ip r in
      eret match res with
           | Err e => (Err (MkIssueError (Reason e) (Retryable e) (String.eqb (Reason e) "unauthorized") (RetryAfter e)),
                       refusal (Reason e))
           | Ok res => (Ok res, false)
           end
  end.

Definition status_of (e : IssueError) : Z :=
  if ie_Unauthorized e then 401 else if ie_Retryable e then 503 else 400.
Definition drainingRetryAfterSeconds : Z := 1.

(** Everything of [serveIssue] but the counter; [onIssue] is set in the process.
    The body is [None] when reading it fails. *)
Definition serveIssue (draining : bool) (issueBody : nat) (method : string) (body_ : option bytes) (name ip : string)
    : E S N issue_answer :=
  if negb (String.eqb method "POST") then eret (refuse 405 (BError "method_not_allowed" false None) false)
  else if draining then eret (refuse 503 (BError "draining" true (Some drainingRetryAfterSeconds)) true)
  else
    match body_ with
    | None => eret (refuse 400 (BError "bad_request" false None) false)
    | Some b =>
        match Unmarshal (take issueBody b) with
        | None => eret (refuse 400 (BError "bad_json" false None) false)
        | Some req =>
            let+ r := issueFunc name ip req in
            eret match r with
                 | (Err e, refused) =>
                     Answer (status_of e)
                       (BError (ie_Reason e) (ie_Retryable e)
                          (if 0 <? ie_RetryAfter e then Some (to_int (EnrollHTTP.Seconds (ie_RetryAfter e))) else None)) false refused
                 | (Ok res, refused) => Answer 200 (BCerts (IdentityCert res) (PublicCert res) (ResultCA res)) false refused
                 end
        end
    end.

(** [challengeFunc]: the nonce of a renewal nudge. *)
Definition challengeFunc (fresh : bytes) : M S (result rerr string) :=
  let* r := Nonce fresh in
  ret match r with Err e => Err e | Ok nonce => Ok (hex_encode nonce) end.

(** The request behind the listener's dispatch. *)
Context (ParseAddr : string → option string) (banIP banTunnel validName : option (string → bool)).

Definition servePhone (draining : bool) (issueBody : nat) (r : PhoneConn.request) (body_ : option bytes) : E S N (option issue_answer) :=
  match PhoneConn.ServeHTTP ParseAddr banIP banTunnel validName r with
  | PhoneConn.ServeIssue name =>
      let+ a := serveIssue draining issueBody (PhoneConn.r_method r) body_ name (Edge.peerAddr (PhoneConn.r_peer r)) in eret (Some a)
  | _ => eret None
  end.

(** The next conditional effect. *)
Ltac run_if := match goal with |- context [(if ?b then ?x else ?y) ?s] => destruct ((if b then x else y) s) as [? ?] end.

(** ** What a certificate took *)
Record issued_to (name : string) (req : Request K) (res : Result_) : Prop := {
  it_csr : csr_signed (TLSCSR req) = true ∧ csrMatchesTunnel (TLSCSR req) name (TunnelDomain cfg) = true ∧
    isECDSAP256 (csr_key (TLSCSR req)) = true;
  it_identity : csr_signed (IdentityCSR req) = true ∧ sign (IdentityCSR req) name = Ok (IdentityCert res);
  it_attested : AttestOptional cfg = true ∨
    ∃ now r, verify (AttestChain req) (Nonce_ req) now = Ok r ∧
      key_equal (csr_key (IdentityCSR req)) (Attest.LeafPublicKey r) = true;
  it_registered : ∃ n rec, (ns_get name n).1 = Ok rec;
  it_ordered : ∃ o info, (o = obtain (TLSCSR req) name ∨ ∃ cur, o = renew (TLSCSR req) name cur) ∧
    o_result o = Ok (PublicCert res, info) ∧ ResultCA res = ci_CA info
}.

(** The request is what the body of the HTTP request says. *)
Record submitted (issueBody : nat) (body_ : option bytes) (req : Request K) (wire : IssueRequest) : Prop := {
  su_body : ∃ b, body_ = Some b ∧ Unmarshal (take issueBody b) = Some wire;
  su_nonce : EnrollHTTP.decodeHex (ir_Nonce wire) = Some (Nonce_ req);
  su_chain : parseCertChainPEM pem_Decode ParseCertificate (ir_Chain wire) = Some (AttestChain req);
  su_identity : parseCSRPEM pem_Decode ParseCertificateRequest (ir_IdentityCSR wire) = Some (IdentityCSR req);
  su_tls : parseCSRPEM pem_Decode ParseCertificateRequest (ir_TLSCSR wire) = Some (TLSCSR req)
}.

Lemma parse_issue_submitted issueBody b wire req :
  Unmarshal (take issueBody b) = Some wire → parse_issue wire = Ok req → submitted issueBody (Some b) req wire.
Proof.
  unfold parse_issue. intros Hu. destruct (EnrollHTTP.decodeHex _) eqn:E1; [|done]. destruct (parseCertChainPEM _ _ _) eqn:E2; [|done].
  destruct (parseCSRPEM _ _ (ir_IdentityCSR wire)) eqn:E3; [|done]. destruct (parseCSRPEM _ _ (ir_TLSCSR wire)) eqn:E4; [|done].
  intros [= <-]. split; try done. by exists b.
Qed.

Lemma attest_ok ip name req (st : est S N) att st' :
  attestAndBind cfg verify key_equal ip name req st = (Ok att, st') →
  csr_signed (IdentityCSR req) = true ∧
  (AttestOptional cfg = true ∨ ∃ now r, verify (AttestChain req) (Nonce_ req) now = Ok r ∧
     key_equal (csr_key (IdentityCSR req)) (Attest.LeafPublicKey r) = true).
Proof.
  unfold attestAndBind, ebind, valkey, now, recordRejection, report, eret. cbn.
  destruct (AttestOptional cfg) eqn:Eo; cbn; [destruct (csr_signed _); cbn; intros [=]; auto|].
  destruct (verify _ _ (w_now (e_w st))) as [r|e] eqn:Ev; cbn; [|done]. destruct (csr_signed _); cbn; [|done].
  destruct (key_equal _ _) eqn:Ek; cbn; [|done]. intros [=]. split; [done|]. right. by exists (w_now (e_w st)), r.
Qed.

Lemma issue_locked_ok name ip orderID cur att req (st : est S N) res st' :
  issue_locked keyFingerprint sign obtain renew name ip orderID cur att req st = (Ok res, st') →
  sign (IdentityCSR req) name = Ok (IdentityCert res) ∧
  ∃ o info, (o = obtain (TLSCSR req) name ∨ ∃ cur, o = renew (TLSCSR req) name cur) ∧
    o_result o = Ok (PublicCert res, info) ∧ ResultCA res = ci_CA info.
Proof.
  unfold issue_locked. destruct (sign _ _) as [pem|]; [|done]. set (o := if negb _ then _ else _).
  assert (o = obtain (TLSCSR req) name ∨ ∃ cur, o = renew (TLSCSR req) name cur) as Ho.
  { subst o. destruct (negb _); [right; by eexists|by left]. }
  unfold ebind at 1. destruct (valkey _ st) as [u st1]. destruct (o_result o) as [[chain info]|e] eqn:Er.
  - unfold ebind at 1. run_if. unfold ebind at 1.
    destruct (valkey _ _) as [u2 st3]. unfold ebind at 1. destruct (valkey ctx_done st3) as [cancelled st4]. unfold ebind.
    run_if. intros [= <- _]. cbn. split; [done|]. by exists o, info.
  - destruct (o_crashed o); [done|]. unfold ebind at 1. destruct (report _ st1) as [u1 st2]. unfold ebind.
    by run_if.
Qed.

Lemma Issue_ok name ip req (st : est S N) res st' :
  svc_Issue name ip req st = (Ok res, st') → (consumeNonce (Nonce_ req) (e_w st)).1 = Ok true ∧ issued_to name req res.
Proof.
  unfold Issue. unfold ebind at 1, valkey at 1. destruct (consumeNonce _ _) as [[[]|] w1]; [|done..].
  set (st1 := ESt w1 _ _). unfold ebind at 1.
  destruct (attestAndBind cfg verify key_equal ip name req st1) as [[att|e] st2] eqn:Ea; [|done].
  destruct (attest_ok _ _ _ _ _ _ Ea) as [Hs Hatt].
  destruct (csr_signed (TLSCSR req)) eqn:E1; cbn [negb]; [|done].
  destruct (csrMatchesTunnel _ _ _) eqn:E2; cbn [negb]; [|done].
  destruct (isECDSAP256 _) eqn:E3; cbn [negb]; [|done].
  unfold ebind at 1, names at 1. destruct (ns_get name (e_names st2)) as [[cur|[]] n2] eqn:En; [|done..].
  unfold ebind at 1. destruct (valkey _ _) as [[[[[] orderID] d]|[]] st3]; [|done..]. unfold ebind at 1.
  destruct (issue_locked _ _ _ _ _ _ _ _ _ _ st3) as [r st4] eqn:El. unfold ebind. destruct (valkey _ st4) as [u st5].
  intros [= -> _]. split; [done|]. apply issue_locked_ok in El as [Hi Ho].
  split; auto. exists (e_names st2), cur. by rewrite En.
Qed.

(** Every answer that is not the service's leaves the store and the registry alone. *)
Lemma serveIssue_inv draining issueBody method body_ name ip (st : est S N) :
  let '(a, st') := serveIssue draining issueBody method body_ name ip st in
  (st' = st ∧ ia_status a ≠ 200 ∧ is_certs (ia_body a) = false ∧ ia_refused a = true) ∨
  (method = "POST" ∧ draining = false ∧ ∃ b req r, body_ = Some b ∧ Unmarshal (take issueBody b) = Some req ∧
     parse_issue req = Ok r ∧ st' = (svc_Issue name ip r st).2 ∧
     match (svc_Issue name ip r st).1 with
     | Ok res => ia_status a = 200 ∧ ia_body a = BCerts (IdentityCert res) (PublicCert res) (ResultCA res)
     | Err e => ia_status a = (if String.eqb (Reason e) "unauthorized" then 401 else if Retryable e then 503 else 400) ∧
                is_certs (ia_body a) = false ∧ ia_refused a = refusal (Reason e)
     end).
Proof.
  unfold serveIssue. destruct (String.eqb_spec method "POST") as [->|]; cbn [negb]; [|by left].
  destruct draining; [by left|]. destruct body_ as [b|]; [|by left].
  destruct (Unmarshal (take issueBody b)) as [req|] eqn:Eu; [|by left].
  unfold issueFunc, ebind, eret. destruct (parse_issue req) as [r|reason] eqn:Ep; [|by left].
  destruct (svc_Issue name ip r st) as [[res|e] st'] eqn:Ei; right; (split; [done|]); (split; [done|]);
    exists b, req, r; rewrite Ei; by split_and!.
Qed.

(** C11. A phone gets certificates only for its own name. From the request on the phone
    listener to the answer: if the body of the answer holds certificates, the client
    certificate was a phone's, its name is valid and not banned, the node was not
    draining, the request is the one the submitted body decodes to, its nonce was
    consumed, and [issued_to] holds of the name and the request: the attestation was
    verified for that nonce and the keys agree, or the configuration makes attestation
    optional, the CSR names only this tunnel, and the chain and the authority produced
    what was answered. *)
Theorem certificates_only_for_own_name draining issueBody r body_ (st : est S N) a st' identity public ca :
  servePhone draining issueBody r body_ st = (Some a, st') → ia_body a = BCerts identity public ca →
  ∃ id wire req, PhoneConn.r_cert r = Some id ∧ PhoneConn.cc_mesh id = false ∧
    submitted issueBody body_ req wire ∧
    (∀ f, validName = Some f → f (PhoneConn.cc_CN id) = true) ∧
    PhoneConn.asks_ban banTunnel (PhoneConn.cc_CN id) = false ∧ draining = false ∧
    (consumeNonce (Nonce_ req) (e_w st)).1 = Ok true ∧
    issued_to (PhoneConn.cc_CN id) req
      {| Name_ := PhoneConn.cc_CN id; IdentityCert := identity; PublicCert := public; ResultCA := ca |}.
Proof.
  unfold servePhone, PhoneConn.ServeHTTP. destruct (ParseAddr _) as [addr|]; [|done].
  destruct (PhoneConn.asks_ban banIP addr); [done|]. destruct (String.eqb (PhoneConn.r_path r) "/api/v1/data"); [done|].
  unfold PhoneConn.identity. destruct (PhoneConn.r_cert r) as [id|]; [|done].
  destruct (PhoneConn.cc_mesh id) eqn:Em; [done|].
  destruct (match validName with Some f => negb (f (PhoneConn.cc_CN id)) | None => false end) eqn:Ev; [done|].
  destruct (PhoneConn.asks_ban banTunnel (PhoneConn.cc_CN id)) eqn:Eb; [done|].
  destruct (String.eqb (PhoneConn.r_path r) "/api/v1/control"); [by repeat case_match|].
  destruct (String.eqb (PhoneConn.r_path r) "/api/v1/issue"); [|done]. unfold ebind, eret.
  pose proof (serveIssue_inv draining issueBody (PhoneConn.r_method r) body_ (PhoneConn.cc_CN id)
    (Edge.peerAddr (PhoneConn.r_peer r)) st) as Hs.
  destruct (serveIssue _ _ _ _ _ _ st) as [a0 st0]. intros [= -> ->] Hb.
  destruct Hs as [(_ & _ & Hc & _)|(Hm & Hd & b & req & rq & Hbody & Hu & Hp & _ & Hans)]; [by rewrite Hb in Hc|].
  exists id, req, rq. destruct (svc_Issue _ _ rq st) as [[res|e] st2] eqn:Ei.
  - destruct Hans as [_ Hans]. cbn in Hans. rewrite Hb in Hans. injection Hans as -> -> ->.
    destruct (Issue_ok _ _ _ _ _ _ Ei) as [Hn [I1 I2 I3 I4 I5]]. do 2 (split; [done|]).
    split; [subst body_; by apply parse_issue_submitted|].
    split; [intros f ->; by apply negb_false_iff in Ev|]. do 3 (split; [done|]). by split.
  - destruct Hans as (_ & Hc & _). by rewrite Hb in Hc.
Qed.
End issue.

(** ** Requests in progress while the node drains *)
Inductive hop := OAdd | OCheckDraining | OServe.
(** [issuing.Add(1)] with its deferred [Add(-1)], the check, the rest. *)
Definition issue_program : list hop := [OAdd; OCheckDraining; OServe].

Record handler := Handler { h_rest : list hop; h_deferred : nat }.
Record drain_state := DState {
  ds_issuing : Z;
  ds_draining : bool;
  ds_idle : bool;                      (* the drain has read 0 *)
  ds_handlers : gmap nat handler
}.
Definition dstart : drain_state := DState 0 false false ∅.
Definition InFlightIssues (s : drain_state) : Z := ds_issuing s.

Definition set_handler (i : nat) (h : handler) (n : Z) (s : drain_state) : drain_state :=
  DState n (ds_draining s) (ds_idle s) (<[i := h]> (ds_handlers s)).

Inductive dstep : drain_state → drain_state → Prop :=
| ds_arrive s i : ds_handlers s !! i = None → dstep s (set_handler i (Handler issue_program 0) (ds_issuing s) s)
| ds_add s i rest d : ds_handlers s !! i = Some (Handler (OAdd :: rest) d) →
    dstep s (set_handler i (Handler rest (S d)) (ds_issuing s + 1) s)
| ds_check s i rest d : ds_handlers s !! i = Some (Handler (OCheckDraining :: rest) d) →
    dstep s (set_handler i (Handler (if ds_draining s then [] else rest) d) (ds_issuing s) s)
| ds_served s i rest d : ds_handlers s !! i = Some (Handler (OServe :: rest) d) →
    dstep s (set_handler i (Handler rest d) (ds_issuing s) s)
| ds_deferred s i d : ds_handlers s !! i = Some (Handler [] (S d)) →
    dstep s (set_handler i (Handler [] d) (ds_issuing s - 1) s)
| ds_drain s : dstep s (DState (ds_issuing s) true (ds_idle s) (ds_handlers s))
| ds_poll s : ds_draining s = true → InFlightIssues s = 0 →
    dstep s (DState (ds_issuing s) true true (ds_handlers s)).

(** A handler is past the check and may order certificates. *)
Definition serving (h : handler) : bool := match h_rest h with OServe :: _ => true | _ => false end.

Definition handler_ok (h : handler) : Prop :=
  h ∈ [Handler issue_program 0; Handler [OCheckDraining; OServe] 1; Handler [OServe] 1; Handler [] 1; Handler [] 0].
Definition weight (h : handler) : Z := Z.of_nat (h_deferred h).

Record dinv (s : drain_state) : Prop := {
  dv_ok : ∀ i h, ds_handlers s !! i = Some h → handler_ok h;
  dv_count : ds_issuing s = sum_of weight (ds_handlers s);
  dv_idle : ds_idle s = true → ds_draining s = true ∧ ∀ i h, ds_handlers s !! i = Some h → serving h = false
}.

Lemma weight_bound (m : gmap nat handler) i h : m !! i = Some h → weight h ≤ sum_of weight m.
Proof. apply sum_of_part. intros. unfold weight. lia. Qed.

Lemma dinv_set s i old new n : dinv s → ds_handlers s !! i = Some old →
  handler_ok new → n = ds_issuing s + weight new - weight old →
  (ds_idle s = true → serving new = false) → dinv (set_handler i new n s).
Proof.
  intros [H1 H2 H3] Hi Hok -> Hs. split; cbn.
  - intros j h. rewrite lookup_insert_Some. intros [[_ <-]|[_ Hj]]; eauto.
  - rewrite sum_of_insert, Hi, <- H2. lia.
  - intros Hidle. destruct (H3 Hidle) as [Hd Hq]. split; [done|].
    intros j h. rewrite lookup_insert_Some. intros [[_ <-]|[_ Hj]]; eauto.
Qed.

(** Membership in a literal list. *)
Ltac listed := unfold handler_ok; solve [repeat first [left; reflexivity | right]].

Lemma drain_step_inv s s' : dinv s → dstep s s' → dinv s'.
Proof.
  intros Hinv Hs. pose proof Hinv as [H1 H2 H3].
  destruct Hs as [s i Hi|s i rest d Hi|s i rest d Hi|s i rest d Hi|s i d Hi|s|s Hd Hz];
    try (pose proof (H1 i _ Hi) as Hok; unfold handler_ok in Hok; rewrite !elem_of_cons, elem_of_nil in Hok;
         destruct_or! Hok; simplify_eq/=).
  - split; cbn.
    + intros j h. rewrite lookup_insert_Some. intros [[_ <-]|[_ Hj]]; [by left|eauto].
    + rewrite sum_of_fresh by done. exact H2.
    + intros Hidle. destruct (H3 Hidle) as [Hd Hq]. split; [done|].
      intros j h. rewrite lookup_insert_Some. intros [[_ <-]|[_ Hj]]; [done|eauto].
  - eapply dinv_set; [done|done|listed|unfold weight; cbn; lia|done].
  - eapply dinv_set; [done|done|destruct (ds_draining s); listed|unfold weight; cbn; lia|].
    intros Hidle. by rewrite (proj1 (H3 Hidle)).
  - eapply dinv_set; [done|done|listed|unfold weight; cbn; lia|done].
  - eapply dinv_set; [done|done|listed|unfold weight; cbn; lia|done].
  - split; [done|done|]. cbn. intros Hidle. split; [done|]. by apply H3.
  - split; [done|done|]. cbn. intros _. split; [done|]. intros i h Hi. destruct (serving h) eqn:Es; [|done]. exfalso.
    pose proof (weight_bound _ _ _ Hi). pose proof (H1 _ _ Hi) as Hok. unfold handler_ok in Hok.
    rewrite !elem_of_cons, elem_of_nil in Hok. unfold InFlightIssues in Hz. rewrite H2 in Hz.
    destruct_or! Hok; subst h; unfold weight in *; cbn in *; done || lia.
Qed.

(** C12. A drain that saw no issuance cuts none off. In every interleaving of the
    handlers of POST /api/v1/issue, which count themselves before they look whether the
    node drains, with the drain, which announces itself before it reads the count: the
    count is the number of handlers that still have to subtract themselves, and from the
    moment the drain read 0 no handler serves a request, those that arrive later
    included. *)
Theorem no_issue_after_idle_drain s i h : run dstep dstart s →
  (InFlightIssues s = sum_of weight (ds_handlers s)) ∧
  (ds_idle s = true → ds_handlers s !! i = Some h → serving h = false).
Proof.
  intros Hr. assert (dinv s) as [H1 H2 H3].
  { apply (run_invariant dstep dinv) with (s := dstart); [apply drain_step_inv|done|]. split; [|done|done].
    intros j h'. cbn. by rewrite lookup_empty. }
  split; [done|]. intros Hidle Hi. by apply (proj2 (H3 Hidle) i).
Qed.

(** ** A nudge's nonce *)

(** The nonce sent with a renewal nudge is read back by [parse_issue] and is
    accepted once. *)
Lemma nudge_nonce_good_once {S} `{ValkeyServer S} `{!ValkeyLaws S} fresh (w : world S) :
  quiet w → ∃ w1 w2 nonceHex, challengeFunc fresh w = (Ok nonceHex, w1) ∧ EnrollHTTP.decodeHex nonceHex = Some fresh ∧
    consumeNonce fresh w1 = (Ok true, w2) ∧ (consumeNonce fresh w2).1 = Ok false.
Proof.
  intros Hq. unfold challengeFunc, bind, ret.
  destruct (EnrollHTTP.Nonce_run fresh w Hq) as (w1 & -> & F1 & A1).
  destruct (consumeNonce_spec fresh w1 (frame_quiet _ _ _ F1)) as (w2 & E2 & F2 & A2).
  destruct (consumeNonce_spec fresh w2 (frame_quiet _ _ _ F2)) as (w3 & E3 & _).
  exists w1, w2, (hex_encode fresh). split; [done|]. split; [apply EnrollHTTP.decodeHex_encode|].
  rewrite E2, E3, A2. by destruct (at_key w1 _).
Qed.

(** ** Examples *)
#[local] Existing Instance map_names.
#[local] Existing Instance bit_floats.

Definition sample_phone : PhoneConn.request := {|
  PhoneConn.r_path := "/api/v1/issue"; PhoneConn.r_method := "POST"; PhoneConn.r_protoMajor := 2;
  PhoneConn.r_peer := "192.0.2.1:4242";
  PhoneConn.r_cert := Some {| PhoneConn.cc_CN := "abc"; PhoneConn.cc_mesh := false; PhoneConn.cc_keyFP := "fp";
                              PhoneConn.cc_serial := "1"; PhoneConn.cc_notAfter := 0 |} |}.
Definition sample_pem (b : bytes) : option (string * bytes * bytes) :=
  match b with [] => None | _ => Some ("CERTIFICATE", [], []) end.
Definition sample_issue_req : IssueRequest := MkIssue "2a" [x00] [x00] [x00].
Definition strict_config : Config := {|
  TunnelDomain := "t.example.org"; IssuePerWeek := 5; EnrollHour := 10; EnrollMinute := 2;
  ClaimTimeout := 30 * second; ClaimSettle := second; AttestOptional := false |}.
(** A verifier that accepts a chain over this nonce. *)
Definition sample_verify (chain : list (Attest.Certificate unit)) (nonce : bytes) (now : Z)
    : result Attest.attest_error (Attest.Result unit) :=
  match chain with
  | _ :: _ => if bool_decide (nonce = [x2a]) then Ok (Attest.MkResult "app" (Attest.Build_DeviceInfo 0 0 0 0 0 0 "tee") tt)
            else Err Attest.ErrChallengeMismatch
  | [] => Err Attest.ErrEmptyChain
  end.
Definition sample_serve (r : PhoneConn.request) : E mem_server (gmap string NameRecord) (option issue_answer) :=
  servePhone strict_config sample_verify (λ _ _, true) (λ _, true) (λ _, "fp") (λ _ _, Ok "identity")
    (λ _ _, sample_order) (λ _ _ _, sample_order) (λ _, Some sample_issue_req) sample_pem
    (λ _, Some (Attest.MkCert [] "1" tt None)) (λ _, Some sample_csr) Some None None None false 65536 r (Some []).

Lemma certificates_only_for_own_name_witness :
  ∃ id wire req, PhoneConn.r_cert sample_phone = Some id ∧ PhoneConn.cc_CN id = "abc" ∧ wire = sample_issue_req ∧
    Nonce_ req = [x2a] ∧ csrMatchesTunnel (K := unit) (TLSCSR req) "abc" "t.example.org" = true ∧
    ∃ now r, sample_verify (AttestChain req) (Nonce_ req) now = Ok r.
Proof.
  destruct (certificates_only_for_own_name strict_config sample_verify (λ _ _, true) (λ _, true)
    (λ _, "fp") (λ _ _, Ok "identity") (λ _ _, sample_order) (λ _ _ _, sample_order) (λ _, Some sample_issue_req) sample_pem
    (λ _, Some (Attest.MkCert [] "1" tt None)) (λ _, Some sample_csr) Some None None None false 65536 sample_phone (Some [])
    sample_est (Answer 200 (BCerts "identity" "pem" "le") false false) (sample_serve sample_phone sample_est).2
    "identity" "pem" "le") as (id & wire & req & Hc & _ & Hw & _ & _ & _ & _ & Hi).
  - vm_compute. reflexivity.
  - reflexivity.
  - exists id, wire, req. injection Hc as <-. do 2 (split; [reflexivity|]). destruct Hw as [(b & _ & Hu) Hn _ _ _].
    injection Hu as <-. split; [reflexivity|]. split; [by injection Hn as <-|]. split; [apply Hi|].
    destruct Hi as [_ _ [Ho|(now & r & Hv & _)] _ _]; [discriminate Ho|]. by exists now, r.
Defined.

Lemma no_issue_after_idle_drain_witness :
  ∃ s, run dstep dstart s ∧ ds_idle s = true ∧ ds_handlers s !! 7%nat = Some (Handler issue_program 0) ∧
    serving (Handler issue_program 0) = false.
Proof.
  set (s3 := DState 0 true true (<[7%nat := Handler issue_program 0]> ∅)).
  assert (run dstep dstart s3) as Hr.
  { eapply run_step; [apply (ds_arrive dstart 7%nat); reflexivity|]. eapply run_step; [apply ds_drain|].
    eapply run_step; [apply ds_poll; reflexivity|]. apply run_refl. }
  exists s3. split; [exact Hr|]. split; [reflexivity|]. split; [reflexivity|].
  apply (no_issue_after_idle_drain s3 7%nat (Handler issue_program 0) Hr); reflexivity.
Defined.
End IssueHTTP.
