(* ===== verification/AcmeWire.v ===== *)
(** * The wiring of the ACME chain

    [server/acmewire.go] and [NewChain] of [acme/lazy.go]: the accounts of the
    certificate authorities with their keys on disk, the budgets and the chain
    they make, from the flags of [ServeConfig].

    A key file is read, created or left alone under system calls that may fail;
    a write that fails may leave a part of the file.  PEM and the two encodings
    of a key are parameters. *)
From Stdlib Require Import ZArith Lia Ascii String Strings.Byte.
From S2P Require Import Prelude GoStr GoFloat Valkey Limiter Acme ServeConfig AcmeChain Reserved.
Local Open Scope string_scope.
Local Open Scope list_scope.
Local Open Scope Z_scope.

Module AcmeWire.
Import Acme ServeConfig.

(** Key files by account name, in the accounts directory. *)
Abbreviation files := (gmap string bytes).

(** ** Keys *)
Section wire.
Context `{ConfigEnv} {Key : Type}.
Context (pem_Decode : bytes → option bytes).                    (* the first block's contents *)
Context (ParseECPrivateKey : bytes → option Key).               (* SEC1 *)
Context (ParsePKCS8PrivateKey : bytes → option (option Key)).   (* [Some None]: another kind of key *)
Context (KeyFingerprint : Key → option string).

Definition parseECPrivateKey (pemRaw : bytes) : option Key :=
  match pem_Decode pemRaw with
  | None => None
  | Some block =>
      match ParseECPrivateKey block with
      | Some k => Some k
      | None => match ParsePKCS8PrivateKey block with Some (Some k) => Some k | _ => None end
      end
  end.

Inductive load_error := Unparseable | Unreadable | NoFingerprint | BadRate (flag : string)
  | TimeoutAboveMax | NoMaxTimeout | NoGTSKey.

(** What the system calls of one [loadAccountKey] do. *)
Record calls := Calls {
  k_readable : bool;                       (* an existing file can be read *)
  k_generated : option Key;
  k_mkdir : bool;
  k_encoded : option bytes;                (* the key in PEM *)
  k_write : Reserved.write_result
}.

Definition write_file (id : string) (content : bytes) (w : Reserved.write_result) (fs : files) : files :=
  match w with
  | Reserved.Written => <[id := content]> fs
  | Reserved.Partial n => <[id := take n content]> fs
  | Reserved.Untouched => fs
  end.

(** [Ok None]: a temporary account. *)
Definition loadAccountKey (caID : string) (k : calls) (fs : files) : result load_error (option Key) * files :=
  match fs !! caID with
  | Some raw =>
      (if negb (k_readable k) then Err Unreadable
       else match parseECPrivateKey raw with None => Err Unparseable | Some key => Ok (Some key) end, fs)
  | None =>
      match k_generated k with
      | None => (Ok None, fs)
      | Some key =>
          (Ok (Some key),
           if negb (k_mkdir k) then fs
           else match k_encoded k with None => fs | Some der => write_file caID der (k_write k) fs end)
      end
  end.

Definition loadExistingAccountKey (id : string) (k : calls) (fs : files) : result load_error Key :=
  match fs !! id with
  | None => Err NoGTSKey
  | Some raw =>
      if negb (k_readable k) then Err Unreadable
      else match parseECPrivateKey raw with None => Err Unparseable | Some key => Ok key end
  end.

Definition TrimPrefix (s p : string) : string := if HasPrefix s p then str_drop (String.length p) s else s.

(** The slice of a fingerprint panics when it is shorter than 16 bytes; a SHA-256 is not. *)
Definition accountID (caID nodeID : string) (key : option Key) : result load_error string :=
  match key with
  | None => Ok (caID +:+ "-ephemeral-" +:+ nodeID)
  | Some key =>
      match KeyFingerprint key with
      | None => Err NoFingerprint
      | Some fp => Ok (caID +:+ "-" +:+ str_take 16 (TrimPrefix fp "sha256:"))
      end
  end.

(** ** Budgets *)
Definition rate_flag (name v : string) : result load_error Rate :=
  match ParseRate v with Ok r => Ok r | Err _ => Err (BadRate name) end.

Definition budgetsFrom (c : ServeCmd) : result load_error Budgets :=
  match rate_flag "--acme-budget-le-domain" (ACMEBudgetLEDomain c), rate_flag "--acme-budget-le-orders" (ACMEBudgetLEOrders c),
        rate_flag "--acme-budget-le-name" (ACMEBudgetLEName c), rate_flag "--acme-budget-gts-orders" (ACMEBudgetGTSOrders c),
        rate_flag "--acme-budget-gts-requests" (ACMEBudgetGTSRequests c),
        rate_flag "--acme-budget-gts-cert-polls" (ACMEBudgetGTSCertPolls c),
        rate_flag "--acme-budget-zerossl-orders" (ACMEBudgetZeroSSLOrders c),
        rate_flag "--acme-budget-zerossl-requests" (ACMEBudgetZeroSSLRequests c) with
  | Err e, _, _, _, _, _, _, _ | Ok _, Err e, _, _, _, _, _, _ | Ok _, Ok _, Err e, _, _, _, _, _
  | Ok _, Ok _, Ok _, Err e, _, _, _, _ | Ok _, Ok _, Ok _, Ok _, Err e, _, _, _ | Ok _, Ok _, Ok _, Ok _, Ok _, Err e, _, _
  | Ok _, Ok _, Ok _, Ok _, Ok _, Ok _, Err e, _ | Ok _, Ok _, Ok _, Ok _, Ok _, Ok _, Ok _, Err e => Err e
  | Ok led, Ok leo, Ok len, Ok gto, Ok gtr, Ok gtp, Ok zo, Ok zr =>
      Ok (MkBudgets (ToLower (TunnelDomain c)) led leo len gto gtr gtp zo zr)
  end.

(** ** Accounts *)
Record LegoConfig := {
  CAID : string; DirectoryURL : string; Email : string; AccountKey : option Key; AccountID : string; Label : string;
  ResolveOnly : bool; AttemptTimeout : Z; PollFirst : Z; Profile : string; Validity : Z; RenewMargin : Z; Shortlived : Z;
  UseARI : bool; EABKID : string; EABHMAC : string; Challenge : string; HasDNS : bool
}.

Definition le_config (c : ServeCmd) (key : option Key) (id : string) : LegoConfig := {|
  CAID := CALetsEncrypt; DirectoryURL := ACMEDirLE c; Email := ACMEEmail c; AccountKey := key; AccountID := id; Label := "local";
  ResolveOnly := false; AttemptTimeout := ACMEAttemptTimeoutLE c; PollFirst := ACMEPollFirstLE c;
  Profile := ACMELEProfile c; Validity := 0; RenewMargin := ACMERenewMargin c; Shortlived := shortlivedLifetime;
  UseARI := true; EABKID := EmptyString; EABHMAC := EmptyString; Challenge := ACMEChallengeLE c; HasDNS := false |}.
Definition gts_config (c : ServeCmd) (name : string) (key : Key) (id : string) : LegoConfig := {|
  CAID := CAGTS; DirectoryURL := ACMEDirGTS c; Email := ACMEEmail c; AccountKey := Some key; AccountID := id; Label := name;
  ResolveOnly := true; AttemptTimeout := ACMEAttemptTimeoutGTS c; PollFirst := ACMEPollFirstGTS c;
  Profile := EmptyString; Validity := ACMEGTSValidity c; RenewMargin := ACMERenewMargin c; Shortlived := shortlivedLifetime;
  UseARI := false; EABKID := EmptyString; EABHMAC := EmptyString; Challenge := ACMEChallengeGTS c; HasDNS := false |}.
Definition zerossl_config (c : ServeCmd) (key : option Key) (id : string) : LegoConfig := {|
  CAID := CAZeroSSL; DirectoryURL := ACMEDirZeroSSL c; Email := ACMEEmail c; AccountKey := key; AccountID := id; Label := "local";
  ResolveOnly := false; AttemptTimeout := ACMEAttemptTimeoutZeroSSL c; PollFirst := ACMEPollFirstZeroSSL c;
  Profile := EmptyString; Validity := 0; RenewMargin := ACMERenewMargin c; Shortlived := shortlivedLifetime;
  UseARI := false; EABKID := ACMEEABZeroSSLKID c; EABHMAC := ACMEEABZeroSSLHMAC c; Challenge := ACMEChallengeZeroSSL c;
  HasDNS := false |}.

(** The system calls at the key of each account. *)
Context (io : string → calls) (nodeID : string).

Definition le_accounts (c : ServeCmd) (fs : files) : result load_error (list LegoConfig) * files :=
  if negb (LEEnabled c) then (Ok [], fs)
  else
    let '(r, fs) := loadAccountKey CALetsEncrypt (io CALetsEncrypt) fs in
    (match r with
     | Err e => Err e
     | Ok key => match accountID CALetsEncrypt nodeID key with Err e => Err e | Ok id => Ok [le_config c key id] end
     end, fs).

Fixpoint gts_accounts (c : ServeCmd) (names : list string) (fs : files) : result load_error (list LegoConfig) :=
  match names with
  | [] => Ok []
  | name :: names =>
      match loadExistingAccountKey name (io name) fs with
      | Err e => Err e
      | Ok key =>
          match accountID CAGTS nodeID (Some key) with
          | Err e => Err e
          | Ok id => match gts_accounts c names fs with Err e => Err e | Ok l => Ok (gts_config c name key id :: l) end
          end
      end
  end.

Definition zerossl_accounts (c : ServeCmd) (fs : files) : result load_error (list LegoConfig) * files :=
  if negb (ZeroSSLEnabled c) then (Ok [], fs)
  else
    let '(r, fs) := loadAccountKey CAZeroSSL (io CAZeroSSL) fs in
    (match r with
     | Err e => Err e
     | Ok key => match accountID CAZeroSSL nodeID key with Err e => Err e | Ok id => Ok [zerossl_config c key id] end
     end, fs).

Definition with_dns (b : bool) (l : LegoConfig) : LegoConfig := {|
  CAID := CAID l; DirectoryURL := DirectoryURL l; Email := Email l; AccountKey := AccountKey l; AccountID := AccountID l;
  Label := Label l; ResolveOnly := ResolveOnly l; AttemptTimeout := AttemptTimeout l; PollFirst := PollFirst l;
  Profile := Profile l; Validity := Validity l; RenewMargin := RenewMargin l; Shortlived := Shortlived l; UseARI := UseARI l;
  EABKID := EABKID l; EABHMAC := EABHMAC l; Challenge := Challenge l; HasDNS := b |}.

(** A DNS provider that is not available is logged and left out. *)
Definition acmeLegoConfigs (c : ServeCmd) (dns_available : bool) (fs : files) : result load_error (list LegoConfig) * files :=
  let '(le, fs) := le_accounts c fs in
  match le with
  | Err e => (Err e, fs)
  | Ok le =>
      match gts_accounts c (ACMEGTSAccounts c) fs with
      | Err e => (Err e, fs)
      | Ok gts =>
          let '(zs, fs) := zerossl_accounts c fs in
          (match zs with
           | Err e => Err e
           | Ok zs =>
               let l := le ++ gts ++ zs in
               Ok (if UsesChallenge c ChallengeDNS01 && dns_available then map (with_dns true) l else l)
           end, fs)
      end
  end.

(** ** The chain *)
Definition settleTimeout : Z := 5 * second.
Definition limitedMarkTTL (maxAttempt grace : Z) : Z := wrap64 (maxAttempt + grace + settleTimeout + minute).
Definition account_of (l : LegoConfig) : account := Account (CAID l) (AccountID l) (Label l) (AttemptTimeout l).

Fixpoint chain_accounts (maxAttempt : Z) (ls : list LegoConfig) : result load_error (list account) :=
  match ls with
  | [] => Ok []
  | l :: ls =>
      if maxAttempt <? AttemptTimeout l then Err TimeoutAboveMax
      else match chain_accounts maxAttempt ls with Err e => Err e | Ok as_ => Ok (account_of l :: as_) end
  end.
Definition NewChain (maxAttempt : Z) (ls : list LegoConfig) : result load_error (list (list account)) :=
  if maxAttempt <=? 0 then Err NoMaxTimeout
  else match chain_accounts maxAttempt ls with Err e => Err e | Ok as_ => Ok (AcmeChain.groups as_) end.

Definition buildACMEChain (c : ServeCmd) (dns_available : bool) (fs : files)
    : result load_error (Budgets * list (list account)) * files :=
  match budgetsFrom c with
  | Err e => (Err e, fs)
  | Ok budgets =>
      let '(r, fs) := acmeLegoConfigs c dns_available fs in
      (match r with
       | Err e => Err e
       | Ok ls => match NewChain MaxACMEAttemptTimeout ls with Err e => Err e | Ok g => Ok (budgets, g) end
       end, fs)
  end.

(** ** Existing keys *)
Lemma loadAccountKey_keeps caID k fs id raw : fs !! id = Some raw → (loadAccountKey caID k fs).2 !! id = Some raw.
Proof.
  intros Hf. unfold loadAccountKey, write_file. destruct (fs !! caID) eqn:Ec; [done|].
  assert (caID ≠ id) by congruence. destruct (k_generated k); [|done]. cbn. destruct (k_mkdir k); [|done]. cbn.
  destruct (k_encoded k); [|done]. destruct (k_write k); [by rewrite lookup_insert_ne..|done].
Qed.

Lemma loadAccountKey_other caID k fs id : id ≠ caID → (loadAccountKey caID k fs).2 !! id = fs !! id.
Proof.
  intros Hne. unfold loadAccountKey, write_file. destruct (fs !! caID); [done|]. destruct (k_generated k); [|done]. cbn.
  destruct (k_mkdir k); [|done]. cbn. destruct (k_encoded k); [|done]. destruct (k_write k); [by rewrite lookup_insert_ne..|done].
Qed.

Lemma build_keeps c dns fs id raw : fs !! id = Some raw → (buildACMEChain c dns fs).2 !! id = Some raw.
Proof.
  intros Hf. unfold buildACMEChain, acmeLegoConfigs, le_accounts, zerossl_accounts. destruct (budgetsFrom c); [|done].
  assert (∀ caID k fs, fs !! id = Some raw → ∀ r fs', loadAccountKey caID k fs = (r, fs') → fs' !! id = Some raw) as Hk.
  { intros caID k fs0 H0 r fs' E. pose proof (loadAccountKey_keeps caID k fs0 id raw H0) as Hl. by rewrite E in Hl. }
  repeat case_match; simplify_eq/=; eauto.
Qed.

(** ** Restarts *)
Definition codec (k : calls) : Prop :=
  ∀ key der, k_generated k = Some key → k_encoded k = Some der → parseECPrivateKey der = Some key.

(** The file of an account holds its key: it was there, or the new key was written. *)
Definition saved (k : calls) (caID : string) (fs fs' : files) : Prop :=
  is_Some (fs' !! caID) ∧ (k_write k = Reserved.Written ∨ is_Some (fs !! caID)).

Lemma load_saved caID k fs r fs' : codec k → saved k caID fs fs' → loadAccountKey caID k fs = (Ok r, fs') →
  ∃ key raw, r = Some key ∧ fs' !! caID = Some raw ∧ parseECPrivateKey raw = Some key.
Proof.
  intros Hc [[x Hx] Hw]. unfold loadAccountKey, write_file. destruct (fs !! caID) as [raw|] eqn:Ef.
  - destruct (k_readable k); cbn [negb]; [|done]. destruct (parseECPrivateKey raw) as [k0|] eqn:Ep; [|done].
    intros [= <- <-]. by exists k0, raw.
  - destruct Hw as [Hw|[y Hy]]; [|done]. destruct (k_generated k) as [k0|] eqn:Eg; [|intros [= <- <-]; congruence].
    destruct (k_mkdir k); cbn [negb]; [|intros [= <- <-]; congruence].
    destruct (k_encoded k) as [der|] eqn:Ed; [|intros [= <- <-]; congruence]. rewrite Hw. intros [= <- <-].
    exists k0, der. by rewrite lookup_insert_eq, (Hc k0 der Eg Ed).
Qed.

Lemma load_existing caID k fs raw key : fs !! caID = Some raw → k_readable k = true → parseECPrivateKey raw = Some key →
  loadAccountKey caID k fs = (Ok (Some key), fs).
Proof. intros Hf Hr Hp. unfold loadAccountKey. rewrite Hf, Hr. cbn. by rewrite Hp. Qed.

(** ** Accepted flags *)
Lemma budgetsFrom_ok c : runnable c → ∃ b, budgetsFrom c = Ok b ∧
  Forall good_rate [bg_LEDomain b; bg_LEOrders b; bg_LEName b; bg_GTSOrders b; bg_GTSRequests b; bg_GTSCertPolls b;
                    bg_ZeroSSLOrders b; bg_ZeroSSLRequests b].
Proof.
  intros Hr. pose proof (rn_budgets c Hr) as Hb. unfold budget_flags in Hb.
  repeat (apply Forall_cons in Hb as [(? & ? & ?) Hb]). cbn in *.
  unfold budgetsFrom, rate_flag. repeat match goal with E : ParseRate _ = Ok _ |- _ => rewrite E; clear E end.
  eexists. split; [reflexivity|]. cbn. repeat (apply Forall_cons_2; [assumption|]). apply Forall_nil_2.
Qed.

Lemma chain_accounts_ok maxAttempt ls : Forall (λ l, AttemptTimeout l ≤ maxAttempt) ls →
  chain_accounts maxAttempt ls = Ok (map account_of ls).
Proof.
  induction 1 as [|l ls Hl _ IH]; [done|]. cbn. rewrite IH. destruct (Z.ltb_spec maxAttempt (AttemptTimeout l)); [lia|done].
Qed.

(** The accounts of the configs are the enabled ones, in the order of the chain. *)
Definition accounts_shape (c : ServeCmd) (ls : list LegoConfig) : Prop :=
  ∃ le gts zs, ls = le ++ gts ++ zs ∧
    Forall (λ l, CAID l = CALetsEncrypt ∧ AttemptTimeout l = ACMEAttemptTimeoutLE c) le ∧ length le = (if LEEnabled c then 1 else 0)%nat ∧
    Forall (λ l, CAID l = CAGTS ∧ AttemptTimeout l = ACMEAttemptTimeoutGTS c ∧ ResolveOnly l = true) gts ∧
      map Label gts = ACMEGTSAccounts c ∧
    Forall (λ l, CAID l = CAZeroSSL ∧ AttemptTimeout l = ACMEAttemptTimeoutZeroSSL c) zs ∧
      length zs = (if ZeroSSLEnabled c then 1 else 0)%nat.

Lemma gts_accounts_shape c names fs l : gts_accounts c names fs = Ok l →
  Forall (λ l, CAID l = CAGTS ∧ AttemptTimeout l = ACMEAttemptTimeoutGTS c ∧ ResolveOnly l = true) l ∧ map Label l = names.
Proof.
  revert l. induction names as [|name names IH]; intros l; cbn [gts_accounts]; [intros [= <-]; by split|].
  destruct (loadExistingAccountKey _ _ _) as [key|]; [|done]. destruct (accountID _ _ _) as [id|]; [|done].
  destruct (gts_accounts c names fs) as [l0|]; [|done]. intros [= <-]. destruct (IH l0 eq_refl) as [H1 H2].
  split; [by constructor|]. cbn. by rewrite H2.
Qed.

Lemma acmeLegoConfigs_shape c dns fs ls fs' : acmeLegoConfigs c dns fs = (Ok ls, fs') →
  ∃ ls0, accounts_shape c ls0 ∧ map account_of ls = map account_of ls0.
Proof.
  unfold acmeLegoConfigs. destruct (le_accounts c fs) as [[le|] fs1] eqn:El; [|done].
  destruct (gts_accounts c (ACMEGTSAccounts c) fs1) as [gts|] eqn:Eg; [|done].
  destruct (zerossl_accounts c fs1) as [[zs|] fs2] eqn:Ez; [|done]. intros [= <- <-]. exists (le ++ gts ++ zs). split.
  - apply gts_accounts_shape in Eg as [G1 G2]. exists le, gts, zs. unfold le_accounts in El. unfold zerossl_accounts in Ez.
    destruct (LEEnabled c), (ZeroSSLEnabled c); cbn [negb] in *; repeat case_match; simplify_eq/=;
      split_and!; try done; by repeat constructor.
  - destruct (_ && _); [|done]. rewrite map_map. by apply map_ext.
Qed.

Lemma shape_timeouts c ls : runnable c → accounts_shape c ls → Forall (λ l, AttemptTimeout l ≤ MaxACMEAttemptTimeout) ls.
Proof.
  intros Hr (le & gts & zs & -> & H1 & _ & H2 & _ & H3 & _). destruct (rn_timeouts c Hr) as (T1 & T2 & T3).
  rewrite !Forall_app. split_and!; (eapply Forall_impl; [eassumption|]); cbn; intros l Hl; destruct_and? Hl; lia.
Qed.

(** With accepted flags only a key can stop the chain. *)
Definition key_trouble (e : load_error) : Prop := e ∈ [Unparseable; Unreadable; NoFingerprint; NoGTSKey].

Lemma acmeLegoConfigs_err c dns fs e fs' : acmeLegoConfigs c dns fs = (Err e, fs') → key_trouble e.
Proof.
  assert (∀ ca n k e, accountID ca n k = Err e → key_trouble e) as Hid.
  { intros ca n k e0. unfold accountID. repeat case_match; intros; simplify_eq. unfold key_trouble. set_solver. }
  assert (∀ ca k fs e fs', loadAccountKey ca k fs = (Err e, fs') → key_trouble e) as Hload.
  { intros ca k fs0 e0 fs0'. unfold loadAccountKey. repeat case_match; intros; simplify_eq/=; unfold key_trouble; set_solver. }
  assert (∀ names fs e, gts_accounts c names fs = Err e → key_trouble e) as Hgts.
  { intros names fs0 e0. induction names as [|name names IH]; cbn; [done|]. unfold loadExistingAccountKey.
    repeat case_match; intros; simplify_eq/=; eauto; unfold key_trouble; set_solver. }
  unfold acmeLegoConfigs, le_accounts, zerossl_accounts. repeat case_match; intros; simplify_eq/=; eauto.
Qed.

Lemma map_account_timeouts ls ls0 : map account_of ls = map account_of ls0 →
  Forall (λ l, AttemptTimeout l ≤ MaxACMEAttemptTimeout) ls0 → Forall (λ l, AttemptTimeout l ≤ MaxACMEAttemptTimeout) ls.
Proof.
  intros E Hf. assert (Forall (λ a, a_timeout a ≤ MaxACMEAttemptTimeout) (map account_of ls0)) as Ha
    by (by apply Forall_map).
  rewrite <- E in Ha. exact (proj1 (Forall_map account_of (λ a, a_timeout a ≤ MaxACMEAttemptTimeout) ls) Ha).
Qed.

Lemma buildACMEChain_inv c dns fs : runnable c →
  match buildACMEChain c dns fs with
  | (Err e, _) => key_trouble e
  | (Ok (b, g), fs') => budgetsFrom c = Ok b ∧
      ∃ ls, acmeLegoConfigs c dns fs = (Ok ls, fs') ∧ g = AcmeChain.groups (map account_of ls) ∧
            ∃ ls0, accounts_shape c ls0 ∧ map account_of ls = map account_of ls0
  end.
Proof.
  intros Hr. unfold buildACMEChain. destruct (budgetsFrom_ok c Hr) as (b & -> & _).
  destruct (acmeLegoConfigs c dns fs) as [[ls|e] fs'] eqn:El; [|by eapply acmeLegoConfigs_err].
  destruct (acmeLegoConfigs_shape _ _ _ _ _ El) as (ls0 & Hs & Hm).
  unfold NewChain. cbn. rewrite chain_accounts_ok.
  - split; [done|]. exists ls. split_and!; [done|done|by exists ls0].
  - by eapply map_account_timeouts, shape_timeouts.
Qed.
End wire.

(** ** A second start *)
Section restart.
Context `{ConfigEnv} {Key : Type}.
Context (pem_Decode : bytes → option bytes) (ParseECPrivateKey : bytes → option Key).
Context (ParsePKCS8PrivateKey : bytes → option (option Key)) (KeyFingerprint : Key → option string).
Context (io io' : string → calls (Key := Key)) (nodeID nodeID' : string).
Implicit Types (c : ServeCmd) (fs : files).

Abbreviation load := (loadAccountKey pem_Decode ParseECPrivateKey ParsePKCS8PrivateKey).
Abbreviation build io node := (buildACMEChain pem_Decode ParseECPrivateKey ParsePKCS8PrivateKey KeyFingerprint io node).
Abbreviation configs io node := (acmeLegoConfigs pem_Decode ParseECPrivateKey ParsePKCS8PrivateKey KeyFingerprint io node).

Context (Hcodec : ∀ id, codec pem_Decode ParseECPrivateKey ParsePKCS8PrivateKey (io id)).
Context (Hread : ∀ id, k_readable (io' id) = true).

Lemma gts_again c names fs fs' l : (∀ id raw, fs !! id = Some raw → fs' !! id = Some raw) →
  gts_accounts pem_Decode ParseECPrivateKey ParsePKCS8PrivateKey KeyFingerprint io nodeID c names fs = Ok l →
  gts_accounts pem_Decode ParseECPrivateKey ParsePKCS8PrivateKey KeyFingerprint io' nodeID' c names fs' = Ok l.
Proof.
  intros Hk. revert l. induction names as [|name names IH]; intros l; [done|]. cbn. unfold loadExistingAccountKey.
  destruct (fs !! name) as [raw|] eqn:Ef; [|done]. rewrite (Hk _ _ Ef), Hread. destruct (k_readable (io name)); [|done]. cbn.
  destruct (parseECPrivateKey _ _ _ raw) as [key|]; [|done]. destruct (KeyFingerprint key) as [fp|]; [|done].
  destruct (gts_accounts _ _ _ _ io _ _ _ _) as [l0|]; [|done]. intros [= <-]. by rewrite (IH l0 eq_refl).
Qed.

(** One account created on demand, at a second start over files that keep its key. *)
Lemma load_again ca fs r fs1 fs' : load ca (io ca) fs = (Ok r, fs1) → saved (io ca) ca fs fs1 →
  (∀ id raw, fs1 !! id = Some raw → fs' !! id = Some raw) →
  load ca (io' ca) fs' = (Ok r, fs') ∧ ∃ key, r = Some key.
Proof.
  intros El Hs Hk. destruct (load_saved _ _ _ _ _ _ _ _ (Hcodec ca) Hs El) as (key & raw & -> & Hf & Hp).
  split; [|by exists key]. by eapply load_existing; [apply Hk| |].
Qed.

Lemma le_step c fs fs1 le fs' :
  le_accounts pem_Decode ParseECPrivateKey ParsePKCS8PrivateKey KeyFingerprint io nodeID c fs = (Ok le, fs1) →
  (∀ id raw, fs1 !! id = Some raw → fs' !! id = Some raw) →
  (LEEnabled c = true → saved (io CALetsEncrypt) CALetsEncrypt fs fs1) →
  le_accounts pem_Decode ParseECPrivateKey ParsePKCS8PrivateKey KeyFingerprint io' nodeID' c fs' = (Ok le, fs').
Proof.
  unfold le_accounts. destruct (LEEnabled c); cbn [negb]; [|by intros [= <- <-]]. intros E Hk Hs.
  destruct (load CALetsEncrypt (io CALetsEncrypt) fs) as [[r|e] fs0] eqn:El; [|done].
  assert (fs0 = fs1) as <- by (by destruct (accountID _ _ _ _); injection E).
  destruct (load_again _ _ _ _ _ El (Hs eq_refl) Hk) as [-> (key & ->)]. cbn in *. destruct (KeyFingerprint key); [|done].
  by injection E as <-.
Qed.

Lemma zerossl_step c fs1 zs fs' :
  zerossl_accounts pem_Decode ParseECPrivateKey ParsePKCS8PrivateKey KeyFingerprint io nodeID c fs1 = (Ok zs, fs') →
  (ZeroSSLEnabled c = true → saved (io CAZeroSSL) CAZeroSSL fs1 fs') →
  (∀ id raw, fs1 !! id = Some raw → fs' !! id = Some raw) ∧ fs' !! CALetsEncrypt = fs1 !! CALetsEncrypt ∧
  zerossl_accounts pem_Decode ParseECPrivateKey ParsePKCS8PrivateKey KeyFingerprint io' nodeID' c fs' = (Ok zs, fs').
Proof.
  unfold zerossl_accounts. destruct (ZeroSSLEnabled c); cbn [negb]; [|by intros [= <- <-]]. intros E Hs.
  pose proof (λ id raw, loadAccountKey_keeps pem_Decode ParseECPrivateKey ParsePKCS8PrivateKey CAZeroSSL (io CAZeroSSL) fs1 id raw) as Hk.
  pose proof (loadAccountKey_other pem_Decode ParseECPrivateKey ParsePKCS8PrivateKey CAZeroSSL (io CAZeroSSL) fs1 CALetsEncrypt) as Ho.
  destruct (load CAZeroSSL (io CAZeroSSL) fs1) as [[r|e] fs0] eqn:El; [|done].
  assert (fs0 = fs') as -> by (by destruct (accountID _ _ _ _); injection E).
  split; [exact Hk|]. split; [by apply Ho|].
  destruct (load_again _ _ _ _ _ El (Hs eq_refl) (λ _ _ H, H)) as [-> (key & ->)]. cbn in *. destruct (KeyFingerprint key); [|done].
  by injection E as <-.
Qed.

Lemma le_keeps_other c fs r fs1 id : id ≠ CALetsEncrypt →
  le_accounts pem_Decode ParseECPrivateKey ParsePKCS8PrivateKey KeyFingerprint io nodeID c fs = (r, fs1) → fs1 !! id = fs !! id.
Proof.
  intros Hne. unfold le_accounts. destruct (LEEnabled c); cbn [negb]; [|by intros [= _ <-]].
  pose proof (loadAccountKey_other pem_Decode ParseECPrivateKey ParsePKCS8PrivateKey CALetsEncrypt (io CALetsEncrypt) fs id Hne) as Ho.
  destruct (load CALetsEncrypt (io CALetsEncrypt) fs) as [r0 fs0]. by intros [= _ <-].
Qed.

Lemma configs_again c dns fs ls fs' : configs io nodeID c dns fs = (Ok ls, fs') →
  (LEEnabled c = true → saved (io CALetsEncrypt) CALetsEncrypt fs fs') →
  (ZeroSSLEnabled c = true → saved (io CAZeroSSL) CAZeroSSL fs fs') →
  configs io' nodeID' c dns fs' = (Ok ls, fs').
Proof.
  intros E Hle Hzs. unfold acmeLegoConfigs in *.
  destruct (le_accounts _ _ _ _ io nodeID c fs) as [[le|] fs1] eqn:El; [|done].
  destruct (gts_accounts _ _ _ _ io nodeID c _ fs1) as [gts|] eqn:Eg; [|done].
  destruct (zerossl_accounts _ _ _ _ io nodeID c fs1) as [[zs|] fs2] eqn:Ez; [|done]. injection E as <- ->.
  destruct (zerossl_step c fs1 zs fs' Ez) as (Hk & Hl & Ez').
  { intros Hz. destruct (Hzs Hz) as [H1 H2]. split; [done|]. by rewrite (le_keeps_other c fs (Ok le) fs1 CAZeroSSL ltac:(done) El). }
  rewrite (le_step c fs fs1 le fs' El Hk) by (intros He; destruct (Hle He); split; [by rewrite <- Hl|done]).
  rewrite (gts_again c _ fs1 fs' gts Hk Eg), Ez'. done.
Qed.
End restart.

(** C27. ACME accounts survive a restart. For a configuration that passes validation,
    whatever the disk and the key generator answer: no key file that existed is changed;
    the chain is built from the enabled authorities in their order, or the start fails
    because of a key and nothing else; and if the new keys were saved whole and encoding
    is inverted by parsing, then the next start, with any node id and any generated
    keys, reads them back, builds the same chain with the same account ids and leaves
    the files as they are. *)
Theorem accounts_survive_restart `{ConfigEnv} {Key : Type} pem_Decode (ParseECPrivateKey : bytes → option Key)
    ParsePKCS8PrivateKey KeyFingerprint io io' nodeID nodeID' c dns (fs : files) :
  Validate c = None →
  (∀ id raw, fs !! id = Some raw →
     (buildACMEChain pem_Decode ParseECPrivateKey ParsePKCS8PrivateKey KeyFingerprint io nodeID c dns fs).2 !! id = Some raw) ∧
  match buildACMEChain pem_Decode ParseECPrivateKey ParsePKCS8PrivateKey KeyFingerprint io nodeID c dns fs with
  | (Err e, _) => key_trouble e
  | (Ok (b, g), fs') =>
      (∃ ls, accounts_shape c ls ∧ g = AcmeChain.groups (map (account_of (Key := Key)) ls)) ∧
      ((∀ id, codec pem_Decode ParseECPrivateKey ParsePKCS8PrivateKey (io id)) → (∀ id, k_readable (io' id) = true) →
       (LEEnabled c = true → saved (io CALetsEncrypt) CALetsEncrypt fs fs') →
       (ZeroSSLEnabled c = true → saved (io CAZeroSSL) CAZeroSSL fs fs') →
       buildACMEChain pem_Decode ParseECPrivateKey ParsePKCS8PrivateKey KeyFingerprint io' nodeID' c dns fs' = (Ok (b, g), fs'))
  end.
Proof.
  intros Hv. pose proof (validated_config_is_runnable c Hv) as Hr. split; [intros; by apply build_keeps|].
  pose proof (buildACMEChain_inv pem_Decode ParseECPrivateKey ParsePKCS8PrivateKey KeyFingerprint io nodeID c dns fs Hr) as Hb.
  destruct (buildACMEChain _ _ _ _ io nodeID c dns fs) as [[[b g]|e] fs'] eqn:Eb; [|done].
  destruct Hb as (Hbud & ls & El & -> & ls0 & Hs & Hm). split; [exists ls0; by rewrite Hm|].
  intros Hcodec Hread Hle Hzs.
  pose proof (configs_again pem_Decode ParseECPrivateKey ParsePKCS8PrivateKey KeyFingerprint io io' nodeID nodeID'
    Hcodec Hread c dns fs ls fs' El Hle Hzs) as E2.
  unfold buildACMEChain. rewrite Hbud, E2. unfold NewChain. cbn. rewrite chain_accounts_ok; [done|].
  by eapply map_account_timeouts, shape_timeouts.
Qed.

(** ** Examples *)
#[local] Existing Instance sample_config_env.
Definition sample_calls (w : Reserved.write_result) : calls (Key := unit) :=
  Calls true (Some tt) true (Some [x01; x02]) w.
Definition sample_sec1 (b : bytes) : option unit := if decide (b = [x01; x02]) then Some tt else None.
Definition sample_start (w : Reserved.write_result) (node : string) (fs : files) :=
  buildACMEChain Some sample_sec1 (λ _, None) (λ _, Some "sha256:0123456789abcdef0123") (λ _, sample_calls w) node
    default_config false fs.

Definition sample_files : files := <["gts-1" := [x01; x02]]> {["gts-2" := [x01; x02]]}.

(** A write that fails half way leaves a part of a key, and the next start refuses it. *)
Lemma torn_key_stops_next_start :
  let '(r1, fs1) := sample_start (Reserved.Partial 1) "n1" sample_files in
  is_ok r1 = true ∧ (sample_start Reserved.Written "n2" fs1).1 = Err Unparseable.
Proof. vm_compute. by split. Qed.

Lemma default_config_valid : Validate default_config = None.
Proof. vm_compute. reflexivity. Qed.

Lemma accounts_survive_restart_witness :
  match sample_start Reserved.Written "n1" sample_files with
  | (Err _, _) => False
  | (Ok (b, g), fs') => sample_start Reserved.Untouched "n2" fs' = (Ok (b, g), fs')
  end.
Proof.
  pose proof (accounts_survive_restart Some sample_sec1 (λ _, None) (λ _, Some "sha256:0123456789abcdef0123")
    (λ _, sample_calls Reserved.Written) (λ _, sample_calls Reserved.Untouched) "n1" "n2" default_config false sample_files
    default_config_valid) as Hs.
  apply proj2 in Hs. unfold sample_start at 1.
  assert (is_ok (sample_start Reserved.Written "n1" sample_files).1 = true) as Ho by (vm_compute; reflexivity).
  assert (is_Some ((sample_start Reserved.Written "n1" sample_files).2 !! CALetsEncrypt)) as Hl by (eexists; vm_compute; reflexivity).
  unfold sample_start in Ho, Hl. unfold sample_start.
  destruct (buildACMEChain _ _ _ _ (λ _, sample_calls Reserved.Written) "n1" default_config false sample_files) as [[[b g]|e] fs'];
    [|discriminate Ho]. cbn [fst snd] in Hl. apply (proj2 Hs).
  - intros id key der [= <-] [= <-]. reflexivity.
  - reflexivity.
  - intros _. split; [exact Hl|left; reflexivity].
  - intros [=].
Defined.
End AcmeWire.
