(* ===== verification/AdminActions.v ===== *)
(** * The internal port

    The admin actions of [server/server.go] (renew and terminate a tunnel, on
    whichever nodes it takes) over the mesh of [Mesh], and the read handlers of
    [metrics/server.go] over [Admin] and [Router].

    A handler gets the answers of the registry as arguments; the other nodes are
    the cluster of [Mesh], which its calls change. *)
From Stdlib Require Import ZArith Lia Ascii String.
From stdpp Require Import gmap.
From S2P Require Import Prelude GoStr Valkey Limiter Router Mesh Admin.
Local Open Scope string_scope.
Local Open Scope list_scope.
Local Open Scope Z_scope.

Module AdminActions.
Import Mesh.

(** ** Answers *)
Inductive body := Text (s : string) | Applied (tunnel owner field : string) (applied : bool).
Definition answer := (Z * body)%type.

Section actions.
Context {N : Type} `{NodeParts N} (Decode : string → option ControlRequest).
Context (Encode : ControlRequest → option string).
Context (EncodeResp : ControlResponse → string) (DecodeResp : string → option ControlResponse).
Context (reaches answers : string → bool).

Abbreviation control := (Control Decode Encode EncodeResp DecodeResp reaches answers).
Abbreviation travels_ := (travels Decode Encode EncodeResp DecodeResp).

(** What the registry said: the owner of a route, the address of a node, the live nodes. *)
Context (nodeID : string).
Definition route_answer := result unit (option string).

(** [adminActionHandler] for the operation [op], applied here by [local]. *)
Definition adminActionHandler (op respField : string) (local : string → N → result unit bool * N)
    (method name : string) (route : route_answer) (LookupNode : string → result unit (string * bool))
    (self : N) (cl : cluster) : answer * N * cluster :=
  if negb (String.eqb method "POST") then ((405, Text "method not allowed"), self, cl)
  else if String.eqb name "" then ((400, Text "missing tunnel"), self, cl)
  else
    match route with
    | Err _ => ((500, Text "route lookup failed"), self, cl)
    | Ok None => ((404, Text "no route bound for tunnel"), self, cl)
    | Ok (Some owner) =>
        let done r self cl :=
          (match r with
           | Err _ => (502, Text (op +:+ " failed"))
           | Ok applied => (200, Applied name owner respField applied)
           end, self, cl) in
        if String.eqb owner nodeID then let '(r, self) := local name self in done r self cl
        else
          match LookupNode owner with
          | Err _ | Ok (_, false) => ((502, Text "owner node unavailable"), self, cl)
          | Ok (addr, true) =>
              let '(r, cl) := control addr (Request op name "" "" None) cl in
              done (match r with Ok res => Ok (s_Applied res) | Err e => Err e end) self cl
          end
    end.

(** The calls of [broadcastControl], in the order the nodes are served. *)
Fixpoint tell_all (req : ControlRequest) (order : list (string * string)) (cl : cluster) : list (string * told) * cluster :=
  match order with
  | [] => ([], cl)
  | (id, addr) :: order =>
      if String.eqb id nodeID then tell_all req order cl
      else
        let '(r, cl) := control addr req cl in
        let '(rest, cl) := tell_all req order cl in
        ((id, match r with Ok res => Answered (s_Applied res) | Err _ => Failed end) :: rest, cl)
  end.
Fixpoint outcome_of (l : list (string * told)) (id : string) : told :=
  match l with [] => Failed | (i, t) :: l => if String.eqb i id then t else outcome_of l id end.

Definition adminTerminateHandler (method name : string) (route : route_answer) (nodes : result unit (list (string * string)))
    (self : N) (cl : cluster) : answer * N * cluster :=
  if negb (String.eqb method "POST") then ((405, Text "method not allowed"), self, cl)
  else if String.eqb name "" then ((400, Text "missing tunnel"), self, cl)
  else
    match route with
    | Err _ => ((500, Text "route lookup failed"), self, cl)
    | Ok None => ((404, Text "no route bound for tunnel"), self, cl)
    | Ok (Some owner) =>
        match nodes with
        | Err _ => ((500, Text "node listing failed"), self, cl)
        | Ok nodes =>
            let '(here, self) := Terminate name self in
            let '(outcomes, cl) := tell_all (Request "terminate" name "" "" None) nodes cl in
            let '(remote, failed) := broadcastControl nodeID (map fst nodes) (outcome_of outcomes) in
            let applied := match here with Ok b => b | Err _ => false end || remote in
            let ownerLive := existsb (String.eqb owner) (map fst nodes) in
            (if (String.eqb owner nodeID && negb (is_ok here)) || bool_decide (owner ∈ failed) then (502, Text "terminate failed")
             else if negb (String.eqb owner nodeID) && negb ownerLive then (502, Text "owner node unavailable")
             else (200, Applied name owner "terminated" applied), self, cl)
        end
    end.

(** ** One call to another node *)
Lemma control_terminates peer name cl n : cl !! peer = Some n → reaches peer = true → answers peer = true →
  travels_ (Request "terminate" name "" "" None) → name ≠ "" →
  ∃ b, (Terminate name n).1 = Ok b ∧
    control peer (Request "terminate" name "" "" None) cl = (Ok (Response b 0), <[peer := (Terminate name n).2]> cl).
Proof.
  intros Hn Hre Han [(body & He & Hd) Hresp] Hname. unfold Control. rewrite He, Hn, Hre. cbn [negb].
  unfold ServeHTTP, serveControl. cbn [negb]. rewrite String.eqb_refl. cbn [negb]. rewrite String.eqb_refl. cbn [negb]. rewrite Hd.
  assert (refused (Request "terminate" name "" "" None) = None) as ->.
  { unfold refused, known_op. simpl. by rewrite (eqb_empty _ Hname). }
  unfold dispatch, Terminate. cbn [q_Op q_Open q_Tunnel q_ConnID String.eqb Ascii.eqb Bool.eqb].
  destruct (np_Close name CloseAdminTerminate (np_evictStreams name n)) as [b n'] eqn:Ec. rewrite Han. cbn [negb orb Z.eqb Pos.eqb fst snd].
  rewrite Hresp. by exists b.
Qed.

Lemma control_other peer req cl k : k ≠ peer → (control peer req cl).2 !! k = cl !! k.
Proof.
  intros Hk. unfold Control, cluster in *. destruct (Encode req); [|done]. destruct (cl !! peer); [|done]. destruct (reaches peer); cbn [negb]; [|done].
  match goal with |- context [ServeHTTP ?d ?r ?p ?m ?b ?n] => destruct (ServeHTTP d r p m b n) as [[st resp] n'] end.
  cbn [snd]. by rewrite lookup_insert_ne.
Qed.

(** ** Every node is told *)
Lemma tell_all_other req order cl k : k ∉ map snd order → (tell_all req order cl).2 !! k = cl !! k.
Proof.
  revert cl. induction order as [|[id addr] order IH]; intros cl Hk; cbn; [done|]. cbn in Hk.
  destruct (String.eqb id nodeID); [apply IH; set_solver|].
  pose proof (control_other addr req cl k ltac:(set_solver)) as Hc. destruct (control addr req cl) as [r cl1]. cbn in Hc.
  specialize (IH cl1 ltac:(set_solver)). destruct (tell_all req order cl1) as [rest cl2]. cbn in *. congruence.
Qed.

Lemma tell_all_told name order cl id addr n : NoDup (map fst order) → NoDup (map snd order) →
  (id, addr) ∈ order → id ≠ nodeID → cl !! addr = Some n → reaches addr = true → answers addr = true →
  travels_ (Request "terminate" name "" "" None) → name ≠ "" →
  let '(outs, cl') := tell_all (Request "terminate" name "" "" None) order cl in
  cl' !! addr = Some (Terminate name n).2 ∧
  ∃ b, (Terminate name n).1 = Ok b ∧ outcome_of outs id = Answered b.
Proof.
  intros Hid Haddr Hin Hne Hn Hre Han Ht Hname. revert cl Hn. induction order as [|[i a] order IH]; intros cl Hn; [set_solver|].
  cbn [map fst snd] in *. apply NoDup_cons in Hid as [Hi Hid]. apply NoDup_cons in Haddr as [Ha Haddr]. cbn [tell_all].
  apply elem_of_cons in Hin as [[= <- <-]|Hin].
  - destruct (String.eqb_spec id nodeID); [done|].
    destruct (control_terminates addr name cl n Hn Hre Han Ht Hname) as (b & Hb & ->).
    pose proof (tell_all_other (Request "terminate" name "" "" None) order (<[addr := (Terminate name n).2]> cl) addr Ha) as Ho.
    unfold cluster in *. destruct (tell_all _ order _) as [rest cl2]. cbn in *. rewrite Ho, lookup_insert_eq, String.eqb_refl. split; [done|]. by exists b.
  - assert (a ≠ addr) by (intros ->; apply Ha; apply list_elem_of_fmap; by exists (id, addr)).
    assert (i ≠ id) by (intros ->; apply Hi; apply list_elem_of_fmap; by exists (id, addr)).
    destruct (String.eqb i nodeID); [by apply IH|].
    pose proof (control_other a (Request "terminate" name "" "" None) cl addr ltac:(done)) as Hc.
    destruct (control a _ cl) as [r cl1]. cbn in Hc. specialize (IH Hid Haddr Hin cl1 ltac:(by rewrite Hc)).
    destruct (tell_all _ order cl1) as [rest cl2]. cbn. by destruct (String.eqb_spec i id).
Qed.

(** A node that can be told. *)
Definition reachable (cl : cluster) (addr : string) (n : N) : Prop :=
  cl !! addr = Some n ∧ reaches addr = true ∧ answers addr = true.

(** C28. Terminating a tunnel reaches every node. For a POST on a bound tunnel and any
    list of live nodes: the tunnel is terminated here, and on every listed node that can
    be reached, as if that node were asked itself; nodes that are not listed keep their
    state; the answer is 200 if this node owns the tunnel or its owner was reached, and
    if it is 200 the owner is this node or listed. *)
Theorem terminate_reaches_every_node name owner nodes self cl :
  name ≠ "" → NoDup (map fst nodes) → NoDup (map snd nodes) → travels_ (Request "terminate" name "" "" None) →
  let '(status, b, self', cl') := adminTerminateHandler "POST" name (Ok (Some owner)) (Ok nodes) self cl in
  self' = (Terminate name self).2 ∧
  (∀ id addr n, (id, addr) ∈ nodes → id ≠ nodeID → reachable cl addr n → cl' !! addr = Some (Terminate name n).2) ∧
  (∀ addr, addr ∉ map snd nodes → cl' !! addr = cl !! addr) ∧
  (owner = nodeID ∨ (∃ addr n, (owner, addr) ∈ nodes ∧ reachable cl addr n) → status = 200) ∧
  (status = 200 → owner = nodeID ∨ owner ∈ map fst nodes).
Proof.
  intros Hname Hid Haddr Ht. unfold adminTerminateHandler. cbn [String.eqb Ascii.eqb Bool.eqb negb].
  rewrite (eqb_empty _ Hname). set (req := Request "terminate" name "" "" None).
  assert (∃ b0, (Terminate name self).1 = Ok b0) as [b0 Hb0]
    by (unfold Terminate; destruct (np_Close _ _ _) as [b0 n0]; by exists b0).
  destruct (Terminate name self) as [here self1]. cbn in Hb0. subst here.
  pose proof (λ id addr n, tell_all_told name nodes cl id addr n Hid Haddr) as Htold.
  pose proof (λ addr, tell_all_other req nodes cl addr) as Hoth. fold req in Htold.
  destruct (tell_all req nodes cl) as [outs cl1]. cbn [snd] in Hoth.
  pose proof (broadcastControl_spec Decode DecodeResp reaches answers nodeID (map fst nodes) (outcome_of outs)) as [_ Hf].
  destruct (broadcastControl _ _ _) as [remote failed]. cbn [snd fst] in Hf. cbn [is_ok negb].
  rewrite andb_false_r. cbn [orb].
  assert (owner = nodeID ∨ (∃ addr n, (owner, addr) ∈ nodes ∧ reachable cl addr n) → owner ∉ failed) as Hnf.
  { rewrite Hf. intros [->|(addr & n & Hin & Hn & Hre & Han)] (_ & Hne & Hout); [done|].
    destruct (Htold owner addr n Hin Hne Hn Hre Han Ht Hname) as (_ & b & _ & Hb). rewrite Hb in Hout. by destruct Hout. }
  assert (existsb (String.eqb owner) (map fst nodes) = true ↔ owner ∈ map fst nodes) as Hlive.
  { rewrite existsb_exists. split; [intros (x & Hx & ->%String.eqb_eq); by apply list_elem_of_In|].
    intros Hx. exists owner. split; [by apply list_elem_of_In|apply String.eqb_refl]. }
  destruct (bool_decide (owner ∈ failed)) eqn:Ef; [|destruct (String.eqb_spec owner nodeID) as [->|Hne];
    [|destruct (existsb _ _) eqn:El]]; cbn [negb andb];
    (split; [done|]; split; [intros id addr n Hin Hne' (Hn & Hre & Han); by apply (Htold id addr n)|];
     split; [exact Hoth|]; split).
  - intros Ho. apply bool_decide_eq_true in Ef. by destruct (Hnf Ho).
  - done.
  - done.
  - by left.
  - done.
  - intros _. right. by apply Hlive.
  - intros [?|(addr & n & Hin & _)]; [done|]. exfalso. assert (owner ∈ map fst nodes) as Hx%Hlive; [|done].
    apply list_elem_of_fmap. by exists (owner, addr).
  - done.
Qed.

(** A renewal touches the owner of the tunnel and no other node. *)
Lemma renew_acts_on_owner_only method name route LookupNode self cl :
  let '(status, b, self', cl') :=
    adminActionHandler "renew" "reissued" Renew method name route LookupNode self cl in
  (self' ≠ self → route = Ok (Some nodeID) ∧ self' = (Renew name self).2) ∧
  (∀ addr, cl' !! addr ≠ cl !! addr → ∃ owner, route = Ok (Some owner) ∧ owner ≠ nodeID ∧ LookupNode owner = Ok (addr, true)) ∧
  (status = 200 → ∃ owner applied, route = Ok (Some owner) ∧ b = Applied name owner "reissued" applied).
Proof.
  unfold adminActionHandler. destruct (negb _); [done|]. destruct (String.eqb name ""); [done|].
  destruct route as [[owner|]|]; [|done..]. destruct (String.eqb_spec owner nodeID) as [->|Hne].
  - destruct (Renew name self) as [[applied|] self1]; (split; [done|]; split; [done|]); [|done]. intros _. by exists nodeID, applied.
  - destruct (LookupNode owner) as [[addr []]|] eqn:El; [|done..].
    pose proof (λ k, control_other addr (Request "renew" name "" "" None) cl k) as Ho.
    destruct (control addr _ cl) as [[res|] cl1]; cbn [snd] in Ho; (split; [done|]; split;
      [intros a Ha; exists owner; split; [done|]; split; [done|]; destruct (decide (a = addr)) as [->|Hna]; [done|];
       by destruct Ha; apply Ho|]); [|done].
    intros _. by exists owner, (s_Applied res).
Qed.
End actions.

(** ** The read handlers *)
Section reading.
Import ValkeyClient.
Context {S : Type} `{ValkeyServer S}.
Context (scan : Z → string → Z → M S (result rerr (list string * Z))).

Definition defaultTunnelCount : Z := 100.
Definition maxTunnelCount : Z := 500.
Definition maxStatsBody : nat := 64 * 1024.

(** [strconv.ParseUint(v, 10, 64)] and [strconv.Atoi]. *)
Definition ParseUint (v : string) : option Z :=
  match v with
  | "" => None
  | _ => match parse_digits v 0 with Some n => if n <? 2 ^ 64 then Some n else None | None => None end
  end.
Definition Atoi (v : string) : option Z := match ParseInt v with Ok n => Some n | Err _ => None end.

Inductive read_answer :=
| RText (status : Z) (s : string)
| RNames (names : list string) (cursor : string)
| RStats (stats : gmap string Admin.TunnelStats)
| RNodes (nodes : gmap string Router.NodeInfo).

Definition healthz (ping : result rerr unit) : read_answer :=
  match ping with Err _ => RText 503 "redis unavailable" | Ok _ => RText 200 "ok" end.

(** The page asked for. *)
Definition page (cursor_ count_ : string) : result string (Z * Z) :=
  match (if String.eqb cursor_ "" then Some 0 else ParseUint cursor_) with
  | None => Err "bad cursor"
  | Some cursor =>
      match (if String.eqb count_ "" then Some defaultTunnelCount
             else match Atoi count_ with Some n => if n <=? 0 then None else Some n | None => None end) with
      | None => Err "bad count"
      | Some count => Ok (cursor, if maxTunnelCount <? count then maxTunnelCount else count)
      end
  end.

Definition list_handler (cursor_ count_ : string) : M S read_answer :=
  match page cursor_ count_ with
  | Err e => ret (RText 400 e)
  | Ok (cursor, count) =>
      let* r := Admin.List_ scan cursor count in
      ret match r with
          | Err _ => RText 500 "internal error"
          | Ok (names, next) => RNames names (FormatInt next)
          end
  end.

(** [json.Decoder] on the bytes it may read: a value, a syntax error, or not enough. *)
Inductive decoded := DNames (names : list string) | DBad | DMore.
Context (DecodeNames : string → decoded).

Definition stats_handler (method body_ : string) : M S read_answer :=
  if negb (String.eqb method "POST") then ret (RText 405 "method not allowed")
  else
    match DecodeNames (str_take maxStatsBody body_) with
    | DBad => ret (RText 400 "bad request")
    | DMore => ret (if (maxStatsBody <? String.length body_)%nat then RText 413 "request body too large" else RText 400 "bad request")
    | DNames names =>
        if maxTunnelCount <? Z.of_nat (length names) then ret (RText 400 "too many names")
        else
          let* r := Admin.Stats names in
          ret match r with Err _ => RText 500 "internal error" | Ok stats => RStats stats end
    end.

Definition nodes_handler (nodes : result unit (gmap string Router.NodeInfo)) : read_answer :=
  match nodes with Err _ => RText 500 "internal error" | Ok nodes => RNodes nodes end.

(** A page is never empty-sized and never larger than the limit, and its cursor is a uint64. *)
Lemma page_bounds cursor_ count_ cursor count : page cursor_ count_ = Ok (cursor, count) →
  1 ≤ count ≤ maxTunnelCount ∧ 0 ≤ cursor < 2 ^ 64.
Proof.
  assert (∀ v acc n, parse_digits v acc = Some n → 0 ≤ acc → 0 ≤ n) as Hpos.
  { induction v as [|ch v IH]; intros acc n; cbn; [by intros [= ->]|]. unfold digit_val. destruct (_ && _) eqn:E; [|done]. cbn.
    intros Hd Ha. apply (IH _ _ Hd). apply andb_true_iff in E as [?%Z.leb_le ?%Z.leb_le]. lia. }
  unfold page, maxTunnelCount, defaultTunnelCount.
  destruct (if String.eqb cursor_ "" then _ else _) as [cu|] eqn:Ec; [|done].
  destruct (if String.eqb count_ "" then _ else _) as [n|] eqn:En; [|done]. intros [= <- <-]. split.
  - assert (1 ≤ n). { destruct (String.eqb count_ ""); [by injection En as <-|]. destruct (Atoi count_) as [k|]; [|done].
      destruct (Z.leb_spec k 0); [done|]. injection En as <-. lia. }
    destruct (Z.ltb_spec 500 n); lia.
  - destruct (String.eqb cursor_ ""); [injection Ec as <-; lia|]. unfold ParseUint in Ec.
    destruct cursor_ as [|ch v]; [done|]. destruct (parse_digits (String ch v) 0) as [k|] eqn:Ek; [|done].
    destruct (Z.ltb_spec k (2 ^ 64)); [|done]. injection Ec as <-. split; [|done]. by eapply Hpos.
Qed.

(** A request that is refused reads nothing. *)
Lemma stats_refused_reads_nothing method body_ (w : world S) :
  (∀ names, DecodeNames (str_take maxStatsBody body_) = DNames names → maxTunnelCount < Z.of_nat (length names)) →
  (stats_handler method body_ w).2 = w.
Proof.
  intros Hn. unfold stats_handler. destruct (negb _); [done|]. destruct (DecodeNames _) as [names| |]; [|done|done].
  specialize (Hn names eq_refl). destruct (Z.ltb_spec maxTunnelCount (Z.of_nat (length names))); [done|lia].
Qed.
End reading.

(** ** Example: three nodes that count the phones they closed *)
#[local] Instance counting_parts : NodeParts Z := {
  np_nonce n := (Ok "00", n);
  np_SendRenewNudge _ _ _ n := (true, n);
  np_Close _ _ n := (true, n + 1);
  np_SendOpen _ _ _ n := (Err NoConn, n);
  np_evictStreams _ n := n;
  np_evictConn _ _ _ n := (false, n);
  np_slotCandidate _ _ := None;
  np_freeSlot _ n := (false, n)
}.
Definition sample_terminate : ControlRequest := Request "terminate" "abc" "" "" None.

Lemma terminate_reaches_every_node_witness :
  let '(status, b, self, cl) := adminTerminateHandler (λ _, Some sample_terminate) (λ _, Some "{}") sample_resp
    (λ s, Some (Response (String.eqb s "true") 0)) (λ _, true) (λ _, true) "a" "POST" "abc" (Ok (Some "b"))
    (Ok [("a", "a:1"); ("b", "b:1"); ("c", "c:1")]) 0 (<["b:1" := 0]> {["c:1" := 7]}) in
  self = 1 ∧ cl !! "b:1" = Some 1 ∧ cl !! "c:1" = Some 8 ∧ status = 200.
Proof.
  pose proof (terminate_reaches_every_node (λ _, Some sample_terminate) (λ _, Some "{}") sample_resp
    (λ s, Some (Response (String.eqb s "true") 0)) (λ _, true) (λ _, true) "a" "abc" "b"
    [("a", "a:1"); ("b", "b:1"); ("c", "c:1")] 0 (<["b:1" := 0]> {["c:1" := 7]})) as Ht.
  destruct (adminTerminateHandler _ _ _ _ _ _ _ _ _ _ _ _ _) as [[[status b] self] cl].
  destruct Ht as (H1 & H2 & _ & H4 & _).
  - done.
  - by apply (bool_decide_unpack _).
  - by apply (bool_decide_unpack _).
  - split; [by exists "{}"|]. by intros [].
  - split; [exact H1|]. split; [by apply (H2 "b" "b:1" 0); [set_solver|done|]|].
    split; [by apply (H2 "c" "c:1" 7); [set_solver|done|]|].
    apply H4. right. exists "b:1", 0. split; [set_solver|]. done.
Defined.
End AdminActions.
