(* ===== verification/ClientConn.v ===== *)
(** * The connections of the Go client

    [serveConn] of [client/control.go] with its silence watchdog and connection
    tracker, and the dial-back of [client/datastream.go] with the interrupt of
    its upgrade.  Timers and goroutines interleave with the caller: [cstep] for a
    control connection, [dstep] for a dial-back.

    [Client] has the frames of an open control connection; here is what opens
    and closes it.  A dial that outlives its request belongs to the transport
    and is not followed. *)
From Stdlib Require Import ZArith Lia Ascii String.
From S2P Require Import Prelude GoStr Wire.
Local Open Scope string_scope.
Local Open Scope list_scope.
Local Open Scope Z_scope.

Module ClientConn.

(** ** Options *)
Record options := MkOptions {
  o_logger : bool; o_silence : Z; o_dial : Z; o_moveWait : Z; o_dialBack : Z
}.
Definition defaults : options := MkOptions true Wire.ControlSilenceTimeout (10 * second) second (10 * second).

Inductive Option_ :=
| WithLogger (nil_ : bool) | WithControlSilenceTimeout (d : Z) | WithControlDialTimeout (d : Z)
| WithMoveFallbackWait (d : Z) | WithDialBackTimeout (d : Z).

Definition apply_option (c : options) (o : Option_) : option options :=
  match o with
  | WithLogger nil_ => if nil_ then None else Some c
  | WithControlSilenceTimeout d => if d <=? 0 then None else Some (MkOptions (o_logger c) d (o_dial c) (o_moveWait c) (o_dialBack c))
  | WithControlDialTimeout d => if d <=? 0 then None else Some (MkOptions (o_logger c) (o_silence c) d (o_moveWait c) (o_dialBack c))
  | WithMoveFallbackWait d => if d <=? 0 then None else Some (MkOptions (o_logger c) (o_silence c) (o_dial c) d (o_dialBack c))
  | WithDialBackTimeout d => if d <=? 0 then None else Some (MkOptions (o_logger c) (o_silence c) (o_dial c) (o_moveWait c) d)
  end.
Fixpoint apply_options (c : options) (os : list Option_) : option options :=
  match os with [] => Some c | o :: os => c ← apply_option c o; apply_options c os end.

(** [New]: the options in order, then the identity's key pair. *)
Definition New (os : list Option_) (keypair : bool) : option options :=
  c ← apply_options defaults os; if keypair then Some c else None.

Definition positive (c : options) : Prop := 0 < o_silence c ∧ 0 < o_dial c ∧ 0 < o_moveWait c ∧ 0 < o_dialBack c.

Lemma New_positive os keypair c : New os keypair = Some c → positive c.
Proof.
  unfold New. assert (∀ os c0 c, positive c0 → apply_options c0 os = Some c → positive c) as Happ.
  { clear. induction os as [|o os IH]; intros c0 c Hp; cbn; [by intros [= <-]|].
    destruct (apply_option c0 o) as [c1|] eqn:E; cbn; [|done]. apply IH. unfold positive in *.
    destruct o; cbn in E; [by destruct nil_; simplify_eq|..]; (destruct (Z.leb_spec d 0); [done|]); simplify_eq/=; lia. }
  destruct (apply_options defaults os) as [c0|] eqn:E; cbn; [|done]. destruct keypair; [|done]. intros [= <-].
  eapply Happ; [|exact E]. by vm_compute.
Qed.

(** [requireH2]: a connection that did not negotiate h2 is closed. *)
Definition requireH2 (isTLS : bool) (protocol : string) : bool := isTLS && String.eqb protocol "h2".

(** ** A control connection *)
Inductive outcome := ErrBuild | ErrSilence | ErrRequest | ErrRejected | PumpEnded (silence : bool).
Inductive why := WBuild | WRequest | WRejected | WPump (silence : bool).
Inductive smain :=
| Dialing | Requested | Pumping
| Finishing (w : why)            (* [finish] is about to set [ended] *)
| Ended (w : why)                (* [ended] is set *)
| Dropped (w : why)              (* and the connection dropped *)
| Returned (o : outcome).

Record sconn := SConn {
  sc_dialled : option nat;       (* the connection of this attempt *)
  sc_tracked : option nat;       (* what the tracker holds *)
  sc_closed : list nat;          (* closes by [dropConn] *)
  sc_ended : bool; sc_quiet : bool; sc_cancelled : bool;
  sc_main : smain
}.
Definition sstart : sconn := SConn None None [] false false false Dialing.

(** [take] and close: [dropConn]. *)
Definition dropConn (s : sconn) : sconn :=
  SConn (sc_dialled s) None (sc_closed s ++ match sc_tracked s with Some c => [c] | None => [] end)
    (sc_ended s) (sc_quiet s) (sc_cancelled s) (sc_main s).
Definition at_main (m : smain) (s : sconn) : sconn :=
  SConn (sc_dialled s) (sc_tracked s) (sc_closed s) (sc_ended s) (sc_quiet s) (sc_cancelled s) m.

(** The timer's function, under the watchdog's mutex. *)
Definition watchdog (s : sconn) : sconn :=
  if sc_ended s || sc_quiet s then s
  else
    let s := dropConn s in
    SConn (sc_dialled s) (sc_tracked s) (sc_closed s) (sc_ended s) true true (sc_main s).
Definition finish_end (s : sconn) : sconn :=
  SConn (sc_dialled s) (sc_tracked s) (sc_closed s) true (sc_quiet s) (sc_cancelled s) (sc_main s).
Definition finish_drop (s : sconn) : sconn :=
  let s := dropConn s in
  SConn (sc_dialled s) (sc_tracked s) (sc_closed s) (sc_ended s) (sc_quiet s) true (sc_main s).

Definition result_of (w : why) (quiet : bool) : outcome :=
  match w with
  | WBuild => ErrBuild
  | WRequest => if quiet then ErrSilence else ErrRequest
  | WRejected => ErrRejected
  | WPump silence => PumpEnded silence
  end.

Inductive cstep : sconn → sconn → Prop :=
| cs_build s : sc_main s = Dialing → sc_dialled s = None → cstep s (at_main (Finishing WBuild) s)
| cs_dialled s c : sc_main s = Dialing → sc_dialled s = None →
    cstep s (SConn (Some c) (Some c) (sc_closed s) (sc_ended s) (sc_quiet s) (sc_cancelled s) Requested)
| cs_nodial s : sc_main s = Dialing → cstep s (at_main (Finishing WRequest) s)
| cs_failed s : sc_main s = Requested → cstep s (at_main (Finishing WRequest) s)
| cs_rejected s : sc_main s = Requested → cstep s (at_main (Finishing WRejected) s)
| cs_opened s : sc_main s = Requested → cstep s (at_main Pumping s)
| cs_pumped s : sc_main s = Pumping → cstep s (at_main (Finishing (WPump (sc_quiet s))) s)
| cs_silence s : cstep s (watchdog s)
| cs_end s w : sc_main s = Finishing w → cstep s (at_main (Ended w) (finish_end s))
| cs_drop s w : sc_main s = Ended w → cstep s (at_main (Dropped w) (finish_drop s))
| cs_return s w : sc_main s = Dropped w → cstep s (at_main (Returned (result_of w (sc_quiet s))) s).

Definition finished (m : smain) : bool := match m with Ended _ | Dropped _ | Returned _ => true | _ => false end.
Definition dropped (m : smain) : bool := match m with Dropped _ | Returned _ => true | _ => false end.

Record cinv (s : sconn) : Prop := {
  ci_conn : (sc_tracked s = sc_dialled s ∧ sc_closed s = []) ∨
            (sc_tracked s = None ∧ sc_closed s = match sc_dialled s with Some c => [c] | None => [] end);
  ci_dropped : dropped (sc_main s) = true → sc_tracked s = None ∧ sc_cancelled s = true;
  ci_ended : finished (sc_main s) = true → sc_ended s = true;
  ci_quiet : sc_quiet s = true → sc_cancelled s = true;
  ci_pump : ∀ w, (sc_main s = Finishing w ∨ sc_main s = Ended w ∨ sc_main s = Dropped w) → w = WPump true → sc_quiet s = true;
  ci_result : ∀ o, sc_main s = Returned o →
    match o with ErrSilence | PumpEnded true => sc_quiet s = true | ErrRequest => sc_quiet s = false | _ => True end
}.

Lemma drop_conn s : cinv s → sc_tracked (dropConn s) = None ∧
  sc_closed (dropConn s) = match sc_dialled s with Some c => [c] | None => [] end.
Proof.
  intros Hi. split; [done|]. unfold dropConn. cbn. destruct (ci_conn s Hi) as [[-> ->]|[-> ->]]; [done|by rewrite app_nil_r].
Qed.

Lemma watchdog_inv s : cinv s → cinv (watchdog s).
Proof.
  intros Hi. unfold watchdog. destruct (sc_ended s || sc_quiet s) eqn:E; [done|].
  apply orb_false_iff in E as [Ee Eq]. pose proof (drop_conn s Hi) as [D1 D2]. destruct Hi as [H1 H2 H3 H4 H5 H6].
  assert (finished (sc_main s) = false) as Hf by (destruct (finished (sc_main s)); [by rewrite H3 in Ee|done]).
  split; cbn.
  - right. split; [done|exact D2].
  - intros Hd. by destruct (sc_main s).
  - intros Hd. by rewrite Hf in Hd.
  - done.
  - done.
  - intros o Ho. rewrite Ho in Hf. done.
Qed.

(** The caller goes on; its new point carries its own obligations. *)
Definition point_ok (s : sconn) (m : smain) : Prop :=
  match m with
  | Dialing | Requested | Pumping => True
  | Finishing w => w = WPump true → sc_quiet s = true
  | Ended w => sc_ended s = true ∧ (w = WPump true → sc_quiet s = true)
  | Dropped w => sc_ended s = true ∧ sc_tracked s = None ∧ sc_cancelled s = true ∧ (w = WPump true → sc_quiet s = true)
  | Returned o => sc_ended s = true ∧ sc_tracked s = None ∧ sc_cancelled s = true ∧
      match o with ErrSilence | PumpEnded true => sc_quiet s = true | ErrRequest => sc_quiet s = false | _ => True end
  end.

Lemma at_main_inv s m : cinv s → point_ok s m → cinv (at_main m s).
Proof.
  intros [H1 _ _ H4 _ _] Hp. split; cbn; [done| | |done| |].
  - destruct m; cbn in *; try done; intros _; by destruct Hp as (_ & ? & ? & _).
  - destruct m; cbn in *; try done; intros _; by destruct Hp.
  - intros w [->|[->| ->]]; cbn in Hp; [done|apply Hp|apply Hp].
  - intros o ->. by destruct Hp as (_ & _ & _ & Ho).
Qed.

Lemma point_of s : cinv s → point_ok s (sc_main s).
Proof.
  intros [_ H2 H3 _ H5 H6]. destruct (sc_main s) eqn:E; cbn; try done.
  - intros. eapply H5; eauto.
  - split; [by apply H3|]. intros. eapply H5; eauto.
  - destruct (H2 eq_refl). split; [by apply H3|]. split_and!; [done|done|]. intros. eapply H5; eauto.
  - destruct (H2 eq_refl). split; [by apply H3|]. split_and!; [done|done|]. by apply H6.
Qed.

Lemma cstep_inv s s' : cinv s → cstep s s' → cinv s'.
Proof.
  intros Hi Hs. pose proof (point_of s Hi) as Hp.
  destruct Hs as [s Hm Hd|s c Hm Hd|s Hm|s Hm|s Hm|s Hm|s Hm|s|s w Hm|s w Hm|s w Hm]; try rewrite Hm in Hp.
  - by apply at_main_inv.
  - destruct Hi as [H1 _ _ H4 _ _]. rewrite Hd in H1. split; cbn; [left; split; [done|by destruct H1 as [[_ ?]|[_ ?]]]|done|done|done| |done].
    by intros w [?|[?|?]].
  - by apply at_main_inv.
  - by apply at_main_inv.
  - by apply at_main_inv.
  - by apply at_main_inv.
  - apply at_main_inv; [done|]. by intros [= ->].
  - by apply watchdog_inv.
  - apply at_main_inv; [|by split]. destruct Hi as [H1 H2 H3 H4 H5 H6]. split; cbn; [done|by rewrite Hm|done|done|exact H5|exact H6].
  - pose proof (drop_conn s Hi) as [D1 D2]. destruct Hp as [He Hw]. apply at_main_inv; [|by split_and!].
    destruct Hi as [H1 H2 H3 H4 H5 H6]. split; cbn; [by right|by rewrite Hm|done|done|exact H5|exact H6].
  - apply at_main_inv; [done|]. destruct Hp as (He & Ht & Hc & Hw). split_and!; try done.
    destruct w as [| | |[]]; cbn; try done; [by destruct (sc_quiet s)|by apply Hw].
Qed.

(** A control connection of the phone is closed once. In every interleaving of the dial,
    the silence watchdog, the pump and the end of [serveConn]: when it has returned, the
    connection that was dialled, if any, was closed exactly once, nothing is tracked,
    its context is cancelled, and silence is reported only if the watchdog fired. *)
Lemma control_connection_closed_once s o : run cstep sstart s → sc_main s = Returned o →
  sc_closed s = (match sc_dialled s with Some c => [c] | None => [] end) ∧ sc_tracked s = None ∧ sc_cancelled s = true ∧
  match o with ErrSilence | PumpEnded true => sc_quiet s = true | ErrRequest => sc_quiet s = false | _ => True end.
Proof.
  intros Hr Hm. assert (cinv s) as Hi.
  { apply (run_invariant cstep cinv) with (s := sstart); [apply cstep_inv|done|]. split; cbn; [by left|done|done|done| |done]. by intros w [?|[?|?]]. }
  destruct (ci_dropped s Hi) as [Ht Hc]; [by rewrite Hm|]. pose proof (ci_result s Hi o Hm).
  split_and!; try done. destruct (ci_conn s Hi) as [[E ->]|[_ ->]]; [|done]. rewrite Ht in E. by rewrite <- E.
Qed.
(** [logMovedAwayEnd]: an orderly end is not a warning. *)
Inductive end_error := NoError | EOFError | OtherError.
Definition logMovedAwayEnd (e : end_error) : bool := match e with OtherError => true | _ => false end.

(** ** The dial-back of an OPEN *)

(** [upgradeDialBack]: what the exchange may end with. *)
Inductive upgrade := UpBuild | UpWrite | UpRead | UpRefused (status : Z) | UpDeadline | UpOk.
#[export] Instance upgrade_eq_dec : EqDecision upgrade.
Proof. solve_decision. Defined.
Definition upgradeDialBack (built written : bool) (response : option Z) (cleared : bool) : upgrade :=
  if negb built then UpBuild
  else if negb written then UpWrite
  else match response with
       | None => UpRead
       | Some status => if negb (status =? 101) then UpRefused status else if negb cleared then UpDeadline else UpOk
       end.

(** The deadline in force on the connection, and the function that cuts the
    exchange short when its context ends. *)
Inductive deadline := UpgradeDeadline | Past | NoDeadline.
Inductive interrupt := Armed | Started | Fired | Disarmed.
#[export] Instance interrupt_eq_dec : EqDecision interrupt.
Proof. solve_decision. Defined.
Inductive dmain :=
| NotDialled | Dialled | Exchanging
| Exchanged (u : upgrade)
| GivenUp                         (* [dialBack] returned an error *)
| Handed.                         (* [dialBack] returned the connection *)

Record dback := DBack {
  d_deadline : deadline; d_interrupt : interrupt; d_ctx_done : bool; d_closed : bool; d_main : dmain
}.
Definition dstart : dback := DBack NoDeadline Disarmed false false NotDialled.

Inductive dstep : dback → dback → Prop :=
| db_dial_fails s : d_main s = NotDialled → dstep s (DBack (d_deadline s) (d_interrupt s) (d_ctx_done s) (d_closed s) GivenUp)
| db_dialled s : d_main s = NotDialled → dstep s (DBack (d_deadline s) (d_interrupt s) (d_ctx_done s) (d_closed s) Dialled)
| db_deadline_fails s : d_main s = Dialled →           (* SetDeadline fails: the connection is closed *)
    dstep s (DBack (d_deadline s) (d_interrupt s) (d_ctx_done s) true GivenUp)
| db_armed s : d_main s = Dialled →                    (* SetDeadline, AfterFunc *)
    dstep s (DBack UpgradeDeadline Armed (d_ctx_done s) (d_closed s) Exchanging)
| db_ctx s : dstep s (DBack (d_deadline s) (d_interrupt s) true (d_closed s) (d_main s))
| db_interrupt s : d_ctx_done s = true → d_interrupt s = Armed →
    dstep s (DBack (d_deadline s) Started (d_ctx_done s) (d_closed s) (d_main s))
| db_fire s : d_interrupt s = Started →
    dstep s (DBack Past Fired (d_ctx_done s) (d_closed s) (d_main s))
| db_exchanged s u : d_main s = Exchanging →
    dstep s (DBack (if decide (u = UpOk) then NoDeadline else d_deadline s) (d_interrupt s) (d_ctx_done s) (d_closed s) (Exchanged u))
| db_stop s u : d_main s = Exchanged u →
    (* stopInterrupt: whether the function is kept from running *)
    let stopped := bool_decide (d_interrupt s = Armed) in
    let ok := stopped && bool_decide (u = UpOk) in
    dstep s (DBack (d_deadline s) (if stopped then Disarmed else d_interrupt s) (d_ctx_done s)
               (if ok then d_closed s else true) (if ok then Handed else GivenUp)).

(** Nothing was dialled, or the connection is in one of these hands. *)
Record dback_inv (s : dback) : Prop := {
  dv_handed : d_main s = Handed → d_deadline s = NoDeadline ∧ d_interrupt s = Disarmed ∧ d_closed s = false;
  dv_idle : d_main s = NotDialled ∨ d_main s = Dialled → d_interrupt s = Disarmed;
  dv_upgraded : d_main s = Exchanged UpOk → d_interrupt s = Armed → d_deadline s = NoDeadline;
  dv_open : d_main s ≠ GivenUp → d_closed s = false
}.

Lemma dstep_inv s s' : dback_inv s → dstep s s' → dback_inv s'.
Proof.
  intros [H1 H2 H3 H4] Hs. destruct Hs as [s Hm|s Hm|s Hm|s Hm|s|s Hc Hi|s Hi|s u Hm|s u Hm stopped ok].
  - split; cbn; [done|by intros [?|?]|done|done].
  - split; cbn; [done|intros _; apply H2; by left|done|intros _; apply H4; by rewrite Hm].
  - split; cbn; [done|by intros [?|?]|done|done].
  - split; cbn; [done|by intros [?|?]|done|intros _; apply H4; by rewrite Hm].
  - split; cbn; assumption.
  - split; cbn; [|intros Hm; by rewrite (H2 Hm) in Hi|done|done].
    intros Hm. destruct (H1 Hm) as (_ & Hd & _). by rewrite Hd in Hi.
  - split; cbn; [|intros Hm; by rewrite (H2 Hm) in Hi|done|done].
    intros Hm. destruct (H1 Hm) as (_ & Hd & _). by rewrite Hd in Hi.
  - split; cbn; [done|by intros [?|?]| |intros _; apply H4; by rewrite Hm].
    intros [= ->] _. by rewrite decide_True.
  - assert (d_closed s = false) as Hcl by (apply H4; by rewrite Hm).
    subst stopped ok. case_bool_decide as Ha; [|split; cbn; [done|by intros [?|?]|done|done]].
    case_bool_decide as Hu; cbn; [|split; cbn; [done|by intros [?|?]|done|done]].
    subst u. split; cbn; [|by intros [?|?]|done|done]. intros _. rewrite Ha in H3. split_and!; [by apply H3|done|done].
Qed.

(** A dial-back that is handed on is open, has no deadline and no timer that
    could still set one, whatever the context did meanwhile. *)
Lemma dial_back_handed_clean s : run dstep dstart s → d_main s = Handed →
  d_deadline s = NoDeadline ∧ d_interrupt s = Disarmed ∧ d_closed s = false.
Proof.
  intros Hr. assert (dback_inv s) as Hi; [|by apply Hi].
  apply (run_invariant dstep dback_inv) with (s := dstart); [apply dstep_inv|done|]. by split.
Qed.

(** [handleOpen] after its checks: the backend gets the connection, which is
    closed once it returns. *)
Inductive open_event := OBackend (clientAddr : string) | OClose | ODialFailed.
Definition run_open (clientAddr : string) (dialled : bool) : list open_event :=
  if dialled then [OBackend clientAddr; OClose] else [ODialFailed].

(** [bufferedConn]: the bytes read with the response come first. *)
Record bufferedConn := Buffered { bc_buffer : bytes; bc_conn : bytes }.
Definition buffered_read (c : bufferedConn) (n k : nat) : bytes * bufferedConn :=
  match bc_buffer c with
  | [] => (take (n `min` k) (bc_conn c), Buffered [] (drop (n `min` k) (bc_conn c)))
  | _ => (take n (bc_buffer c), Buffered (drop n (bc_buffer c)) (bc_conn c))
  end.

Lemma buffered_read_keeps c n k : let '(got, c') := buffered_read c n k in
  got ++ bc_buffer c' ++ bc_conn c' = bc_buffer c ++ bc_conn c.
Proof.
  unfold buffered_read. destruct (bc_buffer c) as [|b l] eqn:E; cbn; [apply take_drop|].
  by rewrite app_assoc, take_drop.
Qed.

(** ** Example: a watchdog that fires while the request waits *)
Definition silent_run : sconn := SConn (Some 1%nat) None [1%nat] true true true (Returned ErrSilence).

Lemma control_connection_closed_once_witness :
  sc_closed silent_run = [1%nat] ∧ sc_tracked silent_run = None ∧ sc_cancelled silent_run = true ∧ sc_quiet silent_run = true.
Proof.
  refine (control_connection_closed_once silent_run ErrSilence _ eq_refl).
  eapply run_step; [apply (cs_dialled sstart 1%nat); reflexivity|]. eapply run_step; [apply cs_silence|].
  eapply run_step; [apply cs_failed; reflexivity|]. eapply run_step; [eapply cs_end; reflexivity|].
  eapply run_step; [eapply cs_drop; reflexivity|]. eapply run_step; [eapply cs_return; reflexivity|]. apply run_refl.
Defined.
End ClientConn.
