(* ===== verification/ConnEvents.v ===== *)
(** * The connection log's events

    What the connection log says of a connection: the events of
    [store/event.go] with their close reasons and ids, the identity of a node
    ([server/node.go]), what the handlers know of a TLS client
    ([phoneconn/meta.go], [listener.go]), and the two writers, of public
    connections ([edge/bridge.go], [edgeLogSink] of [server/serve.go]) and of
    phones ([writeEvent] of [phoneconn/manager.go]).

    The events of a public connection are read off the trace of [Bridge], so
    that what the log says is proved of the handler itself. *)
From Stdlib Require Import ZArith Lia Ascii String Strings.Byte.
From stdpp Require Import base gmap list.
From S2P Require Import Prelude GoStr Wire ClientHello Valkey Limiter Router Edge Bridge PhoneConn.
Local Open Scope string_scope.
Local Open Scope list_scope.
Local Open Scope Z_scope.

Module ConnEvents.

(** ** [store/event.go] *)
Definition CloseReasons : list string :=
  [Bridge.CloseClientClose; Bridge.ClosePhoneClose; Bridge.CloseBanEvict; Bridge.CloseQuotaExhausted;
   Bridge.CloseIdleTimeout; Bridge.CloseMinRate; Bridge.CloseEvicted; Bridge.CloseServerShutdown;
   Bridge.CloseAdminTerminate; "cert-expired"; Bridge.CloseError].

(** Times are in nanoseconds; [None] is the zero time. *)
Record Event := MkEvent {
  Schema : Z; Event_ : string; Conn : string; Type_ : string; Tunnel : string; NodeHostname : string; NodeStart : string;
  TSStart : option Z; TSEnd : option Z; DurationMS : Z;
  SrcIP : string; SrcPort : Z; SNI : string; ALPN : string; TLSVersion : string; TLSFP : string;
  BytesIn : Z; BytesOut : Z; CloseReason : string;
  IdentityCertSerial : string; IdentityKeyFP : string
}.

(** *** Its JSON object: members in order, without the ones left out *)
Inductive value := VStr (s : string) | VInt (n : Z) | VTime (t : option Z).
Definition object := list (string * value).

Definition always (k : string) (v : value) : object := [(k, v)].
Definition omitempty (k : string) (v : value) : object :=
  match v with VStr "" | VInt 0 | VTime None => [] | _ => [(k, v)] end.

Definition fields (e : Event) : object :=
  always "schema" (VInt (Schema e)) ++ always "event" (VStr (Event_ e)) ++ always "conn" (VStr (Conn e)) ++
  always "type" (VStr (Type_ e)) ++ always "tunnel" (VStr (Tunnel e)) ++
  always "node_hostname" (VStr (NodeHostname e)) ++ always "node_start" (VStr (NodeStart e)) ++
  always "ts_start" (VTime (TSStart e)) ++ omitempty "ts_end" (VTime (TSEnd e)) ++
  omitempty "duration_ms" (VInt (DurationMS e)) ++
  always "src_ip" (VStr (SrcIP e)) ++ always "src_port" (VInt (SrcPort e)) ++
  omitempty "sni" (VStr (SNI e)) ++ omitempty "alpn" (VStr (ALPN e)) ++
  omitempty "tls_version" (VStr (TLSVersion e)) ++ omitempty "tls_fp" (VStr (TLSFP e)) ++
  omitempty "bytes_in" (VInt (BytesIn e)) ++ omitempty "bytes_out" (VInt (BytesOut e)) ++
  omitempty "close_reason" (VStr (CloseReason e)) ++
  omitempty "identity_cert_serial" (VStr (IdentityCertSerial e)) ++ omitempty "identity_key_fpr" (VStr (IdentityKeyFP e)).

(** A reader: a member that is missing has its type's zero value. *)
Fixpoint member (k : string) (o : object) : option value :=
  match o with [] => None | (k', v) :: o => if String.eqb k' k then Some v else member k o end.
Definition str (k : string) (o : object) : string := match member k o with Some (VStr s) => s | _ => "" end.
Definition int (k : string) (o : object) : Z := match member k o with Some (VInt n) => n | _ => 0 end.
Definition time (k : string) (o : object) : option Z := match member k o with Some (VTime t) => t | _ => None end.

Definition read_event (o : object) : Event := {|
  Schema := int "schema" o; Event_ := str "event" o; Conn := str "conn" o; Type_ := str "type" o; Tunnel := str "tunnel" o;
  NodeHostname := str "node_hostname" o; NodeStart := str "node_start" o;
  TSStart := time "ts_start" o; TSEnd := time "ts_end" o; DurationMS := int "duration_ms" o;
  SrcIP := str "src_ip" o; SrcPort := int "src_port" o; SNI := str "sni" o; ALPN := str "alpn" o;
  TLSVersion := str "tls_version" o; TLSFP := str "tls_fp" o;
  BytesIn := int "bytes_in" o; BytesOut := int "bytes_out" o; CloseReason := str "close_reason" o;
  IdentityCertSerial := str "identity_cert_serial" o; IdentityKeyFP := str "identity_key_fpr" o |}.

(** *** Ids; [None] when the random source fails *)
Definition NewConnID (rand : option bytes) : option string := option_map hex_encode rand.
Definition MustConnID (rand : option bytes) : string := default "00000000" (NewConnID rand).

(** [server/node.go]; the bytes of [newNodeID], and what the system says. *)
Definition newNodeID (b : bytes) : string := hex_encode b.
Definition hostname (lookup : option string) (b : bytes) : string :=
  match lookup with
  | Some h => if String.eqb h "" then "node-" +:+ str_take 6 (newNodeID b) else h
  | None => "node-" +:+ str_take 6 (newNodeID b)
  end.

(** ** What a handler knows of its client *)

(** A connection as the HTTP server gets it: the edge's wrapper, or a layer that
    may show the connection under it. *)
Inductive net_conn :=
| Carrier (m : Edge.ConnMeta)
| Layer (inner : option net_conn)          (* has [NetConn]; [None] is nil *)
| Opaque.

Fixpoint ConnContext (c : net_conn) : option Edge.ConnMeta :=
  match c with
  | Carrier m => Some m
  | Layer (Some c) => ConnContext c
  | Layer None | Opaque => None
  end.

Definition no_meta : Edge.ConnMeta := {|
  Edge.m_SNI := ""; Edge.m_ALPN := ""; Edge.m_TLSVersion := ""; Edge.m_JA4 := ""; Edge.m_SrcIP := ""; Edge.m_SrcPort := 0 |}.
Definition with_alpn (a : string) (m : Edge.ConnMeta) : Edge.ConnMeta := {|
  Edge.m_SNI := Edge.m_SNI m; Edge.m_ALPN := a; Edge.m_TLSVersion := Edge.m_TLSVersion m;
  Edge.m_JA4 := Edge.m_JA4 m; Edge.m_SrcIP := Edge.m_SrcIP m; Edge.m_SrcPort := Edge.m_SrcPort m |}.

(** [tls]: the protocol negotiated, if the request came over TLS. *)
Definition metaFromRequest (ctx : option Edge.ConnMeta) (tls : option string) : Edge.ConnMeta :=
  match ctx, tls with
  | Some m, Some a => if String.eqb (Edge.m_ALPN m) "" then with_alpn a m else m
  | Some m, None => m
  | None, Some a => with_alpn a no_meta
  | None, None => no_meta
  end.

Definition metaAttrs (m : Edge.ConnMeta) : list (string * string) :=
  List.filter (λ kv, negb (String.eqb kv.2 ""))
    [("sni", Edge.m_SNI m); ("alpn", Edge.m_ALPN m); ("tls_version", Edge.m_TLSVersion m); ("ja4", Edge.m_JA4 m)].

(** ** The writers *)

(** [t.Sub(u)] saturates; [Milliseconds] truncates. *)
Definition Sub (t u : Z) : Z := Z.max min_int64 (Z.min max_int64 (t - u)).
Definition Milliseconds (d : Z) : Z := Z.quot d millisecond.

Record PublicEvent := MkPublic {
  p_Conn : string; p_Tunnel : string; p_Event : string; p_CloseReason : string;
  p_SrcIP : string; p_SrcPort : Z; p_SNI : string; p_ALPN : string; p_TLSVersion : string; p_JA4 : string;
  p_StartedAt : Z; p_EndedAt : Z; p_BytesIn : Z; p_BytesOut : Z
}.

(** The events of [handleTunnel]; [p_EndedAt] of a start is never read. *)
Definition start_event (conn name remote : string) (info : ClientHello.ClientHelloInfo) (started : Z) : PublicEvent :=
  let '(srcIP, srcPort) := Edge.splitAddr remote in
  {| p_Conn := conn; p_Tunnel := name; p_Event := "start"; p_CloseReason := "";
     p_SrcIP := srcIP; p_SrcPort := srcPort; p_SNI := ClientHello.SNI info; p_ALPN := ClientHello.ALPN info;
     p_TLSVersion := ClientHello.TLSVersion info; p_JA4 := ClientHello.JA4 info;
     p_StartedAt := started; p_EndedAt := 0; p_BytesIn := 0; p_BytesOut := 0 |}.
Definition end_event (ev : PublicEvent) (reason : string) (ended bytesIn bytesOut : Z) : PublicEvent := {|
  p_Conn := p_Conn ev; p_Tunnel := p_Tunnel ev; p_Event := "end"; p_CloseReason := reason;
  p_SrcIP := p_SrcIP ev; p_SrcPort := p_SrcPort ev; p_SNI := p_SNI ev; p_ALPN := p_ALPN ev;
  p_TLSVersion := p_TLSVersion ev; p_JA4 := p_JA4 ev;
  p_StartedAt := p_StartedAt ev; p_EndedAt := ended; p_BytesIn := bytesIn; p_BytesOut := bytesOut |}.

(** [edgeLogSink]. *)
Definition PutConnLogPublic (nodeHost nodeStart : string) (ev : PublicEvent) : Event :=
  let is_end := String.eqb (p_Event ev) "end" in
  {| Schema := 1; Event_ := p_Event ev; Conn := p_Conn ev; Type_ := "public"; Tunnel := p_Tunnel ev;
     NodeHostname := nodeHost; NodeStart := nodeStart; TSStart := Some (p_StartedAt ev);
     TSEnd := if is_end then Some (p_EndedAt ev) else None;
     DurationMS := if is_end then Milliseconds (Sub (p_EndedAt ev) (p_StartedAt ev)) else 0;
     SrcIP := p_SrcIP ev; SrcPort := p_SrcPort ev; SNI := p_SNI ev; ALPN := p_ALPN ev;
     TLSVersion := p_TLSVersion ev; TLSFP := p_JA4 ev;
     BytesIn := if is_end then p_BytesIn ev else 0; BytesOut := if is_end then p_BytesOut ev else 0;
     CloseReason := if is_end then p_CloseReason ev else "";
     IdentityCertSerial := ""; IdentityKeyFP := "" |}.

(** [Manager.writeEvent], where there is a log. *)
Definition writeEvent (nodeHost nodeStart : string) (c : PhoneConn.conn) (meta : Edge.ConnMeta) (event reason : string) (now : Z) : Event :=
  let is_end := String.eqb event "end" in
  {| Schema := 1; Event_ := event; Conn := PhoneConn.c_connID c; Type_ := "phone"; Tunnel := PhoneConn.c_name c;
     NodeHostname := nodeHost; NodeStart := nodeStart; TSStart := Some (PhoneConn.c_start c);
     TSEnd := if is_end then Some now else None;
     DurationMS := if is_end then Milliseconds (Sub now (PhoneConn.c_start c)) else 0;
     SrcIP := Edge.m_SrcIP meta; SrcPort := Edge.m_SrcPort meta; SNI := "";
     ALPN := Edge.m_ALPN meta; TLSVersion := Edge.m_TLSVersion meta; TLSFP := Edge.m_JA4 meta;
     BytesIn := 0; BytesOut := 0; CloseReason := if is_end then reason else "";
     IdentityCertSerial := PhoneConn.c_certSerial c; IdentityKeyFP := PhoneConn.c_keyFP c |}.

(** ** The log of a public connection

    [public_log] sends the log entries of a handler's trace through the writer;
    an end is written with the start it ends ([ev] of the handler). *)
Section public.
Context (nodeHost nodeStart remote : string) (info : ClientHello.ClientHelloInfo) (started ended : Z).

Definition public_entry (e : Bridge.event) : list Event :=
  match e with
  | Bridge.ELogStart conn name => [PutConnLogPublic nodeHost nodeStart (start_event conn name remote info started)]
  | Bridge.ELogEnd conn name reason bi bo =>
      [PutConnLogPublic nodeHost nodeStart (end_event (start_event conn name remote info started) reason ended bi bo)]
  | _ => []
  end.
Definition public_log (tr : list Bridge.event) : list Event := flat_map public_entry tr.
End public.

(** ** Reading an event back *)
Lemma member_always k k' v o : member k (always k' v ++ o) = if String.eqb k' k then Some v else member k o.
Proof. done. Qed.

Lemma member_omit_ne k k' v o : String.eqb k' k = false → member k (omitempty k' v ++ o) = member k o.
Proof. intros Hk. destruct v as [[]|[]|[]]; cbn [omitempty app member]; by rewrite ?Hk. Qed.

Lemma member_omit_zero k k' v o : omitempty k' v = [] → member k (omitempty k' v ++ o) = member k o.
Proof. by intros ->. Qed.

Lemma member_last k k' v : String.eqb k' k = false → member k (omitempty k' v) = None.
Proof. intros Hk. destruct v as [[]|[]|[]]; cbn [omitempty app member]; by rewrite ?Hk. Qed.

Lemma str_omit k s o : member k o = None → str k (omitempty k (VStr s) ++ o) = s.
Proof. intros Ho. unfold str. destruct s; cbn [omitempty app member]; [by rewrite Ho|by rewrite String.eqb_refl]. Qed.
Lemma int_omit k n o : member k o = None → int k (omitempty k (VInt n) ++ o) = n.
Proof. intros Ho. unfold int. destruct n; cbn [omitempty app member]; [by rewrite Ho|by rewrite String.eqb_refl..]. Qed.
Lemma time_omit k t o : member k o = None → time k (omitempty k (VTime t) ++ o) = t.
Proof. intros Ho. unfold time. destruct t; cbn [omitempty app member]; [by rewrite String.eqb_refl|by rewrite Ho]. Qed.
Lemma str_last k s : str k (omitempty k (VStr s)) = s.
Proof. rewrite <- (app_nil_r (omitempty _ _)). by apply str_omit. Qed.

(** A member that is not there. *)
Ltac absent :=
  repeat first [rewrite member_omit_ne by reflexivity | rewrite member_omit_zero by reflexivity | rewrite member_always; cbn [String.eqb Ascii.eqb Bool.eqb]];
  first [reflexivity | apply member_last; reflexivity].

Lemma str_skip k k' v o : String.eqb k' k = false → str k (always k' v ++ o) = str k o.
Proof. intros Hk. unfold str. by rewrite member_always, Hk. Qed.
Lemma str_skip_omit k k' v o : String.eqb k' k = false → str k (omitempty k' v ++ o) = str k o.
Proof. intros Hk. unfold str. by rewrite member_omit_ne. Qed.
Lemma int_skip k k' v o : String.eqb k' k = false → int k (always k' v ++ o) = int k o.
Proof. intros Hk. unfold int. by rewrite member_always, Hk. Qed.
Lemma int_skip_omit k k' v o : String.eqb k' k = false → int k (omitempty k' v ++ o) = int k o.
Proof. intros Hk. unfold int. by rewrite member_omit_ne. Qed.
Lemma time_skip k k' v o : String.eqb k' k = false → time k (always k' v ++ o) = time k o.
Proof. intros Hk. unfold time. by rewrite member_always, Hk. Qed.
Lemma time_skip_omit k k' v o : String.eqb k' k = false → time k (omitempty k' v ++ o) = time k o.
Proof. intros Hk. unfold time. by rewrite member_omit_ne. Qed.

Ltac read_field :=
  repeat first [rewrite str_skip by reflexivity | rewrite str_skip_omit by reflexivity
               |rewrite int_skip by reflexivity | rewrite int_skip_omit by reflexivity
               |rewrite time_skip by reflexivity | rewrite time_skip_omit by reflexivity];
  first [reflexivity | rewrite str_omit by absent; reflexivity | rewrite int_omit by absent; reflexivity
        |rewrite time_omit by absent; reflexivity | apply str_last].

(** Nothing of an event is lost in its object: what is left out is read back as
    the zero value it was. *)
Lemma event_read_back e : read_event (fields e) = e.
Proof. destruct e. unfold read_event, fields. cbn [Schema Event_ Conn Type_ Tunnel NodeHostname NodeStart TSStart TSEnd
  DurationMS SrcIP SrcPort SNI ALPN TLSVersion TLSFP BytesIn BytesOut CloseReason IdentityCertSerial IdentityKeyFP].
  f_equal; read_field.
Qed.

(** ** The reasons of public connections *)
Ltac reason := unfold CloseReasons; repeat first [left; reflexivity | right].

Section reasons.
Context `{UnicodeCase} {B : Type} `{!StreamLimiter B} `{!Bridge.EdgeDeps B} (cfg : Edge.Config).
Import Bridge.
Implicit Types (st : tst B) (sp : splice_st).

Definition reasoned (sp : splice_st) : Prop := ∀ r, sp_reason sp = Some r → r ∈ CloseReasons.

Lemma reasoned_set r sp : r ∈ CloseReasons → reasoned sp → reasoned (setReason r sp).
Proof. intros Hr Hs r'. cbn. destruct (sp_reason sp) as [r0|] eqn:E; intros [= ->]; [by apply Hs|done]. Qed.
Lemma reasoned_watch r sp : r ∈ CloseReasons → reasoned sp → reasoned (watch_close r sp).
Proof. apply reasoned_set. Qed.

Lemma done_reason_known s p : done_reason s p ∈ CloseReasons.
Proof. unfold done_reason. repeat case_match; reason. Qed.
Lemma copy_reason_known up o : copy_reason up o ∈ CloseReasons.
Proof. destruct o, up; cbn; reason. Qed.

Lemma watch_tick_reasoned id name sp st : reasoned sp → reasoned (watch_tick cfg id name sp st).1.
Proof.
  intros Hs. unfold watch_tick, tbind, tnow, streams, update_stream, with_streams, tret.
  destruct (t_streams st !! id) as [s|]; [|done].
  case_match; [apply reasoned_watch; [reason|done]|]. cbn.
  case_match; [apply reasoned_watch; [reason|done]|].
  destruct (sp_next_check sp <=? _); [|done].
  destruct (parentGone _ _ _) as [[] st1]; [apply reasoned_watch; [reason|done]|done].
Qed.

Lemma splice_step_reasoned id name mem sp e st : reasoned sp → reasoned (splice_step cfg id name mem sp e st).1.
Proof.
  intros Hs. destruct e; cbn [splice_step].
  - destruct (if upload then sp_in_done sp else sp_out_done sp); [done|]. destruct (if sp_closed sp then _ else _) as [data' fin'].
    unfold tbind, tret. destruct (copy_turn _ _ _ _ _ _ _ _) as [[fwd [o|]] st1]; cbn; [|done].
    apply reasoned_set; [apply copy_reason_known|done].
  - destruct (sp_watch_done sp); [done|]. by apply watch_tick_reasoned.
  - unfold tbind, streams, dep, tret. destruct (t_streams st !! id) as [s|]; [|done].
    case_match; [|done]. apply reasoned_watch; [apply done_reason_known|done].
  - by case_match.
  - unfold tbind, tret. destruct (update_stream _ _ _) as [[] st1]. by destruct (releaseSlot _ _) as [[] st2].
  - unfold tbind, tret. by destruct (update_stream _ _ _) as [[] st1].
  - unfold tbind, tret. by destruct (update_stream _ _ _) as [[] st1].
  - unfold tbind, tret. by destruct (update_stream _ _ _) as [[] st1].
  - done.
Qed.

Lemma splice_run_reasoned id name mem sched sp st : reasoned sp → reasoned (splice_run cfg id name mem sp sched st).1.
Proof.
  revert sp st. induction sched as [|e sched IH]; intros sp st Hs; cbn; [done|]. unfold tbind.
  pose proof (splice_step_reasoned id name mem sp e st Hs). destruct (splice_step _ _ _ _ _ _ _). by apply IH.
Qed.

Lemma run_stream_reason name token via on sched st r :
  (run_stream cfg name token via on sched st).1 = Some r → r ∈ CloseReasons.
Proof.
  unfold run_stream, splice, trackStream, tbind, tnow, dep, emit, streams, tret. cbn.
  destruct (ed_ConnID (t_b st)) as [conn b1]. cbn. set (st1 := TSt b1 _ _ _).
  pose proof (splice_run_reasoned (t_next st) name token sched (splice_init (ed_now b1)) st1 ltac:(done)) as Hs.
  destruct (splice_run _ _ _ _ _ _ st1) as [sp st2]. cbn in Hs.
  unfold splice_result. destruct (sp_in_done sp && sp_out_done sp); [|done].
  assert (default CloseClientClose (sp_reason sp) ∈ CloseReasons) as Hd
    by (destruct (sp_reason sp) as [r0|] eqn:E; [by apply Hs|cbn; reason]).
  cbn. destruct (released _); cbn; [by intros [= <-]|]. unfold do_release, tbind, dep, emit. cbn.
  destruct (sl_ReleaseStream _ _ _) as [rr b3]. cbn. by intros [= <-].
Qed.
End reasons.

(** ** What the log says of a public connection *)

(** The fields an event and the next one of its connection share. *)
Definition same_connection (a b : Event) : Prop :=
  Conn a = Conn b ∧ Type_ a = Type_ b ∧ Tunnel a = Tunnel b ∧ NodeHostname a = NodeHostname b ∧ NodeStart a = NodeStart b ∧
  TSStart a = TSStart b ∧ SrcIP a = SrcIP b ∧ SrcPort a = SrcPort b ∧ SNI a = SNI b ∧ ALPN a = ALPN b ∧
  TLSVersion a = TLSVersion b ∧ TLSFP a = TLSFP b ∧
  IdentityCertSerial a = IdentityCertSerial b ∧ IdentityKeyFP a = IdentityKeyFP b.

(** A start says nothing of the end: its object has none of those members. *)
Definition start_only (e : Event) : Prop :=
  Event_ e = "start" ∧ Forall (λ k, member k (fields e) = None)
    ["ts_end"; "duration_ms"; "bytes_in"; "bytes_out"; "close_reason"].

Lemma start_has_no_end host start ev : p_Event ev = "start" →
  Forall (λ k, member k (fields (PutConnLogPublic host start ev)) = None)
    ["ts_end"; "duration_ms"; "bytes_in"; "bytes_out"; "close_reason"].
Proof.
  intros He. unfold PutConnLogPublic. rewrite He. cbn [String.eqb Ascii.eqb Bool.eqb].
  repeat (apply List.Forall_cons; [unfold fields; cbn [DurationMS TSEnd BytesIn BytesOut CloseReason]; absent|]).
  apply List.Forall_nil.
Qed.

Lemma start_event_spec conn name remote info started :
  let ev := start_event conn name remote info started in
  p_Event ev = "start" ∧ p_Tunnel ev = name ∧ p_StartedAt ev = started.
Proof. unfold start_event. by destruct (Edge.splitAddr remote). Qed.

Section logged.
Context `{UnicodeCase} {B : Type} `{!StreamLimiter B} `{!Bridge.EdgeDeps B} (cfg : Edge.Config).
Import Bridge.

Definition log_shape (name : option string) (r : option string) (out : list event) : Prop :=
  (r = None ∧ ∃ reason n, out = [ERejected reason n; ECloseClient]) ∨
  (∃ conn n, name = Some n ∧ r = None ∧ out = [EConnOpen; EStreamOpen; ELogStart conn n]) ∨
  (∃ conn n reason bi bo, name = Some n ∧ r = Some reason ∧ reason ∈ CloseReasons ∧ out = served conn n reason bi bo).

Definition shaped (name : option string) (c : T B (option string)) : Prop :=
  ∀ st, ∃ tr, t_trace (c st).2 = t_trace st ++ tr ∧ log_shape name (c st).1 (outer tr).

Lemma shaped_bind {A} name (c : T B A) (k : A → T B (option string)) :
  inner_only c → (∀ a, shaped name (k a)) → shaped name (tbind c k).
Proof.
  intros Hc Hk st. unfold tbind. destruct (Hc st) as (t1 & E1 & F1). destruct (c st) as [a st1]. simpl in E1.
  destruct (Hk a st1) as (t2 & E2 & D2). exists (t1 ++ t2). rewrite E2, E1, app_assoc. split; [done|].
  by rewrite outer_app, (outer_inner t1).
Qed.

Lemma shaped_refuse name reason n (k : T B unit) :
  inner_only k → shaped name (let! _ := refuse reason n in let! _ := k in tret None).
Proof.
  intros Hk st. unfold refuse, tbind, emit, tret. simpl. set (st1 := TSt _ _ _ _).
  destruct (Hk st1) as (t2 & E2 & F2). exists ([ERejected reason n; ECloseClient] ++ t2). destruct (k st1) as [[] st2].
  simpl in *. rewrite E2. unfold outer. simpl. rewrite <- !app_assoc. split; [done|].
  left. split; [done|]. exists reason, n. do 2 f_equal. by apply outer_inner.
Qed.

Lemma shaped_refused name reason n : shaped name (let! _ := refuse reason n in tret None).
Proof. apply (shaped_refuse name reason n (tret tt)). apply inner_ret. Qed.

Lemma handleTunnel_shaped sni addr sched : shaped (Edge.tunnelName cfg sni) (handleTunnel cfg sni addr sched).
Proof.
  unfold handleTunnel. destruct (Edge.tunnelName cfg sni) as [name|]; [|apply shaped_refused].
  apply shaped_bind; [apply inner_dep|]. intros []; [|apply shaped_refused].
  apply shaped_bind; [apply inner_dep|]. intros [[[node cid] []]|]; [|apply shaped_refused..].
  apply shaped_bind; [apply inner_dep|]. intros quota. destruct (quota_reason quota); [apply shaped_refused|].
  apply shaped_bind; [apply inner_dep|]. intros token. apply shaped_bind; [apply inner_dep|]. intros acq.
  apply shaped_bind; [destruct acq as [[]|]; auto using inner_ret, inner_evictAndAcquire|].
  intros []; [|apply shaped_refused]. apply shaped_bind; [apply inner_open|]. intros [[via on]|].
  - intros st. pose proof (run_stream_trace cfg name token via on sched st) as Ht.
    pose proof (run_stream_reason cfg name token via on sched st) as Hr.
    destruct (run_stream cfg name token via on sched st) as [r st2]. destruct Ht as (tr & conn & Htr & Ho).
    exists tr. split; [done|]. right. destruct r as [reason|]; [right|left].
    + destruct Ho as (_ & _ & bi & bo & ->). exists conn, name, reason, bi, bo. split_and!; try done. by apply Hr.
    + by exists conn, name.
  - apply shaped_refuse, inner_do_release.
Qed.

Lemma public_log_outer host start remote info a b tr :
  public_log host start remote info a b (outer tr) = public_log host start remote info a b tr.
Proof. induction tr as [|e tr IH]; [done|]. destruct e; simpl; by rewrite ?IH. Qed.

(** What the log says of a public connection: nothing if it was refused, a start while
    it runs, and a start and an end when it is over, with the same connection, tunnel,
    node, source and TLS fields; the tunnel is that of the SNI, the start has none of
    the members of an end, the end's reason is a listed one and its duration is that of
    the connection in milliseconds. *)
Lemma public_connection_logged sni addr sched st host start remote info started ended :
  let '(r, st') := handleTunnel cfg sni addr sched st in
  ∃ tr, t_trace st' = t_trace st ++ tr ∧
    match public_log host start remote info started ended tr with
    | [] => r = None
    | [s] => r = None ∧ start_only s ∧ Edge.tunnelName cfg sni = Some (Tunnel s)
    | [s; e] =>
        start_only s ∧ Edge.tunnelName cfg sni = Some (Tunnel s) ∧ same_connection s e ∧
        Event_ e = "end" ∧ r = Some (CloseReason e) ∧ CloseReason e ∈ CloseReasons ∧ TSEnd e = Some ended ∧
        (0 ≤ ended - started ≤ max_int64 →
         DurationMS e * millisecond ≤ ended - started < (DurationMS e + 1) * millisecond)
    | _ => False
    end.
Proof.
  pose proof (handleTunnel_shaped sni addr sched st) as (tr & E & Hs).
  destruct (handleTunnel cfg sni addr sched st) as [r st']. exists tr. split; [done|]. cbn [fst] in Hs.
  rewrite <- public_log_outer.
  destruct Hs as [[-> (reason & n & ->)]|[(conn & n & Hn & -> & ->)|(conn & n & reason & bi & bo & Hn & -> & Hin & ->)]].
  - done.
  - destruct (start_event_spec conn n remote info started) as (E1 & E2 & _).
    cbn [public_log flat_map public_entry app]. split_and!; [done|by split; [|apply start_has_no_end]|]. cbn. by rewrite E2.
  - destruct (start_event_spec conn n remote info started) as (E1 & E2 & E3).
    cbn [served public_log flat_map public_entry app]. split_and!; [by split; [|apply start_has_no_end]|..]; cbn; rewrite ?E2, ?E3; try done.
    intros Hd. unfold Sub, Milliseconds. rewrite Z.min_r, Z.max_r by (unfold min_int64; lia).
    rewrite Z.quot_div_nonneg by (unfold millisecond; lia).
    pose proof (Z.div_mod (ended - started) millisecond ltac:(done)).
    pose proof (Z.mod_pos_bound (ended - started) millisecond ltac:(done)). lia.
Qed.
End logged.

(** ** Ids *)
Lemma hex_encode_length b : String.length (hex_encode b) = (2 * length b)%nat.
Proof. induction b as [|x b IH]; [done|]. cbn. rewrite IH. lia. Qed.

(** Every connection id has eight digits, the fallback too, and a node always has a name. *)
Lemma conn_id_length rand : (∀ b, rand = Some b → length b = 4%nat) → String.length (MustConnID rand) = 8%nat.
Proof. intros Hr. destruct rand as [b|]; cbn; [|done]. by rewrite hex_encode_length, (Hr b). Qed.
Lemma hostname_nonempty lookup b : hostname lookup b ≠ "".
Proof. unfold hostname. destruct lookup as [h|]; [|done]. by destruct (String.eqb_spec h ""). Qed.

(** ** Phones *)

(** Layers over the edge's wrapper do not hide what it peeked. *)
Fixpoint under (n : nat) (c : net_conn) : net_conn := match n with O => c | S n => Layer (Some (under n c)) end.
Lemma ConnContext_under n m : ConnContext (under n (Carrier m)) = Some m.
Proof. by induction n. Qed.

(** What the edge peeked reaches the log of the phone: only an ALPN the hello did
    not offer is filled in by the one negotiated. *)
Lemma meta_kept n m tls :
  let m' := metaFromRequest (ConnContext (under n (Carrier m))) tls in
  Edge.m_JA4 m' = Edge.m_JA4 m ∧ Edge.m_SNI m' = Edge.m_SNI m ∧ Edge.m_TLSVersion m' = Edge.m_TLSVersion m ∧
  Edge.m_SrcIP m' = Edge.m_SrcIP m ∧ Edge.m_SrcPort m' = Edge.m_SrcPort m ∧
  (Edge.m_ALPN m ≠ "" → Edge.m_ALPN m' = Edge.m_ALPN m).
Proof.
  rewrite ConnContext_under. cbn. destruct tls as [a|]; [|done]. destruct (String.eqb_spec (Edge.m_ALPN m) ""); done.
Qed.

Lemma phone_events_match host start c meta reason t0 t :
  same_connection (writeEvent host start c meta "start" "" t0) (writeEvent host start c meta "end" reason t) ∧
  Tunnel (writeEvent host start c meta "end" reason t) = PhoneConn.c_name c ∧
  CloseReason (writeEvent host start c meta "end" reason t) = reason.
Proof. done. Qed.

(** The reasons a control connection is closed for by its own goroutines. *)
Definition phone_reasons : list string := "liveness-timeout" :: "protocol-error" :: CloseReasons.

Lemma control_step_reason {B} ping id e (m : PhoneConn.manager B) c :
  PhoneConn.m_heap m !! id = Some c → PhoneConn.c_closed c = false →
  let '(_, _, m') := PhoneConn.control_step ping id e m in
  ∀ c', PhoneConn.m_heap m' !! id = Some c' → PhoneConn.c_closed c' = true → PhoneConn.c_reason c' ∈ phone_reasons.
Proof.
  intros Hc Ho. unfold PhoneConn.control_step. rewrite Hc.
  assert (∀ f, (PhoneConn.c_closed (f c) = true → PhoneConn.c_reason (f c) ∈ phone_reasons) →
    ∀ c', PhoneConn.m_heap (PhoneConn.on_conn id f m) !! id = Some c' → PhoneConn.c_closed c' = true →
    PhoneConn.c_reason c' ∈ phone_reasons) as Hf.
  { intros f Hf c'. cbn. rewrite lookup_alter_eq, Hc. intros [= <-]. done. }
  assert (∀ c', PhoneConn.m_heap m !! id = Some c' → PhoneConn.c_closed c' = true → PhoneConn.c_reason c' ∈ phone_reasons) as Hsame
    by (intros c' Hc' Hcl; congruence).
  assert (∀ r, r ∈ phone_reasons → PhoneConn.c_closed (PhoneConn.close r c) = true →
    PhoneConn.c_reason (PhoneConn.close r c) ∈ phone_reasons) as Hcl by (intros r Hr; unfold PhoneConn.close; by rewrite Ho).
  destruct e as [|wok|now wok].
  - done.
  - destruct (PhoneConn.c_send c); [done|]. destruct wok; apply Hf; cbn; congruence.
  - destruct (match PhoneConn.c_notAfter c with Some t => t <? now | None => false end); [apply Hf, Hcl; unfold phone_reasons; reason|].
    destruct (_ <? _); [apply Hf, Hcl; unfold phone_reasons; reason|]. destruct (Wire.EncodeControl _ _ _), wok; done.
Qed.

(** Two of them are not among the reasons the log's schema lists. *)
Lemma phone_reasons_outside_list :
  PhoneConn.c_reason (PhoneConn.readPump 9 (λ _, 0) [x02; xff; xff; xff; xff] (PhoneConn.sample_conn "c")) = "protocol-error" ∧
  "protocol-error" ∉ CloseReasons ∧ "liveness-timeout" ∉ CloseReasons.
Proof.
  split; [by vm_compute|]. unfold CloseReasons.
  split; intros Hin; repeat (apply elem_of_cons in Hin as [?|Hin]; [done|]); by apply elem_of_nil in Hin.
Qed.

(** ** The listener's limits ([NewHandler]) and its answer while draining *)
Record limits := Limits { StreamPending : Z; IssueBody : Z; IssueDeadline : Z }.
Definition NewHandler (cfg : limits) : limits := {|
  StreamPending := if StreamPending cfg <? 1 then 64 else StreamPending cfg;
  IssueBody := if IssueBody cfg <? 1 then 256 * 1024 else IssueBody cfg;
  IssueDeadline := if IssueDeadline cfg <=? 0 then 390 * second else IssueDeadline cfg |}.

Lemma NewHandler_positive cfg :
  let h := NewHandler cfg in 1 ≤ StreamPending h ∧ 1 ≤ IssueBody h ∧ 0 < IssueDeadline h.
Proof. cbn. unfold second. repeat case_match; lia. Qed.

(** The status and the body; the connection is closed after it. *)
Definition refuseDraining (frame : result PhoneConn.move_error bytes) : Z * option bytes :=
  match frame with Err _ => (503, None) | Ok f => (200, Some f) end.

(** A phone that is refused because of the drain is told where to move, if there
    is somewhere. *)
Lemma drain_refusal_moves {B} marshal draws (m : PhoneConn.manager B) f :
  PhoneConn.moveFrame marshal draws m = Ok f →
  refuseDraining (PhoneConn.moveFrame marshal draws m) = (200, Some f) ∧ PhoneConn.m_moveAddrs m ≠ [].
Proof.
  intros E. rewrite E. split; [done|]. intros Hm. unfold PhoneConn.moveFrame in E. by rewrite Hm in E.
Qed.

End ConnEvents.
