(* ===== verification/EdgeListen.v ===== *)
(** * The edge's listeners

    How connections get into and out of the edge ([edge/edge.go],
    [edge/accept.go]): the listeners that hand the connections of the service's
    own hosts to the HTTP servers, and the accept loop with the counters that a
    drain polls and a shutdown waits for.

    Both are step relations over the methods' atomic parts, so that their
    theorems hold in every interleaving of the goroutines. *)
From Stdlib Require Import ZArith Lia String.
From stdpp Require Import gmap list.
From S2P Require Import Prelude GoStr ClientHello Edge.
Local Open Scope list_scope.
Local Open Scope Z_scope.

Module EdgeListen.

(** ** [chanListener] *)
Inductive place :=
| Pushing            (* in [push] *)
| Queued
| Accepted
| Closed_.           (* closed by [push] *)
#[export] Instance place_eq_dec : EqDecision place.
Proof. solve_decision. Defined.

Definition channel_size : nat := 64.

Record chanListener := ChanListener {
  ch : list nat;                     (* the channel, oldest first *)
  ln_closed : bool;
  places : gmap nat place;           (* of every connection given to [push] *)
  history : list nat                 (* in the order they entered the channel *)
}.
Definition newChanListener : chanListener := ChanListener [] false ∅ [].

(** A [select] with several ready cases takes any of them. *)
Inductive lstep : chanListener → chanListener → Prop :=
| ls_push l c : places l !! c = None →
    lstep l (ChanListener (ch l) (ln_closed l) (<[c := Pushing]> (places l)) (history l))
| ls_send l c : places l !! c = Some Pushing → (length (ch l) < channel_size)%nat →
    lstep l (ChanListener (ch l ++ [c]) (ln_closed l) (<[c := Queued]> (places l)) (history l ++ [c]))
| ls_refuse l c : places l !! c = Some Pushing → ln_closed l = true →
    lstep l (ChanListener (ch l) (ln_closed l) (<[c := Closed_]> (places l)) (history l))
| ls_accept l c rest : ch l = c :: rest →
    lstep l (ChanListener rest (ln_closed l) (<[c := Accepted]> (places l)) (history l))
| ls_close l : lstep l (ChanListener (ch l) true (places l) (history l)).

Record listener_inv (l : chanListener) : Prop := {
  li_size : (length (ch l) ≤ channel_size)%nat;
  li_queue c : c ∈ ch l ↔ places l !! c = Some Queued;
  li_nodup : NoDup (history l);
  li_known c : c ∈ history l → places l !! c = Some Queued ∨ places l !! c = Some Accepted;
  li_order : ∃ taken, history l = taken ++ ch l ∧ ∀ c, c ∈ taken ↔ places l !! c = Some Accepted;
  li_refused c : places l !! c = Some Closed_ → ln_closed l = true
}.

(** A move of one connection, for the other places. *)
Lemma moved (m : gmap nat place) c new p k : m !! c ≠ Some p → new ≠ p → <[c := new]> m !! k = Some p ↔ m !! k = Some p.
Proof.
  intros Hc Hn. rewrite lookup_insert_Some. split; [intros [[_ ?]|[_ ?]]; [congruence|done]|].
  intros Hk. right. split; [|done]. intros <-. congruence.
Qed.

Lemma listener_step l l' : listener_inv l → lstep l l' → listener_inv l'.
Proof.
  intros [H1 H2 H3 H4 (taken & H5 & H6) H7] Hs.
  destruct Hs as [l c Hc|l c Hc Hn|l c Hc Hcl|l c rest E|l]; cbn in *.
  - split; cbn; [done|intros k; rewrite moved by congruence; apply H2|done|..].
    + intros k Hk. rewrite !moved by congruence. auto.
    + exists taken. split; [done|]. intros k. rewrite moved by congruence. apply H6.
    + intros k. rewrite moved by congruence. apply H7.
  - assert (c ∉ history l) as Hfresh by (intros [Hh|Hh]%H4; congruence).
    split; cbn.
    + rewrite length_app. cbn. lia.
    + intros k. rewrite elem_of_app, list_elem_of_singleton, lookup_insert_Some, H2. split.
      * intros [Hk| ->]; [|by left]. right. split; [|done]. intros <-. congruence.
      * intros [[-> _]|[_ ?]]; auto.
    + apply NoDup_app. split; [done|]. split; [intros k Hk ->%list_elem_of_singleton; done|apply NoDup_singleton].
    + intros k [Hk| ->%list_elem_of_singleton]%elem_of_app; [|left; apply lookup_insert_eq].
      destruct (decide (c = k)) as [-> |Hne]; [by destruct Hfresh|]. rewrite lookup_insert_ne by done. auto.
    + exists taken. split; [by rewrite H5, app_assoc|]. intros k. rewrite moved by congruence. apply H6.
    + intros k. rewrite moved by congruence. apply H7.
  - split; cbn; [done|intros k; rewrite moved by congruence; apply H2|done|..].
    + intros k Hk. rewrite !moved by congruence. auto.
    + exists taken. split; [done|]. intros k. rewrite moved by congruence. apply H6.
    + done.
  - assert (c ∉ rest) as Hc.
    { rewrite H5, E in H3. apply NoDup_app in H3 as (_ & _ & H3). by apply NoDup_cons in H3 as [? _]. }
    assert (places l !! c = Some Queued) as Hq by (apply H2; rewrite E; left).
    split; cbn.
    + rewrite E in H1. cbn in H1. lia.
    + intros k. rewrite lookup_insert_Some. split.
      * intros Hk. right. split; [by intros ->|]. apply H2. rewrite E. by right.
      * intros [[_ ?]|[Hne Hk]]; [done|]. apply H2 in Hk. rewrite E in Hk. apply elem_of_cons in Hk as [-> |?]; done.
    + done.
    + intros k Hk. destruct (decide (c = k)) as [-> |Hne]; [right; apply lookup_insert_eq|].
      rewrite !lookup_insert_ne by done. auto.
    + exists (taken ++ [c]). split; [by rewrite H5, E, <- app_assoc|]. intros k.
      rewrite elem_of_app, list_elem_of_singleton, lookup_insert_Some, H6. split.
      * intros [Hk| ->]; [|by left]. destruct (decide (c = k)) as [-> |]; [by left|by right].
      * intros [[-> _]|[_ ?]]; auto.
    + intros k. rewrite moved by congruence. apply H7.
  - by split; [..|exists taken|].
Qed.

Lemma listener_inv_new : listener_inv newChanListener.
Proof.
  split; cbn; [unfold channel_size; lia|intros c; rewrite lookup_empty; set_solver|constructor|set_solver| |by intros c; rewrite lookup_empty].
  exists []. split; [done|]. intros c. rewrite lookup_empty. set_solver.
Qed.

(** However pushes, accepts and the close interleave: connections are accepted
    once, in the order they were queued; a push closes its connection only after the
    listener was closed; and a push is never stuck at a closed listener. *)
Lemma listener_hands_over l c : run lstep newChanListener l →
  (∃ taken, history l = taken ++ ch l ∧ NoDup (history l) ∧ ∀ k, k ∈ taken ↔ places l !! k = Some Accepted) ∧
  (places l !! c = Some Closed_ → ln_closed l = true) ∧
  (places l !! c = Some Pushing → ln_closed l = true → ∃ l', lstep l l' ∧ places l' !! c = Some Closed_).
Proof.
  intros Hr. assert (listener_inv l) as [_ _ H3 _ (taken & H5 & H6) H7].
  { apply (run_invariant lstep listener_inv listener_step _ _ Hr), listener_inv_new. }
  split; [by exists taken|]. split; [apply H7|]. intros Hp Hc.
  eexists. split; [by apply (ls_refuse l c)|]. apply lookup_insert_eq.
Qed.

(** A connection that is queued when the listener closes can still be accepted; if
    the server has stopped accepting, it stays in the channel. *)
Lemma closed_listener_may_keep_one : ∃ l, run lstep newChanListener l ∧ ln_closed l = true ∧ places l !! 7%nat = Some Queued.
Proof.
  exists (ChanListener [7%nat] true (<[7%nat := Queued]> (<[7%nat := Pushing]> ∅)) [7%nat]). split; [|by split; [|vm_compute]].
  eapply run_step; [by apply (ls_push _ 7%nat)|]. eapply run_step; [apply (ls_send _ 7%nat); [by vm_compute|cbn; unfold channel_size; lia]|].
  apply run_one, ls_close.
Qed.

(** ** The accept loop *)
Inductive loop :=
| LAccept                     (* in [Accept] *)
| LGot (c : nat)              (* accepted, not yet counted *)
| LAdded (c : nat)            (* counted by the wait group only *)
| LBackoff
| LEnded.

Inductive phase := Running | Uncounted | Gone.     (* after [handling.Add(-1)], after [wg.Done] *)
#[export] Instance phase_eq_dec : EqDecision phase.
Proof. solve_decision. Defined.

(** How [Wait] returned; the flag: whether the accept loop had ended. *)
Inductive waiting := NotYet | Waiting | Joined (ended : bool) | TimedOut.

Record edge_state := EState {
  es_ctx : bool;              (* the context has ended *)
  es_open : bool;             (* the raw listener *)
  es_loop : loop;
  es_delay : Z;
  es_wg : Z;
  es_handling : Z;
  es_handlers : gmap nat phase;
  es_wait : waiting
}.
Definition edge_start : edge_state := EState false true LAccept 0 0 0 ∅ NotYet.
Definition InFlightConns (s : edge_state) : Z := es_handling s.

Definition at_loop (p : loop) (s : edge_state) : edge_state :=
  EState (es_ctx s) (es_open s) p (es_delay s) (es_wg s) (es_handling s) (es_handlers s) (es_wait s).
Definition set_phase (c : nat) (p : phase) (dwg dh : Z) (s : edge_state) : edge_state :=
  EState (es_ctx s) (es_open s) (es_loop s) (es_delay s) (es_wg s + dwg) (es_handling s + dh)
    (<[c := p]> (es_handlers s)) (es_wait s).
Definition at_wait (w : waiting) (s : edge_state) : edge_state :=
  EState (es_ctx s) (es_open s) (es_loop s) (es_delay s) (es_wg s) (es_handling s) (es_handlers s) w.

Definition ended (p : loop) : bool := match p with LEnded => true | _ => false end.

Inductive estep : edge_state → edge_state → Prop :=
(* acceptLoop *)
| es_accept s c : es_loop s = LAccept → es_open s = true → es_handlers s !! c = None →
    estep s (at_loop (LGot c) s)
| es_stop s : es_loop s = LAccept → es_open s = false ∨ es_ctx s = true → estep s (at_loop LEnded s)
| es_error s : es_loop s = LAccept → es_open s = true → es_ctx s = false →
    estep s (EState (es_ctx s) (es_open s) LBackoff (Edge.accept_backoff (es_delay s)) (es_wg s) (es_handling s)
                    (es_handlers s) (es_wait s))
| es_retry s : es_loop s = LBackoff → estep s (at_loop LAccept s)
| es_give_up s : es_loop s = LBackoff → es_ctx s = true → estep s (at_loop LEnded s)
| es_add s c : es_loop s = LGot c →
    estep s (EState (es_ctx s) (es_open s) (LAdded c) 0 (es_wg s + 1) (es_handling s) (es_handlers s) (es_wait s))
| es_spawn s c : es_loop s = LAdded c →
    estep s (at_loop LAccept (set_phase c Running 0 1 s))
(* the deferred calls of a handler, last first *)
| es_uncount s c : es_handlers s !! c = Some Running → estep s (set_phase c Uncounted 0 (-1) s)
| es_done s c : es_handlers s !! c = Some Uncounted → estep s (set_phase c Gone (-1) 0 s)
(* Serve's closer *)
| es_cancel s : estep s (EState true (es_open s) (es_loop s) (es_delay s) (es_wg s) (es_handling s) (es_handlers s) (es_wait s))
| es_close s : es_ctx s = true →
    estep s (EState true false (es_loop s) (es_delay s) (es_wg s) (es_handling s) (es_handlers s) (es_wait s))
(* Wait *)
| es_begin_wait s : es_wait s = NotYet → estep s (at_wait Waiting s)
| es_joined s : es_wait s = Waiting → es_wg s = 0 → estep s (at_wait (Joined (ended (es_loop s))) s)
| es_timeout s : es_wait s = Waiting → estep s (at_wait TimedOut s).

Definition pending (p : loop) : option nat := match p with LGot c | LAdded c => Some c | _ => None end.
Definition is_running (p : phase) : bool := match p with Running => true | _ => false end.
Definition is_live (p : phase) : bool := match p with Gone => false | _ => true end.

Record edge_inv (s : edge_state) : Prop := {
  ei_handling : es_handling s = count_if is_running (es_handlers s);
  ei_wg : es_wg s = count_if is_live (es_handlers s) + (match es_loop s with LAdded _ => 1 | _ => 0 end);
  ei_fresh c : pending (es_loop s) = Some c → es_handlers s !! c = None;
  ei_delay : 0 ≤ es_delay s ≤ second;
  ei_joined : es_wait s = Joined true → es_loop s = LEnded ∧ es_wg s = 0
}.

Lemma backoff_bounds d : 0 ≤ d ≤ second → 0 ≤ Edge.accept_backoff d ≤ second.
Proof. intros Hd. unfold Edge.accept_backoff, second, millisecond in *. zcase. Qed.

Lemma edge_step s s' : edge_inv s → estep s s' → edge_inv s'.
Proof.
  intros [H1 H2 H3 H4 H5] Hs. destruct Hs; cbn in *;
    try match goal with H : es_loop s = _ |- _ => rewrite H in * end; cbn in *.
  1,2,4,5,10,11,12,14: split; cbn; try done; try (by intros ? [= <-]); try (by intros [? ?]%H5); try (by rewrite ?H); lia.
  - split; cbn; try done; [by apply backoff_bounds|by intros [? ?]%H5].
  - split; cbn; try done; try (unfold second; lia). by intros [? ?]%H5.
  - specialize (H3 c eq_refl). split; cbn; rewrite ?count_if_insert, ?H3; cbn; try done; try lia. by intros [? ?]%H5.
  - split; cbn; rewrite ?count_if_insert, ?H; cbn; try done; try lia.
    + intros k Hk. rewrite lookup_insert_ne; [by apply H3|]. intros ->. rewrite (H3 k Hk) in H. done.
    + intros [? ?]%H5. split; [done|lia].
  - pose proof (count_if_pos is_live _ _ _ H eq_refl). split; cbn; rewrite ?count_if_insert, ?H; cbn; try done; try lia.
    + intros k Hk. rewrite lookup_insert_ne; [by apply H3|]. intros ->. rewrite (H3 k Hk) in H. done.
    + intros [E ?]%H5. rewrite E in *. lia.
  - split; cbn; try done. intros [= Hj]. by destruct (es_loop s).
Qed.

(** In every interleaving of the accept loop, the handlers, the close and [Wait]:
    [InFlightConns] is the number of connections being handled, the pause after a
    failed accept is at most a second, and if [Wait] was not cut off and the accept
    loop had ended, no connection is being handled and none will be. *)
Lemma edge_waits_for_handlers s : run estep edge_start s →
  InFlightConns s = count_if is_running (es_handlers s) ∧ 0 ≤ es_delay s ≤ second ∧
  (es_wait s = Joined true → InFlightConns s = 0 ∧ ∀ c p, es_handlers s !! c = Some p → p = Gone).
Proof.
  intros Hr. assert (edge_inv s) as [H1 H2 _ H4 H5].
  { apply (run_invariant estep edge_inv edge_step _ _ Hr). by split. }
  split; [done|]. split; [done|]. intros [E Hw]%H5. rewrite E, Hw in H2.
  assert (∀ c p, es_handlers s !! c = Some p → p = Gone) as Hg.
  { intros c p Hp. destruct p; [..|done]; pose proof (count_if_pos is_live _ _ _ Hp eq_refl); lia. }
  split; [|done]. unfold InFlightConns. rewrite H1. apply count_if_zero. intros k p Hp. by rewrite (Hg k p Hp).
Qed.

(** A connection the loop has accepted but not yet counted is missed by [Wait]: it
    can return while the loop still runs, and the connection be handled after. *)
Lemma wait_misses_uncounted : ∃ s, run estep edge_start s ∧
  es_wait s = Joined false ∧ es_open s = false ∧ es_handlers s !! 1%nat = Some Running.
Proof.
  eexists. split.
  - eapply run_step; [by apply (es_accept _ 1%nat)|]. eapply run_step; [apply es_cancel|].
    eapply run_step; [by apply es_close|]. eapply run_step; [by apply es_begin_wait|].
    eapply run_step; [by apply es_joined|]. eapply run_step; [by apply (es_add _ 1%nat)|].
    apply run_one. by apply (es_spawn _ 1%nat).
  - done.
Qed.

End EdgeListen.
