(* ===== verification/Soak.v ===== *)
(** * The soak client

    The load generator beside the service ([support/soak-client/soak/soak.go]):
    its flags, the sizes and bodies of its operations, one worker per phone with
    its backoff, the failures that stop a run, and the recorder whose minute rows
    and final summary are the result of a run.

    The methods of the recorder run under its mutex, so that a run of it is a
    list of calls; writing a row to the CSV file may fail.  Its counts are not
    bounded to 64 bits, which a run does not reach. *)
From Stdlib Require Import ZArith Lia Ascii String Floats.SpecFloat.
From stdpp Require Import gmap list sorting strings.
From S2P Require Import Prelude GoStr GoFloat Valkey Challenges.
Local Open Scope string_scope.
Local Open Scope list_scope.
Local Open Scope Z_scope.

Module Soak.
Import GoFloat.

Definition maxResponse : Z := 65536.
Definition maxRequest : Z := 2 ^ 20.
Definition maxBackoff : Z := 16 * second.
Definition maxFailures : Z := 1000.

(** ** Flags and names *)
Definition minSize (avg : Z) : Z := Z.max 1 (Z.quot avg 5).
Definition maxSize (avg : Z) : Z := Z.quot (wrap64 (avg * 9)) 5.

Record config := Config {
  namesFile : string; domain : string; interval : Z; reqBytes : Z; respBytes : Z;
  reconnect : Z; duration : Z; timeout : Z; connect : string; ramp : Z
}.

(** The checks after the flags were parsed; the flag that is wrong. *)
Definition parseConfig (c : config) : result string config :=
  if String.eqb (namesFile c) "" then Err "--names-file"
  else if String.eqb (domain c) "" then Err "--domain"
  else if (interval c <=? 0) || (reconnect c <=? 0) || (duration c <=? 0) || (timeout c <=? 0)
  then Err "--interval, --reconnect, --duration and --timeout"
  else if ramp c <? 0 then Err "--ramp"
  else if (reqBytes c <=? 0) || (respBytes c <=? 0) then Err "--req-bytes and --resp-bytes"
  else if maxResponse <? maxSize (respBytes c) then Err "--resp-bytes"
  else if maxRequest <? maxSize (reqBytes c) then Err "--req-bytes"
  else if negb (String.eqb (connect c) "") &&
          match Challenges.SplitHostPort (connect c) with Some _ => false | None => true end then Err "--connect"
  else Ok c.

(** [^[a-z0-9-]{1,63}$] *)
Definition name_char (a : ascii) : bool :=
  let n := Z.of_nat (nat_of_ascii a) in
  ((97 <=? n) && (n <=? 122)) || ((48 <=? n) && (n <=? 57)) || (n =? 45).
Fixpoint all_chars (f : ascii → bool) (s : string) : bool :=
  match s with "" => true | String a s => f a && all_chars f s end.
Definition nameRE (n : string) : bool :=
  (1 <=? Z.of_nat (String.length n)) && (Z.of_nat (String.length n) <=? 63) && all_chars name_char n.

(** The scanner's lines, and whether it stopped without an error. *)
Section names.
Context `{UnicodeCase}.
Fixpoint collect_names (lines : list string) (names : list string) : option (list string) :=
  match lines with
  | [] => Some names
  | l :: lines =>
      let n := TrimSpace l in
      if String.eqb n "" then collect_names lines names
      else if negb (nameRE n) then None
      else collect_names lines (names ++ [n])
  end.
Definition readNames (lines : list string) (scanned : bool) : option (list string) :=
  match collect_names lines [] with
  | None => None
  | Some names => if negb scanned then None else match names with [] => None | _ => Some names end
  end.
End names.

(** ** Sizes and bodies *)

(** [rand.Int] panics if its bound is not positive; [draw] is what it drew. *)
Definition sizeAround (avg : Z) (draw : option Z) : option (result unit Z) :=
  let lo := minSize avg in
  let hi := maxSize avg in
  let bound := wrap64 (hi - lo + 1) in
  if bound <=? 0 then None
  else Some match draw with None => Err tt | Some n => Ok (wrap64 (lo + n mod bound)) end.

Definition pattern_byte (i : nat) : Z := Z.of_nat i mod 251.
Definition pattern (n : nat) : list Z := map pattern_byte (seq 0 n).
Fixpoint verify_from (i : nat) (b : list Z) : bool :=
  match b with [] => true | v :: b => (v =? pattern_byte i) && verify_from (S i) b end.
Definition verify (b : list Z) (n : nat) : bool := (length b =? n)%nat && verify_from 0 b.

(** ** Errors *)
Record net_error := NetError {
  is_deadline : bool; is_timeout : bool; is_dns : bool; is_cert : bool; is_record : bool; op_ : option string
}.
Definition classify (e : net_error) : string :=
  if is_deadline e || is_timeout e then "timeout"
  else if is_dns e then "dns"
  else if is_cert e || is_record e then "tls"
  else if match op_ e with Some o => String.eqb o "dial" | None => false end then "dial"
  else "transport".

(** ** Statistics *)
Record stats := Stats {
  st_ok : Z; st_errors : Z; st_kinds : gmap string Z; st_latencies : list Z; st_newConns : Z; st_bytesUp : Z; st_bytesDn : Z
}.
Definition newStats : stats := Stats 0 0 ∅ [] 0 0 0.

(** [0.999999] *)
Definition almost_one : float64 := S754_finite false 9007190247541737 (-53).
Section percentile.
Context `{FloatLib}.
Definition rank (n p : Z) : Z := to_int (fadd (fdiv (fmul (of_int n) (of_int p)) (of_int 100)) almost_one) - 1.
Definition percentile (sorted : list Z) (p : Z) : Z :=
  match sorted with
  | [] => 0
  | _ => default 0 (sorted !! Z.to_nat (Z.min (Z.max (rank (len sorted) p) 0) (len sorted - 1)))
  end.
End percentile.

Definition succeeded_once (lat up down : Z) (newConn : bool) (s : stats) : stats :=
  Stats (st_ok s + 1) (st_errors s) (st_kinds s) (st_latencies s ++ [lat])
    (if newConn then st_newConns s + 1 else st_newConns s) (st_bytesUp s + up) (st_bytesDn s + down).
Definition failed_once (kind : string) (s : stats) : stats :=
  Stats (st_ok s) (st_errors s + 1) (<[kind := default 0 (st_kinds s !! kind) + 1]> (st_kinds s)) (st_latencies s)
    (st_newConns s) (st_bytesUp s) (st_bytesDn s).

(** *** What a row says of its statistics *)
Definition str_le (a b : string) : Prop := String.leb a b = true.
#[export] Instance str_le_dec : RelDecision str_le := λ a b, decide (String.leb a b = true).
Definition kindsField (kinds : gmap string Z) : string :=
  String.concat ";" (map (λ k, k +:+ "=" +:+ FormatInt (default 0 (kinds !! k))) (merge_sort str_le (map fst (map_to_list kinds)))).

Record row := Row {
  r_minute : Z; r_phone : string; r_ok : Z; r_errors : Z; r_kinds : string;
  r_p50 : Z; r_p95 : Z; r_p99 : Z; r_max : Z; r_newConns : Z; r_up : Z; r_down : Z
}.
Definition row_of `{FloatLib} (minute : Z) (phone : string) (s : stats) : row :=
  let lat := merge_sort Z.le (st_latencies s) in
  {| r_minute := minute; r_phone := phone; r_ok := st_ok s; r_errors := st_errors s; r_kinds := kindsField (st_kinds s);
     r_p50 := percentile lat 50; r_p95 := percentile lat 95; r_p99 := percentile lat 99; r_max := default 0 (last lat);
     r_newConns := st_newConns s; r_up := st_bytesUp s; r_down := st_bytesDn s |}.

(** ** The recorder *)
Record recorder := Recorder {
  phones : list string;
  window : gmap string stats;
  total : gmap string stats;
  logged : gset (string * string);
  windowStart : Z;
  rows : list (Z * string * stats);          (* accepted by the CSV writer: the minute, the phone, what it counts *)
  warned : list (string * string)            (* lines logged *)
}.
Definition newRecorder (names : list string) (start : Z) : recorder :=
  let fresh := list_to_map (map (λ p, (p, newStats)) names) in
  Recorder names fresh fresh ∅ start [] [].

(** A phone that is not there is a nil pointer: only the workers' phones are used. *)
Definition on_both (phone : string) (f : stats → stats) (r : recorder) : recorder :=
  Recorder (phones r) (alter f phone (window r)) (alter f phone (total r)) (logged r) (windowStart r) (rows r) (warned r).
Definition success (phone : string) (lat up down : Z) (newConn : bool) : recorder → recorder :=
  on_both phone (succeeded_once lat up down newConn).
Definition failure (phone kind : string) (r : recorder) : recorder :=
  let r := on_both phone (failed_once kind) r in
  if decide ((phone, kind) ∈ logged r) then r
  else Recorder (phones r) (window r) (total r) ({[(phone, kind)]} ∪ logged r) (windowStart r) (rows r) (warned r ++ [(phone, kind)]).

(** The rows of a flush; it stops at the first row the writer refuses. *)
Fixpoint flush_rows (ps : list string) (refuses : string → bool) (r : recorder) : bool * recorder :=
  match ps with
  | [] => (true, r)
  | p :: ps =>
      if refuses p then (false, r)
      else
        flush_rows ps refuses
          (Recorder (phones r) (<[p := newStats]> (window r)) (total r) (logged r) (windowStart r)
             (rows r ++ [(windowStart r, p, default newStats (window r !! p))]) (warned r))
  end.
(** [synced]: the writer's error after its own flush. *)
Definition flush (now : Z) (refuses : string → bool) (synced : bool) (r : recorder) : bool * recorder :=
  match flush_rows (phones r) refuses r with
  | (false, r) => (false, r)
  | (true, r) => (synced, Recorder (phones r) (window r) (total r) ∅ now (rows r) (warned r))
  end.

(** *** The summary's total line *)
Definition kinds_add (a b : gmap string Z) : gmap string Z := union_with (λ x y, Some (x + y)) a b.
Definition stats_add (a b : stats) : stats :=
  Stats (st_ok a + st_ok b) (st_errors a + st_errors b) (kinds_add (st_kinds a) (st_kinds b))
    (st_latencies a ++ st_latencies b) (st_newConns a + st_newConns b) (st_bytesUp a + st_bytesUp b) (st_bytesDn a + st_bytesDn b).
Definition summary_total (r : recorder) : stats :=
  fold_left (λ all p, stats_add all (default newStats (total r !! p))) (phones r) newStats.

(** ** Workers *)
Definition startDelay (i n ramp : Z) : Z := if n <=? 0 then 0 else Z.quot (wrap64 (ramp * i)) n.

(** [failureStreak]: the count, and whether the run ends. *)
Definition failed (limit n : Z) : Z * bool := (n + 1, limit <? n + 1).
Definition streak_after (limit n : Z) (ok : bool) : Z * bool := if ok then (0, false) else failed limit n.

Definition nextBackoff (cur interval ceiling : Z) : Z := Z.max interval (Z.min (wrap64 (2 * cur)) ceiling).
Definition afterOp (ok : bool) (backoff interval ceiling : Z) : Z := if ok then 0 else nextBackoff backoff interval ceiling.

(** How a request ended: not sent, or answered with a status and a body that was
    read to its end or not. *)
Inductive exchange := NoAnswer (e : net_error) | Answered (status : Z) (body : list Z) (read_error : option net_error).

(** What an operation tells the recorder; [stopped]: the run's context ended meanwhile. *)
Inductive outcome := OSuccess (up down : Z) | OFailure (kind : string) | ONothing.
Definition op_outcome (reqN : Z) (respN : nat) (stopped : bool) (x : exchange) : outcome :=
  if stopped then ONothing
  else match x with
       | NoAnswer e => OFailure (classify e)
       | Answered _ _ (Some e) => OFailure (classify e)
       | Answered status body None =>
           let body := take (Z.to_nat (maxResponse + 1)) body in
           if negb (status =? 200) then OFailure ("status_" +:+ FormatInt status)
           else if verify body respN then OSuccess reqN (len body) else OFailure "verify"
       end.
Definition tell (phone : string) (lat : Z) (newConn : bool) (o : outcome) (r : recorder) : recorder :=
  match o with
  | OSuccess up down => success phone lat up down newConn r
  | OFailure kind => failure phone kind r
  | ONothing => r
  end.

(** One turn of [worker.run] at its timer: the new backoff, the pause before the
    next operation from [spent] on, or [None] when the worker ends. *)
Definition turn (cfg : config) (o : outcome) (stopped : bool) (limit streak backoff spent : Z) : Z * option (Z * Z) :=
  if stopped then (streak, None)
  else
    let ok := match o with OSuccess _ _ => true | _ => false end in
    let '(streak, over) := streak_after limit streak ok in
    if over then (streak, None)
    else
      let backoff := afterOp ok backoff (interval cfg) maxBackoff in
      (streak, Some (backoff, if 0 <? backoff then backoff else interval cfg - spent)).

(** ** Bodies *)
Lemma verify_from_pattern i n : verify_from i (map pattern_byte (seq i n)) = true.
Proof. revert i. induction n as [|n IH]; intros i; [done|]. cbn. by rewrite Z.eqb_refl, IH. Qed.

Lemma verify_from_eq i b : verify_from i b = true → b = map pattern_byte (seq i (length b)).
Proof.
  revert i. induction b as [|v b IH]; intros i; [done|]. cbn. intros [Hv Hb]%andb_prop.
  apply Z.eqb_eq in Hv as ->. by rewrite (IH _ Hb) at 1.
Qed.

(** The check accepts exactly the body that was asked for. *)
Lemma verify_pattern b n : verify b n = true ↔ b = pattern n.
Proof.
  unfold verify, pattern. rewrite andb_true_iff, Nat.eqb_eq. split.
  - intros [<- Hb]. by apply verify_from_eq.
  - intros ->. split; [by rewrite length_map, length_seq|apply verify_from_pattern].
Qed.

(** ** Sizes *)
Lemma maxSize_bounds avg : 0 < avg → avg * 9 ≤ max_int64 → minSize avg ≤ maxSize avg ∧ 1 ≤ minSize avg.
Proof.
  intros H0 Hm. unfold minSize, maxSize. rewrite wrap64_id by (unfold min_int64; lia).
  rewrite !Z.quot_div_nonneg by lia. pose proof (Z.div_le_mono avg (avg * 9) 5). pose proof (Z.div_le_lower_bound (avg * 9) 5 1). lia.
Qed.

(** A size drawn for a validated flag is positive and within what the phone takes,
    unless the flag is so large that nine times it does not fit an int64. *)
Lemma sizes_in_range c n avg limit draw : parseConfig c = Ok n → (avg, limit) ∈ [(reqBytes c, maxRequest); (respBytes c, maxResponse)] →
  avg * 9 ≤ max_int64 → ∃ size, sizeAround avg (Some draw) = Some (Ok size) ∧ 1 ≤ size ≤ limit.
Proof.
  intros Hc Hin Hm. assert (0 < avg ∧ maxSize avg ≤ limit ∧ limit ≤ maxRequest) as (H0 & Hl & Hr).
  { unfold parseConfig in Hc. repeat (destruct (_ : bool) eqn:? in Hc; [done|]). clear Hc. zbool.
    rewrite !elem_of_cons, elem_of_nil in Hin. destruct Hin as [[= -> ->]|[[= -> ->]|[]]]; unfold maxResponse, maxRequest in *; lia. }
  destruct (maxSize_bounds avg H0 Hm) as [H1 H2]. unfold maxRequest in Hr. unfold sizeAround.
  rewrite (wrap64_id (maxSize avg - minSize avg + 1)) by (unfold min_int64, max_int64; lia).
  destruct (Z.leb_spec (maxSize avg - minSize avg + 1) 0); [lia|]. eexists. split; [done|].
  pose proof (Z.mod_pos_bound draw (maxSize avg - minSize avg + 1) ltac:(lia)).
  rewrite wrap64_id by (unfold min_int64, max_int64; lia). lia.
Qed.

(** A larger flag passes the check and then panics. *)
Lemma oversized_flag_panics :
  let c := Config "names" "example.org" second (2 ^ 60) 1024 second second second "" 0 in
  parseConfig c = Ok c ∧ ∀ draw, sizeAround (reqBytes c) draw = None.
Proof. split; [by vm_compute|]. intros draw. unfold sizeAround. by vm_compute. Qed.

(** ** Nothing is lost between the rows and the summary *)
Lemma stats_eq a b : st_ok a = st_ok b → st_errors a = st_errors b → st_kinds a = st_kinds b → st_latencies a = st_latencies b →
  st_newConns a = st_newConns b → st_bytesUp a = st_bytesUp b → st_bytesDn a = st_bytesDn b → a = b.
Proof. destruct a, b. cbn. by intros -> -> -> -> -> -> ->. Qed.

Lemma kinds_lookup a b k :
  kinds_add a b !! k = match a !! k, b !! k with Some x, Some y => Some (x + y) | Some x, None => Some x | None, y => y end.
Proof. unfold kinds_add. rewrite lookup_union_with. by destruct (a !! k), (b !! k). Qed.

Lemma stats_add_new a : stats_add a newStats = a.
Proof.
  apply stats_eq; cbn; try lia; [|apply app_nil_r]. apply map_eq. intros k. rewrite kinds_lookup, lookup_empty. by destruct (_ !! k).
Qed.
Lemma stats_new_add a : stats_add newStats a = a.
Proof. apply stats_eq; cbn; try lia; [|done]. apply map_eq. intros k. by rewrite kinds_lookup, lookup_empty. Qed.

Lemma stats_add_assoc a b c : stats_add a (stats_add b c) = stats_add (stats_add a b) c.
Proof.
  apply stats_eq; cbn; try lia; [|apply app_assoc]. apply map_eq. intros k. rewrite !kinds_lookup.
  destruct (st_kinds a !! k), (st_kinds b !! k), (st_kinds c !! k); f_equal; lia.
Qed.

Lemma success_adds lat up down nc a b :
  succeeded_once lat up down nc (stats_add a b) = stats_add a (succeeded_once lat up down nc b).
Proof. apply stats_eq; cbn; try lia; [done|by rewrite app_assoc|destruct nc; lia]. Qed.

Lemma failure_adds kind a b : failed_once kind (stats_add a b) = stats_add a (failed_once kind b).
Proof.
  apply stats_eq; cbn; try lia; try done. apply map_eq. intros k. rewrite (kinds_lookup _ (<[_ := _]> _)).
  destruct (decide (kind = k)) as [<-|Hne].
  - rewrite !lookup_insert_eq, kinds_lookup. destruct (st_kinds a !! kind) as [x|], (st_kinds b !! kind) as [y|]; cbn; f_equal; lia.
  - by rewrite !lookup_insert_ne, kinds_lookup by done.
Qed.

(** What the accepted rows say of a phone. *)
Definition counted (p : string) (rs : list (Z * string * stats)) : stats :=
  fold_left (λ acc r, if String.eqb r.1.2 p then stats_add acc r.2 else acc) rs newStats.

Lemma counted_snoc p rs m q st :
  counted p (rs ++ [(m, q, st)]) = if String.eqb q p then stats_add (counted p rs) st else counted p rs.
Proof. unfold counted. by rewrite fold_left_app. Qed.

Inductive call :=
| CTell (phone : string) (lat : Z) (newConn : bool) (o : outcome)
| CFlush (now : Z) (refuses : string → bool) (synced : bool).
Definition perform (c : call) (r : recorder) : recorder :=
  match c with
  | CTell phone lat nc o => tell phone lat nc o r
  | CFlush now refuses synced => (flush now refuses synced r).2
  end.
Definition performs (cs : list call) (r : recorder) : recorder := fold_left (λ r c, perform c r) cs r.

(** The rows and the window of a phone make up its total. *)
Definition conserved (r : recorder) : Prop :=
  (∀ p, p ∈ phones r → is_Some (window r !! p)) ∧
  ∀ p w, window r !! p = Some w → total r !! p = Some (stats_add (counted p (rows r)) w).

Lemma conserved_both phone f r : (∀ a b, f (stats_add a b) = stats_add a (f b)) → conserved r → conserved (on_both phone f r).
Proof.
  intros Hf [H1 H2]. split; cbn.
  - intros p [w Hw]%H1. rewrite lookup_alter. destruct (decide (phone = p)) as [->|]; rewrite Hw; eauto.
  - intros p w. rewrite !lookup_alter. destruct (decide (phone = p)) as [<-|]; [|apply H2].
    destruct (window r !! phone) as [w0|] eqn:E; [|done]. intros [= <-]. by rewrite (H2 _ _ E), <- Hf.
Qed.

Lemma conserved_flush ps refuses r : (∀ p, p ∈ ps → p ∈ phones r) → conserved r → conserved (flush_rows ps refuses r).2.
Proof.
  revert r. induction ps as [|p ps IH]; intros r Hps Hc; cbn; [done|]. destruct (refuses p); [done|].
  apply IH; [intros q Hq; cbn; apply Hps; by right|]. destruct Hc as [H1 H2]. split; cbn [window total rows phones].
  - intros q Hq. destruct (decide (p = q)) as [<-|]; [rewrite lookup_insert_eq|rewrite lookup_insert_ne by done]; eauto.
  - intros q w. rewrite counted_snoc. destruct (String.eqb_spec p q) as [<-|Hne].
    + rewrite lookup_insert_eq. intros [= <-]. rewrite stats_add_new.
      destruct (H1 p (Hps p ltac:(left))) as [w0 E]. rewrite E. by apply H2.
    + rewrite lookup_insert_ne by done. apply H2.
Qed.

Lemma performs_conserved cs r : conserved r → conserved (performs cs r) ∧ phones (performs cs r) = phones r.
Proof.
  revert r. induction cs as [|c cs IH]; intros r Hc; [done|]. change (performs (c :: cs) r) with (performs cs (perform c r)).
  assert (conserved (perform c r) ∧ phones (perform c r) = phones r) as [H1 H2]; [|destruct (IH _ H1) as [? E]; by rewrite E].
  destruct c as [phone lat nc o|now refuses synced]; cbn.
  - destruct o as [up down|kind|]; cbn; [split; [apply conserved_both; [apply success_adds|done]|done]| |done].
    unfold failure. pose proof (conserved_both phone _ r (failure_adds kind) Hc) as Hb. by case_decide.
  - unfold flush. pose proof (conserved_flush (phones r) refuses r ltac:(done) Hc) as Hf.
    assert (∀ ps r, phones (flush_rows ps refuses r).2 = phones r) as Hp.
    { clear. induction ps as [|p ps IH]; intros r; cbn; [done|]. destruct (refuses p); [done|]. by rewrite IH. }
    specialize (Hp (phones r) r). destruct (flush_rows _ _ r) as [[] r1]; cbn in *; by split.
Qed.

Lemma conserved_new names start : conserved (newRecorder names start).
Proof.
  split; cbn.
  - intros p Hp. destruct (list_to_map (map (λ p0, (p0, newStats)) names) !! p) eqn:E; [eauto|].
    apply not_elem_of_list_to_map in E. destruct E. rewrite map_map. cbn. by rewrite map_id.
  - intros p w Hw. rewrite Hw. f_equal. by rewrite stats_new_add.
Qed.

(** When the last flush wrote every row, the windows are empty. *)
Lemma flush_rows_empties ps refuses r p : (flush_rows ps refuses r).1 = true → p ∈ ps →
  window (flush_rows ps refuses r).2 !! p = Some newStats.
Proof.
  assert (∀ ps r, window r !! p = Some newStats → window (flush_rows ps refuses r).2 !! p = Some newStats) as Hkeep.
  { clear. induction ps as [|q ps IH]; intros r Hr; cbn; [done|]. destruct (refuses q); [done|]. apply IH. cbn.
    destruct (decide (q = p)) as [->|]; [apply lookup_insert_eq|by rewrite lookup_insert_ne]. }
  revert r. induction ps as [|q ps IH]; intros r; cbn; [by intros _ ?%elem_of_nil|].
  destruct (refuses q); [done|]. intros Hok [-> |Hp]%elem_of_cons; [|by apply IH]. apply Hkeep. cbn. apply lookup_insert_eq.
Qed.

(** A run's result accounts for every operation: whatever was told and however
    often rows were refused, the rows written for a phone and its open window add up
    to its total, and after a flush that wrote every row the rows alone do. *)
Lemma rows_account_for_totals names start cs now refuses synced p :
  p ∈ names →
  let r := performs cs (newRecorder names start) in
  (∃ w, window r !! p = Some w ∧ total r !! p = Some (stats_add (counted p (rows r)) w)) ∧
  ((flush_rows (phones r) refuses r).1 = true →
   let r' := (flush now refuses synced r).2 in total r' !! p = Some (counted p (rows r'))).
Proof.
  intros Hp r. destruct (performs_conserved cs _ (conserved_new names start)) as [Hc E]. fold r in Hc, E. cbn in E. split.
  - destruct (proj1 Hc p) as [w Hw]; [by rewrite E|]. exists w. split; [done|]. by apply Hc.
  - intros Hok. unfold flush. pose proof (flush_rows_empties (phones r) refuses r p Hok ltac:(by rewrite E)) as Hw.
    destruct (conserved_flush (phones r) refuses r ltac:(done) Hc) as [_ H2].
    destruct (flush_rows (phones r) refuses r) as [[] r1]; cbn in *; [|done]. rewrite (H2 _ _ Hw). f_equal. apply stats_add_new.
Qed.

(** A name listed twice is counted twice in the summary. *)
Lemma duplicate_name_counted_twice :
  let r := performs [CTell "a" 1 true (OSuccess 10 20)] (newRecorder ["a"; "a"] 0) in
  st_ok (summary_total r) = 2 ∧ st_ok (counted "a" (rows (flush 60 (λ _, false) true r).2)) = 1.
Proof. by vm_compute. Qed.

(** ** Percentiles *)
Section ranks.
Context `{FloatLib}.

(** A percentile is one of the latencies. *)
Lemma percentile_member l p : l ≠ [] → percentile l p ∈ l.
Proof.
  intros Hl. unfold percentile. destruct l as [|x l]; [done|]. set (i := Z.to_nat _).
  assert (i < length (x :: l))%nat as Hi by (unfold i, len; cbn [length]; lia).
  destruct (lookup_lt_is_Some_2 (x :: l) i Hi) as [y Hy]. rewrite Hy. cbn. by apply list_elem_of_lookup_2 in Hy.
Qed.
End ranks.

(** It is the nearest rank, for the percentiles and the numbers of operations of
    a minute that occur: at least [p] percent are not above it. *)
Definition nearest_rank (n p : Z) : Z := (n * p + 99) / 100.
Definition no_float : FloatLib := {| unrepresentable _ := 0; FormatFloat _ := ""; ParseFloat _ := None |}.
Definition rank_agrees (n p : Z) : bool := @rank no_float n p =? nearest_rank n p - 1.
Lemma rank_nearest n p : 1 ≤ n ≤ 1200 → p ∈ [50; 95; 99] → @rank no_float n p = nearest_rank n p - 1.
Proof.
  intros Hn Hp. apply Z.eqb_eq. change (rank_agrees n p = true).
  assert (forallb (λ p, forallb (λ i, rank_agrees (Z.of_nat i) p) (seq 1 1200)) [50; 95; 99] = true) as Hall by (vm_compute; reflexivity).
  rewrite forallb_forall in Hall. specialize (Hall p ltac:(by apply list_elem_of_In)). rewrite forallb_forall in Hall.
  specialize (Hall (Z.to_nat n)). rewrite in_seq, Z2Nat.id in Hall by lia. apply Hall. lia.
Qed.

(** ** Pauses *)
Lemma backoff_in_range cur interval ceiling : 0 < interval →
  interval ≤ nextBackoff cur interval ceiling ≤ Z.max interval ceiling.
Proof. unfold nextBackoff. lia. Qed.

(** The backoff after [k] failures in a row doubles from the interval up to the ceiling. *)
Fixpoint after_failures (k : nat) (interval : Z) : Z :=
  match k with O => 0 | S k => nextBackoff (after_failures k interval) interval maxBackoff end.
Lemma backoff_doubles k interval : 0 < interval ≤ maxBackoff →
  after_failures (S k) interval = Z.min (interval * 2 ^ Z.of_nat k) maxBackoff.
Proof.
  intros Hi. induction k as [|k IH].
  - cbn. unfold nextBackoff, maxBackoff, second in *. rewrite wrap64_id by (unfold min_int64, max_int64; lia). lia.
  - change (after_failures (S (S k)) interval) with (nextBackoff (after_failures (S k) interval) interval maxBackoff).
    rewrite IH. unfold nextBackoff. rewrite Nat2Z.inj_succ, Z.pow_succ_r by lia.
    assert (1 ≤ 2 ^ Z.of_nat k) by (apply (Z.pow_le_mono_r 2 0); lia).
    assert (interval ≤ interval * 2 ^ Z.of_nat k) by nia.
    rewrite wrap64_id by (unfold min_int64, max_int64, maxBackoff, second in *; lia).
    unfold maxBackoff, second in *. lia.
Qed.

Lemma startDelay_spread i n ramp : 0 ≤ i < n → 0 ≤ ramp → ramp * i ≤ max_int64 → 0 ≤ startDelay i n ramp ≤ ramp.
Proof.
  intros Hi Hr Hm. unfold startDelay. destruct (Z.leb_spec n 0); [lia|]. rewrite wrap64_id by (unfold min_int64; nia).
  rewrite Z.quot_div_nonneg by nia. split; [apply Z.div_pos; nia|]. apply Z.div_le_upper_bound; nia.
Qed.

(** ** When a run gives up *)
Definition streak_run (limit : Z) (oks : list bool) : Z * bool :=
  fold_left (λ s ok, if s.2 : bool then s else streak_after limit s.1 ok) oks (0, false).

(** The failures at the end of the operations so far. *)
Fixpoint trailing (oks : list bool) : Z :=
  match oks with [] => 0 | false :: l => trailing l + 1 | true :: _ => 0 end.

(** A run stops at the first time the operations of all phones have failed more
    than [limit] times in a row, and never otherwise. *)
Lemma gives_up_after_streak limit oks : 0 ≤ limit →
  (streak_run limit oks).2 = true ↔ ∃ pre post, oks = pre ++ post ∧ limit < trailing (reverse pre).
Proof.
  intros Hl. induction oks as [|ok oks IH] using rev_ind.
  - cbn. split; [done|]. intros (pre & post & E & Ht). symmetry in E. apply app_nil in E as [-> ->]. cbn in Ht. lia.
  - assert ((streak_run limit oks).2 = false → (streak_run limit oks).1 = trailing (reverse oks)) as Hn.
    { clear IH ok. induction oks as [|ok oks IH] using rev_ind; [done|]. unfold streak_run in *. rewrite fold_left_app, reverse_snoc. cbn.
      destruct (fold_left _ oks _) as [n over]. cbn in *. destruct over; [done|]. intros _. rewrite IH by done. by destruct ok. }
    unfold streak_run in *. rewrite fold_left_app. cbn. destruct (fold_left _ oks _) as [n over] eqn:Ef. cbn in *. destruct over.
    { split; [|done]. intros _. destruct (proj1 IH eq_refl) as (pre & post & -> & Ht). exists pre, (post ++ [ok]). by rewrite app_assoc. }
    rewrite Hn in * by done. split.
    + intros Hs. exists (oks ++ [ok]), []. rewrite app_nil_r, reverse_snoc. split; [done|]. cbn. destruct ok; cbn in *; [done|]. zbool. lia.
    + intros (pre & post & E & Ht). destruct post as [|x post _] using rev_ind.
      * rewrite app_nil_r in E. subst pre. rewrite reverse_snoc in Ht. cbn in Ht. destruct ok; cbn in *; [lia|]. apply Z.ltb_lt. lia.
      * rewrite app_assoc in E. apply app_inj_tail in E as [-> ->]. assert (false = true) as [=]. apply IH. by exists pre, post.
Qed.

End Soak.
