(* ===== verification/AttemptTimer.v ===== *)
(** * The time an order gets

    The rest of [acme/chain.go]: the defaults of the chain, when a run has ended,
    the timer of an attempt ([attemptContext]) and the certificates the service
    orders for itself ([ObtainSelf]).

    The timer is a goroutine beside the order: it is a step relation over a clock,
    the order's track and the attempt's context, so that its theorems hold however
    the transport's reports, the run's end and the caller's cancel interleave with
    it, and however late its timer fires. *)
From Stdlib Require Import ZArith Lia String.
From stdpp Require Import base list.
From S2P Require Import Prelude GoStr GoFloat Acme AcmeChain ServeConfig AcmeWire.
Local Open Scope string_scope.
Local Open Scope list_scope.
Local Open Scope Z_scope.

Module AttemptTimer.
Import Acme.

(** ** [NewChainIssuer]; the recorder, the logger and the random source have defaults too *)
Definition defaultRunBudget : Z := 290 * second.
Definition defaultFinalizeGrace : Z := 30 * second.

Record chainIssuer := ChainIssuer { ci_RunBudget : Z; ci_FinalizeGrace : Z; ci_groups : list (list account) }.

Definition NewChainIssuer (nodes : bool) (runBudget finalizeGrace : Z) (accounts : list account) : option chainIssuer :=
  if negb nodes then None
  else Some {|
    ci_RunBudget := if runBudget <=? 0 then defaultRunBudget else runBudget;
    ci_FinalizeGrace := if finalizeGrace <=? 0 then defaultFinalizeGrace else finalizeGrace;
    ci_groups := AcmeChain.groups accounts |}.

(** ** [runEnded]: why a context is over *)
Inductive cause := Canceled | DeadlineExceeded | TimerPanicked.
#[export] Instance cause_eq_dec : EqDecision cause.
Proof. solve_decision. Defined.

Definition runEnded (ctxErr : option cause) (deadline : option Z) (now : Z) : option cause :=
  match ctxErr with
  | Some e => Some e
  | None => match deadline with Some d => if now <? d then None else Some DeadlineExceeded | None => None end
  end.

(** ** [attemptContext] *)

(** Who ended the attempt's context first, and what [context.Cause] says. *)
Inductive ending := ByParent (why : cause) | ByCaller | ByTimer | ByPanic.
Definition cause_of (e : ending) : cause :=
  match e with ByParent why => why | ByCaller => Canceled | ByTimer => DeadlineExceeded | ByPanic => TimerPanicked end.

Inductive timer :=
| First (due : Z)
| Grace (due : Z)
| Cancelling             (* before [cancel(context.DeadlineExceeded)] *)
| Over.

Record tstate := TState {
  ts_now : Z;
  ts_track : orderTrack;
  ts_timer : timer;
  ts_ended : option (ending * Z);    (* the attempt's context: who ended it and when *)
  ts_saw : option bool               (* what the timer read of the track when it first fired *)
}.
Definition tstart (t0 timeout : Z) (tr : orderTrack) : tstate := TState t0 tr (First (t0 + timeout)) None None.

(** Only the first cancellation of a context counts. *)
Definition cancel (why : ending) (s : tstate) : tstate :=
  TState (ts_now s) (ts_track s) (ts_timer s)
    (match ts_ended s with Some e => Some e | None => Some (why, ts_now s) end) (ts_saw s).
Definition with_timer (t : timer) (s : tstate) : tstate :=
  TState (ts_now s) (ts_track s) t (ts_ended s) (ts_saw s).
Definition with_track (tr : orderTrack) (s : tstate) : tstate :=
  TState (ts_now s) tr (ts_timer s) (ts_ended s) (ts_saw s).

Inductive tstep (grace : Z) : tstate → tstate → Prop :=
| ts_elapse s d : 0 ≤ d → tstep grace s (TState (ts_now s + d) (ts_track s) (ts_timer s) (ts_ended s) (ts_saw s))
(* the transport's reports *)
| ts_setOrder s o f : tstep grace s (with_track (setOrder o f (ts_track s)) s)
| ts_markSent s m u : tstep grace s (with_track (markSent m u (ts_track s)).2 s)
| ts_markAnswered s r : tstep grace s (with_track (markAnswered r (ts_track s)) s)
| ts_markFinalized s : tstep grace s (with_track (markFinalized (ts_now s) (ts_track s)) s)
(* the run's context ends; the caller's own cancel; a recovered panic of the timer *)
| ts_parent s why : tstep grace s (cancel (ByParent why) s)
| ts_caller s : tstep grace s (cancel ByCaller s)
| ts_panic s : ts_timer s ≠ Over → tstep grace s (with_timer Over (cancel ByPanic s))
(* the goroutine; a [select] with both cases ready takes either *)
| ts_done s : ts_ended s ≠ None → (∃ due, ts_timer s = First due ∨ ts_timer s = Grace due) → tstep grace s (with_timer Over s)
| ts_fire s due : ts_timer s = First due → due ≤ ts_now s →
    tstep grace s (TState (ts_now s) (ts_track s)
                     (if finalizeSent (ts_track s) then Grace (ts_now s + grace) else Cancelling)
                     (ts_ended s) (Some (finalizeSent (ts_track s))))
| ts_grace s due : ts_timer s = Grace due → due ≤ ts_now s → tstep grace s (with_timer Cancelling s)
| ts_cancel s : ts_timer s = Cancelling → tstep grace s (with_timer Over (cancel ByTimer s)).

(** ** [ObtainSelf] *)
Section self.
Context {Key DER : Type}.
Context (CreateCertificateRequest : list string * string → Key → option DER).
Context (ParseCertificateRequest : DER → option (list string * string)).
Context (encodeKey : Key → option string).            (* the key's PEM *)

(** [run]: the spillover over the chain, for a CSR, a name and a current authority. *)
Definition ObtainSelf {A S} (key : option Key) (run : list string * string → string → string → S → option A * S)
    (host curCA : string) (s : S) : option (A * string) * S :=
  match key with
  | None => (None, s)
  | Some key =>
      match CreateCertificateRequest ([host], host) key with
      | None => (None, s)
      | Some der =>
          match ParseCertificateRequest der with
          | None => (None, s)
          | Some csr =>
              let '(r, s) := run csr host curCA s in
              match r with
              | None => (None, s)
              | Some c => match encodeKey key with None => (None, s) | Some k => (Some (c, k), s) end
              end
          end
      end
  end.
End self.

(** ** The chain that is built *)
Lemma NewChainIssuer_spec runBudget grace accounts :
  ∃ c, NewChainIssuer true runBudget grace accounts = Some c ∧
    0 < ci_RunBudget c ∧ 0 < ci_FinalizeGrace c ∧
    Forall (λ g, g ≠ [] ∧ ∃ ca, g = AcmeChain.group_of accounts ca) (ci_groups c).
Proof.
  eexists. split; [done|]. cbn -[AcmeChain.groups]. unfold defaultRunBudget, defaultFinalizeGrace, second.
  split; [zcase|]. split; [zcase|]. apply Forall_forall. intros g Hg.
  apply list_elem_of_In, List.filter_In in Hg as [Hg Hne].
  apply negb_true_iff, bool_decide_eq_false_1 in Hne. split; [done|].
  apply in_map_iff in Hg as (ca & <- & _). by exists ca.
Qed.

(** A run is over as soon as its deadline has passed, also before its context says so. *)
Lemma runEnded_spec ctxErr deadline now :
  runEnded ctxErr deadline now = None ↔ ctxErr = None ∧ ∀ d, deadline = Some d → now < d.
Proof.
  destruct ctxErr as [e|]; cbn; [by split; [|intros []]|]. destruct deadline as [d|]; [|by split].
  destruct (Z.ltb_spec now d).
  - split; [|done]. intros _. split; [done|]. by intros ? [= <-].
  - split; [done|]. intros [_ Hd]. specialize (Hd d eq_refl). lia.
Qed.

(** ** What the timer guarantees *)

Record timer_inv (t0 timeout grace : Z) (s : tstate) : Prop := {
  ti_first : ts_now s < t0 + timeout → ts_saw s = None;
  ti_due due : ts_timer s = First due → due = t0 + timeout ∧ ts_saw s = None;
  ti_grace due : ts_timer s = Grace due → ts_saw s = Some true ∧ t0 + timeout + grace ≤ due;
  ti_cancelling : ts_timer s = Cancelling →
    t0 + timeout ≤ ts_now s ∧ (ts_saw s = Some false ∨ (ts_saw s = Some true ∧ t0 + timeout + grace ≤ ts_now s));
  ti_ended at_ : ts_ended s = Some (ByTimer, at_) →
    t0 + timeout ≤ at_ ∧ at_ ≤ ts_now s ∧ (ts_saw s = Some false ∨ (ts_saw s = Some true ∧ t0 + timeout + grace ≤ at_))
}.

Lemma timer_start t0 timeout grace tr : timer_inv t0 timeout grace (tstart t0 timeout tr).
Proof. split; cbn; try done. by intros due [= <-]. Qed.

Lemma cancel_other t0 timeout grace e s : e ≠ ByTimer → timer_inv t0 timeout grace s → timer_inv t0 timeout grace (cancel e s).
Proof.
  intros He [H1 H2 H3 H4 H5]. split; cbn; try done. destruct (ts_ended s) as [[e' at0]|] eqn:E; [by apply H5|]. congruence.
Qed.

Lemma stop_timer t0 timeout grace s : timer_inv t0 timeout grace s → timer_inv t0 timeout grace (with_timer Over s).
Proof. intros [H1 H2 H3 H4 H5]. by split. Qed.

Lemma track_other t0 timeout grace tr s : timer_inv t0 timeout grace s → timer_inv t0 timeout grace (with_track tr s).
Proof. intros [H1 H2 H3 H4 H5]. by split. Qed.

Lemma timer_step t0 timeout grace s s' : 0 ≤ grace → tstep grace s s' → timer_inv t0 timeout grace s → timer_inv t0 timeout grace s'.
Proof.
  intros Hg Hs Hi. destruct Hs as [s d Hd|s o f|s m u|s r|s|s why|s|s Hr|s Hn Hr|s due Hr Hd|s due Hr Hd|s Hr]; auto using cancel_other, stop_timer, track_other.
  - destruct Hi as [H1 H2 H3 H4 H5]. split; cbn; auto.
    + intros Hn. apply H1. lia.
    + intros Ht. destruct (H4 Ht) as [? [?|[? ?]]]; split; try lia; [by left|right; split; [done|lia]].
    + intros at_ Ht. destruct (H5 at_ Ht) as (? & ? & ?). split_and!; try lia. done.
  - destruct Hi as [H1 H2 H3 H4 H5]. destruct (H2 _ Hr) as [-> Hsaw]. destruct (finalizeSent (ts_track s)); split; cbn; try done; try lia.
    + intros due' [= <-]. split; [done|lia].
    + intros at_ (_ & _ & [?|[? _]])%H5; congruence.
    + intros _. split; [lia|by left].
    + intros at_ (_ & _ & [?|[? _]])%H5; congruence.
  - destruct Hi as [H1 H2 H3 H4 H5]. destruct (H3 _ Hr) as [Hsaw Hg']. split; cbn; try done.
    intros _. split; [lia|right; split; [done|lia]].
  - apply stop_timer. destruct Hi as [H1 H2 H3 H4 H5]. destruct (H4 Hr) as [Hn Hc]. split; cbn; try done.
    destruct (ts_ended s) as [[e at0]|]; [apply H5|]. intros at_ [= <-]. split_and!; [lia|lia|done].
Qed.

Lemma timer_reachable t0 timeout grace tr s : 0 ≤ grace → run (tstep grace) (tstart t0 timeout tr) s → timer_inv t0 timeout grace s.
Proof.
  intros Hg Hr. eapply (run_invariant (tstep grace)); [|done|apply timer_start]. intros. by eapply timer_step.
Qed.

(** An order the authority accepted stays accepted, and is seen by a timer that
    fires later. *)
Definition will_see (s : tstate) : Prop := t_finalizedAt (ts_track s) ≠ None ∧ ts_saw s ≠ Some false.
Lemma will_see_step grace s s' : tstep grace s s' → will_see s → will_see s'.
Proof.
  intros Hs [Ha Hb]. destruct Hs; try by split.
  - split; [|done]. cbn. unfold markSent. repeat case_match; done.
  - split; [|done]. cbn. by destruct r.
  - split; [done|]. cbn. unfold finalizeSent. rewrite bool_decide_eq_true_2 by (by apply not_eq_None_Some). by rewrite orb_true_r.
Qed.

(** An attempt gets its time, and an order that is being finalized gets its grace.
    In every interleaving, the timer ends an attempt no earlier than its timeout;
    and if the authority accepted the order before that, no earlier than the
    timeout and the grace. *)
Theorem attempt_gets_its_time t0 timeout grace tr s1 s2 at_ :
  0 ≤ grace → run (tstep grace) (tstart t0 timeout tr) s1 → run (tstep grace) s1 s2 → ts_ended s2 = Some (ByTimer, at_) →
  t0 + timeout ≤ at_ ∧
  (ts_now s1 < t0 + timeout → t_finalizedAt (ts_track s1) ≠ None → t0 + timeout + grace ≤ at_).
Proof.
  intros Hg H1 H2 He. pose proof (timer_reachable _ _ _ _ _ Hg H1) as I1.
  pose proof (timer_reachable _ _ _ _ _ Hg (run_trans _ _ _ _ H1 H2)) as I2.
  destruct (ti_ended _ _ _ _ I2 _ He) as (Hat & _ & Hc). split; [done|]. intros Hn Ha.
  assert (will_see s2) as [_ Hw].
  { eapply (run_invariant (tstep grace) will_see); [intros; by eapply will_see_step|done|].
    split; [done|]. by rewrite (ti_first _ _ _ _ I1 Hn). }
  by destruct Hc as [?|[_ ?]].
Qed.

(** An order that is finalized at half its time uses the grace. *)
Lemma grace_used : ∃ s, run (tstep 30) (tstart 0 10 (newOrderTrack no_bucket no_bucket)) s ∧ ts_ended s = Some (ByTimer, 40).
Proof.
  eexists. split.
  - eapply run_step; [by apply (ts_elapse _ _ 5)|]. eapply run_step; [apply ts_markFinalized|].
    eapply run_step; [by apply (ts_elapse _ _ 5)|]. eapply run_step; [by apply (ts_fire _ _ 10)|].
    eapply run_step; [by apply (ts_elapse _ _ 30)|]. eapply run_step; [by apply (ts_grace _ _ 40)|].
    apply run_one. by apply ts_cancel.
  - done.
Qed.

(** The goroutine of the timer never outlives its use: once the context is over it
    can end at once, and it can always end by itself. *)
Lemma timer_can_end grace s : 0 ≤ grace → ∃ s', run (tstep grace) s s' ∧ ts_timer s' = Over.
Proof.
  intros Hg.
  assert (∀ s, ts_timer s = Cancelling → ∃ s', run (tstep grace) s s' ∧ ts_timer s' = Over) as Hc.
  { intros s0 E. eexists. split; [by apply run_one, ts_cancel|done]. }
  assert (∀ s due, ts_timer s = Grace due → ∃ s', run (tstep grace) s s' ∧ ts_timer s' = Over) as Hgr.
  { intros s0 due E. edestruct (Hc (with_timer Cancelling (TState (ts_now s0 + Z.max 0 (due - ts_now s0)) (ts_track s0) (ts_timer s0) (ts_ended s0) (ts_saw s0))))
      as (s' & Hr & Ho); [done|]. exists s'. split; [|done].
    eapply run_step; [apply (ts_elapse _ _ (Z.max 0 (due - ts_now s0))); lia|].
    eapply run_step; [|done]. apply (ts_grace _ _ due); [done|cbn; lia]. }
  destruct (ts_timer s) as [due|due| |] eqn:E; [|by eapply Hgr|by apply Hc|by exists s; split; [constructor|]].
  set (s1 := TState (ts_now s + Z.max 0 (due - ts_now s)) (ts_track s) (ts_timer s) (ts_ended s) (ts_saw s)).
  assert (run (tstep grace) s s1) as Hr1 by (apply run_one; apply ts_elapse; lia).
  assert (tstep grace s1 (TState (ts_now s1) (ts_track s1) (if finalizeSent (ts_track s1) then Grace (ts_now s1 + grace) else Cancelling)
    (ts_ended s1) (Some (finalizeSent (ts_track s1))))) as Hf by (apply (ts_fire _ _ due); [done|cbn; lia]).
  destruct (finalizeSent (ts_track s1)) eqn:Ef.
  - edestruct Hgr as (s' & Hr & Ho); [|exists s'; split; [eapply run_trans; [exact Hr1|eapply run_step; [exact Hf|exact Hr]]|done]]. done.
  - edestruct Hc as (s' & Hr & Ho); [|exists s'; split; [eapply run_trans; [exact Hr1|eapply run_step; [exact Hf|exact Hr]]|done]]. done.
Qed.

(** ** Marks outlive attempts *)

(** The mark a 429 answer leaves on an account lives longer than any attempt that
    started before it, with its grace and the time to settle: for accounts the chain
    accepts. *)
Lemma mark_outlives_attempt `{ConfigEnv} {Key} (ls : list (AcmeWire.LegoConfig (Key := Key))) gs left_ :
  AcmeWire.NewChain ServeConfig.MaxACMEAttemptTimeout ls = Ok gs →
  Forall (λ g, Forall (λ a : account,
    Z.min (a_timeout a) left_ + defaultFinalizeGrace + AcmeWire.settleTimeout <
    AcmeWire.limitedMarkTTL ServeConfig.MaxACMEAttemptTimeout defaultFinalizeGrace) g) gs.
Proof.
  unfold AcmeWire.NewChain. cbn -[AcmeChain.groups]. intros Hc.
  destruct (AcmeWire.chain_accounts _ ls) as [as_|e] eqn:E; [|done]. injection Hc as <-.
  assert (∀ a, a ∈ as_ → a_timeout a ≤ ServeConfig.MaxACMEAttemptTimeout) as Ha.
  { clear -E. revert as_ E. induction ls as [|l ls IH]; intros as_; cbn; [by intros [= <-] ? ?%elem_of_nil|].
    destruct (Z.ltb_spec ServeConfig.MaxACMEAttemptTimeout (AcmeWire.AttemptTimeout l)); [done|].
    destruct (AcmeWire.chain_accounts _ ls) as [bs|]; [|done]. intros [= <-] a [->|Hin]%elem_of_cons; [cbn; lia|by eapply IH]. }
  destruct (NewChainIssuer_spec 0 0 as_) as (c & [= <-] & _ & _ & Hg). cbn -[AcmeChain.groups] in Hg.
  eapply Forall_impl; [exact Hg|]. intros g [_ [ca ->]]. apply Forall_forall. intros a Hin.
  apply list_elem_of_In, List.filter_In in Hin as [Hin _]. specialize (Ha a ltac:(by apply list_elem_of_In)).
  change (AcmeWire.limitedMarkTTL ServeConfig.MaxACMEAttemptTimeout defaultFinalizeGrace) with (195 * second).
  change ServeConfig.MaxACMEAttemptTimeout with (100 * second) in Ha. unfold defaultFinalizeGrace, AcmeWire.settleTimeout, second in *. lia.
Qed.

(** ** The service's own certificates *)

(** A certificate the service orders for itself is ordered for the host alone, and
    comes with the key its request was made with. *)
Lemma self_certificate_matches_key {Key DER A S} Create Parse encode (key : Key) run host cur (s s' : S) (c : A) k :
  (∀ t (key : Key) (der : DER), Create t key = Some der → Parse der = Some t) →
  ObtainSelf Create Parse encode (Some key) run host cur s = (Some (c, k), s') →
  encode key = Some k ∧ run ([host], host) host cur s = (Some c, s') ∧
  AcmeChain.fqdn_of (Some ([host], host)) host = host.
Proof.
  intros Hlaw. unfold ObtainSelf. destruct (Create _ key) as [der|] eqn:E; [|done]. rewrite (Hlaw _ _ _ E).
  destruct (run _ _ _ s) as [[c'|] s1]; [|done]. destruct (encode key) as [k'|]; [|done]. by intros [= -> -> ->].
Qed.

End AttemptTimer.
