(* ===== verification/SpoolLock.v ===== *)
(** * One process per spool directory

    [Spool] works on a directory of its own; this is what makes it so: the lock
    file that [NewConnLogSpool] takes before it reads the directory and that
    [Drain] gives back ([lockDir], [releaseLock] of [store/spool.go]).  A lock of
    flock(2) belongs to an open file: the system gives it to one of them at a time
    and takes it back when the file is closed, at the latest when the process ends.

    Spools are opened, drained and killed in any order; each has a number. *)
From Stdlib Require Import ZArith Lia String.
From stdpp Require Import gmap.
From S2P Require Import Prelude.

Module SpoolLock.

Inductive lock_error := OpenLock | LockFd | InUse | LockSys.

(** The calls that may fail besides a lock that is taken. *)
Record calls := Calls { opens : bool; has_fd : bool; flock_works : bool }.

(** [owner]: whose file has the lock. *)
Definition lockDir (p : nat) (k : calls) (owner : option nat) : result lock_error unit * option nat :=
  if negb (opens k) then (Err OpenLock, owner)
  else if negb (has_fd k) then (Err LockFd, owner)
  else if negb (flock_works k) then (Err LockSys, owner)
  else match owner with
       | Some _ => (Err InUse, owner)
       | None => (Ok tt, Some p)
       end.

(** The system closes the file of [p]. *)
Definition closed (p : nat) (owner : option nat) : option nat := if decide (owner = Some p) then None else owner.
(** A close that fails may leave the file open. *)
Definition releaseLock (p : nat) (left_open : bool) (owner : option nat) : option nat :=
  if left_open then owner else closed p owner.

Inductive phase :=
| Recovering                  (* the lock is held, [recoverSpool] runs *)
| Working                     (* from the start of the goroutines to the end of [Drain] *)
| Stopped                     (* refused, or the lock was given back *)
| Gone.                       (* the process ended *)

Definition uses_dir (ph : phase) : bool := match ph with Recovering | Working => true | _ => false end.

Record dir_state := Dir { owner : option nat; spools : gmap nat phase }.
Definition dstart : dir_state := Dir None ∅.

(** [NewConnLogSpool] up to the recovery. *)
Definition open_spool (p : nat) (k : calls) (s : dir_state) : result lock_error unit * dir_state :=
  let '(r, o) := lockDir p k (owner s) in
  (r, Dir o (<[p := match r with Ok _ => Recovering | Err _ => Stopped end]> (spools s))).

Inductive dstep : dir_state → dir_state → Prop :=
| ds_open s p k : spools s !! p = None → dstep s (open_spool p k s).2
| ds_recovered s p : spools s !! p = Some Recovering → dstep s (Dir (owner s) (<[p := Working]> (spools s)))
| ds_recover_fails s p left_open : spools s !! p = Some Recovering →
    dstep s (Dir (releaseLock p left_open (owner s)) (<[p := Stopped]> (spools s)))
| ds_drained s p left_open : spools s !! p = Some Working →
    dstep s (Dir (releaseLock p left_open (owner s)) (<[p := Stopped]> (spools s)))
| ds_exit s p ph : spools s !! p = Some ph → dstep s (Dir (closed p (owner s)) (<[p := Gone]> (spools s))).

(** Whoever uses the directory has the lock, and the lock is of a process that is alive. *)
Record dir_inv (s : dir_state) : Prop := {
  di_uses p ph : spools s !! p = Some ph → uses_dir ph = true → owner s = Some p;
  di_owner p : owner s = Some p → ∃ ph, spools s !! p = Some ph ∧ ph ≠ Gone
}.

Lemma closed_other p q o : q ≠ p → o = Some q → closed p o = Some q.
Proof. intros Hq ->. unfold closed. by rewrite decide_False by congruence. Qed.
Lemma closed_owner p q o : closed p o = Some q → o = Some q ∧ q ≠ p.
Proof. unfold closed. case_decide as Hd; [done|]. intros ->. split; congruence. Qed.

(** One spool changes its phase, and at most gives the lock back. *)
Lemma dir_move s p old new o : dir_inv s → spools s !! p = Some old →
  (o = owner s ∧ new ≠ Gone ∧ (uses_dir new = true → uses_dir old = true)) ∨ (o = closed p (owner s) ∧ uses_dir new = false) →
  dir_inv (Dir o (<[p := new]> (spools s))).
Proof.
  intros [H1 H2] Hp Ho. split; cbn [owner spools]; intros q.
  - intros ph. destruct (decide (q = p)) as [->|Hne].
    + rewrite lookup_insert_eq. intros [= <-] Hu. destruct Ho as [(-> & _ & Hk)|[_ Hk]]; [eauto|congruence].
    + rewrite lookup_insert_ne by done. intros Hq Hu. destruct Ho as [[-> _]|[-> _]]; [eauto|]. apply closed_other; eauto.
  - intros Hq. destruct Ho as [(-> & Hg & _)|[-> _]].
    + destruct (decide (q = p)) as [->|Hne]; [rewrite lookup_insert_eq; eauto|rewrite lookup_insert_ne by done; eauto].
    + apply closed_owner in Hq as [Hq Hne]. rewrite lookup_insert_ne by done. eauto.
Qed.

Lemma dir_step s s' : dir_inv s → dstep s s' → dir_inv s'.
Proof.
  intros Hi Hs. destruct Hs as [s p k Hp|s p Hp|s p l Hp|s p l Hp|s p ph Hp].
  - destruct Hi as [H1 H2]. unfold open_spool, lockDir.
    assert (dir_inv (Dir (owner s) (<[p := Stopped]> (spools s)))) as Hrefused.
    { split; cbn; intros q; destruct (decide (q = p)) as [->|Hne].
      - intros ph. rewrite lookup_insert_eq. by intros [= <-].
      - intros ph. rewrite lookup_insert_ne by done. apply H1.
      - intros (ph & ? & _)%H2. congruence.
      - rewrite lookup_insert_ne by done. apply H2. }
    destruct (opens k), (has_fd k), (flock_works k); try exact Hrefused. cbn.
    destruct (owner s) as [o|] eqn:E; [by rewrite <- E in *|].
    split; cbn; intros q.
    + intros ph. destruct (decide (q = p)) as [->|Hne]; [done|]. rewrite lookup_insert_ne by done.
      intros Hq Hu. specialize (H1 q ph Hq Hu). congruence.
    + intros [= <-]. rewrite lookup_insert_eq. eauto.
  - eapply dir_move; [done|done|]. left. done.
  - eapply dir_move; [done|done|]. destruct l; [left|right]; done.
  - eapply dir_move; [done|done|]. destruct l; [left|right]; done.
  - eapply dir_move; [done|done|]. by right.
Qed.

Lemma dir_reachable s : run dstep dstart s → dir_inv s.
Proof. intros Hr. eapply (run_invariant dstep); [apply dir_step|done|]. by split. Qed.

(** In every interleaving of starts, drains and deaths: one spool at a time recovers,
    writes or uploads in the directory; while one does, another start is refused;
    and when the last one has died, a start whose calls work gets the directory. *)
Theorem directory_used_by_one s : run dstep dstart s →
  (∀ p q a b, spools s !! p = Some a → spools s !! q = Some b → uses_dir a = true → uses_dir b = true → p = q) ∧
  (∀ p a q k, spools s !! p = Some a → uses_dir a = true → is_ok (open_spool q k s).1 = false) ∧
  (∀ q, (∀ p a, spools s !! p = Some a → a = Gone) → (open_spool q (Calls true true true) s).1 = Ok tt).
Proof.
  intros Hr. destruct (dir_reachable s Hr) as [H1 H2]. split_and!.
  - intros p q a b Hp Hq Ha Hb. pose proof (H1 p a Hp Ha). pose proof (H1 q b Hq Hb). congruence.
  - intros p a q k Hp Ha. unfold open_spool, lockDir. rewrite (H1 p a Hp Ha). by destruct (opens k), (has_fd k), (flock_works k).
  - intros q Hg. unfold open_spool, lockDir. cbn. destruct (owner s) as [o|] eqn:E; [|done].
    destruct (H2 o eq_refl) as (ph & Hp & Hne). destruct Hne. by eapply Hg.
Qed.

End SpoolLock.
